(* ===== verification/_CoqProject ===== *)
-Q . S2P
Prelude.v
Json.v
Aes.v
GoTime.v
AppErrors.v
Tx.v
Events.v
Domain.v
Pagination.v
Repository.v
Authz.v
Runs.v
Outbox.v
Total.v
Http.v
Calls.v
Store.v
DeploymentService.v
Argo.v
StoreFacts.v
Spec.v
ServiceFacts.v
ArgoFacts.v
AgentApi.v
AgentFacts.v
BuildConsumer.v
Relay.v
Api.v
Guarantees.v
RelayFacts.v
System.v
History.v
Demo.v
ServiceCorrectness.v
SystemCorrectness.v
AgentCorrectness.v
Rollout.v
Effects.v
ControlPlane.v
K8s.v
Manager.v
ManagerFacts.v
Reconciler.v
ReconcilerFacts.v
AgentDemo.v
ReconcilerCorrectness.v
ReportCorrectness.v
ClusterStore.v
ClusterService.v
ClusterApi.v
ClusterSpec.v
ClusterFacts.v
ClusterSteps.v
ClusterCorrectness.v
ClusterCompleteness.v
Relational.v
Encodings.v
Credentials.v
AuthStore.v
AuthService.v
Gateway.v
AuthSpec.v
AuthFacts.v
AuthSteps.v
AuthCorrectness.v
SecretStore.v
SecretService.v
SecretPrivacy.v
SecretSpec.v
SecretFacts.v
SecretSteps.v
SecretCorrectness.v
AgentState.v
AgentRun.v
RegistrationFacts.v
AgentServer.v
Syncer.v
SyncerFacts.v
SyncerServer.v
SyncerCorrectness.v
