(* ===== verification/Prelude.v ===== *)
(** * BDS platform: a verified model of its control plane and agent

    The platform deploys applications to customers' Kubernetes clusters.  Its
    backend is a set of Go services on PostgreSQL (src/backend/services) built
    on shared libraries (src/backend/libs); every service writes its events to
    an outbox table in the transaction that changes its data, and a relay
    publishes them to a NATS stream.  An agent in every customer cluster
    (src/agents/platform-agent) registers with the control plane, pulls the
    desired state and the secrets and reconciles its cluster with them.  This
    development models the deployment, cluster, secrets and authentication
    services, the authentication at the gateway, the libraries they use and the
    agent, and proves what makes them correct.

    ** Parts, files and code

    Libraries (src/backend/libs):
    - [Prelude]: results, the parts of Go's [strings] and [strconv] in use, and
      lemmas on strings, lists and integers.  [Json]: JSON values, their text,
      SHA-256.  [GoTime], [Encodings], [Aes]: the float64 arithmetic, the
      durations, base64, and AES-256 in counter mode with authentication, as far
      as the programs use them of the Go standard library.
    - [AppErrors]: errors/errors.go, database/errors.go.
    - [Tx]: database/tx.go.  A session holds the store as the transaction sees
      it, the tenant setting, PostgreSQL's aborted flag and a list of faults to
      inject (one per round trip); computations [M S W] are explicit state
      passing over it.  [WithTenant] with its retries and savepoints is here.
    - [Events]: events/envelope.go, versioning.go, retry.go, memory.go and the
      acknowledgements of subscriber.go.  [Outbox]: events/outbox.go over any
      store that has the table (class [OutboxTable]).  [Relay]: events/relay.go
      and publisher.go, and of the stream what events/conn.go configures: a
      message with the id of one published in the last two minutes is dropped,
      and messages older than seven days are no longer retained.
    - [Pagination], [Repository]: database/pagination.go and repository.go, and
      row-level security.  [Authz]: authz/authz.go and membership.go; the member
      store is the interface of the code (class [OrgMemberStore]), implemented
      over any store with the table (class [MembersTable]).
    - [Http]: the name checks and the HTTP middleware that the services define
      with the same text.
    - [Runs], [Total], [Calls], [Relational]: proof rules.  [runs]
      and [ensures] describe a transactional method under any faults; [frame]
      what no statement changes; [total] says that a method succeeds when nothing
      fails; [performs], [permits] and [clean] what a call may do to the machine
      that specifies the tables; [Relational] relates two runs; the end
      of [Total] has the identifiers and codecs of concrete scenarios.

    Deployment service (src/backend/services/deployment/internal):
    - [Domain] (domain.go, rollout.go, events.go), [Store] (repository.go and the
      tables of migrations/deployment as finite maps), [DeploymentService]
      (service.go), [AgentApi] (agent_*.go), [BuildConsumer] (build_consumer.go),
      [Argo] (argocd_translate.go, argocd_service.go, argocd_monitor.go and, of
      libs/argocd, types.go and client.go; argocd_domain.go is in [Domain] and
      argocd_repository.go in [Store]), [Api] (handlers.go,
      argocd_handlers.go, middleware.go, routes.go).  The registrar of
      [DeploymentService] is implemented by [Argo], which writes the binding and
      the rollout status; Argo CD's own API is the record [ArgoClient], of any
      answers.
    - [Spec]: the abstract machine of its data ([change]) with the invariant [wf];
      [StoreFacts], [ServiceFacts], [ArgoFacts], [AgentFacts], [RelayFacts]: the
      exact result of each operation; [Guarantees]: every call is a run of the
      machine; [System]: service, agents, consumer, monitor and relay as one
      transition system; [History]: what only grows.  [Demo]: a concrete scenario.
    - [ServiceCorrectness], [AgentCorrectness], [SystemCorrectness]: the
      properties.

    Cluster service (src/backend/services/cluster/internal):
    - [ClusterStore] (domain.go, repository.go, events.go), [ClusterService]
      (service.go, crypto.go, agent_handlers.go), [ClusterApi] (handlers.go,
      routes.go); [ClusterSpec]: machine [cchange], invariant [cwf], history
      [kept]; [ClusterFacts], [ClusterSteps]: every call is a run of it;
      [ClusterCorrectness], [ClusterCompleteness]: the properties.

    Secrets service (src/backend/services/secrets/internal):
    - [SecretStore] (domain.go, repository.go, encryption.go), [SecretService]
      (service.go, handlers.go, routes.go, agent_handlers.go); [SecretSpec]:
      machine and invariant, and the key-value store of plaintexts the service
      implements; [SecretFacts], [SecretSteps]: every call is a run of it;
      [SecretPrivacy]: two runs that differ in the values written;
      [SecretCorrectness]: the properties.

    Authentication service (src/backend/services/auth/internal):
    - [Credentials]: one-time passwords (totp.go) and password hashes
      (password.go).  [AuthStore] (domain.go, repository.go, events.go and the
      tables of migrations/auth), [AuthService] (tokens.go, jwt.go, service.go,
      service_accounts.go, handlers.go, middleware.go, routes.go and
      libs/security/sessions.go).  The Go code shares one mutable user between a
      method and its transaction; the session's outside holds it ([captured]),
      next to the revocation store and the mailbox.
    - [AuthSpec]: the machine of its data ([achange]), invariant [awf] and
      history [akept]; [AuthFacts]: the exact result of each call; [AuthSteps]:
      every call is a run of the machine, and the service as a transition system
      in which a refresh is two steps (its checks, then its transaction), other
      calls in between; [AuthCorrectness]: the properties.
    - [Gateway] (src/backend/services/gateway/internal): auth/auth.go and
      errors.go, middleware/middleware.go and revocation.go.

    Agent (src/agents/platform-agent/internal):
    - [Rollout] (rollout/rollout.go), [Effects] (its monad), [ControlPlane]
      (controlplane), [K8s] (the Kubernetes API, a parameter), [Manager]
      (k8s/manager.go), [Reconciler] (reconciler/reconciler.go); [ManagerFacts],
      [ReconcilerFacts]; [AgentDemo] (an in-memory cluster that keeps the
      promises the theorems rely on); [ReconcilerCorrectness],
      [ReportCorrectness]: the properties.
    - [Effects] also has what the agent relies on of the operating system, with
      crashes; [AgentState] (agent/state.go), [AgentRun] (agent/agent.go: registration and
      recovery), [RegistrationFacts]; [AgentServer]: the agent against the
      cluster service.
    - [Syncer] (secrets/syncer.go), [SyncerFacts]; [SyncerServer]: the syncer
      against the secrets service; [SyncerCorrectness]: the properties.

    ** What the theorems show

    - Isolation and integrity: every call, whoever makes it and whichever
      statements fail, acts inside one tenant, keeps the data invariants, and
      either commits one run of its transaction or changes nothing
      ([call_isolated], [reachable_states_sound], [WithTenant_atomic],
      [cluster_states_sound], [cluster_requests_guarded], [secrets_sound],
      [secret_requests_guarded]).
    - History: versions grow, published releases and recorded events stay, used
      tokens and deleted secrets are final ([history_never_rewritten],
      [no_lost_update], [used_token_recovers], [secrets_sound]).
    - Function: the exact database, response and events of creating, updating
      and rolling back deployments, of progress reports, of generated tokens, of
      registrations, heartbeats and the disconnection sweep ([..._correct]).
    - Secrets: the service is a key-value store of plaintexts ([secrets_refine]),
      gives agents nothing but the secrets of the projects deployed on their
      cluster, and those only with a user's access token that the routes put in
      front of the agent's and a database role that bypasses the row-level
      security ([agent_secrets_exact]), accepts of each nonce and ciphertext one
      tag only ([encryption_authentic]), and does not show values to users: two
      runs that differ in the values written answer alike
      ([secret_values_confidential]).
    - Accounts: no sequence of requests breaks the data of the authentication
      service ([auth_states_sound]); logins, resets and second factors do what
      they say on every branch ([Login_correct], [password_reset_correct],
      [second_factor_proven]); five wrong passwords lock an account
      ([failures_lock_account]); a refresh token is good once when refreshes
      follow each other ([refresh_single_use]) and twice when two overlap
      ([refreshes_race]); requests are confined to what the caller may
      ([account_requests_guarded]).  With the gateway: a login's token is
      accepted for its user ([login_token_identifies]), and no longer once its
      session has ended ([ended_sessions_rejected]), but that of a service account
      passes for a user's ([service_account_passes_as_user]).
    - Delivery: every event of the outbox is published in order, at least once,
      and again only after the window in which the stream drops duplicates; build
      events take effect once ([every_event_delivered], [drain_safe],
      [build_event_processed_once]).
    - Agent: a cycle never touches config maps, volume claims and ingresses that
      are not the platform's, collects exactly what is not desired, reports what it observes, settles, and survives a
      restart ([cluster_cycle_safe], [cleanup_exact], [observe_deployment_correct],
      [applications_settle], [state_survives_restart]).  Its state file is
      replaced atomically, crashes included ([SaveState_atomic]); registration
      ends as the control plane decided ([registration_outcome]); the syncer
      writes exactly what it was given and only where it may ([sync_outcome],
      [sync_spares_foreign]).
    - End to end: a lost agent gets its identity back from the cluster service
      ([lost_agent_recovers]); a cycle of the syncer as it is changes nothing,
      because it sends no access token, and with one added on its way it leaves in
      the cluster the plaintexts the secrets service stores
      ([fresh_sync_delivers]).
    - Liveness: without faults valid requests are served
      ([CreateDeployment_succeeds], [registration_served], [heartbeat_served]).

    ** Conventions and bounds

    - The store of a session is read and written one statement at a time inside
      one transaction; transactions of different callers are interleaved as
      wholes (reads before a transaction are steps of their own where [AuthSteps]
      says so).  Anomalies PostgreSQL's read-committed level allows between the
      statements of concurrent transactions are not modelled; what guards against
      lost updates (version checks) is proved to do so.
    - Faults are a finite list consumed by round trips (begin, statements,
      commit); theorems without a [quiet] or [healthy] hypothesis hold for every
      such list.  The retry loop runs three attempts, as in the code; the relay's
      loop over batches and the scans carry fuel from the number of rows, and
      their theorems say it is enough.
    - [time.Now] and SQL [now()] are one clock, an integer of nanoseconds stored
      exactly; values are taken to fit their column types; identifiers are drawn
      from an arbitrary generator ([proper_uuids]: never empty), and a retried
      transaction draws fresh ones where the Go closure may reuse the first.
    - The agent's side is a monad of its own ([Effects]) over a world that
      answers each call; loops that poll (registration, the syncer's ticker) carry
      the list of answers or of cycles to come, and theorems hold for every such
      list.
    - Integers of Go are kept in Z where the code only compares, adds small
      constants or stores them; where overflow matters (durations, backoff, SHA-256,
      pagination) the width is written out.

    ** Parameters

    Code that is not under src/ is a parameter: the JSON text of a cursor
    (class [CursorJSON] with its round trip), signing and parsing JWTs
    ([JWTLaws]), Redis ([RevocationLaws]), Argon2 ([IDKey]), random
    bytes, the Kubernetes API and its laws ([Accepts]), the HTTP
    transport, the state file ([StateFileLaws]), what Argo CD answers
    ([ArgoClient]).  [bypassrls] is the
    database role's attribute: whether a session without a tenant sees every row,
    as the comments of the code say, or none, as the policies say.  The witnesses
    instantiate each of them with a concrete function.

    ** Not modelled

    Start-up, configuration, logging, tracing, metrics and health endpoints
    (I/O and glue); request parsing and routing by the HTTP framework (a route is
    a constructor of the request types); the NATS client and the database
    driver; the proxies, route tables and rate limiters of the gateways.  The
    tenant, project, build, provisioning, domain, notification, observability
    and audit services are not modelled:
    their rows that the modelled services read (organizations, projects,
    members) are read-only tables.  Of the deployment service the pipeline
    package (pipeline/*.go and its routes) is not modelled; of libs/argocd the
    HTTP requests are not (their results are the answers of [ArgoClient]), nor
    the client's calls the service does not make (update, delete, refresh, wait).
    [AgentHandler_UpdateDeploymentStatus] does not carry an
    error of a transaction that was run again into the answer of the last run, as
    the code does. *)

From Stdlib Require Export ZArith Lia.
From Stdlib Require DecimalString DecimalZ.
From stdpp Require Export sorting numbers.
From stdpp Require Export base tactics option strings gmap list.

#[export] Set Warnings "-clear-no-such-hyp".

(** ** Results: Go's [(T, error)] pairs with a nil or non-nil error.

    The error type is a parameter here; [AppErrors] instantiates it. *)
Inductive result (E A : Type) : Type :=
| Ok (a : A)
| Err (e : E).
Arguments Ok {E A} a.
Arguments Err {E A} e.

Definition is_ok {E A} (r : result E A) : bool :=
  match r with Ok _ => true | Err _ => false end.

Definition result_map {E A B} (f : A → B) (r : result E A) : result E B :=
  match r with Ok a => Ok (f a) | Err e => Err e end.

(** Translating the error side, as [return MapError(err)] does. *)
Definition map_err {E F A} (f : E → F) (r : result E A) : result F A :=
  match r with Ok a => Ok a | Err e => Err (f e) end.

(** ** The parts of Go's [strings] and [strconv] packages the code uses,
    on byte strings. *)
Module GoStrings.
Fixpoint has_prefix (p s : string) : bool :=
  match p, s with
  | EmptyString, _ => true
  | String a p', String b s' => Ascii.eqb a b && has_prefix p' s'
  | _, EmptyString => false
  end.

Fixpoint drop_str (n : nat) (s : string) : string :=
  match n, s with
  | O, _ => s
  | S n', String _ s' => drop_str n' s'
  | S _, EmptyString => EmptyString
  end.

Fixpoint rev_str_app (s acc : string) : string :=
  match s with
  | EmptyString => acc
  | String a s' => rev_str_app s' (String a acc)
  end.
Definition rev_str (s : string) : string := rev_str_app s "".

Definition of_bytes (bs : list nat) : string :=
  fold_right (λ n s, String (Ascii.ascii_of_nat n) s) EmptyString bs.

(** The UTF-8 encodings of the code points [unicode.IsSpace] accepts. *)
Definition space_runes : list string :=
  of_bytes <$>
    [[9]; [10]; [11]; [12]; [13]; [32];
     [194; 133]; [194; 160]; [225; 154; 128];
     [226; 128; 128]; [226; 128; 129]; [226; 128; 130]; [226; 128; 131];
     [226; 128; 132]; [226; 128; 133]; [226; 128; 134]; [226; 128; 135];
     [226; 128; 136]; [226; 128; 137]; [226; 128; 138];
     [226; 128; 168]; [226; 128; 169]; [226; 128; 175];
     [226; 129; 159]; [227; 128; 128]]%nat.

(** Drops leading runes of [runes] ([fuel] bounds the number of runes; the
    length of the string is always enough, every rune being non-empty). *)
Fixpoint trim_left_runes (fuel : nat) (runes : list string) (s : string) : string :=
  match fuel with
  | O => s
  | S fuel' =>
      match filter (λ r, has_prefix r s = true) runes with
      | r :: _ => trim_left_runes fuel' runes (drop_str (String.length r) s)
      | [] => s
      end
  end.

(** [strings.TrimSpace]. *)
Definition TrimSpace (s : string) : string :=
  let l := trim_left_runes (String.length s) space_runes s in
  rev_str (trim_left_runes (String.length l) (rev_str <$> space_runes) (rev_str l)).

Definition lower_ascii (a : Ascii.ascii) : Ascii.ascii :=
  let n := Ascii.nat_of_ascii a in
  if ((65 <=? n) && (n <=? 90))%nat then Ascii.ascii_of_nat (n + 32) else a.

(** [strings.ToLower] on ASCII, with the two non-ASCII code points whose
    lower case is ASCII (U+0130, U+212A); the remaining bytes are kept: no
    other rune maps to the bytes a slug or an identifier may contain. *)
Fixpoint ToLower (s : string) : string :=
  match s with
  | EmptyString => EmptyString
  | String a s' =>
      let keep := String (lower_ascii a) (ToLower s') in
      match s' with
      | EmptyString => keep
      | String b s2 =>
          if has_prefix (of_bytes [196; 176]%nat) s
          then String (Ascii.ascii_of_nat 105) (ToLower s2)
          else
            match s2 with
            | EmptyString => keep
            | String c s3 =>
                if has_prefix (of_bytes [226; 132; 170]%nat) s
                then String (Ascii.ascii_of_nat 107) (ToLower s3)
                else keep
            end
      end
  end.

(** [strings.TrimPrefix]. *)
Definition TrimPrefix (s p : string) : string :=
  if has_prefix p s then drop_str (String.length p) s else s.

(** [strings.LastIndex]: the position of the last occurrence, if any. *)
Fixpoint LastIndex (s sub : string) : option nat :=
  match s with
  | EmptyString => if has_prefix sub s then Some O else None
  | String _ s' =>
      match LastIndex s' sub with
      | Some i => Some (S i)
      | None => if has_prefix sub s then Some O else None
      end
  end.

Fixpoint take_str (n : nat) (s : string) : string :=
  match n, s with
  | S n', String a s' => String a (take_str n' s')
  | _, _ => EmptyString
  end.

(** [strconv.Itoa]. *)
Definition Itoa (z : Z) : string :=
  DecimalString.NilZero.string_of_int (Z.to_int z).

Definition int64_ok (z : Z) : bool := (- 2 ^ 63 <=? z)%Z && (z <? 2 ^ 63)%Z.

(** [strconv.Atoi]: an optional sign and decimal digits, 64-bit range. *)
Definition Atoi (s : string) : option Z :=
  let num t := option_map Z.of_uint (DecimalString.NilZero.uint_of_string t) in
  let v :=
    match s with
    | String a t =>
        if Ascii.eqb a (Ascii.ascii_of_nat 43) then num t
        else if Ascii.eqb a (Ascii.ascii_of_nat 45) then option_map Z.opp (num t)
        else num s
    | EmptyString => None
    end in
  match v with
  | Some z => if int64_ok z then Some z else None
  | None => None
  end.
End GoStrings.

(** ** Automation shared by the components. *)

(** Splits the first [match]/[if] of the goal or of a hypothesis, solving the
    branches where a constructor equation is contradictory. *)
Ltac split_match :=
  match goal with
  | H : context [match ?x with _ => _ end] |- _ =>
      destruct x eqn:?; simplify_eq/=; try done
  | |- context [match ?x with _ => _ end] =>
      destruct x eqn:?; simplify_eq/=; try done
  end.

Ltac split_matches := repeat split_match.

(** Reads boolean tests as the propositions they decide. *)
Ltac bool_to_prop :=
  repeat match goal with
  | H : _ && _ = true |- _ => apply andb_true_iff in H as [??]
  | H : _ && _ = false |- _ => apply andb_false_iff in H
  | H : _ || _ = true |- _ => apply orb_true_iff in H
  | H : _ || _ = false |- _ => apply orb_false_iff in H as [??]
  | H : negb _ = true |- _ => apply negb_true_iff in H
  | H : negb _ = false |- _ => apply negb_false_iff in H
  | H : String.eqb _ _ = true |- _ => apply String.eqb_eq in H
  | H : String.eqb _ _ = false |- _ => apply String.eqb_neq in H
  | H : (_ <? _)%Z = true |- _ => apply Z.ltb_lt in H
  | H : (_ <? _)%Z = false |- _ => apply Z.ltb_ge in H
  | H : (_ <=? _)%Z = true |- _ => apply Z.leb_le in H
  | H : (_ <=? _)%Z = false |- _ => apply Z.leb_gt in H
  | H : (_ =? _)%Z = true |- _ => apply Z.eqb_eq in H
  | H : (_ =? _)%Z = false |- _ => apply Z.eqb_neq in H
  end.

(** ** Generic lemmas. *)
Lemma string_app_cons a (s t : string) : String a s +:+ t = String a (s +:+ t).
Proof. reflexivity. Qed.

Lemma drop_str_prefix p s : GoStrings.drop_str (String.length p) (p +:+ s) = s.
Proof. induction p; simpl; auto. Qed.

Lemma take_str_prefix p s : GoStrings.take_str (String.length p) (p +:+ s) = p.
Proof. induction p; simpl; [by destruct s | by f_equal]. Qed.

Lemma has_prefix_app p s : GoStrings.has_prefix p (p +:+ s) = true.
Proof. induction p; simpl; [done|]. by rewrite Ascii.eqb_refl. Qed.
Lemma trim_prefix_app p s : GoStrings.TrimPrefix (p +:+ s) p = s.
Proof. unfold GoStrings.TrimPrefix. by rewrite has_prefix_app, drop_str_prefix. Qed.

(** ** Decimal strings and substring search. *)
Fixpoint all_chars (P : Ascii.ascii → bool) (s : string) : bool :=
  match s with EmptyString => true | String a s' => P a && all_chars P s' end.

Definition is_digit (a : Ascii.ascii) : bool :=
  let n := Ascii.nat_of_ascii a in ((48 <=? n) && (n <=? 57))%nat.

Lemma all_chars_impl (P Q : Ascii.ascii → bool) s :
  (∀ a, P a = true → Q a = true) → all_chars P s = true → all_chars Q s = true.
Proof.
  intros HPQ. induction s as [|a s IH]; simpl; [done|].
  intros [Ha Hs]%andb_true_iff. by rewrite (HPQ a Ha), IH.
Qed.

Lemma all_chars_app P s t : all_chars P (s +:+ t) = all_chars P s && all_chars P t.
Proof. induction s; simpl; [done|]. by rewrite IHs, andb_assoc. Qed.

Lemma string_of_uint_digits d :
  all_chars is_digit (DecimalString.NilEmpty.string_of_uint d) = true.
Proof. induction d; simpl; auto. Qed.

Lemma nilzero_uint_digits d :
  all_chars is_digit (DecimalString.NilZero.string_of_uint d) = true.
Proof.
  destruct d as [|d|d|d|d|d|d|d|d|d|d]; [reflexivity|..];
    exact (string_of_uint_digits d).
Qed.

Lemma Itoa_nonneg z :
  (0 ≤ z)%Z → ∃ d, d ≠ Decimal.Nil ∧ Z.of_uint d = z ∧
    GoStrings.Itoa z = DecimalString.NilZero.string_of_uint d.
Proof.
  intros Hz. unfold GoStrings.Itoa. pose proof (DecimalZ.of_to z) as Hrt.
  destruct z as [|p|p]; simpl in *; [|eexists; split_and!; [|exact Hrt|done]|lia].
  - by exists (Decimal.D0 Decimal.Nil).
  - intros Heq. rewrite Heq in Hrt. done.
Qed.

Lemma digits_head_not_sign s a t :
  all_chars is_digit s = true → s = String a t →
  Ascii.eqb a (Ascii.ascii_of_nat 43) = false ∧ Ascii.eqb a (Ascii.ascii_of_nat 45) = false.
Proof.
  intros H ->. simpl in H. apply andb_true_iff in H as [H _].
  split; apply Ascii.eqb_neq; intros ->; done.
Qed.

Lemma Atoi_Itoa z :
  (0 ≤ z < 2 ^ 63)%Z → GoStrings.Atoi (GoStrings.Itoa z) = Some z.
Proof.
  intros Hz. destruct (Itoa_nonneg z) as (d & Hd & Hdz & ->); [lia|].
  pose proof (DecimalString.NilZero.usu d Hd) as Hu.
  pose proof (nilzero_uint_digits d) as Hdig.
  unfold GoStrings.Atoi.
  destruct (DecimalString.NilZero.string_of_uint d) as [|a t] eqn:Hs; [done|].
  destruct (digits_head_not_sign _ a t Hdig eq_refl) as [-> ->].
  rewrite Hu. simpl. rewrite Hdz. unfold GoStrings.int64_ok.
  destruct (Z.leb_spec (- 2 ^ 63) z); [|lia]. by destruct (Z.ltb_spec z (2 ^ 63)); [|lia].
Qed.

Lemma Itoa_no_char a z :
  is_digit a = false → a ≠ Ascii.ascii_of_nat 45 →
  all_chars (λ b, negb (Ascii.eqb a b)) (GoStrings.Itoa z) = true.
Proof.
  intros Ha Hm.
  assert (Hdig : ∀ s, all_chars is_digit s = true →
            all_chars (λ b, negb (Ascii.eqb a b)) s = true).
  { intros s. apply all_chars_impl. intros b Hb. apply negb_true_iff, Ascii.eqb_neq.
    intros ->. congruence. }
  unfold GoStrings.Itoa. destruct (Z.to_int z) as [d|d]; simpl.
  - apply Hdig, nilzero_uint_digits.
  - rewrite (Hdig _ (nilzero_uint_digits d)), andb_true_r.
    by apply negb_true_iff, Ascii.eqb_neq.
Qed.

Lemma LastIndex_absent a sub s :
  all_chars (λ b, negb (Ascii.eqb a b)) s = true →
  GoStrings.LastIndex s (String a sub) = None.
Proof.
  induction s as [|b s IH]; simpl; [done|].
  intros [Hb Hs]%andb_true_iff. rewrite IH by done.
  apply negb_true_iff in Hb. by rewrite Hb.
Qed.

(** The last occurrence of [sub] in [t ++ sub ++ d] is the displayed one when
    the head of [sub] does not occur further right. *)
Lemma LastIndex_last a sub t d :
  all_chars (λ b, negb (Ascii.eqb a b)) (sub +:+ d) = true →
  GoStrings.LastIndex (t +:+ String a sub +:+ d) (String a sub) = Some (String.length t).
Proof.
  intros Hd. induction t as [|b t IH]; simpl.
  - rewrite LastIndex_absent by done. by rewrite Ascii.eqb_refl, has_prefix_app.
  - by rewrite IH.
Qed.

Lemma string_length_app (s t : string) :
  String.length (s +:+ t) = (String.length s + String.length t)%nat.
Proof. induction s as [|a s IH]; [done|]. rewrite string_app_cons. simpl. by rewrite IH. Qed.

Lemma string_app_assoc (s t u : string) : (s +:+ t) +:+ u = s +:+ t +:+ u.
Proof. induction s as [|a s IH]; [done|]. by rewrite !string_app_cons, IH. Qed.

Lemma string_app_inv_tail_length (t1 t2 u1 u2 : string) :
  t1 +:+ u1 = t2 +:+ u2 → String.length t1 = String.length t2 → t1 = t2 ∧ u1 = u2.
Proof.
  revert t2; induction t1 as [|a t1 IH]; intros [|b t2]; [done..|].
  rewrite !string_app_cons. intros [= -> Heq] [= Hlen].
  by destruct (IH t2 Heq Hlen) as [-> ->].
Qed.

Lemma Itoa_inj z1 z2 : GoStrings.Itoa z1 = GoStrings.Itoa z2 → z1 = z2.
Proof.
  assert (Hn : ∀ z, DecimalString.NilZero.int_of_string (GoStrings.Itoa z) = Some (Z.to_int z)).
  { intros z. pose proof (DecimalZ.of_to z) as Hrt.
    apply DecimalString.NilZero.isi; intros Heq; rewrite Heq in Hrt; simpl in Hrt; subst;
      simpl in Heq; discriminate. }
  intros Heq. pose proof (Hn z1) as H1. rewrite Heq, (Hn z2) in H1.
  rewrite <- (DecimalZ.of_to z1), <- (DecimalZ.of_to z2). congruence.
Qed.

(** ** Filters that keep everything or nothing. *)
Lemma filter_all {A} (P : A → Prop) `{∀ x, Decision (P x)} (l : list A) :
  (∀ x, x ∈ l → P x) → filter P l = l.
Proof.
  induction l as [|x l IH]; intros HP; [done|].
  rewrite filter_cons_True by (apply HP; left). f_equal.
  apply IH. intros y Hy. apply HP. by right.
Qed.

Lemma filter_none {A} (P : A → Prop) `{∀ x, Decision (P x)} (l : list A) :
  (∀ x, x ∈ l → ¬ P x) → filter P l = [].
Proof.
  induction l as [|x l IH]; intros HP; [done|].
  rewrite filter_cons_False by (apply HP; left).
  apply IH. intros y Hy. apply HP. by right.
Qed.
