(* ===== verification/Json.v ===== *)
(** * JSON values, encoding/json and the configuration hash

    The JSON values the service stores in its jsonb columns, the text
    [json.Marshal] gives them (compact, HTML-escaped, invalid UTF-8 replaced),
    SHA-256 (crypto/sha256, FIPS 180-4) on lists of bytes, and [hashConfig] of
    services/deployment/internal/service.go. *)

From S2P Require Import Prelude.
Open Scope Z_scope.

#[warnings="-register-all"]
Inductive json : Type :=
| JNull
| JBool (b : bool)
| JNum (z : Z)
| JStr (s : string)
| JArr (l : list json)
| JObj (fields : list (string * json)).

(** Decoding an object into a struct: keys match case-insensitively, the last
    one wins, a missing one leaves the zero value; [None] is a type mismatch. *)
Definition field_as {A} (dec : A → json → option A) (zero : A) (fields : list (string * json))
    (name : string) : option A :=
  fold_left (λ acc kv,
      match acc with
      | None => None
      | Some v =>
          if String.eqb (GoStrings.ToLower kv.1) (GoStrings.ToLower name) then dec v kv.2
          else Some v
      end) fields (Some zero).
Definition json_field : list (string * json) → string → option string :=
  field_as (λ v j, match j with JStr s => Some s | JNull => Some v | _ => None end) "".
Definition json_num_field : list (string * json) → string → option Z :=
  field_as (λ v j, match j with JNum n => Some n | JNull => Some v | _ => None end) 0.
Definition json_bool_field : list (string * json) → string → option bool :=
  field_as (λ v j, match j with JBool b => Some b | JNull => Some v | _ => None end) false.

Definition RawMessage := option json.
Definition jopt_str (o : option string) : json :=
  match o with Some s => JStr s | None => JNull end.
Definition jopt_num (o : option Z) : json :=
  match o with Some z => JNum z | None => JNull end.

(** ** Bytes and hexadecimal *)
Definition bytes_of (s : string) : list Z :=
  (λ a, Z.of_N (Ascii.N_of_ascii a)) <$> String.list_ascii_of_string s.
Definition text_of (l : list Z) : string :=
  String.string_of_list_ascii ((λ z, Ascii.ascii_of_N (Z.to_N z)) <$> l).

Definition hex_digit (z : Z) : Z := if z <? 10 then 48 + z else 87 + z.
Definition hex_byte (b : Z) : list Z := [hex_digit (b / 16); hex_digit (b mod 16)].

(** ** [json.Marshal] *)
Module Marshal.
(** The length of the UTF-8 sequence at the head of a byte list
    ([utf8.DecodeRune]): [None] is a byte that starts no valid one. *)
Definition cont (b : Z) : bool := (128 <=? b) && (b <? 192).
Definition rune_len (l : list Z) : option nat :=
  match l with
  | b0 :: b1 :: b2 :: b3 :: _ =>
      if (194 <=? b0) && (b0 <? 224) && cont b1 then Some 2%nat
      else if (224 <=? b0) && (b0 <? 240) && cont b1 && cont b2 &&
              negb ((b0 =? 224) && (b1 <? 160)) && negb ((b0 =? 237) && (160 <=? b1))
      then Some 3%nat
      else if (240 <=? b0) && (b0 <? 245) && cont b1 && cont b2 && cont b3 &&
              negb ((b0 =? 240) && (b1 <? 144)) && negb ((b0 =? 244) && (144 <=? b1))
      then Some 4%nat
      else None
  | [b0; b1; b2] =>
      if (194 <=? b0) && (b0 <? 224) && cont b1 then Some 2%nat
      else if (224 <=? b0) && (b0 <? 240) && cont b1 && cont b2 &&
              negb ((b0 =? 224) && (b1 <? 160)) && negb ((b0 =? 237) && (160 <=? b1))
      then Some 3%nat
      else None
  | [b0; b1] => if (194 <=? b0) && (b0 <? 224) && cont b1 then Some 2%nat else None
  | _ => None
  end.

Definition unicode_escape (hi lo : Z) : list Z := [92; 117] ++ hex_byte hi ++ hex_byte lo.

(** One ASCII byte inside a string literal. *)
Definition escape_ascii (b : Z) : list Z :=
  if (b =? 34) || (b =? 92) then [92; b]
  else if b =? 8 then [92; 98]
  else if b =? 12 then [92; 102]
  else if b =? 10 then [92; 110]
  else if b =? 13 then [92; 114]
  else if b =? 9 then [92; 116]
  else if (b <? 32) || (b =? 60) || (b =? 62) || (b =? 38) then unicode_escape 0 b
  else [b].

(** [fuel] bounds the number of runes; the length is enough. *)
Fixpoint escape (fuel : nat) (l : list Z) : list Z :=
  match fuel, l with
  | Datatypes.S fuel', b :: l' =>
      if b <? 128 then escape_ascii b ++ escape fuel' l'
      else
        match rune_len l with
        | None => unicode_escape 255 253 ++ escape fuel' l'
        | Some n =>
            let rune := take n l in
            (if bool_decide (rune = [226; 128; 168]) then unicode_escape 32 40
             else if bool_decide (rune = [226; 128; 169]) then unicode_escape 32 41
             else rune) ++ escape fuel' (drop n l)
        end
  | _, _ => []
  end.

Definition str (s : string) : list Z :=
  let l := bytes_of s in [34] ++ escape (length l) l ++ [34].

Fixpoint sep (l : list (list Z)) : list Z :=
  match l with
  | [] => []
  | [x] => x
  | x :: l' => x ++ [44] ++ sep l'
  end.

Fixpoint value (j : json) : list Z :=
  match j with
  | JNull => bytes_of "null"
  | JBool b => bytes_of (if b then "true" else "false")%string
  | JNum z => bytes_of (GoStrings.Itoa z)
  | JStr s => str s
  | JArr l => [91] ++ sep (value <$> l) ++ [93]
  | JObj fields => [123] ++ sep ((λ kv, str kv.1 ++ [58] ++ value kv.2) <$> fields) ++ [125]
  end.
End Marshal.

(** ** SHA-256 *)
Module Sha256.
Definition w32 (z : Z) : Z := z mod 2 ^ 32.
Definition add (x y : Z) : Z := w32 (x + y).
Definition rotr (n x : Z) : Z := Z.lor (Z.shiftr x n) (w32 (Z.shiftl x (32 - n))).
Definition not32 (x : Z) : Z := 2 ^ 32 - 1 - x.

Definition ch (x y z : Z) := Z.lxor (Z.land x y) (Z.land (not32 x) z).
Definition maj (x y z : Z) := Z.lxor (Z.land x y) (Z.lxor (Z.land x z) (Z.land y z)).
Definition bsig0 x := Z.lxor (rotr 2 x) (Z.lxor (rotr 13 x) (rotr 22 x)).
Definition bsig1 x := Z.lxor (rotr 6 x) (Z.lxor (rotr 11 x) (rotr 25 x)).
Definition ssig0 x := Z.lxor (rotr 7 x) (Z.lxor (rotr 18 x) (Z.shiftr x 3)).
Definition ssig1 x := Z.lxor (rotr 17 x) (Z.lxor (rotr 19 x) (Z.shiftr x 10)).

(** The constants are the first 32 bits of the fractional parts of the cube
    roots of the first 64 primes and of the square roots of the first eight. *)
Definition is_prime (n : Z) : bool :=
  (2 <=? n) && forallb (λ d, negb (n mod d =? 0)) (seqZ 2 (n - 2)).
Definition primes (n : nat) : list Z := take n (filter (λ z, is_prime z = true) (seqZ 2 310)).
Fixpoint cbrt_bits (bits : nat) (n r : Z) : Z :=
  match bits with
  | O => r
  | S b => let r' := r + 2 ^ Z.of_nat b in
           cbrt_bits b n (if r' ^ 3 <=? n then r' else r)
  end.
Definition k : list Z :=
  Eval vm_compute in (λ p, w32 (cbrt_bits 36 (p * 2 ^ 96) 0)) <$> primes 64.
Definition h0 : list Z := Eval vm_compute in (λ p, w32 (Z.sqrt (p * 2 ^ 64))) <$> primes 8.

Definition be (n : nat) (z : Z) : list Z :=
  (λ i, Z.shiftr z (8 * Z.of_nat (n - 1 - i)) mod 256) <$> seq 0 n.

Definition pad (m : list Z) : list Z :=
  let z := (119 - Z.of_nat (length m) mod 64) mod 64 in
  m ++ [128] ++ replicate (Z.to_nat z) 0 ++ be 8 (8 * Z.of_nat (length m)).

Fixpoint words (l : list Z) : list Z :=
  match l with
  | a :: b :: c :: d :: l' => (((a * 256 + b) * 256 + c) * 256 + d) :: words l'
  | _ => []
  end.

(** The message schedule: [n] more words, newest first. *)
Fixpoint schedule (n : nat) (w : list Z) : list Z :=
  match n with
  | O => w
  | Datatypes.S n' =>
      let g i := default 0 (w !! i) in
      schedule n' (add (add (ssig1 (g 1%nat)) (g 6%nat)) (add (ssig0 (g 14%nat)) (g 15%nat)) :: w)
  end.

Definition round (v : list Z) (kw : Z * Z) : list Z :=
  match v with
  | [a; b; c; d; e; f; g; h] =>
      let t1 := add (add (add h (bsig1 e)) (ch e f g)) (add kw.1 kw.2) in
      let t2 := add (bsig0 a) (maj a b c) in
      [add t1 t2; a; b; c; add d t1; e; f; g]
  | _ => v
  end.

Definition block (h : list Z) (chunk : list Z) : list Z :=
  let w := rev (schedule 48 (rev (words chunk))) in
  zip_with add h (fold_left round (zip k w) h).

Fixpoint blocks (fuel : nat) (h m : list Z) : list Z :=
  match fuel, m with
  | Datatypes.S fuel', _ :: _ => blocks fuel' (block h (take 64 m)) (drop 64 m)
  | _, _ => h
  end.

Definition Sum256 (m : list Z) : list Z :=
  let p := pad m in mbind (be 4) (blocks (length p) h0 p).
End Sha256.

(** [hashConfig]: the first eight bytes of the digest, in hexadecimal. *)
Definition hashConfig (config : RawMessage) : string :=
  let text := match config with Some j => Marshal.value j | None => [] end in
  text_of (mbind hex_byte (take 8 (Sha256.Sum256 text))).

(** ** Test vectors *)
Example Sum256_abc :
  text_of (mbind hex_byte (Sha256.Sum256 (bytes_of "abc"))) =
  "ba7816bf8f01cfea414140de5dae2223b00361a396177a9cb410ff61f20015ad"%string.
Proof. vm_compute. reflexivity. Qed.

Example Sum256_two_blocks :
  text_of (mbind hex_byte (Sha256.Sum256
    (bytes_of "abcdbcdecdefdefgefghfghighijhijkijkljklmklmnlmnomnopnopq"))) =
  "248d6a61d20638b8e5c026930c3e6039a33ce45964ff2167f6ecedd419db06c1"%string.
Proof. vm_compute. reflexivity. Qed.

(** The text is the bytes of {#a#:[-3,#\u003cb\u003e#],#c#:null} with double
    quotes for the number signs. *)
Example marshal_escapes :
  text_of ((λ z, if z =? 34 then 35 else z) <$>
    Marshal.value (JObj [("a"%string, JArr [JNum (-3); JStr "<b>"]); ("c"%string, JNull)])) =
  "{#a#:[-3,#\u003cb\u003e#],#c#:null}"%string.
Proof. vm_compute. reflexivity. Qed.
