(* ===== verification/Aes.v ===== *)
(** * AES-256 in Galois/counter mode

    The part of crypto/aes and crypto/cipher the secrets service uses: the block
    cipher with 256-bit keys (FIPS 197) and [NewGCM] (NIST SP 800-38D) with
    12-byte nonces, 16-byte tags and no additional data, on lists of bytes.
    The definitions evaluate; standard test vectors are checked below. *)

From S2P Require Import Prelude.
Open Scope Z_scope.

(** ** Bytes as polynomials *)
Definition xtime (b : Z) : Z :=
  let d := Z.shiftl b 1 in if 128 <=? b then Z.lxor d 283 else d.
Fixpoint gmul (fuel : nat) (a b : Z) : Z :=
  match fuel with
  | O => 0
  | S fuel => Z.lxor (if Z.odd b then a else 0) (gmul fuel (xtime a) (Z.shiftr b 1))
  end.
(** [b ^ 254], the inverse, by square and multiply. *)
Definition ginv (b : Z) : Z :=
  let sq x := gmul 8 x x in
  let b2 := sq b in let b4 := sq b2 in let b8 := sq b4 in let b16 := sq b8 in
  let b32 := sq b16 in let b64 := sq b32 in let b128 := sq b64 in
  gmul 8 b2 (gmul 8 b4 (gmul 8 b8 (gmul 8 b16 (gmul 8 b32 (gmul 8 b64 b128))))).
Definition rotl8 (b : Z) (n : Z) : Z := Z.land (Z.lor (Z.shiftl b n) (Z.shiftr b (8 - n))) 255.
Definition affine (b : Z) : Z :=
  Z.lxor b (Z.lxor (rotl8 b 1) (Z.lxor (rotl8 b 2) (Z.lxor (rotl8 b 3) (Z.lxor (rotl8 b 4) 99)))).
Definition sbox : list Z := Eval vm_compute in (λ n, affine (ginv (Z.of_nat n))) <$> seq 0 256.
Definition sub_byte (b : Z) : Z := nth (Z.to_nat b) sbox 0.

(** ** Key expansion: 15 round keys of 16 bytes *)
Definition xor_bytes (a b : list Z) : list Z := zip_with Z.lxor a b.

Definition rot_word (w : list Z) : list Z := match w with a :: r => r ++ [a] | [] => [] end.
(** The [i]-th word from the last eight, the oldest first. *)
Definition next_word (i : nat) (rcon : Z) (window : list (list Z)) : list Z :=
  let last := nth 7 window [] in
  let temp :=
    if (i mod 8 =? 0)%nat
    then xor_bytes (sub_byte <$> rot_word last) [rcon; 0; 0; 0]
    else if (i mod 8 =? 4)%nat then sub_byte <$> last else last in
  xor_bytes (hd [] window) temp.
Fixpoint expand (n i : nat) (rcon : Z) (window : list (list Z)) : list (list Z) :=
  match n with
  | O => []
  | S n =>
      let w := next_word i rcon window in
      w :: expand n (S i) (if (i mod 8 =? 0)%nat then xtime rcon else rcon) (tail window ++ [w])
  end.
Fixpoint chunks (fuel k : nat) (l : list Z) : list (list Z) :=
  match fuel, l with
  | S fuel, _ :: _ => take k l :: chunks fuel k (drop k l)
  | _, _ => []
  end.
Definition round_keys (key : list Z) : list (list Z) :=
  let words := chunks 8 4 key in
  chunks 15 16 (concat (words ++ expand 52 8 1 words)).

(** ** The cipher *)
Definition shift_rows (s : list Z) : list Z :=
  (λ i, nth i s 0) <$> [0; 5; 10; 15; 4; 9; 14; 3; 8; 13; 2; 7; 12; 1; 6; 11]%nat.
Definition mix_column (c : list Z) : list Z :=
  match c with
  | [a; b; c; d] =>
      let m2 := xtime in let m3 x := Z.lxor (xtime x) x in
      let sum w x y z := Z.lxor (Z.lxor w x) (Z.lxor y z) in
      [sum (m2 a) (m3 b) c d; sum a (m2 b) (m3 c) d; sum a b (m2 c) (m3 d); sum (m3 a) b c (m2 d)]
  | _ => c
  end.
Definition mix_columns (s : list Z) : list Z := concat (mix_column <$> chunks 4 4 s).

Fixpoint rounds (keys : list (list Z)) (s : list Z) : list Z :=
  match keys with
  | [] => s
  | [k] => xor_bytes (shift_rows (sub_byte <$> s)) k
  | k :: keys => rounds keys (xor_bytes (mix_columns (shift_rows (sub_byte <$> s))) k)
  end.
Definition encrypt_block (key block : list Z) : list Z :=
  match round_keys key with
  | [] => []
  | k :: keys => rounds keys (xor_bytes block k)
  end.

(** ** GCM *)
Definition be_bytes (n : nat) (z : Z) : list Z :=
  (λ i, Z.land (Z.shiftr z (8 * Z.of_nat (n - 1 - i))) 255) <$> seq 0 n.
Definition of_be (l : list Z) : Z := fold_left (λ acc b, Z.lor (Z.shiftl acc 8) b) l 0.

(** Multiplication in GF(2^128), the first bit being the constant term. *)
Fixpoint gf_mul (fuel : nat) (x y v acc : Z) : Z :=
  match fuel with
  | O => acc
  | S n =>
      let acc := if Z.testbit x (Z.of_nat n) then Z.lxor acc v else acc in
      let v' := Z.shiftr v 1 in
      gf_mul n x y (if Z.odd v then Z.lxor v' (Z.shiftl 225 120) else v') acc
  end.
Definition gf128 (x y : Z) : Z := gf_mul 128 x y y 0.

Definition pad16 (l : list Z) : list Z :=
  l ++ repeat 0 ((16 - length l mod 16) mod 16)%nat.
Definition ghash (h : Z) (data : list Z) : Z :=
  fold_left (λ y block, gf128 (Z.lxor y (of_be block)) h) (chunks (length data) 16 data) 0.

(** The keystream from a counter block. *)
Fixpoint ctr (key nonce : list Z) (counter : Z) (data : list (list Z)) : list Z :=
  match data with
  | [] => []
  | block :: data =>
      xor_bytes block (encrypt_block key (nonce ++ be_bytes 4 (counter mod 2 ^ 32)))
      ++ ctr key nonce (counter + 1) data
  end.
Definition keystream (key nonce data : list Z) : list Z :=
  ctr key nonce 2 (chunks (length data) 16 data).

Definition tag (key nonce ciphertext : list Z) : list Z :=
  let h := of_be (encrypt_block key (repeat 0 16)) in
  let s := ghash h (pad16 ciphertext ++ be_bytes 8 0 ++ be_bytes 8 (8 * Z.of_nat (length ciphertext))) in
  xor_bytes (be_bytes 16 s) (encrypt_block key (nonce ++ be_bytes 4 1)).

(** [gcm.Seal(dst, nonce, plaintext, nil)], without the prefix [dst]. *)
Definition Seal (key nonce plaintext : list Z) : list Z :=
  let c := keystream key nonce plaintext in c ++ tag key nonce c.
(** [gcm.Open(nil, nonce, ciphertext, nil)]. *)
Definition Open (key nonce sealed : list Z) : option (list Z) :=
  let n := (length sealed - 16)%nat in
  let c := take n sealed in
  if (length sealed <? 16)%nat then None
  else if bool_decide (drop n sealed = tag key nonce c) then Some (keystream key nonce c) else None.

(** ** Test vectors *)
(** FIPS 197, C.3. *)
Example encrypt_block_fips197 :
  encrypt_block (Z.of_nat <$> seq 0 32) ((λ n, 17 * Z.of_nat n) <$> seq 0 16)
  = [142; 162; 183; 202; 81; 103; 69; 191; 234; 252; 73; 144; 75; 73; 96; 137].
Proof. vm_compute. reflexivity. Qed.
(** The GCM specification's test cases 13 and 14. *)
Example seal_case_13 :
  Seal (repeat 0 32) (repeat 0 12) [] =
  [83; 15; 138; 251; 199; 69; 54; 185; 169; 99; 180; 241; 196; 203; 115; 139].
Proof. vm_compute. reflexivity. Qed.
Example seal_case_14 :
  Seal (repeat 0 32) (repeat 0 12) (repeat 0 16) =
  [206; 167; 64; 61; 77; 96; 107; 110; 7; 78; 197; 211; 186; 243; 157; 24;
   208; 209; 200; 167; 153; 153; 107; 240; 38; 91; 152; 181; 212; 138; 185; 25].
Proof. vm_compute. reflexivity. Qed.

(** ** Lengths *)
Lemma length_xor a b : length (xor_bytes a b) = min (length a) (length b).
Proof. apply length_zip_with. Qed.

Lemma chunks_exact n k l : (0 < k)%nat → length l = (n * k)%nat →
  length (chunks n k l) = n ∧ Forall (λ w, length w = k) (chunks n k l).
Proof.
  intros Hk. revert l. induction n as [|n IH]; intros l Hl; [by split|].
  destruct l as [|x l]; [simpl in Hl; lia|]. cbn [chunks].
  destruct (IH (drop k (x :: l))) as [H1 H2]; [rewrite length_drop; lia|].
  split; [cbn [length]; by rewrite H1|]. constructor; [rewrite length_take; lia|done].
Qed.
Lemma length_concat_forall k (l : list (list Z)) :
  Forall (λ w, length w = k) l → length (concat l) = (length l * k)%nat.
Proof. induction 1; simpl; [done|]. rewrite length_app. lia. Qed.

Lemma next_word_length i rcon window :
  length window = 8%nat → Forall (λ w, length w = 4%nat) window →
  length (next_word i rcon window) = 4%nat.
Proof.
  intros Hl Hw. do 9 (destruct window as [|? window]; try done). decompose_Forall_hyps.
  unfold next_word. cbn [nth hd]. rewrite length_xor.
  match goal with |- min (length ?a) (length (if _ then _ else if _ then sub_byte <$> ?b else _)) = _ =>
    assert (length a = 4%nat) by done; assert (length b = 4%nat) by done; destruct b; [done|] end.
  repeat case_match; rewrite ?length_xor, ?length_fmap; simpl in *; try lia.
  rewrite length_app. simpl. lia.
Qed.
Lemma expand_length n : ∀ i rcon window,
  length window = 8%nat → Forall (λ w, length w = 4%nat) window →
  length (expand n i rcon window) = n ∧ Forall (λ w, length w = 4%nat) (expand n i rcon window).
Proof.
  induction n as [|n IH]; intros i rcon window Hl Hw; [by split|]. cbn [expand].
  pose proof (next_word_length i rcon window Hl Hw) as Hn.
  destruct (IH (S i) (if (i mod 8 =? 0)%nat then xtime rcon else rcon)
              (tail window ++ [next_word i rcon window])) as [H1 H2].
  - rewrite length_app. destruct window; simpl in *; lia.
  - apply Forall_app. split; [by destruct Hw|by constructor].
  - split; [cbn [length]; by rewrite H1|by constructor].
Qed.
Lemma round_keys_length key : length key = 32%nat →
  length (round_keys key) = 15%nat ∧ Forall (λ k, length k = 16%nat) (round_keys key).
Proof.
  intros Hk. unfold round_keys. destruct (chunks_exact 8 4 key) as [H1 H2]; [lia|done|].
  destruct (expand_length 52 8 1 _ H1 H2) as [H3 H4].
  set (words := chunks 8 4 key) in *. set (more := expand 52 8 1 words) in *. clearbody words more.
  pose proof (Forall_app_2 _ _ _ H2 H4) as H5. apply chunks_exact; [lia|].
  rewrite (length_concat_forall 4 _ H5), length_app. lia.
Qed.

Lemma length_mix_columns s : length s = 16%nat → length (mix_columns s) = 16%nat.
Proof. intros Hs. do 17 (destruct s as [|? s]; try done). Qed.
Lemma rounds_length keys : ∀ s, Forall (λ k, length k = 16%nat) keys → length s = 16%nat →
  length (rounds keys s) = 16%nat.
Proof.
  induction keys as [|k keys IH]; intros s Hk Hs; [done|]. decompose_Forall_hyps.
  destruct keys as [|k' keys].
  - change (length (xor_bytes (shift_rows (sub_byte <$> s)) k) = 16%nat). rewrite length_xor.
    change (length (shift_rows (sub_byte <$> s))) with 16%nat. lia.
  - change (length (rounds (k' :: keys)
      (xor_bytes (mix_columns (shift_rows (sub_byte <$> s))) k)) = 16%nat).
    apply IH; [assumption|]. rewrite (length_xor (mix_columns _)), length_mix_columns; [lia|done].
Qed.
Lemma encrypt_block_length key block : length key = 32%nat → length block = 16%nat →
  length (encrypt_block key block) = 16%nat.
Proof.
  intros Hk Hb. destruct (round_keys_length key Hk) as [H1 H2]. unfold encrypt_block.
  destruct (round_keys key) as [|k keys]; [done|]. decompose_Forall_hyps.
  apply rounds_length; [done|]. rewrite length_xor. lia.
Qed.

(** ** What is sealed can be opened *)
Section Sealed.
Context (key nonce : list Z).
Hypothesis Hkey : length key = 32%nat.
Hypothesis Hnonce : length nonce = 12%nat.

Lemma length_be_bytes n z : length (be_bytes n z) = n.
Proof. unfold be_bytes. by rewrite length_fmap, length_seq. Qed.
Lemma counter_block_length c : length (encrypt_block key (nonce ++ be_bytes 4 c)) = 16%nat.
Proof using Hkey Hnonce. apply encrypt_block_length; [done|]. rewrite length_app, length_be_bytes. lia. Qed.
Lemma tag_length c : length (tag key nonce c) = 16%nat.
Proof using Hkey Hnonce. unfold tag. by rewrite length_xor, length_be_bytes, counter_block_length. Qed.

Lemma xor_xor a k : (length a ≤ length k)%nat → xor_bytes (xor_bytes a k) k = a.
Proof.
  revert k. induction a as [|x a IH]; intros [|y k] Hl; simpl in *; try done; [lia|].
  unfold xor_bytes in *. f_equal; [|apply IH; lia].
  by rewrite Z.lxor_assoc, Z.lxor_nilpotent, Z.lxor_0_r.
Qed.

Lemma ctr_twice fuel : ∀ c l, (length l ≤ fuel)%nat →
  let e := ctr key nonce c (chunks fuel 16 l) in
  length e = length l ∧ ctr key nonce c (chunks fuel 16 e) = l.
Proof using Hkey Hnonce.
  induction fuel as [|fuel IH]; intros c l Hl; [by destruct l; simpl in *; [|lia]|].
  destruct l as [|x l]; [done|]. cbn zeta. set (l0 := x :: l) in *.
  change (chunks (S fuel) 16 l0) with (take 16 l0 :: chunks fuel 16 (drop 16 l0)). cbn [ctr].
  set (ks := encrypt_block _ _). set (head := xor_bytes (take 16 l0) ks).
  assert (Hks : length ks = 16%nat) by apply counter_block_length.
  assert (Hh : length head = min 16 (length l0)) by (unfold head; rewrite length_xor, length_take; lia).
  destruct (IH (c + 1) (drop 16 l0)) as [H1 H2]; [rewrite length_drop; simpl; simpl in Hl; lia|].
  set (rest := ctr key nonce (c + 1) _) in *. rewrite length_drop in H1.
  assert (Htake : take 16 (head ++ rest) = head ∧ drop 16 (head ++ rest) = rest).
  { destruct (Nat.le_gt_cases 16 (length l0)).
    - split; [apply take_app_length'|apply drop_app_length']; lia.
    - assert (rest = []) as -> by (apply nil_length_inv; lia). rewrite app_nil_r.
      split; [apply take_ge|apply drop_ge]; lia. }
  destruct Htake as [Ht Hd].
  split; [rewrite length_app; lia|].
  destruct (head ++ rest) as [|y e] eqn:He.
  { apply app_nil in He as [He _]. rewrite He in Hh. simpl in Hh. lia. }
  change (chunks (S fuel) 16 (y :: e)) with (take 16 (y :: e) :: chunks fuel 16 (drop 16 (y :: e))).
  cbn [ctr]. fold ks. rewrite Ht, Hd, H2. unfold head. rewrite xor_xor.
  - apply take_drop.
  - rewrite length_take. lia.
Qed.

Lemma keystream_twice l :
  length (keystream key nonce l) = length l ∧ keystream key nonce (keystream key nonce l) = l.
Proof using Hkey Hnonce.
  destruct (ctr_twice (length l) 2 l) as [H1 H2]; [done|]. split; [done|].
  unfold keystream at 1. unfold keystream in *. by rewrite H1.
Qed.

Lemma Seal_length p : length (Seal key nonce p) = (length p + 16)%nat.
Proof using Hkey Hnonce.
  unfold Seal. by rewrite length_app, (proj1 (keystream_twice p)), tag_length.
Qed.
Lemma Open_Seal p : Open key nonce (Seal key nonce p) = Some p.
Proof using Hkey Hnonce.
  unfold Open. rewrite Seal_length.
  assert ((length p + 16 <? 16)%nat = false) as -> by by apply Nat.ltb_ge; lia.
  replace (length p + 16 - 16)%nat with (length p) by lia.
  destruct (keystream_twice p) as [H1 H2].
  unfold Seal. rewrite take_app_length', drop_app_length' by done.
  rewrite bool_decide_true by done. by rewrite H2.
Qed.

(** Opening fails on anything but what [Seal] makes. *)
(** Of a body only its own tag is accepted. *)
Lemma Open_tag body t : length t = 16%nat →
  Open key nonce (body ++ t) = if decide (t = tag key nonce body) then Some (keystream key nonce body) else None.
Proof.
  intros Ht. unfold Open. rewrite length_app, Ht.
  destruct (Nat.ltb_spec (length body + 16) 16); [lia|]. rewrite take_app_length', drop_app_length' by lia.
  by destruct (decide _) as [Htag|Htag]; [rewrite bool_decide_true|rewrite bool_decide_false].
Qed.
Lemma Open_inv sealed p : Open key nonce sealed = Some p → sealed = Seal key nonce p.
Proof using Hkey Hnonce.
  unfold Open. destruct (Nat.ltb_spec (length sealed) 16); [done|].
  case_bool_decide as Ht; [|done]. intros [= <-].
  set (c := take _ sealed) in *. destruct (keystream_twice c) as [_ H2].
  unfold Seal. rewrite H2, <- Ht. symmetry. apply take_drop.
Qed.
End Sealed.
