(* ===== verification/GoTime.v ===== *)
(** * float64 and time.Duration

    The part of IEEE 754 binary64 the programs use, and [time.ParseDuration] and
    [Duration.String] of the Go standard library: 64-bit arithmetic with its
    overflow checks, the fraction of a unit computed in [float64]. *)

From S2P Require Import Prelude.
Open Scope Z_scope.

(** Non-negative finite values as mantissa and exponent.  An operation is its
    exact rational result rounded to 53 bits, to nearest, ties to even; the
    values of this program (quotients and products of 32-bit integers) are far
    from the overflow and subnormal ranges. *)
Module Float64.
Record float64 := mkFloat { mant : Z; expo : Z }.

(** The value as a fraction. *)
Definition fnum (x : float64) : Z := mant x * 2 ^ Z.max 0 (expo x).
Definition fden (x : float64) : Z := 2 ^ Z.max 0 (- expo x).

(** The quotient [n / (d * 2 ^ e)] as a fraction. *)
Definition scaled (n d e : Z) : Z * Z := (n * 2 ^ Z.max 0 (- e), d * 2 ^ Z.max 0 e).

Definition round_ratio (n d : Z) : float64 :=
  if n =? 0 then mkFloat 0 0
  else
    let e0 := Z.log2 n - Z.log2 d - 53 in
    let e := let '(a, b) := scaled n d e0 in if 2 ^ 53 <=? a / b then e0 + 1 else e0 in
    let '(a, b) := scaled n d e in
    let q := a / b in
    let r := a mod b in
    let up := (b <? 2 * r) || ((2 * r =? b) && Z.odd q) in
    mkFloat (if up then q + 1 else q) e.

Definition of_int (z : Z) : float64 := mkFloat z 0.
Definition div (x y : float64) : float64 :=
  round_ratio (fnum x * fden y) (fden x * fnum y).
Definition mul (x y : float64) : float64 :=
  round_ratio (fnum x * fnum y) (fden x * fden y).
(** The conversion to [int] truncates. *)
Definition to_int (x : float64) : Z := fnum x / fden x.
End Float64.

Open Scope Z_scope.

Module GoTime.
Definition Nanosecond : Z := 1.
Definition Microsecond : Z := 1000.
Definition Millisecond : Z := 1000 * Microsecond.
Definition Second : Z := 1000 * Millisecond.
Definition Minute : Z := 60 * Second.
Definition Hour : Z := 60 * Minute.

Definition micro_sign : string := GoStrings.of_bytes [194; 181]%nat.
Definition mu : string := GoStrings.of_bytes [206; 188]%nat.
Definition unitMap (u : string) : option Z :=
  if String.eqb u "ns" then Some Nanosecond
  else if String.eqb u "us" || String.eqb u (micro_sign +:+ "s") || String.eqb u (mu +:+ "s")
  then Some Microsecond
  else if String.eqb u "ms" then Some Millisecond
  else if String.eqb u "s" then Some Second
  else if String.eqb u "m" then Some Minute
  else if String.eqb u "h" then Some Hour
  else None.

Definition digit (a : Ascii.ascii) : option Z :=
  let n := Z.of_nat (Ascii.nat_of_ascii a) in
  if (48 <=? n) && (n <=? 57) then Some (n - 48) else None.
Definition is_digit (a : Ascii.ascii) : bool :=
  match digit a with Some _ => true | None => false end.
Definition is_dot (a : Ascii.ascii) : bool := Ascii.eqb a (Ascii.ascii_of_nat 46).

(** [leadingInt]: the value and the rest; [None] on overflow. *)
Fixpoint leadingInt (x : Z) (s : string) : option (Z * string) :=
  match s with
  | EmptyString => Some (x, s)
  | String a s' =>
      match digit a with
      | None => Some (x, s)
      | Some c =>
          if 2 ^ 63 / 10 <? x then None
          else
            let x' := x * 10 + c in
            if 2 ^ 63 <? x' then None else leadingInt x' s'
      end
  end.

(** [leadingFraction]: digits beyond 64 bits are read and ignored. *)
Fixpoint leadingFraction (x : Z) (scale : Float64.float64) (overflow : bool) (s : string)
    : Z * Float64.float64 * string :=
  match s with
  | EmptyString => (x, scale, s)
  | String a s' =>
      match digit a with
      | None => (x, scale, s)
      | Some c =>
          if overflow then leadingFraction x scale true s'
          else if (2 ^ 63 - 1) / 10 <? x then leadingFraction x scale true s'
          else
            let y := x * 10 + c in
            if 2 ^ 63 <? y then leadingFraction x scale true s'
            else leadingFraction y (Float64.mul scale (Float64.of_int 10)) false s'
      end
  end.

(** The unit: up to the next digit or period. *)
Fixpoint span_unit (s : string) : string * string :=
  match s with
  | EmptyString => (EmptyString, s)
  | String a s' =>
      if is_dot a || is_digit a then (EmptyString, s)
      else let '(u, rest) := span_unit s' in (String a u, rest)
  end.

(** The loop: [fuel] components at most ([None]: invalid). Each component
    consumes at least two bytes. *)
Fixpoint components (fuel : nat) (d : Z) (s : string) : option Z :=
  match fuel, s with
  | _, EmptyString => Some d
  | O, _ => None
  | S fuel', String a _ =>
      if negb (is_dot a || is_digit a) then None
      else
        '(v, s1) ← leadingInt 0 s;
        let pre := negb (Nat.eqb (String.length s1) (String.length s)) in
        let '(f, scale, s2, post) :=
          match s1 with
          | String b t =>
              if is_dot b then
                let '(f, scale, t') := leadingFraction 0 (Float64.of_int 1) false t in
                (f, scale, t', negb (Nat.eqb (String.length t') (String.length t)))
              else (0, Float64.of_int 1, s1, false)
          | EmptyString => (0, Float64.of_int 1, s1, false)
          end in
        if negb pre && negb post then None
        else
          let '(u, rest) := span_unit s2 in
          if String.eqb u "" then None
          else
            unit ← unitMap u;
            if 2 ^ 63 / unit <? v then None
            else
              let v := v * unit in
              let v :=
                if 0 <? f then
                  v + Float64.to_int
                    (Float64.mul (Float64.of_int f) (Float64.div (Float64.of_int unit) scale))
                else v in
              if 2 ^ 63 <? v then None
              else
                let d := (d + v) mod 2 ^ 64 in
                if 2 ^ 63 <? d then None else components fuel' d rest
  end.

Definition ParseDuration (s : string) : option Z :=
  let '(neg, s) :=
    match s with
    | String a t =>
        if Ascii.eqb a (Ascii.ascii_of_nat 45) then (true, t)
        else if Ascii.eqb a (Ascii.ascii_of_nat 43) then (false, t)
        else (false, s)
    | EmptyString => (false, s)
    end in
  if String.eqb s "0" then Some 0
  else if String.eqb s "" then None
  else
    d ← components (String.length s) 0 s;
    if neg then Some (- d) else if 2 ^ 63 - 1 <? d then None else Some d.

(** [fmtFrac]: the last [prec] digits of [v] without trailing zeros, after a
    period unless there are none. *)
Fixpoint fmtFrac (prec : nat) (v : Z) (acc : string) (printing : bool) : string * Z :=
  match prec with
  | O => (if printing then String (Ascii.ascii_of_nat 46) acc else acc, v)
  | S prec' =>
      let dg := v mod 10 in
      let printing := printing || negb (dg =? 0) in
      let acc := if printing then String (Ascii.ascii_of_nat (48 + Z.to_nat dg)) acc else acc in
      fmtFrac prec' (v / 10) acc printing
  end.

(** [Duration.String]. *)
Definition Duration_String (d : Z) : string :=
  let u := Z.abs d in
  let text :=
    if u <? Second then
      if u =? 0 then "0s"%string
      else
        let '(prec, unit) :=
          if u <? Microsecond then (0%nat, "ns"%string)
          else if u <? Millisecond then (3%nat, micro_sign +:+ "s")
          else (6%nat, "ms"%string) in
        let '(frac, v) := fmtFrac prec u "" false in
        GoStrings.Itoa v +:+ frac +:+ unit
    else
      let '(frac, v) := fmtFrac 9 u "" false in
      let secs := GoStrings.Itoa (v mod 60) +:+ frac +:+ "s" in
      let mins := v / 60 in
      if 0 <? mins then
        let ms := GoStrings.Itoa (mins mod 60) +:+ "m" +:+ secs in
        let hours := mins / 60 in
        if 0 <? hours then GoStrings.Itoa hours +:+ "h" +:+ ms else ms
      else secs in
  if d <? 0 then "-" +:+ text else text.

Example parse_durations :
  ParseDuration <$> ["24h"; "1.5h"; "1h15m30.918273645s"; "-300ms"; ".5s"; "0"; "7d"; "";
                     "9223372036854775807ns"; "9223372036854775808ns"; "2562048h"]%string =
  [Some (24 * Hour); Some (90 * Minute); Some 4530918273645; Some (- 300 * Millisecond);
   Some (Second / 2); Some 0; None; None; Some (2 ^ 63 - 1); None; None].
Proof. vm_compute. reflexivity. Qed.
Example print_durations :
  Duration_String <$> [5 * Minute; 90 * Minute; 1500 * Millisecond; 0; 1; 2200 * Microsecond;
                       - Hour; 3661 * Second + 1] =
  ["5m0s"; "1h30m0s"; "1.5s"; "0s"; "1ns"; "2.2ms"; "-1h0m0s"; "1h1m1.000000001s"]%string.
Proof. vm_compute. reflexivity. Qed.
End GoTime.
