(* ===== verification/AppErrors.v ===== *)
(** * Application errors

    libs/errors (the typed application error and the HTTP envelope) and
    libs/database/errors.go, locking.go (translation of driver errors). *)

From S2P Require Import Prelude.
Open Scope Z_scope.

(** ** Codes *)
Definition Code := string.
Definition CodeUnauthenticated : Code := "UNAUTHENTICATED".
Definition CodeForbidden : Code := "FORBIDDEN".
Definition CodeNotFound : Code := "NOT_FOUND".
Definition CodeValidationFailed : Code := "VALIDATION_FAILED".
Definition CodeConflict : Code := "CONFLICT".
Definition CodeRateLimited : Code := "RATE_LIMITED".
Definition CodeInternal : Code := "INTERNAL".

(** ** Go error values

    [AppError] is [*errors.Error] with its cause, [PgError] is
    [*pgconn.PgError] with its SQLSTATE, [NoRows] is [pgx.ErrNoRows],
    [TxCommitRollback] is [pgx.ErrTxCommitRollback], [Plain] a leaf error made
    by [errors.New] or [fmt.Errorf] without a wrapped error and [Wrapped] a
    [fmt.Errorf] with [%w]. *)
#[warnings="-register-all"]
Inductive goerr : Type :=
| AppError (code : Code) (message : string) (details : list string)
    (status : Z) (cause : option goerr)
| PgError (sqlstate : string)
| NoRows
| TxCommitRollback
| Plain (msg : string)
| Wrapped (msg : string) (inner : goerr).

(** [errors.As(err, &appErr)]: the first [*Error] of the unwrap chain. *)
Fixpoint as_app (e : goerr) : option goerr :=
  match e with
  | AppError _ _ _ _ _ => Some e
  | Wrapped _ inner => as_app inner
  | _ => None
  end.

(** [errors.As(err, &pgErr)]: the SQLSTATE of the first [*PgError]. *)
Fixpoint as_pg (e : goerr) : option string :=
  match e with
  | PgError s => Some s
  | AppError _ _ _ _ (Some c) => as_pg c
  | Wrapped _ inner => as_pg inner
  | _ => None
  end.

(** [errors.Is(err, pgx.ErrNoRows)]. *)
Fixpoint is_no_rows (e : goerr) : bool :=
  match e with
  | NoRows => true
  | AppError _ _ _ _ (Some c) => is_no_rows c
  | Wrapped _ inner => is_no_rows inner
  | _ => false
  end.

(** ** Constructors *)
Definition New (code : Code) (message : string) : goerr :=
  AppError code message [] 0 None.
Definition NewWithStatus (code : Code) (status : Z) (message : string) : goerr :=
  AppError code message [] status None.
Definition Wrap (err : goerr) (code : Code) (message : string) : goerr :=
  AppError code message [] 0 (Some err).
Definition Unauthorized (message : string) := New CodeUnauthenticated message.
Definition Forbidden (message : string) := New CodeForbidden message.
Definition NotFound (message : string) := New CodeNotFound message.
Definition Validation (message : string) := New CodeValidationFailed message.
Definition Conflict (message : string) := New CodeConflict message.
Definition RateLimited (message : string) := New CodeRateLimited message.
Definition Internal (message : string) := New CodeInternal message.

(** [e.WithDetails]: a copy with the details appended. *)
Definition WithDetails (e : goerr) (more : list string) : goerr :=
  match e with
  | AppError c m ds st cause => AppError c m (ds ++ more) st cause
  | _ => e
  end.

(** [From]: the [*Error] of the chain, or an INTERNAL error with the cause. *)
Definition From (err : option goerr) : option goerr :=
  match err with
  | None => None
  | Some e =>
      match as_app e with
      | Some a => Some a
      | None => Some (AppError CodeInternal "internal error" [] 0 (Some e))
      end
  end.

(** [From(err).Code] for a non-nil error. *)
Definition from_code (e : goerr) : Code :=
  match as_app e with
  | Some (AppError c _ _ _ _) => c
  | _ => CodeInternal
  end.

(** ** HTTP mapping *)
Definition HTTPStatus (c : Code) : Z :=
  if String.eqb c CodeUnauthenticated then 401
  else if String.eqb c CodeForbidden then 403
  else if String.eqb c CodeNotFound then 404
  else if String.eqb c CodeValidationFailed then 422
  else if String.eqb c CodeConflict then 409
  else if String.eqb c CodeRateLimited then 429
  else 500.

(** [(e *Error).HTTPStatus]. *)
Definition Error_HTTPStatus (e : goerr) : Z :=
  match e with
  | AppError c _ _ st _ => if st =? 0 then HTTPStatus c else st
  | _ => 500
  end.

Record Detail := mkDetail {
  d_code : Code; d_message : string; d_details : list string; d_request : string }.

(** [e.Envelope(requestID)]: the body; the cause is left out. *)
Definition Envelope_of (e : goerr) (requestID : string) : option Detail :=
  match e with
  | AppError c m ds _ _ => Some (mkDetail c m ds requestID)
  | _ => None
  end.

(** ** libs/database/errors.go *)
Definition sqlStateUniqueViolation : string := "23505".
Definition sqlStateForeignKeyViolation : string := "23503".
Definition sqlStateNotNullViolation : string := "23502".
Definition sqlStateCheckViolation : string := "23514".

Definition MapError (e : goerr) : goerr :=
  if is_no_rows e then NotFound "resource not found"
  else
    match as_pg e with
    | Some code =>
        if String.eqb code sqlStateUniqueViolation
        then Conflict "resource already exists"
        else if String.eqb code sqlStateForeignKeyViolation
        then Validation "referenced resource does not exist"
        else if String.eqb code sqlStateNotNullViolation
        then Validation "a required field is missing"
        else if String.eqb code sqlStateCheckViolation
        then Validation "a value violates a database constraint"
        else e
    | None => e
    end.

Definition IsNotFound (e : goerr) : bool :=
  is_no_rows e || String.eqb (from_code e) CodeNotFound.

(** libs/database/locking.go *)
Definition ErrOptimisticLock : goerr :=
  Conflict "resource was modified concurrently; reload and retry".

(** [expectAffected(tag)] on the number of rows affected. *)
Definition expectAffected (rows : nat) : option goerr :=
  if (rows =? 0)%nat then Some ErrOptimisticLock else None.

(** The errors the database driver returns, possibly annotated. *)
Inductive driver_error : goerr → Prop :=
| driver_no_rows : driver_error NoRows
| driver_pg code : driver_error (PgError code)
| driver_wrapped m e : driver_error e → driver_error (Wrapped m e).

(** The status a client sees for an error: [From(err).HTTPStatus()]. *)
Definition client_status (e : goerr) : Z :=
  match From (Some e) with Some a => Error_HTTPStatus a | None => 200 end.

(** ** Lemmas *)
Lemma as_app_idemp e a : as_app e = Some a → as_app a = Some a.
Proof. induction e; simpl; intros; simplify_eq; auto. Qed.

Lemma as_app_is_app e a :
  as_app e = Some a → ∃ c m ds st k, a = AppError c m ds st k.
Proof. induction e; simpl; intros; simplify_eq; eauto 10. Qed.

Lemma from_code_New c m : from_code (New c m) = c.
Proof. reflexivity. Qed.

Lemma IsNotFound_NotFound m : IsNotFound (NotFound m) = true.
Proof. reflexivity. Qed.

Lemma driver_error_not_app e : driver_error e → as_app e = None.
Proof. induction 1; auto. Qed.

Lemma driver_error_no_rows_pg e :
  driver_error e → is_no_rows e = true → as_pg e = None.
Proof. induction 1; simpl; auto; discriminate. Qed.

Lemma driver_error_pg e : driver_error e → is_no_rows e = false → as_pg e ≠ None.
Proof. induction 1; simpl; auto; discriminate. Qed.

Lemma driver_error_not_IsNotFound e :
  driver_error e → is_no_rows e = false → IsNotFound e = false.
Proof.
  intros D Hn. unfold IsNotFound, from_code.
  by rewrite Hn, (driver_error_not_app e D).
Qed.

(** Case analysis on a SQLSTATE compared with the codes [MapError] knows. *)
Ltac sql_cases code :=
  unfold sqlStateUniqueViolation, sqlStateForeignKeyViolation,
    sqlStateNotNullViolation, sqlStateCheckViolation;
  repeat (let H := fresh in
          match goal with
          | |- context [String.eqb code ?c] =>
              destruct (String.eqb_spec code c) as [H|H]; [rewrite ?H|]
          end);
  repeat case_bool_decide.

Create HintDb errors.
#[export] Hint Resolve as_app_idemp from_code_New IsNotFound_NotFound : errors.

(** ** Properties *)

(** [MapError] classifies the database driver's errors: a missing row
    answers 404, a unique violation 409, foreign-key, not-null and check
    violations 422 and anything else 500, unchanged; it neither makes nor hides
    a not-found condition, so [IsNotFound] can be asked after the mapping. *)
Theorem MapError_classifies (e : goerr) (D : driver_error e) :
  IsNotFound (MapError e) = is_no_rows e ∧
  (is_no_rows e = true → client_status (MapError e) = 404) ∧
  (∀ code, as_pg e = Some code →
    client_status (MapError e) =
      (if bool_decide (code = "23505") then 409
       else if bool_decide (code ∈ ["23503"; "23502"; "23514"]) then 422 else 500) ∧
    (code ∉ ["23505"; "23503"; "23502"; "23514"] → MapError e = e)).
Proof.
  pose proof (driver_error_not_app e D) as Happ.
  destruct (is_no_rows e) eqn:Hn.
  - pose proof (driver_error_no_rows_pg e D Hn) as Hpg.
    unfold MapError. rewrite Hn, Hpg. repeat split; done.
  - destruct (as_pg e) as [code|] eqn:Hc; [|by destruct (driver_error_pg e D Hn)].
    split; [|split; [done|intros ? [= <-]]]; unfold MapError; rewrite Hn, Hc;
      sql_cases code; try done; try (by apply driver_error_not_IsNotFound);
      unfold client_status, From; rewrite ?Happ; set_solver.
Qed.

Lemma MapError_classifies_witness :
  driver_error (Wrapped "commit" (PgError "23505")) ∧
  IsNotFound (MapError (Wrapped "commit" (PgError "23505"))) = false.
Proof.
  split; [by repeat constructor|].
  apply (MapError_classifies (Wrapped "commit" (PgError "23505"))).
  by repeat constructor.
Defined.
