(* ===== verification/Tx.v ===== *)
(** * Transactions

    libs/database/tx.go: [Tx], [WithTenant], [TxWithOptions], [runTx],
    [runInSavepoint], [applyTenant] and [isRetryable], over an abstract store.

    A session carries the store as the running transaction sees it, the
    transaction-local setting [app.current_org_id], and PostgreSQL's "current
    transaction is aborted" flag: once a statement fails, every later statement
    of the transaction fails with SQLSTATE 25P02 and COMMIT rolls back
    ([pgx.ErrTxCommitRollback]); ROLLBACK TO SAVEPOINT clears the flag.
    [faults] lists the failures the server or the connection will raise: each
    round trip takes one element, [Some e] failing with [e]; an exhausted list
    means no further failure.  A transaction whose COMMIT fails is taken as
    rolled back.  Identifiers come from [uuid_gen], the [n]-th call of
    [uuid.NewString] being [uuid_gen n]; [clock] is [now()], constant during a
    transaction.  [outside] is the state of the world a transaction does not
    cover (the message broker): it is never rolled back. *)

From S2P Require Import Prelude AppErrors.
Open Scope Z_scope.

Section Tx.
Context {S W : Type}.

Record Sess := mkSess {
  store : S;
  org : string;
  aborted : bool;
  faults : list (option goerr);
  uuid_gen : nat → string;
  uuid_next : nat;
  clock : Z;
  outside : W
}.

Definition set_store (st : S) (s : Sess) : Sess :=
  mkSess st (org s) (aborted s) (faults s) (uuid_gen s) (uuid_next s) (clock s) (outside s).
Definition set_org (o : string) (s : Sess) : Sess :=
  mkSess (store s) o (aborted s) (faults s) (uuid_gen s) (uuid_next s) (clock s) (outside s).
Definition set_aborted (b : bool) (s : Sess) : Sess :=
  mkSess (store s) (org s) b (faults s) (uuid_gen s) (uuid_next s) (clock s) (outside s).
Definition set_faults (fs : list (option goerr)) (s : Sess) : Sess :=
  mkSess (store s) (org s) (aborted s) fs (uuid_gen s) (uuid_next s) (clock s) (outside s).
Definition set_outside (w : W) (s : Sess) : Sess :=
  mkSess (store s) (org s) (aborted s) (faults s) (uuid_gen s) (uuid_next s) (clock s) w.
Definition set_uuid_next (n : nat) (s : Sess) : Sess :=
  mkSess (store s) (org s) (aborted s) (faults s) (uuid_gen s) n (clock s) (outside s).

(** Computations in a session: the state is kept on errors as well, as Go
    code goes on after a failed statement unless it returns. *)
Definition M (A : Type) : Type := Sess → result goerr A * Sess.

Definition ret {A} (a : A) : M A := λ s, (Ok a, s).
Definition fail {A} (e : goerr) : M A := λ s, (Err e, s).
Definition bind {A B} (m : M A) (k : A → M B) : M B := λ s,
  match m s with
  | (Ok a, s') => k a s'
  | (Err e, s') => (Err e, s')
  end.
(** [x, err := m]: the error is handed to the continuation. *)
Definition try {A} (m : M A) : M (result goerr A) := λ s,
  let '(r, s') := m s in (Ok r, s').
(** [if err != nil { return f(err) }]. *)
Definition on_err {A} (m : M A) (f : goerr → goerr) : M A := λ s,
  let '(r, s') := m s in (map_err f r, s').

Definition uuid_NewString : M string := λ s,
  (Ok (uuid_gen s (uuid_next s)), set_uuid_next (Datatypes.S (uuid_next s)) s).

(** One round trip: the next fault, if any. *)
Definition pop_fault (s : Sess) : option goerr * Sess :=
  match faults s with
  | [] => (None, s)
  | f :: fs => (f, set_faults fs s)
  end.

(** A statement [f]: an SQLSTATE on failure, a value and a new store
    otherwise. *)
Definition stmt {A} (f : string → Z → S → string + A * S) : M A := λ s,
  if aborted s then (Err (PgError "25P02"), s)
  else
    match pop_fault s with
    | (Some e, s') => (Err e, set_aborted true s')
    | (None, s') =>
        match f (org s') (clock s') (store s') with
        | inl code => (Err (PgError code), set_aborted true s')
        | inr (a, st) => (Ok a, set_store st s')
        end
    end.

(** ** Transactions *)
Definition maxTxAttempts : nat := 3.

(** [isRetryable]. *)
Definition isRetryable (e : goerr) : bool :=
  match as_pg e with
  | Some code => String.eqb code "40001" || String.eqb code "40P01"
  | None => false
  end.

(** [applyTenant]: SELECT set_config('app.current_org_id', orgID, true). *)
Definition applyTenant (orgID : string) : M unit := λ s,
  if String.eqb orgID "" then (Ok tt, s)
  else
    match stmt (λ _ _ st, inr (tt, st)) s with
    | (Ok _, s') => (Ok tt, set_org orgID s')
    | (Err e, s') => (Err (Wrapped "database: set tenant scope" e), s')
    end.

(** Ending a transaction opened in [s0]: the setting and the flag are the
    ones outside of it. *)
Definition leave (s0 s : Sess) : Sess := set_org (org s0) (set_aborted (aborted s0) s).
Definition rollback (s0 s : Sess) : Sess := set_store (store s0) (leave s0 s).

(** [tx.Commit]. *)
Definition commit (s0 s : Sess) : option goerr * Sess :=
  match pop_fault s with
  | (Some e, s') => (Some e, rollback s0 s')
  | (None, s') =>
      if aborted s' then (Some TxCommitRollback, rollback s0 s')
      else (None, leave s0 s')
  end.

(** [runTx]. *)
Definition runTx {A} (orgID : string) (fn : M A) : M A := λ s,
  match pop_fault s with
  | (Some e, s') => (Err (Wrapped "database: begin tx" e), s')
  | (None, s0) =>
      match bind (applyTenant orgID) (λ _, fn) (set_org "" (set_aborted false s0)) with
      | (Err e, s1) => (Err e, rollback s0 s1)
      | (Ok a, s1) =>
          match commit s0 s1 with
          | (Some e, s2) => (Err (Wrapped "database: commit" e), s2)
          | (None, s2) => (Ok a, s2)
          end
      end
  end.

(** [runInSavepoint]: a failing SAVEPOINT leaves the transaction aborted;
    RELEASE keeps the nested tenant setting, as [set_config(..., true)] lasts
    until the end of the transaction; ROLLBACK TO restores it.  A failing
    RELEASE closes the handle, so the deferred rollback does nothing. *)
Definition runInSavepoint {A} (orgID : string) (fn : M A) : M A := λ s,
  match stmt (λ _ _ st, inr (tt, st)) s with
  | (Err e, s') => (Err (Wrapped "database: begin savepoint" e), s')
  | (Ok _, s0) =>
      match bind (applyTenant orgID) (λ _, fn) s0 with
      | (Err e, s1) => (Err e, rollback s0 s1)
      | (Ok a, s1) =>
          match stmt (λ _ _ st, inr (tt, st)) s1 with
          | (Err e, s2) => (Err e, s2)
          | (Ok _, s2) => (Ok a, s2)
          end
      end
  end.

(** The retry loop of [TxWithOptions]: [left] attempts remain. *)
Fixpoint tx_attempts {A} (left : nat) (last : goerr) (orgID : string) (fn : M A) : M A := λ s,
  match left with
  | O => (Err (Wrapped "database: transaction failed after 3 attempts" last), s)
  | Datatypes.S left' =>
      match runTx orgID fn s with
      | (Ok a, s') => (Ok a, s')
      | (Err e, s') =>
          if isRetryable e then tx_attempts left' e orgID fn s' else (Err e, s')
      end
  end.

(** [TxWithOptions]; [ambient] tells whether the context carries a
    transaction already. *)
Definition TxWithOptions {A} (ambient : bool) (orgID : string) (fn : M A) : M A :=
  if ambient then runInSavepoint orgID fn
  else tx_attempts maxTxAttempts (Plain "") orgID fn.

(** [db.Tx]. *)
Definition Tx {A} (ambient : bool) (fn : M A) : M A := TxWithOptions ambient "" fn.

(** [db.WithTenant], outside of a transaction. *)
Definition WithTenant {A} (orgID : string) (fn : M A) : M A :=
  if String.eqb orgID ""
  then fail (Plain "database: tenant scope (orgID) is required")
  else TxWithOptions false orgID fn.

(** ** Inversion of successful runs *)
Definition same_env (s s' : Sess) : Prop :=
  org s' = org s ∧ uuid_gen s' = uuid_gen s ∧ clock s' = clock s.

Lemma same_env_refl s : same_env s s.
Proof. done. Qed.
Lemma same_env_trans s1 s2 s3 : same_env s1 s2 → same_env s2 s3 → same_env s1 s3.
Proof. unfold same_env. intuition congruence. Qed.

Lemma bind_Ok_inv {A B} (m : M A) (k : A → M B) s b s' :
  bind m k s = (Ok b, s') → ∃ a s1, m s = (Ok a, s1) ∧ k a s1 = (Ok b, s').
Proof. unfold bind. destruct (m s) as [[a|e] s1]; intros; simplify_eq; eauto. Qed.

Lemma pop_fault_frame s e s' :
  pop_fault s = (e, s') →
  store s' = store s ∧ aborted s' = aborted s ∧ uuid_next s' = uuid_next s ∧ same_env s s'.
Proof. unfold pop_fault, same_env. destruct (faults s); intros; simplify_eq; done. Qed.
Lemma pop_fault_outside s e s' : pop_fault s = (e, s') → outside s' = outside s.
Proof. unfold pop_fault. destruct (faults s); by intros; simplify_eq. Qed.

Lemma stmt_Ok_inv {A} (f : string → Z → S → string + A * S) s a s' :
  stmt f s = (Ok a, s') →
  f (org s) (clock s) (store s) = inr (a, store s') ∧
  aborted s = false ∧ aborted s' = false ∧ uuid_next s' = uuid_next s ∧ same_env s s'.
Proof.
  unfold stmt. destruct (aborted s) eqn:Ha; [done|].
  destruct (pop_fault s) as [[e|] s1] eqn:Hp; [done|].
  destruct (pop_fault_frame _ _ _ Hp) as (Hs & Hab & Hu & Ho & Hg & Hc).
  destruct (f (org s1) (clock s1) (store s1)) as [c|[x st]] eqn:Hf; [done|].
  intros; simplify_eq/=. rewrite Hs, Ho, Hc in Hf. unfold same_env; simpl.
  repeat split; congruence.
Qed.

Lemma stmt_outside {A} (f : string → Z → S → string + A * S) s : outside (stmt f s).2 = outside s.
Proof.
  unfold stmt. destruct (aborted s); [done|].
  destruct (pop_fault s) as [[e|] s1] eqn:Hp; apply pop_fault_outside in Hp; [done|].
  by destruct (f _ _ _) as [c|[a st]].
Qed.

Lemma stmt_Err_frame {A} (f : string → Z → S → string + A * S) s e s' :
  stmt f s = (Err e, s') → store s' = store s ∧ aborted s' = true ∧ same_env s s'.
Proof.
  unfold stmt. destruct (aborted s) eqn:Ha; [by intros; simplify_eq|].
  destruct (pop_fault s) as [[x|] s1] eqn:Hp;
    destruct (pop_fault_frame _ _ _ Hp) as (Hs & Hab & Hu & Ho & Hg & Hc).
  - intros; simplify_eq/=. done.
  - destruct (f (org s1) (clock s1) (store s1)) as [c|[x st]]; intros; simplify_eq/=.
    done.
Qed.

Lemma applyTenant_Ok_inv orgID s u s' :
  applyTenant orgID s = (Ok u, s') →
  store s' = store s ∧ uuid_next s' = uuid_next s ∧ uuid_gen s' = uuid_gen s ∧
  clock s' = clock s ∧ aborted s' = aborted s ∧
  org s' = (if String.eqb orgID "" then org s else orgID) ∧ outside s' = outside s.
Proof.
  unfold applyTenant. destruct (String.eqb orgID ""); [by intros; simplify_eq|].
  destruct (stmt _ s) as [[[]|e] s1] eqn:Hs; intros; simplify_eq/=.
  pose proof (stmt_outside (λ _ _ st, inr (tt, st)) s) as Hw. rewrite Hs in Hw.
  apply stmt_Ok_inv in Hs as (Hs & Ha & Ha' & Hu & Ho & Hg & Hc). simplify_eq/=.
  repeat split; congruence.
Qed.

(** The state in which the body of a tenant transaction starts. *)
Definition starts (orgID : string) (s s0 : Sess) : Prop :=
  store s0 = store s ∧ org s0 = orgID ∧ aborted s0 = false ∧
  uuid_gen s0 = uuid_gen s ∧ clock s0 = clock s.

Lemma runTx_Ok_inv {A} orgID (fn : M A) s a s' :
  runTx orgID fn s = (Ok a, s') →
  ∃ s0 s1, starts orgID s s0 ∧ uuid_next s0 = uuid_next s ∧ fn s0 = (Ok a, s1) ∧
    aborted s1 = false ∧ store s' = store s1 ∧ uuid_next s' = uuid_next s1 ∧
    org s' = org s ∧ aborted s' = aborted s ∧ outside s' = outside s1 ∧ outside s0 = outside s.
Proof.
  unfold runTx. destruct (pop_fault s) as [[e|] sb] eqn:Hp; [done|].
  pose proof (pop_fault_outside _ _ _ Hp) as Hw.
  destruct (pop_fault_frame _ _ _ Hp) as (Hs & Hab & Hu & Ho & Hg & Hc).
  destruct (bind _ _ _) as [[x|e] s1] eqn:Hb; [|done].
  unfold bind in Hb.
  destruct (applyTenant orgID _) as [[[]|e] s0] eqn:Ht; simplify_eq.
  apply applyTenant_Ok_inv in Ht as (Ts & Tu & Tg & Tc & Ta & To & Tw); simpl in *.
  unfold commit. destruct (pop_fault s1) as [[e|] s2] eqn:Hp2; [done|].
  pose proof (pop_fault_outside _ _ _ Hp2) as Hw2.
  destruct (pop_fault_frame _ _ _ Hp2) as (Hs2 & Hab2 & Hu2 & Ho2 & Hg2 & Hc2).
  destruct (aborted s2) eqn:Ha2; [done|]. intros; simplify_eq/=.
  exists s0, s1. unfold starts.
  destruct (String.eqb_spec orgID "") as [->|]; repeat split; congruence.
Qed.

Lemma runTx_Err_frame {A} orgID (fn : M A) s e s' :
  runTx orgID fn s = (Err e, s') →
  store s' = store s ∧ org s' = org s ∧ aborted s' = aborted s.
Proof.
  unfold runTx. destruct (pop_fault s) as [[x|] sb] eqn:Hp;
    destruct (pop_fault_frame _ _ _ Hp) as (Hs & Hab & Hu & Ho & Hg & Hc).
  - by intros; simplify_eq.
  - destruct (bind _ _ _) as [[x|x] s1]; [|by intros; simplify_eq/=].
    unfold commit. destruct (pop_fault s1) as [[y|] s2]; [by intros; simplify_eq/=|].
    destruct (aborted s2); by intros; simplify_eq/=.
Qed.

(** ** The retry loop *)

(** [k] attempts in a row failed with retryable errors. *)
Inductive retried {A} (orgID : string) (fn : M A) : nat → Sess → Sess → Prop :=
| retried_0 s : retried orgID fn 0 s s
| retried_S k s e s1 s2 :
    runTx orgID fn s = (Err e, s1) → isRetryable e = true →
    retried orgID fn k s1 s2 → retried orgID fn (Datatypes.S k) s s2.

Lemma retried_store {A} orgID (fn : M A) k s s' :
  retried orgID fn k s s' → store s' = store s ∧ org s' = org s ∧ aborted s' = aborted s.
Proof.
  induction 1 as [|k s e s1 s2 Hr _ _ IH]; [done|].
  apply runTx_Err_frame in Hr as (?&?&?). destruct IH as (?&?&?).
  repeat split; congruence.
Qed.

Lemma tx_attempts_spec {A} left last orgID (fn : M A) s :
  ∃ k s1, retried orgID fn k s s1 ∧ (k ≤ left)%nat ∧
    ((k < left)%nat ∧ tx_attempts left last orgID fn s = runTx orgID fn s1 ∧
       (∀ e s', runTx orgID fn s1 = (Err e, s') → isRetryable e = false) ∨
     k = left ∧ ∃ e, tx_attempts left last orgID fn s =
       (Err (Wrapped "database: transaction failed after 3 attempts" e), s1)).
Proof.
  revert last s. induction left as [|left IH]; intros last s.
  { exists 0%nat, s. repeat split; [constructor|lia|]. right. split; [done|]. by eexists. }
  simpl. destruct (runTx orgID fn s) as [[a|e] s1] eqn:Hr.
  - exists 0%nat, s. repeat split; [constructor|lia|]. left.
    rewrite Hr. repeat split; [lia|]. done.
  - destruct (isRetryable e) eqn:He.
    + destruct (IH e s1) as (k & s2 & Hk & Hle & Hcase).
      exists (Datatypes.S k), s2. repeat split; [by econstructor|lia|].
      destruct Hcase as [(?&?&?)|(->&?)]; [left|right]; repeat split; auto; lia.
    + exists 0%nat, s. repeat split; [constructor|lia|]. left. rewrite Hr.
      repeat split; [lia|]. by intros; simplify_eq.
Qed.

Lemma WithTenant_inv {A} orgID (fn : M A) s r s' :
  WithTenant orgID fn s = (r, s') →
  org s' = org s ∧ aborted s' = aborted s ∧
  match r with
  | Err _ => store s' = store s
  | Ok a => orgID ≠ "" ∧ ∃ s0 s1,
      store s0 = store s ∧ org s0 = orgID ∧ aborted s0 = false ∧
      fn s0 = (Ok a, s1) ∧ aborted s1 = false ∧ store s' = store s1
  end.
Proof.
  unfold WithTenant, TxWithOptions.
  destruct (String.eqb_spec orgID "") as [->|Hne].
  { unfold fail. intros; simplify_eq. done. }
  destruct (tx_attempts_spec maxTxAttempts (Plain "") orgID fn s)
    as (k & s1 & Hk & _ & Hcase).
  apply retried_store in Hk as (Hst & Ho & Ha).
  destruct Hcase as [(_ & -> & _)|(_ & e & ->)]; intros Hr; [|by simplify_eq].
  destruct r as [a|e].
  - apply runTx_Ok_inv in Hr as (s0 & s2 & (?&?&?&?&?) & ? & ? & ? & ? & ? & ? & ? & _ & _).
    split_and!; [congruence..|]. exists s0, s2.
    repeat split; congruence.
  - apply runTx_Err_frame in Hr as (?&?&?). repeat split; congruence.
Qed.

Lemma WithTenant_Ok_inv {A} orgID (fn : M A) s a s' :
  WithTenant orgID fn s = (Ok a, s') →
  orgID ≠ "" ∧ org s' = org s ∧ aborted s' = aborted s ∧ ∃ s0 s1,
      store s0 = store s ∧ org s0 = orgID ∧ aborted s0 = false ∧
      fn s0 = (Ok a, s1) ∧ aborted s1 = false ∧ store s' = store s1.
Proof. intros H. apply WithTenant_inv in H as (?&?&?&?). auto. Qed.

(** ** Computations that leave the environment alone *)
Definition stable {A} (m : M A) : Prop := ∀ s, same_env s (m s).2.

Lemma stable_ret {A} (a : A) : stable (ret a).
Proof. by intros s. Qed.
Lemma stable_fail {A} e : stable (@fail A e).
Proof. by intros s. Qed.
Lemma stable_uuid : stable uuid_NewString.
Proof. by intros s. Qed.
Lemma stable_bind {A B} (m : M A) (k : A → M B) :
  stable m → (∀ a, stable (k a)) → stable (bind m k).
Proof.
  intros Hm Hk s. unfold bind. specialize (Hm s).
  destruct (m s) as [[a|e] s1]; simpl in *; [|done].
  eapply same_env_trans; [exact Hm|apply Hk].
Qed.
Lemma stable_try {A} (m : M A) : stable m → stable (try m).
Proof. intros Hm s. unfold try. specialize (Hm s). by destruct (m s). Qed.
Lemma stable_on_err {A} (m : M A) f : stable m → stable (on_err m f).
Proof. intros Hm s. unfold on_err. specialize (Hm s). by destruct (m s). Qed.
Lemma stable_stmt {A} (f : string → Z → S → string + A * S) : stable (stmt f).
Proof.
  intros s. destruct (stmt f s) as [[a|e] s'] eqn:Hm; simpl.
  - by apply stmt_Ok_inv in Hm as (_&_&_&_&?).
  - by apply stmt_Err_frame in Hm as (_&_&?).
Qed.

Lemma runTx_stable {A} orgID (fn : M A) : stable fn → stable (runTx orgID fn).
Proof.
  intros Hfn s. unfold runTx.
  destruct (pop_fault s) as [[e|] sb] eqn:Hp;
    destruct (pop_fault_frame _ _ _ Hp) as (_ & _ & _ & Ho & Hg & Hc); [done|].
  assert (Hb : ∀ r s1, bind (applyTenant orgID) (λ _, fn) (set_org "" (set_aborted false sb))
                       = (r, s1) → uuid_gen s1 = uuid_gen s ∧ clock s1 = clock s).
  { intros r s1. unfold bind, applyTenant.
    destruct (String.eqb orgID "").
    - intros Hf. specialize (Hfn (set_org "" (set_aborted false sb))).
      rewrite Hf in Hfn. destruct Hfn as (_ & ? & ?). simpl in *. split; congruence.
    - pose proof (stable_stmt (λ _ _ st, inr (tt, st)) (set_org "" (set_aborted false sb)))
        as (_ & Hg1 & Hc1).
      destruct (stmt _ _) as [[[]|e] s2] eqn:Hs; simpl in *.
      + intros Hf. specialize (Hfn (set_org orgID s2)). rewrite Hf in Hfn.
        destruct Hfn as (_ & ? & ?). simpl in *. split; congruence.
      + intros [= <- <-]. split; congruence. }
  destruct (bind _ _ _) as [[a|e] s1]; destruct (Hb _ _ eq_refl) as [Hg1 Hc1];
    unfold rollback, leave, commit; simpl; [|split_and!; simpl; congruence].
  destruct (pop_fault s1) as [[y|] s2] eqn:Hp2;
    destruct (pop_fault_frame _ _ _ Hp2) as (_ & _ & _ & Ho2 & Hg2 & Hc2);
    [|destruct (aborted s2)]; unfold rollback, leave; split_and!; simpl; congruence.
Qed.

Lemma retried_env {A} orgID (fn : M A) k s s' :
  stable fn → retried orgID fn k s s' → same_env s s'.
Proof.
  intros Hfn. induction 1 as [|k s e s1 s2 Hr _ _ IH]; [done|].
  pose proof (runTx_stable orgID fn Hfn s) as He. rewrite Hr in He.
  by eapply same_env_trans.
Qed.

Lemma WithTenant_stable {A} orgID (fn : M A) : stable fn → stable (WithTenant orgID fn).
Proof.
  intros Hfn s. unfold WithTenant, TxWithOptions. destruct (String.eqb orgID ""); [done|].
  destruct (tx_attempts_spec maxTxAttempts (Plain "") orgID fn s)
    as (k & s1 & Hk & _ & Hcase). apply retried_env in Hk; [|done].
  destruct Hcase as [(_ & -> & _)|(_ & e & ->)]; [|done].
  eapply same_env_trans; [done|by apply runTx_stable].
Qed.

(** A successful tenant transaction is one run of its body. *)
Lemma WithTenant_run_outside {A} orgID (fn : M A) s a s' :
  stable fn → WithTenant orgID fn s = (Ok a, s') →
  orgID ≠ "" ∧ same_env s s' ∧ ∃ s0 s1,
    starts orgID s s0 ∧ fn s0 = (Ok a, s1) ∧ aborted s1 = false ∧ store s' = store s1 ∧
    outside s' = outside s1.
Proof.
  intros Hfn Hw. pose proof (WithTenant_stable orgID fn Hfn s) as He. rewrite Hw in He.
  revert Hw. unfold WithTenant, TxWithOptions.
  destruct (String.eqb_spec orgID "") as [|Hne]; [done|].
  destruct (tx_attempts_spec maxTxAttempts (Plain "") orgID fn s)
    as (k & s1 & Hk & _ & Hcase).
  pose proof (retried_env _ _ _ _ _ Hfn Hk) as (_ & Hg & Hc).
  apply retried_store in Hk as (Hst & Ho & Ha).
  destruct Hcase as [(_ & -> & _)|(_ & e & ->)]; intros Hr; [|done].
  apply runTx_Ok_inv in Hr as (s0 & s2 & (?&?&?&?&?) & ? & ? & ? & ? & ? & ? & ? & ? & _).
  split_and!; [done..|]. exists s0, s2. unfold starts. repeat split; congruence.
Qed.

Lemma WithTenant_run {A} orgID (fn : M A) s a s' :
  stable fn → WithTenant orgID fn s = (Ok a, s') →
  orgID ≠ "" ∧ same_env s s' ∧ ∃ s0 s1,
    starts orgID s s0 ∧ fn s0 = (Ok a, s1) ∧ aborted s1 = false ∧ store s' = store s1.
Proof.
  intros Hfn (? & ? & s0 & s1 & ? & ? & ? & ? & _)%WithTenant_run_outside; [|done].
  split_and!; [done..|]. by exists s0, s1.
Qed.

Lemma WithTenant_Err_store {A} orgID (fn : M A) s e s' :
  WithTenant orgID fn s = (Err e, s') → store s' = store s.
Proof. intros H. by apply WithTenant_inv in H as (_ & _ & H). Qed.

(** ** Invariants of the store and the outside world

    A body may be run several times and rolled back; what happens outside
    stays. *)
Lemma runTx_body {A} orgID (fn : M A) s r s' :
  runTx orgID fn s = (r, s') →
  (store s' = store s ∧ outside s' = outside s) ∨
  ∃ s0 ra s1, store s0 = store s ∧ outside s0 = outside s ∧ fn s0 = (ra, s1) ∧
    outside s' = outside s1 ∧ (store s' = store s ∨ store s' = store s1 ∧ r = ra).
Proof.
  assert (Hp : ∀ x e y, pop_fault x = (e, y) → store y = store x ∧ outside y = outside x).
  { intros x e y. unfold pop_fault. by destruct (faults x); intros; simplify_eq. }
  unfold runTx. destruct (pop_fault s) as [[e|] sb] eqn:Hb; apply Hp in Hb as [Hs Hw].
  { intros [= <- <-]. by left. }
  unfold bind, applyTenant.
  assert (Hrun : ∀ s0, store s0 = store s → outside s0 = outside s → ∀ ra s1, fn s0 = (ra, s1) →
    match ra with
    | Err e => (Err e, rollback sb s1)
    | Ok a => match commit sb s1 with
              | (Some e, s2) => (Err (Wrapped "database: commit" e), s2)
              | (None, s2) => (Ok a, s2)
              end
    end = (r, s') →
    ∃ s0 ra s1, store s0 = store s ∧ outside s0 = outside s ∧ fn s0 = (ra, s1) ∧
      outside s' = outside s1 ∧ (store s' = store s ∨ store s' = store s1 ∧ r = ra)).
  { intros s0 H1 H2 ra s1 Hf Hr. exists s0, ra, s1. split_and!; try done.
    - revert Hr. destruct ra; [|by intros [= <- <-]]. unfold commit.
      destruct (pop_fault s1) as [[e|] s2] eqn:Hq; apply Hp in Hq as [_ Hq];
        [|destruct (aborted s2)]; by intros [= <- <-].
    - revert Hr. destruct ra; [|by intros [= <- <-]; left]. unfold commit.
      destruct (pop_fault s1) as [[e|] s2] eqn:Hq; apply Hp in Hq as [Hq _];
        [|destruct (aborted s2)]; intros [= <- <-]; simpl; auto. }
  destruct (String.eqb orgID "").
  - destruct (fn _) as [ra s1] eqn:Hf. intros Hr. right. by eapply (Hrun _ _ _ ra).
  - unfold stmt. simpl. destruct (pop_fault _) as [[e|] s2] eqn:Hq; apply Hp in Hq as [H1 H2];
      simpl in *.
    + intros [= <- <-]. simpl. left. split; congruence.
    + destruct (fn _) as [ra s1] eqn:Hf. intros Hr. right.
      by eapply (Hrun _ _ _ ra _ Hf Hr).
  Unshelve. all: simpl; congruence.
Qed.

Lemma Tx_invariant {A} orgID (fn : M A) (P : S → W → Prop) s r s' :
  (∀ s r s', P (store s) (outside s) → fn s = (r, s') →
     P (store s) (outside s') ∧ P (store s') (outside s')) →
  TxWithOptions false orgID fn s = (r, s') →
  P (store s) (outside s) → P (store s') (outside s').
Proof.
  intros Hfn. unfold TxWithOptions. generalize (Plain "") as last. generalize maxTxAttempts.
  intros n. revert s. induction n as [|n IH]; intros s last; simpl; [by intros [= <- <-]|].
  destruct (runTx orgID fn s) as [r1 s1] eqn:Hr. intros Hres HP.
  assert (HP1 : P (store s1) (outside s1)).
  { apply runTx_body in Hr as [[-> ->]|(s0 & ra & s2 & Hs & Hw & Hf & -> & Hst)]; [done|].
    rewrite <- Hs, <- Hw in HP. destruct (Hfn _ _ _ HP Hf) as [Ha Hb]. rewrite Hs in Ha.
    by destruct Hst as [->|[-> _]]. }
  destruct r1 as [a|e]; [by injection Hres as <- <-|].
  destruct (isRetryable e); [by eapply IH|by injection Hres as <- <-].
Qed.

(** A transaction that sets no tenant.  A retried body starts each time from
    the database the transaction found, and from what the attempts before left
    outside: [I] is kept by them all. *)
Lemma Tx_spec {A} (fn : M A) (I : W → Prop) (Q : Z → S → W → A → S → W → Prop) s r s' :
  stable fn →
  (∀ s r s', I (outside s) → fn s = (r, s') → I (outside s') ∧
     ∀ a, r = Ok a → aborted s' = false → Q (clock s) (store s) (outside s) a (store s') (outside s')) →
  Tx false fn s = (r, s') → I (outside s) →
  same_env s s' ∧ I (outside s') ∧
  match r with
  | Err _ => store s' = store s
  | Ok a => ∃ w, I w ∧ Q (clock s) (store s) w a (store s') (outside s')
  end.
Proof.
  intros Hst Hfn. unfold Tx, TxWithOptions. generalize (Plain "") as last. generalize maxTxAttempts as n.
  intros n. revert s. induction n as [|n IH]; intros s last; simpl; [by intros [= <- <-]|].
  destruct (runTx "" fn s) as [r1 s1] eqn:Hr. intros Hres HI.
  pose proof (runTx_stable "" fn Hst s) as He. rewrite Hr in He. simpl in He.
  assert (H1 : I (outside s1)).
  { destruct (runTx_body _ _ _ _ _ Hr) as [[_ ->]|(s0 & ra & s2 & _ & Hw & Hf & -> & _)]; [done|].
    rewrite <- Hw in HI. by destruct (Hfn _ _ _ HI Hf). }
  destruct r1 as [a|e].
  - injection Hres as <- <-. split_and!; [by destruct He as (?&?&?)..|done|].
    apply runTx_Ok_inv in Hr as (s0 & s2 & (Hs0 & _ & _ & _ & Hc0) & _ & Hf & Ha & -> & _ & _ & _ & -> & Hw).
    exists (outside s0). rewrite <- Hs0, <- Hc0. rewrite <- Hw in HI. split; [done|].
    by eapply Hfn.
  - destruct (isRetryable e).
    + apply IH in Hres as (He' & ? & Hr'); [|done]. apply runTx_Err_frame in Hr as (Hs & _ & _).
      pose proof He as (_ & _ & Hc). rewrite Hs, Hc in Hr'.
      split; [by eapply same_env_trans|]. done.
    + injection Hres as <- <-. apply runTx_Err_frame in Hr as (? & _ & _). done.
Qed.

(** ** Runs without faults

    When no failure is injected a statement is its relational meaning and a
    transaction is one run of its body. *)
Definition quiet (s : Sess) : Prop := faults s = [].
Definition enter (orgID : string) (s : Sess) : Sess := set_org orgID (set_aborted false s).

Lemma stmt_quiet {A} (f : string → Z → S → string + A * S) s :
  quiet s → aborted s = false →
  stmt f s = match f (org s) (clock s) (store s) with
             | inl code => (Err (PgError code), set_aborted true s)
             | inr (a, st) => (Ok a, set_store st s)
             end.
Proof. unfold quiet, stmt, pop_fault. by intros -> ->. Qed.

Lemma runTx_quiet {A} orgID (fn : M A) s r s1 :
  quiet s → fn (enter orgID s) = (r, s1) → quiet s1 →
  runTx orgID fn s =
    match r with
    | Err e => (Err e, rollback s s1)
    | Ok a => if aborted s1
              then (Err (Wrapped "database: commit" TxCommitRollback), rollback s s1)
              else (Ok a, leave s s1)
    end.
Proof.
  intros Hq Hf Hq1. unfold runTx, pop_fault. rewrite Hq.
  assert (Hb : bind (applyTenant orgID) (λ _, fn) (set_org "" (set_aborted false s)) = (r, s1)).
  { unfold bind, applyTenant, stmt, pop_fault. simpl. rewrite Hq.
    destruct (String.eqb_spec orgID "") as [->|]; exact Hf. }
  rewrite Hb.
  destruct r as [a|e]; [|done].
  unfold commit, pop_fault. rewrite Hq1. by destruct (aborted s1).
Qed.

Lemma WithTenant_quiet {A} orgID (fn : M A) s r s1 :
  quiet s → orgID ≠ "" → fn (enter orgID s) = (r, s1) → quiet s1 →
  (∀ e, r = Err e → isRetryable e = false) →
  WithTenant orgID fn s =
    match r with
    | Err e => (Err e, rollback s s1)
    | Ok a => if aborted s1
              then (Err (Wrapped "database: commit" TxCommitRollback), rollback s s1)
              else (Ok a, leave s s1)
    end.
Proof.
  intros Hq Hne Hf Hq1 Hr. unfold WithTenant, TxWithOptions, tx_attempts, maxTxAttempts.
  destruct (String.eqb_spec orgID ""); [done|].
  rewrite (runTx_quiet orgID fn s r s1) by done.
  destruct r as [a|e]; [by destruct (aborted s1)|]. by rewrite Hr.
Qed.

(** ** Preserved properties of the visible tenant and the store *)
Definition keeps (Q : string → S → Prop) {A} (m : M A) : Prop :=
  ∀ s, Q (org s) (store s) → Q (org (m s).2) (store (m s).2).

Lemma keeps_ret Q {A} (a : A) : keeps Q (ret a).
Proof. by intros s. Qed.
Lemma keeps_fail Q {A} e : keeps Q (@fail A e).
Proof. by intros s. Qed.
Lemma keeps_uuid Q : keeps Q uuid_NewString.
Proof. by intros s. Qed.
Lemma keeps_bind Q {A B} (m : M A) (k : A → M B) :
  keeps Q m → (∀ a, keeps Q (k a)) → keeps Q (bind m k).
Proof.
  intros Hm Hk s Hs. unfold bind. specialize (Hm s Hs).
  destruct (m s) as [[a|e] s1]; simpl in *; [by apply Hk|done].
Qed.
Lemma keeps_try Q {A} (m : M A) : keeps Q m → keeps Q (try m).
Proof. intros Hm s Hs. unfold try. specialize (Hm s Hs). by destruct (m s). Qed.
Lemma keeps_on_err Q {A} (m : M A) f : keeps Q m → keeps Q (on_err m f).
Proof. intros Hm s Hs. unfold on_err. specialize (Hm s Hs). by destruct (m s). Qed.
Lemma keeps_stmt Q {A} (f : string → Z → S → string + A * S) :
  (∀ o c st a st', Q o st → f o c st = inr (a, st') → Q o st') → keeps Q (stmt f).
Proof.
  intros Hf s Hs. destruct (stmt f s) as [[a|e] s'] eqn:Hm; simpl.
  - apply stmt_Ok_inv in Hm as (Hm & _ & _ & _ & -> & _). eauto.
  - apply stmt_Err_frame in Hm as (-> & _ & -> & _). done.
Qed.
Lemma keeps_WithTenant Q orgID {A} (fn : M A) (I : S → Prop) :
  keeps Q fn → (∀ st, I st → Q orgID st) → (∀ st, Q orgID st → I st) →
  (∀ s, org (fn s).2 = org s) →
  ∀ s, I (store s) → I (store (WithTenant orgID fn s).2).
Proof.
  intros Hk HIQ HQI Ho s HI. destruct (WithTenant orgID fn s) as [r s'] eqn:Hw.
  apply WithTenant_inv in Hw as (_ & _ & Hr); simpl. destruct r as [a|e].
  - destruct Hr as (_ & s0 & s1 & Hs0 & Ho0 & _ & Hf & _ & ->).
    apply HQI. specialize (Hk s0). rewrite Hf in Hk. simpl in Hk.
    specialize (Ho s0). rewrite Hf in Ho. simpl in Ho. rewrite Ho, Ho0 in Hk.
    apply Hk. rewrite Hs0. auto.
  - by rewrite Hr.
Qed.

(** ** Properties *)

(** A tenant transaction is atomic whatever its body does and whichever
    statements fail: on error the store is the one before the call; on
    success the tenant was named, and the store is the one left by a single
    complete run of the body, started from the store before the call in the
    scope of that tenant and ended without a failed statement. A body that
    swallows a failed statement therefore never commits. *)
Theorem WithTenant_atomic {A} (orgID : string) (fn : M A) (s : Sess) :
  let '(r, s') := WithTenant orgID fn s in
  org s' = org s ∧ aborted s' = aborted s ∧
  match r with
  | Err _ => store s' = store s
  | Ok a => orgID ≠ "" ∧ ∃ s0 s1,
      store s0 = store s ∧ org s0 = orgID ∧ aborted s0 = false ∧
      fn s0 = (Ok a, s1) ∧ aborted s1 = false ∧ store s' = store s1
  end.
Proof.
  destruct (WithTenant orgID fn s) as [r s'] eqn:H. by apply WithTenant_inv in H.
Qed.

(** Retries are bounded and only follow transient failures: a call makes
    [k <= 3] attempts that end in a serialization failure or a deadlock,
    each leaving the store unchanged; it then returns the outcome of one
    more attempt, a success or a failure not worth retrying, unless the
    three attempts are used up, and then it returns an error. *)
Theorem WithTenant_retries_bounded {A} (orgID : string) (fn : M A) (s : Sess)
    (Hne : orgID ≠ "") :
  ∃ k s1, retried orgID fn k s s1 ∧ store s1 = store s ∧
    ((k < 3)%nat ∧ WithTenant orgID fn s = runTx orgID fn s1 ∧
       (∀ e s', runTx orgID fn s1 = (Err e, s') → isRetryable e = false) ∨
     k = 3%nat ∧ is_ok (WithTenant orgID fn s).1 = false ∧
       (WithTenant orgID fn s).2 = s1).
Proof.
  destruct (tx_attempts_spec maxTxAttempts (Plain "") orgID fn s)
    as (k & s1 & Hk & _ & Hcase).
  exists k, s1. split; [done|]. split; [by destruct (retried_store _ _ _ _ _ Hk)|].
  unfold WithTenant, TxWithOptions. destruct (String.eqb_spec orgID ""); [done|].
  destruct Hcase as [(?&?&?)|(->&e&->)]; [left|right]; auto.
Qed.

(** A nested transaction (a savepoint) isolates the failure of its body:
    the enclosing transaction goes on with the store, the tenant and the
    usable state it had when the savepoint was set. *)
Theorem savepoint_failure_isolated {A} (orgID : string) (fn : M A) (s : Sess) e s0 s1
    (Hq : stmt (λ _ _ st, inr (tt, st)) s = (Ok tt, s0))
    (Hb : bind (applyTenant orgID) (λ _, fn) s0 = (Err e, s1)) :
  ∃ s', TxWithOptions true orgID fn s = (Err e, s') ∧
    store s' = store s ∧ org s' = org s ∧ aborted s' = false.
Proof.
  unfold TxWithOptions, runInSavepoint. rewrite Hq, Hb. eexists. split; [done|].
  apply stmt_Ok_inv in Hq as (Hf & _ & Ha & _ & Ho & _). simplify_eq/=. auto.
Qed.
End Tx.
Arguments Sess : clear implicits.
Arguments M : clear implicits.

Declare Scope tx_scope.
Delimit Scope tx_scope with tx.
Notation "'let*' x ':=' m 'in' k" := (bind m (λ x, k))
  (at level 10, x pattern, m at level 100, k at level 200,
   format "'let*'  x  ':='  m  'in' '//' k") : tx_scope.
Notation "m ;; k" := (bind m (λ _, k)) (at level 100, right associativity) : tx_scope.

(** ** Witnesses: a counter store and a body that writes, then fails. *)
Definition demo_sess (fs : list (option goerr)) : Sess nat unit :=
  mkSess 0%nat "" false fs (λ _, "") 0 0 tt.
Definition demo_write : M nat unit unit := stmt (λ _ _ n, inr (tt, Datatypes.S n)).

Lemma WithTenant_retries_bounded_witness :
  (∃ k s1, retried "org" demo_write k
       (demo_sess [None; None; Some (PgError "40001")]) s1 ∧ store s1 = 0%nat) ∧
  store (WithTenant "org" demo_write (demo_sess [None; None; Some (PgError "40001")])).2 = 1%nat.
Proof.
  split; [|reflexivity].
  destruct (WithTenant_retries_bounded "org" demo_write
    (demo_sess [None; None; Some (PgError "40001")]) ltac:(discriminate))
    as (k & s1 & Hk & Hs & _).
  by exists k, s1.
Defined.

Lemma savepoint_failure_isolated_witness :
  ∃ s', TxWithOptions true "b" (bind demo_write (λ _, @fail nat unit unit NoRows))
          (set_org "a" (demo_sess [])) = (Err NoRows, s') ∧
        store s' = 0%nat ∧ org s' = "a" ∧ aborted s' = false.
Proof.
  exact (savepoint_failure_isolated "b" (bind demo_write (λ _, @fail nat unit unit NoRows))
    (set_org "a" (demo_sess [])) NoRows (set_org "a" (demo_sess [])) _ eq_refl eq_refl).
Defined.

Create HintDb stable.
#[export] Hint Resolve stable_ret stable_fail stable_uuid stable_bind stable_try
  stable_on_err stable_stmt WithTenant_stable : stable.
Create HintDb keeps.
#[export] Hint Resolve keeps_ret keeps_fail keeps_uuid keeps_bind keeps_try
  keeps_on_err : keeps.
