(* ===== verification/Events.v ===== *)
(** * The event framework

    libs/events: the envelope and its validation (envelope.go), subjects and
    schema upgrades (versioning.go), the retry policy (retry.go), subject
    filters and the in-memory broker (memory.go) and the acknowledgement
    decisions of the JetStream consumer (subscriber.go, dlq.go).  The payload
    of an envelope is kept as a value of a type [P] (the service's payload
    structs); its JSON rendering is not modelled. *)

From S2P Require Import Prelude AppErrors.
Open Scope Z_scope.

(** ** envelope.go *)
Record Actor := mkActor { actor_type : string; actor_id : string }.
Record Resource := mkResource { res_type : string; res_id : string }.

Record Envelope (P : Type) := mkEnvelope {
  EventID : string;
  Type_ : string;
  Version : Z;
  OrgID : string;
  CorrelationID : string;
  TraceParent : string;
  OccurredAt : Z;
  actor : Actor;
  resource : Resource;
  Payload : option P
}.
Arguments mkEnvelope {P}.
Arguments EventID {P}. Arguments Type_ {P}. Arguments Version {P}.
Arguments OrgID {P}. Arguments CorrelationID {P}. Arguments TraceParent {P}.
Arguments OccurredAt {P}. Arguments actor {P}. Arguments resource {P}.
Arguments Payload {P}.

Definition no_actor : Actor := mkActor "" "".
Definition no_resource : Resource := mkResource "" "".

Section Envelope.
Context {P : Type}.

(** [Option], [WithCorrelationID], [WithTraceParent], [WithActor],
    [WithResource]. *)
Definition Option_ : Type := Envelope P → Envelope P.
Definition WithCorrelationID (id : string) : Option_ := λ e,
  mkEnvelope (EventID e) (Type_ e) (Version e) (OrgID e) id (TraceParent e)
    (OccurredAt e) (actor e) (resource e) (Payload e).
Definition WithTraceParent (tp : string) : Option_ := λ e,
  mkEnvelope (EventID e) (Type_ e) (Version e) (OrgID e) (CorrelationID e) tp
    (OccurredAt e) (actor e) (resource e) (Payload e).
Definition WithActor (a : Actor) : Option_ := λ e,
  mkEnvelope (EventID e) (Type_ e) (Version e) (OrgID e) (CorrelationID e) (TraceParent e)
    (OccurredAt e) a (resource e) (Payload e).
Definition WithResource (r : Resource) : Option_ := λ e,
  mkEnvelope (EventID e) (Type_ e) (Version e) (OrgID e) (CorrelationID e) (TraceParent e)
    (OccurredAt e) (actor e) r (Payload e).

(** [(Envelope).Validate]: the error, or [None]. *)
Definition Validate (e : Envelope P) : option goerr :=
  if String.eqb (EventID e) "" then Some (Plain "events: envelope missing eventId")
  else if String.eqb (Type_ e) "" then Some (Plain "events: envelope missing type")
  else if Version e <? 1 then Some (Plain "events: envelope version must be >= 1")
  else if String.eqb (OrgID e) "" then Some (Plain "events: envelope missing orgId")
  else None.

(** [events.New] with the generated identifier and the time as arguments. *)
Definition New_envelope (id : string) (at_ : Z) (eventType : string) (version : Z)
    (orgID : string) (payload : option P) (opts : list Option_) : result goerr (Envelope P) :=
  let e := mkEnvelope id eventType version orgID "" "" at_ no_actor no_resource payload in
  let e := fold_left (λ e opt, opt e) opts e in
  match Validate e with
  | Some err => Err err
  | None => Ok e
  end.
End Envelope.

(** ** versioning.go: subjects *)
Definition SubjectFor (prefix eventType : string) (version : Z) : string :=
  prefix +:+ "." +:+ eventType +:+ ".v" +:+ GoStrings.Itoa version.
Definition Subject {P} (prefix : string) (e : Envelope P) : string :=
  SubjectFor prefix (Type_ e) (Version e).
Definition CatalogName (eventType : string) (version : Z) : string :=
  eventType +:+ ".v" +:+ GoStrings.Itoa version.
Definition CanonicalName {P} (e : Envelope P) : string := CatalogName (Type_ e) (Version e).

(** [ParseSubject]: [Some (type, version)] stands for [ok = true]. *)
Definition ParseSubject (prefix subject : string) : option (string * Z) :=
  let trimmed := GoStrings.TrimPrefix subject (prefix +:+ ".") in
  if String.eqb trimmed subject then None
  else
    match GoStrings.LastIndex trimmed ".v" with
    | None => None
    | Some idx =>
        match GoStrings.Atoi (GoStrings.drop_str (idx + 2) trimmed) with
        | None => None
        | Some v => if v <? 1 then None else Some (GoStrings.take_str idx trimmed, v)
        end
    end.

(** ** versioning.go: schema upgrades *)
Section Upgrade.
Context {P : Type}.

Definition Upcaster : Type := Envelope P → result goerr (Envelope P).
Definition Registry : Type := gmap string Upcaster.

Definition upcasterKey (eventType : string) (fromVersion : Z) : string :=
  eventType +:+ ":" +:+ GoStrings.Itoa fromVersion.

(** [Register]: [None] is the panic on a duplicate. *)
Definition Register (r : Registry) (eventType : string) (fromVersion : Z) (up : Upcaster)
    : option Registry :=
  let key := upcasterKey eventType fromVersion in
  match r !! key with
  | Some _ => None
  | None => Some (<[key := up]> r)
  end.

(** The loop of [Upgrade]; [None] means the fuel ran out. *)
Fixpoint Upgrade_loop (fuel : nat) (r : Registry) (e : Envelope P)
    : option (result goerr (Envelope P)) :=
  match fuel with
  | O => None
  | S fuel' =>
      match r !! upcasterKey (Type_ e) (Version e) with
      | None => Some (Ok e)
      | Some up =>
          match up e with
          | Err err => Some (Err (Wrapped "events: upcast" err))
          | Ok next =>
              if Version next =? Version e + 1 then Upgrade_loop fuel' r next
              else Some (Err (Plain "events: upcaster must produce the next version"))
          end
      end
  end.

Definition Upgrade (r : Registry) (e : Envelope P) : option (result goerr (Envelope P)) :=
  Upgrade_loop (S (size r)) r e.
End Upgrade.
Arguments Upcaster : clear implicits.
Arguments Registry : clear implicits.

(** ** retry.go *)
Record RetryPolicy := mkRetry { MaxAttempts : Z; BaseDelay : Z; MaxDelay : Z }.

Definition Second : Z := 1000000000.
Definition DefaultRetryPolicy : RetryPolicy := mkRetry 5 Second (30 * Second).

Definition normalized (p : RetryPolicy) : RetryPolicy :=
  let attempts := if MaxAttempts p <=? 0 then MaxAttempts DefaultRetryPolicy else MaxAttempts p in
  let base := if BaseDelay p <=? 0 then BaseDelay DefaultRetryPolicy else BaseDelay p in
  let max :=
    if MaxDelay p <? base
    then if MaxDelay DefaultRetryPolicy <? base then base else MaxDelay DefaultRetryPolicy
    else MaxDelay p in
  mkRetry attempts base max.

(** Two's complement 64-bit arithmetic, as [time.Duration] has it. *)
Definition wrap64 (z : Z) : Z := (z + 2 ^ 63) mod 2 ^ 64 - 2 ^ 63.

(** The loop of [backoff]: [n] doublings are left. *)
Fixpoint backoff_loop (n : nat) (delay max : Z) : Z :=
  match n with
  | O => if max <? delay then max else delay
  | S n' =>
      let d := wrap64 (delay * 2) in
      if max <=? d then max else backoff_loop n' d max
  end.

Definition backoff (p : RetryPolicy) (attempt : Z) : Z :=
  let attempt := if attempt <? 1 then 1 else attempt in
  backoff_loop (Z.to_nat (attempt - 1)) (BaseDelay p) (MaxDelay p).

Definition backoffSchedule (p : RetryPolicy) : list Z :=
  let n := MaxAttempts p - 1 in
  if n <? 1 then []
  else (λ i, backoff p (Z.of_nat i + 1)) <$> seq 0 (Z.to_nat n).

(** ** memory.go: subject filters *)
Definition dot : Ascii.ascii := Ascii.ascii_of_nat 46.

(** [strings.Split(s, ".")]. *)
Fixpoint split_dot (s : string) : list string :=
  match s with
  | EmptyString => [""%string]
  | String a s' =>
      if Ascii.eqb a dot then ""%string :: split_dot s'
      else
        match split_dot s' with
        | t :: ts => String a t :: ts
        | [] => [String a ""]
        end
  end.

(** The loop of [subjectMatches] on the remaining tokens. *)
Fixpoint tokens_match (f s : list string) : bool :=
  match f with
  | [] => match s with [] => true | _ => false end
  | tok :: f' =>
      if String.eqb tok ">" then match s with [] => false | _ => true end
      else
        match s with
        | [] => false
        | u :: s' =>
            if String.eqb tok "*" then tokens_match f' s'
            else if String.eqb tok u then tokens_match f' s' else false
        end
  end.
Definition subjectMatches (filter subject : string) : bool :=
  tokens_match (split_dot filter) (split_dot subject).

(** ** subscriber.go: what happens to a delivered message *)
Inductive AckAction :=
| DeadLetterRaw      (** [_ = c.deadLetterRaw(...)], its error ignored *)
| DeadLetterEvent    (** [c.publishDeadLetter], successful *)
| DeadLetterFailed   (** [c.publishDeadLetter], failed *)
| Ack | Term | Nak
| NakWithDelay (d : Z).

Section HandleMessage.
Context {P : Type}.

(** [handleMessage]: [parsed] is the decoded envelope if the body is one,
    [numDelivered] the metadata if available, [reg] the upcasters if set;
    the handler's error and the outcome of publishing the dead letter are
    given by [h] and [dlq_ok]. *)
Definition handleMessage (policy : RetryPolicy) (reg : option (Registry P))
    (h : Envelope P → option goerr) (dlq_ok : bool)
    (numDelivered : option Z) (parsed : option (Envelope P)) : option (list AckAction) :=
  let attempt := match numDelivered with Some n => n | None => 1 end in
  match parsed with
  | None => Some [DeadLetterRaw; Term]
  | Some env =>
      let upgraded :=
        match reg with
        | Some r => Upgrade r env
        | None => Some (Ok env)
        end in
      match upgraded with
      | None => None
      | Some (Err _) => Some [DeadLetterRaw; Term]
      | Some (Ok env) =>
          match h env with
          | None => Some [Ack]
          | Some _ =>
              if MaxAttempts policy <=? attempt
              then if dlq_ok then Some [DeadLetterEvent; Term]
                   else Some [DeadLetterFailed; Nak]
              else Some [NakWithDelay (backoff policy attempt)]
          end
      end
  end.
End HandleMessage.

(** ** Lemmas *)
Lemma drop_str_plus n m s : GoStrings.drop_str (n + m) s = GoStrings.drop_str m (GoStrings.drop_str n s).
Proof. revert s; induction n; intros [|a s]; simpl; auto. by destruct m. Qed.

Lemma upcasterKey_version t1 v1 t2 v2 : upcasterKey t1 v1 = upcasterKey t2 v2 → v1 = v2.
Proof.
  assert (Hlast : ∀ t v, GoStrings.LastIndex (upcasterKey t v) ":" = Some (String.length t)).
  { intros t v. apply (LastIndex_last (Ascii.ascii_of_nat 58) "" t).
    exact (Itoa_no_char (Ascii.ascii_of_nat 58) v eq_refl ltac:(discriminate)). }
  intros Heq. pose proof (Hlast t1 v1) as H. rewrite Heq, Hlast in H. injection H as H.
  destruct (string_app_inv_tail_length t1 t2 _ _ Heq (eq_sym H)) as [_ Ht].
  injection Ht as Ht. by apply Itoa_inj.
Qed.

(** Each turn of the upgrade loop uses an entry of the registry for a version
    that no earlier turn had, so the entries bound the turns. *)
Lemma Upgrade_loop_fuel {P} (r : Registry P) fuel (V : gset string) e :
  V ⊆ dom r →
  (∀ k, k ∈ V → ∃ t w, w < Version e ∧ k = upcasterKey t w) →
  (size (dom r) < size V + fuel)%nat →
  is_Some (Upgrade_loop fuel r e).
Proof.
  revert V e. induction fuel as [|fuel IH]; intros V e HV Hold Hsz; simpl.
  { apply subseteq_size in HV. lia. }
  destruct (r !! upcasterKey (Type_ e) (Version e)) as [up|] eqn:Hup; [|by eexists].
  destruct (up e) as [next|err]; [|by eexists].
  destruct (Z.eqb_spec (Version next) (Version e + 1)) as [Hv|]; [|by eexists].
  assert (Hnew : upcasterKey (Type_ e) (Version e) ∉ V).
  { intros Hin. destruct (Hold _ Hin) as (t & w & Hw & Hk).
    apply upcasterKey_version in Hk. lia. }
  apply (IH ({[upcasterKey (Type_ e) (Version e)]} ∪ V)).
  - unfold Registry in *. apply (elem_of_dom_2 (D:=gset string)) in Hup.
    clear -Hup HV. set_solver.
  - intros k Hk. apply elem_of_union in Hk as [Hk|Hk].
    + apply elem_of_singleton in Hk as ->. exists (Type_ e), (Version e). split; [lia|done].
    + destruct (Hold k Hk) as (t & w & ? & ->). exists t, w. split; [lia|done].
  - rewrite size_union by set_solver. rewrite size_singleton. lia.
Qed.

Lemma Upgrade_loop_chain {P} (r : Registry P) fuel e e' :
  Upgrade_loop fuel r e = Some (Ok e') →
  Version e ≤ Version e' ∧ r !! upcasterKey (Type_ e') (Version e') = None.
Proof.
  revert e. induction fuel as [|fuel IH]; intros e; simpl; [done|].
  destruct (r !! upcasterKey (Type_ e) (Version e)) as [u|] eqn:Hr;
    [|intros; simplify_eq; split; [lia|done]].
  destruct (u e) as [next|]; [|done].
  destruct (Z.eqb_spec (Version next) (Version e + 1)); [|done].
  intros H. destruct (IH _ H). split; [lia|done].
Qed.

(** *** Backoff *)
Definition sane (p : RetryPolicy) : Prop :=
  0 < BaseDelay p ∧ BaseDelay p ≤ MaxDelay p ∧ MaxDelay p < 2 ^ 62 ∧ 0 < MaxAttempts p.

Lemma wrap64_id z : - 2 ^ 63 ≤ z < 2 ^ 63 → wrap64 z = z.
Proof. intros. unfold wrap64. rewrite Z.mod_small; lia. Qed.

Lemma backoff_loop_spec n delay max :
  0 < delay → delay ≤ max → max < 2 ^ 62 →
  backoff_loop n delay max = Z.min max (delay * 2 ^ Z.of_nat n).
Proof.
  revert delay. induction n as [|n IH]; intros delay Hd Hle Hm.
  - simpl backoff_loop. change (2 ^ Z.of_nat 0) with 1.
    destruct (Z.ltb_spec max delay); lia.
  - cbn [backoff_loop]. cbv zeta.
    assert (Hw : wrap64 (delay * 2) = delay * 2).
    { apply wrap64_id. change (2 ^ 62) with 4611686018427387904 in Hm.
      change (2 ^ 63) with 9223372036854775808. lia. }
    rewrite Hw, Nat2Z.inj_succ, Z.pow_succ_r by lia.
    assert (1 ≤ 2 ^ Z.of_nat n) by (apply (Z.pow_le_mono_r 2 0); lia).
    destruct (Z.leb_spec max (delay * 2)); [nia|]. rewrite IH by lia. f_equal. lia.
Qed.

Lemma normalized_sane p :
  BaseDelay p < 2 ^ 62 → MaxDelay p < 2 ^ 62 → sane (normalized p).
Proof.
  intros Hb Hm. unfold sane, normalized, DefaultRetryPolicy, Second; simpl.
  destruct (Z.leb_spec (MaxAttempts p) 0), (Z.leb_spec (BaseDelay p) 0); simpl;
    repeat match goal with |- context [?a <? ?b] => destruct (Z.ltb_spec a b) end; lia.
Qed.

(** *** Subjects *)
Lemma ParseSubject_SubjectFor prefix ty v :
  1 ≤ v < 2 ^ 63 → ParseSubject prefix (SubjectFor prefix ty v) = Some (ty, v).
Proof.
  intros Hv. unfold ParseSubject, SubjectFor.
  set (tail := (ty +:+ ".v" +:+ GoStrings.Itoa v)).
  assert (Htrim : GoStrings.TrimPrefix (prefix +:+ "." +:+ tail) (prefix +:+ ".") = tail).
  { unfold GoStrings.TrimPrefix. rewrite <- string_app_assoc, has_prefix_app.
    apply drop_str_prefix. }
  rewrite Htrim.
  destruct (String.eqb_spec tail (prefix +:+ "." +:+ tail)) as [Heq|_].
  { apply (f_equal String.length) in Heq. rewrite !string_length_app in Heq. simpl in Heq. lia. }
  unfold tail at 1. change ".v"%string with (String dot "v").
  rewrite (LastIndex_last dot "v" ty (GoStrings.Itoa v)).
  2: { exact (Itoa_no_char dot v eq_refl ltac:(discriminate)). }
  replace (GoStrings.drop_str (String.length ty + 2) tail) with (GoStrings.Itoa v).
  2: { unfold tail. by rewrite drop_str_plus, drop_str_prefix. }
  rewrite Atoi_Itoa by lia. destruct (Z.ltb_spec v 1); [lia|].
  unfold tail. by rewrite take_str_prefix.
Qed.

(** *** Filters *)
Inductive tokens_spec : list string → list string → Prop :=
| ts_nil : tokens_spec [] []
| ts_rest f u s : tokens_spec (">"%string :: f) (u :: s)
| ts_star f u s : tokens_spec f s → tokens_spec ("*"%string :: f) (u :: s)
| ts_eq t f s : t ≠ ">" → t ≠ "*" → tokens_spec f s → tokens_spec (t :: f) (t :: s).

Lemma tokens_match_spec f s : tokens_match f s = true ↔ tokens_spec f s.
Proof.
  split.
  - revert s. induction f as [|t f IH]; intros s; simpl.
    + destruct s; [constructor|done].
    + destruct (String.eqb_spec t ">") as [->|H1]; [destruct s; [done|constructor]|].
      destruct s as [|u s]; [done|].
      destruct (String.eqb_spec t "*") as [->|H2]; [constructor; auto|].
      destruct (String.eqb_spec t u) as [->|]; [|done]. constructor; auto.
  - induction 1 as [|f u s|f u s _ IH|t f s H1 H2 _ IH]; simpl; auto.
    apply String.eqb_neq in H1, H2. by rewrite H1, H2, String.eqb_refl.
Qed.

(** Membership questions about literal lists of actions. *)
Ltac actions :=
  repeat split; intros;
  rewrite ?elem_of_cons, ?elem_of_nil in *; naive_solver.

(** ** Properties *)

(** The subject of every event parses back to its type and version, for
    any prefix and any type (dots and even ".v" included): consumers bound to
    a subject recover exactly what the producer published. *)
Theorem ParseSubject_roundtrip {P} (prefix : string) (e : Envelope P)
    (Hv : Validate e = None) (Hmax : Version e < 2 ^ 63) :
  ParseSubject prefix (Subject prefix e) = Some (Type_ e, Version e).
Proof.
  apply ParseSubject_SubjectFor. revert Hv. unfold Validate.
  repeat case_match; try done. bool_to_prop. lia.
Qed.

(** [Upgrade] always terminates, whatever the registry and the event: it
    makes at most one turn per registered upcaster; the event it returns is
    at least as recent and has no further upcaster registered. *)
Theorem Upgrade_terminates {P} (r : Registry P) (e : Envelope P) :
  ∃ res, Upgrade r e = Some res ∧
    ∀ e', res = Ok e' →
      Version e ≤ Version e' ∧ r !! upcasterKey (Type_ e') (Version e') = None.
Proof.
  destruct (Upgrade_loop_fuel r (S (size r)) ∅ e) as [res Hres].
  - set_solver.
  - set_solver.
  - pose proof (size_dom (D := gset string) (r : gmap string (Upcaster P))).
    unfold Registry in *. rewrite size_empty. lia.
  - exists res. split; [done|]. intros e' ->. by eapply Upgrade_loop_chain.
Qed.

(** The retry schedule of a normalised policy is the capped exponential
    it documents and never overflows: the wait before attempt [n] is
    [min MaxDelay (BaseDelay * 2^(n-1))], it never decreases with [n], and the
    schedule has one gap between consecutive delivery attempts. *)
Theorem backoff_capped_exponential (p0 : RetryPolicy)
    (Hb : BaseDelay p0 < 2 ^ 62) (Hm : MaxDelay p0 < 2 ^ 62) :
  let p := normalized p0 in
  (∀ n, 1 ≤ n → backoff p n = Z.min (MaxDelay p) (BaseDelay p * 2 ^ (n - 1))) ∧
  (∀ n m, n ≤ m → 0 < BaseDelay p ≤ backoff p n ∧ backoff p n ≤ backoff p m ≤ MaxDelay p) ∧
  Z.of_nat (length (backoffSchedule p)) = MaxAttempts p - 1 ∧
  (∀ i, (i < length (backoffSchedule p))%nat →
     backoffSchedule p !! i = Some (backoff p (Z.of_nat i + 1))).
Proof.
  intros p. assert (Hs : sane p) by by apply normalized_sane.
  clearbody p. destruct Hs as (H1 & H2 & H3 & H4).
  assert (Hspec : ∀ n, backoff p n =
            Z.min (MaxDelay p) (BaseDelay p * 2 ^ (Z.max n 1 - 1))).
  { intros n. unfold backoff. rewrite backoff_loop_spec by lia.
    destruct (Z.ltb_spec n 1); do 3 f_equal; lia. }
  split_and!.
  - intros n Hn. rewrite Hspec. do 3 f_equal. lia.
  - intros n m Hnm. rewrite !Hspec.
    assert (1 ≤ 2 ^ (Z.max n 1 - 1)) by (apply (Z.pow_le_mono_r 2 0); lia).
    assert (2 ^ (Z.max n 1 - 1) ≤ 2 ^ (Z.max m 1 - 1)) by (apply Z.pow_le_mono_r; lia).
    nia.
  - unfold backoffSchedule. destruct (Z.ltb_spec (MaxAttempts p - 1) 1); simpl; [lia|].
    rewrite length_fmap, length_seq. lia.
  - unfold backoffSchedule. destruct (Z.ltb_spec (MaxAttempts p - 1) 1); simpl; [lia|].
    intros i. rewrite length_fmap, length_seq. intros Hi.
    rewrite list_lookup_fmap, lookup_seq_lt by done. done.
Qed.

(** Subject filters mean what NATS documents: [*] stands for exactly one
    token, a [>] for one or more trailing tokens, any other token for itself. *)
Theorem subjectMatches_wildcards (f s : string) :
  subjectMatches f s = true ↔ tokens_spec (split_dot f) (split_dot s).
Proof. apply tokens_match_spec. Qed.

(** A consumed message is acknowledged exactly when the handler accepted
    the event at its latest schema version; it is removed for good ([Term])
    only together with an attempt to dead-letter it, and an event whose
    handler failed is removed only once the dead letter is published. While
    attempts remain it is redelivered after the policy's backoff. *)
Theorem handleMessage_disposition {P} (policy : RetryPolicy) reg h dlq_ok nd parsed :
  ∃ acts, @handleMessage P policy reg h dlq_ok nd parsed = Some acts ∧
    (Ack ∈ acts ↔ ∃ e e', parsed = Some e ∧ h e' = None ∧
        match reg with Some r => Upgrade r e = Some (Ok e') | None => e' = e end) ∧
    (Term ∈ acts → DeadLetterRaw ∈ acts ∨ (DeadLetterEvent ∈ acts ∧ dlq_ok = true)) ∧
    (∀ d, NakWithDelay d ∈ acts →
       d = backoff policy (default 1 nd) ∧ default 1 nd < MaxAttempts policy).
Proof.
  assert (Hup : ∀ e, ∃ res,
    match reg with Some r => Upgrade r e | None => Some (Ok e) end = Some res ∧
    ∀ e', match reg with Some r => Upgrade r e = Some (Ok e') | None => e' = e end ↔
          res = Ok e').
  { intros e. destruct reg as [r|]; [|exists (Ok e); naive_solver].
    destruct (Upgrade_terminates r e) as (res & -> & _). exists res. naive_solver. }
  unfold handleMessage, default, from_option, id.
  destruct parsed as [e|]; [|eexists; split; [done|]; actions].
  destruct (Hup e) as (res & -> & Hiff).
  destruct res as [e1|err]; [|eexists; split; [done|]; actions].
  destruct (h e1) as [herr|] eqn:Hh; [|eexists; split; [done|]; actions].
  destruct (Z.leb_spec (MaxAttempts policy) (match nd with Some n => n | None => 1 end)).
  - destruct dlq_ok; eexists; (split; [done|]); actions.
  - eexists; split; [done|]. actions.
Qed.

(** *** Witnesses *)
Definition demo_event : Envelope unit :=
  mkEnvelope "e1" "deployment.v1.created" 3 "org" "" "" 0 no_actor no_resource None.

Lemma ParseSubject_roundtrip_witness :
  ParseSubject "evt" (Subject "evt" demo_event) = Some ("deployment.v1.created"%string, 3).
Proof. apply (ParseSubject_roundtrip "evt" demo_event); reflexivity. Defined.

Lemma backoff_capped_exponential_witness :
  backoff (normalized (mkRetry 0 0 0)) 4 = 8 * Second ∧
  backoffSchedule (normalized (mkRetry 0 0 0)) = (λ s, s * Second) <$> [1; 2; 4; 8].
Proof.
  split; [|reflexivity].
  destruct (backoff_capped_exponential (mkRetry 0 0 0) eq_refl eq_refl) as [H _].
  exact (H 4 ltac:(lia)).
Defined.
