(* ===== verification/Domain.v ===== *)
(** * The deployment domain

    libs/contracts/deploymentstatus (canonical statuses), and
    services/deployment/internal: domain.go (entities, requests, views),
    rollout.go (rollout phases and snapshots), argocd_domain.go, events.go (event names and
    payloads), errors.go.  Timestamps are integers (nanoseconds); JSON columns
    hold [json] values, [None] being an empty [json.RawMessage]. *)

From S2P Require Import Prelude Json AppErrors Events.
Open Scope Z_scope.

(** ** libs/contracts/deploymentstatus *)
Definition ReleasePending : string := "pending".
Definition ReleaseDeploying : string := "deploying".
Definition ReleaseSucceeded : string := "succeeded".
Definition ReleaseFailed : string := "failed".
Definition ReleaseRolledBack : string := "rolled_back".

Definition DeploymentPending : string := "pending".
Definition DeploymentRunning : string := "running".
Definition DeploymentSucceeded : string := "succeeded".
Definition DeploymentFailed : string := "failed".
Definition DeploymentRolledBack : string := "rolled_back".

Definition one_of (s : string) (l : list string) : bool := existsb (String.eqb s) l.

Definition ReleaseStatus_IsTerminal (s : string) : bool :=
  one_of s [ReleaseSucceeded; ReleaseFailed; ReleaseRolledBack].
Definition ReleaseStatus_IsActive (s : string) : bool :=
  one_of s [ReleasePending; ReleaseDeploying].
Definition ValidReleaseStatus (s : string) : bool :=
  one_of s [ReleasePending; ReleaseDeploying; ReleaseSucceeded; ReleaseFailed; ReleaseRolledBack].
Definition ValidAgentReleaseStatus (s : string) : bool :=
  one_of s [ReleaseDeploying; ReleaseSucceeded; ReleaseFailed].
Definition ValidDeploymentStatus (s : string) : bool :=
  one_of s [DeploymentPending; DeploymentRunning; DeploymentSucceeded; DeploymentFailed;
            DeploymentRolledBack].

(** ** domain.go: constants *)
Definition RuntimeContainer : string := "container".
Definition RuntimeFunction : string := "function".
Definition RuntimeJob : string := "job".

Definition StatusPending := DeploymentPending.
Definition StatusRunning := DeploymentRunning.
Definition StatusSucceeded := DeploymentSucceeded.
Definition StatusFailed := DeploymentFailed.
(** The literal the SQL of repository.go uses. *)
Definition StatusDeleted : string := "deleted".

Definition ReleaseStatusPending := ReleasePending.
Definition ReleaseStatusDeploying := ReleaseDeploying.
Definition ReleaseStatusSucceeded := ReleaseSucceeded.
Definition ReleaseStatusFailed := ReleaseFailed.

(** ** domain.go: entities ([TenantModel] flattened) *)
Record Application := mkApp {
  a_id : string; a_created : Z; a_updated : Z; a_version : Z; a_org : string;
  a_project : string; a_name : string; a_slug : string; a_desc : option string;
  a_runtime : string; a_created_by : option string }.

Record Deployment := mkDep {
  d_id : string; d_created : Z; d_updated : Z; d_version : Z; d_org : string;
  d_app : string; d_cluster : string; d_image : string; d_replicas : Z;
  d_cpu_request : option string; d_cpu_limit : option string;
  d_memory_request : option string; d_memory_limit : option string;
  d_port : option Z; d_env : RawMessage; d_status : string;
  d_ready : Z; d_desired : Z; d_created_by : option string }.

(** What this service reads of a cluster. *)
Record ClusterRow := mkCluster { cl_org : string; cl_agent : option string; cl_status : string }.

Record Release := mkRel {
  r_id : string; r_org : string; r_dep : string; r_revision : Z; r_image : string;
  r_replicas : Z; r_hash : string; r_config : RawMessage; r_status : string;
  r_started : option Z; r_finished : option Z; r_error : option string;
  r_created_by : option string; r_created : Z }.

Record EnvVar := mkEnv { ev_name : string; ev_value : string }.

(** [json.Marshal] and [json.Unmarshal] on [[]EnvVar]: decoding matches keys
    case-insensitively, skips unknown keys and nulls, and on a type mismatch
    keeps going and reports an error (the second component is [err == nil]). *)
Definition encode_env (l : list EnvVar) : json :=
  JArr ((λ e, JObj [("name"%string, JStr (ev_name e)); ("value"%string, JStr (ev_value e))]) <$> l).

Definition decode_field (acc : EnvVar * bool) (kv : string * json) : EnvVar * bool :=
  let '(e, ok) := acc in
  let '(k, v) := kv in
  let k := GoStrings.ToLower k in
  if String.eqb k "name" then
    match v with
    | JStr s => (mkEnv s (ev_value e), ok)
    | JNull => (e, ok)
    | _ => (e, false)
    end
  else if String.eqb k "value" then
    match v with
    | JStr s => (mkEnv (ev_name e) s, ok)
    | JNull => (e, ok)
    | _ => (e, false)
    end
  else (e, ok).

Definition decode_env_item (j : json) : EnvVar * bool :=
  match j with
  | JObj fields => fold_left decode_field fields (mkEnv "" "", true)
  | JNull => (mkEnv "" "", true)
  | _ => (mkEnv "" "", false)
  end.

Definition decode_env (j : json) : list EnvVar * bool :=
  match j with
  | JArr l => let r := decode_env_item <$> l in (fst <$> r, forallb snd r)
  | JNull => ([], true)
  | _ => ([], false)
  end.

(** ** domain.go: requests *)
Record CreateApplicationRequest := mkCreateApp {
  ca_name : string; ca_slug : string; ca_desc : option string; ca_runtime : string }.
Record UpdateApplicationRequest := mkUpdateApp {
  ua_name : option string; ua_desc : option string }.

(** argocd_domain.go: [GitOpsSource], which a create request may carry; an
    absent policy is a nil pointer. *)
Record GitOpsSource := mkGitOps {
  go_repo : string; go_path : string; go_revision : string; go_source_type : string;
  go_project : string; go_dest_server : string; go_dest_namespace : string;
  go_auto_sync : option bool; go_self_heal : option bool; go_prune : option bool }.

(** [cd_env], [ud_env]: [None] is a nil slice (the field is absent). *)
Record CreateDeploymentRequest := mkCreateDep {
  cd_app : string; cd_cluster : string; cd_image : string; cd_replicas : Z;
  cd_cpu_request : option string; cd_cpu_limit : option string;
  cd_memory_request : option string; cd_memory_limit : option string;
  cd_port : option Z; cd_env : option (list EnvVar); cd_gitops : option GitOpsSource }.

Record UpdateDeploymentRequest := mkUpdateDep {
  ud_image : option string; ud_replicas : option Z;
  ud_cpu_request : option string; ud_cpu_limit : option string;
  ud_memory_request : option string; ud_memory_limit : option string;
  ud_port : option Z; ud_env : option (list EnvVar) }.

Record RollbackRequest := mkRollback { rb_target : option Z }.
Record UpdateStatusRequest := mkUpdateStatus {
  us_status : string; us_ready : option Z; us_error : option string }.

(** ** domain.go: view models *)
Definition deref (s : option string) : string := default "" s.

Record ApplicationView := mkAppView {
  av_id : string; av_org : string; av_project : string; av_name : string;
  av_slug : string; av_desc : string; av_runtime : string; av_created : Z }.
Definition toApplicationView (a : Application) : ApplicationView :=
  mkAppView (a_id a) (a_org a) (a_project a) (a_name a) (a_slug a) (deref (a_desc a))
    (a_runtime a) (a_created a).

Record DeploymentView := mkDepView {
  dv_id : string; dv_org : string; dv_app : string; dv_cluster : string;
  dv_image : string; dv_replicas : Z; dv_cpu_request : string; dv_cpu_limit : string;
  dv_memory_request : string; dv_memory_limit : string; dv_port : option Z;
  dv_env : list EnvVar; dv_status : string; dv_ready : Z; dv_desired : Z;
  dv_revision : option Z; dv_created : Z }.
Definition toDeploymentView (d : Deployment) (currentRevision : option Z) : DeploymentView :=
  let envVars := match d_env d with Some j => fst (decode_env j) | None => [] end in
  mkDepView (d_id d) (d_org d) (d_app d) (d_cluster d) (d_image d) (d_replicas d)
    (deref (d_cpu_request d)) (deref (d_cpu_limit d))
    (deref (d_memory_request d)) (deref (d_memory_limit d))
    (d_port d) envVars (d_status d) (d_ready d) (d_desired d) currentRevision (d_created d).

Record ReleaseView := mkRelView {
  rv_id : string; rv_dep : string; rv_revision : Z; rv_image : string; rv_replicas : Z;
  rv_status : string; rv_started : option Z; rv_finished : option Z; rv_error : string;
  rv_created : Z }.
Definition toReleaseView (r : Release) : ReleaseView :=
  mkRelView (r_id r) (r_dep r) (r_revision r) (r_image r) (r_replicas r) (r_status r)
    (r_started r) (r_finished r) (deref (r_error r)) (r_created r).

(** ** rollout.go *)
Definition RolloutPhasePending : string := "Pending".
Definition RolloutPhaseScheduling : string := "Scheduling".
Definition RolloutPhaseReconciling : string := "Reconciling".
Definition RolloutPhaseRollingOut : string := "RollingOut".
Definition RolloutPhaseHealthy : string := "Healthy".
Definition RolloutPhaseFailed : string := "Failed".
Definition RolloutPhaseRollback : string := "Rollback".

Definition ValidRolloutPhase (s : string) : bool :=
  one_of s [RolloutPhasePending; RolloutPhaseScheduling; RolloutPhaseReconciling;
            RolloutPhaseRollingOut; RolloutPhaseHealthy; RolloutPhaseFailed;
            RolloutPhaseRollback].

Record RolloutStatus := mkRollout {
  rs_dep : string; rs_rel : string; rs_org : string; rs_phase : string;
  rs_revision : Z; rs_image : string; rs_desired : Z; rs_ready : Z; rs_updated : Z;
  rs_available : Z; rs_unavailable : Z; rs_observed : Z; rs_percentage : Z;
  rs_conditions : RawMessage; rs_error : option string; rs_is_rollback : bool;
  rs_started_at : Z; rs_updated_at : Z }.

Record ProgressCondition := mkCond {
  pc_type : string; pc_status : string; pc_reason : string; pc_message : string }.

Record UpdateProgressRequest := mkProgress {
  up_phase : string; up_revision : Z; up_image : string; up_percentage : Z;
  up_timeout : bool; up_desired : Z; up_ready : Z; up_updated : Z; up_available : Z;
  up_unavailable : Z; up_observed : Z; up_conditions : list ProgressCondition;
  up_error : string }.

(** [json.Marshal(req.Conditions)]; empty reason and message are omitted. *)
Definition encode_conditions (l : list ProgressCondition) : json :=
  let omit k s := if String.eqb s "" then [] else [(k, JStr s)] in
  JArr ((λ c, JObj ([("type"%string, JStr (pc_type c)); ("status"%string, JStr (pc_status c))]
                    ++ omit "reason"%string (pc_reason c)
                    ++ omit "message"%string (pc_message c))) <$> l).

(** ** argocd_domain.go: the binding of a deployment to Argo CD *)
Definition SourceTypeDirectory : string := "directory".
Definition SourceTypeHelm : string := "helm".
Definition SourceTypeKustomize : string := "kustomize".
Definition ValidSourceType (s : string) : bool :=
  one_of s [SourceTypeDirectory; SourceTypeHelm; SourceTypeKustomize].

Record ArgoApplication := mkArgo {
  ar_dep : string; ar_org : string; ar_app_name : string; ar_project : string;
  ar_repo : string; ar_path : string; ar_revision : string; ar_source_type : string;
  ar_dest_server : string; ar_dest_namespace : string;
  ar_auto_sync : bool; ar_self_heal : bool; ar_prune : bool;
  ar_sync_status : string; ar_health_status : string; ar_operation_phase : string;
  ar_synced_revision : string; ar_drift : bool; ar_observed : option Z;
  ar_created : Z; ar_updated : Z }.

Record ArgoSyncRequest := mkArgoSync { as_revision : string; as_prune : option bool }.
Record ArgoRollbackRequest := mkArgoRollback { arb_revision : string; arb_history : option Z }.

(** [ArgoApplicationView] has the fields of the record but the tenant's id and
    the times of the row. *)
Record ArgoApplicationView := mkArgoView {
  arv_dep : string; arv_application : string; arv_project : string; arv_repo : string;
  arv_path : string; arv_revision : string; arv_source_type : string;
  arv_dest_server : string; arv_dest_namespace : string;
  arv_auto_sync : bool; arv_self_heal : bool; arv_prune : bool;
  arv_sync_status : string; arv_health_status : string; arv_operation_phase : string;
  arv_synced_revision : string; arv_drift : bool; arv_observed : option Z }.
Definition toArgoApplicationView (a : ArgoApplication) : ArgoApplicationView :=
  mkArgoView (ar_dep a) (ar_app_name a) (ar_project a) (ar_repo a) (ar_path a) (ar_revision a)
    (ar_source_type a) (ar_dest_server a) (ar_dest_namespace a) (ar_auto_sync a)
    (ar_self_heal a) (ar_prune a) (ar_sync_status a) (ar_health_status a)
    (ar_operation_phase a) (ar_synced_revision a) (ar_drift a) (ar_observed a).

(** ** events.go *)
Definition EventApplicationCreated : string := "application.created".
Definition EventApplicationUpdated : string := "application.updated".
Definition EventApplicationDeleted : string := "application.deleted".
Definition EventDeploymentCreated : string := "deployment.created".
Definition EventDeploymentStarted : string := "deployment.started".
Definition EventDeploymentSucceeded : string := "deployment.succeeded".
Definition EventDeploymentFailed : string := "deployment.failed".
Definition EventDeploymentRollback : string := "deployment.rollback.requested".
Definition EventDeploymentDeleted : string := "deployment.deleted".
Definition EventDeploymentProgress : string := "deployment.progress".
Definition EventDeploymentHealthy : string := "deployment.healthy".
Definition EventDeploymentTimeout : string := "deployment.timeout".
Definition EventDeploymentRollbackStarted : string := "deployment.rollback.started".
Definition EventDeploymentRollbackCompleted : string := "deployment.rollback.completed".
Definition EventDeploymentSyncStarted : string := "deployment.sync.started".
Definition EventDeploymentSyncCompleted : string := "deployment.sync.completed".
Definition EventDeploymentSyncFailed : string := "deployment.sync.failed".
Definition EventDeploymentHealthChanged : string := "deployment.health.changed".
Definition EventDeploymentDriftDetected : string := "deployment.drift.detected".
Definition eventVersion : Z := 1.

(** The payload structs; [durationSeconds] is kept in nanoseconds. *)
Inductive payload : Type :=
| applicationCreatedPayload (app project name slug runtime createdBy : string)
| applicationUpdatedPayload (app name updatedBy : string)
| applicationDeletedPayload (app deletedBy : string)
| deploymentCreatedPayload (dep app cluster image : string) (replicas revision : Z)
    (createdBy : string)
| deploymentStartedPayload (dep rel : string) (revision : Z) (image : string)
| deploymentSucceededPayload (dep rel : string) (revision readyReplicas : Z)
| deploymentFailedPayload (dep rel : string) (revision : Z) (errorMessage : string)
| deploymentRollbackPayload (dep : string) (fromRevision targetRevision : Z)
    (requestedBy : string)
| deploymentDeletedPayload (dep app deletedBy : string)
| deploymentProgressPayload (dep rel : string) (revision : Z) (phase : string)
    (percentage ready desired : Z) (image : string)
| deploymentHealthyPayload (dep rel : string) (revision ready duration : Z)
| deploymentTimeoutPayload (dep rel : string) (revision : Z) (errorMessage : string)
| deploymentRollbackStartedPayload (dep fromRel : string) (fromRevision : Z)
    (targetRel : string) (targetRevision : Z) (reason : string)
| deploymentRollbackCompletedPayload (dep rel : string) (revision ready : Z)
| deploymentSyncStartedPayload (dep app cluster namespace revision : string)
| deploymentSyncCompletedPayload (dep app revision syncStatus healthStatus : string)
| deploymentSyncFailedPayload (dep app revision phase errorMessage : string)
| deploymentHealthChangedPayload (dep app from to : string)
| deploymentDriftDetectedPayload (dep app syncStatus healthStatus : string).

Definition Event := Envelope payload.

(** ** errors.go *)
Definition errOrgRequired := Validation "organization ID required".
Definition errProjectRequired := Validation "project ID required".
Definition errSlugTaken := Conflict "application slug already taken".
Definition errAppNotFound := NotFound "application not found".
Definition errDeploymentNotFound := NotFound "deployment not found".
Definition errReleaseNotFound := NotFound "release not found".
Definition errNoRollbackTarget := Conflict "no previous successful release to rollback to".
Definition errInvalidImage := Validation "image is required".
Definition errInvalidReplicas := Validation "replicas must be at least 1".
Definition errArgoAppNotFound := NotFound "gitops application not found for deployment".

(** ** Lemmas *)
Lemma decode_encode_env l : decode_env (encode_env l) = (l, true).
Proof.
  unfold decode_env, encode_env. f_equal.
  - rewrite <- !list_fmap_compose. etrans; [|apply list_fmap_id].
    apply list_fmap_ext. by intros ? [].
  - induction l as [|[n v] l IH]; [done|]. exact IH.
Qed.

Lemma one_of_spec s l : one_of s l = true ↔ s ∈ l.
Proof.
  unfold one_of. rewrite existsb_exists. setoid_rewrite String.eqb_eq.
  split; [intros (x & Hx & ->)|intros; exists s]; rewrite ?list_elem_of_In in *; auto.
Qed.

