(* ===== verification/Pagination.v ===== *)
(** * Keyset pagination

    libs/database/pagination.go: page requests, opaque cursors and pages; and
    the list query every repository issues,
    [SELECT ... WHERE (created_at, id) < cursor ORDER BY created_at DESC, id DESC
     LIMIT n].  [base64.RawURLEncoding] is written out; the JSON text of a cursor
    ([encoding/json] on a [time.Time] and a string) is a codec given by an
    instance of [CursorJSON]. *)

From S2P Require Import Prelude AppErrors.
Open Scope Z_scope.

Definition DefaultPageLimit : Z := 20.
Definition MaxPageLimit : Z := 100.

Record PageRequest := mkPageRequest { Limit : Z; PCursor : string }.

(** [(PageRequest).Normalize]. *)
Definition Normalize (p : PageRequest) : PageRequest :=
  if Limit p <=? 0 then mkPageRequest DefaultPageLimit (PCursor p)
  else if MaxPageLimit <? Limit p then mkPageRequest MaxPageLimit (PCursor p)
  else p.

Record Page (A : Type) := mkPage { Items : list A; NextCursor : string }.
Arguments mkPage {A}. Arguments Items {A}. Arguments NextCursor {A}.

(** [CreatedAt = 0] stands for the zero time. *)
Record Cursor := mkCursor { c_created : Z; c_id : string }.
#[export] Instance Cursor_eq_dec : EqDecision Cursor.
Proof. solve_decision. Defined.
Definition zero_cursor : Cursor := mkCursor 0 "".
Definition IsZero (c : Cursor) : bool := String.eqb (c_id c) "" && (c_created c =? 0).

(** ** [base64.RawURLEncoding] *)
Module Base64.
Definition alphabet : list Z :=
  (λ n, Z.of_nat n) <$> (seq 65 26 ++ seq 97 26 ++ seq 48 10 ++ [45; 95]%nat).

Definition enc_char (v : Z) : Z := nth (Z.to_nat v) alphabet 0.

(** The value of a character; [None] for a character not in the alphabet. *)
Definition dec_char (c : Z) : option Z :=
  if (65 <=? c) && (c <=? 90) then Some (c - 65)
  else if (97 <=? c) && (c <=? 122) then Some (c - 71)
  else if (48 <=? c) && (c <=? 57) then Some (c + 4)
  else if c =? 45 then Some 62
  else if c =? 95 then Some 63
  else None.

Fixpoint encode (bs : list Z) : list Z :=
  match bs with
  | a :: b :: c :: rest =>
      enc_char (Z.shiftr a 2)
      :: enc_char (Z.lor (Z.shiftl (Z.land a 3) 4) (Z.shiftr b 4))
      :: enc_char (Z.lor (Z.shiftl (Z.land b 15) 2) (Z.shiftr c 6))
      :: enc_char (Z.land c 63) :: encode rest
  | [a; b] =>
      [enc_char (Z.shiftr a 2);
       enc_char (Z.lor (Z.shiftl (Z.land a 3) 4) (Z.shiftr b 4));
       enc_char (Z.shiftl (Z.land b 15) 2)]
  | [a] => [enc_char (Z.shiftr a 2); enc_char (Z.shiftl (Z.land a 3) 4)]
  | [] => []
  end.

(** Groups of sextets to bytes; the unused low bits of the last group are
    not checked (the encoding is not strict), a lone sextet is an error. *)
Fixpoint join (vs : list Z) : option (list Z) :=
  match vs with
  | a :: b :: c :: d :: rest =>
      rs ← join rest;
      Some (Z.land (Z.lor (Z.shiftl a 2) (Z.shiftr b 4)) 255
            :: Z.land (Z.lor (Z.shiftl b 4) (Z.shiftr c 2)) 255
            :: Z.land (Z.lor (Z.shiftl c 6) d) 255 :: rs)
  | [a; b; c] =>
      Some [Z.land (Z.lor (Z.shiftl a 2) (Z.shiftr b 4)) 255;
            Z.land (Z.lor (Z.shiftl b 4) (Z.shiftr c 2)) 255]
  | [a; b] => Some [Z.land (Z.lor (Z.shiftl a 2) (Z.shiftr b 4)) 255]
  | [_] => None
  | [] => Some []
  end.

(** Line breaks are ignored, as [DecodeString] does. *)
Definition decode (cs : list Z) : option (list Z) :=
  vs ← mapM dec_char (filter (λ c, c ≠ 10 ∧ c ≠ 13) cs); join vs.

Fixpoint bytes (s : string) : list Z :=
  match s with
  | EmptyString => []
  | String a s' => Z.of_nat (Ascii.nat_of_ascii a) :: bytes s'
  end.
Fixpoint text (bs : list Z) : string :=
  match bs with
  | [] => EmptyString
  | b :: bs' => String (Ascii.ascii_of_nat (Z.to_nat b)) (text bs')
  end.

Definition EncodeToString (s : string) : string := text (encode (bytes s)).
Definition DecodeString (s : string) : option string := text <$> decode (bytes s).

(** *** Round trip *)
Lemma bytes_range s : Forall (λ b, 0 ≤ b < 256) (bytes s).
Proof.
  induction s as [|a s IH]; simpl; constructor; [|done].
  pose proof (Ascii.nat_ascii_bounded a). lia.
Qed.
Lemma text_bytes s : text (bytes s) = s.
Proof.
  induction s as [|a s IH]; simpl; [done|].
  by rewrite Nat2Z.id, Ascii.ascii_nat_embedding, IH.
Qed.
Lemma bytes_text bs : Forall (λ b, 0 ≤ b < 256) bs → bytes (text bs) = bs.
Proof.
  induction 1 as [|b bs Hb _ IH]; simpl; [done|].
  rewrite Ascii.nat_ascii_embedding by lia. rewrite IH. f_equal. lia.
Qed.

(** Facts on single characters, by enumeration of the 64 values. *)
Lemma sextets (P : Z → Prop) :
  Forall P (Z.of_nat <$> seq 0 64) → ∀ v, 0 ≤ v < 64 → P v.
Proof.
  intros H v Hv. rewrite Forall_forall in H. apply H.
  apply list_elem_of_fmap. exists (Z.to_nat v). split; [lia|]. apply elem_of_seq. lia.
Qed.
Lemma enc_char_ok v :
  0 ≤ v < 64 → dec_char (enc_char v) = Some v ∧ 0 ≤ enc_char v < 256 ∧
               enc_char v ≠ 10 ∧ enc_char v ≠ 13.
Proof.
  apply (sextets (λ v, dec_char (enc_char v) = Some v ∧ 0 ≤ enc_char v < 256 ∧
               enc_char v ≠ 10 ∧ enc_char v ≠ 13)).
  repeat (constructor; [vm_compute; repeat split; discriminate || congruence|]).
  constructor.
Qed.

(** Disjoint bit fields add up. *)
Lemma lor_shiftl_add x y k : 0 ≤ k → 0 ≤ y < 2 ^ k → Z.lor (Z.shiftl x k) y = x * 2 ^ k + y.
Proof.
  intros Hk Hy. rewrite <- Z.shiftl_mul_pow2 by done.
  pose proof (Z.add_lor_land (Z.shiftl x k) y) as Hadd.
  assert (Z.land (Z.shiftl x k) y = 0) as Hl; [|lia].
  apply Z.bits_inj'. intros n Hn. rewrite Z.land_spec, Z.bits_0.
  destruct (Z.ltb_spec n k).
  - by rewrite Z.shiftl_spec_low by lia.
  - replace (Z.testbit y n) with false; [apply andb_false_r|].
    symmetry. apply Z.testbit_false; [lia|]. rewrite Z.div_small; [done|].
    split; [lia|]. eapply Z.lt_le_trans; [apply Hy|]. apply Z.pow_le_mono_r; lia.
Qed.

Lemma land_mod x k : 0 ≤ k → Z.land x (Z.ones k) = x mod 2 ^ k.
Proof. intros. by apply Z.land_ones. Qed.

(** The six-bit fields of three bytes, as arithmetic. *)
Lemma join_fields a b c :
  0 ≤ a < 256 → 0 ≤ b < 256 → 0 ≤ c < 256 →
  let v1 := Z.shiftr a 2 in
  let v2 := Z.lor (Z.shiftl (Z.land a 3) 4) (Z.shiftr b 4) in
  let v3 := Z.lor (Z.shiftl (Z.land b 15) 2) (Z.shiftr c 6) in
  let v4 := Z.land c 63 in
  (0 ≤ v1 < 64 ∧ 0 ≤ v2 < 64 ∧ 0 ≤ v3 < 64 ∧ 0 ≤ v4 < 64) ∧
  Z.land (Z.lor (Z.shiftl v1 2) (Z.shiftr v2 4)) 255 = a ∧
  Z.land (Z.lor (Z.shiftl v2 4) (Z.shiftr v3 2)) 255 = b ∧
  Z.land (Z.lor (Z.shiftl v3 6) v4) 255 = c.
Proof.
  intros Ha Hb Hc v1 v2 v3 v4. subst v1 v2 v3 v4.
  change 3 with (Z.ones 2). change 15 with (Z.ones 4).
  change 63 with (Z.ones 6). change 255 with (Z.ones 8).
  rewrite !land_mod by lia. rewrite !Z.shiftr_div_pow2 by lia.
  change (2 ^ 2) with 4. change (2 ^ 4) with 16. change (2 ^ 6) with 64.
  change (2 ^ 8) with 256.
  assert (0 ≤ b / 16 < 16) by (split; [apply Z.div_pos|apply Z.div_lt_upper_bound]; lia).
  assert (0 ≤ c / 64 < 4) by (split; [apply Z.div_pos|apply Z.div_lt_upper_bound]; lia).
  rewrite (lor_shiftl_add _ (b / 16) 4), (lor_shiftl_add _ (c / 64) 2) by (simpl; lia).
  change (2 ^ 4) with 16. change (2 ^ 2) with 4.
  pose proof (Z.div_mod a 4). pose proof (Z.mod_pos_bound a 4).
  pose proof (Z.div_mod b 16). pose proof (Z.mod_pos_bound b 16).
  pose proof (Z.div_mod c 64). pose proof (Z.mod_pos_bound c 64).
  replace ((a mod 4 * 16 + b / 16) / 16) with (a mod 4)
    by (apply (Z.div_unique _ _ _ (b / 16)); lia).
  replace ((b mod 16 * 4 + c / 64) / 4) with (b mod 16)
    by (apply (Z.div_unique _ _ _ (c / 64)); lia).
  rewrite !lor_shiftl_add by (simpl; lia).
  change (2 ^ 2) with 4. change (2 ^ 4) with 16. change (2 ^ 6) with 64.
  split; [lia|]. split_and!.
  - rewrite Z.mod_small; lia.
  - symmetry. apply (Z.mod_unique _ _ (a mod 4)); lia.
  - symmetry. apply (Z.mod_unique _ _ (b mod 16)); lia.
Qed.

(** The sextets an encoding spells. *)
Fixpoint fields (bs : list Z) : list Z :=
  match bs with
  | a :: b :: c :: rest =>
      Z.shiftr a 2 :: Z.lor (Z.shiftl (Z.land a 3) 4) (Z.shiftr b 4)
      :: Z.lor (Z.shiftl (Z.land b 15) 2) (Z.shiftr c 6) :: Z.land c 63 :: fields rest
  | [a; b] =>
      [Z.shiftr a 2; Z.lor (Z.shiftl (Z.land a 3) 4) (Z.shiftr b 4);
       Z.shiftl (Z.land b 15) 2]
  | [a] => [Z.shiftr a 2; Z.shiftl (Z.land a 3) 4]
  | [] => []
  end.

Lemma triples_ind (Q : list Z → Prop) :
  Q [] → (∀ a, Q [a]) → (∀ a b, Q [a; b]) →
  (∀ a b c l, Q l → Q (a :: b :: c :: l)) → ∀ l, Q l.
Proof.
  intros H0 H1 H2 H3 l.
  enough (Q l ∧ (∀ a, Q (a :: l)) ∧ (∀ a b, Q (a :: b :: l))) by tauto.
  induction l as [|x l (IH1 & IH2 & IH3)]; auto.
Qed.

Lemma encode_fields bs : encode bs = enc_char <$> fields bs.
Proof. induction bs using triples_ind; simpl; [done..|]. by rewrite IHbs. Qed.

Lemma fields_join bs :
  Forall (λ b, 0 ≤ b < 256) bs →
  Forall (λ v, 0 ≤ v < 64) (fields bs) ∧ join (fields bs) = Some bs.
Proof.
  induction bs as [|a|a b|a b c l IH] using triples_ind; intros Hbs.
  - done.
  - apply Forall_cons in Hbs as [Ha _].
    destruct (join_fields a 0 0 Ha) as ((H1 & H2 & _) & E1 & _); [lia..|].
    rewrite Z.shiftr_0_l, Z.lor_0_r in H2, E1.
    cbn [fields join]. rewrite E1. repeat constructor; apply H1 || apply H2.
  - apply Forall_cons in Hbs as [Ha [Hb _]%Forall_cons].
    destruct (join_fields a b 0 Ha Hb) as ((H1 & H2 & H3 & _) & E1 & E2 & _); [lia|].
    rewrite Z.shiftr_0_l, Z.lor_0_r in H3, E2.
    cbn [fields join]. rewrite E1, E2.
    repeat constructor; apply H1 || apply H2 || apply H3.
  - apply Forall_cons in Hbs as [Ha Hbs]. apply Forall_cons in Hbs as [Hb Hbs].
    apply Forall_cons in Hbs as [Hc Hl].
    destruct (join_fields a b c Ha Hb Hc) as ((H1 & H2 & H3 & H4) & E1 & E2 & E3).
    destruct (IH Hl) as [Hf Hj]. cbn [fields join]. rewrite Hj. simpl.
    rewrite E1, E2, E3. split; [|done].
    repeat (constructor; [done|]). done.
Qed.

Lemma mapM_dec_enc vs :
  Forall (λ v, 0 ≤ v < 64) vs → mapM dec_char (enc_char <$> vs) = Some vs.
Proof.
  induction 1 as [|v vs Hv _ IH]; [done|]. cbn [fmap list_fmap mapM].
  destruct (enc_char_ok v Hv) as [-> _]. simpl in *. by rewrite IH.
Qed.

Lemma encode_no_breaks vs :
  Forall (λ v, 0 ≤ v < 64) vs →
  filter (λ c, c ≠ 10 ∧ c ≠ 13) (enc_char <$> vs) = enc_char <$> vs.
Proof.
  induction 1 as [|v vs Hv _ IH]; [done|]. cbn [fmap list_fmap].
  destruct (enc_char_ok v Hv) as (_ & _ & H1 & H2).
  rewrite filter_cons_True by done. by f_equal.
Qed.

Lemma Decode_Encode s : DecodeString (EncodeToString s) = Some s.
Proof.
  unfold DecodeString, EncodeToString.
  destruct (fields_join (bytes s) (bytes_range s)) as [Hf Hj].
  rewrite encode_fields, bytes_text.
  - unfold decode. rewrite encode_no_breaks, mapM_dec_enc by done. simpl.
    rewrite Hj. simpl. by rewrite text_bytes.
  - apply Forall_fmap. eapply Forall_impl; [exact Hf|].
    intros v Hv. by apply enc_char_ok.
Qed.

Lemma Encode_nonempty s : s ≠ ""%string → EncodeToString s ≠ ""%string.
Proof.
  intros Hs Heq. apply Hs. pose proof (Decode_Encode s) as H. rewrite Heq in H.
  change (DecodeString "") with (Some ""%string) in H. congruence.
Qed.
End Base64.

(** ** Cursors *)

(** What the code relies on of [encoding/json] for a [Cursor]: the cursors of
    stored rows ([encodable]: a valid UTF-8 id and a representable time) are
    read back from their text, which is never empty. *)
Class CursorJSON := {
  marshal : Cursor → string;
  unmarshal : string → option Cursor;
  encodable : Cursor → Prop;
  unmarshal_marshal c : encodable c → unmarshal (marshal c) = Some c;
  marshal_nonempty c : marshal c ≠ ""%string
}.

Section Lists.
Context `{CursorJSON}.

Definition EncodeCursor (c : Cursor) : string := Base64.EncodeToString (marshal c).

Definition DecodeCursor (token : string) : result goerr Cursor :=
  if String.eqb token "" then Ok zero_cursor
  else
    match Base64.DecodeString token with
    | None => Err (Validation "invalid pagination cursor")
    | Some raw =>
        match unmarshal raw with
        | None => Err (Validation "invalid pagination cursor")
        | Some c => Ok c
        end
    end.

Lemma DecodeCursor_EncodeCursor c : encodable c → DecodeCursor (EncodeCursor c) = Ok c.
Proof.
  intros Hc. unfold DecodeCursor, EncodeCursor.
  destruct (String.eqb_spec (Base64.EncodeToString (marshal c)) "") as [He|_].
  - by apply Base64.Encode_nonempty in He; [|apply marshal_nonempty].
  - by rewrite Base64.Decode_Encode, unmarshal_marshal.
Qed.

Lemma EncodeCursor_nonempty c : EncodeCursor c ≠ ""%string.
Proof. apply Base64.Encode_nonempty, marshal_nonempty. Qed.

Context {A : Type} (key : A → Cursor).

(** [BuildPage]: [items] were fetched with [limit + 1]. *)
Definition BuildPage (items : list A) (limit : Z) : Page A :=
  if (0 <? limit) && (limit <? Z.of_nat (length items)) then
    let trimmed := take (Z.to_nat limit) items in
    match last trimmed with
    | Some x => mkPage trimmed (EncodeCursor (key x))
    | None => mkPage trimmed ""
    end
  else mkPage items "".

(** ** The list query *)

(** [(created_at, id) < ($c, $i)], row-wise comparison. *)
Definition key_ltb (k1 k2 : Cursor) : bool :=
  (c_created k1 <? c_created k2) ||
  ((c_created k1 =? c_created k2) &&
   match String.compare (c_id k1) (c_id k2) with Lt => true | _ => false end).

(** ORDER BY created_at DESC, id DESC. *)
Definition before (x y : A) : Prop := key_ltb (key x) (key y) = false.
#[export] Instance before_dec x y : Decision (before x y).
Proof. unfold before. apply _. Defined.
Definition order_desc (rows : list A) : list A := merge_sort before rows.

(** The page query: the keyset predicate only when the cursor is not zero. *)
Definition select_page (rows : list A) (cur : Cursor) (limit : nat) : list A :=
  let rows := if IsZero cur then rows
              else filter (λ x, key_ltb (key x) cur = true) rows in
  take limit (order_desc rows).

(** A repository's [List] on the rows visible to it. *)
Definition list_page (rows : list A) (req : PageRequest) : result goerr (Page A) :=
  let req := Normalize req in
  match DecodeCursor (PCursor req) with
  | Err e => Err e
  | Ok cur =>
      Ok (BuildPage (select_page rows cur (Z.to_nat (Limit req + 1))) (Limit req))
  end.

(** A client following [nextCursor] until it is empty; [None]: out of fuel. *)
Fixpoint follow (fuel : nat) (rows : list A) (req : PageRequest)
    : option (result goerr (list A)) :=
  match fuel with
  | O => None
  | S fuel' =>
      match list_page rows req with
      | Err e => Some (Err e)
      | Ok p =>
          if String.eqb (NextCursor p) "" then Some (Ok (Items p))
          else
            match follow fuel' rows (mkPageRequest (Limit req) (NextCursor p)) with
            | Some (Ok rest) => Some (Ok (Items p ++ rest))
            | other => other
            end
      end
  end.

(** ** Lemmas on the row order *)
Lemma string_compare_lt_trans s t u :
  String.compare s t = Lt → String.compare t u = Lt → String.compare s u = Lt.
Proof.
  revert t u. induction s as [|a s IH]; intros [|b t] [|c u]; simpl; try done.
  unfold Ascii.compare.
  destruct (N.compare_spec (Ascii.N_of_ascii a) (Ascii.N_of_ascii b)) as [Hab|Hab|Hab],
    (N.compare_spec (Ascii.N_of_ascii b) (Ascii.N_of_ascii c)) as [Hbc|Hbc|Hbc];
    try done;
    destruct (N.compare_spec (Ascii.N_of_ascii a) (Ascii.N_of_ascii c)); try done; try lia.
  eauto.
Qed.

Lemma string_compare_refl s : String.compare s s = Eq.
Proof.
  pose proof (String.compare_antisym s s) as Ha. by destruct (String.compare s s).
Qed.

Lemma key_ltb_spec k1 k2 :
  key_ltb k1 k2 = true ↔
  c_created k1 < c_created k2 ∨
  (c_created k1 = c_created k2 ∧ String.compare (c_id k1) (c_id k2) = Lt).
Proof.
  unfold key_ltb. destruct (Z.ltb_spec (c_created k1) (c_created k2)),
    (Z.eqb_spec (c_created k1) (c_created k2)), (String.compare (c_id k1) (c_id k2));
    simpl; split; intros; try done; try lia; intuition (congruence || lia).
Qed.

Lemma key_ltb_trans k1 k2 k3 :
  key_ltb k1 k2 = true → key_ltb k2 k3 = true → key_ltb k1 k3 = true.
Proof.
  rewrite !key_ltb_spec. intros [?|[? ?]] [?|[? ?]]; [left; lia..|].
  right. split; [lia|]. by eapply string_compare_lt_trans.
Qed.

Lemma key_trichotomy k1 k2 : key_ltb k1 k2 = true ∨ k1 = k2 ∨ key_ltb k2 k1 = true.
Proof.
  destruct k1 as [t1 i1], k2 as [t2 i2]. rewrite !key_ltb_spec; simpl.
  destruct (Z.lt_trichotomy t1 t2) as [?|[->|?]]; [auto|..|auto].
  rewrite (String.compare_antisym i2 i1).
  destruct (String.compare i1 i2) eqn:Hc; [|auto..].
  apply String.compare_eq_iff in Hc as ->. auto.
Qed.

Lemma key_ltb_irrefl k : key_ltb k k = false.
Proof.
  destruct (key_ltb k k) eqn:Hk; [|done]. apply key_ltb_spec in Hk.
  rewrite string_compare_refl in Hk. destruct Hk as [?|[_ ?]]; [lia|done].
Qed.

Lemma key_ltb_asym k1 k2 : key_ltb k1 k2 = true → key_ltb k2 k1 = false.
Proof.
  intros H1. destruct (key_ltb k2 k1) eqn:H2; [|done].
  by rewrite <- (key_ltb_irrefl k1), (key_ltb_trans k1 k2 k1).
Qed.

#[local] Instance before_total : Total before.
Proof.
  intros x y. unfold before. destruct (key_trichotomy (key x) (key y)) as [H'|[->|H']].
  - right. by apply key_ltb_asym.
  - left. apply key_ltb_irrefl.
  - left. by apply key_ltb_asym.
Qed.

#[local] Instance before_trans : Transitive before.
Proof.
  intros x y z. unfold before. intros Hxy Hyz.
  destruct (key_ltb (key x) (key z)) eqn:Hxz; [|done].
  destruct (key_trichotomy (key y) (key z)) as [?|[Heq|Hzy]].
  - congruence.
  - by rewrite Heq, Hxz in Hxy.
  - by rewrite (key_ltb_trans _ _ _ Hxz Hzy) in Hxy.
Qed.

(** Rows with pairwise different keys, as (created_at, id) is. *)
Definition distinct_keys (l : list A) : Prop :=
  ∀ x y, x ∈ l → y ∈ l → key x = key y → x = y.

Lemma order_desc_perm l : order_desc l ≡ₚ l.
Proof. apply merge_sort_Permutation. Qed.

Lemma order_desc_sorted l : StronglySorted before (order_desc l).
Proof. apply StronglySorted_merge_sort; apply _. Qed.

Lemma before_antisym l x y :
  distinct_keys l → x ∈ l → y ∈ l → before x y → before y x → x = y.
Proof.
  unfold before. intros Hd Hx Hy H1 H2.
  destruct (key_trichotomy (key x) (key y)) as [?|[?|?]]; [congruence|auto|congruence].
Qed.

Lemma StronglySorted_filter (R : relation A) (P : A → Prop) `{∀ x, Decision (P x)} l :
  StronglySorted R l → StronglySorted R (filter P l).
Proof.
  induction 1 as [|x l _ IH Hx]; [constructor|].
  rewrite filter_cons. case_decide; [|done]. constructor; [done|].
  apply Forall_forall. intros y [_ Hy]%list_elem_of_filter.
  rewrite Forall_forall in Hx. auto.
Qed.

(** Filtering then ordering is ordering then filtering. *)
Lemma order_desc_filter (P : A → Prop) `{∀ x, Decision (P x)} l :
  distinct_keys l → order_desc (filter P l) = filter P (order_desc l).
Proof.
  intros Hd. apply (StronglySorted_unique_strong before).
  - intros x y Hx Hy. apply (before_antisym l); [done|..].
    + rewrite order_desc_perm in Hx. by apply list_elem_of_filter in Hx as [_ ?].
    + apply list_elem_of_filter in Hy as [_ Hy]. by rewrite order_desc_perm in Hy.
  - apply order_desc_sorted.
  - apply StronglySorted_filter, order_desc_sorted.
  - by rewrite !order_desc_perm.
Qed.

(** In an ordered list the rows below a row's key are those after it. *)
Lemma filter_after p x q :
  StronglySorted before (p ++ x :: q) → NoDup (p ++ x :: q) →
  distinct_keys (p ++ x :: q) →
  filter (λ y, key_ltb (key y) (key x) = true) (p ++ x :: q) = q.
Proof.
  intros Hs Hn Hd. rewrite filter_app, filter_cons_False by by rewrite key_ltb_irrefl.
  apply StronglySorted_app in Hs as (Hp & _ & Hxq).
  rewrite NoDup_app in Hn. destruct Hn as (_ & Hpx & Hnq).
  apply NoDup_cons in Hnq as [Hxq' Hnq].
  inversion Hxq as [|? ? Hq Hfx]; subst.
  assert (filter (λ y, key_ltb (key y) (key x) = true) p = []) as ->.
  { apply filter_none. intros y Hy Hlt.
    assert (before y x) as Hb by (apply Hp; [done|left]). unfold before in Hb. congruence. }
  simpl. apply filter_all. intros y Hy.
  rewrite Forall_forall in Hfx. specialize (Hfx y Hy). unfold before in Hfx.
  destruct (key_trichotomy (key y) (key x)) as [?|[Heq|?]]; [done| |congruence].
  assert (y = x) as -> by (apply Hd; [set_solver..|done]). done.
Qed.

(** ** Paging through a table *)
Definition pageable (rows : list A) : Prop :=
  NoDup rows ∧ distinct_keys rows ∧
  ∀ x, x ∈ rows → encodable (key x) ∧ IsZero (key x) = false.

(** A cursor that stands after the prefix [p] of the ordered rows. *)
Definition stands_after (p : list A) (cur : Cursor) : Prop :=
  (p = [] ∧ cur = zero_cursor) ∨
  ∃ p' x, p = p' ++ [x] ∧ cur = key x ∧ IsZero (key x) = false.

Lemma select_page_after rows p q cur n :
  pageable rows → order_desc rows = p ++ q → stands_after p cur →
  select_page rows cur n = take n q.
Proof.
  intros (Hnd & Hd & _) Hpq [[-> ->]|(p' & x & -> & -> & Hz)]; unfold select_page.
  - simpl. by rewrite Hpq.
  - rewrite Hz, order_desc_filter, Hpq by done.
    rewrite <- (assoc_L (++)) in *. simpl in *.
    rewrite filter_after; [done|..]; rewrite <- Hpq.
    + apply order_desc_sorted.
    + by rewrite order_desc_perm.
    + intros y z. rewrite order_desc_perm. apply Hd.
Qed.

Lemma Normalize_bounds p : 1 ≤ Limit (Normalize p) ≤ MaxPageLimit.
Proof.
  unfold Normalize, MaxPageLimit, DefaultPageLimit.
  destruct (Z.leb_spec (Limit p) 0), (Z.ltb_spec 100 (Limit p)); simpl; lia.
Qed.

Lemma Normalize_cursor p : PCursor (Normalize p) = PCursor p.
Proof. unfold Normalize. by repeat case_match. Qed.

(** One page: the next rows, with a cursor exactly when rows remain. *)
Lemma list_page_spec rows p q cur req :
  pageable rows → order_desc rows = p ++ q → stands_after p cur →
  DecodeCursor (PCursor req) = Ok cur →
  ∃ pg, list_page rows req = Ok pg ∧
    ((length q ≤ Z.to_nat (Limit (Normalize req)))%nat ∧ pg = mkPage q "" ∨
     ∃ p' x q', q = (p' ++ [x]) ++ q' ∧ IsZero (key x) = false ∧ encodable (key x) ∧
       length (p' ++ [x]) = Z.to_nat (Limit (Normalize req)) ∧
       pg = mkPage (p' ++ [x]) (EncodeCursor (key x))).
Proof.
  intros Hpg Hpq Hcur Hdec. unfold list_page. rewrite Normalize_cursor, Hdec.
  eexists. split; [done|]. rewrite (select_page_after rows p q) by done.
  pose proof (Normalize_bounds req) as Hb. set (L := Limit (Normalize req)) in *.
  unfold BuildPage. rewrite length_take.
  destruct (Z.ltb_spec 0 L); [|lia].
  destruct (Z.ltb_spec L (Z.of_nat (Z.to_nat (L + 1) `min` length q))); simpl.
  - right. rewrite take_take. replace (Z.to_nat L `min` Z.to_nat (L + 1))%nat with (Z.to_nat L) by lia.
    destruct (last (take (Z.to_nat L) q)) as [x|] eqn:Hlast.
    + apply last_Some in Hlast as [p' Htake]. rewrite Htake.
      exists p', x, (drop (Z.to_nat L) q).
      assert (Hin : x ∈ rows).
      { rewrite <- (order_desc_perm rows), Hpq, <- (take_drop (Z.to_nat L) q), Htake.
        set_solver. }
      destruct Hpg as (_ & _ & Hk). destruct (Hk x Hin) as [He Hz].
      rewrite <- Htake, take_drop, length_take. repeat split; [done..|lia].
    + apply last_None in Hlast. apply (f_equal length) in Hlast.
      rewrite length_take in Hlast. simpl in Hlast. lia.
  - left. split; [lia|]. by rewrite take_ge by lia.
Qed.

Lemma follow_after fuel rows p q cur req :
  pageable rows → order_desc rows = p ++ q → stands_after p cur →
  DecodeCursor (PCursor req) = Ok cur → (length q < fuel)%nat →
  follow fuel rows req = Some (Ok q).
Proof.
  revert p q cur req. induction fuel as [|fuel IH]; intros p q cur req Hpg Hpq Hcur Hdec Hf;
    [lia|]. cbn [follow].
  destruct (list_page_spec rows p q cur req Hpg Hpq Hcur Hdec)
    as (pg & -> & [[_ ->]|(p' & x & q' & -> & Hz & He & Hlen & ->)]); [done|].
  simpl. destruct (String.eqb_spec (EncodeCursor (key x)) "") as [Hnil|_].
  { by apply EncodeCursor_nonempty in Hnil. }
  rewrite (IH (p ++ p' ++ [x]) q' (key x)); [done|done|..].
  - by rewrite Hpq, (assoc_L (++)).
  - right. exists (p ++ p'), x. by rewrite (assoc_L (++)).
  - simpl. by apply DecodeCursor_EncodeCursor.
  - rewrite !length_app in *. simpl in *. lia.
Qed.

(** ** Properties *)

(** C17. Following [nextCursor] from the first page lists every row exactly
    once, newest first (by creation time, then id), whatever page size the
    client asks for; the number of requests is at most the number of rows
    plus one. *)
Theorem follow_pages_lists_all (rows : list A) (limit : Z) (fuel : nat)
    (Hp : pageable rows) (Hf : (length rows < fuel)%nat) :
  follow fuel rows (mkPageRequest limit "") = Some (Ok (order_desc rows)) ∧
  order_desc rows ≡ₚ rows ∧ StronglySorted before (order_desc rows).
Proof.
  split; [|split; [apply order_desc_perm|apply order_desc_sorted]].
  apply (follow_after fuel rows [] (order_desc rows) zero_cursor); [done|done|by left|done|].
  by rewrite (Permutation_length (order_desc_perm rows)).
Qed.

(** A page is never larger than the clamped limit, the limit is always
    in [1,100], and a page carries a cursor exactly when rows follow it; a
    token that is not the encoding of a cursor is a validation error. *)
Theorem list_page_bounds (rows : list A) (req : PageRequest) :
  match list_page rows req with
  | Ok pg =>
      Z.of_nat (length (Items pg)) ≤ Limit (Normalize req) ∧
      1 ≤ Limit (Normalize req) ≤ MaxPageLimit ∧
      ∃ cur, DecodeCursor (PCursor req) = Ok cur ∧
        (NextCursor pg ≠ ""%string ↔
         (length (Items pg) < length (select_page rows cur (length rows)))%nat)
  | Err e => e = Validation "invalid pagination cursor"
  end.
Proof.
  unfold list_page. rewrite Normalize_cursor.
  destruct (DecodeCursor (PCursor req)) as [cur|e] eqn:Hdec.
  2: { revert Hdec. unfold DecodeCursor. by repeat case_match; intros; simplify_eq. }
  pose proof (Normalize_bounds req) as Hb. set (L := Limit (Normalize req)) in *.
  set (rs := if IsZero cur then rows else filter (λ x, key_ltb (key x) cur = true) rows).
  assert (Hrs : (length (order_desc rs) ≤ length rows)%nat).
  { rewrite (Permutation_length (order_desc_perm rs)). subst rs.
    destruct (IsZero cur); [done|]. apply length_filter. }
  assert (Hsel : select_page rows cur (length rows) = order_desc rs) by by apply take_ge.
  change (select_page rows cur (Z.to_nat (L + 1))) with (take (Z.to_nat (L + 1)) (order_desc rs)).
  unfold BuildPage. rewrite length_take.
  destruct (Z.ltb_spec 0 L); [|lia].
  destruct (Z.ltb_spec L (Z.of_nat (Z.to_nat (L + 1) `min` length (order_desc rs)))); simpl.
  - rewrite take_take.
    replace (Z.to_nat L `min` Z.to_nat (L + 1))%nat with (Z.to_nat L) by lia.
    destruct (last (take (Z.to_nat L) (order_desc rs))) as [x|] eqn:Hlast; simpl.
    + rewrite length_take. split; [lia|]. split; [done|]. exists cur. rewrite Hsel. split; [done|].
      split; [lia|]. intros _. apply EncodeCursor_nonempty.
    + apply last_None in Hlast. apply (f_equal length) in Hlast.
      rewrite length_take in Hlast. simpl in Hlast. lia.
  - rewrite length_take. split; [lia|]. split; [done|]. exists cur. rewrite Hsel.
    split; [done|]. split; [done|lia].
Qed.
End Lists.

(** ** A concrete codec, and witnesses

    [created,id] in decimal, for non-negative times. *)
Definition demo_marshal (c : Cursor) : string :=
  GoStrings.Itoa (c_created c) +:+ "," +:+ c_id c.
Fixpoint split_comma (s : string) : option (string * string) :=
  match s with
  | EmptyString => None
  | String a s' =>
      if Ascii.eqb a (Ascii.ascii_of_nat 44) then Some (""%string, s')
      else '(l, r) ← split_comma s'; Some (String a l, r)
  end.
Definition demo_unmarshal (s : string) : option Cursor :=
  '(l, r) ← split_comma s; t ← GoStrings.Atoi l; Some (mkCursor t r).

Lemma split_comma_app s t :
  all_chars (λ b, negb (Ascii.eqb (Ascii.ascii_of_nat 44) b)) s = true →
  split_comma (s +:+ "," +:+ t) = Some (s, t).
Proof.
  induction s as [|a s IH]; [done|]. rewrite string_app_cons. cbn [all_chars split_comma].
  intros [Ha Hs]%andb_true_iff. rewrite Ascii.eqb_sym in Ha.
  apply negb_true_iff in Ha. by rewrite Ha, IH.
Qed.

#[export] Instance demo_json : CursorJSON.
Proof.
  refine {| marshal := demo_marshal; unmarshal := demo_unmarshal;
            encodable := λ c, 0 ≤ c_created c < 2 ^ 63 |}.
  - intros [t i] Ht. simpl in Ht. unfold demo_marshal, demo_unmarshal. simpl.
    rewrite split_comma_app by (by apply Itoa_no_char). simpl. by rewrite Atoi_Itoa.
  - intros [t i] Heq. apply (f_equal String.length) in Heq.
    unfold demo_marshal in Heq. rewrite !string_length_app in Heq. simpl in Heq. lia.
Defined.

Definition demo_rows : list Cursor := (λ n, mkCursor (Z.of_nat n `div` 2) (GoStrings.Itoa (Z.of_nat n))) <$> seq 2 5.

Lemma follow_pages_lists_all_witness :
  pageable id demo_rows ∧
  follow id 9 demo_rows (mkPageRequest 2 "") = Some (Ok (order_desc id demo_rows)).
Proof.
  assert (Hp : pageable id demo_rows).
  { split; [|split].
    - apply (bool_decide_unpack _). by vm_compute.
    - by intros x y.
    - intros x Hx. apply (Forall_forall (λ x, encodable x ∧ IsZero x = false) demo_rows); [|done].
      repeat (constructor; [vm_compute; repeat split; discriminate|]). constructor. }
  split; [done|].
  apply (follow_pages_lists_all id demo_rows 2 9 Hp). vm_compute. lia.
Defined.
