(* ===== verification/Repository.v ===== *)
(** * Repositories

    libs/database/repository.go, over any store: [QueryOne], [QueryAll], the
    [Exec] of a statement with its affected rows, keyset [List] methods; the
    row-level security policy and the scans of tables they query; and what
    their successes and failures say.  Creating an event envelope is here too,
    every service does it the same way. *)

From S2P Require Import Prelude AppErrors Tx Events Pagination.
Open Scope Z_scope.
Open Scope tx_scope.

(** The row-level security policy. *)
Definition visible (org row_org : string) : bool :=
  negb (String.eqb org "") && String.eqb row_org org.

(** On the pool, outside of a tenant: [bypassrls] tells whether a session
    without a tenant sees the rows of every tenant, as a superuser does, or
    none, as the policies say. *)
Definition pool_sees (bypassrls : bool) (o row_org : string) : bool := bypassrls || visible o row_org.

(** SQLSTATEs the statements raise. *)
Definition rls_violation : string := "42501".
Definition raise_exception : string := "P0001".

(** The values of a table that satisfy a test (a full scan). *)
Definition rows_where {K} `{Countable K} {A} (p : A → bool) (m : gmap K A) : list A :=
  filter (λ a, p a = true) (snd <$> map_to_list m).

(** The row at a primary key, if the session sees it. *)
Definition row_at {K} `{Countable K} {A} (row_org : A → string) (org : string) (k : K)
    (m : gmap K A) : option A :=
  a ← m !! k; if visible org (row_org a) then Some a else None.

Section Repository.
Context {S W : Type}.

(** ** libs/database/repository.go *)

(** [QueryOne]: exactly one row; the errors are mapped. *)
Definition QueryOne {A} (q : string → S → list A) : M S W A :=
  on_err
    (let* rows := stmt (λ o _ db, inr (q o db, db)) in
     match rows with
     | [] => fail NoRows
     | [a] => ret a
     | _ => fail (Plain "too many rows in result set")
     end)
    MapError.

(** [QueryAll]. *)
Definition QueryAll {A} (q : string → S → list A) : M S W (list A) :=
  on_err (stmt (λ o _ db, inr (q o db, db))) MapError.

(** [QueryRow] and [Scan]: the first row. *)
Definition QueryRow {A} (q : string → S → list A) : M S W A :=
  let* rows := stmt (λ o _ db, inr (q o db, db)) in
  match rows with
  | [] => fail NoRows
  | a :: _ => ret a
  end.

(** [Exec] with its number of affected rows, errors mapped. *)
Definition Exec (f : string → Z → S → string + nat * S) : M S W nat :=
  on_err (stmt f) MapError.

(** [if tag.RowsAffected() == 0 { return e }]. *)
Definition require_rows (n : nat) (e : goerr) : M S W unit :=
  if (n =? 0)%nat then fail e else ret tt.

(** A [List] method: decode the cursor, query [limit + 1] rows, build the page. *)
Definition List_ `{CursorJSON} {A} (key : A → Cursor) (q : string → S → list A)
    (req : PageRequest) : M S W (Page A) :=
  let req := Normalize req in
  match DecodeCursor (PCursor req) with
  | Err e => fail e
  | Ok cur =>
      let* items := QueryAll (λ o db, select_page key (q o db) cur (Z.to_nat (Limit req + 1))) in
      ret (BuildPage key items (Limit req))
  end.

(** [time.Now] and [now()]. *)
Definition now_ : M S W Z := λ s, (Ok (clock s), s).

(** [if err := validate(...); err != nil { return err }]. *)
Definition check (o : option goerr) : M S W unit :=
  match o with Some e => fail e | None => ret tt end.

(** [events.New]. *)
Definition events_New {P} (eventType : string) (version : Z) (orgID : string) (p : P)
    (opts : list (@Option_ P)) : M S W (Envelope P) :=
  let* id := uuid_NewString in
  let* at_ := now_ in
  match New_envelope id at_ eventType version orgID (Some p) opts with
  | Err e => fail e
  | Ok e => ret e
  end.
(** A statement on the pool, outside of any transaction: no tenant is set, and
    a failure ends with the statement. *)
Definition autocommit {A} (m : M S W A) : M S W A := λ s,
  let '(r, s') := m (set_org "" (set_aborted false s)) in
  (r, set_org (org s) (set_aborted (aborted s) s')).
End Repository.

(** ** Scans and point queries *)
Lemma visible_spec o x : visible o x = true ↔ o ≠ "" ∧ x = o.
Proof.
  unfold visible. destruct (String.eqb_spec o ""), (String.eqb_spec x o); simpl; naive_solver.
Qed.

Lemma elem_of_rows_where {K} `{Countable K} {A} (p : A → bool) (m : gmap K A) a :
  a ∈ rows_where p m ↔ p a = true ∧ ∃ k, m !! k = Some a.
Proof.
  unfold rows_where. rewrite list_elem_of_filter, list_elem_of_fmap.
  split.
  - intros (Hp & [k a'] & -> & Hk%elem_of_map_to_list). eauto.
  - intros (Hp & k & Hk). split; [done|]. exists (k, a). split; [done|].
    by apply elem_of_map_to_list.
Qed.

(** A scan of a table keyed by [f] has each row once. *)
Lemma rows_where_NoDup {K} `{Countable K} {A} (f : A → K) (p : A → bool) (m : gmap K A) :
  (∀ k a, m !! k = Some a → f a = k) → NoDup (f <$> rows_where p m).
Proof.
  intros Hf. unfold rows_where. apply (NoDup_fmap_2_strong (A:=A) f).
  - intros x y Hx Hy Heq. apply list_elem_of_filter in Hx as [_ Hx], Hy as [_ Hy].
    apply list_elem_of_fmap in Hx as ([kx x'] & -> & Hx), Hy as ([ky y'] & -> & Hy).
    apply elem_of_map_to_list in Hx, Hy. simpl in *.
    rewrite (Hf _ _ Hx), (Hf _ _ Hy) in Heq. congruence.
  - apply NoDup_filter, NoDup_fmap_2_strong; [|apply NoDup_map_to_list].
    intros [kx x] [ky y] Hx%elem_of_map_to_list Hy%elem_of_map_to_list Heq. simpl in Heq.
    subst y. by rewrite <- (Hf _ _ Hx), <- (Hf _ _ Hy).
Qed.

(** A test that at most one row satisfies. *)
Lemma rows_where_unique {K} `{Countable K} {A} (p : A → bool) (m : gmap K A) :
  (∀ k1 a1 k2 a2, m !! k1 = Some a1 → m !! k2 = Some a2 → p a1 = true → p a2 = true → k1 = k2) →
  (length (rows_where p m) ≤ 1)%nat.
Proof.
  intros Hu. unfold rows_where. pose proof (NoDup_map_to_list m) as Hnd.
  assert (He : ∀ kv, kv ∈ map_to_list m → m !! kv.1 = Some kv.2)
    by by intros [k a] ?%elem_of_map_to_list.
  assert (Hf : filter (λ a, p a = true) (snd <$> map_to_list m) =
               snd <$> filter (λ kv, p kv.2 = true) (map_to_list m)).
  { generalize (map_to_list m). intros l. induction l as [|[k a] l IH]; [done|].
    rewrite fmap_cons, !filter_cons. simpl. destruct (decide (p a = true)); simpl; by rewrite IH. }
  rewrite Hf, length_fmap. apply (NoDup_filter (λ kv, p kv.2 = true)) in Hnd.
  assert (Hi : ∀ kv, kv ∈ filter (λ kv, p kv.2 = true) (map_to_list m) →
    p kv.2 = true ∧ m !! kv.1 = Some kv.2).
  { intros kv [??]%list_elem_of_filter. auto. }
  destruct (filter _ _) as [|[k1 a1] [|[k2 a2] l]]; simpl; [lia|lia|]. exfalso.
  destruct (Hi (k1, a1)) as [P1 K1]; [left|]. destruct (Hi (k2, a2)) as [P2 K2]; [right; left|].
  simpl in *. assert (k1 = k2) by eauto. simplify_eq. apply NoDup_cons in Hnd as [Hn _].
  apply Hn. left.
Qed.

Lemma row_at_Some {K} `{Countable K} {A} (f : A → string) o (k : K) (m : gmap K A) a :
  row_at f o k m = Some a ↔ m !! k = Some a ∧ o ≠ "" ∧ f a = o.
Proof.
  unfold row_at. rewrite <- visible_spec. destruct (m !! k) as [x|]; simpl.
  - destruct (visible o (f x)) eqn:Hv; split; [by intros [= ->]|by intros [[= ->] ?]|done|].
    intros [[= ->] ?]. congruence.
  - split; [done|by intros [? _]].
Qed.

Lemma option_list_single {A} (o : option A) a : option_list o = [a] ↔ o = Some a.
Proof. destruct o; simpl; naive_solver. Qed.

Section Facts.
Context {S W : Type}.
Implicit Types s : Sess S W.
(** ** Statements *)
Lemma on_err_Ok {A} (m : M S W A) f s a s' : on_err m f s = (Ok a, s') → m s = (Ok a, s').
Proof. unfold on_err. destruct (m s) as [[x|x] s1]; simpl; intros; by simplify_eq. Qed.

Lemma try_inv {A} (m : M S W A) s r s' : try m s = (Ok r, s') → m s = (r, s').
Proof. unfold try. destruct (m s). intros; by simplify_eq. Qed.

Lemma Exec_Ok f s n s' :
  Exec f s = (Ok n, s') →
  f (org s) (clock s) (store s) = inr (n, store s') ∧ same_env s s'.
Proof. intros H%on_err_Ok%stmt_Ok_inv. naive_solver. Qed.

Lemma require_rows_Ok n e s u s' : require_rows n e s = (Ok u, s') → n ≠ 0%nat ∧ s' = s.
Proof. unfold require_rows. destruct (Nat.eqb_spec n 0); [done|]. by intros [=]. Qed.

(** A read: the store is untouched; an error either broke the transaction or
    says how many rows there were. *)
Lemma QueryOne_inv {A} (q : string → S → list A) s r s' :
  QueryOne q s = (r, s') →
  store s' = store s ∧ same_env s s' ∧
  match r with
  | Ok a => q (org s) (store s) = [a]
  | Err e => aborted s' = true ∨
             q (org s) (store s) = [] ∧ e = MapError NoRows ∨
             (2 ≤ length (q (org s) (store s)))%nat ∧
             e = MapError (Plain "too many rows in result set")
  end.
Proof.
  unfold QueryOne, on_err, bind.
  destruct (stmt _ s) as [[rows|e] s1] eqn:Hs.
  - apply stmt_Ok_inv in Hs as (Hq & _ & _ & _ & He). simplify_eq.
    destruct (q (org s) (store s)) as [|x [|y l]] eqn:Hl; simpl; intros; simplify_eq;
      (split_and!; [congruence|done|]); [| done |].
    + right. left. done.
    + right. right. split; [simpl; lia|done].
  - apply stmt_Err_frame in Hs as (? & ? & ?). simpl. intros; simplify_eq. eauto.
Qed.

Lemma QueryOne_Ok {A} (q : string → S → list A) s a s' :
  QueryOne q s = (Ok a, s') →
  q (org s) (store s) = [a] ∧ store s' = store s ∧ same_env s s'.
Proof. intros H%QueryOne_inv. naive_solver. Qed.

Lemma QueryRow_inv {A} (q : string → S → list A) f s r s' :
  on_err (QueryRow q) f s = (r, s') →
  store s' = store s ∧ same_env s s' ∧
  ∀ a, r = Ok a → ∃ l, q (org s) (store s) = a :: l.
Proof.
  unfold QueryRow, on_err, bind. destruct (stmt _ s) as [[rows|e] s1] eqn:Hs.
  - apply stmt_Ok_inv in Hs as (Hq & _ & _ & _ & He). injection Hq as Hq Hst.
    destruct rows as [|x l]; intros [= <- <-]; (split; [done|]); (split; [done|]).
    + done.
    + intros a [= <-]. by exists l.
  - apply stmt_Err_frame in Hs as (Hst & _ & He). intros [= <- <-]. done.
Qed.

(** A read on the pool. *)
Lemma autocommit_QueryOne_inv {A} (q : string → S → list A) s r s' :
  autocommit (QueryOne q) s = (r, s') →
  store s' = store s ∧ same_env s s' ∧ aborted s' = aborted s ∧
  ∀ a, r = Ok a → q "" (store s) = [a].
Proof.
  unfold autocommit. destruct (QueryOne q _) as [r0 s1] eqn:H.
  apply QueryOne_inv in H as (Hs & (Ho & Hg & Hc) & Hr). intros [= <- <-]. simpl in *.
  split_and!; [done|by split_and!|done|]. by intros a ->.
Qed.

Lemma QueryAll_Ok {A} (q : string → S → list A) s l s' :
  QueryAll q s = (Ok l, s') → l = q (org s) (store s) ∧ store s' = store s ∧ same_env s s'.
Proof. intros H%on_err_Ok%stmt_Ok_inv. naive_solver. Qed.

Lemma uuid_Ok s (id : string) s' :
  (uuid_NewString : M S W string) s = (Ok id, s') →
  store s' = store s ∧ same_env s s' ∧ aborted s' = aborted s.
Proof. unfold uuid_NewString. intros [= <- <-]. done. Qed.

Lemma autocommit_query {A} (q : string → S → A) f s r s' :
  on_err (autocommit (stmt (λ o _ db, inr (q o db, db)))) f s = (r, s') →
  store s' = store s ∧ ∀ a, r = Ok a → a = q "" (store s).
Proof.
  unfold on_err, autocommit, stmt, pop_fault. simpl.
  destruct (faults s) as [|[e|] fs]; intros [= <- <-]; (split; [done|]); by intros ? [= <-].
Qed.

(** An aborted transaction stays so through any statement. *)
Lemma stmt_aborted {A} (f : string → Z → S → string + A * S) (s : Sess S W) :
  aborted s = true → stmt f s = (Err (PgError "25P02"), s).
Proof. unfold stmt. by intros ->. Qed.

Lemma on_err_stmt_aborted {A} (f : string → Z → S → string + A * S) g s a s' :
  aborted s = true → on_err (stmt f) g s ≠ (Ok a, s' : Sess S W).
Proof. intros Ha. unfold on_err. by rewrite stmt_aborted. Qed.

(** ** Stability *)
Lemma stable_QueryOne {A} (q : string → S → list A) : stable (S := S) (W := W) (QueryOne q).
Proof.
  unfold QueryOne. apply stable_on_err, stable_bind; [apply stable_stmt|].
  intros [|? [|??]]; auto with stable.
Qed.
Lemma stable_Exec f : stable (S := S) (W := W) (Exec f).
Proof. apply stable_on_err, stable_stmt. Qed.
Lemma stable_QueryAll {A} (q : string → S → list A) : stable (S := S) (W := W) (QueryAll q).
Proof. apply stable_on_err, stable_stmt. Qed.
Lemma stable_require_rows n e : stable (S := S) (W := W) (require_rows n e).
Proof. unfold require_rows. case_match; auto with stable. Qed.
Lemma stable_now : stable (S := S) (W := W) now_.
Proof. by intros s. Qed.
Lemma stable_check o : stable (S := S) (W := W) (check o).
Proof. unfold check. case_match; auto with stable. Qed.
End Facts.
#[export] Hint Resolve stable_QueryOne stable_Exec stable_QueryAll stable_require_rows
  stable_now stable_check : stable.

(** Splits a computation into its statements. *)
Ltac solve_stable :=
  repeat first
    [ progress intros
    | solve [auto 1 with stable]
    | apply stable_bind | apply stable_try | apply stable_on_err | apply WithTenant_stable
    | case_match ].

Lemma stable_events_New {S W P} ty v o (p : P) opts :
  stable (S := S) (W := W) (events_New ty v o p opts).
Proof. unfold events_New. solve_stable. Qed.
Lemma stable_List_ {S W} `{CursorJSON} {A} (key : A → Cursor) q req :
  stable (S := S) (W := W) (List_ key q req).
Proof. unfold List_. solve_stable. Qed.
#[export] Hint Resolve stable_events_New stable_List_ : stable.
