(* ===== verification/Authz.v ===== *)
(** * Authorization

    libs/authz/authz.go (the static role/action policy) and
    libs/authz/membership.go (membership look-ups inside a tenant
    transaction).  The member store is an interface ([OrgMemberStore], as in
    the code); [OrgMemberRepo] implements it over any store with the table
    organization_members. *)

From S2P Require Import Prelude AppErrors Tx Repository.
Open Scope Z_scope.
Open Scope tx_scope.

(** ** authz.go *)
Definition OrgOwner : string := "owner".
Definition OrgAdmin : string := "admin".
Definition RoleMember : string := "member".
Definition OrgAuditor : string := "auditor".
Definition ProjectAdmin : string := "admin".
Definition ProjectDeveloper : string := "developer".
Definition ProjectViewer : string := "viewer".

Definition ActionManageOrg : string := "org:manage".
Definition ActionManageMembers : string := "members:manage".
Definition ActionManageClusters : string := "clusters:manage".
Definition ActionReadClusters : string := "clusters:read".
Definition ActionManageProject : string := "project:manage".
Definition ActionDeploy : string := "deployment:write".
Definition ActionReadDeployment : string := "deployment:read".
Definition ActionReadSecrets : string := "secrets:read".
Definition ActionWriteSecrets : string := "secrets:write".
Definition ActionManageSecrets : string := "secrets:manage".
Definition ActionManageDomains : string := "domains:manage".
Definition ActionReadLogs : string := "logs:read".
Definition ActionReadAudit : string := "audit:read".

Record Principal := mkPrincipal {
  p_user : string; p_org : string; p_org_roles : list string;
  p_project_roles : gmap string string }.
Record AccessRequest := mkAccess { q_action : string; q_org : string; q_project : string }.

Definition allActions : gset string :=
  list_to_set
    [ActionManageOrg; ActionManageMembers; ActionManageClusters; ActionReadClusters;
     ActionManageProject; ActionDeploy; ActionReadDeployment;
     ActionReadSecrets; ActionWriteSecrets; ActionManageSecrets;
     ActionManageDomains; ActionReadLogs; ActionReadAudit].

(** [PolicyAuthorizer]: a role missing from a map grants nothing. *)
Record PolicyAuthorizer := mkPolicy {
  pol_org : gmap string (gset string); pol_project : gmap string (gset string) }.

Definition NewPolicyAuthorizer : PolicyAuthorizer := mkPolicy
  (list_to_map
    [(OrgOwner, allActions);
     (OrgAdmin, list_to_set
        [ActionManageMembers; ActionManageClusters; ActionReadClusters;
         ActionManageProject; ActionDeploy; ActionReadDeployment;
         ActionReadSecrets; ActionWriteSecrets; ActionManageSecrets;
         ActionManageDomains; ActionReadLogs; ActionReadAudit]);
     (RoleMember, list_to_set [ActionReadClusters; ActionReadDeployment; ActionReadLogs]);
     (OrgAuditor, list_to_set
        [ActionReadAudit; ActionReadClusters; ActionReadDeployment; ActionReadLogs])])
  (list_to_map
    [(ProjectAdmin, list_to_set
        [ActionManageProject; ActionDeploy; ActionReadDeployment;
         ActionReadSecrets; ActionWriteSecrets; ActionManageSecrets;
         ActionManageDomains; ActionReadLogs]);
     (ProjectDeveloper, list_to_set
        [ActionDeploy; ActionReadDeployment; ActionReadSecrets; ActionWriteSecrets;
         ActionReadLogs]);
     (ProjectViewer, list_to_set [ActionReadDeployment; ActionReadSecrets; ActionReadLogs])]).

Definition grants (m : gmap string (gset string)) (role action : string) : bool :=
  bool_decide (action ∈ default ∅ (m !! role)).

(** [PolicyAuthorizer.Authorize]: [None] is allowed. *)
Definition Authorize (a : PolicyAuthorizer) (p : Principal) (req : AccessRequest)
    : option goerr :=
  if String.eqb (q_org req) "" || negb (String.eqb (p_org p) (q_org req))
  then Some (Forbidden "cross-tenant access denied")
  else if existsb (λ role, grants (pol_org a) role (q_action req)) (p_org_roles p)
  then None
  else
    if negb (String.eqb (q_project req) "") &&
       match p_project_roles p !! q_project req with
       | Some role => grants (pol_project a) role (q_action req)
       | None => false
       end
    then None
    else Some (Forbidden "insufficient permissions").

(** ** membership.go *)
Record OrgMember := mkMember {
  m_org : string; m_user : string; m_role : string; m_status : string }.

Class OrgMemberStore (S W : Type) := { GetOrgMember : string → M S W OrgMember }.

Section Membership.
Context {S W : Type} `{!OrgMemberStore S W}.

(** The membership look-up both authorization entry points share. *)
Definition lookup_member (orgID userID : string) : M S W OrgMember :=
  WithTenant orgID
    (on_err (GetOrgMember userID)
       (λ e, if IsNotFound e then Forbidden "not a member of this organization" else e)).

Definition AuthorizeOrgRead (orgID userID : string) : M S W string :=
  if String.eqb orgID "" then fail (Validation "organization ID is required")
  else if String.eqb userID "" then fail (Validation "user ID is required")
  else
    let* member := lookup_member orgID userID in
    if negb (String.eqb (m_status member) "active")
    then fail (Forbidden "membership is suspended")
    else ret (m_role member).

Definition AuthorizeOrgMember (authorizer : PolicyAuthorizer)
    (orgID userID action : string) : M S W string :=
  if String.eqb orgID "" then fail (Validation "organization ID is required")
  else if String.eqb userID "" then fail (Validation "user ID is required")
  else
    let* member := lookup_member orgID userID in
    if negb (String.eqb (m_status member) "active")
    then fail (Forbidden "membership is suspended")
    else
      let principal := mkPrincipal userID orgID [m_role member] ∅ in
      match Authorize authorizer principal (mkAccess action orgID "") with
      | Some e => fail e
      | None => ret (m_role member)
      end.
End Membership.

(** ** Lemmas *)
Lemma Authorize_spec a p req :
  Authorize a p req = None ↔
  q_org req ≠ "" ∧ p_org p = q_org req ∧
  ((∃ role, role ∈ p_org_roles p ∧ q_action req ∈ default ∅ (pol_org a !! role)) ∨
   (q_project req ≠ "" ∧ ∃ role, p_project_roles p !! q_project req = Some role ∧
      q_action req ∈ default ∅ (pol_project a !! role))).
Proof.
  unfold Authorize, grants.
  destruct (String.eqb_spec (q_org req) ""), (String.eqb_spec (p_org p) (q_org req)); simpl;
    [naive_solver..| |naive_solver].
  destruct (existsb _ _) eqn:Hex.
  - apply existsb_exists in Hex as (role & Hin & Hg%bool_decide_eq_true).
    split; [|done]. intros _. split_and!; [done..|]. left. exists role. split; [|done].
    by apply list_elem_of_In.
  - assert (Hno : ¬ ∃ role, role ∈ p_org_roles p ∧
                    q_action req ∈ default ∅ (pol_org a !! role)).
    { intros (role & Hin & Hg). apply not_true_iff_false in Hex. apply Hex.
      apply existsb_exists. exists role. split; [by apply list_elem_of_In|].
      by apply bool_decide_eq_true. }
    destruct (String.eqb_spec (q_project req) ""); simpl; [naive_solver|].
    destruct (p_project_roles p !! q_project req) as [role|] eqn:Hrole; [|naive_solver].
    case_bool_decide; naive_solver.
Qed.

(** The organization roles that may deploy. *)
Lemma grants_deploy role :
  grants (pol_org NewPolicyAuthorizer) role ActionDeploy = true ↔
  role = OrgOwner ∨ role = OrgAdmin.
Proof.
  unfold grants, NewPolicyAuthorizer; simpl. rewrite bool_decide_eq_true.
  destruct (decide (role = OrgOwner)) as [->|H1]; [vm_compute; tauto|].
  destruct (decide (role = OrgAdmin)) as [->|H2]; [vm_compute; tauto|].
  destruct (decide (role = RoleMember)) as [->|H3]; [vm_compute; intuition discriminate|].
  destruct (decide (role = OrgAuditor)) as [->|H4]; [vm_compute; intuition discriminate|].
  rewrite !lookup_insert_ne, lookup_empty by congruence. simpl. set_solver.
Qed.

(** ** OrgMemberRepo *)

(** A store with the table organization_members, by (org_id, user_id). *)
Class MembersTable (S : Type) := { org_members : S → gmap (string * string) OrgMember }.

Definition OrgMemberRepo_GetOrgMember {S W} `{!MembersTable S} (userID : string)
    : M S W OrgMember :=
  QueryOne (λ o db, rows_where (λ m, visible o (m_org m) && String.eqb (m_user m) userID)
                      (org_members db)).
#[export] Instance OrgMemberRepo {S W} `{!MembersTable S} : OrgMemberStore S W :=
  {| GetOrgMember := OrgMemberRepo_GetOrgMember |}.

(** [user] is an active member of [o] whose role satisfies [P]. *)
Definition active_member {S} `{!MembersTable S} (o user : string) (P : string → Prop) (db : S)
    : Prop :=
  ∃ k m, org_members db !! k = Some m ∧ m_org m = o ∧ m_user m = user ∧
    m_status m = "active" ∧ P (m_role m).
Definition may_read {S} `{!MembersTable S} (o user : string) : S → Prop :=
  active_member o user (λ _, True).

Section Facts.
Context {S W : Type} `{!MembersTable S}.
Implicit Types s : Sess S W.

Lemma lookup_member_inv o user s r s' :
  lookup_member o user s = (r, s') →
  store s' = store s ∧ same_env s s' ∧
  match r with
  | Ok m => ∃ k, org_members (store s) !! k = Some m ∧ m_org m = o ∧ m_user m = user
  | Err _ => True
  end.
Proof.
  unfold lookup_member. simpl. intros H.
  assert (Hst : stable (S := S) (W := W) (on_err (OrgMemberRepo_GetOrgMember user)
    (λ e, if IsNotFound e then Forbidden "not a member of this organization" else e)))
    by (unfold OrgMemberRepo_GetOrgMember; auto with stable).
  pose proof (WithTenant_stable o _ Hst s) as He. rewrite H in He. simpl in He.
  destruct r as [m|e].
  - apply WithTenant_run in H as (Ho & _ & s0 & s1 & (Hs0 & Ho0 & _) & Hf & _ & Hs'); [|done].
    apply on_err_Ok, QueryOne_Ok in Hf as (Hq & Hs1 & _).
    split_and!; [congruence|done|].
    assert (Hm : m ∈ [m]) by left. rewrite <- Hq in Hm.
    apply elem_of_rows_where in Hm as [Hp (k & Hk)].
    apply andb_true_iff in Hp as [Hv Hu]. apply visible_spec in Hv as [_ Hv].
    apply String.eqb_eq in Hu. exists k. rewrite <- Hs0, <- Ho0. done.
  - apply WithTenant_Err_store in H. done.
Qed.

Lemma AuthorizeOrgRead_inv o user s r s' :
  AuthorizeOrgRead o user s = (r, s') →
  store s' = store s ∧ same_env s s' ∧
  (is_ok r = true → o ≠ "" ∧ user ≠ "" ∧ may_read o user (store s)).
Proof.
  unfold AuthorizeOrgRead.
  destruct (String.eqb_spec o ""); [by intros [= <- <-]|].
  destruct (String.eqb_spec user ""); [by intros [= <- <-]|].
  unfold bind. destruct (lookup_member o user s) as [[m|e] s1] eqn:Hl;
    apply lookup_member_inv in Hl as (? & ? & Hm); [|by intros [= <- <-]].
  destruct (String.eqb_spec (m_status m) "active"); intros [= <- <-]; [|done].
  destruct Hm as (k & ?). split_and!; [done..|]. intros _. split_and!; [done..|].
  exists k, m. tauto.
Qed.

(** The caller's own role grants the action. *)
Lemma AuthorizeOrgMember_inv a o user action s r s' :
  AuthorizeOrgMember a o user action s = (r, s') →
  store s' = store s ∧ same_env s s' ∧
  (is_ok r = true → o ≠ "" ∧ user ≠ "" ∧
     active_member o user (λ role, grants (pol_org a) role action = true) (store s)).
Proof.
  unfold AuthorizeOrgMember.
  destruct (String.eqb_spec o ""); [by intros [= <- <-]|].
  destruct (String.eqb_spec user ""); [by intros [= <- <-]|].
  unfold bind. destruct (lookup_member o user s) as [[m|e] s1] eqn:Hl;
    apply lookup_member_inv in Hl as (? & ? & Hm); [|by intros [= <- <-]].
  destruct (String.eqb_spec (m_status m) "active"); [|by intros [= <- <-]]. simpl.
  destruct (Authorize _ _ _) as [err|] eqn:Ha; intros [= <- <-]; [done|].
  apply Authorize_spec in Ha as (_ & _ & Hg). simpl in Hg.
  destruct Hm as (k & ?). split_and!; [done..|]. intros _. split_and!; [done..|].
  exists k, m. split_and!; try tauto.
  destruct Hg as [(role & ->%list_elem_of_singleton & Hin)|[? _]]; [|done].
  unfold grants. by apply bool_decide_eq_true.
Qed.

Lemma active_member_impl o user (P Q : string → Prop) (db : S) :
  (∀ role, P role → Q role) → active_member o user P db → active_member o user Q db.
Proof. intros HPQ (k & m & ? & ? & ? & ? & ?). exists k, m. auto 10. Qed.
End Facts.

(** ** Properties *)

(** The policy is deny-by-default and tenant-isolated: access is granted
    exactly when the request names an organization, it is the principal's, and
    one of the principal's organization roles grants the action or, for a
    request scoped to a project, the principal's role in that very project
    does. *)
Theorem Authorize_iff (a : PolicyAuthorizer) (p : Principal) (req : AccessRequest) :
  Authorize a p req = None ↔
  q_org req ≠ "" ∧ p_org p = q_org req ∧
  ((∃ role, role ∈ p_org_roles p ∧ q_action req ∈ default ∅ (pol_org a !! role)) ∨
   (q_project req ≠ "" ∧ ∃ role, p_project_roles p !! q_project req = Some role ∧
      q_action req ∈ default ∅ (pol_project a !! role))).
Proof. apply Authorize_spec. Qed.
