(* ===== verification/Runs.v ===== *)
(** * Transactional methods

    The shape most service methods have: some checks, then one tenant
    transaction.  [runs] says that a method fails leaving the store alone or
    commits one run of a body, [ensures] relates the stores before and after.
    With the inversion tactics for computations in [Tx]. *)

From S2P Require Import Prelude AppErrors Tx Pagination Repository Authz.
Open Scope Z_scope.
Open Scope tx_scope.

Ltac inv_bind :=
  match goal with
  | H : bind _ _ _ = (Ok _, _) |- _ =>
      let s := fresh "s" in let Hm := fresh "Hm" in
      apply bind_Ok_inv in H as (? & s & Hm & H)
  end.

(** ** Relations every step respects

    [frame R m]: whatever [m] does, the sessions before and after are related
    by [R], as they are by every statement and every identifier drawn. *)
Class Framed {S W : Type} (R : Sess S W → Sess S W → Prop) := {
  framed_preorder :: PreOrder R;
  framed_stmt {A} (f : string → Z → S → string + A * S) s : R s (stmt f s).2;
  framed_uuid s : R s (uuid_NewString s).2 }.

Definition frame {S W A} (R : Sess S W → Sess S W → Prop) (m : M S W A) : Prop :=
  ∀ s, R s (m s).2.

Section Frames.
Context {S W : Type} (R : Sess S W → Sess S W → Prop) `{!Framed R}.

Lemma frame_ret {A} (a : A) : frame R (ret a).
Proof. by intros s. Qed.
Lemma frame_fail {A} e : frame R (@fail S W A e).
Proof. by intros s. Qed.
Lemma frame_now : frame R now_.
Proof. by intros s. Qed.
Lemma frame_stmt {A} (f : string → Z → S → string + A * S) : frame R (stmt f).
Proof. intros s. apply framed_stmt. Qed.
Lemma frame_uuid : frame R uuid_NewString.
Proof. intros s. apply framed_uuid. Qed.
Lemma frame_bind {A B} (m : M S W A) (k : A → M S W B) :
  frame R m → (∀ a, frame R (k a)) → frame R (bind m k).
Proof.
  intros Hm Hk s. unfold bind. specialize (Hm s).
  destruct (m s) as [[a|e] s1]; simpl in *; [|done]. etrans; [exact Hm|apply Hk].
Qed.
Lemma frame_try {A} (m : M S W A) : frame R m → frame R (try m).
Proof. intros Hm s. unfold try. specialize (Hm s). by destruct (m s). Qed.
Lemma frame_on_err {A} (m : M S W A) f : frame R m → frame R (on_err m f).
Proof. intros Hm s. unfold on_err. specialize (Hm s). by destruct (m s). Qed.
End Frames.

(** Splits a computation of statements. *)
Ltac solve_frame :=
  repeat first
    [ progress intros
    | lazymatch goal with |- Framed _ => apply _ end
    | apply frame_ret | apply frame_fail | apply frame_stmt | apply frame_uuid | apply frame_now
    | apply frame_bind | apply frame_try | apply frame_on_err | case_match ].

(** Once a transaction is broken it stays so; statements do nothing outside of
    the database and draw no faults that were not there. *)
Definition stays_aborted {S W} (s s' : Sess S W) : Prop := aborted s = true → aborted s' = true.
Definition same_outside {S W} (s s' : Sess S W) : Prop := outside s' = outside s.
Definition stays_quiet {S W} (s s' : Sess S W) : Prop := quiet s → quiet s'.

#[export] Instance stays_aborted_framed {S W} : Framed (@stays_aborted S W).
Proof.
  split; [split; [by intros s H|intros s1 s2 s3 H1 H2 H; auto]| |by intros s H].
  intros A f s Ha. by rewrite stmt_aborted.
Qed.
#[export] Instance same_outside_framed {S W} : Framed (@same_outside S W).
Proof.
  split; [split; [by intros s|intros s1 s2 s3; unfold same_outside; congruence]| |by intros s].
  intros A f s. apply stmt_outside.
Qed.
#[export] Instance stays_quiet_framed {S W} : Framed (@stays_quiet S W).
Proof.
  split; [split; [by intros s H|intros s1 s2 s3 H1 H2 H; auto]| |by intros s H].
  intros A f s Hq. unfold stmt, pop_fault. rewrite Hq. destruct (aborted s); [done|].
  by destruct (f _ _ _) as [c|[a st]].
Qed.

Section Runs.
Context {S W : Type}.
Implicit Types s : Sess S W.

Lemma create_id_Ok given s (id : string) s' :
  (if String.eqb given "" then uuid_NewString else ret given : M S W string) s = (Ok id, s') →
  store s' = store s ∧ same_env s s' ∧ aborted s' = aborted s ∧ (given ≠ "" → id = given).
Proof.
  destruct (String.eqb_spec given "") as [->|].
  - intros (?&?&?)%uuid_Ok. by split_and!.
  - intros [= <- <-]. done.
Qed.

(** [Update] and [Delete] statements that hit a row. *)
Lemma Exec_hit_Ok f e s u s' :
  (let* n := Exec f in require_rows n e) s = (Ok u, s') →
  ∃ n, n ≠ 0%nat ∧ f (org s) (clock s) (store s) = inr (n, store s') ∧ same_env s s'.
Proof. intros H. inv_bind. apply require_rows_Ok in H as [? ->]. apply Exec_Ok in Hm. eauto. Qed.

Lemma on_err_stmt_Err {A} (f : string → Z → S → string + A * S) g (s : Sess S W) e s' :
  on_err (stmt f) g s = (Err e, s') → aborted s' = true.
Proof.
  unfold on_err. destruct (stmt f s) as [[a|x] s1] eqn:H; [done|].
  intros [= _ <-]. by apply stmt_Err_frame in H as (_ & ? & _).
Qed.

Lemma bind_Err_inv {A B} (m : M S W A) (k : A → M S W B) s e s' :
  bind m k s = (Err e, s') →
  m s = (Err e, s') ∨ ∃ a s1, m s = (Ok a, s1) ∧ k a s1 = (Err e, s').
Proof. unfold bind. destruct (m s) as [[a|x] s1]; intros; simplify_eq; eauto. Qed.

Lemma create_id_not_Err given s e s' :
  (if String.eqb given "" then uuid_NewString else ret given : M S W string) s ≠ (Err e, s').
Proof. by destruct (String.eqb given ""). Qed.

(** The body of a tenant transaction that committed. *)
Definition committed {A} (o : string) (fn : M S W A) (s : Sess S W) (a : A)
    (s' : Sess S W) : Prop :=
  o ≠ "" ∧ ∃ s0 s1,
    store s0 = store s ∧ org s0 = o ∧ clock s0 = clock s ∧ uuid_gen s0 = uuid_gen s ∧
    aborted s0 = false ∧ fn s0 = (Ok a, s1) ∧ aborted s1 = false ∧ store s' = store s1.

(** [m] either fails and leaves the database alone, or commits [fn] in the
    tenant [o] once [P] holds of the database. *)
Definition runs {A} (o : string) (P : S → Prop) (fn m : M S W A) : Prop :=
  ∀ s r s', m s = (r, s') → same_env s s' ∧
    match r with
    | Err _ => store s' = store s
    | Ok a => P (store s) ∧ committed o fn s a s'
    end.

Lemma runs_WithTenant {A} o (fn : M S W A) : stable fn → runs o (λ _, True) fn (WithTenant o fn).
Proof.
  intros Hfn s r s' H. pose proof (WithTenant_stable o fn Hfn s) as He. rewrite H in He.
  split; [done|]. destruct r as [a|e]; [|by apply WithTenant_Err_store in H].
  split; [done|]. apply WithTenant_run in H as (Ho & _ & s0 & s1 & (?&?&?&?&?) & ? & ? & ?);
    [|done]. split; [done|]. by exists s0, s1.
Qed.

(** A step that only looks: on success [P] holds of the store. *)
Definition probe {A} (P : S → Prop) (m : M S W A) : Prop :=
  ∀ s r s', m s = (r, s') → store s' = store s ∧ same_env s s' ∧ (is_ok r = true → P (store s)).

Lemma runs_probe {A B} o (P0 P : S → Prop) (p : M S W B) (fn m : M S W A) :
  probe P0 p → runs o P fn m → runs o (λ db, P0 db ∧ P db) fn (let* _ := p in m).
Proof.
  intros Hp Hm s r s' H. unfold bind in H.
  destruct (p s) as [[role|e] s1] eqn:Ha; apply Hp in Ha as (Hs & He & Ha).
  - apply Hm in H as [He' Hr]. split; [by eapply same_env_trans|].
    destruct He as (_ & Hg & Hc). unfold committed in *.
    destruct r as [a|e]; rewrite ?Hs, ?Hc, ?Hg in Hr; [|done].
    destruct Hr as [? ?]. split; [|done]. split; [|done]. by apply Ha.
  - simplify_eq. done.
Qed.

Lemma runs_check {A} o b (P : S → Prop) (fn m : M S W A) :
  runs o P fn m → runs o (λ db, b = None ∧ P db) fn (let* _ := check b in m).
Proof.
  intros Hm s r s' H. destruct b as [e|]; unfold bind in H; simpl in H.
  - by injection H as <- <-.
  - apply Hm in H. destruct r; tauto.
Qed.

Lemma runs_guard {A} o (b : bool) e (P : S → Prop) (fn m : M S W A) :
  runs o P fn m → runs o (λ db, b = false ∧ P db) fn (if b then fail e else m).
Proof.
  intros Hm s r s' H. destruct b; [by injection H as <- <-|].
  apply Hm in H. destruct r; tauto.
Qed.

(** [uuid.NewString] never returns an empty string. *)
Definition proper_uuids (s : Sess S W) : Prop := ∀ n, uuid_gen s n ≠ "".
Lemma proper_uuids_env s s' : same_env s s' → proper_uuids s → proper_uuids s'.
Proof. intros (_ & Hg & _) Hu n. rewrite Hg. apply Hu. Qed.

(** [m] fails leaving the database alone, or ends in a database related by [Q]
    once [P] holds; [Q] is given the time, the databases and the result. *)
Definition ensures {A} (o : string) (P : S → Prop) (Q : Z → S → A → S → Prop) (m : M S W A) : Prop :=
  ∀ s r s', m s = (r, s') → same_env s s' ∧
    match r with
    | Err _ => store s' = store s
    | Ok a => o ≠ "" ∧ P (store s) ∧ Q (clock s) (store s) a (store s')
    end.

Lemma runs_ensures {A} o P (Q : Z → S → A → S → Prop) (fn m : M S W A) :
  runs o P fn m →
  (∀ s a s', o ≠ "" → org s = o → aborted s' = false → fn s = (Ok a, s') →
     Q (clock s) (store s) a (store s')) →
  ensures o P Q m.
Proof.
  intros Hr Hfn s r s' [He H]%Hr. split; [done|]. destruct r as [a|e]; [|done].
  destruct H as (HP & Ho & s0 & s1 & H0 & H1 & H2 & _ & _ & H3 & H4 & ->).
  rewrite <- H0, <- H2. split; [done|]. split; [by rewrite H0|]. by eapply Hfn.
Qed.

Lemma runs_weaken {A} o (P P' : S → Prop) (fn m : M S W A) :
  runs o P fn m → (∀ db, P db → P' db) → runs o P' fn m.
Proof. intros Hm HP s r s' [? H]%Hm. split; [done|]. destruct r; naive_solver. Qed.

Lemma ensures_weaken {A} o (P P' : S → Prop) (Q : Z → S → A → S → Prop) (m : M S W A) :
  ensures o P Q m → (∀ db, P db → P' db) → ensures o P' Q m.
Proof. intros Hm HP s r s' [? H]%Hm. split; [done|]. destruct r; naive_solver. Qed.

(** ** Reads *)
Lemma ensures_post {A} o P (Q Q' : Z → S → A → S → Prop) (m : M S W A) :
  ensures o P Q m → (∀ now db a db', Q now db a db' → Q' now db a db') → ensures o P Q' m.
Proof. intros Hm HQ s r s' [? H]%Hm. split; [done|]. destruct r; naive_solver. Qed.

(** A step that only looks, and what its result says. *)
Definition looks {A} (R : Z → S → A → Prop) (m : M S W A) : Prop :=
  ∀ s r s', m s = (r, s') →
    store s' = store s ∧ same_env s s' ∧ ∀ a, r = Ok a → R (clock s) (store s) a.

Lemma ensures_bind {A B} o P R (Q : A → Z → S → B → S → Prop) (m : M S W A) (k : A → M S W B) :
  looks R m → (∀ a, ensures o P (Q a) (k a)) →
  ensures o P (λ now db b db', ∃ a, R now db a ∧ Q a now db b db') (bind m k).
Proof.
  intros Hm Hk s r s' H. unfold bind in H. destruct (m s) as [[a|e] s1] eqn:Hs;
    apply Hm in Hs as (Hst & He & Ha).
  - apply Hk in H as [He' H]. split; [by eapply same_env_trans|].
    destruct He as (_ & _ & Hc). rewrite Hst, Hc in H. destruct r as [b|e]; [|done].
    destruct H as (? & ? & ?). split_and!; [done..|]. exists a. split; [by apply Ha|done].
  - by simplify_eq.
Qed.

Lemma looks_probe {A} (P : S → Prop) (m : M S W A) : probe P m → looks (λ _ db _, P db) m.
Proof. intros Hm s r s' (? & ? & Hp)%Hm. split_and!; [done..|]. intros a ->. by apply Hp. Qed.
Lemma looks_uuid : looks (λ _ _ _, True) uuid_NewString.
Proof. intros s r s' [= <- <-]. done. Qed.
Lemma looks_now : looks (λ now _ a, a = now) now_.
Proof. intros s r s' [= <- <-]. split_and!; [done..|]. by intros a [= <-]. Qed.

Lemma ensures_probe {A B} o (P0 P : S → Prop) (Q : Z → S → A → S → Prop) (p : M S W B) (m : M S W A) :
  probe P0 p → ensures o P Q m → ensures o (λ db, P0 db ∧ P db) Q (let* _ := p in m).
Proof.
  intros Hp Hm s r s' H. unfold bind in H.
  destruct (p s) as [[b|e] s1] eqn:Ha; apply Hp in Ha as (Hs & He & Ha); [|by simplify_eq].
  apply Hm in H as [He' Hr]. split; [by eapply same_env_trans|].
  destruct He as (_ & _ & Hc). rewrite Hs, Hc in Hr. destruct r as [a|e]; [|done].
  destruct Hr as (? & ? & ?). split_and!; try done. by apply Ha.
Qed.
Lemma probe_check o : probe (λ _, o = None) (check o).
Proof. intros s r s'. unfold check. destruct o; by intros [= <- <-]. Qed.

Definition readonly {A} (m : M S W A) : Prop := ∀ s, store (m s).2 = store s.

Lemma readonly_ret {A} (a : A) : readonly (ret a).
Proof. by intros s. Qed.
Lemma readonly_fail {A} e : readonly (@fail S W A e).
Proof. by intros s. Qed.
Lemma readonly_bind {A B} (m : M S W A) (k : A → M S W B) :
  readonly m → (∀ a, readonly (k a)) → readonly (bind m k).
Proof.
  intros Hm Hk s. unfold bind. specialize (Hm s).
  destruct (m s) as [[a|e] s1]; simpl in *; [|done]. by rewrite Hk.
Qed.
Lemma readonly_try {A} (m : M S W A) : readonly m → readonly (try m).
Proof. intros Hm s. unfold try. specialize (Hm s). by destruct (m s). Qed.
Lemma readonly_query {A} (q : string → S → A) f :
  readonly (on_err (stmt (λ o _ db, inr (q o db, db))) f).
Proof.
  intros s. unfold on_err. destruct (stmt _ s) as [[a|e] s1] eqn:Hs; simpl.
  - apply stmt_Ok_inv in Hs as (? & _). by simplify_eq.
  - by apply stmt_Err_frame in Hs as (? & _).
Qed.
Lemma readonly_QueryOne {A} (q : string → S → list A) : readonly (QueryOne q).
Proof.
  intros s. destruct (QueryOne q s) as [r s'] eqn:H. by apply QueryOne_inv in H as (? & _).
Qed.
Lemma readonly_List_ `{CursorJSON} {A} (key : A → Cursor) q req : readonly (List_ key q req).
Proof.
  unfold List_. destruct (DecodeCursor _); [|apply readonly_fail].
  apply readonly_bind; [apply readonly_query|intros; apply readonly_ret].
Qed.
Lemma readonly_WithTenant {A} o (fn : M S W A) : readonly fn → readonly (WithTenant o fn).
Proof.
  intros Hfn s. destruct (WithTenant o fn s) as [r s'] eqn:H. simpl.
  apply WithTenant_inv in H as (_ & _ & H). destruct r as [a|e]; [|done].
  destruct H as (_ & s0 & s1 & H0 & _ & _ & Hf & _ & ->).
  specialize (Hfn s0). rewrite Hf in Hfn. simpl in Hfn. congruence.
Qed.
Lemma readonly_now : readonly now_.
Proof. by intros s. Qed.
Lemma readonly_autocommit {A} (m : M S W A) : readonly m → readonly (autocommit m).
Proof.
  intros Hm s. unfold autocommit. specialize (Hm (set_org "" (set_aborted false s))).
  by destruct (m _).
Qed.
Lemma readonly_on_err {A} (m : M S W A) f : readonly m → readonly (on_err m f).
Proof. intros Hm s. unfold on_err. specialize (Hm s). by destruct (m s). Qed.
Lemma readonly_AuthorizeOrgRead `{!MembersTable S} o user : readonly (AuthorizeOrgRead o user).
Proof.
  intros s. destruct (AuthorizeOrgRead o user s) as [r s'] eqn:H.
  by apply AuthorizeOrgRead_inv in H as (? & _).
Qed.
Lemma readonly_AuthorizeOrgMember `{!MembersTable S} a o user action :
  readonly (AuthorizeOrgMember a o user action).
Proof.
  intros s. destruct (AuthorizeOrgMember a o user action s) as [r s'] eqn:H.
  by apply AuthorizeOrgMember_inv in H as (? & _).
Qed.
End Runs.
(** ** Bodies that leave the outside world alone

    What a success of [m] says of the time, the databases and the result. *)
Section Yields.
Context {S W : Type}.
Implicit Types s : Sess S W.

Definition yields {A} (Q : Z → S → A → S → Prop) (m : M S W A) : Prop :=
  ∀ s a s', m s = (Ok a, s') →
    same_env s s' ∧ outside s' = outside s ∧ Q (clock s) (store s) a (store s').

Lemma yields_post {A} (Q Q' : Z → S → A → S → Prop) (m : M S W A) :
  yields Q m → (∀ now db a db', Q now db a db' → Q' now db a db') → yields Q' m.
Proof. intros Hm HQ s a s' (?&?&?)%Hm. auto. Qed.
Lemma yields_ret {A} (a : A) : yields (λ _ db b db', b = a ∧ db' = db) (ret a).
Proof. by intros s b s' [= <- <-]. Qed.
Lemma yields_fail {A} e Q : yields Q (@fail S W A e).
Proof. by intros s b s' [=]. Qed.
Lemma yields_bind {A B} Q1 (Q2 : A → Z → S → B → S → Prop) (m : M S W A) (k : A → M S W B) :
  yields Q1 m → (∀ a, yields (Q2 a) (k a)) →
  yields (λ now db b db', ∃ a db1, Q1 now db a db1 ∧ Q2 a now db1 b db') (bind m k).
Proof.
  intros Hm Hk s b s' (a & s1 & (He & Hw & H1)%Hm & (He' & Hw' & H2)%Hk)%bind_Ok_inv.
  split; [by eapply same_env_trans|]. split; [congruence|]. destruct He as (_ & _ & Hc).
  rewrite Hc in H2. eauto.
Qed.
Lemma yields_on_err {A} Q (m : M S W A) f : yields Q m → yields Q (on_err m f).
Proof. intros Hm s a s' H%on_err_Ok. by apply Hm. Qed.
Lemma yields_guard {A} Q (b : bool) e (m : M S W A) :
  (b = false → yields Q m) → yields Q (if b then fail e else m).
Proof. intros Hm. destruct b; [apply yields_fail|by apply Hm]. Qed.
Lemma yields_stmt {A} (f : string → Z → S → string + A * S) (Q : Z → S → A → S → Prop) :
  (∀ o now db a db', f o now db = inr (a, db') → Q now db a db') → yields Q (stmt f).
Proof.
  intros Hf s a s' H. pose proof (stmt_outside f s) as Hw. rewrite H in Hw.
  apply stmt_Ok_inv in H as (? & _ & _ & _ & ?). eauto.
Qed.
Lemma yields_Exec f (Q : Z → S → nat → S → Prop) :
  (∀ o now db n db', f o now db = inr (n, db') → Q now db n db') → yields Q (Exec f).
Proof. intros Hf. by apply yields_on_err, yields_stmt. Qed.
Lemma yields_require n e : yields (λ _ db _ db', n ≠ 0%nat ∧ db' = db) (require_rows n e).
Proof. intros s a s' [? ->]%require_rows_Ok. done. Qed.
Lemma yields_uuid : yields (λ _ db _ db', db' = db) uuid_NewString.
Proof. by intros s a s' [= <- <-]. Qed.
Lemma yields_now : yields (λ now db a db', a = now ∧ db' = db) now_.
Proof. by intros s a s' [= <- <-]. Qed.
(** A query that does not depend on the tenant. *)
Lemma yields_QueryOne {A} (q : S → list A) :
  yields (λ _ db a db', q db = [a] ∧ db' = db) (QueryOne (λ _, q)).
Proof.
  intros s a s' H. assert (Hw : outside s' = outside s).
  { apply on_err_Ok in H. apply bind_Ok_inv in H as (l & s1 & Hs & H).
    pose proof (stmt_outside (λ o _ db, inr (q db, db)) s) as Hw. rewrite Hs in Hw. simpl in Hw.
    rewrite <- Hw. destruct l as [|x [|y l]]; [done|by injection H as _ <-|done]. }
  by apply QueryOne_Ok in H as (?&?&?).
Qed.

(** Such a body as a transaction. *)
Lemma Tx_yields {A} Q (fn : M S W A) s r s' :
  stable fn → frame same_outside fn → yields Q fn → Tx false fn s = (r, s') →
  same_env s s' ∧ outside s' = outside s ∧
  match r with Err _ => store s' = store s | Ok a => Q (clock s) (store s) a (store s') end.
Proof.
  intros Hst Hfr Hfn H.
  destruct (Tx_spec fn (λ w, w = outside s) (λ now db w a db' w', Q now db a db') s r s') as (He & Hw & Hr);
    [done| |done|done|].
  - intros s0 r0 s1 Hw H0. specialize (Hfr s0). rewrite H0 in Hfr. unfold same_outside in Hfr. simpl in Hfr.
    split; [congruence|]. intros a -> _. by apply Hfn in H0 as (_ & _ & ?).
  - split_and!; [done..|]. destruct r as [a|e]; [|done]. by destruct Hr as (_ & _ & ?).
Qed.
End Yields.
Create HintDb readonly.
#[export] Hint Resolve readonly_ret readonly_fail readonly_QueryOne readonly_List_
  readonly_query readonly_now
  readonly_AuthorizeOrgRead readonly_AuthorizeOrgMember : readonly.

(** Splits a computation that only reads. *)
Ltac solve_readonly :=
  repeat first
    [ progress intros
    | solve [auto 1 with readonly]
    | apply readonly_bind | apply readonly_try | apply readonly_query | apply readonly_autocommit | apply readonly_WithTenant
    | apply readonly_on_err | case_match ].
