(* ===== verification/Outbox.v ===== *)
(** * The transactional outbox

    libs/events/outbox.go ([PostgresOutbox]) over any store that has the
    outbox table: rows in insertion order, unique by row id and by event id.
    The table has no tenant policy (migrations/outbox): the relay reads the
    events of every organization. *)

From S2P Require Import Prelude AppErrors Tx Events Repository Authz Runs.
Open Scope Z_scope.
Open Scope tx_scope.

Record OutboxRow (P : Type) := mkOutbox {
  ob_id : string; ob_event : Envelope P; ob_created : Z; ob_published : option Z }.
Arguments mkOutbox {P}. Arguments ob_id {P}. Arguments ob_event {P}.
Arguments ob_created {P}. Arguments ob_published {P}.

(** A store with an outbox table for payloads [P]. *)
Class OutboxTable (S P : Type) := {
  outbox_rows : S → list (OutboxRow P);
  set_outbox_rows : list (OutboxRow P) → S → S }.

(** ORDER BY created_at. *)
Definition older {P} (r1 r2 : OutboxRow P) : Prop := ob_created r1 ≤ ob_created r2.
#[export] Instance older_dec {P} (r1 r2 : OutboxRow P) : Decision (older r1 r2).
Proof. unfold older. apply _. Defined.

Section Outbox.
Context {S W P : Type} `{!OutboxTable S P}.
Implicit Types s : Sess S W.

Definition insert_outbox (row_id : string) (e : Envelope P) (o : string) (now : Z) (db : S)
    : string + unit * S :=
  if existsb (λ r, String.eqb (EventID (ob_event r)) (EventID e)) (outbox_rows db) ||
     existsb (λ r, String.eqb (ob_id r) row_id) (outbox_rows db)
  then inl sqlStateUniqueViolation
  else inr (tt, set_outbox_rows (outbox_rows db ++ [mkOutbox row_id e now None]) db).

Definition PostgresOutbox_Enqueue (e : Envelope P) : M S W unit :=
  match Validate e with
  | Some err => fail err
  | None =>
      let* row_id := uuid_NewString in
      on_err (stmt (insert_outbox row_id e)) MapError
  end.

(** [locked] are the rows other relays hold (SKIP LOCKED). *)
Definition PostgresOutbox_FetchUnpublished (locked : gset string) (limit : nat)
    : M S W (list (OutboxRow P)) :=
  QueryAll (λ _ db,
    take limit (merge_sort older
      (filter (λ r, ob_published r = None ∧ ob_id r ∉ locked) (outbox_rows db)))).

Definition mark_published (ids : list string) (o : string) (now : Z) (db : S)
    : string + nat * S :=
  let hit r := bool_decide (ob_id r ∈ ids) in
  inr (length (filter (λ r, hit r = true) (outbox_rows db)),
       set_outbox_rows
         ((λ r, if hit r then mkOutbox (ob_id r) (ob_event r) (ob_created r) (Some now)
                else r) <$> outbox_rows db) db).

Definition PostgresOutbox_MarkPublished (ids : list string) : M S W unit :=
  match ids with
  | [] => ret tt
  | _ => let* _ := Exec (mark_published ids) in ret tt
  end.

(** ** What an [enqueue] does *)

(** The row of an event of a service with event version [v]. *)
Definition new_row (v : Z) (row_id id : string) (now : Z) (ty o : string) (p : P)
    (opts : list (@Option_ P)) : OutboxRow P :=
  mkOutbox row_id
    (fold_left (λ e opt, opt e) opts
       (mkEnvelope id ty v o "" "" now no_actor no_resource (Some p))) now None.

(** No row of the outbox has the row's id or its event's. *)
Definition new_in (row : OutboxRow P) (db : S) : Prop :=
  ∀ r, r ∈ outbox_rows db →
    EventID (ob_event r) ≠ EventID (ob_event row) ∧ ob_id r ≠ ob_id row.
Definition append_row (row : OutboxRow P) (db : S) : S :=
  set_outbox_rows (outbox_rows db ++ [row]) db.

Lemma insert_outbox_inv row_id e o now db x :
  insert_outbox row_id e o now db = inr x →
  let row := mkOutbox row_id e now None in new_in row db ∧ x = (tt, append_row row db).
Proof.
  unfold insert_outbox. destruct (existsb _ _) eqn:H1; simpl; [done|].
  destruct (existsb (λ r, String.eqb (ob_id r) row_id) _) eqn:H2; [done|].
  intros [= <-]. split; [|done]. rewrite <- not_true_iff_false in H1, H2.
  intros r Hr%list_elem_of_In. rewrite !existsb_exists in *.
  split; intros Heq; [apply H1|apply H2]; exists r; (split; [done|]); simpl in *;
    rewrite Heq; apply String.eqb_refl.
Qed.

Lemma insert_outbox_new row_id e o now db :
  new_in (mkOutbox row_id e now None) db →
  insert_outbox row_id e o now db = inr (tt, append_row (mkOutbox row_id e now None) db).
Proof.
  intros Hn. unfold insert_outbox.
  destruct (existsb _ _) eqn:E1.
  { exfalso. apply existsb_exists in E1 as (x & Hx%list_elem_of_In & Hb%String.eqb_eq).
    by destruct (Hn x Hx). }
  destruct (existsb (λ r, String.eqb (ob_id r) row_id) _) eqn:E2; [|done].
  exfalso. apply existsb_exists in E2 as (x & Hx%list_elem_of_In & Hb%String.eqb_eq).
  by destruct (Hn x Hx).
Qed.

Lemma PostgresOutbox_Enqueue_Ok e s u s' :
  PostgresOutbox_Enqueue e s = (Ok u, s') →
  Validate e = None ∧ ∃ row_id, let row := mkOutbox row_id e (clock s) None in
    new_in row (store s) ∧ store s' = append_row row (store s) ∧ same_env s s'.
Proof.
  unfold PostgresOutbox_Enqueue. destruct (Validate e) as [err|]; [done|]. intros H.
  apply bind_Ok_inv in H as (row_id & s1 & (Hs & (Ho & Hg & Hc) & _)%uuid_Ok & H).
  apply on_err_Ok, stmt_Ok_inv in H as ([Hn [= Hst]]%insert_outbox_inv & _ & _ & _ & He).
  rewrite Hs, Hc in *. split; [done|]. exists row_id. split_and!; [done..|].
  unfold same_env in *. destruct He as (?&?&?). split_and!; congruence.
Qed.

Lemma events_New_Ok ty v o (p : P) opts s e s' :
  events_New ty v o p opts s = (Ok e, s') →
  store s' = store s ∧ same_env s s' ∧ ∃ id,
    e = fold_left (λ e opt, opt e) opts
          (mkEnvelope id ty v o "" "" (clock s) no_actor no_resource (Some p)).
Proof.
  unfold events_New. intros (id & s1 & (Hs & He & _)%uuid_Ok & H)%bind_Ok_inv.
  apply bind_Ok_inv in H as (at_ & s2 & [= <- <-] & H). unfold New_envelope in H.
  destruct (Validate _); [done|]. injection H as <- <-.
  split_and!; [done..|]. exists id. destruct He as (_ & _ & ->). done.
Qed.

(** [enqueue] of a service: a new envelope, appended to the outbox. *)
Lemma New_Enqueue_Ok v ty o (p : P) opts s u s' :
  (let* e := events_New ty v o p opts in PostgresOutbox_Enqueue e) s = (Ok u, s') →
  ∃ row_id id, let row := new_row v row_id id (clock s) ty o p opts in
    Validate (ob_event row) = None ∧ new_in row (store s) ∧
    store s' = append_row row (store s) ∧ same_env s s'.
Proof.
  intros (e & s1 & (Hs & He & id & ->)%events_New_Ok & H)%bind_Ok_inv.
  apply PostgresOutbox_Enqueue_Ok in H as (Hv & row_id & Hf & Hst & He').
  destruct He as (Ho & Hg & Hc). rewrite Hs, Hc in *. exists row_id, id.
  split_and!; try done. unfold same_env in *. destruct He' as (?&?&?). split_and!; congruence.
Qed.

(** Options that keep the identity, type, version and organization. *)
Definition neutral (opts : list (@Option_ P)) : Prop :=
  ∀ e, let e' := fold_left (λ e opt, opt e) opts e in
    EventID e' = EventID e ∧ Type_ e' = Type_ e ∧ Version e' = Version e ∧ OrgID e' = OrgID e.

Lemma neutral_valid opts e : neutral opts →
  Validate (fold_left (λ e opt, opt e) opts e) = Validate e.
Proof. intros Hn. destruct (Hn e) as (H1 & H2 & H3 & H4). unfold Validate. by rewrite H1, H2, H3, H4. Qed.

Lemma proper_valid id ty v o at_ a r p : id ≠ "" → ty ≠ "" → 1 ≤ v → o ≠ "" →
  Validate (mkEnvelope id ty v o "" "" at_ a r (Some p) : Envelope P) = None.
Proof.
  intros Hid Hty Hv Ho. unfold Validate. simpl.
  apply String.eqb_neq in Hid, Hty, Ho. rewrite Hid, Hty, Ho.
  by destruct (Z.ltb_spec v 1); [lia|].
Qed.

(** Proper events only fail to be enqueued with the database. *)
Lemma New_Enqueue_Err v ty o (p : P) opts s e s' :
  (let* e := events_New ty v o p opts in PostgresOutbox_Enqueue e) s = (Err e, s') →
  proper_uuids s → o ≠ "" → ty ≠ "" → 1 ≤ v → neutral opts → aborted s' = true.
Proof.
  intros H Hu Ho Hty Hv Hn.
  assert (Hval : ∀ n, Validate (fold_left (λ e opt, opt e) opts
     (mkEnvelope (uuid_gen s n) ty v o "" "" (clock s) no_actor no_resource (Some p))) = None).
  { intros n. rewrite neutral_valid by done. by apply proper_valid. }
  unfold events_New, uuid_NewString, now_, New_envelope, bind in H.
  cbv beta iota zeta in H. cbn [set_uuid_next clock] in H. rewrite Hval in H.
  unfold ret, PostgresOutbox_Enqueue in H. rewrite Hval in H.
  apply bind_Err_inv in H as [H|(id & s1 & _ & H)]; [done|]. by eapply on_err_stmt_Err.
Qed.

Lemma stable_PostgresOutbox_Enqueue e : stable (S := S) (W := W) (PostgresOutbox_Enqueue e).
Proof. unfold PostgresOutbox_Enqueue. solve_stable. Qed.
End Outbox.
#[export] Hint Resolve stable_PostgresOutbox_Enqueue : stable.
