(* ===== verification/Total.v ===== *)
(** * Total correctness

    Runs without faults, as total-correctness statements: [total m s Q] says
    that [m] succeeds from [s] and ends in a state satisfying [Q].  One rule
    per operation of [Tx], [Repository], [Authz] and [Outbox]. *)

From S2P Require Import Prelude AppErrors Tx Events Repository Authz Runs Outbox.
Open Scope Z_scope.
Open Scope tx_scope.

Lemma rows_where_singleton {K} `{Countable K} {A} (p : A → bool) (m : gmap K A) k a :
  m !! k = Some a → p a = true →
  (∀ k' a', m !! k' = Some a' → p a' = true → k' = k) → rows_where p m = [a].
Proof.
  intros Hk Hp Hu. apply Permutation_singleton_r. unfold rows_where.
  rewrite <- (map_to_list_delete m k a Hk). rewrite fmap_cons. simpl.
  rewrite filter_cons_True by done. rewrite filter_none; [done|].
  intros x (kx & -> & Hin)%list_elem_of_fmap Hx. destruct kx as [k' a']; simpl in *.
  apply elem_of_map_to_list, lookup_delete_Some in Hin as [Hne Hin].
  by apply Hne; symmetry; eapply Hu.
Qed.

Lemma visible_true o x : o ≠ "" → x = o → visible o x = true.
Proof. intros. by apply visible_spec. Qed.

Section Total.
Context {S W : Type}.
Implicit Types s : Sess S W.

(** No fault is pending and the transaction is usable. *)
Definition healthy (s : Sess S W) : Prop := quiet s ∧ aborted s = false.

Definition total {A} (m : M S W A) (s : Sess S W) (Q : A → Sess S W → Prop) : Prop :=
  ∃ a s', m s = (Ok a, s') ∧ healthy s' ∧ same_env s s' ∧ Q a s'.

Lemma total_weaken {A} (m : M S W A) s (Q Q' : A → Sess S W → Prop) :
  total m s Q → (∀ a s', healthy s' → same_env s s' → Q a s' → Q' a s') → total m s Q'.
Proof. intros (a & s' & ? & ? & ? & ?) HQ. exists a, s'. eauto 6. Qed.

Lemma total_ret {A} (a : A) s (Q : A → Sess S W → Prop) :
  healthy s → Q a s → total (ret a) s Q.
Proof. intros. exists a, s. split_and!; auto using same_env_refl. Qed.

Lemma total_bind {A B} (m : M S W A) (k : A → M S W B) s Q :
  total m s (λ a s1, total (k a) s1 (λ b s2, same_env s s2 → Q b s2)) → total (bind m k) s Q.
Proof.
  intros (a & s1 & Hm & _ & He & b & s2 & Hk & ? & He2 & HQ). exists b, s2.
  unfold bind. rewrite Hm. pose proof (same_env_trans _ _ _ He He2). auto.
Qed.

Lemma total_on_err {A} (m : M S W A) f s Q : total m s Q → total (on_err m f) s Q.
Proof. intros (a & s1 & Hm & ?). exists a, s1. unfold on_err. by rewrite Hm. Qed.

Lemma total_uuid s (Q : string → Sess S W → Prop) :
  healthy s → Q (uuid_gen s (uuid_next s)) (set_uuid_next (Datatypes.S (uuid_next s)) s) →
  total uuid_NewString s Q.
Proof. intros [??] ?. eexists _, _. by split_and!. Qed.

Lemma total_stmt {A} (f : string → Z → S → string + A * S) s a st Q :
  healthy s → f (org s) (clock s) (store s) = inr (a, st) → Q a (set_store st s) →
  total (stmt f) s Q.
Proof.
  intros [Hq Ha] Hf ?. exists a, (set_store st s). split_and!; try done.
  by rewrite stmt_quiet, Hf.
Qed.

Lemma total_query {A} (q : string → S → A) f s Q :
  healthy s → Q (q (org s) (store s)) s → total (on_err (stmt (λ o _ db, inr (q o db, db))) f) s Q.
Proof.
  intros Hh HQ. apply total_on_err. eapply total_stmt; [done|done|].
  by destruct s.
Qed.

Lemma total_QueryOne {A} (q : string → S → list A) s a Q :
  healthy s → q (org s) (store s) = [a] → Q a s → total (QueryOne q) s Q.
Proof.
  intros Hh Hq HQ. apply total_on_err, total_bind. eapply total_stmt; [done|done|].
  rewrite Hq. destruct s. by apply total_ret.
Qed.

(** Reads on the pool. *)
Lemma autocommit_one {A} (q : string → S → list A) s a :
  quiet s → q "" (store s) = [a] → autocommit (QueryOne q) s = (Ok a, s).
Proof.
  intros Hq Ha. unfold autocommit, QueryOne, on_err, bind, stmt, pop_fault. simpl. rewrite Hq. simpl.
  rewrite Ha. simpl. unfold quiet in Hq. destruct s. simpl in *. by subst.
Qed.
Lemma autocommit_none {A} (q : string → S → list A) s :
  quiet s → q "" (store s) = [] → autocommit (QueryOne q) s = (Err (MapError NoRows), s).
Proof.
  intros Hq Ha. unfold autocommit, QueryOne, on_err, bind, stmt, pop_fault. simpl. rewrite Hq. simpl.
  rewrite Ha. simpl. unfold quiet in Hq. destruct s. simpl in *. by subst.
Qed.

(** A tenant transaction commits what its body did. *)
Lemma total_WithTenant {A} o (fn : M S W A) s Q :
  healthy s → o ≠ "" →
  total fn (enter o s) (λ a s1, Q a (leave s s1)) → total (WithTenant o fn) s Q.
Proof.
  intros [Hq Ha] Ho (a & s1 & Hf & [Hq1 Ha1] & (He1 & He2 & He3) & HQ).
  exists a, (leave s s1). rewrite (WithTenant_quiet o fn s (Ok a) s1) by done.
  rewrite Ha1. split_and!; try done.
Qed.

Lemma total_create_id s (Q : string → Sess S W → Prop) :
  healthy s → Q (uuid_gen s (uuid_next s)) (set_uuid_next (Datatypes.S (uuid_next s)) s) →
  total (if String.eqb "" "" then uuid_NewString else ret "") s Q.
Proof. apply total_uuid. Qed.


(** ** Membership and events *)
Section Members.
Context `{!MembersTable S}.

(** The primary key of organization_members. *)
Definition members_keyed (db : S) : Prop :=
  ∀ k m, org_members db !! k = Some m → k = (m_org m, m_user m).

Lemma total_lookup_member o user s m Q :
  healthy s → o ≠ "" → members_keyed (store s) → org_members (store s) !! (o, user) = Some m →
  Q m s → total (lookup_member o user) s Q.
Proof.
  intros Hh Ho Hk Hm HQ. apply total_WithTenant; [done..|]. apply total_on_err.
  assert (m_org m = o ∧ m_user m = user) as [Hmo Hmu] by (apply Hk in Hm; by simplify_eq).
  eapply (total_QueryOne _ _ m); [by destruct Hh|..].
  - simpl. eapply rows_where_singleton; [exact Hm| |].
    + by rewrite andb_true_iff, visible_spec, Hmo, Hmu, String.eqb_refl.
    + intros k' m' Hm' [[_ Ho']%visible_spec Hu']%andb_true_iff.
      apply String.eqb_eq in Hu'. apply Hk in Hm'. congruence.
  - unfold leave. simpl. by destruct s.
Qed.

(** A member whose role grants the action is let through. *)
Lemma total_AuthorizeOrgMember a o user action s m (Q : string → Sess S W → Prop) :
  healthy s → o ≠ "" → user ≠ "" → members_keyed (store s) →
  org_members (store s) !! (o, user) = Some m → m_status m = "active" →
  grants (pol_org a) (m_role m) action = true →
  Q (m_role m) s → total (AuthorizeOrgMember a o user action) s Q.
Proof.
  intros Hh Ho Hu Hk Hm Hst Hg HQ. unfold AuthorizeOrgMember.
  destruct (String.eqb_spec o ""); [done|]. destruct (String.eqb_spec user ""); [done|].
  apply total_bind. eapply total_lookup_member; [done..|]. rewrite Hst. simpl.
  destruct (Authorize _ _ _) eqn:Ha; [|by apply total_ret].
  assert (Hn : Authorize a (mkPrincipal user o [m_role m] ∅) (mkAccess action o "") = None);
    [|by rewrite Hn in Ha].
  apply Authorize_spec. simpl. split_and!; [done..|]. left. exists (m_role m).
  split; [left|]. by apply bool_decide_eq_true in Hg.
Qed.
End Members.

(** A valid event with new identifiers is appended. *)
Lemma total_New_Enqueue {P} `{!OutboxTable S P} v ty o (p : P) opts s Q :
  let row := new_row v (uuid_gen s (Datatypes.S (uuid_next s))) (uuid_gen s (uuid_next s))
               (clock s) ty o p opts in
  healthy s → Validate (ob_event row) = None → new_in row (store s) →
  Q tt (set_store (append_row row (store s))
          (set_uuid_next (Datatypes.S (Datatypes.S (uuid_next s))) s)) →
  total (let* e := events_New ty v o p opts in PostgresOutbox_Enqueue e) s Q.
Proof.
  intros row Hh Hv Hfr HQ. unfold events_New.
  assert (Hn : New_envelope (uuid_gen s (uuid_next s)) (clock s) ty v o (Some p) opts
               = Ok (ob_event row)).
  { unfold New_envelope. change (fold_left _ _ _) with (ob_event row). by rewrite Hv. }
  apply total_bind, total_bind, total_uuid; [done|].
  apply total_bind. exists (clock s). eexists. split; [reflexivity|].
  split; [done|]. split; [done|]. simpl. rewrite Hn. apply total_ret; [done|].
  intros _ _. unfold PostgresOutbox_Enqueue. rewrite Hv.
  apply total_bind, total_uuid; [done|]. apply total_on_err.
  eapply total_stmt; [done| |intros _ _; exact HQ]. by apply insert_outbox_new.
Qed.
End Total.

(** ** Concrete scenarios

    A text for every value, the instance of the codecs ([encoding/json] on a
    type) that the models take as parameters; and serial identifiers in place of
    random UUIDs, which are proper and distinct and of which one can compute
    which were drawn. *)
Fixpoint digits (p : positive) : string :=
  match p with
  | xH => EmptyString
  | xO p => String (Ascii.ascii_of_nat 48) (digits p)
  | xI p => String (Ascii.ascii_of_nat 49) (digits p)
  end.
Fixpoint of_digits (s : string) : positive :=
  match s with
  | EmptyString => xH
  | String a s => if Ascii.eqb a (Ascii.ascii_of_nat 48) then xO (of_digits s) else xI (of_digits s)
  end.
Lemma of_digits_digits p : of_digits (digits p) = p.
Proof. induction p; simpl; by f_equal. Qed.

Definition text_of_value `{Countable A} (a : A) : string := digits (encode a).
Definition value_of_text `{Countable A} (s : string) : option A := decode (of_digits s).
Lemma value_of_text_of_value `{Countable A} (a : A) : value_of_text (text_of_value a) = Some a.
Proof. unfold value_of_text, text_of_value. by rewrite of_digits_digits, decode_encode. Qed.

Definition demo_uuid (n : nat) : string := "id" +:+ GoStrings.Itoa (Z.of_nat n).

Lemma demo_uuids_of {S W} (s : Sess S W) : uuid_gen s = demo_uuid → proper_uuids s.
Proof. intros Hs n. rewrite Hs. unfold demo_uuid. by rewrite string_app_cons. Qed.

Lemma demo_uuid_inj : Inj (=) (=) demo_uuid.
Proof.
  intros n m Heq. unfold demo_uuid in Heq.
  apply string_app_inv_tail_length in Heq as [_ Heq]; [|done]. apply Itoa_inj in Heq. lia.
Qed.

(** [id] is one of the first [next] identifiers. *)
Definition drawn (next : nat) (id : string) : bool :=
  existsb (λ n, String.eqb id (demo_uuid n)) (seq 0 next).

Lemma drawn_spec next id n : drawn next id = true → (next ≤ n)%nat → id ≠ demo_uuid n.
Proof.
  intros (k & Hk & Heq)%existsb_exists Hn ->. apply in_seq in Hk. bool_to_prop.
  apply demo_uuid_inj in Heq. lia.
Qed.

Lemma drawn_keys {A} next (m : gmap string A) n :
  forallb (drawn next) (map_to_list m).*1 = true → (next ≤ n)%nat → m !! demo_uuid n = None.
Proof.
  intros Hall Hn. destruct (m !! demo_uuid n) as [a|] eqn:E; [|done]. exfalso.
  rewrite forallb_forall in Hall.
  apply (drawn_spec next (demo_uuid n) n); [|done|done]. apply Hall, list_elem_of_In.
  apply list_elem_of_fmap. exists (demo_uuid n, a). split; [done|]. by apply elem_of_map_to_list.
Qed.

(** Reads a row off a computed state. *)
Lemma lookup_computed {A} (o : option A) (P : A → bool) :
  match o with Some a => P a | None => false end = true → ∃ a, o = Some a ∧ P a = true.
Proof. destruct o as [a|]; [by exists a|done]. Qed.
