(* ===== verification/Http.v ===== *)
(** * Requests

    What the services' handlers share: [validateName] and [slugPattern], which
    the services (service.go of each) define with the same text, and the HTTP
    layer's bearer tokens, headers, bodies and authentication middleware. *)
From S2P Require Import Prelude AppErrors Tx.
Open Scope Z_scope.

(** [validateName]; the length is in bytes. *)
Definition validateName (name : string) : option goerr :=
  let l := Z.of_nat (String.length name) in
  if (l <? 2) || (64 <? l)
  then Some (Validation "name must be between 2 and 64 characters")
  else None.

(** [slugPattern]: ^[a-z0-9]([a-z0-9-]{0,62}[a-z0-9])?$ *)
Definition slug_edge (a : Ascii.ascii) : bool :=
  let n := Ascii.nat_of_ascii a in
  ((97 <=? n) && (n <=? 122) || (48 <=? n) && (n <=? 57))%nat.
Definition slug_char (a : Ascii.ascii) : bool :=
  slug_edge a || Ascii.eqb a (Ascii.ascii_of_nat 45).
Definition slugPattern (s : string) : bool :=
  match s with
  | EmptyString => false
  | String a EmptyString => slug_edge a
  | String a rest =>
      match GoStrings.rev_str rest with
      | String z middle =>
          slug_edge a && slug_edge z && all_chars slug_char middle &&
          (Z.of_nat (String.length middle) <=? 62)
      | EmptyString => false
      end
  end.

Open Scope Z_scope.
Open Scope tx_scope.

Definition ascii_lower (s : string) : string :=
  String.string_of_list_ascii (GoStrings.lower_ascii <$> String.list_ascii_of_string s).

(** [bearerToken]: an empty token is a missing one. *)
Definition bearerToken (header : string) : string :=
  let prefix := "Bearer "%string in
  if (String.length header <=? String.length prefix)%nat ||
     negb (String.eqb (ascii_lower (GoStrings.take_str 7 header)) (ascii_lower prefix))
  then ""
  else GoStrings.TrimSpace (GoStrings.drop_str 7 header).

(** A header, "" when absent. *)
Definition header (hs : list (string * string)) (name : string) : string :=
  match find (λ h, String.eqb (GoStrings.ToLower h.1) (GoStrings.ToLower name)) hs with
  | Some h => h.2
  | None => ""
  end.

Definition errInvalidToken := Unauthorized "invalid or expired token".

Section Http.
Context {S W : Type}.

Definition parseBody {A} (b : option A) : M S W A :=
  match b with Some a => ret a | None => fail (Validation "invalid request body") end.

(** [RequireAuth]: [verify] is the JWT verification, giving the user id. *)
Definition RequireAuth {A} (verify : string → option string) (header : string)
    (next : string → M S W A) : M S W A :=
  let token := bearerToken header in
  if String.eqb token "" then fail errInvalidToken
  else
    match verify token with
    | None => fail errInvalidToken
    | Some user => next user
    end.
End Http.
