(* ===== verification/Calls.v ===== *)
(** * Calls and the steps of an abstract machine

    What the services' proofs share: a call performs steps of the machine that
    specifies the tables ([performs]), only succeeds where its caller is allowed
    to ([permits]), and leaves the database alone when it fails ([clean]).  The
    machine is a step relation per tenant and time, with an invariant. *)

From S2P Require Import Prelude AppErrors Tx Events Pagination Repository Authz Runs Outbox Http.
Open Scope Z_scope.
Open Scope tx_scope.

Section Calls.
Context {S W : Type} (wf : S → Prop) (change : string → Z → S → S → Prop).
Implicit Types s : Sess S W.

(** Whatever [m] returns, it performed steps in a tenant that [ok] allows. *)
Definition performs (ok : string → Prop) {A} (m : M S W A) : Prop :=
  ∀ s r s', proper_uuids s → wf (store s) → m s = (r, s') →
    store s' = store s ∨ ∃ o, ok o ∧ rtc (change o (clock s)) (store s) (store s').

(** A step that leaves the database and the environment alone. *)
Definition idle {A} (m : M S W A) : Prop :=
  ∀ s r s', m s = (r, s') → store s' = store s ∧ same_env s s'.

Lemma ensures_performs {A} o P (Q : Z → S → A → S → Prop) (m : M S W A) :
  ensures o P Q m →
  (∀ now db a db', wf db → P db → Q now db a db' → rtc (change o now) db db') → performs (eq o) m.
Proof.
  intros Hm HQ s r s' _ Hw [_ H]%Hm. destruct r as [a|e]; [|by left].
  destruct H as (_ & HP & H). right. exists o. eauto.
Qed.
Lemma readonly_performs {A} ok (m : M S W A) : readonly m → performs ok m.
Proof. intros Hm s r s' _ _ H. specialize (Hm s). rewrite H in Hm. by left. Qed.
Lemma performs_pre {A B} ok (m : M S W A) (k : A → M S W B) :
  idle m → (∀ a, performs ok (k a)) → performs ok (bind m k).
Proof.
  intros Hm Hk s r s' Hu Hw H. unfold bind in H. destruct (m s) as [[a|e] s1] eqn:Hs;
    apply Hm in Hs as [Hst He]; [|injection H as <- <-; by left].
  apply Hk in H; [|by eapply proper_uuids_env|by rewrite Hst].
  destruct He as (_ & _ & Hc). by rewrite Hst, Hc in H.
Qed.
Lemma performs_post {A B} ok (m : M S W A) (k : A → M S W B) :
  performs ok m → (∀ a, readonly (k a)) → performs ok (bind m k).
Proof.
  intros Hm Hk s r s' Hu Hw H. unfold bind in H. destruct (m s) as [[a|e] s1] eqn:Hs;
    apply Hm in Hs; try done; [|by simplify_eq].
  specialize (Hk a s1). rewrite H in Hk. simpl in Hk. by rewrite Hk.
Qed.
Lemma performs_fail {A} ok e : performs ok (@fail S W A e).
Proof. apply readonly_performs, readonly_fail. Qed.
Lemma performs_any {A} ok (m : M S W A) : performs ok m → performs (λ _, True) m.
Proof. intros Hm s r s' Hu Hw H. destruct (Hm s r s' Hu Hw H) as [?|(o & _ & ?)]; eauto. Qed.

(** ** Authorization and failures *)

(** [m] only succeeds where [P] holds. *)
Definition permits (P : S → Prop) {A} (m : M S W A) : Prop :=
  ∀ s a s', m s = (Ok a, s') → P (store s).
(** A failure of [m] leaves the database alone. *)
Definition clean {A} (m : M S W A) : Prop := ∀ s e s', m s = (Err e, s') → store s' = store s.

Lemma permits_first {A B} P (m : M S W A) (k : A → M S W B) : permits P m → permits P (bind m k).
Proof. intros Hm s b s' (a & s1 & Ha & _)%bind_Ok_inv. by eapply Hm. Qed.
Lemma permits_pre {A B} P (m : M S W A) (k : A → M S W B) :
  idle m → (∀ a, permits P (k a)) → permits P (bind m k).
Proof.
  intros Hm Hk s b s' (a & s1 & Ha & Hb)%bind_Ok_inv. apply Hm in Ha as [<- _]. by eapply Hk.
Qed.
Lemma ensures_permits {A} o P (Q : Z → S → A → S → Prop) (m : M S W A) :
  ensures o P Q m → permits P m.
Proof. intros Hm s a s' (_ & _ & ? & _)%Hm. done. Qed.
Lemma permits_weaken {A} (P P' : S → Prop) (m : M S W A) :
  permits P m → (∀ db, P db → P' db) → permits P' m.
Proof. intros Hm HP s a s' Ha%Hm. auto. Qed.

Lemma clean_pre {A B} (m : M S W A) (k : A → M S W B) :
  idle m → (∀ a, clean (k a)) → clean (bind m k).
Proof.
  intros Hm Hk s e s' H. unfold bind in H. destruct (m s) as [[a|x] s1] eqn:Ha;
    apply Hm in Ha as [Hs _]; [|by simplify_eq]. apply Hk in H. congruence.
Qed.
Lemma clean_post {A B} (m : M S W A) (f : A → B) : clean m → clean (let* a := m in ret (f a)).
Proof.
  intros Hm s e s' H. unfold bind in H. destruct (m s) as [[a|x] s1] eqn:Ha; [done|].
  injection H as <- <-. by eapply Hm.
Qed.
Lemma ensures_clean {A} o P (Q : Z → S → A → S → Prop) (m : M S W A) : ensures o P Q m → clean m.
Proof. intros Hm s e s' [_ H]%Hm. done. Qed.
Lemma readonly_clean {A} (m : M S W A) : readonly m → clean m.
Proof. intros Hm s e s' H. specialize (Hm s). by rewrite H in Hm. Qed.

Lemma idle_parse {A} (b : option A) : idle (parseBody b).
Proof. intros s r s'. destruct b; by intros [= <- <-]. Qed.

(** ** Events of a service *)
Context {P : Type} `{!OutboxTable S P}.

(** One event of version [v] is appended. *)
Definition emitted_event (v : Z) (ty o : string) (p : P) (opts : list (@Option_ P)) (now : Z)
    (db db' : S) : Prop :=
  ∃ row_id eid, let row := new_row v row_id eid now ty o p opts in
    Validate (ob_event row) = None ∧ new_in row db ∧ db' = append_row row db.

Lemma emit_Ok v ty o (p : P) opts s u s' :
  (let* e := events_New ty v o p opts in PostgresOutbox_Enqueue e) s = (Ok u, s') →
  emitted_event v ty o p opts (clock s) (store s) (store s') ∧ same_env s s'.
Proof.
  intros (row_id & eid & ? & ? & ? & ?)%New_Enqueue_Ok. split; [|done]. by exists row_id, eid.
Qed.

(** A broken transaction takes no events. *)
Lemma emit_aborted v ty o (p : P) opts s u s' : aborted s = true →
  (let* e := events_New ty v o p opts in PostgresOutbox_Enqueue e) s ≠ (Ok u, s').
Proof.
  intros Ha H. inv_bind. unfold events_New in Hm. inv_bind. apply uuid_Ok in Hm0 as (_ & _ & Ha0).
  inv_bind. injection Hm0 as _ <-. destruct (New_envelope _ _ _ _ _ _ _); [|done].
  injection Hm as <- <-. unfold PostgresOutbox_Enqueue in H. destruct (Validate _); [done|].
  inv_bind. apply uuid_Ok in Hm as (_ & _ & Ha1). eapply on_err_stmt_aborted; [|exact H]. congruence.
Qed.

Lemma emitted_org v ty o (p : P) opts now row_id eid :
  neutral opts → OrgID (ob_event (new_row v row_id eid now ty o p opts)) = o.
Proof.
  intros Hn. unfold new_row. simpl.
  by destruct (Hn (mkEnvelope eid ty v o "" "" now no_actor no_resource (Some p))) as (_ & _ & _ & ->).
Qed.
End Calls.

(** Takes the checks before a call and the conversions after it away. *)
Ltac take_apart :=
  repeat first
    [ apply performs_pre; [solve [auto with idle]|intros]
    | apply performs_fail
    | apply performs_post; [|intros; solve [solve_readonly]] ].
Create HintDb idle.
#[export] Hint Resolve idle_parse : idle.
