(* ===== verification/Store.v ===== *)
(** * The deployment service's tables

    The tables of migrations/deployment (applications, deployments, releases,
    rollout_status, argo_applications, deployment_processed_events), of migrations/outbox and the
    rows of other services the constraints and queries refer to
    (organizations, projects, clusters, organization_members), with the SQL
    statements of repository.go, rollout.go, argocd_repository.go, membership.go
    and libs/events outbox.go as statements of [Tx].

    Every tenant table has FORCE ROW LEVEL SECURITY with the policy
    [org_id = current_setting('app.current_org_id')]: a statement sees and
    changes only the rows of the session's organization, and an inserted row
    must belong to it (SQLSTATE 42501 otherwise); uniqueness, foreign keys and
    cascades look at all rows.  Values are assumed to fit their column types. *)

From S2P Require Import Prelude Json AppErrors Tx Events Domain Pagination Authz.
From S2P Require Export Repository Runs Outbox.
Open Scope Z_scope.
Open Scope tx_scope.

(** ** Tables *)
Record DB := mkDB {
  t_orgs : gset string;
  t_projects : gset string;
  t_clusters : gmap string ClusterRow;
  t_members : gmap (string * string) OrgMember;
  t_apps : gmap string Application;
  t_deps : gmap string Deployment;
  t_rels : gmap string Release;
  t_rollouts : gmap (string * string) RolloutStatus;
  t_processed : gmap (string * string) string;
  t_argo : gmap string ArgoApplication;
  t_outbox : list (OutboxRow payload) }.

Definition set_apps (m : gmap string Application) (db : DB) : DB :=
  mkDB (t_orgs db) (t_projects db) (t_clusters db) (t_members db) m (t_deps db) (t_rels db)
    (t_rollouts db) (t_processed db) (t_argo db) (t_outbox db).
Definition set_deps (m : gmap string Deployment) (db : DB) : DB :=
  mkDB (t_orgs db) (t_projects db) (t_clusters db) (t_members db) (t_apps db) m (t_rels db)
    (t_rollouts db) (t_processed db) (t_argo db) (t_outbox db).
Definition set_rels (m : gmap string Release) (db : DB) : DB :=
  mkDB (t_orgs db) (t_projects db) (t_clusters db) (t_members db) (t_apps db) (t_deps db) m
    (t_rollouts db) (t_processed db) (t_argo db) (t_outbox db).
Definition set_rollouts (m : gmap (string * string) RolloutStatus) (db : DB) : DB :=
  mkDB (t_orgs db) (t_projects db) (t_clusters db) (t_members db) (t_apps db) (t_deps db)
    (t_rels db) m (t_processed db) (t_argo db) (t_outbox db).
Definition set_processed (m : gmap (string * string) string) (db : DB) : DB :=
  mkDB (t_orgs db) (t_projects db) (t_clusters db) (t_members db) (t_apps db) (t_deps db)
    (t_rels db) (t_rollouts db) m (t_argo db) (t_outbox db).
Definition set_outbox (l : list (OutboxRow payload)) (db : DB) : DB :=
  mkDB (t_orgs db) (t_projects db) (t_clusters db) (t_members db) (t_apps db) (t_deps db)
    (t_rels db) (t_rollouts db) (t_processed db) (t_argo db) l.

Definition set_argo (m : gmap string ArgoApplication) (db : DB) : DB :=
  mkDB (t_orgs db) (t_projects db) (t_clusters db) (t_members db) (t_apps db) (t_deps db)
    (t_rels db) (t_rollouts db) (t_processed db) m (t_outbox db).

(** The broker's stream: the messages it accepted so far, oldest first, with the
    time of each; the expired ones stay in this log ([retained] of [Relay] is
    what the broker still has). *)
Record Message := mkMessage { msg_at : Z; msg_event : Event }.
Definition Stream := list Message.

Abbreviation DBM := (M DB Stream).

#[export] Instance DB_members : MembersTable DB := {| org_members := t_members |}.

(** ** repository.go: applications *)
Definition app_cursor (a : Application) : Cursor := mkCursor (a_created a) (a_id a).

Definition insert_application (a : Application) (o : string) (now : Z) (db : DB)
    : string + Application * DB :=
  if negb (visible o (a_org a)) then inl rls_violation
  else if bool_decide (is_Some (t_apps db !! a_id a)) ||
       existsb (λ b, String.eqb (a_project b) (a_project a) && String.eqb (a_slug b) (a_slug a))
         (rows_where (λ _, true) (t_apps db))
  then inl sqlStateUniqueViolation
  else if negb (bool_decide (a_org a ∈ t_orgs db)) ||
          negb (bool_decide (a_project a ∈ t_projects db))
  then inl sqlStateForeignKeyViolation
  else
    let a' := mkApp (a_id a) now now 1 (a_org a) (a_project a) (a_name a) (a_slug a) (a_desc a)
                (a_runtime a) (a_created_by a) in
    inr (a', set_apps (<[a_id a := a']> (t_apps db)) db).

Definition applicationRepo_Create (a : Application) : DBM Application :=
  let* id := (if String.eqb (a_id a) "" then uuid_NewString else ret (a_id a)) in
  let runtime := if String.eqb (a_runtime a) "" then RuntimeContainer else a_runtime a in
  let a := mkApp id (a_created a) (a_updated a) (a_version a) (a_org a) (a_project a)
             (a_name a) (a_slug a) (a_desc a) runtime (a_created_by a) in
  on_err (stmt (insert_application a)) MapError.

Definition applicationRepo_GetByID (id : string) : DBM Application :=
  QueryOne (λ o db, option_list (row_at a_org o id (t_apps db))).

Definition applicationRepo_GetBySlug (projectID slug : string) : DBM Application :=
  QueryOne (λ o db,
    rows_where (λ a, visible o (a_org a) && String.eqb (a_project a) projectID &&
                     String.eqb (a_slug a) slug) (t_apps db)).

Definition applicationRepo_List `{CursorJSON} (projectID : string) (req : PageRequest)
    : DBM (Page Application) :=
  List_ app_cursor
    (λ o db, rows_where (λ a, visible o (a_org a) && String.eqb (a_project a) projectID)
               (t_apps db)) req.

Definition update_application (a : Application) (o : string) (now : Z) (db : DB)
    : string + nat * DB :=
  match row_at a_org o (a_id a) (t_apps db) with
  | Some r =>
      if a_version r =? a_version a then
        let r' := mkApp (a_id r) (a_created r) now (a_version r + 1) (a_org r) (a_project r)
                    (a_name a) (a_slug r) (a_desc a) (a_runtime r) (a_created_by r) in
        inr (1%nat, set_apps (<[a_id r := r']> (t_apps db)) db)
      else inr (0%nat, db)
  | None => inr (0%nat, db)
  end.

(** The struct afterwards has its version bumped. *)
Definition applicationRepo_Update (a : Application) : DBM Application :=
  let* n := Exec (update_application a) in
  let* _ := require_rows n ErrOptimisticLock in
  ret (mkApp (a_id a) (a_created a) (a_updated a) (a_version a + 1) (a_org a) (a_project a)
         (a_name a) (a_slug a) (a_desc a) (a_runtime a) (a_created_by a)).

(** Deleting deployments cascades to their releases, whose trigger
    [releases_immutable] raises an exception on every DELETE. *)
Definition delete_deployments (p : Deployment → bool) (db : DB) : string + DB :=
  let gone := filter (λ kv : string * Deployment, p kv.2 = true) (t_deps db) in
  if existsb (λ r, bool_decide (is_Some (gone !! r_dep r))) (rows_where (λ _, true) (t_rels db))
  then inl raise_exception
  else
    inr (set_deps (filter (λ kv : string * Deployment, p kv.2 = false) (t_deps db))
           (set_rollouts
              (filter (λ kv : (string * string) * RolloutStatus,
                 bool_decide (is_Some (gone !! rs_dep kv.2)) = false) (t_rollouts db))
              (set_argo
                 (filter (λ kv : string * ArgoApplication,
                    bool_decide (is_Some (gone !! kv.1)) = false) (t_argo db)) db))).

Definition delete_application (id : string) (o : string) (now : Z) (db : DB)
    : string + nat * DB :=
  match row_at a_org o id (t_apps db) with
  | None => inr (0%nat, db)
  | Some _ =>
      match delete_deployments (λ d, String.eqb (d_app d) id) db with
      | inl code => inl code
      | inr db' => inr (1%nat, set_apps (delete id (t_apps db')) db')
      end
  end.

Definition applicationRepo_Delete (id : string) : DBM unit :=
  let* n := Exec (delete_application id) in
  require_rows n (NotFound "application not found").

(** ** repository.go: deployments *)
Definition dep_cursor (d : Deployment) : Cursor := mkCursor (d_created d) (d_id d).

Definition not_deleted (d : Deployment) : bool := negb (String.eqb (d_status d) StatusDeleted).

(** The stored row and the struct after INSERT: [ready_replicas] has its
    default 0 and the struct keeps its own value. *)
Definition insert_deployment (d : Deployment) (o : string) (now : Z) (db : DB)
    : string + Deployment * DB :=
  if negb (visible o (d_org d)) then inl rls_violation
  else if bool_decide (is_Some (t_deps db !! d_id d)) then inl sqlStateUniqueViolation
  else if negb (bool_decide (d_org d ∈ t_orgs db)) ||
          negb (bool_decide (is_Some (t_apps db !! d_app d))) ||
          negb (bool_decide (is_Some (t_clusters db !! d_cluster d)))
  then inl sqlStateForeignKeyViolation
  else
    let stamp ready :=
      mkDep (d_id d) now now 1 (d_org d) (d_app d) (d_cluster d) (d_image d) (d_replicas d)
        (d_cpu_request d) (d_cpu_limit d) (d_memory_request d) (d_memory_limit d) (d_port d)
        (d_env d) (d_status d) ready (d_desired d) (d_created_by d) in
    inr (stamp (d_ready d), set_deps (<[d_id d := stamp 0]> (t_deps db)) db).

Definition deploymentRepo_Create (d : Deployment) : DBM Deployment :=
  let* id := (if String.eqb (d_id d) "" then uuid_NewString else ret (d_id d)) in
  let status := if String.eqb (d_status d) "" then StatusPending else d_status d in
  let env := match d_env d with Some j => Some j | None => Some (JArr []) end in
  let d := mkDep id (d_created d) (d_updated d) (d_version d) (d_org d) (d_app d) (d_cluster d)
             (d_image d) (d_replicas d) (d_cpu_request d) (d_cpu_limit d)
             (d_memory_request d) (d_memory_limit d) (d_port d) env status (d_ready d)
             (d_replicas d) (d_created_by d) in
  on_err (stmt (insert_deployment d)) MapError.

Definition deploymentRepo_GetByID (id : string) : DBM Deployment :=
  QueryOne (λ o db,
    match row_at d_org o id (t_deps db) with
    | Some d => if not_deleted d then [d] else []
    | None => []
    end).

Definition deploymentRepo_List `{CursorJSON} (appID : string) (req : PageRequest)
    : DBM (Page Deployment) :=
  List_ dep_cursor
    (λ o db, rows_where (λ d, visible o (d_org d) && String.eqb (d_app d) appID && not_deleted d)
               (t_deps db)) req.

Definition deploymentRepo_ListByCluster `{CursorJSON} (clusterID : string) (req : PageRequest)
    : DBM (Page Deployment) :=
  List_ dep_cursor
    (λ o db, rows_where (λ d, visible o (d_org d) && String.eqb (d_cluster d) clusterID &&
                              not_deleted d) (t_deps db)) req.

Definition deploymentRepo_ListByOrg `{CursorJSON} (req : PageRequest) : DBM (Page Deployment) :=
  List_ dep_cursor (λ o db, rows_where (λ d, visible o (d_org d) && not_deleted d) (t_deps db)) req.

Definition deploymentRepo_ListAllActive : DBM (list Deployment) :=
  QueryAll (λ o db,
    order_desc dep_cursor (rows_where (λ d, visible o (d_org d) && not_deleted d) (t_deps db))).

(** The SET list names neither the status nor the ready replicas. *)
Definition update_deployment (d : Deployment) (o : string) (now : Z) (db : DB)
    : string + nat * DB :=
  match row_at d_org o (d_id d) (t_deps db) with
  | Some r =>
      if d_version r =? d_version d then
        let r' := mkDep (d_id r) (d_created r) now (d_version r + 1) (d_org r) (d_app r)
                    (d_cluster r) (d_image d) (d_replicas d) (d_cpu_request d) (d_cpu_limit d)
                    (d_memory_request d) (d_memory_limit d) (d_port d) (d_env d) (d_status r)
                    (d_ready r) (d_replicas d) (d_created_by r) in
        inr (1%nat, set_deps (<[d_id r := r']> (t_deps db)) db)
      else inr (0%nat, db)
  | None => inr (0%nat, db)
  end.

Definition deploymentRepo_Update (d : Deployment) : DBM Deployment :=
  let* n := Exec (update_deployment d) in
  let* _ := require_rows n ErrOptimisticLock in
  ret (mkDep (d_id d) (d_created d) (d_updated d) (d_version d + 1) (d_org d) (d_app d)
         (d_cluster d) (d_image d) (d_replicas d) (d_cpu_request d) (d_cpu_limit d)
         (d_memory_request d) (d_memory_limit d) (d_port d) (d_env d) (d_status d)
         (d_ready d) (d_replicas d) (d_created_by d)).

Definition with_status (status : string) (ready : option Z) (now : Z) (r : Deployment)
    : Deployment :=
  mkDep (d_id r) (d_created r) now (d_version r + 1) (d_org r) (d_app r) (d_cluster r)
    (d_image r) (d_replicas r) (d_cpu_request r) (d_cpu_limit r) (d_memory_request r)
    (d_memory_limit r) (d_port r) (d_env r) status (default (d_ready r) ready) (d_desired r)
    (d_created_by r).

Definition update_deployment_status (id status : string) (ready : option Z)
    (o : string) (now : Z) (db : DB) : string + nat * DB :=
  match row_at d_org o id (t_deps db) with
  | Some r => inr (1%nat, set_deps (<[d_id r := with_status status ready now r]> (t_deps db)) db)
  | None => inr (0%nat, db)
  end.

(** The error message is accepted and not stored. *)
Definition deploymentRepo_UpdateStatus (id status : string) (ready : option Z)
    (errorMsg : option string) : DBM unit :=
  let* n := Exec (update_deployment_status id status ready) in
  require_rows n (NotFound "deployment not found").

Definition delete_deployment (id : string) (o : string) (now : Z) (db : DB)
    : string + nat * DB :=
  match row_at d_org o id (t_deps db) with
  | None => inr (0%nat, db)
  | Some _ =>
      match delete_deployments (λ d, String.eqb (d_id d) id) db with
      | inl code => inl code
      | inr db' => inr (1%nat, db')
      end
  end.

Definition deploymentRepo_Delete (id : string) : DBM unit :=
  let* n := Exec (delete_deployment id) in
  require_rows n (NotFound "deployment not found").

Definition deploymentRepo_SoftDelete (id : string) : DBM unit :=
  let* n := Exec (update_deployment_status id StatusDeleted None) in
  require_rows n (NotFound "deployment not found").

(** ** repository.go: releases *)

(** The BEFORE UPDATE branch of [prevent_release_modification]. *)
Definition release_update_allowed (old new : Release) : Prop :=
  r_revision old = r_revision new ∧ r_image old = r_image new ∧ r_config old = r_config new.

Definition insert_release (r : Release) (o : string) (now : Z) (db : DB)
    : string + Release * DB :=
  if negb (visible o (r_org r)) then inl rls_violation
  else if match r_config r with None => true | _ => false end then inl sqlStateNotNullViolation
  else if bool_decide (is_Some (t_rels db !! r_id r)) ||
       existsb (λ q, String.eqb (r_dep q) (r_dep r) && (r_revision q =? r_revision r))
         (rows_where (λ _, true) (t_rels db))
  then inl sqlStateUniqueViolation
  else if negb (bool_decide (r_org r ∈ t_orgs db)) ||
          negb (bool_decide (is_Some (t_deps db !! r_dep r)))
  then inl sqlStateForeignKeyViolation
  else
    let stamp started finished error :=
      mkRel (r_id r) (r_org r) (r_dep r) (r_revision r) (r_image r) (r_replicas r) (r_hash r)
        (r_config r) (r_status r) started finished error (r_created_by r) now in
    inr (stamp (r_started r) (r_finished r) (r_error r),
         set_rels (<[r_id r := stamp None None None]> (t_rels db)) db).

Definition releaseRepo_Create (r : Release) : DBM Release :=
  let* id := (if String.eqb (r_id r) "" then uuid_NewString else ret (r_id r)) in
  let status := if String.eqb (r_status r) "" then ReleaseStatusPending else r_status r in
  let r := mkRel id (r_org r) (r_dep r) (r_revision r) (r_image r) (r_replicas r) (r_hash r)
             (r_config r) status (r_started r) (r_finished r) (r_error r) (r_created_by r)
             (r_created r) in
  on_err (stmt (insert_release r)) MapError.

Definition releaseRepo_GetByID (id : string) : DBM Release :=
  QueryOne (λ o db, option_list (row_at r_org o id (t_rels db))).

Definition releases_of (o depID : string) (db : DB) : list Release :=
  rows_where (λ r, visible o (r_org r) && String.eqb (r_dep r) depID) (t_rels db).

Definition releaseRepo_GetByRevision (depID : string) (revision : Z) : DBM Release :=
  QueryOne (λ o db, filter (λ r, r_revision r = revision) (releases_of o depID db)).

(** ORDER BY revision DESC. *)
Definition newer (r1 r2 : Release) : Prop := r_revision r2 ≤ r_revision r1.
#[export] Instance newer_dec r1 r2 : Decision (newer r1 r2).
Proof. unfold newer. apply _. Defined.
Definition by_revision (l : list Release) : list Release := merge_sort newer l.

Definition releaseRepo_GetLatest (depID : string) : DBM Release :=
  QueryOne (λ o db, take 1 (by_revision (releases_of o depID db))).

Definition releaseRepo_GetPreviousSuccessful (depID : string) (beforeRevision : Z)
    : DBM Release :=
  QueryOne (λ o db,
    take 1 (by_revision
      (filter (λ r, r_revision r < beforeRevision ∧ r_status r = ReleaseStatusSucceeded)
         (releases_of o depID db)))).

(** The cursor of the request is not read; [NextCursor] is an id. *)
Definition releaseRepo_List (depID : string) (req : PageRequest) : DBM (Page Release) :=
  let req := Normalize req in
  let* items := QueryAll (λ o db,
    take (Z.to_nat (Limit req + 1)) (by_revision (releases_of o depID db))) in
  ret (if Limit req <? Z.of_nat (length items)
       then mkPage (take (Z.to_nat (Limit req)) items)
              (match items !! Z.to_nat (Limit req - 1) with Some r => r_id r | None => "" end)
       else mkPage items "").

(** An UPDATE of the release with a given id. *)
Definition update_release (id : string) (f : Release → Release) (o : string) (now : Z) (db : DB)
    : string + nat * DB :=
  match row_at r_org o id (t_rels db) with
  | Some r =>
      if bool_decide (r_revision r = r_revision (f r)) && String.eqb (r_image r) (r_image (f r))
      then inr (1%nat, set_rels (<[r_id r := f r]> (t_rels db)) db)
      else inl raise_exception
  | None => inr (0%nat, db)
  end.

Definition rel_with (status : string) (started finished : option Z) (error : option string)
    (r : Release) : Release :=
  mkRel (r_id r) (r_org r) (r_dep r) (r_revision r) (r_image r) (r_replicas r) (r_hash r)
    (r_config r) status started finished error (r_created_by r) (r_created r).

Definition releaseRepo_UpdateStatus (id status : string) (errorMsg : option string)
    : DBM unit :=
  let* n := Exec (λ o now, update_release id
                    (λ r, rel_with status (r_started r) (r_finished r) errorMsg r) o now) in
  require_rows n (NotFound "release not found").

Definition releaseRepo_MarkStarted (id : string) : DBM unit :=
  let* n := Exec (λ o now, update_release id
                    (λ r, rel_with ReleaseDeploying (Some now) (r_finished r) (r_error r) r) o now) in
  require_rows n (NotFound "release not found").

Definition releaseRepo_MarkFinished (id status : string) (errorMsg : option string)
    : DBM unit :=
  let* n := Exec (λ o now, update_release id
                    (λ r, rel_with status (r_started r) (Some now) errorMsg r) o now) in
  require_rows n (NotFound "release not found").

(** ** repository.go: processed events *)
Definition insert_processed (consumer eventID orgID : string) (o : string) (now : Z) (db : DB)
    : string + nat * DB :=
  if negb (visible o orgID) then inl rls_violation
  else
    match t_processed db !! (consumer, eventID) with
    | Some _ => inr (0%nat, db)
    | None =>
        if negb (bool_decide (orgID ∈ t_orgs db)) then inl sqlStateForeignKeyViolation
        else inr (1%nat, set_processed (<[(consumer, eventID) := orgID]> (t_processed db)) db)
    end.

Definition processedEventRepo_MarkProcessed (consumer eventID orgID : string) : DBM bool :=
  let* n := Exec (insert_processed consumer eventID orgID) in
  ret (0 <? Z.of_nat n).

(** ** rollout.go: RolloutStatusStore *)
Definition upsert_rollout (rs : RolloutStatus) (o : string) (now : Z) (db : DB)
    : string + RolloutStatus * DB :=
  let k := (rs_dep rs, rs_rel rs) in
  let row org started is_rollback :=
    mkRollout (rs_dep rs) (rs_rel rs) org (rs_phase rs) (rs_revision rs) (rs_image rs)
      (rs_desired rs) (rs_ready rs) (rs_updated rs) (rs_available rs) (rs_unavailable rs)
      (rs_observed rs) (rs_percentage rs) (rs_conditions rs) (rs_error rs) is_rollback
      started now in
  if negb (visible o (rs_org rs)) then inl rls_violation
  else
    match t_rollouts db !! k with
    | Some old =>
        if negb (visible o (rs_org old)) then inl rls_violation
        else
          let flag := rs_is_rollback old || rs_is_rollback rs in
          inr (row (rs_org rs) (rs_started_at old) flag,
               set_rollouts (<[k := row (rs_org old) (rs_started_at old) flag]> (t_rollouts db)) db)
    | None =>
        if negb (bool_decide (rs_org rs ∈ t_orgs db)) ||
           negb (bool_decide (is_Some (t_deps db !! rs_dep rs))) ||
           negb (bool_decide (is_Some (t_rels db !! rs_rel rs)))
        then inl sqlStateForeignKeyViolation
        else
          let r := row (rs_org rs) now (rs_is_rollback rs) in
          inr (r, set_rollouts (<[k := r]> (t_rollouts db)) db)
    end.

Definition rolloutStatusRepo_Upsert (rs : RolloutStatus) : DBM RolloutStatus :=
  let phase := if String.eqb (rs_phase rs) "" then RolloutPhasePending else rs_phase rs in
  let conditions := match rs_conditions rs with Some j => Some j | None => Some (JArr []) end in
  let rs := mkRollout (rs_dep rs) (rs_rel rs) (rs_org rs) phase (rs_revision rs) (rs_image rs)
              (rs_desired rs) (rs_ready rs) (rs_updated rs) (rs_available rs)
              (rs_unavailable rs) (rs_observed rs) (rs_percentage rs) conditions (rs_error rs)
              (rs_is_rollback rs) (rs_started_at rs) (rs_updated_at rs) in
  on_err (stmt (upsert_rollout rs)) MapError.

Definition rolloutStatusRepo_Get (depID relID : string) : DBM RolloutStatus :=
  QueryOne (λ o db, option_list (row_at rs_org o (depID, relID) (t_rollouts db))).

(** ** argocd_repository.go: ArgoApplicationStore *)

(** The desired fields of [a] with the observed ones of [b]. *)
Definition argo_row (org : string) (created updated : Z) (a b : ArgoApplication)
    : ArgoApplication :=
  mkArgo (ar_dep a) org (ar_app_name a) (ar_project a) (ar_repo a) (ar_path a) (ar_revision a)
    (ar_source_type a) (ar_dest_server a) (ar_dest_namespace a) (ar_auto_sync a)
    (ar_self_heal a) (ar_prune a) (ar_sync_status b) (ar_health_status b)
    (ar_operation_phase b) (ar_synced_revision b) (ar_drift b) (ar_observed b)
    created updated.

(** The columns an INSERT leaves to their defaults. *)
Definition never_observed (a : ArgoApplication) : ArgoApplication :=
  mkArgo (ar_dep a) (ar_org a) (ar_app_name a) (ar_project a) (ar_repo a) (ar_path a)
    (ar_revision a) (ar_source_type a) (ar_dest_server a) (ar_dest_namespace a)
    (ar_auto_sync a) (ar_self_heal a) (ar_prune a) "Unknown" "Unknown" "" "" false None
    (ar_created a) (ar_updated a).

(** UNIQUE (org_id, app_name). *)
Definition argo_name_taken (org name dep : string) (db : DB) : bool :=
  existsb (λ b, String.eqb (ar_org b) org && String.eqb (ar_app_name b) name &&
                negb (String.eqb (ar_dep b) dep))
    (rows_where (λ _, true) (t_argo db)).

(** The struct gets the row's times; its observed fields stay its own. *)
Definition upsert_argo (a : ArgoApplication) (o : string) (now : Z) (db : DB)
    : string + ArgoApplication * DB :=
  let put row := set_argo (<[ar_dep a := row]> (t_argo db)) db in
  if negb (visible o (ar_org a)) then inl rls_violation
  else
    match t_argo db !! ar_dep a with
    | Some old =>
        if negb (visible o (ar_org old)) then inl rls_violation
        else if argo_name_taken (ar_org old) (ar_app_name a) (ar_dep a) db
        then inl sqlStateUniqueViolation
        else inr (argo_row (ar_org a) (ar_created old) now a a,
                  put (argo_row (ar_org old) (ar_created old) now a old))
    | None =>
        if argo_name_taken (ar_org a) (ar_app_name a) (ar_dep a) db
        then inl sqlStateUniqueViolation
        else if negb (bool_decide (ar_org a ∈ t_orgs db)) ||
                negb (bool_decide (is_Some (t_deps db !! ar_dep a)))
        then inl sqlStateForeignKeyViolation
        else inr (argo_row (ar_org a) now now a a,
                  put (argo_row (ar_org a) now now a (never_observed a)))
    end.

(** [if a.Project == "" { a.Project = "default" }] and so on. *)
Definition argo_defaults (a : ArgoApplication) : ArgoApplication :=
  let or s d := if String.eqb s "" then d else s in
  mkArgo (ar_dep a) (ar_org a) (ar_app_name a) (or (ar_project a) "default"%string) (ar_repo a)
    (or (ar_path a) "."%string) (or (ar_revision a) "HEAD"%string)
    (or (ar_source_type a) SourceTypeDirectory)
    (or (ar_dest_server a) "https://kubernetes.default.svc"%string) (ar_dest_namespace a)
    (ar_auto_sync a) (ar_self_heal a) (ar_prune a) (ar_sync_status a) (ar_health_status a)
    (ar_operation_phase a) (ar_synced_revision a) (ar_drift a) (ar_observed a)
    (ar_created a) (ar_updated a).

Definition argoAppRepo_Upsert (a : ArgoApplication) : DBM ArgoApplication :=
  on_err (stmt (upsert_argo (argo_defaults a))) MapError.

Definition argoAppRepo_Get (depID : string) : DBM ArgoApplication :=
  QueryOne (λ o db, option_list (row_at ar_org o depID (t_argo db))).

Definition argoAppRepo_GetByAppName (name : string) : DBM ArgoApplication :=
  QueryOne (λ o db, rows_where (λ a, visible o (ar_org a) && String.eqb (ar_app_name a) name)
                      (t_argo db)).

(** [a] observed at [now]. *)
Definition observed_at (now : Z) (a : ArgoApplication) : ArgoApplication :=
  mkArgo (ar_dep a) (ar_org a) (ar_app_name a) (ar_project a) (ar_repo a) (ar_path a)
    (ar_revision a) (ar_source_type a) (ar_dest_server a) (ar_dest_namespace a)
    (ar_auto_sync a) (ar_self_heal a) (ar_prune a) (ar_sync_status a) (ar_health_status a)
    (ar_operation_phase a) (ar_synced_revision a) (ar_drift a) (Some now) (ar_created a) now.

Definition update_observed (a : ArgoApplication) (o : string) (now : Z) (db : DB)
    : string + option ArgoApplication * DB :=
  match row_at ar_org o (ar_dep a) (t_argo db) with
  | Some old =>
      let row := observed_at now (argo_row (ar_org old) (ar_created old) now old a) in
      inr (Some (observed_at now a), set_argo (<[ar_dep a := row]> (t_argo db)) db)
  | None => inr (None, db)
  end.

Definition argoAppRepo_UpdateObserved (a : ArgoApplication) : DBM ArgoApplication :=
  on_err
    (let* row := stmt (update_observed a) in
     match row with Some a => ret a | None => fail NoRows end)
    MapError.

Definition delete_argo (depID : string) (o : string) (now : Z) (db : DB) : string + nat * DB :=
  match row_at ar_org o depID (t_argo db) with
  | Some _ => inr (1%nat, set_argo (delete depID (t_argo db)) db)
  | None => inr (0%nat, db)
  end.

Definition argoAppRepo_Delete (depID : string) : DBM unit :=
  let* _ := Exec (delete_argo depID) in ret tt.

(** ** libs/events/outbox.go *)
#[export] Instance DB_outbox : OutboxTable DB payload :=
  {| outbox_rows := t_outbox; set_outbox_rows := set_outbox |}.
