(* ===== verification/DeploymentService.v ===== *)
(** * The deployment service

    services/deployment/internal/service.go (the [Service] methods: every one
    authorizes the caller, then runs one tenant transaction), [enqueue] of
    events.go and the user-facing handlers of handlers.go.  The methods return
    the error alone when they fail (the Go code also returns partial values,
    which its callers ignore).  [time.Now] and [now()] are one clock.  A
    transaction retried after a serialization failure draws fresh identifiers,
    where the Go closure may reuse those of the failed attempt. *)

From S2P Require Import Prelude Json AppErrors Tx Events Domain Pagination Authz Store.
From S2P Require Export Http.
Open Scope Z_scope.
Open Scope tx_scope.

(** ** events.go: [enqueue] *)
Definition enqueue (eventType orgID : string) (p : payload) (opts : list (@Option_ payload))
    : DBM unit :=
  let* e := events_New eventType eventVersion orgID p opts in
  PostgresOutbox_Enqueue e.

Definition user_on (userID rtype id : string) : list (@Option_ payload) :=
  [WithActor (mkActor "user" userID); WithResource (mkResource rtype id)].
Definition on_deployment (id : string) : list (@Option_ payload) :=
  [WithResource (mkResource "deployment" id)].

(** ** Release configurations *)

(** The map [CreateDeployment] and [UpdateDeployment] marshal, its keys in the
    order [json.Marshal] writes them. *)
Definition release_config (d : Deployment) (env : json) : json :=
  JObj [("cpuLimit"%string, jopt_str (d_cpu_limit d));
        ("cpuRequest"%string, jopt_str (d_cpu_request d));
        ("envVars"%string, env);
        ("image"%string, JStr (d_image d));
        ("memoryLimit"%string, jopt_str (d_memory_limit d));
        ("memoryRequest"%string, jopt_str (d_memory_request d));
        ("port"%string, jopt_num (d_port d));
        ("replicas"%string, JNum (d_replicas d))].

(** A release of the given revision, pending. *)
Definition new_release (orgID depID : string) (revision : Z) (image : string) (replicas : Z)
    (hash : string) (config : RawMessage) (createdBy : option string) : Release :=
  mkRel "" orgID depID revision image replicas hash config ReleaseStatusPending
    None None None createdBy 0.

(** [json.Unmarshal(config, &map[string]any)]. *)
Definition unmarshal_object (config : RawMessage) : DBM unit :=
  match config with
  | None => fail (Plain "unexpected end of JSON input")
  | Some (JObj _) | Some JNull => ret tt
  | Some _ => fail (Plain "json: cannot unmarshal into Go value of type map[string]interface")
  end.

Section Service.
Context `{CursorJSON}.

(** [NewAuthorizationService(..., nil)] uses the default policy. *)
Definition authorize_deploy (orgID userID : string) : DBM string :=
  AuthorizeOrgMember NewPolicyAuthorizer orgID userID ActionDeploy.

(** ** Applications *)
Definition Service_CreateApplication (orgID projectID userID : string)
    (req : CreateApplicationRequest) : DBM Application :=
  let* _ := authorize_deploy orgID userID in
  let name := GoStrings.TrimSpace (ca_name req) in
  let* _ := check (validateName name) in
  let slug := GoStrings.ToLower (GoStrings.TrimSpace (ca_slug req)) in
  if negb (slugPattern slug)
  then fail (Validation "slug must be 2-64 chars of lowercase letters, digits, or hyphens")
  else
    let runtime := if String.eqb (ca_runtime req) "" then RuntimeContainer else ca_runtime req in
    if negb (one_of runtime [RuntimeContainer; RuntimeFunction; RuntimeJob])
    then fail (Validation "runtime type must be container, function, or job")
    else
      let app := mkApp "" 0 0 0 orgID projectID name slug (ca_desc req) runtime (Some userID) in
      WithTenant orgID (
        let* app := on_err (applicationRepo_Create app)
          (λ e, if String.eqb (from_code e) CodeConflict then errSlugTaken else e) in
        enqueue EventApplicationCreated orgID
          (applicationCreatedPayload (a_id app) projectID (a_name app) (a_slug app)
             (a_runtime app) userID)
          (user_on userID "application" (a_id app)) ;;
        ret app).

Definition Service_GetApplication (orgID userID appID : string) : DBM Application :=
  let* _ := AuthorizeOrgRead orgID userID in
  WithTenant orgID (applicationRepo_GetByID appID).

Definition Service_ListApplications (orgID userID projectID : string) (page : PageRequest)
    : DBM (Page Application) :=
  let* _ := AuthorizeOrgRead orgID userID in
  WithTenant orgID (applicationRepo_List projectID page).

Definition Service_UpdateApplication (orgID userID appID : string)
    (req : UpdateApplicationRequest) : DBM Application :=
  let* _ := authorize_deploy orgID userID in
  WithTenant orgID (
    let* app := applicationRepo_GetByID appID in
    let* name :=
      match ua_name req with
      | Some n => let name := GoStrings.TrimSpace n in check (validateName name) ;; ret name
      | None => ret (a_name app)
      end in
    let desc := match ua_desc req with Some d => Some d | None => a_desc app end in
    let* app := applicationRepo_Update
      (mkApp (a_id app) (a_created app) (a_updated app) (a_version app) (a_org app)
         (a_project app) name (a_slug app) desc (a_runtime app) (a_created_by app)) in
    enqueue EventApplicationUpdated orgID
      (applicationUpdatedPayload (a_id app) (a_name app) userID)
      (user_on userID "application" (a_id app)) ;;
    ret app).

Definition Service_DeleteApplication (orgID userID appID : string) : DBM unit :=
  let* _ := authorize_deploy orgID userID in
  WithTenant orgID (
    applicationRepo_Delete appID ;;
    enqueue EventApplicationDeleted orgID (applicationDeletedPayload appID userID)
      (user_on userID "application" appID)).

(** ** Deployments *)

(** The checks and the transaction of [CreateDeployment]. *)
Definition create_deployment (orgID userID : string) (req : CreateDeploymentRequest)
    : DBM (Deployment * Release) :=
  let* _ := authorize_deploy orgID userID in
  if String.eqb (GoStrings.TrimSpace (cd_image req)) "" then fail errInvalidImage
  else if cd_replicas req <? 1 then fail errInvalidReplicas
  else
    let dep := mkDep "" 0 0 0 orgID (cd_app req) (cd_cluster req) (cd_image req)
                 (cd_replicas req) (cd_cpu_request req) (cd_cpu_limit req)
                 (cd_memory_request req) (cd_memory_limit req) (cd_port req)
                 (Some (encode_env (default [] (cd_env req)))) StatusPending 0 0
                 (Some userID) in
    WithTenant orgID (
      let* _ := on_err (applicationRepo_GetByID (cd_app req))
        (λ e, if IsNotFound e then errAppNotFound else e) in
      let* dep := deploymentRepo_Create dep in
      let config := Some (release_config dep
        (match cd_env req with Some l => encode_env l | None => JNull end)) in
      let* rel := releaseRepo_Create
        (new_release orgID (d_id dep) 1 (d_image dep) (d_replicas dep) (hashConfig config)
           config (Some userID)) in
      enqueue EventDeploymentCreated orgID
        (deploymentCreatedPayload (d_id dep) (d_app dep) (d_cluster dep) (d_image dep)
           (d_replicas dep) 1 userID)
        (user_on userID "deployment" (d_id dep)) ;;
      ret (dep, rel)).

(** [ArgoRegistrar]: [RegisterApplication] of an organization, a user and a
    deployment ([Argo] has the one the server is built with). *)
Definition ArgoRegistrar : Type := string → string → string → GitOpsSource → DBM ArgoApplication.

(** A failure of the optional registrar is only logged. *)
Definition Service_CreateDeployment (argo : option ArgoRegistrar)
    (orgID userID : string) (req : CreateDeploymentRequest) : DBM (Deployment * Release) :=
  let* dr := create_deployment orgID userID req in
  let* _ :=
    match cd_gitops req, argo with
    | Some src, Some reg => let* _ := try (reg orgID userID (d_id dr.1) src) in ret tt
    | _, _ => ret tt
    end in
  ret dr.

(** An error of [GetLatest] is dropped inside the transaction. *)
Definition Service_GetDeployment (orgID userID depID : string)
    : DBM (Deployment * option Z) :=
  let* _ := AuthorizeOrgRead orgID userID in
  WithTenant orgID (
    let* dep := deploymentRepo_GetByID depID in
    let* rel := try (releaseRepo_GetLatest depID) in
    ret (dep, match rel with Ok r => Some (r_revision r) | Err _ => None end)).

Definition Service_ListDeployments (orgID userID appID : string) (page : PageRequest)
    : DBM (Page Deployment) :=
  let* _ := AuthorizeOrgRead orgID userID in
  WithTenant orgID (deploymentRepo_List appID page).

Definition Service_ListDeploymentsByCluster (orgID userID clusterID : string)
    (page : PageRequest) : DBM (Page Deployment) :=
  let* _ := AuthorizeOrgRead orgID userID in
  WithTenant orgID (deploymentRepo_ListByCluster clusterID page).

Definition Service_ListOrgDeployments (orgID userID : string) (page : PageRequest)
    : DBM (Page Deployment) :=
  let* _ := AuthorizeOrgRead orgID userID in
  WithTenant orgID (deploymentRepo_ListByOrg page).

Definition Service_DeleteDeployment (orgID userID depID : string) : DBM unit :=
  let* _ := authorize_deploy orgID userID in
  WithTenant orgID (
    let* dep := deploymentRepo_GetByID depID in
    deploymentRepo_SoftDelete depID ;;
    enqueue EventDeploymentDeleted orgID (deploymentDeletedPayload depID (d_app dep) userID)
      (user_on userID "deployment" depID)).

(** [if o != nil { v = o }]. *)
Definition set_if {A} (o v : option A) : option A :=
  match o with Some x => Some x | None => v end.

(** The fields of the request that are present replace the deployment's. *)
Definition apply_update (req : UpdateDeploymentRequest) (d : Deployment)
    : result goerr Deployment :=
  let image := default (d_image d) (ud_image req) in
  let replicas :=
    match ud_replicas req with
    | Some n => if n <? 1 then Err errInvalidReplicas else Ok n
    | None => Ok (d_replicas d)
    end in
  result_map (λ replicas,
    mkDep (d_id d) (d_created d) (d_updated d) (d_version d) (d_org d) (d_app d) (d_cluster d)
      image replicas
      (set_if (ud_cpu_request req) (d_cpu_request d)) (set_if (ud_cpu_limit req) (d_cpu_limit d))
      (set_if (ud_memory_request req) (d_memory_request d))
      (set_if (ud_memory_limit req) (d_memory_limit d))
      (set_if (ud_port req) (d_port d))
      (match ud_env req with Some l => Some (encode_env l) | None => d_env d end)
      (d_status d) (d_ready d) (d_desired d) (d_created_by d)) replicas.

Definition lift {A} (r : result goerr A) : DBM A :=
  match r with Ok a => ret a | Err e => fail e end.

Definition Service_UpdateDeployment (orgID userID depID : string)
    (req : UpdateDeploymentRequest) : DBM (Deployment * Release) :=
  let* _ := authorize_deploy orgID userID in
  WithTenant orgID (
    let* dep := deploymentRepo_GetByID depID in
    let* dep := lift (apply_update req dep) in
    let* dep := deploymentRepo_Update dep in
    let* latest := try (releaseRepo_GetLatest depID) in
    let nextRevision := match latest with Ok r => r_revision r + 1 | Err _ => 1 end in
    let config := Some (release_config dep (default JNull (d_env dep))) in
    let* rel := releaseRepo_Create
      (new_release orgID depID nextRevision (d_image dep) (d_replicas dep)
         (hashConfig config) config (Some userID)) in
    enqueue EventDeploymentCreated orgID
      (deploymentCreatedPayload (d_id dep) (d_app dep) (d_cluster dep) (d_image dep)
         (d_replicas dep) nextRevision userID)
      (user_on userID "deployment" (d_id dep)) ;;
    ret (dep, rel)).

(** The deployment as a release describes it. *)
Definition retarget (image : string) (replicas : Z) (d : Deployment) : Deployment :=
  mkDep (d_id d) (d_created d) (d_updated d) (d_version d) (d_org d) (d_app d) (d_cluster d)
    image replicas (d_cpu_request d) (d_cpu_limit d) (d_memory_request d) (d_memory_limit d)
    (d_port d) (d_env d) StatusPending (d_ready d) (d_desired d) (d_created_by d).

Definition Service_Rollback (orgID userID depID : string) (req : RollbackRequest)
    : DBM (Deployment * Release) :=
  let* _ := authorize_deploy orgID userID in
  WithTenant orgID (
    let* dep := deploymentRepo_GetByID depID in
    let* latest := releaseRepo_GetLatest depID in
    let* target :=
      match rb_target req with
      | Some rev => on_err (releaseRepo_GetByRevision depID rev) (λ _, errReleaseNotFound)
      | None => on_err (releaseRepo_GetPreviousSuccessful depID (r_revision latest))
                  (λ _, errNoRollbackTarget)
      end in
    unmarshal_object (r_config target) ;;
    let* dep := deploymentRepo_Update (retarget (r_image target) (r_replicas target) dep) in
    let* rel := releaseRepo_Create
      (new_release orgID depID (r_revision latest + 1) (r_image target) (r_replicas target)
         (r_hash target) (r_config target) (Some userID)) in
    enqueue EventDeploymentRollback orgID
      (deploymentRollbackPayload depID (r_revision latest) (r_revision target) userID)
      (user_on userID "deployment" depID) ;;
    ret (dep, rel)).

(** ** Status updates *)
Definition Service_MarkDeploymentStarted (orgID userID depID releaseID : string) : DBM unit :=
  let* _ := authorize_deploy orgID userID in
  WithTenant orgID (
    let* rel := releaseRepo_GetByID releaseID in
    releaseRepo_MarkStarted releaseID ;;
    deploymentRepo_UpdateStatus depID StatusRunning None None ;;
    enqueue EventDeploymentStarted orgID
      (deploymentStartedPayload depID releaseID (r_revision rel) (r_image rel))
      (on_deployment depID)).

Definition Service_MarkDeploymentSucceeded (orgID userID depID releaseID : string)
    (readyReplicas : Z) : DBM unit :=
  let* _ := authorize_deploy orgID userID in
  WithTenant orgID (
    let* rel := releaseRepo_GetByID releaseID in
    releaseRepo_MarkFinished releaseID ReleaseStatusSucceeded None ;;
    deploymentRepo_UpdateStatus depID StatusSucceeded (Some readyReplicas) None ;;
    enqueue EventDeploymentSucceeded orgID
      (deploymentSucceededPayload depID releaseID (r_revision rel) readyReplicas)
      (on_deployment depID)).

Definition Service_MarkDeploymentFailed (orgID userID depID releaseID errorMsg : string)
    : DBM unit :=
  let* _ := authorize_deploy orgID userID in
  WithTenant orgID (
    let* rel := releaseRepo_GetByID releaseID in
    releaseRepo_MarkFinished releaseID ReleaseStatusFailed (Some errorMsg) ;;
    deploymentRepo_UpdateStatus depID StatusFailed None (Some errorMsg) ;;
    enqueue EventDeploymentFailed orgID
      (deploymentFailedPayload depID releaseID (r_revision rel) errorMsg)
      (on_deployment depID)).

(** ** Releases *)
Definition Service_ListReleases (orgID userID depID : string) (page : PageRequest)
    : DBM (Page Release) :=
  let* _ := AuthorizeOrgRead orgID userID in
  WithTenant orgID (releaseRepo_List depID page).

Definition Service_GetRelease (orgID userID releaseID : string) : DBM Release :=
  let* _ := AuthorizeOrgRead orgID userID in
  WithTenant orgID (releaseRepo_GetByID releaseID).
End Service.
