(* ===== verification/Argo.v ===== *)
(** * The Argo CD integration of the deployment service

    services/deployment/internal: argocd_translate.go (the Application of a
    binding, phases of statuses), argocd_service.go ([ArgoService]: register,
    sync, roll back, read a binding), argocd_monitor.go (mirrors what Argo CD
    reports onto the bindings and rollouts) and the types and retries of
    libs/argocd.  The Argo CD server is outside: [ArgoClient] gives its answers,
    any answers.  Metrics, traces and logs are left out. *)

From S2P Require Import Prelude Json AppErrors Tx Events Domain Pagination Authz Store.
From S2P Require Import DeploymentService.
Open Scope Z_scope.
Open Scope tx_scope.

(** ** libs/argocd *)
Module argocd.
Definition SyncStatusSynced : string := "Synced".
Definition SyncStatusOutOfSync : string := "OutOfSync".
Definition SyncStatusUnknown : string := "Unknown".
Definition HealthStatusHealthy : string := "Healthy".
Definition HealthStatusProgressing : string := "Progressing".
Definition HealthStatusDegraded : string := "Degraded".
Definition HealthStatusSuspended : string := "Suspended".
Definition HealthStatusMissing : string := "Missing".
Definition HealthStatusUnknown : string := "Unknown".
Definition OperationRunning : string := "Running".
Definition OperationSucceeded : string := "Succeeded".
Definition OperationFailed : string := "Failed".
Definition OperationError : string := "Error".
Definition OperationTerminating : string := "Terminating".
Definition ResourcesFinalizer : string := "resources-finalizer.argocd.argoproj.io".

(** The fields the service writes or reads. *)
Inductive SourceTool := Helm | Kustomize | Directory (recurse : bool).
Record ApplicationSource := mkSource {
  src_repo : string; src_path : string; src_revision : string; src_tool : SourceTool }.
Record SyncPolicy := mkPolicy {
  pol_prune : bool; pol_self_heal : bool; pol_options : list string;
  pol_retry_limit : Z; pol_backoff : string; pol_max_backoff : string }.
Record ResourceIgnoreDiff := mkIgnore {
  ig_group : string; ig_kind : string; ig_pointers : list string }.
Record ApplicationSpec := mkSpec {
  sp_project : string; sp_source : ApplicationSource; sp_server : string;
  sp_namespace : string; sp_policy : option SyncPolicy;
  sp_ignore : list ResourceIgnoreDiff; sp_history_limit : option Z }.
Record RevisionHistory := mkHistory { h_id : Z; h_revision : string }.
Record OperationState := mkOperation { op_phase : string; op_message : string }.
Record ApplicationStatus := mkStatus {
  st_sync : string; st_revision : string; st_health : string;
  st_operation : option OperationState; st_history : list RevisionHistory }.
Record Application := mkApplication {
  app_name : string; app_labels : gmap string string; app_annotations : gmap string string;
  app_finalizers : list string; app_spec : option ApplicationSpec;
  app_status : ApplicationStatus }.
Record SyncRequest := mkSync { sync_revision : string; sync_prune : bool }.

Definition OperationPhase (a : Application) : string :=
  match st_operation (app_status a) with Some o => op_phase o | None => "" end.
Definition SyncedRevision (a : Application) : string := st_revision (app_status a).

(** The loop of [FindHistoryID] over the entries, [best] the one found so far. *)
Fixpoint find_history (revision : string) (best : option Z) (l : list RevisionHistory)
    : option Z :=
  match l with
  | [] => best
  | h :: l =>
      find_history revision
        (if String.eqb (h_revision h) revision &&
            match best with None => true | Some b => b <? h_id h end
         then Some (h_id h) else best) l
  end.
Definition FindHistoryID (app : Application) (revision : string) : option Z :=
  find_history revision None (st_history (app_status app)).

(** Errors of the client: a 404, another status, or no answer. *)
Inductive client_error := ErrNotFound | APIError (status : Z) | TransportError.
Definition retryable (e : client_error) : bool :=
  match e with
  | APIError st => (500 <=? st) || (st =? 429)
  | TransportError => true
  | ErrNotFound => false
  end.

(** [RetryOperation] with the default options: three attempts; [fn] gives the
    outcome of each. *)
Fixpoint retry (attempts : nat) (n : nat) (fn : nat → option client_error)
    : option client_error :=
  match fn n with
  | None => None
  | Some e =>
      match attempts with
      | S (S _ as left) => if retryable e then retry left (S n) fn else Some e
      | _ => Some e
      end
  end.
Definition RetryOperation (fn : nat → option client_error) : option client_error := retry 3 1 fn.
End argocd.

(** The answers of the Argo CD server, of each attempt of a retried request. *)
Record ArgoClient := mkArgoClient {
  CreateApplication : argocd.Application → nat → option argocd.client_error;
  SyncApplication : string → argocd.SyncRequest → nat → option argocd.client_error;
  RollbackApplication : string → Z → nat → option argocd.client_error;
  GetApplication : string → argocd.client_error + argocd.Application;
  ListApplications : string → argocd.client_error + list argocd.Application }.

(** ** argocd_domain.go and argocd_translate.go *)
Definition LabelManagedBy : string := "app.kubernetes.io/managed-by".
Definition ManagedByValue : string := "bdsplatform".
Definition LabelOrgID : string := "bdsplatform.io/org-id".
Definition LabelDeploymentID : string := "bdsplatform.io/deployment-id".
Definition AnnotationDeployment : string := "bdsplatform.io/deployment".

Definition buildArgoApplication (a : ArgoApplication) : argocd.Application :=
  let tool :=
    if String.eqb (ar_source_type a) SourceTypeHelm then argocd.Helm
    else if String.eqb (ar_source_type a) SourceTypeKustomize then argocd.Kustomize
    else argocd.Directory true in
  let policy :=
    if ar_auto_sync a
    then Some (argocd.mkPolicy (ar_prune a) (ar_self_heal a)
                 ["CreateNamespace=true"; "ApplyOutOfSyncOnly=true"]%string 5 "5s" "3m")
    else None in
  argocd.mkApplication (ar_app_name a)
    {[LabelManagedBy := ManagedByValue; LabelOrgID := ar_org a; LabelDeploymentID := ar_dep a]}
    {[AnnotationDeployment := ar_dep a]} [argocd.ResourcesFinalizer]
    (Some (argocd.mkSpec (ar_project a)
       (argocd.mkSource (ar_repo a) (ar_path a) (ar_revision a) tool)
       (ar_dest_server a) (ar_dest_namespace a) policy
       [argocd.mkIgnore "apps" "Deployment" ["/spec/replicas"%string]] (Some 10)))
    (argocd.mkStatus "" "" "" None []).

Definition argoStatusToRolloutPhase (sync health phase : string) : string :=
  if one_of phase [argocd.OperationRunning; argocd.OperationTerminating]
  then RolloutPhaseRollingOut
  else if one_of phase [argocd.OperationFailed; argocd.OperationError] then RolloutPhaseFailed
  else if String.eqb health argocd.HealthStatusDegraded then RolloutPhaseFailed
  else if one_of health [argocd.HealthStatusMissing; argocd.HealthStatusUnknown] then
    if String.eqb sync argocd.SyncStatusSynced then RolloutPhaseReconciling
    else RolloutPhasePending
  else if String.eqb health argocd.HealthStatusProgressing then RolloutPhaseRollingOut
  else if String.eqb health argocd.HealthStatusSuspended then RolloutPhaseReconciling
  else if String.eqb health argocd.HealthStatusHealthy then
    if String.eqb sync argocd.SyncStatusSynced then RolloutPhaseHealthy
    else RolloutPhaseReconciling
  else RolloutPhaseReconciling.

Definition isSyncFailure (phase : string) : bool :=
  String.eqb phase argocd.OperationFailed || String.eqb phase argocd.OperationError.
Definition isSyncSuccess (phase : string) : bool := String.eqb phase argocd.OperationSucceeded.

(** [applyObserved]; the caller ignores whether anything changed. *)
Definition applyObserved (app : argocd.Application) (a : ArgoApplication) : ArgoApplication :=
  let st := argocd.app_status app in
  let drift :=
    String.eqb (argocd.st_sync st) argocd.SyncStatusOutOfSync ||
    String.eqb (argocd.st_health st) argocd.HealthStatusDegraded ||
    String.eqb (argocd.st_health st) argocd.HealthStatusMissing in
  mkArgo (ar_dep a) (ar_org a) (ar_app_name a) (ar_project a) (ar_repo a) (ar_path a)
    (ar_revision a) (ar_source_type a) (ar_dest_server a) (ar_dest_namespace a)
    (ar_auto_sync a) (ar_self_heal a) (ar_prune a)
    (argocd.st_sync st) (argocd.st_health st) (argocd.OperationPhase app)
    (argocd.SyncedRevision app) drift (ar_observed a) (ar_created a) (ar_updated a).

(** ** argocd_service.go *)
Definition argoUnavailable (msg : string) : goerr := NewWithStatus CodeInternal 502 msg.

Definition defaultString (v def : string) : string :=
  if String.eqb (GoStrings.TrimSpace v) "" then def else v.
Definition boolOrDefault (p : option bool) (def : bool) : bool := default def p.

(** [strings.ReplaceAll(id, "-", "")]. *)
Fixpoint without_dashes (s : string) : string :=
  match s with
  | EmptyString => EmptyString
  | String a s =>
      if Ascii.eqb a (Ascii.ascii_of_nat 45) then without_dashes s else String a (without_dashes s)
  end.

Definition argoAppName (slug depID : string) : string :=
  let short := GoStrings.take_str 8 (without_dashes depID) in
  let base := GoStrings.ToLower (GoStrings.TrimSpace slug) in
  let base := if String.eqb base "" then "app"%string else base in
  GoStrings.take_str 253 (base +:+ "-" +:+ short).

Definition buildRecord (orgID : string) (dep : Deployment) (app : Application)
    (src : GitOpsSource) : ArgoApplication :=
  let namespace := GoStrings.TrimSpace (go_dest_namespace src) in
  let namespace := if String.eqb namespace "" then a_slug app else namespace in
  let sourceType :=
    if String.eqb (go_source_type src) "" then SourceTypeDirectory else go_source_type src in
  let project := if String.eqb (go_project src) "" then "default"%string else go_project src in
  mkArgo (d_id dep) orgID (argoAppName (a_slug app) (d_id dep)) project
    (GoStrings.TrimSpace (go_repo src)) (defaultString (go_path src) ".")
    (defaultString (go_revision src) "HEAD") sourceType
    (defaultString (go_dest_server src) "https://kubernetes.default.svc") namespace
    (boolOrDefault (go_auto_sync src) true) (boolOrDefault (go_self_heal src) true)
    (boolOrDefault (go_prune src) true)
    "" "" "" "" false None 0 0.

(** The snapshot of the latest release of a binding's deployment. *)
Definition argo_snapshot (orgID phase : string) (record : ArgoApplication) (rel : Release)
    : RolloutStatus :=
  mkRollout (ar_dep record) (r_id rel) orgID phase (r_revision rel) (r_image rel)
    0 0 0 0 0 0 0 None None false 0 0.

(** [seedRollout], and [persistRolloutPhase] of the monitor: without a release
    there is nothing to write. *)
Definition write_phase (orgID phase : string) (record : ArgoApplication) : DBM unit :=
  let* rel := try (releaseRepo_GetLatest (ar_dep record)) in
  match rel with
  | Err _ => ret tt
  | Ok rel =>
      let* _ := rolloutStatusRepo_Upsert (argo_snapshot orgID phase record rel) in ret tt
  end.
Definition seedRollout (orgID : string) (record : ArgoApplication) : DBM unit :=
  write_phase orgID RolloutPhasePending record.

(** [emit] of the service and of the monitor: the actor is a system one. *)
Definition argo_emit (actor eventType orgID depID : string) (p : payload) : DBM unit :=
  enqueue eventType orgID p
    [WithActor (mkActor "system" actor); WithResource (mkResource "deployment" depID)].

Definition getBinding (depID : string) : DBM ArgoApplication :=
  on_err (argoAppRepo_Get depID) (λ e, if IsNotFound e then errArgoAppNotFound else e).

Section ArgoService.
Context (client : ArgoClient).

Definition ensureRemote (record : ArgoApplication) : option argocd.client_error :=
  argocd.RetryOperation (CreateApplication client (buildArgoApplication record)).

(** A failed remote operation is a 502. *)
Definition remote (outcome : option argocd.client_error) (msg : string) : DBM unit :=
  match outcome with Some _ => fail (argoUnavailable msg) | None => ret tt end.

Definition ArgoService_RegisterApplication (orgID userID depID : string) (src : GitOpsSource)
    : DBM ArgoApplication :=
  let* _ := authorize_deploy orgID userID in
  if String.eqb (GoStrings.TrimSpace (go_repo src)) "" then fail (Validation "repoUrl is required")
  else if negb (String.eqb (go_source_type src) "") && negb (ValidSourceType (go_source_type src))
  then fail (Validation "sourceType must be directory, helm, or kustomize")
  else
    let* record := WithTenant orgID (
      let* dep := on_err (deploymentRepo_GetByID depID)
        (λ e, if IsNotFound e then errDeploymentNotFound else e) in
      let* app := applicationRepo_GetByID (d_app dep) in
      argoAppRepo_Upsert (buildRecord orgID dep app src)) in
    let* _ := remote (ensureRemote record) "argo cd application create failed" in
    let* _ := try (WithTenant orgID (seedRollout orgID record)) in
    ret record.

Definition ArgoService_Sync (orgID userID depID : string) (req : ArgoSyncRequest)
    : DBM ArgoApplication :=
  let* _ := authorize_deploy orgID userID in
  let* record := WithTenant orgID (getBinding depID) in
  let* _ := remote (ensureRemote record) "argo cd application unavailable" in
  let prune := default (ar_prune record) (as_prune req) in
  let* _ := remote (argocd.RetryOperation
      (SyncApplication client (ar_app_name record) (argocd.mkSync (as_revision req) prune)))
    "argo cd sync failed" in
  ret record.

Definition resolveHistoryID (appName : string) (req : ArgoRollbackRequest) : result goerr Z :=
  match arb_history req with
  | Some id => Ok id
  | None =>
      match GetApplication client appName with
      | inl argocd.ErrNotFound => Err errArgoAppNotFound
      | inl _ => Err (argoUnavailable "argo cd unavailable")
      | inr app =>
          match argocd.FindHistoryID app (arb_revision req) with
          | Some id => Ok id
          | None => Err (Validation "no deploy history matches the requested revision")
          end
      end
  end.

Definition rollback_reason (revision : string) (id : Z) : string :=
  "argocd rollback to revision " +:+ revision +:+ " (history " +:+ GoStrings.Itoa id +:+ ")".

Definition ArgoService_Rollback (orgID userID depID : string) (req : ArgoRollbackRequest)
    : DBM ArgoApplication :=
  let* _ := authorize_deploy orgID userID in
  if String.eqb (arb_revision req) "" && match arb_history req with None => true | _ => false end
  then fail (Validation "revision or historyId is required")
  else
    let* record := WithTenant orgID (getBinding depID) in
    let* id := lift (resolveHistoryID (ar_app_name record) req) in
    let* _ := remote (argocd.RetryOperation (RollbackApplication client (ar_app_name record) id))
      "argo cd rollback failed" in
    let* _ := try (WithTenant orgID (
      argo_emit "deployment-gitops" EventDeploymentRollbackStarted orgID depID
        (deploymentRollbackStartedPayload depID "" 0 "" 0
           (rollback_reason (arb_revision req) id)))) in
    ret record.
End ArgoService.

Definition ArgoService_GetBinding (orgID userID depID : string) : DBM ArgoApplication :=
  let* _ := AuthorizeOrgRead orgID userID in
  WithTenant orgID (getBinding depID).

(** ** argocd_monitor.go *)
Definition monitor_emit (eventType orgID depID : string) (p : payload) : DBM unit :=
  argo_emit "deployment-gitops-monitor" eventType orgID depID p.

(** [transitionSnapshot]; its [sync] is never read. *)
Record transitionSnapshot := mkSnapshot {
  ts_health : string; ts_op : string; ts_drift : bool }.

Definition emit_operation (orgID depID : string) (app : argocd.Application)
    (record : ArgoApplication) : DBM unit :=
  let phase := ar_operation_phase record in
  if String.eqb phase argocd.OperationRunning then
    monitor_emit EventDeploymentSyncStarted orgID depID
      (deploymentSyncStartedPayload depID (ar_app_name record) (ar_dest_server record)
         (ar_dest_namespace record) (argocd.st_revision (argocd.app_status app)))
  else if isSyncSuccess phase then
    monitor_emit EventDeploymentSyncCompleted orgID depID
      (deploymentSyncCompletedPayload depID (ar_app_name record) (ar_synced_revision record)
         (ar_sync_status record) (ar_health_status record))
  else if isSyncFailure phase then
    monitor_emit EventDeploymentSyncFailed orgID depID
      (deploymentSyncFailedPayload depID (ar_app_name record)
         (argocd.st_revision (argocd.app_status app)) phase
         (match argocd.st_operation (argocd.app_status app) with
          | Some o => argocd.op_message o | None => "" end))
  else ret tt.

Definition when (b : bool) (m : DBM unit) : DBM unit := if b then m else ret tt.

Definition emitTransitions (orgID depID : string) (app : argocd.Application)
    (record : ArgoApplication) (prev : transitionSnapshot) : DBM unit :=
  let* _ := when (negb (String.eqb (ar_operation_phase record) (ts_op prev)))
    (emit_operation orgID depID app record) in
  let* _ := when (negb (String.eqb (ar_health_status record) (ts_health prev)))
    (monitor_emit EventDeploymentHealthChanged orgID depID
       (deploymentHealthChangedPayload depID (ar_app_name record) (ts_health prev)
          (ar_health_status record))) in
  when (ar_drift record && negb (ts_drift prev))
    (monitor_emit EventDeploymentDriftDetected orgID depID
       (deploymentDriftDetectedPayload depID (ar_app_name record) (ar_sync_status record)
          (ar_health_status record))).

Definition persistRolloutPhase (orgID : string) (record : ArgoApplication) : DBM unit :=
  write_phase orgID
    (argoStatusToRolloutPhase (ar_sync_status record) (ar_health_status record)
       (ar_operation_phase record)) record.

Definition monitor_reconcile (orgID depID : string) (app : argocd.Application) : DBM unit :=
  let* found := try (argoAppRepo_Get depID) in
  match found with
  | Err e => if IsNotFound e then ret tt else fail e
  | Ok record =>
      let prev :=
        match ar_observed record with
        | None => mkSnapshot "" "" (ar_drift record)
        | Some _ =>
            mkSnapshot (ar_health_status record) (ar_operation_phase record) (ar_drift record)
        end in
      let* record := argoAppRepo_UpdateObserved (applyObserved app record) in
      let* _ := persistRolloutPhase orgID record in
      emitTransitions orgID depID app record prev
  end.

(** One application of a cycle: the identity comes from its labels, an error is
    only logged. *)
Definition monitor_app (app : argocd.Application) : DBM unit :=
  let orgID := default ""%string (argocd.app_labels app !! LabelOrgID) in
  let depID := default ""%string (argocd.app_labels app !! LabelDeploymentID) in
  if String.eqb orgID "" || String.eqb depID "" then ret tt
  else let* _ := try (WithTenant orgID (monitor_reconcile orgID depID app)) in ret tt.

Fixpoint monitor_apps (apps : list argocd.Application) : DBM unit :=
  match apps with
  | [] => ret tt
  | app :: apps => let* _ := monitor_app app in monitor_apps apps
  end.

Definition monitor_cycle (client : ArgoClient) : DBM unit :=
  match ListApplications client (LabelManagedBy +:+ "=" +:+ ManagedByValue) with
  | inl _ => ret tt
  | inr apps => monitor_apps apps
  end.
