(* ===== verification/StoreFacts.v ===== *)
(** * What a successful statement says

    Inversion lemmas of the operations of [Store]: what is known of the rows
    read, and the exact store written, when an operation returns without an
    error; and what an error that leaves the transaction usable says. *)

From S2P Require Import Prelude Json AppErrors Tx Events Domain Pagination Authz Store.
From S2P Require Import DeploymentService.
Open Scope Z_scope.
Open Scope tx_scope.

Implicit Types s : Sess DB Stream.

(** ** Single-row updates of the store *)
Definition put_app (a : Application) (db : DB) : DB := set_apps (<[a_id a := a]> (t_apps db)) db.
Definition put_dep (d : Deployment) (db : DB) : DB := set_deps (<[d_id d := d]> (t_deps db)) db.
Definition put_rel (r : Release) (db : DB) : DB := set_rels (<[r_id r := r]> (t_rels db)) db.
Definition put_rollout (rs : RolloutStatus) (db : DB) : DB :=
  set_rollouts (<[(rs_dep rs, rs_rel rs) := rs]> (t_rollouts db)) db.
Definition put_argo (a : ArgoApplication) (db : DB) : DB := set_argo (<[ar_dep a := a]> (t_argo db)) db.
Definition add_event (row : OutboxRow payload) (db : DB) : DB := set_outbox (t_outbox db ++ [row]) db.

(** Every row is stored under its own key. *)
Record keyed (db : DB) : Prop := {
  keyed_apps k a : t_apps db !! k = Some a → a_id a = k;
  keyed_deps k d : t_deps db !! k = Some d → d_id d = k;
  keyed_rels k r : t_rels db !! k = Some r → r_id r = k;
  keyed_rollouts k rs : t_rollouts db !! k = Some rs → (rs_dep rs, rs_rel rs) = k }.

(** ** Stability of the operations *)
Lemma stable_enqueue ty o p opts : stable (W := Stream) (enqueue ty o p opts).
Proof. unfold enqueue. solve_stable. Qed.
Lemma stable_app_Create a : stable (W := Stream) (applicationRepo_Create a).
Proof. unfold applicationRepo_Create. solve_stable. Qed.
Lemma stable_app_Update a : stable (W := Stream) (applicationRepo_Update a).
Proof. unfold applicationRepo_Update. solve_stable. Qed.
Lemma stable_app_Delete a : stable (W := Stream) (applicationRepo_Delete a).
Proof. unfold applicationRepo_Delete. solve_stable. Qed.
Lemma stable_dep_Create d : stable (W := Stream) (deploymentRepo_Create d).
Proof. unfold deploymentRepo_Create. solve_stable. Qed.
Lemma stable_dep_Update d : stable (W := Stream) (deploymentRepo_Update d).
Proof. unfold deploymentRepo_Update. solve_stable. Qed.
Lemma stable_dep_UpdateStatus id st r e :
  stable (W := Stream) (deploymentRepo_UpdateStatus id st r e).
Proof. unfold deploymentRepo_UpdateStatus. solve_stable. Qed.
Lemma stable_dep_SoftDelete id : stable (W := Stream) (deploymentRepo_SoftDelete id).
Proof. unfold deploymentRepo_SoftDelete. solve_stable. Qed.
Lemma stable_rel_Create r : stable (W := Stream) (releaseRepo_Create r).
Proof. unfold releaseRepo_Create. solve_stable. Qed.
Lemma stable_rel_MarkStarted id : stable (W := Stream) (releaseRepo_MarkStarted id).
Proof. unfold releaseRepo_MarkStarted. solve_stable. Qed.
Lemma stable_rel_MarkFinished id st e : stable (W := Stream) (releaseRepo_MarkFinished id st e).
Proof. unfold releaseRepo_MarkFinished. solve_stable. Qed.
Lemma stable_MarkProcessed c e o : stable (W := Stream) (processedEventRepo_MarkProcessed c e o).
Proof. unfold processedEventRepo_MarkProcessed. solve_stable. Qed.
Lemma stable_Upsert rs : stable (W := Stream) (rolloutStatusRepo_Upsert rs).
Proof. unfold rolloutStatusRepo_Upsert. solve_stable. Qed.
Lemma stable_argo_Upsert a : stable (W := Stream) (argoAppRepo_Upsert a).
Proof. unfold argoAppRepo_Upsert. solve_stable. Qed.
Lemma stable_argo_UpdateObserved a : stable (W := Stream) (argoAppRepo_UpdateObserved a).
Proof. unfold argoAppRepo_UpdateObserved. solve_stable. Qed.
Lemma stable_lift {A} (r : result goerr A) : stable (W := Stream) (lift r).
Proof. unfold lift. solve_stable. Qed.
Lemma stable_unmarshal_object c : stable (W := Stream) (unmarshal_object c).
Proof. unfold unmarshal_object. solve_stable. Qed.
Lemma stable_rel_List d req : stable (W := Stream) (releaseRepo_List d req).
Proof. unfold releaseRepo_List. solve_stable. Qed.
#[export] Hint Resolve stable_enqueue stable_app_Create
  stable_app_Update stable_app_Delete stable_dep_Create stable_dep_Update
  stable_dep_UpdateStatus stable_dep_SoftDelete stable_rel_Create stable_rel_MarkStarted
  stable_rel_MarkFinished stable_MarkProcessed stable_Upsert stable_rel_List
  stable_argo_Upsert stable_argo_UpdateObserved
  stable_lift stable_unmarshal_object
  : stable.

(** ** Reads *)

Lemma app_GetByID_Ok id s a s' :
  applicationRepo_GetByID id s = (Ok a, s') →
  t_apps (store s) !! id = Some a ∧ org s ≠ "" ∧ a_org a = org s ∧
  store s' = store s ∧ same_env s s'.
Proof. intros (Hq & ? & ?)%QueryOne_Ok. apply option_list_single, row_at_Some in Hq. tauto. Qed.

Lemma dep_GetByID_Ok id s d s' :
  deploymentRepo_GetByID id s = (Ok d, s') →
  t_deps (store s) !! id = Some d ∧ org s ≠ "" ∧ d_org d = org s ∧ d_status d ≠ StatusDeleted ∧
  store s' = store s ∧ same_env s s'.
Proof.
  intros (Hq & ? & ?)%QueryOne_Ok. destruct (row_at _ _ _ _) as [x|] eqn:Hr; [|done].
  destruct (not_deleted x) eqn:Hn; simplify_eq. apply row_at_Some in Hr as (?&?&?).
  apply negb_true_iff, String.eqb_neq in Hn. auto 10.
Qed.

Lemma rel_GetByID_Ok id s r s' :
  releaseRepo_GetByID id s = (Ok r, s') →
  t_rels (store s) !! id = Some r ∧ org s ≠ "" ∧ r_org r = org s ∧
  store s' = store s ∧ same_env s s'.
Proof. intros (Hq & ? & ?)%QueryOne_Ok. apply option_list_single, row_at_Some in Hq. tauto. Qed.

Lemma rollout_Get_inv dep rel s r s' :
  rolloutStatusRepo_Get dep rel s = (r, s') →
  store s' = store s ∧ same_env s s' ∧
  match r with
  | Ok rs => t_rollouts (store s) !! (dep, rel) = Some rs ∧ rs_org rs = org s
  | Err e => aborted s' = true ∨ row_at rs_org (org s) (dep, rel) (t_rollouts (store s)) = None
  end.
Proof.
  intros (? & ? & Hr)%QueryOne_inv. split_and!; [done..|].
  destruct (row_at _ _ _ _) as [rs|] eqn:Hrow; simpl in Hr; destruct r as [x|e]; simplify_eq.
  - apply row_at_Some in Hrow. tauto.
  - destruct Hr as [?|[[??]|[Hl ?]]]; [by left|done|simpl in Hl; lia].
  - auto.
Qed.

(** A scan of a keyed table has each row once. *)
Lemma rows_where_ids (p : Deployment → bool) db :
  keyed db → NoDup (d_id <$> rows_where p (t_deps db)).
Proof. intros Hk. apply rows_where_NoDup, keyed_deps, Hk. Qed.

Lemma elem_of_releases_of o dep db r :
  r ∈ releases_of o dep db ↔ o ≠ "" ∧ r_org r = o ∧ r_dep r = dep ∧ ∃ k, t_rels db !! k = Some r.
Proof.
  unfold releases_of. rewrite elem_of_rows_where, andb_true_iff, visible_spec, String.eqb_eq.
  tauto.
Qed.

(** [ORDER BY revision DESC LIMIT 1] *)
Definition is_latest (r : Release) (l : list Release) : Prop :=
  r ∈ l ∧ ∀ r', r' ∈ l → r_revision r' ≤ r_revision r.

#[export] Instance newer_total : Total newer.
Proof. intros x y. unfold newer. lia. Qed.
#[export] Instance newer_trans : Transitive newer.
Proof. intros x y z. unfold newer. lia. Qed.

Lemma by_revision_head l :
  match by_revision l with
  | [] => l = []
  | r :: _ => is_latest r l
  end.
Proof.
  pose proof (merge_sort_Permutation newer l) as Hp.
  pose proof (StronglySorted_merge_sort newer l) as Hs.
  unfold by_revision. destruct (merge_sort newer l) as [|r t].
  - by apply Permutation_nil.
  - split; [rewrite <- Hp; left|]. intros r' Hr'. rewrite <- Hp in Hr'.
    apply elem_of_cons in Hr' as [->|Hr']; [lia|].
    inversion Hs as [|?? _ Hall]. subst. rewrite Forall_forall in Hall.
    by apply Hall.
Qed.

Lemma latest_query l q :
  q = take 1 (by_revision l) →
  match q with [] => l = [] | [r] => is_latest r l | _ => False end.
Proof.
  pose proof (by_revision_head l). intros ->. by destruct (by_revision l).
Qed.

Lemma latest_inv (f : string → DB → list Release) s r s' :
  QueryOne (λ o db, take 1 (by_revision (f o db))) s = (r, s') →
  store s' = store s ∧ same_env s s' ∧
  match r with
  | Ok r => is_latest r (f (org s) (store s))
  | Err e => aborted s' = true ∨ f (org s) (store s) = [] ∧ IsNotFound e = true
  end.
Proof.
  intros (? & ? & Hr)%QueryOne_inv. split_and!; [done..|].
  pose proof (latest_query (f (org s) (store s)) _ eq_refl) as Hl.
  destruct r as [x|e]; [by rewrite Hr in Hl|].
  destruct Hr as [?|[[Hq ->]|[Hlen _]]]; [by left|rewrite Hq in Hl; by right|].
  rewrite length_take in Hlen. lia.
Qed.

Lemma GetLatest_inv dep s r s' :
  releaseRepo_GetLatest dep s = (r, s') →
  store s' = store s ∧ same_env s s' ∧
  match r with
  | Ok r => is_latest r (releases_of (org s) dep (store s))
  | Err e => aborted s' = true ∨ releases_of (org s) dep (store s) = [] ∧ IsNotFound e = true
  end.
Proof. apply (latest_inv (λ o db, releases_of o dep db)). Qed.

(** The earlier successful releases of a deployment. *)
Definition earlier_successes (o dep : string) (before : Z) (db : DB) : list Release :=
  filter (λ r, r_revision r < before ∧ r_status r = ReleaseStatusSucceeded)
    (releases_of o dep db).

Lemma GetPreviousSuccessful_inv dep before s r s' :
  releaseRepo_GetPreviousSuccessful dep before s = (r, s') →
  store s' = store s ∧ same_env s s' ∧
  match r with
  | Ok r => is_latest r (earlier_successes (org s) dep before (store s))
  | Err e => aborted s' = true ∨
             earlier_successes (org s) dep before (store s) = [] ∧ IsNotFound e = true
  end.
Proof. apply (latest_inv (λ o db, earlier_successes o dep before db)). Qed.

Lemma GetByRevision_Ok dep rev s r s' :
  releaseRepo_GetByRevision dep rev s = (Ok r, s') →
  r ∈ releases_of (org s) dep (store s) ∧ r_revision r = rev ∧
  store s' = store s ∧ same_env s s'.
Proof.
  intros (Hq & ? & ?)%QueryOne_Ok.
  assert (Hr : r ∈ [r]) by left. rewrite <- Hq in Hr.
  apply list_elem_of_filter in Hr as [??]. auto.
Qed.

(** ** Writes *)

(** The identifier a [Create] uses. *)
(** What INSERT returns for an application. *)
Definition stamp_app (id : string) (now : Z) (a : Application) : Application :=
  mkApp id now now 1 (a_org a) (a_project a) (a_name a) (a_slug a) (a_desc a)
    (if String.eqb (a_runtime a) "" then RuntimeContainer else a_runtime a) (a_created_by a).

Definition slug_free (project slug : string) (db : DB) : Prop :=
  ∀ k b, t_apps db !! k = Some b → ¬ (a_project b = project ∧ a_slug b = slug).

Lemma app_Create_Ok a s a' s' :
  applicationRepo_Create a s = (Ok a', s') →
  ∃ id, a' = stamp_app id (clock s) a ∧ t_apps (store s) !! id = None ∧
    slug_free (a_project a) (a_slug a) (store s) ∧ org s ≠ "" ∧ a_org a = org s ∧
    a_org a ∈ t_orgs (store s) ∧ a_project a ∈ t_projects (store s) ∧
    store s' = put_app a' (store s) ∧ same_env s s'.
Proof.
  unfold applicationRepo_Create. intros H. inv_bind. apply create_id_Ok in Hm as (Hs & He & _ & _).
  apply on_err_Ok, stmt_Ok_inv in H as (Hf & _ & _ & _ & He').
  destruct He as (Ho & Hg & Hc). rewrite Hs, Ho, Hc in Hf.
  unfold insert_application in Hf. simpl in Hf.
  destruct (visible _ _) eqn:Hv; simpl in Hf; [|done]. apply visible_spec in Hv as [??].
  case_bool_decide as Hid; simpl in Hf; [done|].
  destruct (existsb _ _) eqn:Hex; simpl in Hf; [done|].
  case_bool_decide; simpl in Hf; [|done]. case_bool_decide; simpl in Hf; [|done].
  simplify_eq. exists x. split_and!; try done.
  - by apply eq_None_not_Some.
  - intros k b Hb [Hp Hsl]. apply not_true_iff_false in Hex. apply Hex.
    apply existsb_exists. exists b. rewrite <- list_elem_of_In, elem_of_rows_where.
    split; [split; [done|by eexists]|]. simpl. rewrite Hp, Hsl, !String.eqb_refl. done.
  - unfold same_env in *. destruct He' as (?&?&?). split_and!; congruence.
Qed.

Definition edit_app (name : string) (desc : option string) (now : Z) (a : Application)
    : Application :=
  mkApp (a_id a) (a_created a) now (a_version a + 1) (a_org a) (a_project a) name (a_slug a)
    desc (a_runtime a) (a_created_by a).

Lemma app_Update_Ok a s a' s' :
  applicationRepo_Update a s = (Ok a', s') →
  ∃ r, t_apps (store s) !! a_id a = Some r ∧ org s ≠ "" ∧ a_org r = org s ∧
    a_version r = a_version a ∧ a' = edit_app (a_name a) (a_desc a) (a_updated a) a ∧
    store s' = put_app (edit_app (a_name a) (a_desc a) (clock s) r) (store s) ∧ same_env s s'.
Proof.
  unfold applicationRepo_Update. intros H. inv_bind. inv_bind. apply require_rows_Ok in Hm0 as [Hn ->].
  apply Exec_Ok in Hm as [Hf He]. injection H as <- <-.
  unfold update_application in Hf. destruct (row_at _ _ _ _) as [r|] eqn:Hr; [|by simplify_eq].
  apply row_at_Some in Hr as (?&?&?). destruct (Z.eqb_spec (a_version r) (a_version a));
    simplify_eq. exists r. split_and!; done || congruence.
Qed.

Definition no_release_of_app (appID : string) (db : DB) : Prop :=
  ∀ k r k' d, t_rels db !! k = Some r → t_deps db !! k' = Some d → k' = r_dep r → d_app d ≠ appID.

Lemma delete_deployments_inr p db db' :
  delete_deployments p db = inr db' →
  (∀ k r d, t_rels db !! k = Some r → t_deps db !! r_dep r = Some d → p d = false) ∧
  db' = set_deps (filter (λ kv : string * Deployment, p kv.2 = false) (t_deps db))
          (set_rollouts (filter (λ kv : (string * string) * RolloutStatus,
             bool_decide (is_Some (filter (λ kv : string * Deployment, p kv.2 = true)
                                     (t_deps db) !! rs_dep kv.2)) = false) (t_rollouts db))
          (set_argo (filter (λ kv : string * ArgoApplication,
             bool_decide (is_Some (filter (λ kv : string * Deployment, p kv.2 = true)
                                     (t_deps db) !! kv.1)) = false) (t_argo db)) db)).
Proof.
  unfold delete_deployments. destruct (existsb _ _) eqn:Hex; [done|]. intros [= <-].
  split; [|done]. intros k r d Hr Hd. apply not_true_is_false. intros Hp.
  apply not_true_iff_false in Hex. apply Hex, existsb_exists. exists r.
  rewrite <- list_elem_of_In, elem_of_rows_where. split; [split; [done|by eexists]|].
  apply bool_decide_eq_true. exists d. by apply map_lookup_filter_Some.
Qed.

(** Deployments *)
Definition stamp_dep (id : string) (now ready : Z) (d : Deployment) : Deployment :=
  mkDep id now now 1 (d_org d) (d_app d) (d_cluster d) (d_image d) (d_replicas d)
    (d_cpu_request d) (d_cpu_limit d) (d_memory_request d) (d_memory_limit d) (d_port d)
    (match d_env d with Some j => Some j | None => Some (JArr []) end)
    (if String.eqb (d_status d) "" then StatusPending else d_status d) ready (d_replicas d)
    (d_created_by d).

Lemma dep_Create_Ok d s d' s' :
  deploymentRepo_Create d s = (Ok d', s') →
  ∃ id, d' = stamp_dep id (clock s) (d_ready d) d ∧ t_deps (store s) !! id = None ∧
    org s ≠ "" ∧ d_org d = org s ∧ d_org d ∈ t_orgs (store s) ∧
    is_Some (t_apps (store s) !! d_app d) ∧ is_Some (t_clusters (store s) !! d_cluster d) ∧
    store s' = put_dep (stamp_dep id (clock s) 0 d) (store s) ∧ same_env s s'.
Proof.
  unfold deploymentRepo_Create. intros H. inv_bind. apply create_id_Ok in Hm as (Hs & He & _ & _).
  apply on_err_Ok, stmt_Ok_inv in H as (Hf & _ & _ & _ & He').
  destruct He as (Ho & Hg & Hc). rewrite Hs, Ho, Hc in Hf.
  unfold insert_deployment in Hf. simpl in Hf.
  destruct (visible _ _) eqn:Hv; simpl in Hf; [|done]. apply visible_spec in Hv as [??].
  case_bool_decide as Hid; simpl in Hf; [done|].
  repeat (case_bool_decide; simpl in Hf; [|done]).
  simplify_eq. exists x. split_and!; try done.
  - by apply eq_None_not_Some.
  - unfold same_env in *. destruct He' as (?&?&?). split_and!; congruence.
Qed.

(** The row after [Update] with the struct [d]. *)
Definition edit_dep (d : Deployment) (now : Z) (r : Deployment) : Deployment :=
  mkDep (d_id r) (d_created r) now (d_version r + 1) (d_org r) (d_app r) (d_cluster r)
    (d_image d) (d_replicas d) (d_cpu_request d) (d_cpu_limit d) (d_memory_request d)
    (d_memory_limit d) (d_port d) (d_env d) (d_status r) (d_ready r) (d_replicas d)
    (d_created_by r).

Lemma dep_Update_Ok d s d' s' :
  deploymentRepo_Update d s = (Ok d', s') →
  ∃ r, t_deps (store s) !! d_id d = Some r ∧ org s ≠ "" ∧ d_org r = org s ∧
    d_version r = d_version d ∧
    d' = mkDep (d_id d) (d_created d) (d_updated d) (d_version d + 1) (d_org d) (d_app d)
           (d_cluster d) (d_image d) (d_replicas d) (d_cpu_request d) (d_cpu_limit d)
           (d_memory_request d) (d_memory_limit d) (d_port d) (d_env d) (d_status d)
           (d_ready d) (d_replicas d) (d_created_by d) ∧
    store s' = put_dep (edit_dep d (clock s) r) (store s) ∧ same_env s s'.
Proof.
  unfold deploymentRepo_Update. intros H. inv_bind. inv_bind. apply require_rows_Ok in Hm0 as [Hn ->].
  apply Exec_Ok in Hm as [Hf He]. injection H as <- <-.
  unfold update_deployment in Hf. destruct (row_at _ _ _ _) as [r|] eqn:Hr; [|by simplify_eq].
  apply row_at_Some in Hr as (?&?&?). destruct (Z.eqb_spec (d_version r) (d_version d));
    simplify_eq. exists r. split_and!; done || congruence.
Qed.

Lemma dep_set_status_Ok id st ready s u s' e :
  (let* n := Exec (update_deployment_status id st ready) in require_rows n e) s = (Ok u, s') →
  ∃ r, t_deps (store s) !! id = Some r ∧ org s ≠ "" ∧ d_org r = org s ∧
    store s' = put_dep (with_status st ready (clock s) r) (store s) ∧ same_env s s'.
Proof.
  intros (n & Hn & Hf & He)%Exec_hit_Ok. unfold update_deployment_status in Hf.
  destruct (row_at _ _ _ _) as [r|] eqn:Hr; [|by simplify_eq].
  apply row_at_Some in Hr as (?&?&?). simplify_eq. exists r. split_and!; done || congruence.
Qed.

(** Releases *)
Definition stamp_rel (id : string) (now : Z) (started finished : option Z)
    (error : option string) (r : Release) : Release :=
  mkRel id (r_org r) (r_dep r) (r_revision r) (r_image r) (r_replicas r) (r_hash r) (r_config r)
    (if String.eqb (r_status r) "" then ReleaseStatusPending else r_status r)
    started finished error (r_created_by r) now.

Lemma rel_Create_Ok r s r' s' :
  releaseRepo_Create r s = (Ok r', s') →
  ∃ id, r' = stamp_rel id (clock s) (r_started r) (r_finished r) (r_error r) r ∧
    t_rels (store s) !! id = None ∧ org s ≠ "" ∧ r_org r = org s ∧ r_config r ≠ None ∧
    (∀ k q, t_rels (store s) !! k = Some q → ¬ (r_dep q = r_dep r ∧ r_revision q = r_revision r)) ∧
    r_org r ∈ t_orgs (store s) ∧ is_Some (t_deps (store s) !! r_dep r) ∧
    store s' = put_rel (stamp_rel id (clock s) None None None r) (store s) ∧ same_env s s'.
Proof.
  unfold releaseRepo_Create. intros H. inv_bind. apply create_id_Ok in Hm as (Hs & He & _ & _).
  apply on_err_Ok, stmt_Ok_inv in H as (Hf & _ & _ & _ & He').
  destruct He as (Ho & Hg & Hc). rewrite Hs, Ho, Hc in Hf.
  unfold insert_release in Hf. simpl in Hf.
  destruct (visible _ _) eqn:Hv; simpl in Hf; [|done]. apply visible_spec in Hv as [??].
  destruct (r_config r) as [j|] eqn:Hcfg; [|done].
  case_bool_decide as Hid; simpl in Hf; [done|].
  destruct (existsb _ _) eqn:Hex; simpl in Hf; [done|].
  repeat (case_bool_decide; simpl in Hf; [|done]).
  simplify_eq. exists x.
  split_and!; try done; unfold stamp_rel; rewrite ?Hcfg; try done.
  - by apply eq_None_not_Some.
  - intros k q Hq [Hd Hrev]. apply not_true_iff_false in Hex. apply Hex.
    apply existsb_exists. exists q. rewrite <- list_elem_of_In, elem_of_rows_where.
    split; [split; [done|by eexists]|]. rewrite Hd, Hrev, String.eqb_refl. apply Z.eqb_refl.
  - unfold same_env in *. destruct He' as (?&?&?). split_and!; congruence.
Qed.

Lemma rel_update_Ok id (f : Z → Release → Release) s u s' e :
  (let* n := Exec (λ o now, update_release id (f now) o now) in require_rows n e) s
    = (Ok u, s') →
  ∃ r, t_rels (store s) !! id = Some r ∧ org s ≠ "" ∧ r_org r = org s ∧
    (r_id (f (clock s) r) = r_id r → store s' = put_rel (f (clock s) r) (store s)) ∧
    same_env s s'.
Proof.
  intros (n & Hn & Hf & He)%Exec_hit_Ok. unfold update_release in Hf.
  destruct (row_at _ _ _ _) as [r|] eqn:Hr; [|by simplify_eq].
  apply row_at_Some in Hr as (?&?&?).
  destruct (bool_decide _ && _); simplify_eq. exists r. split_and!; try done.
  intros Hid. unfold put_rel. by rewrite Hid.
Qed.

(** Rollout snapshots *)
Definition stamp_rollout (org : string) (flag : bool) (started now : Z) (rs : RolloutStatus)
    : RolloutStatus :=
  mkRollout (rs_dep rs) (rs_rel rs) org
    (if String.eqb (rs_phase rs) "" then RolloutPhasePending else rs_phase rs)
    (rs_revision rs) (rs_image rs) (rs_desired rs) (rs_ready rs) (rs_updated rs)
    (rs_available rs) (rs_unavailable rs) (rs_observed rs) (rs_percentage rs)
    (match rs_conditions rs with Some j => Some j | None => Some (JArr []) end)
    (rs_error rs) flag started now.

(** The marker a snapshot already has, [false] without one. *)
Definition marked (k : string * string) (db : DB) : bool :=
  match t_rollouts db !! k with Some old => rs_is_rollback old | None => false end.

Lemma Upsert_Ok rs s rs' s' :
  rolloutStatusRepo_Upsert rs s = (Ok rs', s') →
  org s ≠ "" ∧ rs_org rs = org s ∧ (∃ started,
    store s' = put_rollout (stamp_rollout (org s)
      (marked (rs_dep rs, rs_rel rs) (store s) || rs_is_rollback rs) started (clock s) rs)
      (store s)) ∧
  (∀ old, t_rollouts (store s) !! (rs_dep rs, rs_rel rs) = Some old → rs_org old = org s) ∧
  (t_rollouts (store s) !! (rs_dep rs, rs_rel rs) = None →
     is_Some (t_deps (store s) !! rs_dep rs) ∧ is_Some (t_rels (store s) !! rs_rel rs)) ∧
  same_env s s'.
Proof.
  intros (Hf & _ & _ & _ & He)%on_err_Ok%stmt_Ok_inv. unfold upsert_rollout in Hf.
  simpl in Hf. destruct (visible _ _) eqn:Hv; [|done]. apply visible_spec in Hv as [? Hv].
  unfold marked. simpl in Hf.
  destruct (t_rollouts (store s) !! (rs_dep rs, rs_rel rs)) as [old|] eqn:Hold; simpl in Hf.
  - destruct (visible (org s) (rs_org old)) eqn:Hv'; [|done]. simpl in Hf.
    apply visible_spec in Hv' as [? Hv']. injection Hf as _ Hst.
    split_and!; try done; [|naive_solver].
    exists (rs_started_at old). rewrite <- Hst. unfold put_rollout, stamp_rollout. by rewrite Hv'.
  - repeat (case_bool_decide; simpl in Hf; [|done]). injection Hf as _ Hst.
    split_and!; try done. exists (clock s). rewrite <- Hst. unfold put_rollout, stamp_rollout.
    by rewrite Hv.
Qed.

(** Bindings to Argo CD *)
Definition argo_name_free (o name dep : string) (db : DB) : Prop :=
  ∀ k b, t_argo db !! k = Some b → ar_org b = o → ar_app_name b = name → ar_dep b = dep.

Lemma argo_name_taken_false o name dep db :
  argo_name_taken o name dep db = false → argo_name_free o name dep db.
Proof.
  intros Hf k b Hb Ho Hn. destruct (decide (ar_dep b = dep)) as [|Hd]; [done|]. exfalso.
  apply not_true_iff_false in Hf. apply Hf, existsb_exists. exists b.
  rewrite <- list_elem_of_In, elem_of_rows_where. split; [eauto|].
  by rewrite Ho, Hn, !String.eqb_refl, (proj2 (String.eqb_neq _ _) Hd).
Qed.

(** The row an upsert of [a] leaves over [old]: the desired fields of [a], the
    observed ones of [old]. *)
Definition bound (a : ArgoApplication) (now : Z) (old : option ArgoApplication)
    : ArgoApplication :=
  argo_row (ar_org a) (match old with Some b => ar_created b | None => now end) now
    (argo_defaults a) (match old with Some b => b | None => never_observed a end).

Lemma argo_Upsert_Ok a s a' s' :
  argoAppRepo_Upsert a s = (Ok a', s') →
  org s ≠ "" ∧ ar_org a = org s ∧
  (∀ old, t_argo (store s) !! ar_dep a = Some old → ar_org old = org s) ∧
  argo_name_free (org s) (ar_app_name a) (ar_dep a) (store s) ∧
  (t_argo (store s) !! ar_dep a = None → is_Some (t_deps (store s) !! ar_dep a)) ∧
  a' = argo_row (ar_org a) (match t_argo (store s) !! ar_dep a with
                            | Some b => ar_created b | None => clock s end) (clock s)
         (argo_defaults a) a ∧
  store s' = put_argo (bound a (clock s) (t_argo (store s) !! ar_dep a)) (store s) ∧
  same_env s s'.
Proof.
  intros (Hf & _ & _ & _ & He)%on_err_Ok%stmt_Ok_inv. unfold upsert_argo in Hf. simpl in Hf.
  destruct (visible _ _) eqn:Hv; [|done]. apply visible_spec in Hv as [? Hv]. simpl in Hf.
  destruct (t_argo (store s) !! ar_dep a) as [old|] eqn:Hold.
  - destruct (visible (org s) (ar_org old)) eqn:Hv'; [|done]. simpl in Hf.
    apply visible_spec in Hv' as [_ Hv']. destruct (argo_name_taken _ _ _ _) eqn:Ht; [done|].
    apply argo_name_taken_false in Ht. injection Hf as <- <-. rewrite Hv' in *. unfold bound. simpl.
    rewrite Hv. split_and!; try done; naive_solver.
  - destruct (argo_name_taken _ _ _ _) eqn:Ht; [done|]. apply argo_name_taken_false in Ht.
    repeat (case_bool_decide; simpl in Hf; [|done]). injection Hf as <- <-. unfold bound. simpl. rewrite Hv in *.
    by split_and!.
Qed.

Lemma argo_Get_Ok dep s a s' :
  argoAppRepo_Get dep s = (Ok a, s') →
  t_argo (store s) !! dep = Some a ∧ org s ≠ "" ∧ ar_org a = org s ∧ store s' = store s ∧
  same_env s s'.
Proof.
  intros (H & ? & ?)%QueryOne_Ok. rewrite option_list_single, row_at_Some in H. tauto.
Qed.

Lemma argo_UpdateObserved_Ok a s a' s' :
  argoAppRepo_UpdateObserved a s = (Ok a', s') →
  ∃ old, t_argo (store s) !! ar_dep a = Some old ∧ org s ≠ "" ∧ ar_org old = org s ∧
    a' = observed_at (clock s) a ∧
    store s' = set_argo (<[ar_dep a :=
      observed_at (clock s) (argo_row (ar_org old) (ar_created old) (clock s) old a)]>
      (t_argo (store s))) (store s) ∧ same_env s s'.
Proof.
  intros H%on_err_Ok. inv_bind. apply stmt_Ok_inv in Hm as (Hf & _ & _ & _ & He).
  unfold update_observed in Hf. destruct (row_at _ _ _ _) as [old|] eqn:Hr.
  - injection Hf as <- Hst. injection H as <- <-. apply row_at_Some in Hr as (? & ? & ?).
    exists old. split_and!; done.
  - injection Hf as <- _. discriminate H.
Qed.

(** Events *)
Definition event_row (row_id id : string) (now : Z) (ty o : string) (p : payload)
    (opts : list (@Option_ payload)) : OutboxRow payload :=
  new_row eventVersion row_id id now ty o p opts.

(** No row of the outbox has the row's id or its event's. *)
Definition fresh_row (row : OutboxRow payload) (db : DB) : Prop :=
  ∀ r, r ∈ t_outbox db →
    EventID (ob_event r) ≠ EventID (ob_event row) ∧ ob_id r ≠ ob_id row.

Lemma Enqueue_Ok e s u s' :
  PostgresOutbox_Enqueue e s = (Ok u, s') →
  Validate e = None ∧ ∃ row_id,
    fresh_row (mkOutbox row_id e (clock s) None) (store s) ∧
    store s' = add_event (mkOutbox row_id e (clock s) None) (store s) ∧ same_env s s'.
Proof. exact (PostgresOutbox_Enqueue_Ok e s u s'). Qed.

Lemma enqueue_Ok ty o p opts s u s' :
  enqueue ty o p opts s = (Ok u, s') →
  ∃ row_id id, let row := event_row row_id id (clock s) ty o p opts in
    Validate (ob_event row) = None ∧ fresh_row row (store s) ∧
    store s' = add_event row (store s) ∧ same_env s s'.
Proof. exact (New_Enqueue_Ok eventVersion ty o p opts s u s'). Qed.

Lemma MarkProcessed_Ok c eid o s b s' :
  processedEventRepo_MarkProcessed c eid o s = (Ok b, s') →
  o = org s ∧ same_env s s' ∧
  match t_processed (store s) !! (c, eid) with
  | Some _ => b = false ∧ store s' = store s
  | None => b = true ∧ store s' = set_processed (<[(c, eid) := o]> (t_processed (store s))) (store s)
  end.
Proof.
  unfold processedEventRepo_MarkProcessed. intros H. inv_bind. apply Exec_Ok in Hm as [Hf He]. injection H as <- <-.
  unfold insert_processed in Hf. destruct (visible _ _) eqn:Hv; simpl in Hf; [|done].
  apply visible_spec in Hv as [_ ->]. split; [done|]. split; [done|].
  destruct (t_processed _ !! _); [by simplify_eq|].
  case_bool_decide; simpl in Hf; by simplify_eq.
Qed.
