(* ===== verification/Spec.v ===== *)
(** * The abstract state machine of the deployment data

    What the API may do to the tables, as a step relation [change] on the
    database, with the invariant [wf] of its reachable states.  [Guarantees]
    shows that every request of the service, of the agents and of the build
    consumer performs a sequence of these steps in the tenant it acts for, and
    derives the guarantees below for the code:
    - [wf]: referential integrity within one tenant, contiguous and unique
      release revisions, unique slugs and event ids;
    - [released]: published releases never change and are never removed;
    - [confined]: rows of other tenants are untouched;
    - [logged]: the outbox only grows. *)

From S2P Require Import Prelude Json AppErrors Tx Events Domain Pagination Authz Store.
From S2P Require Import DeploymentService StoreFacts.
Open Scope Z_scope.

(** ** Steps *)

(** The revision a new release may get: 1 for the first, otherwise the
    successor of an existing one that is still free. *)
Definition next_revision (o dep : string) (rev : Z) (db : DB) : Prop :=
  (releases_of o dep db = [] ∧ rev = 1 ∨
   ∃ q, q ∈ releases_of o dep db ∧ rev = r_revision q + 1) ∧
  ∀ k q, t_rels db !! k = Some q → ¬ (r_dep q = dep ∧ r_revision q = rev).

(** A release as the service inserts it. *)
Definition fresh_release (o : string) (now : Z) (r : Release) (db : DB) : Prop :=
  t_rels db !! r_id r = None ∧ r_org r = o ∧ r_status r = ReleasePending ∧
  r_started r = None ∧ r_finished r = None ∧ r_error r = None ∧ r_created r = now.

Inductive change (o : string) (now : Z) (db : DB) : DB → Prop :=
| ch_event row :
    OrgID (ob_event row) = o → Validate (ob_event row) = None → fresh_row row db →
    ob_published row = None → ob_created row = now →
    change o now db (add_event row db)
| ch_app_new a :
    a_org a = o → t_apps db !! a_id a = None → slug_free (a_project a) (a_slug a) db →
    a_version a = 1 →
    change o now db (put_app a db)
| ch_app_edit k a name desc :
    t_apps db !! k = Some a → a_org a = o →
    change o now db (put_app (edit_app name desc now a) db)
| ch_app_delete k a db1 :
    t_apps db !! k = Some a → a_org a = o →
    delete_deployments (λ d, String.eqb (d_app d) k) db = inr db1 →
    change o now db (set_apps (delete k (t_apps db1)) db1)
| ch_dep_new d r a :
    d_org d = o → t_deps db !! d_id d = None → d_version d = 1 → d_status d = StatusPending →
    d_ready d = 0 → t_apps db !! d_app d = Some a → a_org a = o →
    fresh_release o now r db → r_dep r = d_id d → r_revision r = 1 →
    (∀ k q, t_rels db !! k = Some q → r_dep q ≠ d_id d) →
    r_image r = d_image d → r_replicas r = d_replicas d →
    change o now db (put_rel r (put_dep d db))
| ch_release k d e r :
    t_deps db !! k = Some d → d_org d = o → d_status d ≠ StatusDeleted →
    fresh_release o now r db → r_dep r = k → next_revision o k (r_revision r) db →
    r_image r = d_image e → r_replicas r = d_replicas e →
    change o now db (put_rel r (put_dep (edit_dep e now d) db))
| ch_rel_status k r st started finished error :
    t_rels db !! k = Some r → r_org r = o → ValidAgentReleaseStatus st = true →
    change o now db (put_rel (rel_with st started finished error r) db)
| ch_dep_status k d st ready :
    t_deps db !! k = Some d → d_org d = o →
    change o now db (put_dep (with_status st ready now d) db)
| ch_rollout rs flag started d r :
    t_deps db !! rs_dep rs = Some d → d_org d = o →
    t_rels db !! rs_rel rs = Some r → r_org r = o → r_dep r = rs_dep rs →
    (∀ old, t_rollouts db !! (rs_dep rs, rs_rel rs) = Some old → rs_org old = o) →
    (marked (rs_dep rs, rs_rel rs) db = true → flag = true) →
    change o now db (put_rollout (stamp_rollout o flag started now rs) db)
| ch_argo a d :
    ar_org a = o → t_deps db !! ar_dep a = Some d → d_org d = o →
    (∀ old, t_argo db !! ar_dep a = Some old → ar_org old = o) →
    argo_name_free o (ar_app_name a) (ar_dep a) db →
    change o now db (put_argo a db)
| ch_processed k :
    t_processed db !! k = None →
    change o now db (set_processed (<[k := o]> (t_processed db)) db).

(** ** The invariant *)
Definition has_revision (dep : string) (rev : Z) (db : DB) : Prop :=
  ∃ k r, t_rels db !! k = Some r ∧ r_dep r = dep ∧ r_revision r = rev.

(** Outbox rows have their own ids, carry distinct events, and the events are
    valid envelopes. *)
Definition outbox_ok (l : list (OutboxRow payload)) : Prop :=
  NoDup (ob_id <$> l) ∧ NoDup (EventID ∘ ob_event <$> l) ∧
  Forall (λ row, Validate (ob_event row) = None) l.

(** Bindings to Argo CD belong to a deployment of their tenant, under whose id
    they are stored, and a tenant uses an application name once. *)
Record argo_ok (deps : gmap string Deployment) (m : gmap string ArgoApplication) : Prop := {
  ao_dep k a : m !! k = Some a → ar_dep a = k ∧ ∃ d, deps !! k = Some d ∧ d_org d = ar_org a;
  ao_name k1 a1 k2 a2 : m !! k1 = Some a1 → m !! k2 = Some a2 →
    ar_org a1 = ar_org a2 → ar_app_name a1 = ar_app_name a2 → k1 = k2 }.

Record wf (db : DB) : Prop := {
  wf_keyed :> keyed db;
  (** Deployments belong to an application of their tenant. *)
  wf_app k d : t_deps db !! k = Some d →
    ∃ a, t_apps db !! d_app d = Some a ∧ a_org a = d_org d;
  (** Releases belong to a deployment of their tenant. *)
  wf_dep k r : t_rels db !! k = Some r →
    ∃ d, t_deps db !! r_dep r = Some d ∧ d_org d = r_org r;
  (** Snapshots describe a release of their deployment, in its tenant. *)
  wf_rollout k rs : t_rollouts db !! k = Some rs →
    ∃ r d, t_rels db !! rs_rel rs = Some r ∧ r_dep r = rs_dep rs ∧
      t_deps db !! rs_dep rs = Some d ∧ d_org d = rs_org rs;
  (** The revisions of a deployment are exactly 1, ..., n with n >= 1. *)
  wf_revisions k d : t_deps db !! k = Some d →
    ∃ n, 1 ≤ n ∧ ∀ rev, has_revision k rev db ↔ 1 ≤ rev ≤ n;
  wf_revision_unique k1 r1 k2 r2 :
    t_rels db !! k1 = Some r1 → t_rels db !! k2 = Some r2 →
    r_dep r1 = r_dep r2 → r_revision r1 = r_revision r2 → k1 = k2;
  (** A slug names one application of its project. *)
  wf_slug k1 a1 k2 a2 :
    t_apps db !! k1 = Some a1 → t_apps db !! k2 = Some a2 →
    a_project a1 = a_project a2 → a_slug a1 = a_slug a2 → k1 = k2;
  wf_argo : argo_ok (t_deps db) (t_argo db);
  wf_outbox : outbox_ok (t_outbox db) }.

(** ** Preservation *)

(** [wf] only looks at some of the tables. *)
Lemma wf_of db db' :
  wf db → t_apps db' = t_apps db → t_deps db' = t_deps db → t_rels db' = t_rels db →
  t_rollouts db' = t_rollouts db → argo_ok (t_deps db) (t_argo db') →
  outbox_ok (t_outbox db') → wf db'.
Proof.
  intros [[]]. intros Ha Hd Hr Hs Hg Ho. unfold has_revision in *.
  constructor; [constructor|..]; try done; intros *; rewrite ?Ha, ?Hd, ?Hr, ?Hs;
    unfold has_revision; rewrite ?Hr; eauto.
Qed.

(** Bindings only look at the tenants of the deployments. *)
Lemma argo_ok_deps deps deps' m :
  argo_ok deps m →
  (∀ k d, deps !! k = Some d → ∃ d', deps' !! k = Some d' ∧ d_org d' = d_org d) → argo_ok deps' m.
Proof.
  intros [Hd Hn] Hk. split; [|done]. intros k a (Ha & d & (d' & Hd' & <-)%Hk & <-)%Hd. eauto.
Qed.

Lemma argo_ok_put deps m a d :
  argo_ok deps m → deps !! ar_dep a = Some d → d_org d = ar_org a →
  (∀ k b, m !! k = Some b → ar_org b = ar_org a → ar_app_name b = ar_app_name a →
     ar_dep b = ar_dep a) →
  argo_ok deps (<[ar_dep a := a]> m).
Proof.
  intros [Hd Hn] Ha Ho Hf. split.
  - intros k b. destruct (decide (k = ar_dep a)) as [->|]; intros; simplify_map_eq; eauto.
  - intros k1 b1 k2 b2 H1 H2 Horg Hname.
    destruct (decide (k1 = ar_dep a)) as [->|], (decide (k2 = ar_dep a)) as [->|];
      simplify_map_eq; try done; try (by eapply Hn).
    + rewrite <- (Hf _ _ H2) by done. by destruct (Hd _ _ H2).
    + rewrite <- (Hf _ _ H1) by done. symmetry. by destruct (Hd _ _ H1).
Qed.

(** A deployment row replaced by one of the same application and tenant. *)
Lemma wf_put_dep db d d' :
  wf db → t_deps db !! d_id d' = Some d → d_org d' = d_org d → d_app d' = d_app d →
  wf (put_dep d' db).
Proof.
  intros [[Ka Kd Kr Ks] Wa Wd Ws Wr Wu Wl Wg We] Hd Ho Ha.
  assert (Hl : ∀ k x, <[d_id d' := d']> (t_deps db) !! k = Some x →
             ∃ y, t_deps db !! k = Some y ∧ d_org x = d_org y ∧ d_app x = d_app y).
  { intros k x. destruct (decide (k = d_id d')) as [->|]; intros; simplify_map_eq; eauto. }
  assert (Hl' : ∀ k y, t_deps db !! k = Some y →
             ∃ x, <[d_id d' := d']> (t_deps db) !! k = Some x ∧ d_org x = d_org y).
  { intros k y. destruct (decide (k = d_id d')) as [->|]; intros; simplify_map_eq; eauto. }
  constructor; [constructor|..]; unfold has_revision; simpl; try done.
  - intros k x. destruct (decide (k = d_id d')) as [->|]; intros; simplify_map_eq; eauto.
  - intros k x (y & Hy & -> & ->)%Hl. eauto.
  - intros k r (y & Hy & <-)%Wd. destruct (Hl' _ _ Hy) as (x & ? & ?). eauto.
  - intros k rs (r & y & ? & ? & Hy & Heq)%Ws. destruct (Hl' _ _ Hy) as (x & ? & ?).
    exists r, x. by rewrite <- Heq.
  - intros k x (y & Hy & _)%Hl. eauto.
  - by eapply argo_ok_deps.
Qed.

(** A release row replaced by one with the same identity. *)
Definition same_release (r r' : Release) : Prop :=
  r_org r' = r_org r ∧ r_dep r' = r_dep r ∧ r_revision r' = r_revision r ∧
  r_image r' = r_image r ∧ r_replicas r' = r_replicas r ∧ r_hash r' = r_hash r ∧
  r_config r' = r_config r ∧ r_created_by r' = r_created_by r ∧ r_created r' = r_created r.

Lemma wf_put_rel db r r' :
  wf db → t_rels db !! r_id r' = Some r → same_release r r' → wf (put_rel r' db).
Proof.
  intros [[Ka Kd Kr Ks] Wa Wd Ws Wr Wu Wl Wg We] Hr (So & Sd & Srev & _).
  assert (Hl : ∀ k x, <[r_id r' := r']> (t_rels db) !! k = Some x →
             ∃ y, t_rels db !! k = Some y ∧ r_org x = r_org y ∧ r_dep x = r_dep y ∧
                  r_revision x = r_revision y).
  { intros k x. destruct (decide (k = r_id r')) as [->|]; intros; simplify_map_eq; eauto 10. }
  assert (Hl' : ∀ k y, t_rels db !! k = Some y →
             ∃ x, <[r_id r' := r']> (t_rels db) !! k = Some x ∧ r_dep x = r_dep y ∧
                  r_revision x = r_revision y).
  { intros k y. destruct (decide (k = r_id r')) as [->|]; intros; simplify_map_eq; eauto. }
  constructor; [constructor|..]; unfold has_revision; simpl; try done.
  - intros k x. destruct (decide (k = r_id r')) as [->|]; intros; simplify_map_eq; eauto.
  - intros k x (y & Hy & -> & -> & _)%Hl. eauto.
  - intros k rs (y & d & Hy & Hd & ? & ?)%Ws. destruct (Hl' _ _ Hy) as (x & ? & ? & _).
    exists x, d. split_and!; congruence.
  - intros k d (n & Hn & Hrev)%Wr. exists n. split; [done|]. intros rev. rewrite <- Hrev.
    unfold has_revision. split.
    + intros (k' & x & (y & ? & ? & ? & ?)%Hl & ? & ?). exists k', y. split_and!; congruence.
    + intros (k' & y & (x & ? & ? & ?)%Hl' & ? & ?). exists k', x. split_and!; congruence.
  - intros k1 x1 k2 x2 (y1 & Hy1 & _ & -> & ->)%Hl (y2 & Hy2 & _ & -> & ->)%Hl. eauto.
Qed.

Lemma has_revision_add r dep rev db :
  t_rels db !! r_id r = None →
  has_revision dep rev (put_rel r db) ↔
  has_revision dep rev db ∨ r_dep r = dep ∧ r_revision r = rev.
Proof.
  intros Hf. unfold has_revision; simpl. split.
  - intros (k & q & Hq & ? & ?). destruct (decide (k = r_id r)) as [->|]; simplify_map_eq; eauto 10.
  - intros [(k & q & Hq & ? & ?)|[? ?]].
    + exists k, q. rewrite lookup_insert_ne by congruence. done.
    + exists (r_id r), r. by simplify_map_eq.
Qed.

Lemma wf_put_app db a :
  wf db →
  (t_apps db !! a_id a = None ∨ ∃ b, t_apps db !! a_id a = Some b ∧ a_org a = a_org b) →
  (∀ k b, t_apps db !! k = Some b → k ≠ a_id a → ¬ (a_project b = a_project a ∧ a_slug b = a_slug a)) →
  wf (put_app a db).
Proof.
  intros [[Ka Kd Kr Ks] Wa Wd Ws Wr Wu Wl Wg We] Ha Hslug.
  constructor; [constructor|..]; unfold has_revision; simpl; try done.
  - intros k x. destruct (decide (k = a_id a)) as [->|]; intros; simplify_map_eq; eauto.
  - intros k d (b & Hb & Ho)%Wa. destruct (decide (d_app d = a_id a)) as [He|].
    + rewrite He in *. exists a. rewrite lookup_insert_eq. split; [done|].
      destruct Ha as [?|(b' & ? & ->)]; congruence.
    + exists b. by rewrite lookup_insert_ne.
  - intros k1 a1 k2 a2. destruct (decide (k1 = a_id a)) as [->|], (decide (k2 = a_id a)) as [->|];
      intros; simplify_map_eq; try done; try (by eapply Wl); exfalso; eapply Hslug; eauto.
Qed.

(** Adding the next release of an existing deployment. *)
Lemma wf_add_rel db r d n :
  wf db → t_rels db !! r_id r = None →
  t_deps db !! r_dep r = Some d → d_org d = r_org r →
  1 ≤ n → (∀ rev, has_revision (r_dep r) rev db ↔ 1 ≤ rev ≤ n) → r_revision r = n + 1 →
  wf (put_rel r db).
Proof.
  intros W Hf Hd Ho Hn Hrev Hnext. pose proof W as [[Ka Kd Kr Ks] Wa Wd Ws Wr Wu Wl Wg We].
  assert (Hnew : ∀ k q, t_rels db !! k = Some q → r_dep q = r_dep r → r_revision q ≠ r_revision r).
  { intros k q Hq Hqd Heq. assert (has_revision (r_dep r) (r_revision r) db) as Hh by (exists k, q; auto).
    apply Hrev in Hh. lia. }
  constructor; [constructor|..]; try done.
  - intros k x; simpl. destruct (decide (k = r_id r)) as [->|]; intros; simplify_map_eq; eauto.
  - intros k x; simpl. destruct (decide (k = r_id r)) as [->|]; intros; simplify_map_eq; eauto.
  - intros k rs (q & e & Hq & ? & ? & ?)%Ws. exists q, e. simpl.
    rewrite lookup_insert_ne by congruence. done.
  - intros k e He. destruct (decide (k = r_dep r)) as [->|Hne].
    + exists (n + 1). split; [lia|]. intros rev. rewrite has_revision_add, Hrev by done.
      split; [intros [?|[_ ?]]; lia|]. intros. destruct (decide (rev ≤ n)); [left|right]; [lia|].
      split; [done|lia].
    + destruct (Wr _ _ He) as (m & Hm & Hr). exists m. split; [done|]. intros rev.
      rewrite has_revision_add, Hr by done. naive_solver.
  - intros k1 r1 k2 r2; simpl.
    destruct (decide (k1 = r_id r)) as [->|], (decide (k2 = r_id r)) as [->|];
      intros; simplify_map_eq; try done; try (by eapply Wu); exfalso; eapply Hnew; eauto.
Qed.

(** A new deployment comes with its first release. *)
Lemma wf_new_deployment db d r a :
  wf db → t_deps db !! d_id d = None → t_apps db !! d_app d = Some a → a_org a = d_org d →
  t_rels db !! r_id r = None → r_org r = d_org d → r_dep r = d_id d → r_revision r = 1 →
  (∀ k q, t_rels db !! k = Some q → r_dep q ≠ d_id d) →
  wf (put_rel r (put_dep d db)).
Proof.
  intros [[Ka Kd Kr Ks] Wa Wd Ws Wr Wu Wl Wg We] Hd Ha Hoa Hr Hor Hdep Hrev Hnone.
  constructor; [constructor|..]; try done.
  - intros k x; simpl. destruct (decide (k = d_id d)) as [->|]; intros; simplify_map_eq; eauto.
  - intros k x; simpl. destruct (decide (k = r_id r)) as [->|]; intros; simplify_map_eq; eauto.
  - intros k x; simpl. destruct (decide (k = d_id d)) as [->|]; intros; simplify_map_eq; eauto.
  - intros k x; simpl. destruct (decide (k = r_id r)) as [->|]; intros; simplify_map_eq.
    + rewrite Hdep, lookup_insert_eq. eauto.
    + destruct (Wd _ _ H) as (e & He & ?). rewrite lookup_insert_ne by congruence. eauto.
  - intros k rs (q & e & Hq & ? & ? & ?)%Ws. exists q, e. simpl.
    rewrite !lookup_insert_ne by congruence. done.
  - intros k x; simpl. intros Hx. destruct (decide (k = d_id d)) as [->|Hne].
    + exists 1. split; [done|]. intros rev. rewrite has_revision_add by done. split.
      * intros [(k & q & ? & ? & ?)|[_ ?]]; [|lia]. by exfalso; eapply Hnone.
      * intros. right. split; [done|lia].
    + rewrite lookup_insert_ne in Hx by done. destruct (Wr _ _ Hx) as (m & Hm & Hmr).
      exists m. split; [done|]. intros rev. rewrite has_revision_add by done.
      change (has_revision k rev (put_dep d db)) with (has_revision k rev db).
      rewrite Hmr. naive_solver.
  - intros k1 r1 k2 r2; simpl.
    destruct (decide (k1 = r_id r)) as [->|], (decide (k2 = r_id r)) as [->|];
      intros; simplify_map_eq; try done; try (by eapply Wu);
      exfalso; eapply Hnone; eauto; congruence.
  - eapply argo_ok_deps; [exact Wg|]. intros k x Hx. exists x. split; [|done]. simpl.
    by rewrite lookup_insert_ne by congruence.
Qed.

Lemma next_revision_succ o k d rev db n :
  wf db → o ≠ "" → t_deps db !! k = Some d → d_org d = o → next_revision o k rev db →
  1 ≤ n → (∀ z, has_revision k z db ↔ 1 ≤ z ≤ n) → rev = n + 1.
Proof.
  intros W Ho Hd Hdo [Hq Hfree] Hn Hrev.
  assert (Hno : ¬ (1 ≤ rev ≤ n)).
  { intros Hh. apply Hrev in Hh as (k' & q & Hk' & ? & ?). by eapply Hfree. }
  destruct Hq as [[Hnil ->]|(q & Hq & ->)].
  - assert (Hh : has_revision k 1 db) by (apply Hrev; lia).
    destruct Hh as (k' & q & Hk' & Hqd & _).
    destruct (wf_dep db W _ _ Hk') as (d' & Hd' & Ho'). rewrite Hqd in Hd'. simplify_eq.
    assert (q ∈ releases_of (d_org d) (r_dep q) db) as Hin.
    { apply elem_of_releases_of. eauto. }
    rewrite Hnil in Hin. by apply not_elem_of_nil in Hin.
  - apply elem_of_releases_of in Hq as (_ & _ & Hqd & k' & Hk').
    assert (Hh : has_revision k (r_revision q) db) by (exists k', q; auto).
    apply Hrev in Hh. lia.
Qed.

(** [DELETE FROM applications] on a well-formed database. *)
Lemma delete_deployments_wf db db' k a :
  wf db → t_apps db !! k = Some a →
  delete_deployments (λ d, String.eqb (d_app d) k) db = inr db' →
  (∀ x d, t_deps db !! x = Some d → d_app d ≠ k) ∧
  t_apps db' = t_apps db ∧ t_deps db' = t_deps db ∧ t_rels db' = t_rels db ∧
  t_rollouts db' = t_rollouts db ∧ t_outbox db' = t_outbox db ∧ t_argo db' = t_argo db.
Proof.
  intros W Ha [Hno ->]%delete_deployments_inr.
  assert (Hnone : ∀ x d, t_deps db !! x = Some d → d_app d ≠ k).
  { intros x d Hd Hk. destruct (wf_revisions db W _ _ Hd) as (n & Hn & Hrev).
    assert (Hh : has_revision x 1 db) by (apply Hrev; lia).
    destruct Hh as (y & r & Hr & Hrd & _). rewrite <- Hrd in Hd.
    pose proof (Hno _ _ _ Hr Hd) as Hf. by apply String.eqb_neq in Hf. }
  assert (Hkeep : filter (λ kv : string * Deployment, String.eqb (d_app kv.2) k = false)
                    (t_deps db) = t_deps db).
  { apply map_filter_id. intros x d Hd. apply String.eqb_neq. by eapply Hnone. }
  assert (Hgone : filter (λ kv : string * Deployment, String.eqb (d_app kv.2) k = true)
                    (t_deps db) = ∅).
  { apply map_empty_filter_2. intros x d Hd Hk%String.eqb_eq. by eapply Hnone. }
  split; [done|]. simpl. rewrite Hkeep, Hgone. split_and!; try done;
    apply map_filter_id; intros x rs _; apply bool_decide_eq_false; simpl;
    rewrite lookup_empty; apply is_Some_None.
Qed.

Lemma outbox_ok_snoc row db :
  outbox_ok (t_outbox db) → Validate (ob_event row) = None → fresh_row row db →
  outbox_ok (t_outbox db ++ [row]).
Proof.
  intros (H1 & H2 & H3) Hv Hf. unfold outbox_ok. rewrite !fmap_app. split_and!.
  - apply NoDup_app. split_and!; [done| |apply NoDup_singleton].
    intros id (r & -> & Hr)%list_elem_of_fmap Hin. apply list_elem_of_singleton in Hin.
    by destruct (Hf _ Hr).
  - apply NoDup_app. split_and!; [done| |apply NoDup_singleton].
    intros id (r & -> & Hr)%list_elem_of_fmap Hin. apply list_elem_of_singleton in Hin.
    by destruct (Hf _ Hr).
  - apply Forall_app. split; [done|]. by apply Forall_singleton.
Qed.

Lemma change_wf o now db db' : o ≠ "" → wf db → change o now db db' → wf db'.
Proof.
  intros Ho W Hc. pose proof W as [[Ka Kd Kr Ks] Wa Wd Ws Wr Wu Wl Wg We]. destruct Hc.
  - eapply wf_of; try done. by apply outbox_ok_snoc.
  - apply wf_put_app; [done|by left|]. intros k b Hb _. by eapply H1.
  - pose proof (Ka _ _ H). subst k. apply wf_put_app; [done| |].
    + right. exists a. done.
    + simpl. intros k b Hb Hne [Hp Hs]. apply Hne. by eapply Wl.
  - destruct (delete_deployments_wf _ _ _ _ W H H1) as (Hnone & Ea & Ed & Er & Es & Eo & Eg).
    constructor; [constructor|..]; simpl; unfold has_revision; simpl;
      rewrite ?Ea, ?Ed, ?Er, ?Es, ?Eo, ?Eg; try done.
    + intros x y [_ Hy]%lookup_delete_Some. eauto.
    + intros x d Hd. destruct (Wa _ _ Hd) as (b & Hb & ?). exists b. split; [|done].
      rewrite lookup_delete_ne; [done|]. intros Heq. by eapply Hnone.
    + intros k1 a1 k2 a2 [_ ?]%lookup_delete_Some [_ ?]%lookup_delete_Some. eauto.
  - destruct H6 as (? & ? & _). eapply wf_new_deployment; try done; congruence.
  - pose proof (Kd _ _ H) as Hk. destruct (Wr _ _ H) as (n & Hn & Hrev).
    destruct H2 as (Hf & Hor & _).
    assert (Hnext : r_revision r = n + 1) by (by eapply next_revision_succ).
    rewrite <- H3 in Hrev. apply (wf_add_rel _ r (edit_dep e now d) n); try done.
    + apply (wf_put_dep _ d); simpl; congruence.
    + simpl. by rewrite Hk, H3, lookup_insert_eq.
    + simpl. congruence.
  - pose proof (Kr _ _ H). subst k. by eapply wf_put_rel; [done|done|].
  - pose proof (Kd _ _ H). subst k. by eapply wf_put_dep.
  - constructor; [constructor|..]; simpl; unfold has_revision; simpl; try done.
    + intros k x. destruct (decide (k = (rs_dep rs, rs_rel rs))) as [->|];
        intros; simplify_map_eq; eauto.
    + intros k x. destruct (decide (k = (rs_dep rs, rs_rel rs))) as [->|];
        intros; simplify_map_eq; eauto 10.
  - eapply wf_of; try done. simpl. eapply argo_ok_put; [done|done|congruence|].
    intros k b Hb Hbo. apply (H3 k); [done|congruence].
  - by eapply wf_of.
Qed.

(** ** Guarantees of a step *)
Definition released (db db' : DB) : Prop :=
  ∀ k r, t_rels db !! k = Some r → ∃ r', t_rels db' !! k = Some r' ∧ same_release r r'.

(** The rows of the tenants other than [o] are the same. *)
Definition same_rows {K} `{Countable K} {A} (row_org : A → string) (o : string)
    (m m' : gmap K A) : Prop :=
  ∀ k a, row_org a ≠ o → m !! k = Some a ↔ m' !! k = Some a.
Record confined (o : string) (db db' : DB) : Prop := {
  conf_apps : same_rows a_org o (t_apps db) (t_apps db');
  conf_deps : same_rows d_org o (t_deps db) (t_deps db');
  conf_rels : same_rows r_org o (t_rels db) (t_rels db');
  conf_rollouts : same_rows rs_org o (t_rollouts db) (t_rollouts db');
  conf_argo : same_rows ar_org o (t_argo db) (t_argo db');
  conf_rest : t_orgs db' = t_orgs db ∧ t_projects db' = t_projects db ∧
              t_clusters db' = t_clusters db ∧ t_members db' = t_members db }.

Definition logged (o : string) (db db' : DB) : Prop :=
  ∃ rows, t_outbox db' = t_outbox db ++ rows ∧
    Forall (λ row, OrgID (ob_event row) = o ∧ ob_published row = None) rows.

Lemma same_release_refl r : same_release r r.
Proof. done. Qed.
Lemma same_release_trans r1 r2 r3 :
  same_release r1 r2 → same_release r2 r3 → same_release r1 r3.
Proof. unfold same_release. intuition congruence. Qed.

#[export] Instance released_preorder : PreOrder released.
Proof.
  split.
  - intros db k r Hr. eauto using same_release_refl.
  - intros d1 d2 d3 H1 H2 k r Hr. destruct (H1 _ _ Hr) as (r2 & Hr2 & ?).
    destruct (H2 _ _ Hr2) as (r3 & ? & ?). eauto using same_release_trans.
Qed.
#[export] Instance confined_preorder o : PreOrder (confined o).
Proof.
  split.
  - intros db. by split.
  - intros d1 d2 d3 [A1 B1 C1 D1 G1 E1] [A2 B2 C2 D2 G2 E2]. unfold same_rows in *. split.
    all: try (intros k a Ha; by rewrite <- ?A2, <- ?A1, <- ?B2, <- ?B1, <- ?C2, <- ?C1,
      <- ?D2, <- ?D1, <- ?G2, <- ?G1).
    destruct E1 as (?&?&?&?), E2 as (?&?&?&?). split_and!; congruence.
Qed.
#[export] Instance logged_preorder o : PreOrder (logged o).
Proof.
  split.
  - intros db. exists []. by rewrite app_nil_r.
  - intros d1 d2 d3 (l1 & H1 & F1) (l2 & H2 & F2). exists (l1 ++ l2).
    rewrite H2, H1, <- app_assoc. split; [done|]. by apply Forall_app.
Qed.

(** Writing a row of tenant [o] over nothing or over a row of [o]. *)
Lemma same_rows_insert {K} `{Countable K} {A} (f : A → string) o (m : gmap K A) k a :
  f a = o → (∀ b, m !! k = Some b → f b = o) → same_rows f o m (<[k := a]> m).
Proof.
  intros Ha Hb j x Hx. destruct (decide (j = k)) as [->|]; [|by rewrite lookup_insert_ne].
  rewrite lookup_insert_eq. split; [intros Hk; by apply Hb in Hk|by intros [= ->]].
Qed.
Lemma same_rows_refl {K} `{Countable K} {A} (f : A → string) o (m : gmap K A) :
  same_rows f o m m.
Proof. done. Qed.

Lemma change_released o now db db' : wf db → change o now db db' → released db db'.
Proof.
  intros W Hc. pose proof (keyed_rels db W) as Kr.
  assert (Hfresh : ∀ r m, t_rels db !! r_id r = None →
            released db (set_rels (<[r_id r := r]> (t_rels db)) m)).
  { intros r m Hf k x Hx. exists x. simpl. rewrite lookup_insert_ne by congruence. done. }
  destruct Hc; try (intros k' x Hx; exists x; done).
  - destruct (delete_deployments_wf _ _ _ _ W H H1) as (_ & _ & _ & Er & _).
    intros k' x Hx. exists x. simpl. by rewrite Er.
  - apply (Hfresh r (put_dep d db)). by destruct H6.
  - apply (Hfresh r (put_dep (edit_dep e now d) db)). by destruct H2.
  - intros k' x Hx. destruct (decide (k' = k)) as [->|].
    + simplify_eq. pose proof (Kr _ _ H) as <-. simpl. rewrite lookup_insert_eq. eexists. done.
    + exists x. simpl. rewrite lookup_insert_ne; [done|]. by rewrite (Kr _ _ H).
Qed.

Lemma change_confined o now db db' : wf db → change o now db db' → confined o db db'.
Proof.
  intros W Hc. pose proof W as [[Ka Kd Kr Ks] _ _ _ _ _ _ _ _]. destruct Hc; split;
    try done; simpl.
  - apply same_rows_insert; [done|]. intros b. by rewrite H0.
  - apply same_rows_insert; [done|]. intros b. rewrite (Ka _ _ H), H. by intros [= <-].
  - destruct (delete_deployments_wf _ _ _ _ W H H1) as (_ & -> & _).
    intros j x Hx. destruct (decide (j = k)) as [->|].
    + rewrite lookup_delete_eq, H. split; [by intros [= ->]|done].
    + by rewrite lookup_delete_ne.
  - by destruct (delete_deployments_wf _ _ _ _ W H H1) as (_ & _ & -> & _).
  - by destruct (delete_deployments_wf _ _ _ _ W H H1) as (_ & _ & _ & -> & _).
  - by destruct (delete_deployments_wf _ _ _ _ W H H1) as (_ & _ & _ & _ & -> & _).
  - by destruct (delete_deployments_wf _ _ _ _ W H H1) as (_ & _ & _ & _ & _ & _ & ->).
  - apply delete_deployments_inr in H1 as [_ ->]. done.
  - apply same_rows_insert; [done|]. intros b. by rewrite H0.
  - apply same_rows_insert; [by destruct H6 as (_ & ? & _)|].
    intros b Hb. destruct H6 as (Hn & _). congruence.
  - apply same_rows_insert; [done|]. intros b. simpl. rewrite (Kd _ _ H), H. by intros [= <-].
  - apply same_rows_insert; [by destruct H2 as (_ & ? & _)|].
    intros b Hb. destruct H2 as (Hn & _). congruence.
  - apply same_rows_insert; [done|]. intros b. simpl. rewrite (Kr _ _ H), H. by intros [= <-].
  - apply same_rows_insert; [done|]. intros b. simpl. rewrite (Kd _ _ H), H. by intros [= <-].
  - apply same_rows_insert; [done|]. intros b Hb. by apply H4.
  - apply same_rows_insert; [done|]. intros b Hb. by apply H2.
Qed.

Lemma change_logged o now db db' : wf db → change o now db db' → logged o db db'.
Proof.
  intros W Hc. destruct Hc; try (exists []; by rewrite app_nil_r).
  - exists [row]. split; [done|]. by apply Forall_singleton.
  - destruct (delete_deployments_wf _ _ _ _ W H H1) as (_ & _ & _ & _ & _ & Eo & _).
    exists []. simpl. by rewrite Eo, app_nil_r.
Qed.

(** Everything a run of steps in a tenant guarantees. *)
Definition guaranteed (o : string) (db db' : DB) : Prop :=
  wf db' ∧ released db db' ∧ confined o db db' ∧ logged o db db'.

Lemma steps_guaranteed o now db db' :
  o ≠ "" → wf db → rtc (change o now) db db' → guaranteed o db db'.
Proof.
  intros Ho W Hs. induction Hs as [db|db db1 db2 Hc _ IH]; [split_and!; [done|reflexivity..]|].
  destruct IH as (? & ? & ? & ?); [by eapply change_wf|].
  split_and!; [done|etrans; [by eapply change_released|done]|
    etrans; [by eapply change_confined|done]|etrans; [by eapply change_logged|done]].
Qed.
