(* ===== verification/ServiceFacts.v ===== *)
(** * What the service methods do

    For every method of [DeploymentService] that changes state: who may
    succeed, and the exact database after a success; an error changes nothing.
    Each success is a run of the abstract machine of [Spec]. *)

From S2P Require Import Prelude Json AppErrors Tx Events Domain Pagination Authz Store.
From S2P Require Import DeploymentService StoreFacts Spec.
Open Scope Z_scope.
Open Scope tx_scope.
#[local] Opaque hashConfig Sha256.Sum256 release_config.

(** ** Authorization *)

Definition may_deploy (o user : string) : DB → Prop :=
  active_member o user (λ role, role = OrgOwner ∨ role = OrgAdmin).

Lemma authorize_deploy_inv o user (s : Sess DB Stream) r s' :
  authorize_deploy o user s = (r, s') →
  store s' = store s ∧ same_env s s' ∧
  (is_ok r = true → o ≠ "" ∧ user ≠ "" ∧ may_deploy o user (store s)).
Proof.
  intros (? & ? & Ha)%AuthorizeOrgMember_inv. split_and!; [done..|].
  intros (? & ? & Hm)%Ha. split_and!; [done..|].
  eapply active_member_impl, Hm. by intros role ?%grants_deploy.
Qed.

(** ** The shape of the methods *)

Lemma runs_auth {A} o user (P : DB → Prop) (fn m : DBM A) :
  runs o P fn m →
  runs o (λ db, may_deploy o user db ∧ P db) fn (let* _ := authorize_deploy o user in m).
Proof. apply runs_probe. intros s r s' (? & ? & Ha)%authorize_deploy_inv. naive_solver. Qed.

(** An action on the database: whatever it returns, what it did to the database
    is a run of the abstract machine. *)
Definition acts (o : string) {A} (m : DBM A) : Prop :=
  ∀ s r s', proper_uuids s → m s = (r, s') → wf (store s) →
    store s' = store s ∨ o ≠ "" ∧ rtc (change o (clock s)) (store s) (store s').

(** A read, and an action after another. *)
Lemma readonly_acts {A} o (m : DBM A) : readonly m → acts o m.
Proof. intros Hm s r s' _ H _. specialize (Hm s). rewrite H in Hm. by left. Qed.
Lemma acts_bind {A B} o (m : DBM A) (k : A → DBM B) :
  acts o m → stable m → (∀ a, acts o (k a)) → acts o (bind m k).
Proof.
  intros Hm He Hk s r s' Hu H W. unfold bind in H. pose proof (He s) as Henv.
  destruct (m s) as [[a|e] s1] eqn:Hs.
  - pose proof Henv as (_ & _ & Hc). simpl in Hc.
    assert (W1 : store s1 = store s ∨ o ≠ "" ∧ rtc (change o (clock s)) (store s) (store s1))
      by by eapply Hm.
    assert (Wf : wf (store s1)).
    { destruct W1 as [->|[Ho H1]]; [done|].
      by apply (steps_guaranteed o (clock s) (store s)) in H1 as (? & _). }
    destruct (Hk a s1 r s' (proper_uuids_env _ _ Henv Hu) H Wf) as [Heq|[Ho H2]].
    + rewrite Heq. exact W1.
    + right. split; [done|]. rewrite Hc in H2. destruct W1 as [Heq|[_ H1]]; [by rewrite Heq in H2|]. by etrans.
  - injection H as <- <-. by eapply Hm.
Qed.

Lemma acts_try {A} o (m : DBM A) : acts o m → acts o (try m).
Proof.
  intros Hm s r s' Hu H W. unfold try in H. destruct (m s) as [x s1] eqn:Hs.
  injection H as <- <-. by eapply Hm.
Qed.
Lemma ensures_env {A} o P (Q : Z → DB → A → DB → Prop) (m : DBM A) : ensures o P Q m → stable m.
Proof. intros Hm s. destruct (m s) as [r s'] eqn:H. by apply Hm in H as [? _]. Qed.

Lemma ensures_acts {A} o P (Q : Z → DB → A → DB → Prop) (m : DBM A) :
  ensures o P Q m →
  (∀ now db a db', wf db → P db → Q now db a db' → rtc (change o now) db db') → acts o m.
Proof.
  intros Hm HQ s r s' _ [_ H]%Hm W. destruct r as [a|e]; [|by left]. destruct H as (? & ? & ?). right. eauto.
Qed.

(** Replaces the environment and store of every intermediate session. *)
Ltac env_rw :=
  repeat match goal with H : same_env _ _ |- _ => destruct H as (?&?&?) end;
  repeat match goal with
  | H : org ?b = org ?a |- _ => try rewrite H in *; clear H
  | H : clock ?b = clock ?a |- _ => try rewrite H in *; clear H
  | H : uuid_gen ?b = uuid_gen ?a |- _ => clear H
  end;
  repeat match goal with H : store ?b = _ |- _ => try rewrite H in *; clear H end;
  try match goal with H : org _ = ?o |- _ => is_var o; subst o end.

(** Peels the guards of a method down to its transaction. *)
Ltac peel :=
  match goal with
  | |- runs _ _ _ (WithTenant _ _) =>
      apply runs_WithTenant; solve_stable; eauto with stable
  | |- runs _ _ _ (bind (authorize_deploy _ _) _) => apply runs_auth
  | |- runs _ _ _ (bind (check _) _) => apply runs_check
  | |- runs _ _ _ (if _ then _ else _) => apply runs_guard
  end.

Definition req_runtime (r : string) : string := if String.eqb r "" then RuntimeContainer else r.

(** ** Applications *)
Lemma CreateApplication_ensures o proj user req :
  ensures o
    (λ db, may_deploy o user db ∧ validateName (GoStrings.TrimSpace (ca_name req)) = None ∧
           slugPattern (GoStrings.ToLower (GoStrings.TrimSpace (ca_slug req))) = true ∧
           req_runtime (ca_runtime req) ∈ [RuntimeContainer; RuntimeFunction; RuntimeJob])
    (λ now db a db', ∃ row_id eid,
       a_org a = o ∧ a_project a = proj ∧ a_name a = GoStrings.TrimSpace (ca_name req) ∧
       a_slug a = GoStrings.ToLower (GoStrings.TrimSpace (ca_slug req)) ∧
       a_desc a = ca_desc req ∧ a_runtime a = req_runtime (ca_runtime req) ∧
       a_created_by a = Some user ∧ a_version a = 1 ∧
       t_apps db !! a_id a = None ∧ slug_free proj (a_slug a) db ∧
       let row := event_row row_id eid now EventApplicationCreated o
         (applicationCreatedPayload (a_id a) proj (a_name a) (a_slug a) (a_runtime a) user)
         (user_on user "application" (a_id a)) in
       Validate (ob_event row) = None ∧ fresh_row row db ∧
       db' = add_event row (put_app a db))
    (Service_CreateApplication o proj user req).
Proof.
  eapply ensures_weaken; [eapply runs_ensures|].
  - unfold Service_CreateApplication. repeat peel.
  - intros s a s' Ho Hos _ H. inv_bind. inv_bind. injection H as <- <-.
    apply on_err_Ok, app_Create_Ok in Hm as (id & -> & Hid & Hslug & _ & _ & _ & _ & Hst & He).
    apply enqueue_Ok in Hm0 as (row_id & eid & Hv & Hf & Hst' & He').
    env_rw. exists row_id, eid. split_and!; try done.
    unfold req_runtime. simpl. by destruct (String.eqb (ca_runtime req) "") eqn:E; rewrite ?E.
  - intros db (? & ? & Hs%negb_false_iff & Hr%negb_false_iff & _).
    split_and!; [done..|]. by apply one_of_spec.
Qed.

Definition edited_name (req : UpdateApplicationRequest) (a : Application) : string :=
  match ua_name req with Some n => GoStrings.TrimSpace n | None => a_name a end.

Lemma UpdateApplication_ensures o user appID req :
  ensures o (may_deploy o user)
    (λ now db a db', wf db → ∃ r row_id eid,
       t_apps db !! appID = Some r ∧ a_org r = o ∧
       (is_Some (ua_name req) → validateName (edited_name req r) = None) ∧
       let name := edited_name req r in
       let desc := set_if (ua_desc req) (a_desc r) in
       a = edit_app name desc (a_updated r) r ∧
       let row := event_row row_id eid now EventApplicationUpdated o
         (applicationUpdatedPayload appID name user) (user_on user "application" appID) in
       Validate (ob_event row) = None ∧ fresh_row row db ∧
       db' = add_event row (put_app (edit_app name desc now r) db))
    (Service_UpdateApplication o user appID req).
Proof.
  eapply ensures_weaken; [eapply runs_ensures|].
  - unfold Service_UpdateApplication. repeat peel.
  - intros s a s' Ho Hos _ H W. inv_bind. inv_bind. inv_bind. inv_bind. injection H as <- <-.
    apply app_GetByID_Ok in Hm as (Hr & _ & Hro & Hs & He).
    pose proof (keyed_apps _ W _ _ Hr) as Hid.
    assert (x0 = edited_name req x ∧ s1 = s0 ∧
            (is_Some (ua_name req) → validateName (edited_name req x) = None)) as (-> & -> & Hn).
    { unfold edited_name. destruct (ua_name req) as [n|]; [|by injection Hm0 as <- <-; split_and!; [..|intros []]].
      unfold bind, check in Hm0. destruct (validateName _) eqn:Hv; [done|].
      by injection Hm0 as <- <-. }
    apply app_Update_Ok in Hm1 as (r & Hr' & _ & _ & _ & -> & Hst & He1).
    apply enqueue_Ok in Hm2 as (row_id & eid & Hv & Hf & Hst' & He2).
    simpl in *. env_rw. assert (r = x) as -> by congruence. subst appID.
    exists x, row_id, eid. by split_and!.
  - by intros db [? _].
Qed.

(** [DELETE FROM applications] in a well-formed database. *)
Lemma app_Delete_Ok appID s u s' :
  applicationRepo_Delete appID s = (Ok u, s') → wf (store s) →
  ∃ a, t_apps (store s) !! appID = Some a ∧ a_org a = org s ∧
    (∀ k d, t_deps (store s) !! k = Some d → d_app d ≠ appID) ∧
    change (org s) (clock s) (store s) (store s') ∧
    store s' = set_apps (delete appID (t_apps (store s))) (store s) ∧ same_env s s'.
Proof.
  unfold applicationRepo_Delete. intros (n & Hn & Hf & He)%Exec_hit_Ok W.
  unfold delete_application in Hf. destruct (row_at _ _ _ _) as [a|] eqn:Hr; [|by simplify_eq].
  apply row_at_Some in Hr as (Ha & Ho & Hao).
  destruct (delete_deployments _ _) as [c|db1] eqn:Hd; [done|]. injection Hf as _ Hst.
  destruct (delete_deployments_wf _ _ _ _ W Ha Hd) as (Hnone & E1 & E2 & E3 & E4 & E5 & E6).
  exists a. split_and!; try done.
  - rewrite <- Hst. by eapply ch_app_delete.
  - rewrite <- Hst. apply delete_deployments_inr in Hd as [_ ->].
    destruct (store s). simpl in *. unfold set_apps. simpl. by rewrite E2, E4, E6.
Qed.

Lemma DeleteApplication_ensures o user appID :
  ensures o (may_deploy o user)
    (λ now db _ db', wf db → ∃ a row_id eid,
       t_apps db !! appID = Some a ∧ a_org a = o ∧
       (∀ k d, t_deps db !! k = Some d → d_app d ≠ appID) ∧
       let row := event_row row_id eid now EventApplicationDeleted o
         (applicationDeletedPayload appID user) (user_on user "application" appID) in
       Validate (ob_event row) = None ∧ fresh_row row db ∧
       change o now db (set_apps (delete appID (t_apps db)) db) ∧
       db' = add_event row (set_apps (delete appID (t_apps db)) db))
    (Service_DeleteApplication o user appID).
Proof.
  eapply ensures_weaken; [eapply runs_ensures|].
  - unfold Service_DeleteApplication. repeat peel.
  - intros s a s' Ho Hos _ H W. inv_bind.
    apply app_Delete_Ok in Hm as (b & Hb & Hbo & Hno & Hc & Hst & He); [|done].
    apply enqueue_Ok in H as (row_id & eid & Hv & Hf & Hst' & He').
    rewrite Hst in Hc. env_rw. exists b, row_id, eid. by split_and!.
  - by intros db [? _].
Qed.

(** ** Deployments *)
Definition requested_deployment (o user : string) (req : CreateDeploymentRequest) : Deployment :=
  mkDep "" 0 0 0 o (cd_app req) (cd_cluster req) (cd_image req) (cd_replicas req)
    (cd_cpu_request req) (cd_cpu_limit req) (cd_memory_request req) (cd_memory_limit req)
    (cd_port req) (Some (encode_env (default [] (cd_env req)))) StatusPending 0 0 (Some user).

(** The release that pins the configuration of [d]. *)
Definition release_for (o rid user : string) (now revision : Z) (d : Deployment) (env : json)
    : Release :=
  let config := Some (release_config d env) in
  stamp_rel rid now None None None
    (new_release o (d_id d) revision (d_image d) (d_replicas d) (hashConfig config) config
       (Some user)).

Lemma create_deployment_ensures o user req :
  ensures o
    (λ db, may_deploy o user db ∧ GoStrings.TrimSpace (cd_image req) ≠ "" ∧ 1 ≤ cd_replicas req)
    (λ now db dr db', ∃ id rid row_id eid a,
       let d := stamp_dep id now 0 (requested_deployment o user req) in
       let r := release_for o rid user now 1 d
                  (match cd_env req with Some l => encode_env l | None => JNull end) in
       t_deps db !! id = None ∧ t_rels db !! rid = None ∧
       t_apps db !! cd_app req = Some a ∧ a_org a = o ∧
       is_Some (t_clusters db !! cd_cluster req) ∧ dr = (d, r) ∧
       let row := event_row row_id eid now EventDeploymentCreated o
         (deploymentCreatedPayload id (cd_app req) (cd_cluster req) (cd_image req)
            (cd_replicas req) 1 user) (user_on user "deployment" id) in
       Validate (ob_event row) = None ∧ fresh_row row db ∧
       db' = add_event row (put_rel r (put_dep d db)))
    (create_deployment o user req).
Proof.
  eapply ensures_weaken; [eapply runs_ensures|].
  - unfold create_deployment. repeat peel.
  - intros s dr s' Ho Hos _ H. repeat inv_bind. injection H as <- <-.
    apply on_err_Ok, app_GetByID_Ok in Hm as (Ha & _ & Hao & Hs & He).
    apply dep_Create_Ok in Hm0 as (id & -> & Hid & _ & _ & _ & _ & Hcl & Hst & He1).
    apply rel_Create_Ok in Hm1 as (rid & -> & Hrid & _ & _ & _ & _ & _ & _ & Hst1 & He2).
    apply enqueue_Ok in Hm2 as (row_id & eid & Hv & Hf & Hst2 & He3).
    env_rw. exists id, rid, row_id, eid, x. by split_and!.
  - intros db (? & Hi & Hr & _). split_and!; [done|by apply String.eqb_neq|].
    by apply Z.ltb_ge in Hr.
Qed.

Lemma rel_Create_not_aborted r s r' s' :
  releaseRepo_Create r s = (Ok r', s') → aborted s = false.
Proof.
  unfold releaseRepo_Create. intros H. inv_bind.
  apply create_id_Ok in Hm as (_ & _ & <- & _). apply not_true_is_false. intros Ha.
  by eapply on_err_stmt_aborted in H.
Qed.

(** Every deployment of a well-formed database has a release. *)
Lemma wf_has_releases db o k d :
  wf db → o ≠ "" → t_deps db !! k = Some d → d_org d = o → releases_of o k db ≠ [].
Proof.
  intros W Ho Hd Hdo Hnil. destruct (wf_revisions db W _ _ Hd) as (n & Hn & Hrev).
  destruct (proj2 (Hrev 1)) as (k' & q & Hq & Hqd & _); [lia|].
  destruct (wf_dep db W _ _ Hq) as (d' & Hd' & Ho'). rewrite Hqd in Hd'. simplify_eq.
  assert (q ∈ releases_of (d_org d) (r_dep q) db) as Hin by (apply elem_of_releases_of; eauto).
  rewrite Hnil in Hin. by apply not_elem_of_nil in Hin.
Qed.

Lemma apply_update_same req x e :
  apply_update req x = Ok e →
  d_id e = d_id x ∧ d_app e = d_app x ∧ d_cluster e = d_cluster x ∧ d_org e = d_org x ∧
  d_created e = d_created x ∧ d_status e = d_status x ∧ d_ready e = d_ready x.
Proof.
  unfold apply_update. destruct (ud_replicas req) as [n|]; simpl;
    [destruct (n <? 1)|]; by intros; simplify_eq/=.
Qed.

(** The deployment [e] that an update request asks for, from [d]: the fields
    present in the request replace those of [d]. *)
Record updated_to (req : UpdateDeploymentRequest) (d e : Deployment) : Prop := {
  ut_image : d_image e = match ud_image req with Some i => i | None => d_image d end;
  ut_replicas :
    match ud_replicas req with
    | Some n => 1 ≤ n ∧ d_replicas e = n
    | None => d_replicas e = d_replicas d
    end;
  ut_cpu_request : d_cpu_request e =
    match ud_cpu_request req with Some c => Some c | None => d_cpu_request d end;
  ut_cpu_limit : d_cpu_limit e =
    match ud_cpu_limit req with Some c => Some c | None => d_cpu_limit d end;
  ut_memory_request : d_memory_request e =
    match ud_memory_request req with Some c => Some c | None => d_memory_request d end;
  ut_memory_limit : d_memory_limit e =
    match ud_memory_limit req with Some c => Some c | None => d_memory_limit d end;
  ut_port : d_port e = match ud_port req with Some n => Some n | None => d_port d end;
  ut_env : d_env e = match ud_env req with Some l => Some (encode_env l) | None => d_env d end;
  ut_kept : d_id e = d_id d ∧ d_app e = d_app d ∧ d_cluster e = d_cluster d ∧
    d_org e = d_org d ∧ d_created e = d_created d }.
Lemma apply_update_updated req d e : apply_update req d = Ok e → updated_to req d e.
Proof.
  unfold apply_update. destruct (ud_replicas req) as [n|] eqn:Hn; simpl.
  - destruct (Z.ltb_spec n 1); [done|]. intros [= <-]. split; simpl; rewrite ?Hn; done.
  - intros [= <-]. split; simpl; rewrite ?Hn; done.
Qed.

(** The deployment [d] once it runs what the release [t] ran. *)
Definition pointed_at (t : Release) (now : Z) (d : Deployment) : Deployment :=
  mkDep (d_id d) (d_created d) now (d_version d + 1) (d_org d) (d_app d) (d_cluster d)
    (r_image t) (r_replicas t) (d_cpu_request d) (d_cpu_limit d) (d_memory_request d)
    (d_memory_limit d) (d_port d) (d_env d) (d_status d) (d_ready d) (r_replicas t)
    (d_created_by d).
Lemma retarget_pointed_at t now d :
  edit_dep (retarget (r_image t) (r_replicas t) d) now d = pointed_at t now d.
Proof. done. Qed.

Lemma UpdateDeployment_ensures o user depID req :
  ensures o (may_deploy o user)
    (λ now db dr db', wf db → ∃ d e q rid row_id eid,
       t_deps db !! depID = Some d ∧ d_org d = o ∧ d_status d ≠ StatusDeleted ∧
       apply_update req d = Ok e ∧ is_latest q (releases_of o depID db) ∧
       let r := release_for o rid user now (r_revision q + 1) e (default JNull (d_env e)) in
       t_rels db !! rid = None ∧ next_revision o depID (r_revision q + 1) db ∧
       dr.2 = r ∧ toDeploymentView dr.1 None = toDeploymentView
         (edit_dep e (d_updated d) d) None ∧
       let row := event_row row_id eid now EventDeploymentCreated o
         (deploymentCreatedPayload depID (d_app d) (d_cluster d) (d_image e) (d_replicas e)
            (r_revision q + 1) user) (user_on user "deployment" depID) in
       Validate (ob_event row) = None ∧ fresh_row row db ∧
       db' = add_event row (put_rel r (put_dep (edit_dep e now d) db)))
    (Service_UpdateDeployment o user depID req).
Proof.
  eapply ensures_weaken; [eapply runs_ensures|].
  - unfold Service_UpdateDeployment. repeat peel.
  - intros s dr s' Ho Hos _ H W. repeat inv_bind. injection H as <- <-.
    apply dep_GetByID_Ok in Hm as (Hd & _ & Hdo & Hnd & Hs & He).
    pose proof (keyed_deps _ W _ _ Hd) as Hid.
    destruct (apply_update req x) as [e|] eqn:Hupd; [|done]. injection Hm0 as <- <-.
    pose proof (apply_update_same _ _ _ Hupd) as Hsame.
    destruct Hsame as (S1 & S2 & S3 & S4 & S5 & S6 & S7).
    apply dep_Update_Ok in Hm1 as (y & Hy & _ & _ & _ & -> & Hst & He1).
    apply try_inv, GetLatest_inv in Hm2 as (Hs2 & He2 & Hlatest).
    pose proof (rel_Create_not_aborted _ _ _ _ Hm3) as Hab.
    apply rel_Create_Ok in Hm3 as (rid & -> & Hrid & _ & _ & _ & Huniq & _ & _ & Hst3 & He3).
    apply enqueue_Ok in Hm4 as (row_id & eid & Hv & Hf & Hst4 & He4).
    simpl in *. env_rw. assert (y = x) as -> by congruence. subst depID.
    change (releases_of (org s) (d_id x) (put_dep (edit_dep e (clock s) x) (store s)))
      with (releases_of (org s) (d_id x) (store s)) in Hlatest.
    destruct x2 as [q|err].
    + exists x, e, q, rid, row_id, eid. split_and!; try done.
      * split; [right; exists q; split; [by destruct Hlatest|done]|]. exact Huniq.
      * unfold release_for. by rewrite S1.
      * unfold toDeploymentView. simpl. by rewrite S1, S2, S3, S4, S5, S6, S7.
      * by rewrite <- S1, <- S2, <- S3.
    + destruct Hlatest as [?|[Hnil _]]; [congruence|].
      by destruct (wf_has_releases _ _ _ _ W Ho Hd Hdo).
  - by intros db [? _].
Qed.

(** The release a rollback goes back to. *)
Definition rollback_target (req : RollbackRequest) (o dep : string) (q t : Release) (db : DB)
    : Prop :=
  match rb_target req with
  | Some rev => t ∈ releases_of o dep db ∧ r_revision t = rev
  | None => is_latest t (earlier_successes o dep (r_revision q) db)
  end.

Definition rollback_release (o dep rid : string) (createdBy : option string) (now revision : Z)
    (t : Release) : Release :=
  stamp_rel rid now None None None
    (new_release o dep revision (r_image t) (r_replicas t) (r_hash t) (r_config t) createdBy).

Lemma Rollback_ensures o user depID req :
  ensures o (may_deploy o user)
    (λ now db dr db', wf db → ∃ d q t rid row_id eid,
       t_deps db !! depID = Some d ∧ d_org d = o ∧ d_status d ≠ StatusDeleted ∧
       is_latest q (releases_of o depID db) ∧ rollback_target req o depID q t db ∧
       let r := rollback_release o depID rid (Some user) now (r_revision q + 1) t in
       let d' := edit_dep (retarget (r_image t) (r_replicas t) d) now d in
       t_rels db !! rid = None ∧ next_revision o depID (r_revision q + 1) db ∧ dr.2 = r ∧
       d_status dr.1 = StatusPending ∧
       let row := event_row row_id eid now EventDeploymentRollback o
         (deploymentRollbackPayload depID (r_revision q) (r_revision t) user)
         (user_on user "deployment" depID) in
       Validate (ob_event row) = None ∧ fresh_row row db ∧
       db' = add_event row (put_rel r (put_dep d' db)))
    (Service_Rollback o user depID req).
Proof.
  eapply ensures_weaken; [eapply runs_ensures|].
  - unfold Service_Rollback. repeat peel.
    all: apply stable_QueryOne.
  - intros s dr s' Ho Hos _ H W. repeat inv_bind. injection H as <- <-.
    apply dep_GetByID_Ok in Hm as (Hd & _ & Hdo & Hnd & Hs & He).
    pose proof (keyed_deps _ W _ _ Hd) as Hid.
    apply GetLatest_inv in Hm0 as (Hs0 & He0 & Hlatest).
    assert (rollback_target req (org s1) depID x0 x1 (store s1) ∧ store s2 = store s1 ∧
            same_env s1 s2) as (Ht & Hs2 & He2).
    { unfold rollback_target. destruct (rb_target req); apply on_err_Ok in Hm1.
      - apply GetByRevision_Ok in Hm1 as (?&?&?&?). done.
      - apply GetPreviousSuccessful_inv in Hm1 as (?&?&?). done. }
    assert (s3 = s2) as -> by (revert Hm2; unfold unmarshal_object; repeat case_match; by intros [=]).
    apply dep_Update_Ok in Hm3 as (y & Hy & _ & _ & _ & -> & Hst & He1).
    apply rel_Create_Ok in Hm4 as (rid & -> & Hrid & _ & _ & _ & Huniq & _ & _ & Hst3 & He3).
    apply enqueue_Ok in Hm5 as (row_id & eid & Hv & Hf & Hst4 & He4).
    simpl in *. env_rw. assert (y = x) as -> by congruence. subst depID.
    exists x, x0, x1, rid, row_id, eid. split_and!; try done.
    split; [right; exists x0; split; [by destruct Hlatest|done]|]. exact Huniq.
  - by intros db [? _].
Qed.

Lemma DeleteDeployment_ensures o user depID :
  ensures o (may_deploy o user)
    (λ now db _ db', ∃ d row_id eid,
       t_deps db !! depID = Some d ∧ d_org d = o ∧ d_status d ≠ StatusDeleted ∧
       let row := event_row row_id eid now EventDeploymentDeleted o
         (deploymentDeletedPayload depID (d_app d) user) (user_on user "deployment" depID) in
       Validate (ob_event row) = None ∧ fresh_row row db ∧
       db' = add_event row (put_dep (with_status StatusDeleted None now d) db))
    (Service_DeleteDeployment o user depID).
Proof.
  eapply ensures_weaken; [eapply runs_ensures|].
  - unfold Service_DeleteDeployment. repeat peel.
  - intros s dr s' Ho Hos _ H. repeat inv_bind.
    apply dep_GetByID_Ok in Hm as (Hd & _ & Hdo & Hnd & Hs & He).
    apply dep_set_status_Ok in Hm0 as (y & Hy & _ & _ & Hst & He0).
    apply enqueue_Ok in H as (row_id & eid & Hv & Hf & Hst4 & He4).
    env_rw. simplify_eq. exists x, row_id, eid. by split_and!.
  - by intros db [? _].
Qed.

(** ** Status updates *)

(** The three [MarkDeployment...] methods: release [rel] gets the fields [f],
    deployment [depID] the status [st]. *)
Lemma mark_body o depID relID (mark : DBM unit) st ready err ty (p : Release → payload)
    (f : Z → Release → Release) s u s' :
  org s = o →
  (∀ s u s', mark s = (Ok u, s') → ∃ r, t_rels (store s) !! relID = Some r ∧ r_org r = org s ∧
     store s' = put_rel (f (clock s) r) (store s) ∧ same_env s s') →
  (let* rel := releaseRepo_GetByID relID in
   mark ;;
   deploymentRepo_UpdateStatus depID st ready err ;;
   enqueue ty o (p rel) (on_deployment depID)) s = (Ok u, s') →
  ∃ r d row_id eid,
    t_rels (store s) !! relID = Some r ∧ r_org r = o ∧
    t_deps (store s) !! depID = Some d ∧ d_org d = o ∧
    let row := event_row row_id eid (clock s) ty o (p r) (on_deployment depID) in
    Validate (ob_event row) = None ∧ fresh_row row (store s) ∧
    store s' = add_event row (put_dep (with_status st ready (clock s) d)
                 (put_rel (f (clock s) r) (store s))).
Proof.
  intros Ho Hmark H. repeat inv_bind.
  apply rel_GetByID_Ok in Hm as (Hr & _ & Hro & Hs & He).
  apply Hmark in Hm0 as (r & Hr' & _ & Hst & He0).
  apply dep_set_status_Ok in Hm1 as (d & Hd & _ & Hdo & Hst1 & He1).
  apply enqueue_Ok in H as (row_id & eid & Hv & Hf & Hst2 & He2).
  env_rw. simplify_eq. exists x, d, row_id, eid. by split_and!.
Qed.

Lemma MarkStarted_Ok id s u s' :
  releaseRepo_MarkStarted id s = (Ok u, s') → ∃ r, t_rels (store s) !! id = Some r ∧
    r_org r = org s ∧
    store s' = put_rel (rel_with ReleaseDeploying (Some (clock s)) (r_finished r) (r_error r) r)
                 (store s) ∧ same_env s s'.
Proof.
  intros H.
  apply (rel_update_Ok id (λ now r, rel_with ReleaseDeploying (Some now) (r_finished r) (r_error r) r))
    in H as (r & Hr & _ & Ho & Hst & He). exists r. auto.
Qed.

Lemma MarkFinished_Ok id st err s u s' :
  releaseRepo_MarkFinished id st err s = (Ok u, s') → ∃ r, t_rels (store s) !! id = Some r ∧
    r_org r = org s ∧
    store s' = put_rel (rel_with st (r_started r) (Some (clock s)) err r) (store s) ∧
    same_env s s'.
Proof.
  intros H. apply (rel_update_Ok id (λ now r, rel_with st (r_started r) (Some now) err r))
    in H as (r & Hr & _ & Ho & Hst & He). exists r. auto.
Qed.

(** What a status update of either kind does. *)
Definition marks (o depID relID st : string) (ready : option Z) (ty : string)
    (p : Release → payload) (f : Z → Release → Release) (now : Z) (db : DB) (db' : DB) : Prop :=
  ∃ r d row_id eid,
    t_rels db !! relID = Some r ∧ r_org r = o ∧ t_deps db !! depID = Some d ∧ d_org d = o ∧
    let row := event_row row_id eid now ty o (p r) (on_deployment depID) in
    Validate (ob_event row) = None ∧ fresh_row row db ∧
    db' = add_event row (put_dep (with_status st ready now d) (put_rel (f now r) db)).

Lemma MarkDeploymentStarted_ensures o user depID relID :
  ensures o (may_deploy o user)
    (λ now db _, marks o depID relID StatusRunning None EventDeploymentStarted
       (λ r, deploymentStartedPayload depID relID (r_revision r) (r_image r))
       (λ now r, rel_with ReleaseDeploying (Some now) (r_finished r) (r_error r) r) now db)
    (Service_MarkDeploymentStarted o user depID relID).
Proof.
  eapply ensures_weaken; [eapply runs_ensures|].
  - unfold Service_MarkDeploymentStarted. repeat peel.
  - intros s u s' _ Hos _ H. eapply (mark_body _ _ _ _ _ _ _ _
      (λ r, deploymentStartedPayload depID relID (r_revision r) (r_image r))) in H;
      [exact H|done|]. intros ??? Hm. by apply MarkStarted_Ok in Hm.
  - by intros db [? _].
Qed.

Lemma MarkDeploymentSucceeded_ensures o user depID relID ready :
  ensures o (may_deploy o user)
    (λ now db _, marks o depID relID StatusSucceeded (Some ready) EventDeploymentSucceeded
       (λ r, deploymentSucceededPayload depID relID (r_revision r) ready)
       (λ now r, rel_with ReleaseSucceeded (r_started r) (Some now) None r) now db)
    (Service_MarkDeploymentSucceeded o user depID relID ready).
Proof.
  eapply ensures_weaken; [eapply runs_ensures|].
  - unfold Service_MarkDeploymentSucceeded. repeat peel.
  - intros s u s' _ Hos _ H. eapply (mark_body _ _ _ _ _ _ _ _
      (λ r, deploymentSucceededPayload depID relID (r_revision r) ready)) in H;
      [exact H|done|]. intros ??? Hm. by apply MarkFinished_Ok in Hm.
  - by intros db [? _].
Qed.

Lemma MarkDeploymentFailed_ensures o user depID relID msg :
  ensures o (may_deploy o user)
    (λ now db _, marks o depID relID StatusFailed None EventDeploymentFailed
       (λ r, deploymentFailedPayload depID relID (r_revision r) msg)
       (λ now r, rel_with ReleaseFailed (r_started r) (Some now) (Some msg) r) now db)
    (Service_MarkDeploymentFailed o user depID relID msg).
Proof.
  eapply ensures_weaken; [eapply runs_ensures|].
  - unfold Service_MarkDeploymentFailed. repeat peel.
  - intros s u s' _ Hos _ H. eapply (mark_body _ _ _ _ _ _ _ _
      (λ r, deploymentFailedPayload depID relID (r_revision r) msg)) in H;
      [exact H|done|]. intros ??? Hm. by apply MarkFinished_Ok in Hm.
  - by intros db [? _].
Qed.

(** ** Runs of the abstract machine *)
Lemma rtc_3 {A} (R : A → A → Prop) x y z w : R x y → R y z → R z w → rtc R x w.
Proof. intros. eapply rtc_l, rtc_l, rtc_once; eauto. Qed.

(** The event that ends a run. *)
Lemma steps_event o now db db' row :
  rtc (change o now) db db' → t_outbox db' = t_outbox db → OrgID (ob_event row) = o →
  Validate (ob_event row) = None → fresh_row row db → ob_published row = None →
  ob_created row = now →
  rtc (change o now) db (add_event row db').
Proof.
  intros Hs Ho ? ? Hf ? ?. eapply rtc_r; [done|]. apply ch_event; try done.
  unfold fresh_row. by rewrite Ho.
Qed.

Lemma CreateApplication_acts o proj user req : acts o (Service_CreateApplication o proj user req).
Proof.
  eapply ensures_acts; [apply CreateApplication_ensures|].
  intros now db a db' W _ (row_id & eid & Ho & Hp & _ & _ & _ & _ & _ & Hv & Hid & Hs & Hval & Hf & ->).
  apply steps_event; try done. apply rtc_once, ch_app_new; try done. by rewrite Hp.
Qed.

Lemma UpdateApplication_acts o user appID req : acts o (Service_UpdateApplication o user appID req).
Proof.
  eapply ensures_acts; [apply UpdateApplication_ensures|].
  intros now db a db' W _ H. destruct (H W) as (r & row_id & eid & Hr & Ho & _ & _ & ? & ? & ->).
  apply steps_event; try done. eapply rtc_once, ch_app_edit; done.
Qed.

Lemma DeleteApplication_acts o user appID : acts o (Service_DeleteApplication o user appID).
Proof.
  eapply ensures_acts; [apply DeleteApplication_ensures|].
  intros now db a db' W _ H.
  destruct (H W) as (r & row_id & eid & Hr & Ho & _ & ? & ? & Hc & ->).
  apply steps_event; try done. by apply rtc_once.
Qed.

Lemma create_deployment_acts o user req : acts o (create_deployment o user req).
Proof.
  eapply ensures_acts; [by apply create_deployment_ensures|].
  intros now db dr db' W _ (id & rid & row_id & eid & a & Hid & Hrid & Ha & Hao & _ & _ & ? & ? & ->).
  apply steps_event; try done. eapply rtc_once, ch_dep_new; simpl; try done.
  intros k q Hq Hqd. destruct (wf_dep db W _ _ Hq) as (d & Hd & _). congruence.
Qed.

(** Whatever the registrar does in the organization. *)
Lemma CreateDeployment_acts (argo : option ArgoRegistrar) o user req :
  (∀ reg, argo = Some reg → ∀ u d src, acts o (reg o u d src)) →
  acts o (Service_CreateDeployment argo o user req).
Proof.
  intros Hreg. unfold Service_CreateDeployment. apply acts_bind.
  - apply create_deployment_acts.
  - eapply ensures_env, create_deployment_ensures.
  - intros dr s r s' Hu H W. destruct (cd_gitops req) as [src|], argo as [reg|];
      try (injection H as <- <-; by left).
    unfold try, bind, ret in H. destruct (reg o user (d_id dr.1) src s) as [x s1] eqn:E.
    injection H as <- <-. by eapply (Hreg reg).
Qed.

Lemma UpdateDeployment_acts o user depID req : acts o (Service_UpdateDeployment o user depID req).
Proof.
  eapply ensures_acts; [apply UpdateDeployment_ensures|].
  intros now db dr db' W _ H.
  destruct (H W) as (d & e & q & rid & row_id & eid & Hd & Hdo & Hnd & Hupd & Hq & Hrid & Hnext
    & _ & _ & ? & ? & ->).
  apply steps_event; try done.
  assert (Hid : d_id e = depID).
  { rewrite <- (keyed_deps _ W _ _ Hd). by apply apply_update_same in Hupd as (? & _). }
  eapply rtc_once, (ch_release _ _ _ depID d e); simpl; try done.
Qed.

Lemma Rollback_acts o user depID req : acts o (Service_Rollback o user depID req).
Proof.
  eapply ensures_acts; [apply Rollback_ensures|].
  intros now db dr db' W _ H.
  destruct (H W) as (d & q & t & rid & row_id & eid & Hd & Hdo & Hnd & Hq & Ht & Hrid & Hnext
    & _ & _ & ? & ? & ->).
  apply steps_event; try done. by eapply rtc_once, (ch_release _ _ _ depID d).
Qed.

Lemma DeleteDeployment_acts o user depID : acts o (Service_DeleteDeployment o user depID).
Proof.
  eapply ensures_acts; [apply DeleteDeployment_ensures|].
  intros now db a db' W _ (d & row_id & eid & Hd & Ho & _ & ? & ? & ->).
  apply steps_event; try done. eapply rtc_once, ch_dep_status; done.
Qed.

Lemma marks_steps o depID relID st ready ty p f now db db' :
  (∀ r, ∃ st' started finished err, ValidAgentReleaseStatus st' = true ∧
     f now r = rel_with st' started finished err r) →
  marks o depID relID st ready ty p f now db db' → rtc (change o now) db db'.
Proof.
  intros Hf (r & d & row_id & eid & Hr & Hro & Hd & Hdo & ? & ? & ->).
  apply steps_event; try done. destruct (Hf r) as (st' & started & finished & err & Hst & ->).
  eapply rtc_l; [by eapply ch_rel_status|]. eapply rtc_once, ch_dep_status; done.
Qed.

Lemma MarkDeploymentStarted_acts o user depID relID :
  acts o (Service_MarkDeploymentStarted o user depID relID).
Proof.
  eapply ensures_acts; [apply MarkDeploymentStarted_ensures|].
  intros now db u db' _ _. apply marks_steps. intros r. by eexists _, _, _, _; split; [|reflexivity].
Qed.
Lemma MarkDeploymentSucceeded_acts o user depID relID ready :
  acts o (Service_MarkDeploymentSucceeded o user depID relID ready).
Proof.
  eapply ensures_acts; [apply MarkDeploymentSucceeded_ensures|].
  intros now db u db' _ _. apply marks_steps. intros r. by eexists _, _, _, _; split; [|reflexivity].
Qed.
Lemma MarkDeploymentFailed_acts o user depID relID msg :
  acts o (Service_MarkDeploymentFailed o user depID relID msg).
Proof.
  eapply ensures_acts; [apply MarkDeploymentFailed_ensures|].
  intros now db u db' _ _. apply marks_steps. intros r. by eexists _, _, _, _; split; [|reflexivity].
Qed.
