(* ===== verification/ArgoFacts.v ===== *)
(** * What the Argo CD integration does to the tables

    Registering a deployment writes its binding and the pending rollout of its
    latest release; the monitor writes what Argo CD reports into both and
    records events; every operation is a run of the abstract machine of [Spec]
    in the organization it names. *)

From S2P Require Import Prelude Json AppErrors Tx Events Domain Pagination Authz Store.
From S2P Require Import DeploymentService Argo StoreFacts Spec ServiceFacts.
Open Scope Z_scope.
Open Scope tx_scope.
Implicit Types s : Sess DB Stream.

(** ** Stability *)
Lemma stable_write_phase o phase rec : stable (W := Stream) (write_phase o phase rec).
Proof. unfold write_phase, releaseRepo_GetLatest. solve_stable. Qed.
Lemma stable_getBinding dep : stable (W := Stream) (getBinding dep).
Proof. unfold getBinding, argoAppRepo_Get. solve_stable. Qed.
Lemma stable_argo_emit a ty o d p : stable (W := Stream) (argo_emit a ty o d p).
Proof. unfold argo_emit. solve_stable. Qed.
Lemma stable_remote r m : stable (W := Stream) (remote r m).
Proof. unfold remote. solve_stable. Qed.
#[export] Hint Resolve stable_write_phase stable_getBinding stable_argo_emit stable_remote : stable.
Lemma stable_authorize_deploy o user : stable (W := Stream) (authorize_deploy o user).
Proof.
  intros s. destruct (authorize_deploy o user s) as [r s'] eqn:H.
  by apply authorize_deploy_inv in H as (_ & ? & _).
Qed.
#[export] Hint Resolve stable_authorize_deploy : stable.
Lemma stable_emitTransitions o d app rec prev :
  stable (W := Stream) (emitTransitions o d app rec prev).
Proof. unfold emitTransitions, when, emit_operation, monitor_emit. solve_stable. Qed.
#[export] Hint Resolve stable_emitTransitions : stable.
Lemma stable_monitor_reconcile o d app : stable (W := Stream) (monitor_reconcile o d app).
Proof. unfold monitor_reconcile, persistRolloutPhase, argoAppRepo_Get. solve_stable. Qed.
#[export] Hint Resolve stable_monitor_reconcile : stable.

(** ** Rollout snapshots *)

(** What [write_phase] leaves: nothing without a release, otherwise the
    snapshot of the latest one, which keeps its rollback marker. *)
Definition phase_written (o phase : string) (rec : ArgoApplication) (now : Z) (db db' : DB)
    : Prop :=
  releases_of o (ar_dep rec) db = [] ∧ db' = db ∨
  ∃ q started, is_latest q (releases_of o (ar_dep rec) db) ∧
    (∀ old, t_rollouts db !! (ar_dep rec, r_id q) = Some old → rs_org old = o) ∧
    db' = put_rollout (stamp_rollout o (marked (ar_dep rec, r_id q) db) started now
                         (argo_snapshot o phase rec q)) db.

Lemma write_phase_Ok o phase rec s u s' :
  write_phase o phase rec s = (Ok u, s') → org s = o → aborted s' = false →
  phase_written o phase rec (clock s) (store s) (store s') ∧ same_env s s'.
Proof.
  intros H Ho Hna. unfold write_phase in H. inv_bind. apply try_inv in Hm.
  apply GetLatest_inv in Hm as (Hs & He & Hq). destruct x as [q|e].
  - inv_bind. injection H as <- <-.
    apply Upsert_Ok in Hm as (_ & _ & (started & Hst) & Hold & _ & He2).
    simpl in *. rewrite orb_false_r in Hst. split; [|by eapply same_env_trans].
    destruct He as (Ho' & _ & Hc). rewrite Hst, Hs, Ho', Hc, Ho in *. right. exists q, started. by split_and!.
  - injection H as <- <-. destruct Hq as [?|[Hq _]]; [congruence|]. rewrite Ho in Hq.
    split; [|done]. left. by split.
Qed.

Lemma phase_written_steps o phase rec now db db' :
  wf db → phase_written o phase rec now db db' → rtc (change o now) db db'.
Proof.
  intros W [[_ ->]|(q & started & [Hq _] & Hold & ->)]; [done|].
  apply elem_of_releases_of in Hq as (Hne & Hqo & Hqd & k & Hk).
  pose proof (keyed_rels _ W _ _ Hk) as Hid.
  destruct (wf_dep _ W _ _ Hk) as (d & Hd & Hdo). rewrite Hqd in Hd.
  eapply rtc_once, ch_rollout; simpl; try done; congruence.
Qed.

(** ** Registration *)

(** The binding of a live deployment of [o], over the one it had. *)
Definition binding_written (o dep : string) (src : GitOpsSource) (now : Z)
    (rec : ArgoApplication) (db db' : DB) : Prop :=
  ∃ d a, t_deps db !! dep = Some d ∧ d_org d = o ∧ d_status d ≠ StatusDeleted ∧
    t_apps db !! d_app d = Some a ∧ a_org a = o ∧
    let want := buildRecord o d a src in
    argo_name_free o (ar_app_name want) (d_id d) db ∧
    (∀ old, t_argo db !! d_id d = Some old → ar_org old = o) ∧
    rec = argo_row o (match t_argo db !! d_id d with
                      | Some b => ar_created b | None => now end) now (argo_defaults want) want ∧
    db' = put_argo (bound want now (t_argo db !! d_id d)) db.

Lemma binding_written_steps o dep src now rec db db' :
  wf db → binding_written o dep src now rec db db' → rtc (change o now) db db'.
Proof.
  intros W (d & a & Hd & Hdo & _ & _ & _ & Hfree & Hold & _ & ->).
  pose proof (keyed_deps _ W _ _ Hd) as <-. by eapply rtc_once, ch_argo.
Qed.

(** What a call of [RegisterApplication] may leave: the binding, and then the
    pending rollout; nothing of either, or the binding alone. *)
Definition registered (o dep : string) (src : GitOpsSource) (now : Z) (db db' : DB) : Prop :=
  db' = db ∨
  ∃ rec db1, binding_written o dep src now rec db db1 ∧
    (db' = db1 ∨ phase_written o RolloutPhasePending rec now db1 db').

Lemma register_body_ensures o dep src :
  ensures o (λ _, True) (λ now db rec db', binding_written o dep src now rec db db')
    (WithTenant o (
      let* d := on_err (deploymentRepo_GetByID dep)
        (λ e, if IsNotFound e then errDeploymentNotFound else e) in
      let* app := applicationRepo_GetByID (d_app d) in
      argoAppRepo_Upsert (buildRecord o d app src))).
Proof.
  eapply runs_ensures.
  { apply runs_WithTenant. unfold deploymentRepo_GetByID, applicationRepo_GetByID. solve_stable. }
  intros s rec s' Ho Hos _ H. repeat inv_bind.
  apply on_err_Ok, dep_GetByID_Ok in Hm as (Hd & _ & Hdo & Hnd & Hs & He).
  apply app_GetByID_Ok in Hm0 as (Ha & _ & Hao & Hs0 & He0).
  apply argo_Upsert_Ok in H as (_ & _ & Hold & Hfree & _ & Hrec & Hst & He1).
  env_rw. exists x, x0. by split_and!.
Qed.

Lemma write_phase_ensures o phase rec :
  ensures o (λ _, True) (λ now db _ db', phase_written o phase rec now db db')
    (WithTenant o (write_phase o phase rec)).
Proof.
  eapply runs_ensures; [apply runs_WithTenant; auto with stable|].
  intros s u s' Ho Hos Hna H. by apply write_phase_Ok in H as [? _].
Qed.

Lemma RegisterApplication_inv client o user dep src s r s' :
  ArgoService_RegisterApplication client o user dep src s = (r, s') →
  same_env s s' ∧ registered o dep src (clock s) (store s) (store s') ∧
  (store s' = store s ∨ o ≠ "" ∧ may_deploy o user (store s)) ∧
  ∀ rec, r = Ok rec → o ≠ "" ∧ may_deploy o user (store s) ∧
    ensureRemote client rec = None ∧ ∃ db1,
    binding_written o dep src (clock s) rec (store s) db1 ∧
    (store s' = db1 ∨ phase_written o RolloutPhasePending rec (clock s) db1 (store s')).
Proof.
  intros H. unfold ArgoService_RegisterApplication in H. unfold bind at 1 in H.
  destruct (authorize_deploy o user s) as [[role|e] s1] eqn:Ha;
    apply authorize_deploy_inv in Ha as (Hs1 & He1 & Ha).
  2:{ injection H as <- <-. rewrite Hs1. split_and!; [done|by left|by left|done]. }
  destruct (Ha eq_refl) as (Ho & _ & Hm). clear Ha.
  assert (Hsame : ∀ e, (Err e, s1) = (r, s') → same_env s s' ∧
    registered o dep src (clock s) (store s) (store s') ∧
    (store s' = store s ∨ o ≠ "" ∧ may_deploy o user (store s)) ∧
    ∀ rec, r = Ok rec → o ≠ "" ∧ may_deploy o user (store s) ∧
      ensureRemote client rec = None ∧ ∃ db1,
      binding_written o dep src (clock s) rec (store s) db1 ∧
      (store s' = db1 ∨ phase_written o RolloutPhasePending rec (clock s) db1 (store s'))).
  { intros e [= <- <-]. rewrite Hs1. split_and!; [done|by left|by left|done]. }
  destruct (String.eqb _ ""); [by eapply Hsame|].
  destruct (negb _ && negb _); [by eapply Hsame|]. clear Hsame.
  unfold bind at 1 in H. destruct (WithTenant o _ s1) as [[rec|e] s2] eqn:Hw;
    apply register_body_ensures in Hw as [He2 Hw].
  2:{ injection H as <- <-. rewrite Hw, Hs1.
      split_and!; [by eapply same_env_trans|by left|by left|done]. }
  destruct Hw as (_ & _ & Hb). pose proof He1 as (_ & _ & Hc1). pose proof He2 as (_ & _ & Hc2).
  rewrite Hc1, Hs1 in Hb. unfold bind at 1, remote in H.
  destruct (ensureRemote client rec) as [ce|] eqn:Hr.
  { injection H as <- <-. split_and!; [by eapply same_env_trans| |by right|done].
    right. exists rec, (store s2). auto. }
  unfold bind, try, ret in H.
  destruct (WithTenant o (seedRollout o rec) s2) as [x s3] eqn:Hw3. injection H as <- <-.
  apply write_phase_ensures in Hw3 as [He3 Hw3]. rewrite Hc2, Hc1 in Hw3.
  assert (Hcase : store s3 = store s2 ∨
    phase_written o RolloutPhasePending rec (clock s) (store s2) (store s3)).
  { destruct x; [right; by destruct Hw3 as (_ & _ & ?)|by left]. }
  split_and!; [by do 2 (eapply same_env_trans; [done|])| |by right|].
  - right. exists rec, (store s2). auto.
  - intros rec' [= <-]. split_and!; [done..|]. exists (store s2). auto.
Qed.

Lemma gitops_steps o dep src now db db' :
  o ≠ "" → wf db → registered o dep src now db db' → rtc (change o now) db db'.
Proof.
  intros Ho W [->|(rec & db1 & Hb & Hp)]; [done|]. apply binding_written_steps in Hb; [|done].
  destruct Hp as [->|Hp]; [done|]. etrans; [done|].
  apply (phase_written_steps o RolloutPhasePending rec); [|done].
  by apply (steps_guaranteed o now db) in Hb as (? & _).
Qed.

Lemma RegisterApplication_acts client o user dep src :
  acts o (ArgoService_RegisterApplication client o user dep src).
Proof.
  intros s r s' Hu H W. apply RegisterApplication_inv in H as (_ & Hr & Ho & _).
  destruct Ho as [|[Ho _]]; [by left|]. right. split; [done|]. by eapply gitops_steps.
Qed.

(** ** Bodies of transactions

    [moves o m]: a successful run of [m] in the tenant [o] that leaves its
    transaction usable is a run of the abstract machine. *)
Definition moves (o : string) {A} (m : DBM A) : Prop :=
  ∀ s a s', m s = (Ok a, s') → org s = o → o ≠ "" → aborted s' = false → wf (store s) →
    rtc (change o (clock s)) (store s) (store s').

Lemma moves_ret o {A} (a : A) : moves o (ret a).
Proof. by intros s b s' [= _ <-]. Qed.
Lemma moves_bind o {A B} (m : DBM A) (k : A → DBM B) :
  moves o m → stable m → (∀ a, moves o (k a)) → (∀ a, frame stays_aborted (k a)) →
  moves o (bind m k).
Proof.
  intros Hm Hst Hk Hf s b s' H Ho Hne Hna W. apply bind_Ok_inv in H as (a & s1 & H1 & H2).
  pose proof (Hst s) as (Ho1 & _ & Hc1). rewrite H1 in Ho1, Hc1. simpl in Ho1, Hc1.
  assert (Hna1 : aborted s1 = false).
  { apply not_true_is_false. intros Ha. pose proof (Hf a s1 Ha) as Ha'. rewrite H2 in Ha'.
    simpl in Ha'. congruence. }
  pose proof (Hm _ _ _ H1 Ho Hne Hna1 W) as R1.
  etrans; [exact R1|]. rewrite <- Hc1. apply (Hk a s1 b s'); try done; [congruence|].
  by apply (steps_guaranteed o (clock s) (store s)) in R1 as (? & _).
Qed.

Lemma moves_acts o {A} (m : DBM A) : stable m → moves o m → acts o (WithTenant o m).
Proof.
  intros Hst Hm.
  eapply (ensures_acts o (λ _, True) (λ now db _ db', wf db → rtc (change o now) db db')); [|eauto].
  eapply runs_ensures; [by apply runs_WithTenant|]. intros s a s' Hne Ho Hna H W. by eapply Hm.
Qed.

Lemma moves_argo_emit actor ty o dep p : moves o (argo_emit actor ty o dep p).
Proof.
  intros s u s' H Ho Hne _ W. unfold argo_emit in H.
  apply enqueue_Ok in H as (row_id & id & Hv & Hf & -> & _). by apply steps_event.
Qed.

Lemma frame_argo_emit actor ty o dep p : frame stays_aborted (argo_emit actor ty o dep p).
Proof. unfold argo_emit, enqueue, events_New, PostgresOutbox_Enqueue. solve_frame. Qed.
Lemma frame_emit_operation o dep app rec : frame stays_aborted (emit_operation o dep app rec).
Proof.
  unfold emit_operation, monitor_emit. repeat case_match;
    auto using frame_argo_emit; apply frame_ret; apply _.
Qed.
Lemma frame_when b (m : DBM unit) : frame stays_aborted m → frame stays_aborted (when b m).
Proof. intros Hm. destruct b; [done|]. apply frame_ret; apply _. Qed.
Lemma frame_emitTransitions o dep app rec prev :
  frame stays_aborted (emitTransitions o dep app rec prev).
Proof.
  unfold emitTransitions. repeat first [apply frame_bind; [apply _| |intros []]];
    apply frame_when; auto using frame_emit_operation, frame_argo_emit;
    apply frame_argo_emit.
Qed.
Lemma frame_write_phase o phase rec : frame stays_aborted (write_phase o phase rec).
Proof.
  unfold write_phase, releaseRepo_GetLatest, rolloutStatusRepo_Upsert, QueryOne. solve_frame.
Qed.

Lemma moves_when o b (m : DBM unit) : moves o m → moves o (when b m).
Proof. intros Hm. destruct b; [done|apply moves_ret]. Qed.
Lemma moves_emit_operation o dep app rec : moves o (emit_operation o dep app rec).
Proof. unfold emit_operation. repeat case_match; auto using moves_ret; apply moves_argo_emit. Qed.
Lemma moves_emitTransitions o dep app rec prev : moves o (emitTransitions o dep app rec prev).
Proof.
  unfold emitTransitions, when.
  repeat first [apply moves_bind; [|unfold emit_operation, monitor_emit; solve_stable|intros []|intros []]].
  all: try (apply (moves_when o); auto using moves_emit_operation; apply moves_argo_emit).
  - apply frame_when, frame_argo_emit.
  - apply frame_bind; [apply _|apply frame_when, frame_argo_emit|].
    intros _. apply frame_when, frame_argo_emit.
Qed.
Lemma moves_write_phase o phase rec : moves o (write_phase o phase rec).
Proof.
  intros s u s' H Ho _ Hna W. apply write_phase_Ok in H as [Hp _]; [|done..].
  by eapply phase_written_steps.
Qed.

(** An observation of a binding that was read. *)
Lemma moves_observe o app rec s rec' s' :
  argoAppRepo_UpdateObserved (applyObserved app rec) s = (Ok rec', s') → org s = o →
  t_argo (store s) !! ar_dep rec = Some rec → wf (store s) →
  rtc (change o (clock s)) (store s) (store s').
Proof.
  intros H Ho Hrec W. apply argo_UpdateObserved_Ok in H as (old & Hold & Hne & Hoo & _ & -> & _).
  simpl in Hold. destruct (wf_argo _ W) as [Hd Hn].
  assert (old = rec) as -> by congruence. destruct (Hd _ _ Hrec) as (_ & d & Hdep & Hdo).
  apply rtc_once.
  eapply (ch_argo o (clock s) (store s) (observed_at (clock s) (argo_row (ar_org rec)
    (ar_created rec) (clock s) rec (applyObserved app rec))) d); simpl; try done; try congruence.
  intros k b Hb Hbo Hbn. rewrite (proj1 (Hd _ _ Hb)).
  eapply (Hn k b (ar_dep rec) rec); try done; congruence.
Qed.

Lemma moves_reconcile o dep app : moves o (monitor_reconcile o dep app).
Proof.
  intros s u s' H Ho Hne Hna W. unfold monitor_reconcile in H.
  apply bind_Ok_inv in H as (found & s1 & Hg & H). apply try_inv in Hg.
  destruct found as [rec|e].
  2:{ apply QueryOne_inv in Hg as (Hs & _ & _). destruct (IsNotFound e); [|done].
      injection H as _ <-. by rewrite Hs. }
  apply argo_Get_Ok in Hg as (Hrec & _ & _ & Hs1 & He1).
  destruct (proj1 (ao_dep _ _ (wf_argo _ W) _ _ Hrec)).
  pose proof He1 as (Ho1 & _ & Hc1). rewrite <- Hs1, <- Hc1. rewrite <- Hs1 in Hrec, W.
  revert H. set (prev := match ar_observed rec with None => _ | Some _ => _ end). intros H.
  apply bind_Ok_inv in H as (rec' & s2 & Hu & H).
  assert (R1 : rtc (change o (clock s1)) (store s1) (store s2))
    by (eapply moves_observe; [done|congruence|done|done]).
  apply argo_UpdateObserved_Ok in Hu as (_ & _ & _ & _ & _ & _ & He2).
  pose proof He2 as (Ho2 & _ & Hc2). etrans; [exact R1|]. rewrite <- Hc2.
  revert s2 u s' H Hna R1 He2 Ho2 Hc2. intros s2 u s' H Hna R1 He2 Ho2 Hc2.
  refine (moves_bind o (persistRolloutPhase o rec') _ _ _ _ _ s2 u s' H _ Hne Hna _).
  - apply moves_write_phase.
  - apply stable_write_phase.
  - intros _. apply moves_emitTransitions.
  - intros _. apply frame_emitTransitions.
  - congruence.
  - by apply (steps_guaranteed o (clock s1) (store s1)) in R1 as (? & _).
Qed.

(** ** The operations *)

(** The organization the labels of an application name. *)
Definition app_org (app : argocd.Application) : string :=
  default ""%string (argocd.app_labels app !! LabelOrgID).

Lemma monitor_app_acts app : acts (app_org app) (monitor_app app).
Proof.
  unfold monitor_app. fold (app_org app). destruct (_ || _); [apply readonly_acts, readonly_ret|].
  intros s r s' Hu H W. unfold bind, try, ret in H.
  destruct (WithTenant _ _ s) as [x s1] eqn:E. injection H as <- <-.
  eapply moves_acts; [| |exact Hu|exact E|exact W]; [apply stable_monitor_reconcile|].
  apply moves_reconcile.
Qed.

Lemma readonly_remote r m : readonly (S := DB) (W := Stream) (remote r m).
Proof. unfold remote. solve_readonly. Qed.
Lemma readonly_lift {A} (r : result goerr A) : readonly (S := DB) (W := Stream) (lift r).
Proof. unfold lift. solve_readonly. Qed.
Lemma readonly_authorize_deploy o user : readonly (S := DB) (W := Stream) (authorize_deploy o user).
Proof. apply readonly_AuthorizeOrgMember. Qed.
Lemma readonly_getBinding dep : readonly (S := DB) (W := Stream) (getBinding dep).
Proof. unfold getBinding, argoAppRepo_Get. solve_readonly. Qed.
#[export] Hint Resolve readonly_remote readonly_lift readonly_authorize_deploy readonly_getBinding
  : readonly.

(** Reading and synchronizing write nothing. *)
Lemma readonly_Argo_GetBinding o user dep : readonly (ArgoService_GetBinding o user dep).
Proof. unfold ArgoService_GetBinding. solve_readonly. Qed.
Lemma readonly_Argo_Sync client o user dep req : readonly (ArgoService_Sync client o user dep req).
Proof. unfold ArgoService_Sync. solve_readonly. Qed.

Lemma ArgoRollback_acts client o user dep req : acts o (ArgoService_Rollback client o user dep req).
Proof.
  unfold ArgoService_Rollback.
  apply acts_bind; [apply readonly_acts; auto with readonly|auto with stable|intros _].
  case_match; [apply readonly_acts, readonly_fail|].
  apply acts_bind; [apply readonly_acts, readonly_WithTenant; auto with readonly|auto with stable|].
  intros rec. apply acts_bind; [apply readonly_acts; auto with readonly|auto with stable|intros id].
  apply acts_bind; [apply readonly_acts; auto with readonly|auto with stable|intros _].
  apply acts_bind; [|solve_stable|intros _; apply readonly_acts, readonly_ret].
  apply acts_try, moves_acts; [auto with stable|apply moves_argo_emit].
Qed.
