(* ===== verification/AgentApi.v ===== *)
(** * The agent-facing API of the deployment service

    services/deployment/internal: agent_middleware.go (cluster credentials),
    agent_handlers.go (desired state and release status), agent_progress.go
    (rollout progress, engine events, automatic rollback), agent_dto.go and
    agent_repository.go (the desired-state read model).  Logging, tracing and
    metrics are left out; request bodies are taken parsed, [None] being a body
    the parser rejects. *)

From S2P Require Import Prelude Json AppErrors Tx Events Domain Pagination Authz Store.
From S2P Require Import DeploymentService.
Open Scope Z_scope.
Open Scope tx_scope.

(** ** agent_middleware.go *)
Record AgentIdentity := mkAgent {
  ag_cluster : string; ag_org : string; ag_id : string }.

(** The clusters table has FORCE ROW LEVEL SECURITY too; [bypassrls] tells
    whether the database role ignores it. *)
Definition cluster_row (bypassrls : bool) (clusterID o : string) (db : DB) : list ClusterRow :=
  if bypassrls then option_list (t_clusters db !! clusterID)
  else option_list (row_at cl_org o clusterID (t_clusters db)).

Definition ValidateCluster (bypassrls : bool) (clusterID agentID : string) : DBM string :=
  let* rows := on_err
    (autocommit (stmt (λ o _ db, inr (cluster_row bypassrls clusterID o db, db))))
    (λ _, Unauthorized "cluster not found") in
  match rows with
  | row :: _ =>
      if negb (String.eqb (cl_status row) "connected")
      then fail (Unauthorized "cluster not connected")
      else
        match cl_agent row with
        | Some stored =>
            if String.eqb stored agentID then ret (cl_org row)
            else fail (Unauthorized "invalid agent credentials")
        | None => fail (Unauthorized "invalid agent credentials")
        end
  | [] => fail (Unauthorized "cluster not found")
  end.

(** [AgentAuthMiddleware]: the headers, then the next handler. *)
Definition AgentAuthMiddleware {A} (bypassrls : bool) (clusterID agentID : string)
    (next : AgentIdentity → DBM A) : DBM A :=
  if String.eqb clusterID "" then fail (Unauthorized "missing X-Cluster-ID header")
  else if String.eqb agentID "" then fail (Unauthorized "missing X-Agent-ID header")
  else
    let* orgID := ValidateCluster bypassrls clusterID agentID in
    next (mkAgent clusterID orgID agentID).

(** ** agent_dto.go *)
Record ResourceSpec := mkSpec { CPU : string; Memory : string }.
Record DesiredDeployment := mkDesired {
  dd_dep : string; dd_rel : string; dd_app : string; dd_app_name : string;
  dd_app_slug : string; dd_namespace : string; dd_image : string; dd_revision : Z;
  dd_replicas : Z; dd_port : option Z; dd_env : list EnvVar;
  dd_requests : option ResourceSpec; dd_limits : option ResourceSpec; dd_status : string }.

(** The row of the join query, before the conversion. *)
Record desiredDeploymentRow := mkRow {
  w_app : Application; w_dep : Deployment; w_rel : Release }.

Definition resource_spec (cpu memory : option string) : option ResourceSpec :=
  match cpu, memory with
  | None, None => None
  | _, _ => Some (mkSpec (deref cpu) (deref memory))
  end.

Definition toDesiredDeployment (r : desiredDeploymentRow) (namespace : string)
    : DesiredDeployment :=
  let d := w_dep r in
  let env :=
    match d_env d with
    | Some j => let '(l, ok) := decode_env j in if ok then l else []
    | None => []
    end in
  mkDesired (d_id d) (r_id (w_rel r)) (a_id (w_app r)) (a_name (w_app r)) (a_slug (w_app r))
    namespace (r_image (w_rel r)) (r_revision (w_rel r)) (d_replicas d) (d_port d) env
    (resource_spec (d_cpu_request d) (d_memory_request d))
    (resource_spec (d_cpu_limit d) (d_memory_limit d))
    (r_status (w_rel r)).

(** ** agent_repository.go *)
Definition active_statuses : list string :=
  [ReleasePending; ReleaseDeploying; ReleaseSucceeded].

Definition id_le (d1 d2 : Deployment) : Prop := String.compare (d_id d1) (d_id d2) ≠ Gt.
#[export] Instance id_le_dec d1 d2 : Decision (id_le d1 d2).
Proof. unfold id_le. apply _. Defined.

(** DISTINCT ON (d.id) ... ORDER BY d.id, r.revision DESC: for each deployment
    the first of its releases in a listed status. *)
Definition desired_rows (orgID clusterID o : string) (db : DB) : list desiredDeploymentRow :=
  omap (λ d,
      a ← row_at a_org o (d_app d) (t_apps db);
      r ← head (by_revision
                  (filter (λ r, one_of (r_status r) active_statuses = true)
                     (releases_of o (d_id d) db)));
      Some (mkRow a d r))
    (merge_sort id_le
       (rows_where (λ d, visible o (d_org d) && String.eqb (d_cluster d) clusterID &&
                         String.eqb (d_org d) orgID &&
                         negb (one_of (d_status d) [StatusDeleted; "deleting"%string]))
          (t_deps db))).

Definition desiredStateRepo_GetDesiredState (orgID clusterID : string)
    : DBM (list DesiredDeployment) :=
  WithTenant orgID (
    let* rows := QueryAll (desired_rows orgID clusterID) in
    ret ((λ r, toDesiredDeployment r (a_slug (w_app r))) <$> rows)).

(** ** agent_handlers.go *)

(** The optional collaborators of [AgentHandler]: an outbox, a rollout store
    and the automatic rollback switch. *)
Record AgentHandler := mkHandler {
  h_outbox : bool; h_rollouts : bool; h_autoRollback : bool }.

Definition AgentHandler_GetDesiredState (agent : AgentIdentity) (clusterID : string)
    : DBM (string * list DesiredDeployment) :=
  if negb (String.eqb clusterID (ag_cluster agent)) then fail (Forbidden "cluster ID mismatch")
  else
    let* items := desiredStateRepo_GetDesiredState (ag_org agent) clusterID in
    ret (clusterID, items).

Definition by_agent (agent : AgentIdentity) (deploymentID : string) : list (@Option_ payload) :=
  [WithActor (mkActor "agent" (ag_id agent)); WithResource (mkResource "deployment" deploymentID)].

(** [validateAgentOwnership]; [UpdateDeploymentStatus] has the same checks. *)
Definition validateAgentOwnership (agent : AgentIdentity) (deploymentID releaseID : string)
    : DBM (Deployment * Release) :=
  let* deployment := on_err (deploymentRepo_GetByID deploymentID)
    (λ e, if IsNotFound e then Forbidden "deployment not found or access denied" else e) in
  if negb (String.eqb (d_org deployment) (ag_org agent))
  then fail (Forbidden "deployment not found or access denied")
  else if negb (String.eqb (d_cluster deployment) (ag_cluster agent))
  then fail (Forbidden "deployment not assigned to this cluster")
  else
    let* release := on_err (releaseRepo_GetByID releaseID)
      (λ e, if IsNotFound e then Forbidden "release not found or access denied" else e) in
    if negb (String.eqb (r_dep release) deploymentID)
    then fail (Forbidden "release does not belong to this deployment")
    else if negb (String.eqb (r_org release) (ag_org agent))
    then fail (Forbidden "release not found or access denied")
    else ret (deployment, release).

(** The event of a status report; [None] for any other status. *)
Definition status_event (deploymentID releaseID : string) (req : UpdateStatusRequest)
    (release : Release) : option (string * payload) :=
  if String.eqb (us_status req) ReleaseStatusDeploying then
    Some (EventDeploymentStarted,
          deploymentStartedPayload deploymentID releaseID (r_revision release) (r_image release))
  else if String.eqb (us_status req) ReleaseStatusSucceeded then
    Some (EventDeploymentSucceeded,
          deploymentSucceededPayload deploymentID releaseID (r_revision release)
            (default 0 (us_ready req)))
  else if String.eqb (us_status req) ReleaseStatusFailed then
    Some (EventDeploymentFailed,
          deploymentFailedPayload deploymentID releaseID (r_revision release)
            (deref (us_error req)))
  else None.

Definition emitStatusEvent (agent : AgentIdentity) (deploymentID releaseID : string)
    (req : UpdateStatusRequest) (release : Release) : DBM unit :=
  match status_event deploymentID releaseID req release with
  | Some (ty, p) =>
      let* evt := events_New ty eventVersion (ag_org agent) p (by_agent agent deploymentID) in
      PostgresOutbox_Enqueue evt
  | None => ret tt
  end.

(** The two switches on the reported status. *)
Definition mark_release (releaseID status : string) (errMsg : option string) : DBM unit :=
  if String.eqb status ReleaseStatusDeploying then releaseRepo_MarkStarted releaseID
  else if one_of status [ReleaseStatusSucceeded; ReleaseStatusFailed]
  then releaseRepo_MarkFinished releaseID status errMsg
  else ret tt.
Definition deploy_status (status : string) : string :=
  if String.eqb status ReleaseStatusDeploying then StatusRunning
  else if String.eqb status ReleaseStatusSucceeded then StatusSucceeded
  else if String.eqb status ReleaseStatusFailed then StatusFailed
  else "".

(** The handler keeps the error of a failing update in a variable outside of the
    transaction's body and answers it when the transaction succeeds.  That only
    shows when a run of the body fails there with a serialization failure and a
    later run commits: then the code answers the error of the first, and this
    definition the success of the last; the database is the same. *)
Definition AgentHandler_UpdateDeploymentStatus (h : AgentHandler) (agent : AgentIdentity)
    (deploymentID releaseID : string) (body : option UpdateStatusRequest) : DBM unit :=
  match body with
  | None => fail (Validation "invalid request body")
  | Some req =>
      if negb (ValidAgentReleaseStatus (us_status req))
      then fail (Validation "invalid status: must be deploying, succeeded, or failed")
      else
        WithTenant (ag_org agent) (
          let* dr := validateAgentOwnership agent deploymentID releaseID in
          mark_release releaseID (us_status req) (us_error req) ;;
          deploymentRepo_UpdateStatus deploymentID (deploy_status (us_status req))
            (us_ready req) (us_error req) ;;
          if h_outbox h then emitStatusEvent agent deploymentID releaseID req dr.2 else ret tt)
  end.

(** ** agent_progress.go *)
Definition emitEvent (h : AgentHandler) (agent : AgentIdentity)
    (eventType deploymentID : string) (p : payload) : DBM unit :=
  if h_outbox h then
    let* evt := events_New eventType eventVersion (ag_org agent) p (by_agent agent deploymentID) in
    PostgresOutbox_Enqueue evt
  else ret tt.

(** [nil, nil] without a store. *)
Definition rolloutGet (h : AgentHandler) (deploymentID releaseID : string)
    : DBM (option RolloutStatus) :=
  if h_rollouts h then
    let* rs := rolloutStatusRepo_Get deploymentID releaseID in ret (Some rs)
  else ret None.

Definition persistRollout (h : AgentHandler) (orgID deploymentID releaseID : string)
    (req : UpdateProgressRequest) : DBM unit :=
  if h_rollouts h then
    let conditions := encode_conditions (up_conditions req) in
    let errMsg := if String.eqb (up_error req) "" then None else Some (up_error req) in
    let* _ := rolloutStatusRepo_Upsert
      (mkRollout deploymentID releaseID orgID (up_phase req) (up_revision req) (up_image req)
         (up_desired req) (up_ready req) (up_updated req) (up_available req)
         (up_unavailable req) (up_observed req) (up_percentage req) (Some conditions) errMsg
         false 0 0) in
    ret tt
  else ret tt.

Definition triggerAutoRollback (h : AgentHandler) (agent : AgentIdentity)
    (deployment : Deployment) (failed : Release) (req : UpdateProgressRequest) : DBM unit :=
  let* target := try (releaseRepo_GetPreviousSuccessful (d_id deployment) (r_revision failed)) in
  match target with
  | Err e => if IsNotFound e then ret tt else fail e
  | Ok target =>
      let* newRel := releaseRepo_Create
        (new_release (ag_org agent) (d_id deployment) (r_revision failed + 1) (r_image target)
           (r_replicas target) (r_hash target) (r_config target) None) in
      let* _ := deploymentRepo_Update
        (retarget (r_image target) (r_replicas target) deployment) in
      (if h_rollouts h then
         let* _ := rolloutStatusRepo_Upsert
           (mkRollout (d_id deployment) (r_id newRel) (ag_org agent) RolloutPhasePending
              (r_revision newRel) (r_image target) (r_replicas target) 0 0 0 0 0 0 None None
              true 0 0) in
         ret tt
       else ret tt) ;;
      emitEvent h agent EventDeploymentRollbackStarted (d_id deployment)
        (deploymentRollbackStartedPayload (d_id deployment) (r_id failed) (r_revision failed)
           (r_id newRel) (r_revision target) (up_error req))
  end.

(** The error of the rollback is logged and dropped. *)
Definition applyTransition (h : AgentHandler) (agent : AgentIdentity) (deployment : Deployment)
    (release : Release) (req : UpdateProgressRequest) (prevPhase : string) (wasRollback : bool)
    : DBM unit :=
  if String.eqb (up_phase req) RolloutPhaseHealthy then
    if String.eqb prevPhase RolloutPhaseHealthy then ret tt
    else
      let* now := now_ in
      let duration := match r_started release with Some t => now - t | None => 0 end in
      emitEvent h agent EventDeploymentHealthy (d_id deployment)
        (deploymentHealthyPayload (d_id deployment) (r_id release) (r_revision release)
           (up_ready req) duration) ;;
      if wasRollback then
        emitEvent h agent EventDeploymentRollbackCompleted (d_id deployment)
          (deploymentRollbackCompletedPayload (d_id deployment) (r_id release)
             (r_revision release) (up_ready req))
      else ret tt
  else if String.eqb (up_phase req) RolloutPhaseFailed then
    if String.eqb prevPhase RolloutPhaseFailed then ret tt
    else
      (if up_timeout req then
         emitEvent h agent EventDeploymentTimeout (d_id deployment)
           (deploymentTimeoutPayload (d_id deployment) (r_id release) (r_revision release)
              (up_error req))
       else ret tt) ;;
      if h_autoRollback h && negb wasRollback then
        let* _ := try (triggerAutoRollback h agent deployment release req) in ret tt
      else ret tt
  else ret tt.

(** The previous phase and rollback marker, empty when the snapshot cannot be
    read. *)
Definition previous (r : result goerr (option RolloutStatus)) : string * bool :=
  match r with
  | Ok (Some prev) => (rs_phase prev, rs_is_rollback prev)
  | _ => (""%string, false)
  end.

Definition AgentHandler_UpdateDeploymentProgress (h : AgentHandler) (agent : AgentIdentity)
    (deploymentID releaseID : string) (body : option UpdateProgressRequest) : DBM unit :=
  match body with
  | None => fail (Validation "invalid request body")
  | Some req =>
      if String.eqb (up_phase req) "" || negb (ValidRolloutPhase (up_phase req))
      then fail (Validation "invalid phase")
      else
        WithTenant (ag_org agent) (
          let* dr := validateAgentOwnership agent deploymentID releaseID in
          let '(deployment, release) := dr in
          let* prev := try (rolloutGet h deploymentID releaseID) in
          let '(prevPhase, wasRollback) := previous prev in
          persistRollout h (ag_org agent) deploymentID releaseID req ;;
          emitEvent h agent EventDeploymentProgress deploymentID
            (deploymentProgressPayload deploymentID releaseID (r_revision release)
               (up_phase req) (up_percentage req) (up_ready req) (up_desired req)
               (up_image req)) ;;
          applyTransition h agent deployment release req prevPhase wasRollback)
  end.
