(* ===== verification/AgentFacts.v ===== *)
(** * What the agent endpoints do

    Ownership, the exact database after a status or a progress report, the
    engine events of a phase transition and the automatic rollback. *)

From S2P Require Import Prelude Json AppErrors Tx Events Domain Pagination Authz Store.
From S2P Require Import DeploymentService StoreFacts Spec ServiceFacts AgentApi.
Open Scope Z_scope.
Open Scope tx_scope.
Implicit Types s : Sess DB Stream.
#[local] Opaque hashConfig Sha256.Sum256.

(** ** Ownership *)

(** The release is one of a live deployment that runs on the agent's cluster,
    in the agent's organization. *)
Definition owned (agent : AgentIdentity) (dep rel : string) (d : Deployment) (r : Release)
    (db : DB) : Prop :=
  t_deps db !! dep = Some d ∧ d_org d = ag_org agent ∧ d_cluster d = ag_cluster agent ∧
  d_status d ≠ StatusDeleted ∧
  t_rels db !! rel = Some r ∧ r_dep r = dep ∧ r_org r = ag_org agent.

Lemma ownership_Ok agent dep rel s dr s' :
  validateAgentOwnership agent dep rel s = (Ok dr, s') →
  owned agent dep rel dr.1 dr.2 (store s) ∧ store s' = store s ∧ same_env s s'.
Proof.
  unfold validateAgentOwnership. intros H. inv_bind.
  apply on_err_Ok, dep_GetByID_Ok in Hm as (Hd & _ & _ & Hnd & Hs & He).
  destruct (String.eqb_spec (d_org x) (ag_org agent)); [|done].
  destruct (String.eqb_spec (d_cluster x) (ag_cluster agent)); [|done]. simpl in H. inv_bind.
  apply on_err_Ok, rel_GetByID_Ok in Hm as (Hr & _ & _ & Hs' & He').
  destruct (String.eqb_spec (r_dep x0) dep); [|done].
  destruct (String.eqb_spec (r_org x0) (ag_org agent)); [|done]. injection H as <- <-.
  rewrite Hs in *. split_and!; try done. by eapply same_env_trans.
Qed.

Lemma stable_ownership agent dep rel : stable (W := Stream) (validateAgentOwnership agent dep rel).
Proof. unfold validateAgentOwnership. solve_stable. Qed.
Lemma stable_mark_release id st e : stable (W := Stream) (mark_release id st e).
Proof. unfold mark_release. solve_stable. Qed.
Lemma stable_emitStatusEvent a d r req rel :
  stable (W := Stream) (emitStatusEvent a d r req rel).
Proof. unfold emitStatusEvent. solve_stable. Qed.
Lemma stable_emitEvent h a ty d p : stable (W := Stream) (emitEvent h a ty d p).
Proof. unfold emitEvent. solve_stable. Qed.
Lemma stable_rolloutGet h d r : stable (W := Stream) (rolloutGet h d r).
Proof. unfold rolloutGet. solve_stable. Qed.
Lemma stable_persistRollout h o d r req : stable (W := Stream) (persistRollout h o d r req).
Proof. unfold persistRollout. solve_stable. Qed.
#[export] Hint Resolve stable_ownership stable_mark_release stable_emitStatusEvent
  stable_emitEvent stable_rolloutGet stable_persistRollout : stable.
Lemma stable_triggerAutoRollback h a d r req :
  stable (W := Stream) (triggerAutoRollback h a d r req).
Proof. unfold triggerAutoRollback. solve_stable. Qed.
#[export] Hint Resolve stable_triggerAutoRollback : stable.
Lemma stable_applyTransition h a d r req p w :
  stable (W := Stream) (applyTransition h a d r req p w).
Proof. unfold applyTransition. solve_stable. Qed.
#[export] Hint Resolve stable_applyTransition : stable.

(** ** Events *)

(** With an outbox one event is appended, without one nothing happens. *)
Definition emits (h : AgentHandler) (agent : AgentIdentity) (ty dep : string) (p : payload)
    (now : Z) (db db' : DB) : Prop :=
  if h_outbox h then
    ∃ row_id eid, let row := event_row row_id eid now ty (ag_org agent) p (by_agent agent dep) in
      Validate (ob_event row) = None ∧ fresh_row row db ∧ db' = add_event row db
  else db' = db.

Lemma new_and_enqueue_Ok ty o p opts (s : Sess DB Stream) u s' :
  (let* evt := events_New ty eventVersion o p opts in PostgresOutbox_Enqueue evt) s = (Ok u, s') →
  ∃ row_id eid, let row := event_row row_id eid (clock s) ty o p opts in
    Validate (ob_event row) = None ∧ fresh_row row (store s) ∧
    store s' = add_event row (store s) ∧ same_env s s'.
Proof. apply enqueue_Ok. Qed.

Lemma emitEvent_Ok h agent ty dep p s u s' :
  emitEvent h agent ty dep p s = (Ok u, s') →
  emits h agent ty dep p (clock s) (store s) (store s') ∧ same_env s s'.
Proof.
  unfold emitEvent, emits. destruct (h_outbox h).
  - intros (row_id & eid & ? & ? & ? & ?)%new_and_enqueue_Ok. split; [|done].
    by exists row_id, eid.
  - by intros [= <- <-].
Qed.

Lemma emits_step h agent ty dep p now db db' :
  emits h agent ty dep p now db db' → rtc (change (ag_org agent) now) db db'.
Proof.
  unfold emits. destruct (h_outbox h); [|by intros ->].
  intros (row_id & eid & ? & ? & ->). by apply steps_event.
Qed.

(** ** Status reports *)

(** The reported release: started, or finished with the status and error. *)
Definition reported (req : UpdateStatusRequest) (now : Z) (r : Release) : Release :=
  if String.eqb (us_status req) ReleaseStatusDeploying
  then rel_with ReleaseDeploying (Some now) (r_finished r) (r_error r) r
  else rel_with (us_status req) (r_started r) (Some now) (us_error req) r.

Definition status_payload (dep rel : string) (req : UpdateStatusRequest) (r : Release)
    : string * payload :=
  default (""%string, applicationDeletedPayload "" "") (status_event dep rel req r).

Lemma valid_agent_status st :
  ValidAgentReleaseStatus st = true →
  st = ReleaseStatusDeploying ∨ st = ReleaseStatusSucceeded ∨ st = ReleaseStatusFailed.
Proof. intros H%one_of_spec. set_solver. Qed.

Lemma mark_release_Ok rel req s u s' :
  ValidAgentReleaseStatus (us_status req) = true →
  mark_release rel (us_status req) (us_error req) s = (Ok u, s') →
  ∃ r, t_rels (store s) !! rel = Some r ∧
    store s' = put_rel (reported req (clock s) r) (store s) ∧ same_env s s'.
Proof.
  unfold mark_release, reported. intros Hv.
  destruct (String.eqb_spec (us_status req) ReleaseStatusDeploying) as [Heq|Hne].
  - intros (r & ? & _ & ? & ?)%MarkStarted_Ok. eauto.
  - assert (Hone : one_of (us_status req) [ReleaseStatusSucceeded; ReleaseStatusFailed] = true).
    { apply one_of_spec. apply valid_agent_status in Hv. set_solver. }
    rewrite Hone. intros (r & ? & _ & ? & ?)%MarkFinished_Ok. eauto.
Qed.

Lemma emitStatusEvent_Ok h agent dep rel req r s u s' :
  ValidAgentReleaseStatus (us_status req) = true →
  (if h_outbox h then emitStatusEvent agent dep rel req r else ret tt) s = (Ok u, s') →
  emits h agent (status_payload dep rel req r).1 dep (status_payload dep rel req r).2
    (clock s) (store s) (store s') ∧ same_env s s'.
Proof.
  intros Hv. unfold emits. destruct (h_outbox h); [|by intros [= <- <-]].
  assert (Hev : status_event dep rel req r = Some (status_payload dep rel req r)).
  { unfold status_payload, status_event.
    apply valid_agent_status in Hv as [->|[->| ->]]; reflexivity. }
  unfold emitStatusEvent. rewrite Hev. destruct (status_payload dep rel req r) as [ty p].
  intros (row_id & eid & ? & ? & ? & ?)%new_and_enqueue_Ok. split; [|done].
  by exists row_id, eid.
Qed.

Lemma UpdateDeploymentStatus_ensures h agent dep rel body :
  ensures (ag_org agent) (λ _, ∃ req, body = Some req ∧ ValidAgentReleaseStatus (us_status req) = true)
    (λ now db _ db', ∀ req, body = Some req → ValidAgentReleaseStatus (us_status req) = true →
       ∃ d r, owned agent dep rel d r db ∧
         emits h agent (status_payload dep rel req r).1 dep (status_payload dep rel req r).2 now
           (put_dep (with_status (deploy_status (us_status req)) (us_ready req) now d)
              (put_rel (reported req now r) db)) db')
    (AgentHandler_UpdateDeploymentStatus h agent dep rel body).
Proof.
  unfold AgentHandler_UpdateDeploymentStatus. destruct body as [req|].
  2:{ by intros s r s' [= <- <-]. }
  eapply ensures_weaken; [eapply runs_ensures|].
  - repeat peel.
  - intros s u s' Ho Hos _ H req' [= <-] Hv. inv_bind. inv_bind. inv_bind.
    apply ownership_Ok in Hm as (Hown & Hs & He).
    apply mark_release_Ok in Hm0 as (r & Hr & Hst & He0); [|done].
    apply dep_set_status_Ok in Hm1 as (d & Hd & _ & _ & Hst1 & He1).
    apply emitStatusEvent_Ok in H as [Hem He2]; [|done].
    destruct x as [d' r']. pose proof Hown as (Hd' & _ & _ & _ & Hr' & _).
    env_rw. simpl in *. simplify_eq. by eexists _, _.
  - intros db (Hv & _). exists req. split; [done|]. by apply negb_false_iff.
Qed.

Lemma UpdateDeploymentStatus_acts h agent dep rel body :
  acts (ag_org agent) (AgentHandler_UpdateDeploymentStatus h agent dep rel body).
Proof.
  eapply ensures_acts; [apply UpdateDeploymentStatus_ensures|].
  intros now db u db' W (req & -> & Hv) H.
  destruct (H req eq_refl Hv) as (d & r & (Hd & Hdo & _ & _ & Hr & _ & Hro) & Hem).
  etrans; [|by eapply emits_step].
  eapply rtc_l; [|eapply rtc_once, ch_dep_status; done].
  unfold reported. destruct (String.eqb_spec (us_status req) ReleaseStatusDeploying);
    by eapply ch_rel_status.
Qed.

(** ** Statements that fail break the transaction *)
Lemma rel_Create_Err r s e s' :
  releaseRepo_Create r s = (Err e, s') → aborted s' = true.
Proof.
  unfold releaseRepo_Create. intros [H|(id & s1 & _ & H)]%bind_Err_inv.
  - by apply create_id_not_Err in H.
  - by eapply on_err_stmt_Err.
Qed.

Lemma dep_Update_Err d s e s' :
  deploymentRepo_Update d s = (Err e, s') →
  aborted s' = true ∨ (∀ r, t_deps (store s) !! d_id d = Some r → org s ≠ "" →
    d_org r = org s → d_version r ≠ d_version d).
Proof.
  unfold deploymentRepo_Update. intros [H|(n & s1 & Hm & H)]%bind_Err_inv.
  { left. by eapply on_err_stmt_Err. }
  apply bind_Err_inv in H as [H|(u & s2 & _ & H)]; [|done].
  apply Exec_Ok in Hm as [Hf _]. right. intros r Hr Ho Hro Hver.
  unfold require_rows in H. destruct (Nat.eqb_spec n 0) as [->|]; [|done].
  unfold update_deployment in Hf.
  rewrite (proj2 (row_at_Some d_org (org s) (d_id d) (t_deps (store s)) r)) in Hf by done.
  apply Z.eqb_eq in Hver. rewrite Hver in Hf. done.
Qed.

(** Engine events are well formed, so they only fail with the database. *)
Lemma emitEvent_Err h agent ty dep p s e s' :
  emitEvent h agent ty dep p s = (Err e, s') → proper_uuids s → ag_org agent ≠ "" → ty ≠ "" →
  aborted s' = true.
Proof. unfold emitEvent. destruct (h_outbox h); [|done]. intros. by eapply New_Enqueue_Err. Qed.

(** ** The automatic rollback *)

(** The marked snapshot seeded for the release a rollback creates. *)
Definition rollback_snapshot (o dep rid : string) (revision : Z) (t : Release) : RolloutStatus :=
  mkRollout dep rid o RolloutPhasePending revision (r_image t) (r_replicas t) 0 0 0 0 0 0 None None
    true 0 0.

(** Going back from [failed] to the last success before it, [t]. *)
Definition rolls_back (h : AgentHandler) (agent : AgentIdentity) (d : Deployment)
    (failed t : Release) (reason : string) (now : Z) (db db' : DB) : Prop :=
  let o := ag_org agent in
  ∃ rid, t_rels db !! rid = None ∧
    let r := rollback_release o (d_id d) rid None now (r_revision failed + 1) t in
    let d' := edit_dep (retarget (r_image t) (r_replicas t) d) now d in
    (∀ k q, t_rels db !! k = Some q → ¬ (r_dep q = d_id d ∧ r_revision q = r_revision r)) ∧
    ∃ db1,
      (if h_rollouts h then
         ∃ started, db1 = put_rollout (stamp_rollout o true started now
           (rollback_snapshot o (d_id d) rid (r_revision r) t)) (put_rel r (put_dep d' db)) ∧
           (∀ old, t_rollouts db !! (d_id d, rid) = Some old → rs_org old = o)
       else db1 = put_rel r (put_dep d' db)) ∧
      emits h agent EventDeploymentRollbackStarted (d_id d)
        (deploymentRollbackStartedPayload (d_id d) (r_id failed) (r_revision failed) rid
           (r_revision t) reason) now db1 db'.

Definition auto_rollback (h : AgentHandler) (agent : AgentIdentity) (d : Deployment)
    (failed : Release) (reason : string) (now : Z) (db db' : DB) : Prop :=
  let l := earlier_successes (ag_org agent) (d_id d) (r_revision failed) db in
  (l = [] ∧ db' = db) ∨
  (∃ t, is_latest t l ∧ rolls_back h agent d failed t reason now db db').

Lemma seed_Ok h agent d rid rev t s u s' :
  (if h_rollouts h then
     let* _ := rolloutStatusRepo_Upsert (rollback_snapshot (ag_org agent) d rid rev t) in ret tt
   else ret tt) s = (Ok u, s') → org s = ag_org agent →
  (if h_rollouts h then
     ∃ started, store s' = put_rollout (stamp_rollout (ag_org agent) true started (clock s)
       (rollback_snapshot (ag_org agent) d rid rev t)) (store s) ∧
       (∀ old, t_rollouts (store s) !! (d, rid) = Some old → rs_org old = ag_org agent)
   else store s' = store s) ∧ same_env s s'.
Proof.
  destruct (h_rollouts h); [|by intros [= <- <-]]. intros H Ho. inv_bind. injection H as <- <-.
  apply Upsert_Ok in Hm as (_ & _ & (started & Hst) & Hold & _ & He). split; [|done].
  exists started. simpl in *. rewrite orb_true_r, Ho in *. done.
Qed.

Ltac env_solve :=
  repeat match goal with H : same_env _ _ |- _ => destruct H as (?&?&?) end; congruence.

(** The branch of [triggerAutoRollback] that has a target: once the transaction
    is sound it cannot have failed half-way. *)
Lemma trigger_inv h agent d failed req s r s' :
  triggerAutoRollback h agent d failed req s = (r, s') →
  aborted s' = false → proper_uuids s → ag_org agent ≠ "" → org s = ag_org agent →
  t_deps (store s) !! d_id d = Some d → d_org d = ag_org agent →
  auto_rollback h agent d failed (up_error req) (clock s) (store s) (store s') ∧ same_env s s'.
Proof.
  intros H Hab Hu Ho Hos Hd Hdo. unfold triggerAutoRollback in H.
  unfold bind at 1, try in H.
  destruct (releaseRepo_GetPreviousSuccessful _ _ s) as [res s1] eqn:Hget.
  apply GetPreviousSuccessful_inv in Hget as (Hs1 & He1 & Hres). rewrite Hos in Hres.
  destruct res as [t|e]; simpl in H.
  2:{ destruct Hres as [Ha|[Hnil Hnf]].
      - exfalso. destruct (IsNotFound e); injection H as <- <-; congruence.
      - rewrite Hnf in H. injection H as <- <-. split; [|done]. left. done. }
  destruct r as [u|e].
  - inv_bind. inv_bind. inv_bind.
    apply rel_Create_Ok in Hm as (rid & -> & Hrid & _ & _ & _ & Hfree & _ & _ & Hst & He2).
    apply dep_Update_Ok in Hm0 as (y & Hy & _ & _ & _ & _ & Hst1 & He3).
    apply seed_Ok in Hm1 as [Hseed He4]; [|env_solve].
    apply emitEvent_Ok in H as [Hem He5]. simpl in *.
    assert (y = d) as ->.
    { rewrite Hst in Hy. simpl in Hy. rewrite Hs1 in Hy. congruence. }
    split; [|eauto 6 using same_env_trans]. right. exists t. split; [done|].
    exists rid. rewrite Hs1 in *. split; [done|]. split; [done|]. exists (store s3).
    env_rw. split; [|done]. destruct (h_rollouts h); [|done].
    exact Hseed.
  - exfalso. apply bind_Err_inv in H as [H|(nr & s2 & Hm & H)].
    { apply rel_Create_Err in H. congruence. }
    apply rel_Create_Ok in Hm as (rid & -> & Hrid & _ & _ & _ & Hfree & _ & _ & Hst & He2).
    apply bind_Err_inv in H as [H|(d' & s3 & Hm & H)].
    { apply dep_Update_Err in H as [?|H]; [congruence|]. env_rw. simpl in H.
      by apply (H d Hd); congruence. }
    apply dep_Update_Ok in Hm as (y & _ & _ & _ & _ & _ & _ & He3).
    apply bind_Err_inv in H as [H|(u & s4 & Hm & H)].
    { destruct (h_rollouts h); [|done]. apply bind_Err_inv in H as [H|(? & ? & _ & H)]; [|done].
      apply on_err_stmt_Err in H. congruence. }
    apply seed_Ok in Hm as [_ He4]; [|env_solve].
    apply emitEvent_Err in H; [congruence| |done|done].
    eauto 6 using proper_uuids_env.
Qed.

(** ** Progress reports *)

(** The snapshot a report persists. *)
Definition reported_snapshot (o dep rel : string) (req : UpdateProgressRequest) : RolloutStatus :=
  mkRollout dep rel o (up_phase req) (up_revision req) (up_image req) (up_desired req)
    (up_ready req) (up_updated req) (up_available req) (up_unavailable req) (up_observed req)
    (up_percentage req) (Some (encode_conditions (up_conditions req)))
    (if String.eqb (up_error req) "" then None else Some (up_error req)) false 0 0.

(** The phase of the stored snapshot, empty without one. *)
Definition stored_phase (h : AgentHandler) (k : string * string) (db : DB) : string :=
  if h_rollouts h then
    match t_rollouts db !! k with Some rs => rs_phase rs | None => "" end
  else "".
Definition is_rollback (h : AgentHandler) (k : string * string) (db : DB) : bool :=
  h_rollouts h && marked k db.

(** What a phase transition does. *)
Definition transition (h : AgentHandler) (agent : AgentIdentity) (d : Deployment) (r : Release)
    (req : UpdateProgressRequest) (prev : string) (rollback : bool) (now : Z) (db db' : DB)
    : Prop :=
  if String.eqb (up_phase req) RolloutPhaseHealthy then
    if String.eqb prev RolloutPhaseHealthy then db' = db
    else ∃ db1,
      emits h agent EventDeploymentHealthy (d_id d)
        (deploymentHealthyPayload (d_id d) (r_id r) (r_revision r) (up_ready req)
           (match r_started r with Some t => now - t | None => 0 end)) now db db1 ∧
      (if rollback then
         emits h agent EventDeploymentRollbackCompleted (d_id d)
           (deploymentRollbackCompletedPayload (d_id d) (r_id r) (r_revision r) (up_ready req))
           now db1 db'
       else db' = db1)
  else if String.eqb (up_phase req) RolloutPhaseFailed then
    if String.eqb prev RolloutPhaseFailed then db' = db
    else ∃ db1,
      (if up_timeout req then
         emits h agent EventDeploymentTimeout (d_id d)
           (deploymentTimeoutPayload (d_id d) (r_id r) (r_revision r) (up_error req)) now db db1
       else db1 = db) ∧
      (if h_autoRollback h && negb rollback
       then auto_rollback h agent d r (up_error req) now db1 db'
       else db' = db1)
  else db' = db.

Lemma rolloutGet_inv h dep rel s r s' :
  rolloutGet h dep rel s = (r, s') →
  store s' = store s ∧ same_env s s' ∧
  (h_rollouts h = true ∧ aborted s' = true ∨
   ((h_rollouts h = true → org s ≠ "" ∧
       ∀ rs, t_rollouts (store s) !! (dep, rel) = Some rs → rs_org rs = org s) →
     previous r = (stored_phase h (dep, rel) (store s), is_rollback h (dep, rel) (store s)))).
Proof.
  unfold rolloutGet, stored_phase, is_rollback, marked. destruct (h_rollouts h); simpl.
  2:{ intros [= <- <-]. split_and!; [done..|]. by right. }
  unfold bind. destruct (rolloutStatusRepo_Get dep rel s) as [[rs|e] s1] eqn:Hg;
    apply rollout_Get_inv in Hg as (? & ? & Hr); intros [= <- <-]; split_and!; try done.
  - right. intros _. by destruct Hr as [-> _].
  - destruct Hr as [?|Hnone]; [by left|right]. intros [Ho Horg]; [done|].
    destruct (t_rollouts (store s) !! (dep, rel)) as [rs|] eqn:Hl; [|done].
    rewrite (proj2 (row_at_Some rs_org (org s) (dep, rel) (t_rollouts (store s)) rs)) in Hnone;
      [done|]. auto.
Qed.

(** The database with the reported snapshot, its marker kept. *)
Definition persisted (h : AgentHandler) (o dep rel : string) (req : UpdateProgressRequest)
    (now : Z) (db db' : DB) : Prop :=
  if h_rollouts h then
    (∀ old, t_rollouts db !! (dep, rel) = Some old → rs_org old = o) ∧
    ∃ started, db' = put_rollout (stamp_rollout o (marked (dep, rel) db) started now
      (reported_snapshot o dep rel req)) db
  else db' = db.

Lemma persist_Ok h o dep rel req s u s' :
  persistRollout h o dep rel req s = (Ok u, s') →
  persisted h o dep rel req (clock s) (store s) (store s') ∧ same_env s s' ∧
  (h_rollouts h = true → org s ≠ "" ∧ org s = o ∧ aborted s = false).
Proof.
  unfold persistRollout, persisted. destruct (h_rollouts h); [|by intros [= <- <-]].
  intros H. inv_bind. injection H as <- <-.
  assert (Hab : aborted s = false).
  { apply not_true_is_false. intros Ha. by eapply on_err_stmt_aborted in Hm. }
  apply Upsert_Ok in Hm as (Ho & Hoo & (started & Hst) & Hold & _ & He). simpl in *.
  subst o. split_and!; try done. exists started. by rewrite Hst, orb_false_r.
Qed.

Lemma transition_Ok h agent d r req prev rollback s u s' :
  applyTransition h agent d r req prev rollback s = (Ok u, s') →
  aborted s' = false → proper_uuids s → ag_org agent ≠ "" → org s = ag_org agent →
  t_deps (store s) !! d_id d = Some d → d_org d = ag_org agent →
  transition h agent d r req prev rollback (clock s) (store s) (store s').
Proof.
  intros H Hab Hu Ho Hos Hd Hdo. unfold applyTransition in H. unfold transition.
  destruct (String.eqb (up_phase req) RolloutPhaseHealthy).
  - destruct (String.eqb prev RolloutPhaseHealthy); [by injection H as <- <-|].
    inv_bind. injection Hm as <- <-. inv_bind. apply emitEvent_Ok in Hm as [Hem He].
    eexists. split; [exact Hem|]. destruct He as (_ & _ & Hc).
    destruct rollback; [|by injection H as <- <-].
    apply emitEvent_Ok in H as [H _]. by rewrite Hc in H.
  - destruct (String.eqb (up_phase req) RolloutPhaseFailed); [|by injection H as <- <-].
    destruct (String.eqb prev RolloutPhaseFailed); [by injection H as <- <-|]. inv_bind.
    assert ((if up_timeout req
             then emits h agent EventDeploymentTimeout (d_id d)
                    (deploymentTimeoutPayload (d_id d) (r_id r) (r_revision r) (up_error req))
                    (clock s) (store s) (store s0)
             else store s0 = store s) ∧ same_env s s0) as [Hto He].
    { destruct (up_timeout req); [by apply emitEvent_Ok in Hm|by injection Hm as <- <-]. }
    exists (store s0). split; [done|].
    destruct (h_autoRollback h && negb rollback); [|by injection H as <- <-].
    inv_bind. injection H as <- <-. apply try_inv in Hm0.
    eapply trigger_inv in Hm0 as [Hrb _]; try done.
    + destruct He as (_ & _ & <-). done.
    + by eapply proper_uuids_env.
    + env_solve.
    + destruct (up_timeout req); [|by rewrite Hto]. unfold emits in Hto.
      destruct (h_outbox h); [|by rewrite Hto]. by destruct Hto as (?&?&?&?& ->).
Qed.

Definition progress_of (dep rel : string) (r : Release) (req : UpdateProgressRequest) : payload :=
  deploymentProgressPayload dep rel (r_revision r) (up_phase req) (up_percentage req)
    (up_ready req) (up_desired req) (up_image req).

(** An accepted progress report. *)
Definition progressed (h : AgentHandler) (agent : AgentIdentity) (dep rel : string)
    (req : UpdateProgressRequest) (now : Z) (db db' : DB) : Prop :=
  ∃ d r db1 db2,
    owned agent dep rel d r db ∧ d_id d = dep ∧ r_id r = rel ∧
    persisted h (ag_org agent) dep rel req now db db1 ∧
    emits h agent EventDeploymentProgress dep (progress_of dep rel r req) now db1 db2 ∧
    transition h agent d r req (stored_phase h (dep, rel) db) (is_rollback h (dep, rel) db)
      now db2 db'.

Lemma emits_deps h agent ty dep p now db db' :
  emits h agent ty dep p now db db' → t_deps db' = t_deps db.
Proof. unfold emits. destruct (h_outbox h); [|by intros ->]. by intros (?&?&?&?&->). Qed.

Lemma UpdateDeploymentProgress_spec h agent dep rel body s r s' :
  AgentHandler_UpdateDeploymentProgress h agent dep rel body s = (r, s') →
  proper_uuids s → wf (store s) →
  same_env s s' ∧
  match r with
  | Err _ => store s' = store s
  | Ok _ => ∃ req, body = Some req ∧ ValidRolloutPhase (up_phase req) = true ∧
              ag_org agent ≠ "" ∧
              progressed h agent dep rel req (clock s) (store s) (store s')
  end.
Proof.
  unfold AgentHandler_UpdateDeploymentProgress. destruct body as [req|]; [|by intros [= <- <-]].
  destruct (_ || _) eqn:Hphase; [by intros [= <- <-]|].
  apply orb_false_iff in Hphase as [_ Hphase%negb_false_iff].
  intros H Hu W. eapply runs_WithTenant in H as [He H]; [|solve_stable; eauto with stable].
  split; [done|]. destruct r as [u|e]; [|done]. exists req. split; [done|]. split; [done|].
  destruct H as (_ & Ho & s0 & s1 & H0 & H1 & H2 & Hg & _ & Hf & Hab & ->). split; [done|].
  rewrite <- H0, <- H2. inv_bind. apply ownership_Ok in Hm as (Hown & Hs & He1).
  destruct x as [d rl]. simpl in Hown. inv_bind. apply try_inv, rolloutGet_inv in Hm as (Hs2 & He2 & Hprev).
  destruct (previous x) as [pp wr] eqn:Hpv. inv_bind. inv_bind.
  apply persist_Ok in Hm as (Hp & He3 & Hguard). apply emitEvent_Ok in Hm0 as [Hem He4].
  pose proof Hown as (Hd & Hdo & _ & _ & Hr & _). rewrite H0 in *.
  pose proof (keyed_deps _ W _ _ Hd) as Hid. pose proof (keyed_rels _ W _ _ Hr) as Hrid.
  destruct Hprev as [[Hrl Hbad]|Hprev]; [destruct (Hguard Hrl) as (?&?&?); congruence|].
  rewrite Hs2, Hs in *.
  assert (Hprev' : (pp, wr) = (stored_phase h (dep, rel) (store s), is_rollback h (dep, rel) (store s))).
  { apply Hprev. intros Hrl. destruct (Hguard Hrl) as (Hne & Heq & _).
    unfold persisted in Hp. rewrite Hrl in Hp. destruct Hp as [Hold _].
    destruct He2 as (Ho2 & _). rewrite <- Ho2. split; [done|].
    intros rs Hrs%Hold. congruence. }
  injection Hprev' as -> ->.
  assert (Hc : clock s5 = clock s0) by env_solve.
  assert (Hc4 : clock s4 = clock s0) by env_solve.
  assert (Hc3 : clock s3 = clock s0) by env_solve.
  rewrite Hc3 in Hp. rewrite Hc4 in Hem.
  exists d, rl, (store s4), (store s5). split_and!; try done.
  rewrite <- Hc. eapply transition_Ok; try done.
  - intros n. specialize (Hu n).
    repeat match goal with H : same_env _ _ |- _ => destruct H as (?&?&?) end. congruence.
  - env_solve.
  - rewrite (emits_deps _ _ _ _ _ _ _ _ Hem). unfold persisted in Hp.
    destruct (h_rollouts h); [destruct Hp as (_ & st & ->)|rewrite Hp]; simpl; congruence.
Qed.

(** Events and snapshots leave the other tables alone. *)
Definition same_tables (db db' : DB) : Prop :=
  t_apps db' = t_apps db ∧ t_deps db' = t_deps db ∧ t_rels db' = t_rels db.

Lemma emits_same h agent ty dep p now db db' :
  emits h agent ty dep p now db db' → same_tables db db' ∧ t_rollouts db' = t_rollouts db.
Proof. unfold emits. destruct (h_outbox h); [|by intros ->]. by intros (?&?&?&?&->). Qed.

Lemma persisted_same h o dep rel req now db db' :
  persisted h o dep rel req now db db' → same_tables db db'.
Proof. unfold persisted. destruct (h_rollouts h); [|by intros ->]. by intros (_&?&->). Qed.

Lemma releases_of_same o dep db db' :
  t_rels db' = t_rels db → releases_of o dep db' = releases_of o dep db.
Proof. unfold releases_of. by intros ->. Qed.

Lemma persisted_steps h agent dep rel d r req now db db' :
  owned agent dep rel d r db →
  persisted h (ag_org agent) dep rel req now db db' → rtc (change (ag_org agent) now) db db'.
Proof.
  intros (Hd & Hdo & _ & _ & Hr & Hrd & Hro). unfold persisted.
  destruct (h_rollouts h); [|by intros ->]. intros (Hold & started & ->).
  by eapply rtc_once, ch_rollout.
Qed.

Lemma auto_rollback_steps h agent rel d r reason now db db' :
  ag_org agent ≠ "" → owned agent (d_id d) rel d r db →
  auto_rollback h agent d r reason now db db' → rtc (change (ag_org agent) now) db db'.
Proof.
  intros Ho (Hd & Hdo & _ & Hnd & Hr & Hrd & Hro) [[_ ->]|(t & _ & rid & Hrid & Hfree & db1 & Hseed & Hem)];
    [done|].
  etrans; [|by eapply emits_step].
  eapply rtc_l.
  { eapply (ch_release _ _ _ (d_id d) d (retarget (r_image t) (r_replicas t) d)
      (rollback_release (ag_org agent) (d_id d) rid None now (r_revision r + 1) t)); try done.
    split; [|exact Hfree]. right. exists r. split; [|done].
    apply elem_of_releases_of. eauto. }
  destruct (h_rollouts h); [|by rewrite Hseed]. destruct Hseed as (started & -> & Hold).
  eapply rtc_once, ch_rollout; simpl; rewrite ?lookup_insert_eq; try done.
Qed.

Lemma progressed_steps h agent dep rel req now db db' :
  ag_org agent ≠ "" → progressed h agent dep rel req now db db' →
  rtc (change (ag_org agent) now) db db'.
Proof.
  intros Ho (d & r & db1 & db2 & Hown & Hid & Hrid & Hp & Hem & Htr).
  etrans; [by eapply persisted_steps|]. etrans; [by eapply emits_step|].
  assert (Hown2 : owned agent (d_id d) rel d r db2).
  { apply persisted_same in Hp as (E1 & E2 & E3).
    apply emits_same in Hem as ((F1 & F2 & F3) & _).
    unfold owned in *. rewrite F2, F3, E2, E3, Hid. done. }
  unfold transition in Htr.
  destruct (String.eqb (up_phase req) RolloutPhaseHealthy).
  - destruct (String.eqb _ RolloutPhaseHealthy); [by rewrite Htr|].
    destruct Htr as (db3 & H1 & H2). etrans; [by eapply emits_step|].
    destruct (is_rollback _ _ _); [by eapply emits_step|by rewrite H2].
  - destruct (String.eqb (up_phase req) RolloutPhaseFailed); [|by rewrite Htr].
    destruct (String.eqb _ RolloutPhaseFailed); [by rewrite Htr|].
    destruct Htr as (db3 & H1 & H2).
    assert (H3 : rtc (change (ag_org agent) now) db2 db3 ∧ same_tables db2 db3).
    { destruct (up_timeout req); [|by rewrite H1].
      split; [by eapply emits_step|]. by apply emits_same in H1 as [? _]. }
    destruct H3 as [H3 (G1 & G2 & G3)]. etrans; [exact H3|].
    destruct (_ && _); [|by rewrite H2]. eapply auto_rollback_steps; try done.
    unfold owned in *. by rewrite G2, G3.
Qed.

Lemma UpdateDeploymentProgress_acts h agent dep rel body :
  acts (ag_org agent) (AgentHandler_UpdateDeploymentProgress h agent dep rel body).
Proof.
  intros s r s' Hu H W. eapply UpdateDeploymentProgress_spec in H as [_ H]; [|done..].
  destruct r as [u|e]; [|by left]. destruct H as (req & _ & _ & Ho & H).
  right. split; [done|]. by eapply progressed_steps.
Qed.
