(* ===== verification/BuildConsumer.v ===== *)
(** * The build consumer

    services/deployment/internal/build_consumer.go: for every build.succeeded
    event the deployments that run the built image get a new release pinned to
    its digest, once per event.  Payloads arrive as JSON.  The counters of a
    result are those of the attempt that ended the transaction (in the code they
    add up over retried attempts; they only feed metrics and logs).  After the
    model, what one event does: a pinned release for each matching deployment,
    which is pointed at it and goes back to pending. *)

From S2P Require Import Prelude Json AppErrors Tx Events Domain Pagination Authz Store DeploymentService StoreFacts Spec.
From S2P Require Import ServiceFacts.
Open Scope Z_scope.
Open Scope tx_scope.

(** ** Image references *)

(** [strings.Index(s, c)] for a one-byte separator, as a split. *)
Fixpoint cut_at (c : Ascii.ascii) (s : string) : option (string * string) :=
  match s with
  | EmptyString => None
  | String a s' =>
      if Ascii.eqb a c then Some (EmptyString, s')
      else match cut_at c s' with
           | Some (l, r) => Some (String a l, r)
           | None => None
           end
  end.

Definition at_sign : Ascii.ascii := Ascii.ascii_of_nat 64.
Definition slash : Ascii.ascii := Ascii.ascii_of_nat 47.
Definition colon : Ascii.ascii := Ascii.ascii_of_nat 58.

(** [-1] when absent, as [strings.LastIndex]. *)
Definition last_index (c : Ascii.ascii) (s : string) : Z :=
  match GoStrings.LastIndex s (String c "") with Some n => Z.of_nat n | None => -1 end.

Definition imageRepository (ref : string) : string :=
  let ref := GoStrings.TrimSpace ref in
  let ref := match cut_at at_sign ref with Some (l, _) => l | None => ref end in
  let lastSlash := last_index slash ref in
  let col := last_index colon ref in
  if lastSlash <? col then GoStrings.take_str (Z.to_nat col) ref else ref.

Definition composeImageRef (registry image : string) : string :=
  let image := GoStrings.TrimSpace image in
  let registry := GoStrings.TrimSpace registry in
  if String.eqb registry "" || String.eqb image "" then image
  else if GoStrings.has_prefix (registry +:+ "/") image then image
  else
    let firstSeg := match cut_at slash image with Some (l, _) => l | None => image end in
    if negb (all_chars (λ a, negb (Ascii.eqb a dot || Ascii.eqb a colon)) firstSeg) ||
       String.eqb firstSeg "localhost"
    then image
    else registry +:+ "/" +:+ image.

(** ** The payload *)
Definition BuildConsumerDurable : string := "deployment-build-consumer".
Definition eventBuildSucceeded : string := "build.succeeded".

Record buildSucceededEvent := mkBuild {
  b_id : string; b_digest : string; b_tag : string; b_image : string; b_registry : string }.

(** [DecodePayload]; [None] is a type mismatch. *)
Definition decode_build (p : option json) : option buildSucceededEvent :=
  match p with
  | None | Some JNull => Some (mkBuild "" "" "" "" "")
  | Some (JObj f) =>
      id ← json_field f "buildId"; digest ← json_field f "imageDigest";
      tag ← json_field f "imageTag"; image ← json_field f "image";
      registry ← json_field f "registry";
      Some (mkBuild id digest tag image registry)
  | Some _ => None
  end.

(** ** Processing *)
Inductive outcome := processed | deduplicated | invalid | ignored.
Record buildProcessResult := mkRes {
  res_build : string; res_outcome : outcome; res_matched : nat; res_created : nat }.

(** [d.Image = pinnedImage]. *)
Definition pinned_to (image : string) (d : Deployment) : Deployment :=
  mkDep (d_id d) (d_created d) (d_updated d) (d_version d) (d_org d) (d_app d) (d_cluster d)
    image (d_replicas d) (d_cpu_request d) (d_cpu_limit d) (d_memory_request d)
    (d_memory_limit d) (d_port d) (d_env d) (d_status d) (d_ready d) (d_desired d)
    (d_created_by d).

(** One matching deployment: a pinned release, the deployment pointed at it and
    back to pending, and its event. *)
Definition roll_out (e : Envelope json) (pinnedImage : string) (d : Deployment) : DBM unit :=
  let* latest := try (releaseRepo_GetLatest (d_id d)) in
  let* nextRevision :=
    match latest with
    | Ok r => ret (r_revision r + 1)
    | Err err => if IsNotFound err then ret 1 else fail err
    end in
  let pinned := pinned_to pinnedImage d in
  let config := Some (release_config pinned (default JNull (d_env d))) in
  let* _ := releaseRepo_Create
    (new_release (OrgID e) (d_id d) nextRevision pinnedImage (d_replicas d)
       (hashConfig config) config None) in
  let* _ := deploymentRepo_Update pinned in
  deploymentRepo_UpdateStatus (d_id d) StatusPending None None ;;
  let* evt := events_New EventDeploymentCreated eventVersion (OrgID e)
    (deploymentCreatedPayload (d_id d) (d_app d) (d_cluster d) pinnedImage (d_replicas d)
       nextRevision "")
    [WithActor (mkActor "system" BuildConsumerDurable);
     WithResource (mkResource "deployment" (d_id d));
     WithCorrelationID (CorrelationID e); WithTraceParent (TraceParent e)] in
  PostgresOutbox_Enqueue evt.

Definition runs_image (buildRepo : string) (d : Deployment) : bool :=
  String.eqb (imageRepository (d_image d)) buildRepo.

(** The loop over the active deployments; the number of releases created. *)
Fixpoint roll_out_all (e : Envelope json) (buildRepo pinnedImage : string)
    (l : list Deployment) : DBM nat :=
  match l with
  | [] => ret 0%nat
  | d :: l' =>
      if runs_image buildRepo d then
        roll_out e pinnedImage d ;;
        let* n := roll_out_all e buildRepo pinnedImage l' in
        ret (S n)
      else roll_out_all e buildRepo pinnedImage l'
  end.

Definition BuildConsumer_process (e : Envelope json) : DBM buildProcessResult :=
  if String.eqb (OrgID e) "" then ret (mkRes "" invalid 0 0)
  else
    match decode_build (Payload e) with
    | None => ret (mkRes "" invalid 0 0)
    | Some p =>
        if String.eqb (b_digest p) "" || String.eqb (b_image p) ""
        then ret (mkRes (b_id p) invalid 0 0)
        else
          let buildRepo := imageRepository (composeImageRef (b_registry p) (b_image p)) in
          let pinnedImage := buildRepo +:+ "@" +:+ b_digest p in
          WithTenant (OrgID e) (
            let* inserted :=
              processedEventRepo_MarkProcessed BuildConsumerDurable (EventID e) (OrgID e) in
            if negb inserted then ret (mkRes (b_id p) deduplicated 0 0)
            else
              let* deployments := deploymentRepo_ListAllActive in
              let* n := roll_out_all e buildRepo pinnedImage deployments in
              ret (mkRes (b_id p) processed n n))
    end.

(** [handle]: an error is returned for a retry, any outcome acknowledges. *)
Definition BuildConsumer_handle (e : Envelope json) : DBM unit :=
  if negb (String.eqb (Type_ e) eventBuildSucceeded) then ret tt
  else let* _ := BuildConsumer_process e in ret tt.

(** The subject filter of [Start]. *)
Definition BuildConsumer_filter (prefix : string) : string :=
  if String.eqb prefix "" then eventBuildSucceeded +:+ ".*"
  else prefix +:+ "." +:+ eventBuildSucceeded +:+ ".*".

Open Scope Z_scope.
Open Scope tx_scope.
#[local] Opaque hashConfig Sha256.Sum256.

Definition pinned_release (o rid : string) (now revision : Z) (d : Deployment) : Release :=
  let config := Some (release_config d (default JNull (d_env d))) in
  stamp_rel rid now None None None
    (new_release o (d_id d) revision (d_image d) (d_replicas d) (hashConfig config) config None).

(** One deployment rolled out to [image]. *)
Definition rolled_out (o image : string) (now : Z) (d : Deployment) (db db' : DB) : Prop :=
  ∃ rid revision row,
    let d1 := pinned_to image d in
    let r := pinned_release o rid now revision d1 in
    t_rels db !! rid = None ∧ next_revision o (d_id d) revision db ∧
    (∀ q, q ∈ releases_of o (d_id d) db → r_revision q < revision) ∧
    OrgID (ob_event row) = o ∧ Type_ (ob_event row) = EventDeploymentCreated ∧
    Validate (ob_event row) = None ∧ fresh_row row db ∧ ob_published row = None ∧
    ob_created row = now ∧
    db' = add_event row (put_dep (with_status StatusPending None now (edit_dep d1 now d))
            (put_rel r db)).

Lemma stable_roll_out e image d : stable (W := Stream) (roll_out e image d).
Proof. unfold roll_out. solve_stable. Qed.
#[export] Hint Resolve stable_roll_out : stable.
Lemma stable_roll_out_all e repo image l : stable (W := Stream) (roll_out_all e repo image l).
Proof. induction l; simpl; solve_stable; auto with stable. Qed.
#[export] Hint Resolve stable_roll_out_all : stable.

Lemma put_dep_twice d1 d2 db : d_id d1 = d_id d2 → put_dep d1 (put_dep d2 db) = put_dep d1 db.
Proof. intros Hid. unfold put_dep, set_deps. simpl. by rewrite Hid, insert_insert_eq. Qed.

Lemma roll_out_Ok e image d s u s' :
  roll_out e image d s = (Ok u, s') → org s = OrgID e →
  t_deps (store s) !! d_id d = Some d → d_org d = OrgID e →
  rolled_out (OrgID e) image (clock s) d (store s) (store s') ∧ same_env s s'.
Proof.
  intros H Ho Hd Hdo. unfold roll_out in H. inv_bind.
  apply try_inv, GetLatest_inv in Hm as (Hs & He & Hlatest). inv_bind. inv_bind.
  assert (s1 = s0) as -> by (destruct x as [q|err]; [|destruct (IsNotFound err)]; by injection Hm).
  pose proof (rel_Create_not_aborted _ _ _ _ Hm0) as Hab.
  apply rel_Create_Ok in Hm0 as (rid & -> & Hrid & _ & _ & _ & Hfree & _ & _ & Hst & He2).
  inv_bind. inv_bind. inv_bind.
  apply dep_Update_Ok in Hm0 as (y & Hy & _ & _ & _ & -> & Hst1 & He3).
  apply dep_set_status_Ok in Hm1 as (z & Hz & _ & _ & Hst2 & He4).
  apply events_New_Ok in Hm2 as (Hst3 & He5 & eid & ->).
  apply Enqueue_Ok in H as (Hv & row_id & Hf & Hst4 & He6).
  assert (Henv : same_env s s') by eauto 10 using same_env_trans.
  assert (y = d) as ->.
  { rewrite Hst in Hy. simpl in Hy. rewrite Hs in Hy. simpl in Hd. congruence. }
  rewrite Hst1 in Hz. simpl in Hz. rewrite lookup_insert_eq in Hz. injection Hz as <-.
  split; [|done].
  assert (Hnext : (∀ q, q ∈ releases_of (org s) (d_id d) (store s) → r_revision q < x0) ∧
            (releases_of (org s) (d_id d) (store s) = [] ∧ x0 = 1 ∨
             ∃ q, q ∈ releases_of (org s) (d_id d) (store s) ∧ x0 = r_revision q + 1)).
  { destruct x as [q|err]; simpl in Hm.
    - injection Hm as <-. destruct Hlatest as [Hq Hmax]. split; [|eauto].
      intros q' Hq'. specialize (Hmax q' Hq'). lia.
    - destruct Hlatest as [?|[Hnil Hnf]]; [congruence|]. rewrite Hnf in Hm. injection Hm as <-.
      split; [|auto]. rewrite Hnil. by intros q ?%not_elem_of_nil. }
  destruct Hnext as [Hmax Hnext]. rewrite Ho in *. simpl in *.
  assert (E0 : clock s0 = clock s) by (by destruct He as (_&_&?)).
  assert (E2 : clock s2 = clock s) by (destruct He2 as (_&_&?); congruence).
  assert (E1 : clock s1 = clock s) by (destruct He3 as (_&_&?); congruence).
  assert (E3 : clock s3 = clock s) by (destruct He4 as (_&_&?); congruence).
  assert (E4 : clock s4 = clock s) by (destruct He5 as (_&_&?); congruence).
  rewrite Hst4, Hst3, Hst2, Hst1, Hst, Hs, E0, E2, E1, E3, E4 in *.
  rewrite put_dep_twice in Hf |- * by done. eexists rid, x0, _. split_and!; [done| |done| | | | | | |reflexivity]; try done.
Qed.

(** The deployments of [l] that run the image, one after the other. *)
Fixpoint rolled_out_all (o repo image : string) (now : Z) (l : list Deployment) (db db' : DB)
    : Prop :=
  match l with
  | [] => db' = db
  | d :: l' =>
      if runs_image repo d then
        ∃ db1, rolled_out o image now d db db1 ∧ rolled_out_all o repo image now l' db1 db'
      else rolled_out_all o repo image now l' db db'
  end.

(** [l] holds current rows of tenant [o], each once. *)
Definition current (o : string) (l : list Deployment) (db : DB) : Prop :=
  NoDup (d_id <$> l) ∧
  ∀ d, d ∈ l → t_deps db !! d_id d = Some d ∧ d_org d = o ∧ d_status d ≠ StatusDeleted.

Lemma rolled_out_current o image now d l db db' :
  rolled_out o image now d db db' → current o (d :: l) db → current o l db'.
Proof.
  intros (rid & rev & row & _ & _ & _ & _ & _ & _ & _ & _ & _ & ->) [Hnd Hl].
  apply NoDup_cons in Hnd as [Hd Hnd]. split; [done|]. intros x Hx. simpl.
  rewrite lookup_insert_ne; [by apply Hl; right|].
  intros Heq. apply Hd. rewrite Heq. by apply list_elem_of_fmap_2.
Qed.

Lemma roll_out_all_Ok e repo image l s n s' :
  roll_out_all e repo image l s = (Ok n, s') → org s = OrgID e →
  current (OrgID e) l (store s) →
  rolled_out_all (OrgID e) repo image (clock s) l (store s) (store s') ∧
  n = length (filter (λ d, runs_image repo d = true) l) ∧ same_env s s'.
Proof.
  revert s n s'. induction l as [|d l IH]; intros s n s' H Ho Hcur; simpl in *.
  { by injection H as <- <-. }
  destruct (runs_image repo d) eqn:Hrun.
  - inv_bind. inv_bind. injection H as <- <-.
    assert (Hd : t_deps (store s) !! d_id d = Some d ∧ d_org d = OrgID e) by
      (destruct Hcur as [_ Hc]; destruct (Hc d) as (?&?&?); [left|done]).
    destruct Hd as [Hd Hdo]. eapply roll_out_Ok in Hm as [Hro He]; [|done..].
    destruct (IH _ _ _ Hm0) as (IH1 & -> & IH3).
    + by destruct He as (-> & _).
    + by eapply rolled_out_current.
    + destruct He as (E1 & E2 & E3). rewrite E3 in IH1.
      rewrite filter_cons_True by done. split_and!; [eauto|done|].
      eapply same_env_trans; [|done]. done.
  - rewrite filter_cons_False by congruence. apply IH; try done.
    destruct Hcur as [Hnd Hl]. apply NoDup_cons in Hnd as [_ Hnd]. split; [done|].
    intros x Hx. apply Hl. by right.
Qed.

Lemma rolled_out_steps o image now d db db' :
  t_deps db !! d_id d = Some d → d_org d = o → d_status d ≠ StatusDeleted →
  rolled_out o image now d db db' → rtc (change o now) db db'.
Proof.
  intros Hd Ho Hnd (rid & rev & row & Hrid & Hnext & _ & ? & _ & ? & ? & ? & ? & ->).
  apply steps_event; try done.
  rewrite <- (put_dep_twice _ (edit_dep (pinned_to image d) now d)) by done.
  eapply rtc_l; [eapply (ch_release _ _ _ (d_id d) d (pinned_to image d)
    (pinned_release o rid now rev (pinned_to image d))); done|].
  eapply rtc_once, (ch_dep_status _ _ _ (d_id d)); simpl; [|done].
  by rewrite lookup_insert_eq.
Qed.

Lemma rolled_out_all_steps o repo image now l db db' :
  current o l db → rolled_out_all o repo image now l db db' → rtc (change o now) db db'.
Proof.
  revert db. induction l as [|d l IH]; intros db Hcur H; simpl in *; [by rewrite H|].
  assert (Hcur' : current o l db).
  { destruct Hcur as [Hnd Hl]. apply NoDup_cons in Hnd as [_ Hnd]. split; [done|].
    intros x Hx. apply Hl. by right. }
  destruct (runs_image repo d); [|by apply IH]. destruct H as (db1 & H1 & H2).
  destruct (proj2 Hcur d) as (?&?&?); [left|].
  etrans; [by eapply rolled_out_steps|]. apply IH; [|done]. by eapply rolled_out_current.
Qed.

(** ** The query of the active deployments *)
Definition active_deployments (o : string) (db : DB) : list Deployment :=
  order_desc dep_cursor (rows_where (λ d, visible o (d_org d) && not_deleted d) (t_deps db)).

Lemma active_current o db : keyed db → current o (active_deployments o db) db.
Proof.
  intros Hk. unfold active_deployments. split.
  - rewrite order_desc_perm. by apply rows_where_ids.
  - intros d Hd. rewrite order_desc_perm in Hd. apply elem_of_rows_where in Hd as [Hp (k & Hkd)].
    apply andb_true_iff in Hp as [Hv Hn]. apply visible_spec in Hv as [_ Hv].
    apply negb_true_iff, String.eqb_neq in Hn. by rewrite (keyed_deps _ Hk _ _ Hkd).
Qed.

Definition build_repo (p : buildSucceededEvent) : string :=
  imageRepository (composeImageRef (b_registry p) (b_image p)).

(** The event is processed for the first time. *)
Definition processed_build (e : Envelope json) (p : buildSucceededEvent) (now : Z) (db db' : DB)
    (n : nat) : Prop :=
  let repo := build_repo p in
  let l := active_deployments (OrgID e) db in
  t_processed db !! (BuildConsumerDurable, EventID e) = None ∧
  rolled_out_all (OrgID e) repo (repo +:+ "@" +:+ b_digest p) now l
    (set_processed (<[(BuildConsumerDurable, EventID e) := OrgID e]> (t_processed db)) db) db' ∧
  n = length (filter (λ d, runs_image repo d = true) l).

Lemma BuildConsumer_process_spec e s r s' :
  BuildConsumer_process e s = (r, s') → wf (store s) →
  match r with
  | Err _ => store s' = store s
  | Ok res =>
      match res_outcome res with
      | invalid => store s' = store s
      | deduplicated => store s' = store s ∧
          is_Some (t_processed (store s) !! (BuildConsumerDurable, EventID e))
      | processed => OrgID e ≠ "" ∧ ∃ p, decode_build (Payload e) = Some p ∧
          b_digest p ≠ "" ∧ b_image p ≠ "" ∧ res_build res = b_id p ∧
          processed_build e p (clock s) (store s) (store s') (res_created res)
      | ignored => False
      end
  end.
Proof.
  unfold BuildConsumer_process. destruct (String.eqb (OrgID e) ""); [by intros [= <- <-]|].
  destruct (decode_build (Payload e)) as [p|]; [|by intros [= <- <-]].
  destruct (_ || _) eqn:Hp; [by intros [= <- <-]|].
  apply orb_false_iff in Hp as [Hdig%String.eqb_neq Himg%String.eqb_neq].
  intros H W. eapply runs_WithTenant in H as [_ H];
    [|solve_stable; eauto with stable; apply stable_QueryAll].
  destruct r as [res|err]; [|done].
  destruct H as (_ & Hne & s0 & s1 & H0 & H1 & H2 & _ & _ & Hf & _ & ->).
  rewrite <- H0, <- H2. inv_bind. apply MarkProcessed_Ok in Hm as (_ & He & Hm).
  destruct (t_processed (store s0) !! _) as [o|] eqn:Hl.
  - destruct Hm as [-> Hs]. simpl in Hf. injection Hf as <- <-. simpl. by rewrite Hs.
  - destruct Hm as [-> Hs]. simpl in Hf. inv_bind. inv_bind. injection Hf as <- <-. simpl.
    apply QueryAll_Ok in Hm as (-> & Hs2 & He2).
    destruct He as (E1 & _ & E3), He2 as (F1 & _ & F3).
    rewrite E1, H1, Hs in Hm0. simpl in Hm0.
    eapply roll_out_all_Ok in Hm0 as (Hall & -> & _); [|congruence|].
    + split; [done|]. exists p. split_and!; try done. unfold processed_build. simpl.
      rewrite F3, E3, Hs2, Hs in Hall. split_and!; [done|exact Hall|reflexivity].
    + rewrite Hs2, Hs. apply (active_current (OrgID e) (store s0)). rewrite H0. by apply W.
Qed.

Lemma BuildConsumer_process_acts e : acts (OrgID e) (BuildConsumer_process e).
Proof.
  intros s r s' _ H W. pose proof W as W'. eapply BuildConsumer_process_spec in H; [|done].
  destruct r as [res|err]; [|by left].
  destruct (res_outcome res); [|by destruct H as [-> _]; left|by left|done].
  destruct H as (Ho & p & _ & _ & _ & _ & Hnone & Hall & _). right. split; [done|].
  eapply rtc_l; [by apply (ch_processed (OrgID e) _ _ (BuildConsumerDurable, EventID e))|].
  eapply rolled_out_all_steps; [|exact Hall]. apply (active_current (OrgID e) (store s)), W'.
Qed.

Lemma BuildConsumer_handle_acts e : acts (OrgID e) (BuildConsumer_handle e).
Proof.
  intros s r s' Hu H W. unfold BuildConsumer_handle in H.
  destruct (negb _); [injection H as <- <-; by left|]. unfold bind in H.
  destruct (BuildConsumer_process e s) as [[res|err] s1] eqn:Hp;
    pose proof (BuildConsumer_process_acts e s _ s1 Hu Hp W); by injection H as <- <-.
Qed.
