(* ===== verification/Relay.v ===== *)
(** * The outbox relay

    libs/events/relay.go: [drain] publishes a batch of pending events inside a
    transaction and marks them published; [Run] drains while batches are full.
    The broker ([Stream]) is not covered by the transaction; as conn.go
    configures it, it ignores a message whose id (JetStream's Msg-Id, the event
    id) it accepted less than two minutes ago, and drops messages after seven
    days.  Its clock is the session's. *)

From S2P Require Import Prelude Json GoTime AppErrors Tx Events Domain Pagination Authz Store.
Open Scope Z_scope.
Open Scope tx_scope.

(** ** conn.go: the configuration of the stream *)
Definition Duplicates : Z := 2 * GoTime.Minute.
Definition MaxAge : Z := 7 * 24 * GoTime.Hour.

(** What consumers can still read. *)
Definition retained (now : Z) (w : list Message) : list Message := filter (λ m, now - msg_at m < MaxAge) w.
(** A message of the event in the duplicate window. *)
Definition recent (now : Z) (e : Event) (m : Message) : bool :=
  String.eqb (EventID (msg_event m)) (EventID e) && (now - msg_at m <? Duplicates).
Definition stream_add (now : Z) (e : Event) (w : Stream) : Stream :=
  if existsb (recent now e) w then w else w ++ [mkMessage now e].

(** [natsPublisher.Publish]: an unreachable broker is a fault of the session. *)

Definition Publish (e : Event) : DBM unit := λ s,
  match Validate e with
  | Some err => (Err err, s)
  | None =>
      match pop_fault s with
      | (Some err, s') => (Err (Wrapped "events: publish" err), s')
      | (None, s') => (Ok tt, set_outside (stream_add (clock s') e (outside s')) s')
      end
  end.

(** The loop of [drain]: the ids of the published records. *)
Fixpoint publish_all (records : list (OutboxRow payload)) : DBM (list string) :=
  match records with
  | [] => ret []
  | rec :: l =>
      Publish (ob_event rec) ;;
      let* ids := publish_all l in
      ret (ob_id rec :: ids)
  end.

(** [locked] are the rows other relays hold. *)
Definition drain (locked : gset string) (batch : nat) : DBM nat :=
  Tx false (
    let* records := PostgresOutbox_FetchUnpublished locked batch in
    match records with
    | [] => ret 0%nat
    | _ =>
        let* ids := publish_all records in
        PostgresOutbox_MarkPublished ids ;;
        ret (length ids)
    end).

(** One tick of [Run]: drain while the batches are full ([None]: out of fuel). *)
Fixpoint tick (fuel : nat) (locked : gset string) (batch : nat) (s : Sess DB Stream)
    : option (Sess DB Stream) :=
  match fuel with
  | O => None
  | S fuel' =>
      match drain locked batch s with
      | (Err _, s') => Some s'
      | (Ok n, s') => if (n <? batch)%nat then Some s' else tick fuel' locked batch s'
      end
  end.
