(* ===== verification/Api.v ===== *)
(** * The HTTP API of the deployment service

    services/deployment/internal: handlers.go and argocd_handlers.go (the
    user-facing handlers), middleware.go ([RequireAuth]) and the route tables of
    routes.go and argocd_handlers.go; the pipeline package mounts more routes,
    which are not modelled.
    Token verification (a JWT library) is a parameter; bodies are taken parsed,
    [None] being a body the parser rejects.  A handler's result is the status
    and the body of its response, or the error the error handler renders
    ([client_status] of [AppErrors] is its status). *)

From S2P Require Import Prelude Json AppErrors Tx Events Domain Pagination Authz Store.
From S2P Require Export Http.
From S2P Require Import DeploymentService Argo AgentApi.
Open Scope Z_scope.
Open Scope tx_scope.

(** ** Responses *)
Inductive Body :=
| BNone
| BStatusOk
| BApplication (v : ApplicationView)
| BApplications (l : list ApplicationView) (nextCursor : string)
| BDeployment (v : DeploymentView)
| BDeployments (l : list DeploymentView) (nextCursor : string)
| BDeploymentRelease (d : DeploymentView) (r : ReleaseView)
| BRelease (v : ReleaseView)
| BReleases (l : list ReleaseView) (nextCursor : string)
| BArgo (v : ArgoApplicationView)
| BDesired (clusterID : string) (items : list DesiredDeployment).
Record Response := mkResponse { status_code : Z; body : Body }.

Definition respond (b : Body) : DBM Response := ret (mkResponse 200 b).

Definition require_org (org : string) : DBM unit :=
  if String.eqb org "" then fail errOrgRequired else ret tt.

(** The columns of [SELECT] give the deployment view its revision. *)
Definition with_release (dr : Deployment * Release) : Body :=
  BDeploymentRelease (toDeploymentView dr.1 (Some (r_revision dr.2))) (toReleaseView dr.2).

Section Handlers.
Context `{CursorJSON}.
(** The client of Argo CD, when GitOps is enabled. *)
Context (argo : option ArgoClient).

Definition Handler_CreateApplication (org proj user : string)
    (b : option CreateApplicationRequest) : DBM Response :=
  let* _ := require_org org in
  if String.eqb proj "" then fail errProjectRequired
  else
    let* req := parseBody b in
    let* app := Service_CreateApplication org proj user req in
    ret (mkResponse 201 (BApplication (toApplicationView app))).

Definition Handler_GetApplication (org app user : string) : DBM Response :=
  let* _ := require_org org in
  let* a := Service_GetApplication org user app in
  respond (BApplication (toApplicationView a)).

Definition Handler_ListApplications (org proj user : string) (page : PageRequest)
    : DBM Response :=
  let* _ := require_org org in
  if String.eqb proj "" then fail errProjectRequired
  else
    let* p := Service_ListApplications org user proj page in
    respond (BApplications (toApplicationView <$> Items p) (NextCursor p)).

Definition Handler_UpdateApplication (org app user : string)
    (b : option UpdateApplicationRequest) : DBM Response :=
  let* _ := require_org org in
  let* req := parseBody b in
  let* a := Service_UpdateApplication org user app req in
  respond (BApplication (toApplicationView a)).

Definition Handler_DeleteApplication (org app user : string) : DBM Response :=
  let* _ := require_org org in
  let* _ := Service_DeleteApplication org user app in
  ret (mkResponse 204 BNone).

Definition Handler_CreateDeployment (org user : string) (b : option CreateDeploymentRequest)
    : DBM Response :=
  let* _ := require_org org in
  let* req := parseBody b in
  let* dr := Service_CreateDeployment
    (ArgoService_RegisterApplication <$> argo) org user req in
  ret (mkResponse 201 (with_release dr)).

Definition Handler_GetDeployment (org dep user : string) : DBM Response :=
  let* _ := require_org org in
  let* dr := Service_GetDeployment org user dep in
  respond (BDeployment (toDeploymentView dr.1 dr.2)).

Definition deployments_page (p : Page Deployment) : Body :=
  BDeployments ((λ d, toDeploymentView d None) <$> Items p) (NextCursor p).

Definition Handler_ListDeployments (org app user : string) (page : PageRequest)
    : DBM Response :=
  let* _ := require_org org in
  if String.eqb app "" then fail errAppNotFound
  else
    let* p := Service_ListDeployments org user app page in
    respond (deployments_page p).

Definition Handler_ListDeploymentsByCluster (org cluster user : string) (page : PageRequest)
    : DBM Response :=
  let* _ := require_org org in
  let* p := Service_ListDeploymentsByCluster org user cluster page in
  respond (deployments_page p).

Definition Handler_ListOrgDeployments (org user : string) (page : PageRequest)
    : DBM Response :=
  let* _ := require_org org in
  let* p := Service_ListOrgDeployments org user page in
  respond (deployments_page p).

Definition Handler_DeleteDeployment (org dep user : string) : DBM Response :=
  let* _ := require_org org in
  let* _ := Service_DeleteDeployment org user dep in
  ret (mkResponse 204 BNone).

Definition Handler_UpdateDeployment (org dep user : string)
    (b : option UpdateDeploymentRequest) : DBM Response :=
  let* _ := require_org org in
  let* req := parseBody b in
  let* dr := Service_UpdateDeployment org user dep req in
  respond (with_release dr).

Definition Handler_Rollback (org dep user : string) (b : option RollbackRequest)
    : DBM Response :=
  let* _ := require_org org in
  let* req := parseBody b in
  let* dr := Service_Rollback org user dep req in
  respond (with_release dr).

Definition Handler_UpdateDeploymentStatus (org dep rel user : string)
    (b : option UpdateStatusRequest) : DBM Response :=
  let* _ := require_org org in
  let* req := parseBody b in
  let* _ :=
    if one_of (us_status req) ["started"; "deploying"]%string then
      Service_MarkDeploymentStarted org user dep rel
    else if String.eqb (us_status req) "succeeded" then
      Service_MarkDeploymentSucceeded org user dep rel (default 0 (us_ready req))
    else if String.eqb (us_status req) "failed" then
      Service_MarkDeploymentFailed org user dep rel (deref (us_error req))
    else fail (Validation "status must be deploying, succeeded, or failed") in
  respond BStatusOk.

Definition Handler_ListReleases (org dep user : string) (page : PageRequest) : DBM Response :=
  let* _ := require_org org in
  let* p := Service_ListReleases org user dep page in
  respond (BReleases (toReleaseView <$> Items p) (NextCursor p)).

Definition Handler_GetRelease (org rel user : string) : DBM Response :=
  let* _ := require_org org in
  let* r := Service_GetRelease org user rel in
  respond (BRelease (toReleaseView r)).

(** ** argocd_handlers.go *)
Definition ArgoHandler_RegisterApplication (client : ArgoClient) (org dep user : string)
    (b : option GitOpsSource) : DBM Response :=
  let* _ := require_org org in
  let* req := parseBody b in
  let* rec := ArgoService_RegisterApplication client org user dep req in
  ret (mkResponse 201 (BArgo (toArgoApplicationView rec))).

Definition ArgoHandler_GetApplication (org dep user : string) : DBM Response :=
  let* _ := require_org org in
  let* rec := ArgoService_GetBinding org user dep in
  respond (BArgo (toArgoApplicationView rec)).

Definition ArgoHandler_Sync (client : ArgoClient) (org dep user : string)
    (b : option ArgoSyncRequest) : DBM Response :=
  let* _ := require_org org in
  let* req := parseBody b in
  let* rec := ArgoService_Sync client org user dep req in
  respond (BArgo (toArgoApplicationView rec)).

Definition ArgoHandler_Rollback (client : ArgoClient) (org dep user : string)
    (b : option ArgoRollbackRequest) : DBM Response :=
  let* _ := require_org org in
  let* req := parseBody b in
  let* rec := ArgoService_Rollback client org user dep req in
  respond (BArgo (toArgoApplicationView rec)).

(** The GitOps routes are only mounted when GitOps is enabled. *)
Definition errNoRoute := NotFound "Cannot match the route".
Definition mounted (h : ArgoClient → DBM Response) : DBM Response :=
  match argo with Some client => h client | None => fail errNoRoute end.
End Handlers.

(** ** routes.go *)

(** A request to an authenticated user route, with its path parameters, ... *)
Inductive UserRequest :=
| PostApplication (org proj : string) (b : option CreateApplicationRequest)
| ListApplications (org proj : string) (page : PageRequest)
| GetApplication (org app : string)
| PatchApplication (org app : string) (b : option UpdateApplicationRequest)
| DeleteApplication (org app : string)
| ListDeployments (org app : string) (page : PageRequest)
| ListOrgDeployments (org : string) (page : PageRequest)
| PostDeployment (org : string) (b : option CreateDeploymentRequest)
| GetDeployment (org dep : string)
| PatchDeployment (org dep : string) (b : option UpdateDeploymentRequest)
| DeleteDeployment (org dep : string)
| PostRollback (org dep : string) (b : option RollbackRequest)
| ListReleases (org dep : string) (page : PageRequest)
| GetRelease (org dep rel : string)
| PostReleaseStatus (org dep rel : string) (b : option UpdateStatusRequest)
| ListClusterDeployments (org cluster : string) (page : PageRequest)
| PostGitOps (org dep : string) (b : option GitOpsSource)
| GetGitOps (org dep : string)
| PostGitOpsSync (org dep : string) (b : option ArgoSyncRequest)
| PostGitOpsRollback (org dep : string) (b : option ArgoRollbackRequest).

(** ... and to a route for agents. *)
Inductive AgentRequest :=
| GetDesiredState (cluster : string)
| PostStatus (dep rel : string) (b : option UpdateStatusRequest)
| PostProgress (dep rel : string) (b : option UpdateProgressRequest).

Section Routes.
Context `{CursorJSON}.
(** The client of Argo CD, when GitOps is enabled. *)
Context (argo : option ArgoClient).

Definition serve_user (user : string) (r : UserRequest) : DBM Response :=
  match r with
  | PostApplication org proj b => Handler_CreateApplication org proj user b
  | ListApplications org proj page => Handler_ListApplications org proj user page
  | GetApplication org app => Handler_GetApplication org app user
  | PatchApplication org app b => Handler_UpdateApplication org app user b
  | DeleteApplication org app => Handler_DeleteApplication org app user
  | ListDeployments org app page => Handler_ListDeployments org app user page
  | ListOrgDeployments org page => Handler_ListOrgDeployments org user page
  | PostDeployment org b => Handler_CreateDeployment argo org user b
  | GetDeployment org dep => Handler_GetDeployment org dep user
  | PatchDeployment org dep b => Handler_UpdateDeployment org dep user b
  | DeleteDeployment org dep => Handler_DeleteDeployment org dep user
  | PostRollback org dep b => Handler_Rollback org dep user b
  | ListReleases org dep page => Handler_ListReleases org dep user page
  | GetRelease org dep rel => Handler_GetRelease org rel user
  | PostReleaseStatus org dep rel b => Handler_UpdateDeploymentStatus org dep rel user b
  | ListClusterDeployments org cluster page =>
      Handler_ListDeploymentsByCluster org cluster user page
  | PostGitOps org dep b =>
      mounted argo (λ client, ArgoHandler_RegisterApplication client org dep user b)
  | GetGitOps org dep => mounted argo (λ _, ArgoHandler_GetApplication org dep user)
  | PostGitOpsSync org dep b => mounted argo (λ client, ArgoHandler_Sync client org dep user b)
  | PostGitOpsRollback org dep b =>
      mounted argo (λ client, ArgoHandler_Rollback client org dep user b)
  end.

Definition serve_agent (h : AgentHandler) (agent : AgentIdentity) (r : AgentRequest)
    : DBM Response :=
  match r with
  | GetDesiredState cluster =>
      let* ds := AgentHandler_GetDesiredState agent cluster in
      respond (BDesired ds.1 ds.2)
  | PostStatus dep rel b =>
      let* _ := AgentHandler_UpdateDeploymentStatus h agent dep rel b in respond BStatusOk
  | PostProgress dep rel b =>
      let* _ := AgentHandler_UpdateDeploymentProgress h agent dep rel b in respond BStatusOk
  end.
End Routes.
