(* ===== verification/Guarantees.v ===== *)
(** * System-wide guarantees

    Every call of the service, whoever makes it, whatever it carries and
    whichever statements fail, performs steps of the abstract machine of [Spec]
    in the tenant it names; the guarantees of the machine therefore hold of
    every reachable database. *)

From S2P Require Import Prelude Json AppErrors Tx Events Domain Pagination Authz Store.
From S2P Require Import DeploymentService Argo StoreFacts Spec ServiceFacts ArgoFacts.
From S2P Require Import AgentApi AgentFacts BuildConsumer Api.
Open Scope Z_scope.
Open Scope tx_scope.

(** ** Reads *)
Lemma readonly_require_org o : readonly (require_org o).
Proof. intros s. unfold require_org. by destruct (String.eqb o ""). Qed.
Lemma readonly_rel_List d req : readonly (releaseRepo_List d req).
Proof.
  unfold releaseRepo_List. apply readonly_bind; [apply readonly_query|intros; apply readonly_ret].
Qed.
Lemma readonly_respond b : readonly (respond b).
Proof. by intros s. Qed.
Lemma readonly_parseBody {A} (b : option A) : readonly (S := DB) (W := Stream) (parseBody b).
Proof. intros s. by destruct b. Qed.
#[export] Hint Resolve readonly_require_org readonly_rel_List readonly_respond readonly_parseBody
  : readonly.

(** A step before or after the action that does not touch the database. *)
Lemma acts_pre {A B} o (m : DBM A) (k : A → DBM B) :
  (∀ s r s', m s = (r, s') → s' = s) → (∀ a, acts o (k a)) → acts o (bind m k).
Proof.
  intros Hm Hk s r s' Hu H W. unfold bind in H. destruct (m s) as [[a|e] s1] eqn:Hs;
    apply Hm in Hs as ->; [by eapply Hk|injection H as <- <-; by left].
Qed.
Lemma acts_post {A B} o (m : DBM A) (k : A → DBM B) :
  acts o m → (∀ a, readonly (k a)) → acts o (bind m k).
Proof.
  intros Hm Hk s r s' Hu H W. unfold bind in H.
  destruct (m s) as [[a|e] s1] eqn:Hs; [|simplify_eq; by eapply Hm].
  specialize (Hk a s1). rewrite H in Hk. simpl in Hk. rewrite Hk. by eapply Hm.
Qed.

Lemma require_org_same o s r s' : require_org o s = (r, s') → s' = s.
Proof. unfold require_org. destruct (String.eqb o ""); by intros [= <- <-]. Qed.
Lemma parseBody_same {A} (b : option A) (s : Sess DB Stream) r s' : parseBody b s = (r, s') → s' = s.
Proof. destruct b; by intros [= <- <-]. Qed.
Lemma acts_fail {A} o e : acts o (@fail DB Stream A e).
Proof. apply readonly_acts, readonly_fail. Qed.

(** ** Calls *)
Definition request_org (r : UserRequest) : string :=
  match r with
  | PostApplication o _ _ | ListApplications o _ _ | GetApplication o _ | PatchApplication o _ _
  | DeleteApplication o _ | ListDeployments o _ _ | ListOrgDeployments o _ | PostDeployment o _
  | GetDeployment o _ | PatchDeployment o _ _ | DeleteDeployment o _ | PostRollback o _ _
  | ListReleases o _ _ | GetRelease o _ _ | PostReleaseStatus o _ _ _
  | ListClusterDeployments o _ _ | PostGitOps o _ _ | GetGitOps o _ | PostGitOpsSync o _ _
  | PostGitOpsRollback o _ _ => o
  end.

Ltac handler :=
  repeat first
    [ apply acts_pre; [intros; first [by eapply require_org_same|by eapply parseBody_same]|intros]
    | apply acts_fail
    | apply acts_post; [|intros; solve [solve_readonly]]
    | case_match ].

Section Calls.
Context `{CursorJSON}.

Lemma serve_user_acts argo user r : acts (request_org r) (serve_user argo user r).
Proof.
  destruct r; simpl; try (apply readonly_acts; solve [
    unfold Handler_ListApplications, Handler_GetApplication, Handler_ListDeployments,
      Handler_ListOrgDeployments, Handler_GetDeployment, Handler_ListReleases,
      Handler_GetRelease, Handler_ListDeploymentsByCluster,
      Service_ListApplications, Service_GetApplication, Service_ListDeployments,
      Service_ListOrgDeployments, Service_GetDeployment, Service_ListReleases,
      Service_GetRelease, Service_ListDeploymentsByCluster, respond,
      applicationRepo_List, applicationRepo_GetByID, deploymentRepo_List,
      deploymentRepo_GetByID, deploymentRepo_ListByOrg, deploymentRepo_ListByCluster,
      releaseRepo_GetLatest, releaseRepo_GetByID;
    solve_readonly]);
  try (unfold mounted; destruct argo as [client|]; [|apply acts_fail]).
  - unfold Handler_CreateApplication. handler. apply CreateApplication_acts.
  - unfold Handler_UpdateApplication. handler. apply UpdateApplication_acts.
  - unfold Handler_DeleteApplication. handler. apply DeleteApplication_acts.
  - unfold Handler_CreateDeployment. handler. apply CreateDeployment_acts.
    intros reg Hreg u d src. destruct argo as [client|]; [|done]. injection Hreg as <-.
    apply RegisterApplication_acts.
  - unfold Handler_UpdateDeployment. handler. apply UpdateDeployment_acts.
  - unfold Handler_DeleteDeployment. handler. apply DeleteDeployment_acts.
  - unfold Handler_Rollback. handler. apply Rollback_acts.
  - unfold Handler_UpdateDeploymentStatus. handler.
    + apply MarkDeploymentStarted_acts.
    + apply MarkDeploymentSucceeded_acts.
    + apply MarkDeploymentFailed_acts.
  - unfold ArgoHandler_RegisterApplication. handler. apply RegisterApplication_acts.
  - apply readonly_acts. unfold ArgoHandler_GetApplication, ArgoService_GetBinding. solve_readonly.
  - apply readonly_acts. unfold ArgoHandler_Sync, ArgoService_Sync. solve_readonly.
  - unfold ArgoHandler_Rollback.
    do 2 (apply acts_pre; [intros; first [by eapply require_org_same|by eapply parseBody_same]|intros]).
    apply acts_post; [apply ArgoRollback_acts|intros; apply readonly_respond].
Qed.

Lemma serve_agent_acts h agent r : acts (ag_org agent) (serve_agent h agent r).
Proof.
  destruct r; simpl.
  - apply readonly_acts. unfold AgentHandler_GetDesiredState, desiredStateRepo_GetDesiredState.
    solve_readonly.
  - handler. apply UpdateDeploymentStatus_acts.
  - handler. apply UpdateDeploymentProgress_acts.
Qed.

(** A call: a user's request, an agent's, a delivered build event, or the
    monitor's look at an application of Argo CD; what Argo CD answers during a
    request comes with it. *)
Inductive Call :=
| UserCall (argo : option ArgoClient) (user : string) (r : UserRequest)
| AgentCall (h : AgentHandler) (agent : AgentIdentity) (r : AgentRequest)
| BuildCall (e : Envelope json)
| MonitorCall (app : argocd.Application).

Definition call_org (c : Call) : string :=
  match c with
  | UserCall _ _ r => request_org r
  | AgentCall _ agent _ => ag_org agent
  | BuildCall e => OrgID e
  | MonitorCall app => app_org app
  end.

Definition perform (c : Call) : DBM unit :=
  match c with
  | UserCall argo user r => let* _ := serve_user argo user r in ret tt
  | AgentCall h agent r => let* _ := serve_agent h agent r in ret tt
  | BuildCall e => BuildConsumer_handle e
  | MonitorCall app => monitor_app app
  end.

Lemma perform_acts c : acts (call_org c) (perform c).
Proof.
  destruct c; simpl.
  - apply acts_post; [apply serve_user_acts|intros; apply readonly_ret].
  - apply acts_post; [apply serve_agent_acts|intros; apply readonly_ret].
  - apply BuildConsumer_handle_acts.
  - apply monitor_app_acts.
Qed.
End Calls.
