(* ===== verification/RelayFacts.v ===== *)
(** * What the relay guarantees

    At-least-once delivery into the broker, without loss or duplication in the
    stream, whatever fails; and the backlog is cleared when nothing fails. *)

From S2P Require Import Prelude Json GoTime AppErrors Tx Events Domain Pagination Authz Store.
From S2P Require Import DeploymentService StoreFacts Spec Relay.
Open Scope Z_scope.
Open Scope tx_scope.
Implicit Types s : Sess DB Stream.

Definition stream_adds (now : Z) (l : list Event) (w : Stream) : Stream :=
  fold_left (λ w e, stream_add now e w) l w.

(** Messages of one event are at least the duplicate window apart. *)
Definition spaced (w : list Message) : Prop :=
  ∀ i j m1 m2, (i < j)%nat → w !! i = Some m1 → w !! j = Some m2 →
    EventID (msg_event m1) = EventID (msg_event m2) → msg_at m1 + Duplicates ≤ msg_at m2.

Lemma recent_spec now e m :
  recent now e m = true ↔ EventID (msg_event m) = EventID e ∧ now - msg_at m < Duplicates.
Proof. unfold recent. by rewrite andb_true_iff, String.eqb_eq, Z.ltb_lt. Qed.
Lemma recent_new now e : recent now e (mkMessage now e) = true.
Proof. apply recent_spec. split; [done|]. simpl. rewrite Z.sub_diag. by vm_compute. Qed.

Lemma stream_add_cases now e w :
  stream_add now e w = w ∧ (∃ m, m ∈ w ∧ recent now e m = true) ∨
  stream_add now e w = w ++ [mkMessage now e] ∧ ∀ m, m ∈ w → recent now e m = false.
Proof.
  unfold stream_add. destruct (existsb (recent now e) w) eqn:Hex; [left|right]; (split; [done|]).
  - apply existsb_exists in Hex as (m & Hm & ?). exists m. by rewrite list_elem_of_In.
  - intros m Hm. apply not_true_is_false. intros Hr. apply not_true_iff_false in Hex.
    apply Hex, existsb_exists. exists m. by rewrite <- list_elem_of_In.
Qed.

Lemma stream_add_spaced now e w : spaced w → spaced (stream_add now e w).
Proof.
  intros Hw. destruct (stream_add_cases now e w) as [[-> _]|[-> Hn]]; [done|].
  intros i j m1 m2 Hij Hi Hj Heq.
  assert (Hil : (i < length w)%nat).
  { apply lookup_lt_Some in Hj. rewrite length_app in Hj. simpl in Hj. lia. }
  rewrite lookup_app_l in Hi by done.
  apply lookup_app_Some in Hj as [Hj|[_ Hj]]; [exact (Hw _ _ _ _ Hij Hi Hj Heq)|].
  apply list_lookup_singleton_Some in Hj as [_ <-]. simpl in *.
  destruct (Z.le_gt_cases (msg_at m1 + Duplicates) now); [done|].
  exfalso.
  apply list_elem_of_lookup_2, Hn in Hi. apply not_true_iff_false in Hi. apply Hi, recent_spec.
  split; [done|lia].
Qed.

(** Publishing a batch: what is new, and that every event is there. *)
Lemma stream_adds_spec now l w :
  ∃ new, stream_adds now l w = w ++ new ∧
    Forall (λ m, msg_at m = now ∧ msg_event m ∈ l) new ∧
    ∀ e, e ∈ l → ∃ m, m ∈ w ++ new ∧ recent now e m = true.
Proof.
  revert w. induction l as [|e l IH]; intros w; simpl.
  { exists []. rewrite app_nil_r. split_and!; [done..|]. by intros e ?%not_elem_of_nil. }
  destruct (stream_add_cases now e w) as [[-> (m & Hm & Hr)]|[-> _]].
  - destruct (IH w) as (new & -> & Hf & Hall). exists new. split_and!; [done| |].
    + eapply Forall_impl; [exact Hf|]. intros x [? ?]. split; [done|by right].
    + intros x [->|Hx]%elem_of_cons; [|by apply Hall]. exists m. split; [|done].
      apply elem_of_app. by left.
  - destruct (IH (w ++ [mkMessage now e])) as (new & -> & Hf & Hall).
    exists (mkMessage now e :: new). rewrite <- app_assoc in *. simpl in *. split_and!; [done| |].
    + constructor; [split; [done|left]|]. eapply Forall_impl; [exact Hf|].
      intros x [? ?]. split; [done|by right].
    + intros x [->|Hx]%elem_of_cons; [|by apply Hall]. exists (mkMessage now e).
      split; [set_solver|apply recent_new].
Qed.

Lemma stream_adds_spaced now l w : spaced w → spaced (stream_adds now l w).
Proof. revert w. induction l as [|e l IH]; intros w; simpl; auto using stream_add_spaced. Qed.

(** ** One batch *)
Lemma Publish_inv e s r s' :
  Publish e s = (r, s') →
  store s' = store s ∧ clock s' = clock s ∧
  match r with
  | Ok _ => outside s' = stream_add (clock s) e (outside s)
  | Err _ => outside s' = outside s
  end.
Proof.
  unfold Publish. destruct (Validate e); [by intros [= <- <-]|].
  unfold pop_fault. destruct (faults s) as [|[f|] fs]; by intros [= <- <-].
Qed.

Lemma publish_all_inv l s r s' :
  publish_all l s = (r, s') →
  store s' = store s ∧ ∃ k,
    outside s' = stream_adds (clock s) (take k (ob_event <$> l)) (outside s) ∧
    ∀ ids, r = Ok ids → (length l ≤ k)%nat ∧ ids = ob_id <$> l.
Proof.
  revert s r s'. induction l as [|row l IH]; intros s r s' H; simpl in H.
  { injection H as <- <-. split; [done|]. exists 0%nat. split; [done|]. by intros ids [= <-]. }
  unfold bind at 1 in H. destruct (Publish (ob_event row) s) as [[u|e] s1] eqn:Hp;
    apply Publish_inv in Hp as (Hs & Hc & Hw).
  - unfold bind in H. destruct (publish_all l s1) as [[ids|e] s2] eqn:Hl;
      apply IH in Hl as (Hs2 & k & Hw2 & Hk); injection H as <- <-;
      (split; [congruence|]); exists (S k); simpl; rewrite Hw2, Hw, Hc; (split; [done|]).
    + intros ids' [= <-]. destruct (Hk _ eq_refl) as [? ->]. split; [simpl; lia|done].
    + done.
  - injection H as <- <-. split; [done|]. exists 0%nat. by split.
Qed.

Definition marked_row (ids : list string) (now : Z) (r : OutboxRow payload) : OutboxRow payload :=
  if bool_decide (ob_id r ∈ ids) then mkOutbox (ob_id r) (ob_event r) (ob_created r) (Some now)
  else r.

Lemma MarkPublished_inv ids s r s' :
  PostgresOutbox_MarkPublished ids s = (r, s') →
  outside s' = outside s ∧
  (store s' = store s ∨
   store s' = set_outbox (marked_row ids (clock s) <$> t_outbox (store s)) (store s)).
Proof.
  assert (Hs : ∀ (f : string → Z → DB → string + nat * DB) (s : Sess DB Stream) r s',
            stmt f s = (r, s') → outside s' = outside s).
  { intros f x y z. unfold stmt. destruct (aborted x); [by intros [= <- <-]|].
    unfold pop_fault. destruct (faults x) as [|[g|] fs];
      [|by intros [= <- <-]|]; simpl; (destruct (f _ _ _) as [?|[? ?]]; by intros [= <- <-]). }
  unfold PostgresOutbox_MarkPublished. destruct ids as [|i ids].
  { intros [= <- <-]. auto. }
  unfold bind, Exec, on_err. destruct (stmt _ s) as [[n|e] s1] eqn:Hst;
    pose proof (Hs _ _ _ _ Hst) as Hw; intros [= <- <-]; (split; [done|]).
  - apply stmt_Ok_inv in Hst as (Hf & _). unfold mark_published in Hf. injection Hf as _ <-.
    by right.
  - apply stmt_Err_frame in Hst as (? & _). by left.
Qed.

Lemma FetchUnpublished_inv locked batch s r s' :
  PostgresOutbox_FetchUnpublished locked batch s = (r, s') →
  store s' = store s ∧ outside s' = outside s ∧
  ∀ l, r = Ok l → l = take batch (merge_sort older
      (filter (λ r, ob_published r = None ∧ ob_id r ∉ locked) (t_outbox (store s)))).
Proof.
  unfold PostgresOutbox_FetchUnpublished, QueryAll, on_err, stmt.
  destruct (aborted s); [by intros [= <- <-]|].
  unfold pop_fault. destruct (faults s) as [|[g|] fs]; intros [= <- <-];
    (split; [done|]); (split; [done|]); intros l Hl; try done; by injection Hl as <-.
Qed.

(** ** The invariant *)

(** What identifies a row of the outbox. *)
Definition row_key (r : OutboxRow payload) : string * Event * Z := (ob_id r, ob_event r, ob_created r).

Record relay_ok (db : DB) (w : Stream) : Prop := {
  rk_ids : NoDup (ob_id <$> t_outbox db);
  (** A row marked published was accepted: nothing is lost. *)
  rk_published row : row ∈ t_outbox db → ob_published row ≠ None →
    EventID (ob_event row) ∈ EventID ∘ msg_event <$> w;
  (** An event is only repeated after the duplicate window. *)
  rk_spaced : spaced w;
  (** And only events of the outbox are sent. *)
  rk_source m : m ∈ w → msg_event m ∈ ob_event <$> t_outbox db }.

(** The relay changes nothing of a database but publication marks. *)
Definition only_marks (db db' : DB) : Prop :=
  db' = set_outbox (t_outbox db') db ∧ row_key <$> t_outbox db' = row_key <$> t_outbox db.

Lemma only_marks_refl db : only_marks db db.
Proof. by destruct db. Qed.

Lemma marked_row_key ids now (l : list (OutboxRow payload)) : row_key <$> (marked_row ids now <$> l) = row_key <$> l.
Proof.
  rewrite <- list_fmap_compose. apply list_fmap_ext. intros i r _.
  unfold compose, marked_row. by destruct (bool_decide _).
Qed.

Lemma row_key_ids (l l' : list (OutboxRow payload)) : row_key <$> l' = row_key <$> l →
  ob_id <$> l' = ob_id <$> l ∧ ob_event <$> l' = ob_event <$> l.
Proof.
  revert l'. induction l as [|r l IH]; intros [|r' l']; try done. intros [= ? ? ? Ht].
  destruct (IH _ Ht) as [Hi He]. split; rewrite !fmap_cons; congruence.
Qed.

(** The stream may be ahead of the marks. *)
Lemma relay_ok_stream db w w' :
  relay_ok db w → spaced w' → w `prefix_of` w' →
  (∀ m, m ∈ w' → msg_event m ∈ ob_event <$> t_outbox db) → relay_ok db w'.
Proof.
  intros [] ? [new ->] ?. split; try done. intros row ? ?. rewrite fmap_app, elem_of_app. eauto.
Qed.

Lemma relay_ok_mark db w ids now :
  relay_ok db w →
  (∀ row, row ∈ t_outbox db → ob_id row ∈ ids → EventID (ob_event row) ∈ EventID ∘ msg_event <$> w) →
  relay_ok (set_outbox (marked_row ids now <$> t_outbox db) db) w ∧
  only_marks db (set_outbox (marked_row ids now <$> t_outbox db) db).
Proof.
  intros [H1 H2 H3 H4] Hids. destruct (row_key_ids _ _ (marked_row_key ids now (t_outbox db)))
    as [E1 E2].
  split; [split; simpl|split; simpl; [done|apply marked_row_key]].
  - by rewrite E1.
  - intros row (r & -> & Hr)%list_elem_of_fmap. unfold marked_row.
    case_bool_decide; simpl; [by intros _; apply Hids|by apply H2].
  - done.
  - by rewrite E2.
Qed.

Lemma list_fmap_NoDup_inj {A B} (l : list A) (f : A → B) x y :
  NoDup (f <$> l) → x ∈ l → y ∈ l → f x = f y → x = y.
Proof.
  induction l as [|a l IH]; [by intros _ ?%not_elem_of_nil|]. rewrite fmap_cons.
  intros [Ha Hnd]%NoDup_cons [->|Hx]%elem_of_cons [->|Hy]%elem_of_cons Heq; auto.
  - destruct Ha. rewrite Heq. by apply list_elem_of_fmap_2.
  - destruct Ha. rewrite <- Heq. by apply list_elem_of_fmap_2.
Qed.

(** The body of [drain]. *)
Definition drain_body (locked : gset string) (batch : nat) : DBM nat :=
  let* records := PostgresOutbox_FetchUnpublished locked batch in
  match records with
  | [] => ret 0%nat
  | _ =>
      let* ids := publish_all records in
      PostgresOutbox_MarkPublished ids ;;
      ret (length ids)
  end.

Lemma drain_body_inv locked batch s r s' :
  drain_body locked batch s = (r, s') → relay_ok (store s) (outside s) →
  outside s `prefix_of` outside s' ∧
  relay_ok (store s) (outside s') ∧ relay_ok (store s') (outside s') ∧
  only_marks (store s) (store s').
Proof.
  intros H HP. unfold drain_body, bind at 1 in H.
  destruct (PostgresOutbox_FetchUnpublished locked batch s) as [[l|e] s1] eqn:Hf;
    apply FetchUnpublished_inv in Hf as (Hs1 & Hw1 & Hl).
  2:{ injection H as <- <-. rewrite Hs1, Hw1. auto using only_marks_refl. }
  destruct l as [|x l0] eqn:El.
  { injection H as <- <-. rewrite Hs1, Hw1. auto using only_marks_refl. }
  rewrite <- El in *. clear El x l0. specialize (Hl _ eq_refl).
  assert (Hin : ∀ row, row ∈ l → row ∈ t_outbox (store s)).
  { intros row. rewrite Hl. intros Hrow%elem_of_take. destruct Hrow as (i & Hi & _).
    apply list_elem_of_lookup_2 in Hi. rewrite merge_sort_Permutation in Hi.
    by apply list_elem_of_filter in Hi as [_ ?]. }
  unfold bind at 1 in H. destruct (publish_all l s1) as [rp s2] eqn:Hp.
  apply publish_all_inv in Hp as (Hs2 & k & Hw2 & Hk). rewrite Hw1 in Hw2. rewrite Hs1 in Hs2.
  destruct (stream_adds_spec (clock s1) (take k (ob_event <$> l)) (outside s)) as (new & Hnew & Hf & Hall).
  rewrite <- Hnew, <- Hw2 in Hall. rewrite <- Hw2 in Hnew.
  assert (Hsub : outside s `prefix_of` outside s2) by (rewrite Hnew; by apply prefix_app_r).
  assert (HP2 : relay_ok (store s) (outside s2)).
  { apply (relay_ok_stream _ (outside s)); try done.
    - rewrite Hw2. apply stream_adds_spaced, HP.
    - intros m. rewrite Hnew, elem_of_app. intros [Hm|Hm]; [by apply HP|].
      rewrite Forall_forall in Hf. destruct (Hf m Hm) as [_ He].
      apply elem_of_take in He as (i & Hi & _). apply list_elem_of_lookup_2 in Hi.
      apply list_elem_of_fmap in Hi as (row & -> & Hrow). by apply list_elem_of_fmap_2, Hin. }
  destruct rp as [ids|e].
  2:{ injection H as <- <-. rewrite Hs2. auto using only_marks_refl. }
  destruct (Hk _ eq_refl) as [Hlen ->]. unfold bind in H.
  destruct (PostgresOutbox_MarkPublished (ob_id <$> l) s2) as [rm s3] eqn:Hm.
  apply MarkPublished_inv in Hm as [Hw3 Hs3].
  assert (s' = s3) as -> by (destruct rm; by injection H).
  rewrite Hw3. destruct Hs3 as [->|Hs3]; [rewrite Hs2; auto using only_marks_refl|].
  rewrite Hs3, Hs2. split; [done|]. split; [done|]. apply relay_ok_mark; [done|].
  intros row Hrow (row' & Hid & Hrow')%list_elem_of_fmap.
  assert (row = row') as ->.
  { apply Hin in Hrow'. eapply (list_fmap_NoDup_inj _ ob_id); [apply HP|..]; done. }
  destruct (Hall (ob_event row')) as (m & Hm & [<- _]%recent_spec).
  { rewrite take_ge by (by rewrite length_fmap). by apply list_elem_of_fmap_2. }
  by apply (list_elem_of_fmap_2 (EventID ∘ msg_event)).
Qed.

Lemma only_marks_trans d1 d2 d3 : only_marks d1 d2 → only_marks d2 d3 → only_marks d1 d3.
Proof.
  intros [A1 A2] [B1 B2]. split; [|congruence].
  transitivity (set_outbox (t_outbox d3) d2); [done|]. by rewrite A1.
Qed.

Lemma drain_inv locked batch s r s' :
  drain locked batch s = (r, s') → relay_ok (store s) (outside s) →
  relay_ok (store s') (outside s') ∧ only_marks (store s) (store s') ∧
  outside s `prefix_of` outside s'.
Proof.
  intros H HP. eapply (Tx_invariant "" (drain_body locked batch)
    (λ db w, relay_ok db w ∧ only_marks (store s) db ∧ outside s `prefix_of` w)) in H.
  - tauto.
  - intros s1 r1 s2 (H1 & H2 & H3) Hb. apply drain_body_inv in Hb as (B1 & B2 & B3 & B4); [|done].
    split; (split; [done|]); (split; [|by etrans]); [done|by eapply only_marks_trans].
  - split; [done|]. split; [apply only_marks_refl|done].
Qed.

(** ** Progress without faults *)
Definition unpublished (db : DB) : list (OutboxRow payload) :=
  filter (λ r, ob_published r = None) (t_outbox db).

(** The records of a batch: the oldest unpublished ones no other relay holds. *)
Definition batch_of (locked : gset string) (batch : nat) (db : DB) : list (OutboxRow payload) :=
  take batch (merge_sort older
    (filter (λ r, ob_published r = None ∧ ob_id r ∉ locked) (t_outbox db))).

Lemma publish_all_quiet l (s : Sess DB Stream) :
  quiet s → Forall (λ row, Validate (ob_event row) = None) l →
  publish_all l s = (Ok (ob_id <$> l), set_outside (stream_adds (clock s) (ob_event <$> l) (outside s)) s).
Proof.
  revert s. induction l as [|row l IH]; intros s Hq Hv; simpl.
  { by destruct s. }
  inversion Hv as [|?? Hrow Hl]; subst. unfold bind, Publish, pop_fault.
  rewrite Hrow. unfold quiet in Hq. rewrite Hq. by rewrite IH.
Qed.

Lemma Fetch_quiet batch (s : Sess DB Stream) :
  quiet s → aborted s = false →
  PostgresOutbox_FetchUnpublished ∅ batch s = (Ok (batch_of ∅ batch (store s)), s).
Proof.
  intros Hq Ha. unfold PostgresOutbox_FetchUnpublished, QueryAll, on_err.
  rewrite stmt_quiet by done. by destruct s.
Qed.

Lemma drain_quiet batch s :
  quiet s → Forall (λ row, Validate (ob_event row) = None) (t_outbox (store s)) →
  let l := batch_of ∅ batch (store s) in
  drain ∅ batch s =
    (Ok (length l),
     set_outside (stream_adds (clock s) (ob_event <$> l) (outside s))
       (set_store (match l with
                   | [] => store s
                   | _ => set_outbox (marked_row (ob_id <$> l) (clock s) <$> t_outbox (store s))
                            (store s)
                   end) s)).
Proof.
  intros Hq Hv l. unfold drain, Tx, TxWithOptions, tx_attempts, maxTxAttempts.
  change (bind (PostgresOutbox_FetchUnpublished ∅ batch) _) with (drain_body ∅ batch).
  assert (Hbody : drain_body ∅ batch (enter "" s) =
    (Ok (length l), set_outside (stream_adds (clock s) (ob_event <$> l) (outside s))
       (set_store (match l with
                   | [] => store s
                   | _ => set_outbox (marked_row (ob_id <$> l) (clock s) <$> t_outbox (store s))
                            (store s)
                   end) (enter "" s)))).
  { unfold drain_body, bind at 1. rewrite Fetch_quiet by done.
    change (batch_of ∅ batch (store (enter "" s))) with l.
    assert (Hl : Forall (λ row, Validate (ob_event row) = None) l).
    { unfold l, batch_of. apply Forall_take. rewrite merge_sort_Permutation.
      rewrite Forall_forall in *.
      intros r Hr. apply list_elem_of_filter in Hr as [_ Hr]. by apply Hv. }
    clearbody l. destruct l as [|x l'] eqn:El; [by destruct s|]. rewrite <- El in *.
    unfold bind at 1. rewrite publish_all_quiet by done.
    destruct (ob_id <$> l) as [|i ids] eqn:Ei; [by rewrite El in Ei|].
    unfold PostgresOutbox_MarkPublished, bind, Exec, on_err.
    rewrite stmt_quiet by done. unfold mark_published. simpl.
    rewrite <- (length_fmap ob_id), Ei. simpl. by destruct s. }
  rewrite (runTx_quiet "" _ s _ _ Hq Hbody) by done. simpl. by destruct s.
Qed.

Lemma unpublished_marked ids now (l : list (OutboxRow payload)) :
  filter (λ r, ob_published r = None) (marked_row ids now <$> l) =
  filter (λ r, ob_id r ∉ ids) (filter (λ r, ob_published r = None) l).
Proof.
  induction l as [|r l IH]; [done|]. rewrite fmap_cons.
  unfold marked_row at 1. case_bool_decide as Hin; simpl.
  - rewrite filter_cons_False by done. rewrite IH.
    destruct (ob_published r) eqn:Hp; [by rewrite (filter_cons_False _ r) by congruence|].
    by rewrite filter_cons_True, filter_cons_False by (done || tauto).
  - destruct (ob_published r) eqn:Hp.
    + rewrite !(filter_cons_False (λ r, ob_published r = None)) by congruence. apply IH.
    + rewrite !(filter_cons_True (λ r, ob_published r = None)) by done.
      rewrite filter_cons_True by done. by rewrite IH.
Qed.

(** After a fault-free batch the rest of the backlog remains. *)
Lemma unpublished_after batch db now :
  NoDup (ob_id <$> t_outbox db) →
  let ids := ob_id <$> batch_of ∅ batch db in
  unpublished (set_outbox (marked_row ids now <$> t_outbox db) db) ≡ₚ
  drop batch (merge_sort older (unpublished db)).
Proof.
  intros Hnd ids. unfold unpublished at 1. simpl. rewrite unpublished_marked.
  assert (Hb : batch_of ∅ batch db = take batch (merge_sort older (unpublished db))).
  { unfold batch_of, unpublished. do 2 f_equal. apply list_filter_iff. intros r. set_solver. }
  fold (unpublished db). unfold ids. rewrite Hb.
  set (sorted := merge_sort older (unpublished db)).
  assert (Hp : sorted ≡ₚ unpublished db) by apply merge_sort_Permutation.
  assert (Hs : NoDup (ob_id <$> sorted)).
  { rewrite Hp. unfold unpublished. clear -Hnd. induction (t_outbox db) as [|r l IH]; [done|].
    rewrite fmap_cons in Hnd. apply NoDup_cons in Hnd as [Hr Hnd]. rewrite filter_cons.
    destruct (decide _); [|by apply IH]. rewrite fmap_cons. apply NoDup_cons. split; [|by apply IH].
    intros (x & Heq & Hx)%list_elem_of_fmap. apply Hr. rewrite Heq. apply list_elem_of_fmap_2.
    by apply list_elem_of_filter in Hx as [_ ?]. }
  clearbody sorted. rewrite <- Hp.
  rewrite <- (take_drop batch sorted), fmap_app in Hs.
  apply NoDup_app in Hs as (_ & Hdis & _).
  transitivity (filter (λ r, ob_id r ∉ ob_id <$> take batch sorted)
                  (take batch sorted ++ drop batch sorted)); [by rewrite take_drop|].
  rewrite filter_app.
  rewrite filter_none, filter_all; [done| |].
  - intros r Hr Hin. by eapply Hdis; [exact Hin|apply list_elem_of_fmap_2].
  - intros r Hr Hn. apply Hn. by apply list_elem_of_fmap_2.
Qed.

Lemma tick_quiet fuel batch s :
  (0 < batch)%nat → quiet s → relay_ok (store s) (outside s) →
  Forall (λ row, Validate (ob_event row) = None) (t_outbox (store s)) →
  (length (unpublished (store s)) < fuel)%nat →
  ∃ s' new, tick fuel ∅ batch s = Some s' ∧ relay_ok (store s') (outside s') ∧
    only_marks (store s) (store s') ∧
    (∀ row, row ∈ t_outbox (store s') → ob_published row ≠ None) ∧
    outside s' = outside s ++ new ∧
    Forall (λ m, msg_at m = clock s ∧ msg_event m ∈ ob_event <$> unpublished (store s)) new ∧
    ∀ row, row ∈ unpublished (store s) → ∃ m, m ∈ outside s' ∧ recent (clock s) (ob_event row) m = true.
Proof.
  revert s. induction fuel as [|fuel IH]; intros s Hb Hq Hok Hv Hlen; [lia|]. simpl.
  pose proof (drain_quiet batch s Hq Hv) as Hd. simpl in Hd. set (l := batch_of ∅ batch (store s)) in *.
  set (db' := match l with [] => store s | _ => _ end) in Hd.
  assert (Hdb : unpublished db' ≡ₚ drop batch (merge_sort older (unpublished (store s)))).
  { pose proof (unpublished_after batch (store s) (clock s) (rk_ids _ _ Hok)) as Hu.
    simpl in Hu. fold l in Hu. unfold db'. destruct l as [|x l'] eqn:El; [|exact Hu].
    rewrite <- Hu. unfold unpublished. simpl. rewrite unpublished_marked.
    rewrite (filter_all (λ r, ob_id r ∉ [])); [done|]. intros ? _ ?%not_elem_of_nil. done. }
  assert (Hlt : l = take batch (merge_sort older (unpublished (store s)))).
  { unfold l, batch_of, unpublished. do 2 f_equal. apply list_filter_iff. intros r. set_solver. }
  assert (Hsplit : unpublished (store s) ≡ₚ l ++ unpublished db').
  { rewrite Hdb, Hlt, take_drop. symmetry. apply merge_sort_Permutation. }
  assert (Hl : length l = (batch `min` length (unpublished (store s)))%nat).
  { by rewrite Hlt, length_take, merge_sort_Permutation. }
  rewrite Hd. apply drain_inv in Hd as (Hok' & Hm & _); [|done]. simpl in *.
  apply Permutation_length in Hdb as Hdl.
  rewrite length_drop, merge_sort_Permutation in Hdl.
  destruct (stream_adds_spec (clock s) (ob_event <$> l) (outside s)) as (new & Hnew & Hf & Hall).
  destruct (Nat.ltb_spec (length l) batch) as [Hlt'|Hge].
  - assert (Hnil : unpublished db' = []) by (apply nil_length_inv; lia).
    rewrite Hnil, app_nil_r in Hsplit.
    eexists _, new. split_and!; [done|done|done| |exact Hnew| |]; simpl.
    + intros row Hrow Hnone. assert (row ∈ unpublished db') as Hin by (by apply list_elem_of_filter).
      rewrite Hnil in Hin. by apply not_elem_of_nil in Hin.
    + by setoid_rewrite Hsplit.
    + intros row. rewrite Hsplit. intros Hrow. rewrite Hnew. by apply Hall, list_elem_of_fmap_2.
  - edestruct (IH (set_outside (stream_adds (clock s) (ob_event <$> l) (outside s)) (set_store db' s)))
      as (s' & new2 & Ht & Hok2 & Hm2 & Hpub & Hnew2 & Hf2 & Hall2); [done|done|done| |simpl; lia|].
    { simpl. destruct Hm as [_ Hkey]. apply row_key_ids in Hkey as [_ Hev].
      assert (Hev' : Forall (λ e, Validate e = None) (ob_event <$> t_outbox db')).
      { rewrite Hev. by apply Forall_fmap. }
      by apply Forall_fmap in Hev'. }
    simpl in *. rewrite Hnew, <- app_assoc in Hnew2.
    exists s', (new ++ new2). split_and!; [done|done|by eapply only_marks_trans|done|done| |].
    + apply Forall_app. split; (eapply Forall_impl; [eassumption|]); intros m [? He]; (split; [done|]);
        setoid_rewrite Hsplit; rewrite fmap_app, elem_of_app; auto.
    + intros row. rewrite Hsplit, elem_of_app. intros [Hrow|Hrow]; [|by apply Hall2].
      destruct (Hall (ob_event row)) as (m & Hm' & ?); [by apply list_elem_of_fmap_2|].
      exists m. split; [|done]. rewrite Hnew2, app_assoc. apply elem_of_app. by left.
Qed.
