(* ===== verification/System.v ===== *)
(** * The running system

    The service, its agents, its build consumer, its Argo CD monitor and the outbox relay as one
    transition system over the database and the broker's stream: any call may
    be made at any time, with any failures, clock and fresh identifiers. *)

From S2P Require Import Prelude Json AppErrors Tx Events Domain Pagination Authz Store.
From S2P Require Import DeploymentService Argo StoreFacts Spec ServiceFacts ArgoFacts.
From S2P Require Import AgentApi AgentFacts BuildConsumer Relay RelayFacts Api Guarantees.
Open Scope Z_scope.
Open Scope tx_scope.

(** ** Calls do not publish *)
Definition mute {A} (m : DBM A) : Prop := ∀ s, outside (m s).2 = outside s.

Lemma mute_ret {A} (a : A) : mute (ret a).
Proof. by intros s. Qed.
Lemma mute_fail {A} e : mute (@fail DB Stream A e).
Proof. by intros s. Qed.
Lemma mute_uuid : mute uuid_NewString.
Proof. by intros s. Qed.
Lemma mute_now : mute now_.
Proof. by intros s. Qed.
Lemma mute_bind {A B} (m : DBM A) (k : A → DBM B) :
  mute m → (∀ a, mute (k a)) → mute (bind m k).
Proof.
  intros Hm Hk s. unfold bind. specialize (Hm s).
  destruct (m s) as [[a|e] s1]; simpl in *; [|done]. by rewrite Hk.
Qed.
Lemma mute_try {A} (m : DBM A) : mute m → mute (try m).
Proof. intros Hm s. unfold try. specialize (Hm s). by destruct (m s). Qed.
Lemma mute_on_err {A} (m : DBM A) f : mute m → mute (on_err m f).
Proof. intros Hm s. unfold on_err. specialize (Hm s). by destruct (m s). Qed.
Lemma mute_stmt {A} (f : string → Z → DB → string + A * DB) : mute (stmt f).
Proof.
  intros s. unfold stmt. destruct (aborted s); [done|].
  unfold pop_fault. destruct (faults s) as [|[g|] fs]; simpl; [|done|];
    by destruct (f _ _ _) as [?|[??]].
Qed.
Lemma mute_WithTenant {A} o (fn : DBM A) : mute fn → mute (WithTenant o fn).
Proof.
  intros Hfn s. unfold WithTenant. destruct (String.eqb o ""); [done|].
  destruct (TxWithOptions false o fn s) as [r s'] eqn:H. simpl.
  apply (Tx_invariant o fn (λ _ w, w = outside s)) in H; [done| |done].
  intros s1 r1 s2 <- Hf. specialize (Hfn s1). rewrite Hf in Hfn. by split.
Qed.
Create HintDb mute.
#[export] Hint Resolve mute_ret mute_fail mute_uuid mute_now mute_stmt : mute.

Ltac solve_mute :=
  repeat first
    [ progress intros
    | solve [auto 1 with mute]
    | apply mute_bind | apply mute_try | apply mute_on_err | apply mute_WithTenant
    | case_match
    | progress unfold QueryOne, QueryAll, Exec, require_rows, List_, lookup_member,
        AuthorizeOrgRead, authorize_deploy, AuthorizeOrgMember, GetOrgMember, OrgMemberRepo,
        OrgMemberRepo_GetOrgMember, check, lift, unmarshal_object, require_org, parseBody,
        respond, PostgresOutbox_Enqueue, enqueue, events_New
    | progress unfold applicationRepo_Create, applicationRepo_GetByID, applicationRepo_List,
        applicationRepo_Update, applicationRepo_Delete, deploymentRepo_Create,
        deploymentRepo_GetByID, deploymentRepo_List, deploymentRepo_ListByCluster,
        deploymentRepo_ListByOrg, deploymentRepo_ListAllActive, deploymentRepo_Update,
        deploymentRepo_UpdateStatus, deploymentRepo_SoftDelete, releaseRepo_Create,
        releaseRepo_GetByID, releaseRepo_GetLatest, releaseRepo_GetByRevision,
        releaseRepo_GetPreviousSuccessful, releaseRepo_List, releaseRepo_MarkStarted,
        releaseRepo_MarkFinished, processedEventRepo_MarkProcessed, rolloutStatusRepo_Get,
        rolloutStatusRepo_Upsert, mark_release, argoAppRepo_Upsert, argoAppRepo_Get,
        argoAppRepo_UpdateObserved, getBinding, remote, seedRollout, write_phase, argo_emit ].

Lemma mute_validateAgentOwnership a d r : mute (validateAgentOwnership a d r).
Proof. unfold validateAgentOwnership. solve_mute. Qed.
Lemma mute_emitEvent h a ty d p : mute (emitEvent h a ty d p).
Proof. unfold emitEvent. solve_mute. Qed.
Lemma mute_triggerAutoRollback h a d r req : mute (triggerAutoRollback h a d r req).
Proof. unfold triggerAutoRollback. solve_mute; apply mute_emitEvent. Qed.
#[export] Hint Resolve mute_validateAgentOwnership mute_emitEvent mute_triggerAutoRollback : mute.

Lemma mute_serve_agent h a r : mute (serve_agent h a r).
Proof.
  destruct r; simpl.
  - unfold AgentHandler_GetDesiredState, desiredStateRepo_GetDesiredState. solve_mute.
  - unfold AgentHandler_UpdateDeploymentStatus, emitStatusEvent. solve_mute.
  - unfold AgentHandler_UpdateDeploymentProgress, applyTransition, persistRollout, rolloutGet.
    solve_mute.
Qed.

Lemma mute_roll_out_all e repo image l : mute (roll_out_all e repo image l).
Proof. induction l; simpl; unfold roll_out; solve_mute; done. Qed.
#[export] Hint Resolve mute_roll_out_all : mute.
Lemma mute_process e : mute (BuildConsumer_process e).
Proof. unfold BuildConsumer_process. solve_mute. Qed.
#[export] Hint Resolve mute_process : mute.
Lemma mute_handle e : mute (BuildConsumer_handle e).
Proof. unfold BuildConsumer_handle. solve_mute. Qed.

Section System.
Context `{CursorJSON}.

Lemma mute_Register client o user d src :
  mute (ArgoService_RegisterApplication client o user d src).
Proof. unfold ArgoService_RegisterApplication. solve_mute. Qed.
Lemma mute_mounted argo k : (∀ client, mute (k client)) → mute (mounted argo k).
Proof. intros Hk. unfold mounted. destruct argo; [done|apply mute_fail]. Qed.
Lemma mute_monitor_app app : mute (monitor_app app).
Proof.
  unfold monitor_app, monitor_reconcile, persistRolloutPhase, emitTransitions, when,
    emit_operation, monitor_emit. solve_mute.
Qed.

Lemma mute_serve_user argo user r : mute (serve_user argo user r).
Proof.
  destruct r; simpl; try apply mute_mounted; intros;
    unfold Handler_CreateApplication, Handler_ListApplications, Handler_GetApplication,
      Handler_UpdateApplication, Handler_DeleteApplication, Handler_ListDeployments,
      Handler_ListOrgDeployments, Handler_CreateDeployment, Handler_GetDeployment,
      Handler_UpdateDeployment, Handler_DeleteDeployment, Handler_Rollback,
      Handler_ListReleases, Handler_GetRelease, Handler_UpdateDeploymentStatus,
      Handler_ListDeploymentsByCluster, Service_CreateApplication, Service_ListApplications,
      Service_GetApplication, Service_UpdateApplication, Service_DeleteApplication,
      Service_ListDeployments, Service_ListOrgDeployments, Service_CreateDeployment,
      Service_GetDeployment, Service_UpdateDeployment, Service_DeleteDeployment,
      Service_Rollback, Service_ListReleases, Service_GetRelease,
      Service_MarkDeploymentStarted, Service_MarkDeploymentSucceeded,
      Service_MarkDeploymentFailed, Service_ListDeploymentsByCluster, create_deployment,
      ArgoHandler_RegisterApplication, ArgoHandler_GetApplication, ArgoHandler_Sync,
      ArgoHandler_Rollback, ArgoService_Sync, ArgoService_Rollback, ArgoService_GetBinding;
    try solve [solve_mute; auto using mute_Register].
  destruct argo as [client|]; simpl; solve_mute; apply mute_Register.
Qed.

Lemma mute_perform c : mute (perform c).
Proof.
  destruct c; simpl; [apply mute_bind..|apply mute_handle|apply mute_monitor_app];
    auto using mute_serve_user, mute_serve_agent, mute_ret.
Qed.

(** ** Reachable states *)
Inductive step : DB * Stream → DB * Stream → Prop :=
| step_call c s r s' :
    proper_uuids s → perform c s = (r, s') →
    step (store s, outside s) (store s', outside s')
| step_relay locked batch s r s' :
    drain locked batch s = (r, s') →
    step (store s, outside s) (store s', outside s').

(** No tenant data yet: organizations, projects, clusters and members are
    other services' tables. *)
Definition initial (db : DB) : Prop :=
  t_apps db = ∅ ∧ t_deps db = ∅ ∧ t_rels db = ∅ ∧ t_rollouts db = ∅ ∧ t_argo db = ∅ ∧
  t_outbox db = [].

Definition reachable (db : DB) (w : Stream) : Prop :=
  ∃ db0, initial db0 ∧ rtc step (db0, []) (db, w).

(** What a call guarantees; in no organization it changes nothing. *)
Lemma call_guaranteed c s r s' :
  proper_uuids s → perform c s = (r, s') → wf (store s) →
  store s' = store s ∨ call_org c ≠ "" ∧ guaranteed (call_org c) (store s) (store s').
Proof.
  intros Hu Hp W. destruct (perform_acts c s r s' Hu Hp W) as [?|[Ho Hs]];
    [by left|right]. split; [done|]. by eapply steps_guaranteed.
Qed.

(** New rows are unpublished, so the relay's invariant is not affected. *)
Lemma relay_ok_logged o db db' w : wf db' → logged o db db' → relay_ok db w → relay_ok db' w.
Proof.
  intros W (rows & Hrows & Hun) [H1 H2 H3 H4]. split.
  - apply W.
  - intros row. rewrite Hrows, elem_of_app. intros [Hr|Hr] Hp; [by apply H2|].
    rewrite Forall_forall in Hun. by destruct (Hun _ Hr).
  - done.
  - intros m Hm%H4. rewrite Hrows, fmap_app. apply elem_of_app. by left.
Qed.

Lemma wf_only_marks db db' : wf db → only_marks db db' → wf db'.
Proof.
  intros W [Hdb Hkey]. apply row_key_ids in Hkey as [Hid Hev]. rewrite Hdb.
  eapply wf_of; simpl; try done; [apply W|]. destruct (wf_outbox _ W) as (H1 & H2 & H3).
  unfold outbox_ok. rewrite Hid. split_and!; [done| |].
  - rewrite (list_fmap_compose ob_event EventID) in H2 |- *. by rewrite <- Hev in H2.
  - apply (Forall_fmap ob_event (λ e, Validate e = None)) in H3. rewrite <- Hev in H3.
    by apply (Forall_fmap ob_event (λ e, Validate e = None)) in H3.
Qed.

Lemma step_invariant x y :
  step x y → wf x.1 → relay_ok x.1 x.2 → wf y.1 ∧ relay_ok y.1 y.2.
Proof.
  intros [c s r s' Hu Hp|locked batch s r s' Hd] W Hr; simpl in *.
  - pose proof (mute_perform c s) as Hm. rewrite Hp in Hm. simpl in Hm. rewrite Hm.
    destruct (call_guaranteed _ _ _ _ Hu Hp W) as [->|(_ & W' & _ & _ & Hlog)]; [done|].
    split; [done|]. by eapply relay_ok_logged.
  - apply drain_inv in Hd as (? & ? & _); [|done]. split; [by eapply wf_only_marks|done].
Qed.

Lemma initial_wf db : initial db → wf db ∧ relay_ok db [].
Proof.
  intros (Ha & Hd & Hr & Hs & Hg & Ho). split.
  - constructor; [constructor|..]; try rewrite Hg; intros *;
      rewrite ?Ha, ?Hd, ?Hr, ?Hs, ?lookup_empty; try done.
    rewrite Ho. split_and!; constructor.
  - split; rewrite ?Ho; simpl; try apply NoDup_nil_2.
    + by intros ? ?%not_elem_of_nil.
    + by intros i j m1 m2.
    + by intros ? ?%not_elem_of_nil.
Qed.

Lemma steps_invariant x y :
  rtc step x y → wf x.1 → relay_ok x.1 x.2 → wf y.1 ∧ relay_ok y.1 y.2.
Proof.
  induction 1 as [x|x y z Hxy _ IH]; [done|]. intros W R.
  destruct (step_invariant x y Hxy W R). by apply IH.
Qed.

Lemma reachable_invariant db w : reachable db w → wf db ∧ relay_ok db w.
Proof.
  intros (db0 & H0 & Hs). apply initial_wf in H0 as [W R].
  by apply (steps_invariant _ _ Hs).
Qed.
End System.
