(* ===== verification/History.v ===== *)
(** * What never goes back

    The monotone part of the data: along any run of the system deployments stay
    and their versions only grow, releases stay as they were published, rollback
    markers and processed-event marks stay, and events are only appended. *)

From S2P Require Import Prelude Json AppErrors Tx Events Domain Pagination Authz Store.
From S2P Require Import DeploymentService StoreFacts Spec ServiceFacts AgentApi AgentFacts.
From S2P Require Import BuildConsumer Relay RelayFacts Api Guarantees System.
Open Scope Z_scope.

(** The same deployment at the same version or a later one; a row that differs
    has a later version. *)
Definition later_version (d d' : Deployment) : Prop :=
  d_org d' = d_org d ∧ d_app d' = d_app d ∧ d_cluster d' = d_cluster d ∧
  d_created d' = d_created d ∧ d_created_by d' = d_created_by d ∧
  (d' = d ∨ d_version d < d_version d').

Record history (db db' : DB) : Prop := {
  hi_deps k d : t_deps db !! k = Some d →
    ∃ d', t_deps db' !! k = Some d' ∧ later_version d d';
  hi_rels : released db db';
  hi_rollouts k rs : t_rollouts db !! k = Some rs →
    ∃ rs', t_rollouts db' !! k = Some rs' ∧ (rs_is_rollback rs = true → rs_is_rollback rs' = true);
  hi_processed : t_processed db ⊆ t_processed db';
  hi_events : ob_event <$> t_outbox db `prefix_of` ob_event <$> t_outbox db' }.

#[export] Instance later_version_preorder : PreOrder later_version.
Proof.
  split; [by intros d; split_and!; [..|left]|].
  intros d1 d2 d3 (?&?&?&?&?&Hv1) (?&?&?&?&?&Hv2). split_and!; [congruence..|].
  destruct Hv1 as [->|], Hv2 as [->|]; [by left|by right|by right|right; lia].
Qed.

#[export] Instance history_preorder : PreOrder history.
Proof.
  split.
  - intros db. split; try done; [|by intros k rs ?; exists rs].
    intros k d ?. by exists d.
  - intros d1 d2 d3 [D1 R1 S1 P1 E1] [D2 R2 S2 P2 E2]. split.
    + intros k d (x & Hx & ?)%D1. destruct (D2 k x Hx) as (y & ? & ?). exists y.
      split; [done|by etrans].
    + by etrans.
    + intros k rs (x & Hx & ?)%S1. destruct (S2 k x Hx) as (y & ? & ?). exists y. auto.
    + by etrans.
    + by etrans.
Qed.

(** Most steps touch one table. *)
Lemma history_deps db m :
  (∀ k d, t_deps db !! k = Some d → ∃ d', m !! k = Some d' ∧ later_version d d') →
  history db (set_deps m db).
Proof. intros Hm. split; try done; [by intros k r ?; exists r|by intros k rs ?; exists rs]. Qed.

Lemma history_rels db m : released db (set_rels m db) → history db (set_rels m db).
Proof. intros Hm. split; try done; [by intros k d ?; exists d|by intros k rs ?; exists rs]. Qed.

Lemma history_put_dep db k d d' :
  keyed db → t_deps db !! k = Some d → d_id d' = d_id d → later_version d d' →
  history db (put_dep d' db).
Proof.
  intros Hk Hd Hid Hv. apply history_deps. intros k' x Hx.
  rewrite Hid, (keyed_deps _ Hk _ _ Hd). destruct (decide (k' = k)) as [->|].
  - rewrite lookup_insert_eq. simplify_eq. by exists d'.
  - rewrite lookup_insert_ne by done. by exists x.
Qed.

Lemma history_same db db' :
  t_deps db' = t_deps db → t_rels db' = t_rels db → t_rollouts db' = t_rollouts db →
  t_processed db ⊆ t_processed db' →
  ob_event <$> t_outbox db `prefix_of` ob_event <$> t_outbox db' → history db db'.
Proof.
  intros Ed Er Es Hp He. split; try done.
  - intros k d. rewrite Ed. by exists d.
  - intros k r. rewrite Er. by exists r.
  - intros k rs. rewrite Es. by exists rs.
Qed.

Lemma edit_dep_later e now d : later_version d (edit_dep e now d).
Proof. split_and!; try done. right. simpl. lia. Qed.
Lemma with_status_later st ready now d : later_version d (with_status st ready now d).
Proof. split_and!; try done. right. simpl. lia. Qed.
#[export] Hint Resolve edit_dep_later with_status_later : core.

Lemma delete_deployments_processed p db db' :
  delete_deployments p db = inr db' → t_processed db' = t_processed db.
Proof. unfold delete_deployments. by case_match; intros [= <-]. Qed.

Lemma change_history o now db db' : wf db → change o now db db' → history db db'.
Proof.
  intros W Hc. pose proof (change_released _ _ _ _ W Hc) as Hr. pose proof (wf_keyed _ W) as K.
  destruct Hc.
  - apply history_same; try done. simpl. rewrite fmap_app. by apply prefix_app_r.
  - by apply history_same.
  - by apply history_same.
  - destruct (delete_deployments_wf _ _ _ _ W H H1) as (_ & _ & Ed & Er & Es & Eo & _).
    apply history_same; simpl; rewrite ?Eo; try done.
    by rewrite (delete_deployments_processed _ _ _ H1).
  - split; try done; [|by intros k rs ?; exists rs]. intros k x Hx. simpl. exists x.
    rewrite lookup_insert_ne by congruence. done.
  - etrans; [by eapply (history_put_dep db k d (edit_dep e now d))|].
    apply history_rels. intros k' x Hx. exists x. simpl. destruct H2 as [Hf _].
    by rewrite lookup_insert_ne by (simpl in *; congruence).
  - by apply history_rels.
  - by eapply (history_put_dep db k d (with_status st ready now d)).
  - split; try done; [by intros k x ?; exists x|]. intros k x Hx. simpl.
    destruct (decide (k = (rs_dep rs, rs_rel rs))) as [->|].
    + rewrite lookup_insert_eq. eexists. split; [done|]. simpl. unfold marked in H5.
      by rewrite Hx in H5.
    + rewrite lookup_insert_ne by done. by exists x.
  - by apply history_same.
  - apply history_same; try done. by apply insert_subseteq.
Qed.

Lemma steps_history o now db db' :
  o ≠ "" → wf db → rtc (change o now) db db' → history db db'.
Proof.
  intros Ho W Hs. induction Hs as [db|db db1 db2 Hc _ IH]; [done|].
  etrans; [by eapply change_history|]. apply IH. by eapply change_wf.
Qed.

Lemma only_marks_history db db' : only_marks db db' → history db db'.
Proof.
  intros [Hdb Hk]. apply row_key_ids in Hk as [_ He]. rewrite Hdb.
  apply history_same; try done. simpl. by rewrite He.
Qed.

Section History.
Context `{CursorJSON}.

Lemma call_history c s r s' :
  proper_uuids s → perform c s = (r, s') → wf (store s) → history (store s) (store s').
Proof.
  intros Hu Hp W. destruct (perform_acts c s r s' Hu Hp W) as [->|[? ?]]; [done|].
  by eapply steps_history.
Qed.

(** The stream only grows, too. *)
Lemma steps_monotone x y :
  rtc step x y → wf x.1 → relay_ok x.1 x.2 →
  history x.1 y.1 ∧ x.2 `prefix_of` y.2.
Proof.
  induction 1 as [x|x y z Hxy _ IH]; [done|]. intros W R.
  destruct (step_invariant x y Hxy W R) as [W' R'].
  destruct (IH W' R') as [H1 H2]. split; [etrans; [|exact H1]|etrans; [|exact H2]];
    destruct Hxy as [c s r s' Hu Hp|locked batch s r s' Hd]; simpl in *.
  - by eapply call_history.
  - by apply drain_inv in Hd as (_ & ?%only_marks_history & _).
  - pose proof (mute_perform c s) as Hm. rewrite Hp in Hm. simpl in Hm. by rewrite Hm.
  - by apply drain_inv in Hd as (_ & _ & ?).
Qed.
End History.
