(* ===== verification/Demo.v ===== *)
(** * A concrete platform

    A small database and a scenario on it (an application, a deployment, an
    agent's reports, a rollback, a relay tick), run by the definitions
    themselves: the witnesses of the properties evaluate them on its states. *)

From S2P Require Import Prelude Json AppErrors Tx Events Domain Pagination Authz Store.
From S2P Require Import DeploymentService Argo StoreFacts Spec ServiceFacts AgentApi AgentFacts.
From S2P Require Export Total.
From S2P Require Import BuildConsumer Relay RelayFacts Api Guarantees System.
Open Scope Z_scope.

(** Two organizations; [ann] owns the first one, [bob] only views it; its
    cluster is connected and has an agent. *)
Definition demo_db : DB :=
  mkDB {["acme"%string; "globex"%string]} {["proj"%string]}
    {["east"%string := mkCluster "acme" (Some "agent-1"%string) "connected";
      "west"%string := mkCluster "globex" (Some "agent-2"%string) "connected"]}
    {[("acme", "ann")%string := mkMember "acme" "ann" OrgOwner "active";
      ("acme", "bob")%string := mkMember "acme" "bob" "viewer" "active"]}
    ∅ ∅ ∅ ∅ ∅ ∅ [].

Definition demo_session (db : DB) (fs : list (option goerr)) (next : nat) (now : Z)
    : Sess DB Stream :=
  mkSess db "" false fs demo_uuid next now [].

Definition demo_app_req : CreateApplicationRequest := mkCreateApp "Shop" "shop" None "".
Definition demo_dep_req : CreateDeploymentRequest :=
  mkCreateDep "id0" "east" "reg/shop:1" 2 None None None None (Some 8080)
    (Some [mkEnv "MODE" "prod"]) None.
Definition demo_update_req (image : string) : UpdateDeploymentRequest :=
  mkUpdateDep (Some image) None None None None None None None.
Definition demo_handler : AgentHandler := mkHandler true true true.
Definition demo_agent : AgentIdentity := mkAgent "east" "acme" "agent-1".
Definition demo_progress (phase : string) : UpdateProgressRequest :=
  mkProgress phase 2 "reg/shop:2" 0 false 2 0 1 0 2 1 [] "image pull failed".

(** An Argo CD server that accepts everything, and a source for it. *)
Definition demo_argo : ArgoClient :=
  mkArgoClient (λ _ _, None) (λ _ _ _, None) (λ _ _ _, None)
    (λ _, inl argocd.ErrNotFound) (λ _, inr []).
Definition demo_source : GitOpsSource :=
  mkGitOps "https://git/shop" "" "" "" "" "" "" None None (Some false).
Definition demo_gitops_req : CreateDeploymentRequest :=
  mkCreateDep "id0" "east" "reg/shop:1" 2 None None None None (Some 8080) None (Some demo_source).

(** The states of the scenario: [ann] creates the application [id0] and the
    deployment [id3] with release [id4] (revision 1), which the agent reports
    succeeded; she then deploys a second image as revision 2. *)
Create HintDb demo.
Definition demo_call_1 : Call := UserCall None "ann" (PostApplication "acme" "proj" (Some demo_app_req)).
Definition demo_call_2 : Call := UserCall None "ann" (PostDeployment "acme" (Some demo_dep_req)).
Definition demo_call_3 : Call :=
  AgentCall demo_handler demo_agent
    (PostStatus "id3" "id4" (Some (mkUpdateStatus "succeeded" (Some 2) None))).
Definition demo_call_4 : Call :=
  UserCall None "ann" (PatchDeployment "acme" "id3" (Some (demo_update_req "reg/shop:2"))).

Definition demo_0 := demo_session demo_db [] 0 1000.
Definition demo_1 := (perform demo_call_1 demo_0).2.
Definition demo_2 := (perform demo_call_2 demo_1).2.
Definition demo_3 := (perform demo_call_3 demo_2).2.
Definition demo_4 := (perform demo_call_4 demo_3).2.

Definition demo_5 :=
  (AgentHandler_UpdateDeploymentProgress demo_handler demo_agent "id3" "id9"
     (Some (demo_progress "Failed")) demo_4).2.

(** Instead of the failure, a third image (revision 3, release [id12]). *)
Definition demo_6 :=
  (Service_UpdateDeployment "acme" "ann" "id3" (demo_update_req "reg/shop:3") demo_4).2.

(** ** The states of the scenario are well formed *)
Lemma demo_uuids db fs next now : proper_uuids (demo_session db fs next now).
Proof. intros n. by apply demo_uuids_of. Qed.

Lemma acts_wf {A} o (m : DBM A) s :
  acts o m → uuid_gen s = demo_uuid → wf (store s) → wf (store (m s).2).
Proof.
  intros Hm Hu W. destruct (m s) as [r s'] eqn:E. simpl.
  destruct (Hm s r s' (demo_uuids_of s Hu) E W) as [->|[Ho Hs]]; [done|].
  by apply (steps_guaranteed o (clock s) (store s)) in Hs as (? & _).
Qed.

Lemma demo_wf_0 : wf (store demo_0).
Proof. apply initial_wf. done. Qed.
Lemma perform_wf c s :
  uuid_gen s = demo_uuid → wf (store s) → wf (store (perform c s).2).
Proof.
  intros Hu W. destruct (perform c s) as [r s'] eqn:E. simpl.
  destruct (call_guaranteed c s r s' (demo_uuids_of s Hu) E W)
    as [->|(_ & ? & _)]; done.
Qed.
Lemma demo_wf_1 : wf (store demo_1).
Proof. apply perform_wf; [done|apply demo_wf_0]. Qed.
Lemma demo_wf_2 : wf (store demo_2).
Proof. apply perform_wf; [by vm_compute|apply demo_wf_1]. Qed.
Lemma demo_wf_3 : wf (store demo_3).
Proof. apply perform_wf; [by vm_compute|apply demo_wf_2]. Qed.
Lemma demo_wf_4 : wf (store demo_4).
Proof. apply perform_wf; [by vm_compute|apply demo_wf_3]. Qed.
Lemma demo_wf_5 : wf (store demo_5).
Proof.
  eapply acts_wf; [apply (UpdateDeploymentProgress_acts demo_handler demo_agent)|by vm_compute|
    apply demo_wf_4].
Qed.
Lemma demo_wf_6 : wf (store demo_6).
Proof. eapply acts_wf; [apply UpdateDeployment_acts|by vm_compute|apply demo_wf_4]. Qed.
#[export] Hint Resolve demo_wf_0 demo_wf_1 demo_wf_2 demo_wf_3 demo_wf_4 demo_wf_5 demo_wf_6 : demo.

(** ** The scenario is a run of the system *)
Definition demo_run (k : Sess DB Stream) : DB * Stream := (store k, outside k).

Lemma demo_step c s :
  uuid_gen s = demo_uuid → step (demo_run s) (demo_run (perform c s).2).
Proof.
  intros Hu. destruct (perform c s) as [r s'] eqn:E.
  eapply step_call; [by apply demo_uuids_of|exact E].
Qed.

Lemma demo_steps_01 : step (demo_run demo_0) (demo_run demo_1).
Proof. exact (demo_step demo_call_1 demo_0 eq_refl). Qed.
Lemma demo_steps_12 : step (demo_run demo_1) (demo_run demo_2).
Proof. apply (demo_step demo_call_2 demo_1). by vm_compute. Qed.
Lemma demo_steps_23 : step (demo_run demo_2) (demo_run demo_3).
Proof. apply (demo_step demo_call_3 demo_2). by vm_compute. Qed.
Lemma demo_steps_34 : step (demo_run demo_3) (demo_run demo_4).
Proof. apply (demo_step demo_call_4 demo_3). by vm_compute. Qed.

Lemma demo_reachable_3 : reachable (store demo_3) (outside demo_3).
Proof.
  exists demo_db. split; [done|].
  exact (rtc_l _ _ _ _ demo_steps_01 (rtc_l _ _ _ _ demo_steps_12 (rtc_once _ _ demo_steps_23))).
Qed.
Lemma demo_reachable_4 : reachable (store demo_4) (outside demo_4).
Proof.
  destruct demo_reachable_3 as (db0 & H0 & Hs). exists db0. split; [done|].
  exact (rtc_r _ _ _ Hs demo_steps_34).
Qed.
#[export] Hint Resolve demo_reachable_3 demo_reachable_4 : demo.
#[global] Opaque demo_0 demo_1 demo_2 demo_3 demo_4 demo_5 demo_6.
