(* ===== verification/ServiceCorrectness.v ===== *)
(** * Correctness of the user-facing service

    The properties of [DeploymentService], as theorems about its methods. *)

From S2P Require Import Prelude Json AppErrors Tx Events Domain Pagination Authz Store.
From S2P Require Import DeploymentService Argo StoreFacts Spec ServiceFacts ArgoFacts AgentApi.
From S2P Require Import AgentFacts Total BuildConsumer Relay RelayFacts Api Guarantees System Demo.
Open Scope Z_scope.
Open Scope tx_scope.
#[local] Opaque hashConfig Sha256.Sum256.

(** The successful run a witness evaluates. *)
Definition succeeds {A} (m : DBM A) (s : Sess DB Stream) : Prop := is_ok (m s).1 = true.

Lemma next_revision_free o dep rev db : next_revision o dep rev db → ¬ has_revision dep rev db.
Proof. intros [_ Hn] (k & q & Hq & ? & ?). by apply (Hn k q Hq). Qed.

(** ** Deployments *)

(** C4. [CreateDeployment], whatever statement fails: an error leaves the
    database as it was; a success needs an active owner or admin of the
    organization, a non-blank image, at least one replica and an application of
    the organization, and adds exactly the requested deployment at version 1,
    its release of revision 1 with the hash of its configuration, and one
    deployment.created event in the outbox.  With a GitOps source and Argo CD
    enabled, whatever Argo CD answers, the deployment's binding may be added to
    that, and then the pending rollout of its release; nothing else. *)
Theorem CreateDeployment_correct (argo : option ArgoClient) o user req s r s'
    (H : Service_CreateDeployment (ArgoService_RegisterApplication <$> argo) o user req s
         = (r, s')) :
  match r with
  | Err _ => store s' = store s
  | Ok (d, rel) =>
      o ≠ "" ∧ may_deploy o user (store s) ∧ GoStrings.TrimSpace (cd_image req) ≠ "" ∧
      1 ≤ cd_replicas req ∧
      ∃ id rid row_id eid a,
        t_deps (store s) !! id = None ∧ t_rels (store s) !! rid = None ∧
        t_apps (store s) !! cd_app req = Some a ∧ a_org a = o ∧
        is_Some (t_clusters (store s) !! cd_cluster req) ∧
        d = stamp_dep id (clock s) 0 (requested_deployment o user req) ∧
        rel = release_for o rid user (clock s) 1 d
                (match cd_env req with Some l => encode_env l | None => JNull end) ∧
        let row := event_row row_id eid (clock s) EventDeploymentCreated o
          (deploymentCreatedPayload id (cd_app req) (cd_cluster req) (cd_image req)
             (cd_replicas req) 1 user) (user_on user "deployment" id) in
        Validate (ob_event row) = None ∧ fresh_row row (store s) ∧
        let created := add_event row (put_rel rel (put_dep d (store s))) in
        match cd_gitops req, argo with
        | Some src, Some _ => registered o id src (clock s) created (store s')
        | _, _ => store s' = created
        end
  end.
Proof.
  unfold Service_CreateDeployment, bind in H.
  destruct (create_deployment o user req s) as [[[d rel]|e] s1] eqn:Hc;
    apply create_deployment_ensures in Hc as [He Hr]; [|by injection H as <- <-].
  destruct Hr as (Ho & (Hm & Hi & Hn) & id & rid & row_id & eid & a & ? & ? & ? & ? & ? & Heq & Hv & Hf & Hst).
  injection Heq as -> ->. destruct He as (_ & _ & Hck).
  destruct (cd_gitops req) as [src|], argo as [client|]; simpl in H;
    [unfold try in H; destruct (ArgoService_RegisterApplication client o user _ src s1) as [x s2] eqn:E|..];
    injection H as <- <-; (split_and!; [done..|]); exists id, rid, row_id, eid, a;
    split_and!; try done.
  apply RegisterApplication_inv in E as (_ & E & _). by rewrite Hck, Hst in E.
Qed.

Definition demo_gitops_run :=
  Service_CreateDeployment (ArgoService_RegisterApplication <$> Some demo_argo)
    "acme" "ann" demo_gitops_req demo_1.

Lemma CreateDeployment_correct_witness :
  is_ok demo_gitops_run.1 = true ∧ may_deploy "acme" "ann" (store demo_1) ∧
  (∃ a, t_argo (store demo_gitops_run.2) !! "id3" = Some a ∧ ar_app_name a = "shop-id3") ∧
  ∃ id created,
    registered "acme" id demo_source (clock demo_1) created (store demo_gitops_run.2).
Proof.
  assert (Hs : is_ok demo_gitops_run.1 = true) by by vm_compute. split; [exact Hs|].
  destruct (lookup_computed (t_argo (store demo_gitops_run.2) !! "id3")
    (λ a, String.eqb (ar_app_name a) "shop-id3")) as (b & Hb & Hn%String.eqb_eq); [by vm_compute|].
  unfold demo_gitops_run in *. destruct (Service_CreateDeployment _ _ _ _ demo_1) as [[[d rel]|] s'] eqn:E; [|done].
  apply (CreateDeployment_correct (Some demo_argo) "acme" "ann" demo_gitops_req demo_1) in E.
  destruct E as (_ & Hm & _ & _ & id & rid & row_id & eid & a & E).
  split; [exact Hm|]. split; [by exists b|]. eexists id, _. apply E.
Defined.

(** [UpdateDeployment], whatever statement fails: an error leaves the
    database as it was; a success needs a live deployment of the organization
    and replaces exactly the fields the request carries, bumping the version;
    it adds the release that pins the resulting configuration under the
    revision after the latest one, and one event. The stored status and ready
    replicas are kept. *)
Theorem UpdateDeployment_correct o user depID req s r s'
    (W : wf (store s)) (H : Service_UpdateDeployment o user depID req s = (r, s')) :
  match r with
  | Err _ => store s' = store s
  | Ok (_, rel) =>
      o ≠ "" ∧ may_deploy o user (store s) ∧
      ∃ d e q rid row_id eid,
        t_deps (store s) !! depID = Some d ∧ d_org d = o ∧ d_status d ≠ StatusDeleted ∧
        updated_to req d e ∧ is_latest q (releases_of o depID (store s)) ∧
        rel = release_for o rid user (clock s) (r_revision q + 1) e (default JNull (d_env e)) ∧
        t_rels (store s) !! rid = None ∧ ¬ has_revision depID (r_revision q + 1) (store s) ∧
        let row := event_row row_id eid (clock s) EventDeploymentCreated o
          (deploymentCreatedPayload depID (d_app d) (d_cluster d) (d_image e) (d_replicas e)
             (r_revision q + 1) user) (user_on user "deployment" depID) in
        Validate (ob_event row) = None ∧ fresh_row row (store s) ∧
        store s' = add_event row (put_rel rel (put_dep (edit_dep e (clock s) d) (store s)))
  end.
Proof.
  destruct (UpdateDeployment_ensures o user depID req s r s' H) as [_ Hr].
  destruct r as [[d' rel]|e]; [|done].
  destruct Hr as (Ho & Hm & Hq).
  destruct (Hq W) as (d & e & q & rid & row_id & eid & ? & ? & ? & ? & ? & Hrid & Hn & ? & _ & ?).
  simplify_eq/=. split_and!; [done..|]. exists d, e, q, rid, row_id, eid.
  split_and!; try done; [by apply apply_update_updated| |naive_solver..].
  by eapply next_revision_free.
Qed.

Lemma UpdateDeployment_correct_witness :
  succeeds (Service_UpdateDeployment "acme" "ann" "id3" (demo_update_req "reg/shop:2")) demo_3 ∧
  ∃ d, t_deps (store demo_3) !! "id3" = Some d ∧ d_org d = "acme".
Proof.
  assert (Hs : succeeds (Service_UpdateDeployment "acme" "ann" "id3" (demo_update_req "reg/shop:2"))
                 demo_3) by by vm_compute.
  split; [done|]. unfold succeeds in Hs.
  destruct (Service_UpdateDeployment "acme" "ann" "id3" (demo_update_req "reg/shop:2") demo_3)
    as [[[d' rel]|] s'] eqn:E; [|done].
  apply (UpdateDeployment_correct "acme" "ann" "id3" _ demo_3 _ _ demo_wf_3) in E.
  destruct E as (_ & _ & d & e & q & rid & row_id & eid & ? & ? & _). exists d. split; assumption.
Defined.

(** C5. [Rollback], whatever statement fails: an error leaves the database as
    it was; a success needs a live deployment of the organization and a target
    release of it: the requested revision, or by default the most recent
    succeeded one before the latest. It adds a release with the target's image,
    replicas, configuration and hash under the next revision (history is never
    rewritten), points the deployment at it and adds one rollback event. *)
Theorem Rollback_correct o user depID req s r s'
    (W : wf (store s)) (H : Service_Rollback o user depID req s = (r, s')) :
  match r with
  | Err _ => store s' = store s
  | Ok (_, rel) =>
      o ≠ "" ∧ may_deploy o user (store s) ∧
      ∃ d q t rid row_id eid,
        t_deps (store s) !! depID = Some d ∧ d_org d = o ∧ d_status d ≠ StatusDeleted ∧
        is_latest q (releases_of o depID (store s)) ∧
        rollback_target req o depID q t (store s) ∧
        rel = rollback_release o depID rid (Some user) (clock s) (r_revision q + 1) t ∧
        t_rels (store s) !! rid = None ∧ ¬ has_revision depID (r_revision q + 1) (store s) ∧
        let row := event_row row_id eid (clock s) EventDeploymentRollback o
          (deploymentRollbackPayload depID (r_revision q) (r_revision t) user)
          (user_on user "deployment" depID) in
        Validate (ob_event row) = None ∧ fresh_row row (store s) ∧
        store s' = add_event row (put_rel rel
          (put_dep (pointed_at t (clock s) d) (store s)))
  end.
Proof.
  destruct (Rollback_ensures o user depID req s r s' H) as [_ Hr].
  destruct r as [[d' rel]|e]; [|done].
  destruct Hr as (Ho & Hm & Hq).
  destruct (Hq W) as (d & q & t & rid & row_id & eid & ? & ? & ? & ? & ? & ? & Hn & ? & _ & ?).
  simplify_eq/=. split_and!; [done..|]. exists d, q, t, rid, row_id, eid.
  split_and!; try done; [|naive_solver..].
  by eapply next_revision_free.
Qed.

Lemma Rollback_correct_witness :
  succeeds (Service_Rollback "acme" "ann" "id3" (mkRollback None)) demo_4 ∧
  ∃ t, r_image t = "reg/shop:1" ∧ t ∈ releases_of "acme" "id3" (store demo_4).
Proof.
  assert (Hs : succeeds (Service_Rollback "acme" "ann" "id3" (mkRollback None)) demo_4)
    by by vm_compute.
  split; [done|]. unfold succeeds in Hs.
  destruct (Service_Rollback "acme" "ann" "id3" (mkRollback None) demo_4)
    as [[[d' rel]|] s'] eqn:E; [|done].
  assert (Hi : r_image rel = "reg/shop:1").
  { replace rel with (match (Service_Rollback "acme" "ann" "id3" (mkRollback None) demo_4).1 with
                      | Ok (_, rel) => rel | Err _ => rel end) by (by rewrite E).
    clear. by vm_compute. }
  apply (Rollback_correct "acme" "ann" "id3" _ demo_4 _ _ demo_wf_4) in E.
  destruct E as (_ & _ & d & q & t & rid & row_id & eid & _ & _ & _ & _ & Ht & -> & _).
  exists t. split; [done|]. destruct Ht as [Ht _]. revert Ht.
  unfold earlier_successes. by rewrite list_elem_of_filter; intros [_ ?].
Defined.

(** A status reported through the user API ([Handler_UpdateDeploymentStatus]
    and the [MarkDeployment...] methods), whatever statement fails: an error
    leaves the database as it was; a success gives a release of the
    organization the reported status with its start or finish time, gives the
    named deployment of the organization the matching status and appends the
    matching event. Any other status is refused. *)
Theorem PostReleaseStatus_correct o dep rel user req s r s'
    (H : Handler_UpdateDeploymentStatus o dep rel user (Some req) s = (r, s')) :
  match r with
  | Err _ => store s' = store s
  | Ok _ =>
      o ≠ "" ∧ may_deploy o user (store s) ∧
      (us_status req ∈ ["started"; "deploying"] ∧
         marks o dep rel StatusRunning None EventDeploymentStarted
           (λ r, deploymentStartedPayload dep rel (r_revision r) (r_image r))
           (λ now r, rel_with ReleaseDeploying (Some now) (r_finished r) (r_error r) r)
           (clock s) (store s) (store s') ∨
       us_status req = "succeeded" ∧
         marks o dep rel StatusSucceeded (Some (default 0 (us_ready req))) EventDeploymentSucceeded
           (λ r, deploymentSucceededPayload dep rel (r_revision r) (default 0 (us_ready req)))
           (λ now r, rel_with ReleaseSucceeded (r_started r) (Some now) None r)
           (clock s) (store s) (store s') ∨
       us_status req = "failed" ∧
         marks o dep rel StatusFailed None EventDeploymentFailed
           (λ r, deploymentFailedPayload dep rel (r_revision r) (deref (us_error req)))
           (λ now r, rel_with ReleaseFailed (r_started r) (Some now) (Some (deref (us_error req))) r)
           (clock s) (store s) (store s'))
  end.
Proof.
  unfold Handler_UpdateDeploymentStatus, require_org in H.
  destruct (String.eqb_spec o "") as [|Ho]; [by unfold bind, fail in H; simplify_eq/=|].
  cbv beta iota delta [bind ret parseBody] in H.
  (* The outcome of the method [m] the handler ran, by its specification. *)
  assert (Hrun : ∀ (m : DBM unit) (Q : Z → DB → unit → DB → Prop),
    ensures o (may_deploy o user) Q m →
    match m s with (Ok _, s1) => respond BStatusOk s1 | (Err e, s1) => (Err e, s1) end = (r, s') →
    match r with
    | Err _ => store s' = store s
    | Ok _ => may_deploy o user (store s) ∧ Q (clock s) (store s) tt (store s')
    end).
  { intros m Q Hm Hr. destruct (m s) as [[[]|e] s1] eqn:E; unfold respond, ret in Hr; simplify_eq;
      destruct (Hm s _ _ E) as (_ & Hq); [|done]. by destruct Hq as (_ & Hq). }
  destruct (one_of (us_status req) ["started"; "deploying"]) eqn:E1;
    [|destruct (String.eqb_spec (us_status req) "succeeded");
      [|destruct (String.eqb_spec (us_status req) "failed"); [|by unfold fail in H; simplify_eq/=]]].
  - apply (Hrun _ _ (MarkDeploymentStarted_ensures o user dep rel)) in H.
    destruct r; [|done]. destruct H as [??]. split_and!; [done..|]. left. by rewrite <- one_of_spec.
  - apply (Hrun _ _ (MarkDeploymentSucceeded_ensures o user dep rel _)) in H.
    destruct r; [|done]. destruct H as [??]. auto 8.
  - apply (Hrun _ _ (MarkDeploymentFailed_ensures o user dep rel _)) in H.
    destruct r; [|done]. destruct H as [??]. auto 9.
Qed.

Lemma PostReleaseStatus_correct_witness :
  succeeds (Handler_UpdateDeploymentStatus "acme" "id3" "id4" "ann"
              (Some (mkUpdateStatus "failed" None (Some "boom"%string)))) demo_4 ∧
  may_deploy "acme" "ann" (store demo_4).
Proof.
  assert (Hs : succeeds (Handler_UpdateDeploymentStatus "acme" "id3" "id4" "ann"
    (Some (mkUpdateStatus "failed" None (Some "boom"%string)))) demo_4) by by vm_compute.
  split; [done|]. unfold succeeds in Hs.
  destruct (Handler_UpdateDeploymentStatus _ _ _ _ _ demo_4) as [[resp|] s'] eqn:E; [|done].
  apply (PostReleaseStatus_correct "acme" "id3" "id4" "ann" _ demo_4) in E.
  by destruct E as (_ & ? & _).
Defined.

(** [DeleteDeployment], whatever statement fails: an error leaves the
    database as it was; a success soft-deletes a live deployment of the
    organization (the row and its releases stay, the version grows) and adds
    one event. *)
Theorem DeleteDeployment_correct o user depID s r s'
    (H : Service_DeleteDeployment o user depID s = (r, s')) :
  match r with
  | Err _ => store s' = store s
  | Ok _ =>
      o ≠ "" ∧ may_deploy o user (store s) ∧
      ∃ d row_id eid,
        t_deps (store s) !! depID = Some d ∧ d_org d = o ∧ d_status d ≠ StatusDeleted ∧
        let row := event_row row_id eid (clock s) EventDeploymentDeleted o
          (deploymentDeletedPayload depID (d_app d) user) (user_on user "deployment" depID) in
        Validate (ob_event row) = None ∧ fresh_row row (store s) ∧
        store s' = add_event row (put_dep (with_status StatusDeleted None (clock s) d) (store s))
  end.
Proof. by destruct (DeleteDeployment_ensures o user depID s r s' H). Qed.

Lemma DeleteDeployment_correct_witness :
  succeeds (Service_DeleteDeployment "acme" "ann" "id3") demo_4 ∧
  may_deploy "acme" "ann" (store demo_4).
Proof.
  assert (Hs : succeeds (Service_DeleteDeployment "acme" "ann" "id3") demo_4) by by vm_compute.
  split; [done|]. unfold succeeds in Hs.
  destruct (Service_DeleteDeployment "acme" "ann" "id3" demo_4) as [[u|] s'] eqn:E; [|done].
  apply (DeleteDeployment_correct "acme" "ann" "id3" demo_4) in E. by destruct E as (_ & ? & _).
Defined.

(** ** Applications *)

(** [CreateApplication], whatever statement fails: an error leaves the
    database as it was; a success needs an active owner or admin, a trimmed name
    of 2 to 64 bytes, a well-formed slug (in lower case) and a known runtime,
    and a slug no application of the project has; it adds exactly that
    application and one event. *)
Theorem CreateApplication_correct o proj user req s r s'
    (H : Service_CreateApplication o proj user req s = (r, s')) :
  match r with
  | Err _ => store s' = store s
  | Ok a =>
      o ≠ "" ∧ may_deploy o user (store s) ∧
      validateName (a_name a) = None ∧ slugPattern (a_slug a) = true ∧
      a_runtime a ∈ [RuntimeContainer; RuntimeFunction; RuntimeJob] ∧
      a_org a = o ∧ a_project a = proj ∧ a_name a = GoStrings.TrimSpace (ca_name req) ∧
      a_slug a = GoStrings.ToLower (GoStrings.TrimSpace (ca_slug req)) ∧
      a_desc a = ca_desc req ∧ a_created_by a = Some user ∧ a_version a = 1 ∧
      t_apps (store s) !! a_id a = None ∧ slug_free proj (a_slug a) (store s) ∧
      ∃ row_id eid,
        let row := event_row row_id eid (clock s) EventApplicationCreated o
          (applicationCreatedPayload (a_id a) proj (a_name a) (a_slug a) (a_runtime a) user)
          (user_on user "application" (a_id a)) in
        Validate (ob_event row) = None ∧ fresh_row row (store s) ∧
        store s' = add_event row (put_app a (store s))
  end.
Proof.
  destruct (CreateApplication_ensures o proj user req s r s' H) as [_ Hr].
  destruct r as [a|]; [|done].
  destruct Hr as (? & (? & ? & ? & ?) & row_id & eid & ? & ? & Hn & Hsl & ? & Hrt & ? & ? & ? & ? & ?).
  rewrite Hn, Hsl, Hrt in *. split_and!; try done. by exists row_id, eid.
Qed.

Lemma CreateApplication_correct_witness :
  succeeds (Service_CreateApplication "acme" "proj" "ann" (mkCreateApp " Api " "API-2" None "")) demo_4 ∧
  slugPattern "api-2" = true.
Proof.
  assert (Hs : succeeds (Service_CreateApplication "acme" "proj" "ann"
    (mkCreateApp " Api " "API-2" None "")) demo_4) by by vm_compute.
  split; [done|]. unfold succeeds in Hs.
  destruct (Service_CreateApplication "acme" "proj" "ann" (mkCreateApp " Api " "API-2" None "") demo_4)
    as [[a|] s'] eqn:E; [|done].
  apply (CreateApplication_correct "acme" "proj" "ann" _ demo_4) in E.
  destruct E as (_ & _ & _ & Hsl & _ & _ & _ & _ & Heq & _). rewrite Heq in Hsl. exact Hsl.
Defined.

(** An application that has, or ever had, a deployment cannot be deleted:
    [DeleteApplication] then fails whatever else happens and leaves the database
    as it was (the cascade reaches releases, which a trigger protects). *)
Theorem DeleteApplication_blocked o user appID s r s' k d
    (W : wf (store s)) (Hd : t_deps (store s) !! k = Some d) (Happ : d_app d = appID)
    (H : Service_DeleteApplication o user appID s = (r, s')) :
  is_ok r = false ∧ store s' = store s.
Proof.
  destruct (DeleteApplication_ensures o user appID s r s' H) as [_ Hr].
  destruct r as [u|]; [|done]. destruct Hr as (_ & _ & Hr).
  destruct (Hr W) as (a & row_id & eid & _ & _ & Hno & _). by destruct (Hno _ _ Hd).
Qed.

Lemma DeleteApplication_blocked_witness :
  (∃ d, t_deps (store demo_4) !! "id3" = Some d ∧ d_app d = "id0") ∧
  is_ok (Service_DeleteApplication "acme" "ann" "id0" demo_4).1 = false.
Proof.
  assert (Hd : ∃ d, t_deps (store demo_4) !! "id3" = Some d ∧ d_app d = "id0").
  { destruct (lookup_computed (t_deps (store demo_4) !! "id3") (λ d, String.eqb (d_app d) "id0"))
      as (d & Hd & Ha); [by vm_compute|]. apply String.eqb_eq in Ha. exists d. split; assumption. }
  split; [exact Hd|]. destruct Hd as (d & Hd & Ha).
  destruct (Service_DeleteApplication "acme" "ann" "id0" demo_4) as [r s'] eqn:E.
  apply (DeleteApplication_blocked "acme" "ann" "id0" demo_4 r s' "id3" d demo_wf_4 Hd Ha E).
Defined.

(** ** Access control *)
Lemma may_deploy_read o user db : may_deploy o user db → may_read o user db.
Proof. intros (k & m & ? & ? & ? & ? & _). by exists k, m. Qed.

(** [m] changes the database only for a deployer of [o], and succeeds only for
    an active member of [o]. *)
Definition gated (o user : string) {A} (m : DBM A) : Prop := ∀ s r s',
  m s = (r, s') →
  (store s' = store s ∨ o ≠ "" ∧ may_deploy o user (store s)) ∧
  (is_ok r = true → o ≠ "" ∧ may_read o user (store s)).

Lemma gated_fail {A} o user e : gated o user (@fail DB Stream A e).
Proof. intros s r s' [= <- <-]. by split; [left|]. Qed.

Lemma gated_read {A} o user (k : string → DBM A) :
  (∀ a, readonly (k a)) → gated o user (bind (AuthorizeOrgRead o user) k).
Proof.
  intros Hk s r s' H. unfold bind in H.
  destruct (AuthorizeOrgRead o user s) as [[m|e] s1] eqn:E;
    apply AuthorizeOrgRead_inv in E as (Hst & _ & Hr); simplify_eq/=; [|by split; [left|]].
  destruct (Hr eq_refl) as (? & _ & ?). split; [left|done].
  specialize (Hk m s1). rewrite H in Hk. simpl in Hk. by rewrite Hk.
Qed.

Lemma gated_ensures {A} o user P (Q : Z → DB → A → DB → Prop) (m : DBM A) :
  ensures o P Q m → (∀ db, P db → may_deploy o user db) → gated o user m.
Proof.
  intros Hm HP s r s' H. destruct (Hm s r s' H) as [_ Hr]. destruct r as [a|e].
  - destruct Hr as (? & ?%HP & _). split; [by right|]. eauto using may_deploy_read.
  - by split; [left|].
Qed.

Lemma gated_pre {A B} o user (m : DBM A) (k : A → DBM B) :
  (∀ s r s', m s = (r, s') → s' = s) → (∀ a, gated o user (k a)) → gated o user (bind m k).
Proof.
  intros Hm Hk s r s' H. unfold bind in H. destruct (m s) as [[a|e] s1] eqn:Hs;
    apply Hm in Hs as ->; [by eapply Hk|simplify_eq; by split; [left|]].
Qed.

Lemma gated_post {A B} o user (m : DBM A) (k : A → DBM B) :
  gated o user m → (∀ a, readonly (k a)) → gated o user (bind m k).
Proof.
  intros Hm Hk s r s' H. unfold bind in H.
  destruct (m s) as [[a|e] s1] eqn:Hs; destruct (Hm _ _ _ Hs) as [Hst Hok];
    [|by simplify_eq].
  specialize (Hk a s1). rewrite H in Hk. simpl in Hk. rewrite Hk. auto.
Qed.

(** After the check of a deployer anything may happen. *)
Lemma gated_deploy {A B} o user (m : DBM A) (k : A → DBM B) :
  (∀ s r s', m s = (r, s') → match r with
     | Err _ => store s' = store s | Ok _ => o ≠ "" ∧ may_deploy o user (store s) end) →
  gated o user (bind m k).
Proof.
  intros Hm s r s' H. unfold bind in H. destruct (m s) as [[a|e] s1] eqn:Hs; apply Hm in Hs.
  - destruct Hs as [Ho Hd]. split; [by right|]. eauto using may_deploy_read.
  - injection H as <- <-. by split; [left|].
Qed.
Lemma gated_authorize {B} o user (k : string → DBM B) :
  gated o user (bind (authorize_deploy o user) k).
Proof.
  apply gated_deploy. intros s r s' (Hs & _ & Ha)%authorize_deploy_inv. destruct r; [|done].
  by destruct (Ha eq_refl) as (? & _ & ?).
Qed.
Lemma gated_CreateDeployment argo o user req : gated o user (Service_CreateDeployment argo o user req).
Proof.
  apply gated_deploy. intros s r s' [_ H]%create_deployment_ensures.
  destruct r; [|done]. by destruct H as (? & (? & _) & _).
Qed.

Ltac gate :=
  repeat first
    [ apply gated_CreateDeployment
    | apply gated_authorize
    | apply gated_pre; [intros; first [by eapply require_org_same|by eapply parseBody_same]|intros]
    | apply gated_fail
    | apply gated_read; intros; solve [solve_readonly]
    | apply gated_post; [|intros; solve [solve_readonly]]
    | case_match
    | eapply gated_ensures; [solve [eauto with ensures]|first [by intros ?|by intros ? (? & _)]] ].

Create HintDb ensures.
#[export] Hint Resolve CreateApplication_ensures UpdateApplication_ensures
  DeleteApplication_ensures UpdateDeployment_ensures Rollback_ensures
  DeleteDeployment_ensures MarkDeploymentStarted_ensures MarkDeploymentSucceeded_ensures
  MarkDeploymentFailed_ensures : ensures.

(** C6. Access control of the user API, over every route of routes.go and of
    argocd_handlers.go: a response without error is only given to an active
    member of the organization named in the path, and the database only changes
    for an active member of it whose role is owner or admin. *)
Theorem user_requests_authorized `{HJ : CursorJSON} argo user req s r s'
    (H : serve_user argo user req s = (r, s')) :
  (is_ok r = true → may_read (request_org req) user (store s)) ∧
  (store s' ≠ store s → may_deploy (request_org req) user (store s)).
Proof.
  assert (Hg : gated (request_org req) user (serve_user argo user req)).
  { destruct req; simpl;
      unfold Handler_CreateApplication, Handler_ListApplications, Handler_GetApplication,
        Handler_UpdateApplication, Handler_DeleteApplication, Handler_ListDeployments,
        Handler_ListOrgDeployments, Handler_CreateDeployment, Handler_GetDeployment,
        Handler_UpdateDeployment, Handler_DeleteDeployment, Handler_Rollback,
        Handler_ListReleases, Handler_GetRelease, Handler_UpdateDeploymentStatus,
        Handler_ListDeploymentsByCluster, Service_ListApplications, Service_GetApplication,
        Service_ListDeployments, Service_ListOrgDeployments, Service_GetDeployment,
        Service_ListReleases, Service_GetRelease, Service_ListDeploymentsByCluster,
        applicationRepo_List, applicationRepo_GetByID, deploymentRepo_List,
        deploymentRepo_GetByID, deploymentRepo_ListByOrg, deploymentRepo_ListByCluster,
        releaseRepo_GetLatest, releaseRepo_GetByID, mounted, ArgoHandler_RegisterApplication,
        ArgoHandler_GetApplication, ArgoHandler_Sync, ArgoHandler_Rollback,
        ArgoService_GetBinding; gate. }
  destruct (Hg _ _ _ H) as [Hc Ho]. split; [intros ?; by apply Ho|].
  intros Hne. destruct Hc as [|[_ ?]]; [done|done].
Qed.

Definition demo_bind_run :=
  serve_user (Some demo_argo) "ann" (PostGitOps "acme" "id3" (Some demo_source)) demo_4.

Lemma user_requests_authorized_witness :
  store demo_bind_run.2 ≠ store demo_4 ∧ may_deploy "acme" "ann" (store demo_4) ∧
  is_ok (serve_user None "bob" (GetDeployment "acme" "id3") demo_4).1 = true ∧
  may_read "acme" "bob" (store demo_4).
Proof.
  assert (Hne : store demo_bind_run.2 ≠ store demo_4).
  { intros Heq. assert (Hb : is_Some (t_argo (store demo_bind_run.2) !! "id3")) by by vm_compute; eexists.
    rewrite Heq in Hb. apply (is_Some_None (A := ArgoApplication)).
    replace (None : option ArgoApplication) with (t_argo (store demo_4) !! "id3") by by vm_compute.
    exact Hb. }
  split; [exact Hne|]. unfold demo_bind_run in *.
  destruct (serve_user (Some demo_argo) "ann" _ demo_4) as [r s'] eqn:E.
  split; [exact (proj2 (user_requests_authorized (Some demo_argo) "ann" _ demo_4 r s' E) Hne)|].
  assert (Hs : is_ok (serve_user None "bob" (GetDeployment "acme" "id3") demo_4).1 = true)
    by by vm_compute.
  split; [exact Hs|].
  destruct (serve_user None "bob" (GetDeployment "acme" "id3") demo_4) as [r2 s2] eqn:E2.
  exact (proj1 (user_requests_authorized None "bob" (GetDeployment "acme" "id3") demo_4 r2 s2 E2) Hs).
Defined.

(** ** Valid requests are served

    The operations of [Store] without faults ([Total]), and with them: a
    well-formed request of a deployer always succeeds. *)
(** ** The operations of the service, run without faults *)

(** [user] is an active owner or admin of [o]. *)
Definition deployer (o user : string) (db : DB) : Prop :=
  members_keyed db ∧ ∃ m, t_members db !! (o, user) = Some m ∧ m_status m = "active" ∧
    (m_role m = OrgOwner ∨ m_role m = OrgAdmin).

Lemma total_authorize_deploy o user s (Q : string → Sess DB Stream → Prop) :
  healthy s → o ≠ "" → user ≠ "" → deployer o user (store s) →
  (∀ role, Q role s) → total (authorize_deploy o user) s Q.
Proof.
  intros Hh Ho Hu (Hk & m & Hm & Hst & Hr) HQ.
  eapply total_AuthorizeOrgMember; [done..| |done]. by apply grants_deploy.
Qed.

Lemma total_app_GetByID id s a Q :
  healthy s → org s ≠ "" → t_apps (store s) !! id = Some a → a_org a = org s → Q a s →
  total (applicationRepo_GetByID id) s Q.
Proof.
  intros Hh Ho Ha Hao HQ. eapply total_QueryOne; [done| |exact HQ]. unfold row_at.
  rewrite Ha. simpl. destruct (visible (org s) (a_org a)) eqn:E; [done|].
  assert (visible (org s) (a_org a) = true) by by apply visible_spec. congruence.
Qed.

Lemma total_dep_Create d s Q :
  let id := uuid_gen s (uuid_next s) in
  healthy s → org s ≠ "" → d_id d = "" → d_org d = org s → d_org d ∈ t_orgs (store s) →
  t_deps (store s) !! id = None → is_Some (t_apps (store s) !! d_app d) →
  is_Some (t_clusters (store s) !! d_cluster d) → d_ready d = 0 →
  Q (stamp_dep id (clock s) 0 d)
    (set_store (put_dep (stamp_dep id (clock s) 0 d) (store s))
       (set_uuid_next (Datatypes.S (uuid_next s)) s)) →
  total (deploymentRepo_Create d) s Q.
Proof.
  intros id Hh Ho Hid Hdo Horg Hfr Happ Hcl Hrd HQ. unfold deploymentRepo_Create.
  apply total_bind. rewrite Hid. apply total_create_id; [done|]. apply total_on_err.
  eapply total_stmt; [done| |intros _; exact HQ].
  unfold insert_deployment. simpl. rewrite (visible_true _ _ Ho Hdo). fold id. rewrite Hfr.
  rewrite bool_decide_false by (by intros [? [=]]). simpl.
  rewrite !bool_decide_true by done. simpl. by rewrite Hrd.
Qed.

Lemma total_rel_Create r s Q :
  let id := uuid_gen s (uuid_next s) in
  healthy s → org s ≠ "" → r_id r = "" → r_org r = org s → r_org r ∈ t_orgs (store s) →
  is_Some (r_config r) → t_rels (store s) !! id = None →
  ¬ has_revision (r_dep r) (r_revision r) (store s) → is_Some (t_deps (store s) !! r_dep r) →
  r_started r = None → r_finished r = None → r_error r = None →
  Q (stamp_rel id (clock s) None None None r)
    (set_store (put_rel (stamp_rel id (clock s) None None None r) (store s))
       (set_uuid_next (Datatypes.S (uuid_next s)) s)) →
  total (releaseRepo_Create r) s Q.
Proof.
  intros id Hh Ho Hid Hro Horg [c Hc] Hfr Hrev Hdep Hs1 Hs2 Hs3 HQ. unfold releaseRepo_Create.
  apply total_bind. rewrite Hid. apply total_create_id; [done|]. apply total_on_err.
  eapply total_stmt; [done| |intros _; exact HQ].
  unfold insert_release. simpl. rewrite (visible_true _ _ Ho Hro), Hc. fold id. rewrite Hfr.
  rewrite bool_decide_false by (by intros [? [=]]). simpl.
  destruct (existsb _ _) eqn:Hex.
  { exfalso. apply Hrev. apply existsb_exists in Hex as (q & Hq%list_elem_of_In & Hb).
    apply elem_of_rows_where in Hq as (_ & k & Hk). bool_to_prop. by exists k, q. }
  rewrite !bool_decide_true by done. simpl. rewrite Hs1, Hs2, Hs3. by unfold stamp_rel; rewrite Hc.
Qed.

(** The identifiers still to be drawn are proper, distinct and unused. *)
Record fresh_uuids (s : Sess DB Stream) : Prop := {
  fu_proper : proper_uuids s;
  fu_inj : Inj (=) (=) (uuid_gen s);
  fu_deps n : (uuid_next s ≤ n)%nat → t_deps (store s) !! uuid_gen s n = None;
  fu_rels n : (uuid_next s ≤ n)%nat → t_rels (store s) !! uuid_gen s n = None;
  fu_outbox n row : (uuid_next s ≤ n)%nat → row ∈ t_outbox (store s) →
    ob_id row ≠ uuid_gen s n ∧ EventID (ob_event row) ≠ uuid_gen s n }.

Lemma total_enqueue ty o p user rtype rid (s : Sess DB Stream) Q :
  let row := event_row (uuid_gen s (Datatypes.S (uuid_next s))) (uuid_gen s (uuid_next s))
               (clock s) ty o p (user_on user rtype rid) in
  healthy s → uuid_gen s (uuid_next s) ≠ "" → ty ≠ "" → o ≠ "" → fresh_row row (store s) →
  Q tt (set_store (add_event row (store s))
          (set_uuid_next (Datatypes.S (Datatypes.S (uuid_next s))) s)) →
  total (enqueue ty o p (user_on user rtype rid)) s Q.
Proof.
  intros row Hh Hid Hty Ho Hfr HQ. apply total_New_Enqueue; [done| |exact Hfr|exact HQ].
  unfold Validate. simpl. apply String.eqb_neq in Hid, Hty, Ho. by rewrite Hid, Hty, Ho.
Qed.

(** A valid request to create a deployment. *)
Record creatable (o user : string) (req : CreateDeploymentRequest) (db : DB) : Prop := {
  cr_org : o ≠ "" ∧ o ∈ t_orgs db;
  cr_user : user ≠ "" ∧ deployer o user db;
  cr_image : GoStrings.TrimSpace (cd_image req) ≠ "";
  cr_replicas : 1 ≤ cd_replicas req;
  cr_app : ∃ a, t_apps db !! cd_app req = Some a ∧ a_org a = o;
  cr_cluster : is_Some (t_clusters db !! cd_cluster req) }.

(** The transaction of [CreateDeployment]. *)
Lemma total_create_body o user req s dep :
  healthy s → org s = o → fresh_uuids s → wf (store s) → creatable o user req (store s) →
  dep = requested_deployment o user req →
  total (
    let* _ := on_err (applicationRepo_GetByID (cd_app req))
      (λ e, if IsNotFound e then errAppNotFound else e) in
    let* dep := deploymentRepo_Create dep in
    let config := Some (release_config dep
      (match cd_env req with Some l => encode_env l | None => JNull end)) in
    let* rel := releaseRepo_Create
      (new_release o (d_id dep) 1 (d_image dep) (d_replicas dep) (hashConfig config)
         config (Some user)) in
    enqueue EventDeploymentCreated o
      (deploymentCreatedPayload (d_id dep) (d_app dep) (d_cluster dep) (d_image dep)
         (d_replicas dep) 1 user)
      (user_on user "deployment" (d_id dep)) ;;
    ret (dep, rel)) s (λ _ _, True).
Proof.
  intros Hh Horg [Hp Hinj Hfd Hfr Hfo] W [[Ho Hin] _ _ _ (a & Ha & Hao) Hcl] ->.
  apply total_bind, total_on_err. eapply total_app_GetByID; [done|congruence|done|congruence|].
  apply total_bind, total_dep_Create; simpl; try done; [congruence|by apply Hfd|].
  apply total_bind, total_rel_Create; simpl; try done; [congruence|by apply Hfr; lia|..].
  { intros (k & q & Hq & Hd & _). destruct (wf_dep _ W k q Hq) as (d & Hd' & _).
    rewrite Hd, (Hfd (uuid_next s)) in Hd'; [done|lia]. }
  { by rewrite lookup_insert_eq. }
  apply total_bind, total_enqueue; simpl; try done.
  { intros row Hrow. by split; apply Hfo; [lia|exact Hrow|lia|exact Hrow]. }
  by apply total_ret.
Qed.

(** Valid requests are served: without faults, with fresh identifiers and
    for an active owner or admin, [CreateDeployment] always succeeds when the
    request names an application of the organization, an existing cluster, a
    non-blank image and a positive number of replicas, whatever the registrar
    of GitOps sources does. *)
Theorem CreateDeployment_succeeds (argo : option ArgoRegistrar) o user req s
    (Hh : healthy s) (Hf : fresh_uuids s) (W : wf (store s))
    (Hc : creatable o user req (store s)) :
  is_ok (Service_CreateDeployment argo o user req s).1 = true.
Proof.
  destruct Hc as [[Ho Hin] [Hu Hd] Hi Hn Ha Hcl].
  assert (Hc : creatable o user req (store s)) by done.
  assert (Ht : total (create_deployment o user req) s (λ _ _, True)).
  { unfold create_deployment. apply total_bind, total_authorize_deploy; [done..|].
    intros role. apply String.eqb_neq in Hi. rewrite Hi.
    destruct (Z.ltb_spec (cd_replicas req) 1); [lia|].
    apply total_WithTenant; [done..|].
    eapply total_weaken; [by apply (total_create_body o user req); destruct Hh, Hf|]. done. }
  destruct Ht as (dr & s1 & Hrun & _). unfold Service_CreateDeployment, bind. rewrite Hrun.
  destruct (cd_gitops req) as [src|], argo as [reg|]; simpl; try done.
  unfold try. by destruct (reg o user (d_id dr.1) src s1).
Qed.

(** ** The scenario of [Demo] draws fresh identifiers *)
Definition all_drawn (next : nat) (db : DB) : bool :=
  forallb (drawn next) (map_to_list (t_deps db)).*1 &&
  forallb (drawn next) (map_to_list (t_rels db)).*1 &&
  forallb (λ row, drawn next (ob_id row) && drawn next (EventID (ob_event row))) (t_outbox db).

Lemma demo_fresh s :
  uuid_gen s = demo_uuid → all_drawn (uuid_next s) (store s) = true → fresh_uuids s.
Proof.
  intros Hu [[Hd Hr]%andb_true_iff Ho]%andb_true_iff. split; rewrite ?Hu.
  - by apply demo_uuids_of.
  - apply demo_uuid_inj.
  - intros n. by apply drawn_keys.
  - intros n. by apply drawn_keys.
  - intros n row Hn Hrow. rewrite forallb_forall in Ho.
    apply list_elem_of_In, Ho, andb_true_iff in Hrow as [H1 H2].
    split; by eapply drawn_spec.
Qed.

Lemma CreateDeployment_succeeds_witness :
  creatable "acme" "ann" demo_dep_req (store demo_1) ∧
  is_ok (Service_CreateDeployment None "acme" "ann" demo_dep_req demo_1).1 = true.
Proof.
  assert (Hc : creatable "acme" "ann" demo_dep_req (store demo_1)).
  { split; [|split; [done|]|done..| |].
    - split; [done|]. by apply (bool_decide_eq_true_1 _); vm_compute.
    - split.
      + assert (Hk : t_members (store demo_1) = t_members demo_db)
          by vm_cast_no_check (eq_refl (t_members demo_db)).
        intros k m. change (org_members (store demo_1)) with (t_members (store demo_1)). rewrite Hk. intros Hm. unfold demo_db in Hm. simpl in Hm.
        apply lookup_insert_Some in Hm as [[<- <-]|[_ Hm]]; [done|].
        apply lookup_singleton_Some in Hm as [<- <-]. done.
      + exists (mkMember "acme" "ann" OrgOwner "active"). split; [by vm_compute|]. auto.
    - destruct (lookup_computed (t_apps (store demo_1) !! "id0") (λ a, String.eqb (a_org a) "acme"))
        as (a & Ha & Hb%String.eqb_eq); [by vm_compute|]. exists a. split; assumption.
    - destruct (lookup_computed (t_clusters (store demo_1) !! "east") (λ _, true))
        as (c & Hcl & _); [by vm_compute|]. exists c. exact Hcl. }
  split; [exact Hc|].
  apply (CreateDeployment_succeeds None "acme" "ann" demo_dep_req demo_1);
    [by vm_compute| |exact demo_wf_1|exact Hc].
  apply demo_fresh; by vm_compute.
Defined.
