(* ===== verification/SystemCorrectness.v ===== *)
(** * Correctness of the system as a whole

    The properties of [System]: isolation of tenants, integrity of every
    reachable state, history, concurrent updates and the outbox relay. *)

From S2P Require Import Prelude Json AppErrors Tx Events Domain Pagination Authz Store.
From S2P Require Import DeploymentService Argo StoreFacts Spec ServiceFacts AgentApi AgentFacts.
From S2P Require Import BuildConsumer Relay RelayFacts Api Guarantees System History.
From S2P Require Import Demo.
Open Scope Z_scope.
Open Scope tx_scope.
#[local] Opaque hashConfig Sha256.Sum256.

Section System.
Context `{CursorJSON}.

(** C1. Tenant isolation and integrity of every call: whatever a user, an
    agent, a build event or the Argo CD monitor asks for, whatever Argo CD
    answers and whichever statements fail, a call either leaves the database as
    it was or acts inside the organization it names: the rows of every other
    organization are the same, published releases are the same, the outbox only
    gains unpublished events of that organization, and the database is well
    formed again. *)
Theorem call_isolated c s r s'
    (Hu : proper_uuids s) (W : wf (store s)) (Hp : perform c s = (r, s')) :
  store s' = store s ∨
  call_org c ≠ "" ∧ wf (store s') ∧ confined (call_org c) (store s) (store s') ∧
  released (store s) (store s') ∧ logged (call_org c) (store s) (store s').
Proof.
  destruct (call_guaranteed c s r s' Hu Hp W) as [|(? & ? & ? & ? & ?)]; auto 6.
Qed.

(** C2. Every reachable state is sound, whatever calls were made, in any order,
    interleaved with the relay and with any failures: the invariant [wf] (the
    revisions of a deployment are exactly 1..n, references and Argo CD bindings
    stay inside one organization, slugs and event ids are unique, events are
    valid) holds of the database; the broker accepted every event marked
    published and none the outbox does not have, and messages of one event are
    at least the duplicate window of two minutes apart. *)
Theorem reachable_states_sound db w (Hr : reachable db w) : wf db ∧ relay_ok db w.
Proof. by apply reachable_invariant. Qed.

(** C3. History is never rewritten: from any reachable state, along any further
    run, deployments stay and a changed row has a greater version, releases
    keep their deployment, revision, image, configuration and hash, rollback
    and processed-event marks stay, recorded events keep their order, and the
    messages the broker accepted keep theirs: a message it retains at some time
    is only lost to its age. *)
Theorem history_never_rewritten db w db' w'
    (Hr : reachable db w) (Hs : rtc step (db, w) (db', w')) :
  history db db' ∧ w `prefix_of` w' ∧ ∀ now, retained now w `prefix_of` retained now w'.
Proof.
  apply reachable_invariant in Hr as [W R].
  destruct (steps_monotone _ _ Hs W R) as [Hh [new Hw]]. simpl in Hh, Hw. rewrite Hw.
  split_and!; [done|by exists new|]. intros now. exists (retained now new).
  unfold retained. by rewrite filter_app.
Qed.

(** No update is lost: if a writer read the row [d0] of a deployment and
    then, after any number of other calls, its [Update] at the version it read
    succeeds, the row was still [d0] at that moment: nobody's change is
    overwritten. *)
Theorem no_lost_update db w s d0 d d' s'
    (Hr : reachable db w) (Hd : t_deps db !! d_id d0 = Some d0)
    (Hs : rtc (step) (db, w) (store s, outside s))
    (Hid : d_id d = d_id d0) (Hv : d_version d = d_version d0)
    (Hu : deploymentRepo_Update d s = (Ok d', s')) :
  t_deps (store s) !! d_id d0 = Some d0 ∧
  store s' = put_dep (edit_dep d (clock s) d0) (store s).
Proof.
  apply reachable_invariant in Hr as [W R].
  destruct (steps_monotone _ _ Hs W R) as [Hh _]. simpl in Hh.
  destruct (hi_deps _ _ Hh _ _ Hd) as (d1 & Hd1 & _ & _ & _ & _ & _ & Hcase).
  apply dep_Update_Ok in Hu as (x & Hx & _ & _ & Hvx & _ & Hst & _). rewrite Hid, Hd1 in Hx.
  destruct Hcase as [->|Hlt]; simplify_eq; [done|]. lia.
Qed.

(** The relay never loses an event, whatever fails in a batch (the broker, a
    statement, the commit) and whichever rows other relays hold: the broker
    accepted every row marked published and only events of the outbox, an event
    again at the earliest after the duplicate window, and a batch changes
    nothing of the database but publication marks. *)
Theorem drain_safe locked batch s r s'
    (Hok : relay_ok (store s) (outside s)) (Hd : drain locked batch s = (r, s')) :
  relay_ok (store s') (outside s') ∧ only_marks (store s) (store s') ∧
  outside s `prefix_of` outside s'.
Proof. by eapply drain_inv. Qed.

(** C15. Every event is delivered at least once: from any reachable state one
    tick of the relay without faults ends (any fuel above the backlog is
    enough) with every row of the outbox marked published.  It sends only
    events that were pending; afterwards the broker has accepted every event of
    the outbox at some time, and retains a message less than two minutes old of
    each event that was pending, either a new one or the earlier one because of
    which it dropped the new one as a duplicate. *)
Theorem every_event_delivered s batch fuel
    (Hr : reachable (store s) (outside s)) (Hq : quiet s) (Hb : (0 < batch)%nat)
    (Hf : (length (unpublished (store s)) < fuel)%nat) :
  ∃ s' new, tick fuel ∅ batch s = Some s' ∧ only_marks (store s) (store s') ∧
    (∀ row, row ∈ t_outbox (store s') → ob_published row ≠ None) ∧
    outside s' = outside s ++ new ∧
    (∀ m, m ∈ new → msg_at m = clock s ∧ msg_event m ∈ ob_event <$> unpublished (store s)) ∧
    (∀ e, e ∈ ob_event <$> t_outbox (store s) ↔ e ∈ msg_event <$> outside s') ∧
    (∀ e, e ∈ ob_event <$> unpublished (store s) →
       ∃ m, m ∈ retained (clock s) (outside s') ∧ msg_event m = e ∧
         clock s - msg_at m < Duplicates).
Proof.
  apply reachable_invariant in Hr as [W R].
  destruct (wf_outbox _ W) as (_ & Hnd & Hv).
  destruct (tick_quiet fuel batch s Hb Hq R Hv Hf) as (s' & new & Ht & R' & Hm & Hall & Hw & Hnew & Hrec).
  destruct (row_key_ids _ _ (proj2 Hm)) as [_ Hev].
  assert (Hsame : ∀ m e, m ∈ outside s' → e ∈ ob_event <$> t_outbox (store s) →
            EventID (msg_event m) = EventID e → msg_event m = e).
  { intros m e Hin He Hid. eapply (list_fmap_NoDup_inj (ob_event <$> t_outbox (store s)) EventID);
      [by rewrite <- list_fmap_compose|rewrite <- Hev; by apply R'|done|done]. }
  exists s', new. split_and!; [done..| | |].
  - intros m Hin. rewrite Forall_forall in Hnew. by apply Hnew.
  - intros e. split.
    + intros He. pose proof He as He'. rewrite <- Hev in He'.
      apply list_elem_of_fmap in He' as (row & -> & Hrow).
      pose proof (rk_published _ _ R' row Hrow (Hall row Hrow)) as Hin.
      apply list_elem_of_fmap in Hin as (m & Hid & Hin). apply list_elem_of_fmap. exists m.
      split; [|done]. symmetry. by apply Hsame.
    + intros (m & -> & Hin)%list_elem_of_fmap. rewrite <- Hev. by apply R'.
  - intros e (row & -> & Hrow)%list_elem_of_fmap.
    destruct (Hrec row Hrow) as (m & Hin & [Hid Hage]%recent_spec). exists m. split_and!; [|..].
    + apply list_elem_of_filter. split; [|done]. assert (Duplicates ≤ MaxAge) by by vm_compute. lia.
    + apply Hsame; [done| |done]. apply list_elem_of_fmap_2.
      by apply list_elem_of_filter in Hrow as [_ ?].
    + done.
Qed.
End System.

(** ** Witnesses *)

Lemma call_isolated_witness :
  wf (store demo_1) ∧ confined "acme" (store demo_1) (store (perform demo_call_2 demo_1).2).
Proof.
  split; [exact demo_wf_1|].
  destruct (perform demo_call_2 demo_1) as [r s'] eqn:E. simpl.
  destruct (call_isolated demo_call_2 demo_1 r s'
    ltac:(apply demo_uuids_of; vm_compute; reflexivity) demo_wf_1 E) as [->|(_ & _ & Hc & _)].
  - reflexivity.
  - exact Hc.
Defined.

Lemma reachable_states_sound_witness :
  reachable (store demo_4) (outside demo_4) ∧ wf (store demo_4).
Proof.
  split; [exact demo_reachable_4|].
  exact (proj1 (reachable_states_sound _ _ demo_reachable_4)).
Defined.

Lemma history_never_rewritten_witness :
  reachable (store demo_3) (outside demo_3) ∧
  rtc (step) (demo_run demo_3) (demo_run demo_4) ∧ released (store demo_3) (store demo_4).
Proof.
  split; [exact demo_reachable_3|]. split; [exact (rtc_once _ _ demo_steps_34)|].
  exact (hi_rels _ _ (proj1 (history_never_rewritten _ _ _ _ demo_reachable_3
    (rtc_once _ _ demo_steps_34)))).
Defined.

(** A writer in the organization, and one that read an older version. *)
Definition demo_writer (s : Sess DB Stream) : Sess DB Stream := enter "acme" s.

Lemma demo_writer_steps s :
  rtc (step) (store s, outside s) (store (demo_writer s), outside (demo_writer s)).
Proof. apply rtc_refl. Qed.

Lemma no_lost_update_witness :
  ∃ d0 d', t_deps (store demo_4) !! d_id d0 = Some d0 ∧
    (deploymentRepo_Update (pinned_to "reg/shop:3" d0) (demo_writer demo_4)).1 = Ok d' ∧
    t_deps (store (demo_writer demo_4)) !! d_id d0 = Some d0.
Proof.
  destruct (lookup_computed (t_deps (store demo_4) !! "id3") (λ d,
    String.eqb (d_id d) "id3" &&
    is_ok (deploymentRepo_Update (pinned_to "reg/shop:3" d) (demo_writer demo_4)).1))
    as (d0 & Hd & Hb); [by vm_compute|]. apply andb_true_iff in Hb as [Hid%String.eqb_eq Hok].
  destruct (deploymentRepo_Update (pinned_to "reg/shop:3" d0) (demo_writer demo_4))
    as [[d'|e] s'] eqn:E; [|discriminate Hok].
  rewrite <- Hid in Hd. exists d0, d'. split; [exact Hd|]. split; [rewrite E; reflexivity|].
  exact (proj1 (no_lost_update (store demo_4) (outside demo_4) (demo_writer demo_4) d0
    (pinned_to "reg/shop:3" d0) d' s' demo_reachable_4 Hd (demo_writer_steps demo_4) eq_refl eq_refl E)).
Defined.

Lemma drain_safe_witness :
  relay_ok (store demo_4) (outside demo_4) ∧
  outside demo_4 `prefix_of` outside (drain ∅ 2 demo_4).2.
Proof.
  assert (Hok : relay_ok (store demo_4) (outside demo_4)).
  { apply (reachable_invariant _ _ demo_reachable_4). }
  split; [exact Hok|]. destruct (drain ∅ 2 demo_4) as [r s'] eqn:E.
  exact (proj2 (proj2 (drain_safe ∅ 2 demo_4 r s' Hok E))).
Defined.

Lemma every_event_delivered_witness :
  reachable (store demo_4) (outside demo_4) ∧
  ∃ s', tick 9 ∅ 3 demo_4 = Some s' ∧
    ∀ e, e ∈ ob_event <$> t_outbox (store demo_4) ↔ e ∈ msg_event <$> outside s'.
Proof.
  split; [exact demo_reachable_4|].
  destruct (every_event_delivered demo_4 3 9 demo_reachable_4
    ltac:(vm_compute; reflexivity) ltac:(lia)) as (s' & new & Ht & _ & _ & _ & _ & Hp & _);
    [vm_compute; lia|].
  exists s'. split; assumption.
Defined.
