(* ===== verification/AgentCorrectness.v ===== *)
(** * Correctness of the agent endpoints and of the build consumer *)

From S2P Require Import Prelude Json AppErrors Tx Events Domain Pagination Authz Store.
From S2P Require Import DeploymentService StoreFacts Spec ServiceFacts AgentApi AgentFacts.
From S2P Require Import BuildConsumer Relay RelayFacts Api Guarantees System History.
From S2P Require Import Demo.
Open Scope Z_scope.
Open Scope tx_scope.
#[local] Opaque hashConfig Sha256.Sum256.

(** ** Agent credentials *)
Lemma ValidateCluster_inv b c a s r s' :
  ValidateCluster b c a s = (r, s') →
  store s' = store s ∧ ∀ o, r = Ok o → ∃ row, row ∈ cluster_row b c "" (store s) ∧
    cl_status row = "connected" ∧ cl_agent row = Some a ∧ cl_org row = o.
Proof.
  unfold ValidateCluster, bind, fail, ret. intros H. destruct (on_err _ _ s) as [[rows|e] s1] eqn:E;
    apply autocommit_query in E as [Hst Hrows]; [|by simplify_eq].
  rewrite <- (Hrows rows eq_refl). destruct rows as [|row rows]; [by simplify_eq/=|].
  destruct (String.eqb_spec (cl_status row) "connected"); simpl in H; [|by simplify_eq/=].
  destruct (cl_agent row) as [stored|] eqn:Hag; [|by simplify_eq/=].
  destruct (String.eqb_spec stored a); simplify_eq/=; [|done].
  split; [done|]. intros o [= <-]. exists row. split; [by left|done].
Qed.

(** The agent middleware lets a request through only with credentials of a
    connected cluster: the handler then runs as the agent recorded for that
    cluster, in the cluster's organization, on an unchanged database; otherwise
    the request fails and nothing changes. *)
Theorem AgentAuthMiddleware_correct {A} bypassrls clusterID agentID (next : AgentIdentity → DBM A)
    s r s' (H : AgentAuthMiddleware bypassrls clusterID agentID next s = (r, s')) :
  (is_ok r = false ∧ store s' = store s) ∨
  (∃ row s1, t_clusters (store s) !! clusterID = Some row ∧ cl_status row = "connected" ∧
     cl_agent row = Some agentID ∧ store s1 = store s ∧
     next (mkAgent clusterID (cl_org row) agentID) s1 = (r, s')).
Proof.
  unfold AgentAuthMiddleware, fail in H.
  destruct (String.eqb clusterID ""); [by simplify_eq/=; left|].
  destruct (String.eqb agentID ""); [by simplify_eq/=; left|].
  unfold bind in H. destruct (ValidateCluster _ _ _ s) as [[o|e] s1] eqn:E;
    apply ValidateCluster_inv in E as [Hst Ho]; [|by simplify_eq; left].
  right. destruct (Ho o eq_refl) as (row & Hrow & ? & ? & <-). exists row, s1.
  split_and!; try done. unfold cluster_row, row_at in Hrow.
  destruct (t_clusters (store s) !! clusterID) as [x|]; destruct bypassrls; simpl in Hrow;
    try (by apply not_elem_of_nil in Hrow).
  apply list_elem_of_singleton in Hrow. by subst.
Qed.

(** When the database role is subject to row-level security, no agent is ever
    let in: the cluster is looked up outside of any tenant scope, so the policy
    of the clusters table hides every row and every request is refused. *)
Theorem AgentAuthMiddleware_rls_denies {A} clusterID agentID (next : AgentIdentity → DBM A) s :
  is_ok (AgentAuthMiddleware false clusterID agentID next s).1 = false ∧
  store (AgentAuthMiddleware false clusterID agentID next s).2 = store s.
Proof.
  unfold AgentAuthMiddleware. destruct (String.eqb clusterID ""); [done|].
  destruct (String.eqb agentID ""); [done|]. unfold bind.
  destruct (ValidateCluster _ _ _ s) as [[o|e] s1] eqn:E;
    apply ValidateCluster_inv in E as [Hst Ho]; [|done].
  destruct (Ho o eq_refl) as (row & Hrow & _). unfold cluster_row, row_at, visible in Hrow.
  destruct (t_clusters (store s) !! clusterID); by apply not_elem_of_nil in Hrow.
Qed.

Lemma AgentAuthMiddleware_correct_witness :
  is_ok (AgentAuthMiddleware true "east" "agent-1" (λ a, ret (ag_org a)) demo_4).1 = true ∧
  ∃ row, t_clusters (store demo_4) !! "east" = Some row ∧ cl_status row = "connected".
Proof.
  assert (Hok : is_ok (AgentAuthMiddleware true "east" "agent-1" (λ a, ret (ag_org a)) demo_4).1 = true)
    by (vm_compute; reflexivity).
  split; [exact Hok|].
  destruct (AgentAuthMiddleware true "east" "agent-1" (λ a, ret (ag_org a)) demo_4) as [r s'] eqn:E.
  destruct (AgentAuthMiddleware_correct true "east" "agent-1" _ demo_4 r s' E)
    as [[Hn _]|(row & s1 & Hrow & Hst & _)].
  - simpl in Hok. rewrite Hok in Hn. discriminate Hn.
  - exists row. split; assumption.
Defined.

(** ** Reports *)

(** A release status report, whatever statement fails: an error leaves the
    database as it was; a success needs a valid status and a release of a live
    deployment on the agent's own cluster in its organization; it stamps that
    release, gives the deployment the matching status and the reported ready
    replicas, and appends the matching event when there is an outbox. *)
Theorem UpdateDeploymentStatus_correct h agent dep rel body s r s'
    (H : AgentHandler_UpdateDeploymentStatus h agent dep rel body s = (r, s')) :
  match r with
  | Err _ => store s' = store s
  | Ok _ => ∃ req d x, body = Some req ∧ ValidAgentReleaseStatus (us_status req) = true ∧
      owned agent dep rel d x (store s) ∧
      emits h agent (status_payload dep rel req x).1 dep (status_payload dep rel req x).2 (clock s)
        (put_dep (with_status (deploy_status (us_status req)) (us_ready req) (clock s) d)
           (put_rel (reported req (clock s) x) (store s))) (store s')
  end.
Proof.
  destruct (UpdateDeploymentStatus_ensures h agent dep rel body s r s' H) as [_ Hr].
  destruct r as [u|]; [|done]. destruct Hr as (_ & (req & -> & Hv) & Hq).
  destruct (Hq req eq_refl Hv) as (d & x & ? & ?). by exists req, d, x.
Qed.

Lemma UpdateDeploymentStatus_correct_witness :
  is_ok (AgentHandler_UpdateDeploymentStatus demo_handler demo_agent "id3" "id9"
           (Some (mkUpdateStatus "deploying" None None)) demo_4).1 = true ∧
  ∃ d x, owned demo_agent "id3" "id9" d x (store demo_4).
Proof.
  set (m := AgentHandler_UpdateDeploymentStatus demo_handler demo_agent "id3" "id9"
              (Some (mkUpdateStatus "deploying" None None))).
  assert (Hok : is_ok (m demo_4).1 = true) by (vm_compute; reflexivity).
  split; [exact Hok|]. destruct (m demo_4) as [[u|e] s'] eqn:E; [|discriminate Hok].
  destruct (UpdateDeploymentStatus_correct demo_handler demo_agent "id3" "id9" _ demo_4 _ s' E)
    as (req & d & x & _ & _ & Ho & _).
  exists d, x. exact Ho.
Defined.

(** C11. A rollout progress report, whatever statement fails: an error leaves the
    database as it was; a success needs a known phase and a release of a live
    deployment on the agent's own cluster; it stores the reported snapshot
    keeping the rollback marker, appends one progress event, and performs what
    the transition from the stored phase calls for ([transition]): the engine
    events of a first Healthy or Failed, and the automatic rollback. *)
Theorem UpdateDeploymentProgress_correct h agent dep rel body s r s'
    (Hu : proper_uuids s) (W : wf (store s))
    (H : AgentHandler_UpdateDeploymentProgress h agent dep rel body s = (r, s')) :
  match r with
  | Err _ => store s' = store s
  | Ok _ => ∃ req d x db1 db2, body = Some req ∧ ValidRolloutPhase (up_phase req) = true ∧
      owned agent dep rel d x (store s) ∧
      persisted h (ag_org agent) dep rel req (clock s) (store s) db1 ∧
      emits h agent EventDeploymentProgress dep (progress_of dep rel x req) (clock s) db1 db2 ∧
      transition h agent d x req (stored_phase h (dep, rel) (store s))
        (is_rollback h (dep, rel) (store s)) (clock s) db2 (store s')
  end.
Proof.
  destruct (UpdateDeploymentProgress_spec h agent dep rel body s r s' H Hu W) as [_ Hr].
  destruct r as [u|]; [|done].
  destruct Hr as (req & ? & ? & _ & d & x & db1 & db2 & ? & _ & _ & ? & ? & ?).
  by exists req, d, x, db1, db2.
Qed.

(** The failing report of the scenario. *)
Definition demo_report : DBM unit :=
  AgentHandler_UpdateDeploymentProgress demo_handler demo_agent "id3" "id9"
    (Some (demo_progress "Failed")).

Lemma UpdateDeploymentProgress_correct_witness :
  is_ok (demo_report demo_4).1 = true ∧ ∃ d x, owned demo_agent "id3" "id9" d x (store demo_4).
Proof.
  assert (Hok : is_ok (demo_report demo_4).1 = true) by (vm_compute; reflexivity).
  split; [exact Hok|]. destruct (demo_report demo_4) as [[u|e] s'] eqn:E; [|discriminate Hok].
  destruct (UpdateDeploymentProgress_correct demo_handler demo_agent "id3" "id9" _ demo_4 _ s'
    ltac:(apply demo_uuids_of; vm_compute; reflexivity) demo_wf_4 E) as (req & d & x & _ & _ & _ & _ & Ho & _).
  exists d, x. exact Ho.
Defined.

(** ** The automatic rollback *)
Lemma emits_releases h agent ty dep p now db db' :
  emits h agent ty dep p now db db' → t_rels db' = t_rels db.
Proof. intros He. by destruct (emits_same _ _ _ _ _ _ _ _ He) as [(_ & _ & ?) _]. Qed.

(** Only a first failure may add a release. *)
Lemma transition_releases h agent d x req prev rollback now db db' :
  transition h agent d x req prev rollback now db db' →
  t_rels db' = t_rels db ∨
  up_phase req = RolloutPhaseFailed ∧ prev ≠ RolloutPhaseFailed ∧ h_autoRollback h = true ∧
  rollback = false ∧ ∃ db1, t_rels db1 = t_rels db ∧
    auto_rollback h agent d x (up_error req) now db1 db'.
Proof.
  unfold transition. intros H.
  destruct (String.eqb (up_phase req) RolloutPhaseHealthy).
  { left. destruct (String.eqb _ _); [by subst|]. destruct H as (db1 & H1%emits_releases & H2).
    destruct rollback; [apply emits_releases in H2|subst db']; congruence. }
  destruct (String.eqb_spec (up_phase req) RolloutPhaseFailed); [|left; by subst].
  destruct (String.eqb_spec prev RolloutPhaseFailed); [left; by subst|].
  destruct H as (db1 & H1 & H2).
  assert (Hdb1 : t_rels db1 = t_rels db).
  { destruct (up_timeout req); [by apply emits_releases in H1|congruence]. }
  destruct (h_autoRollback h), rollback; simpl in H2; try (left; congruence).
  right. split_and!; try done. by exists db1.
Qed.

(** C12. The automatic rollback happens at most once per failed release and never
    for a release a rollback created: an accepted report adds a release only
    when it is the first Failed report of a release that is not marked as a
    rollback, with the feature enabled and an earlier success to go back to; it
    then adds exactly one release, with the configuration of the most recent
    such success under the next revision and marked as a rollback, and points
    the deployment at it. *)
Theorem automatic_rollback_correct h agent dep rel req s u s'
    (Hu : proper_uuids s) (W : wf (store s))
    (H : AgentHandler_UpdateDeploymentProgress h agent dep rel (Some req) s = (Ok u, s')) :
  t_rels (store s') = t_rels (store s) ∨
  up_phase req = RolloutPhaseFailed ∧ stored_phase h (dep, rel) (store s) ≠ RolloutPhaseFailed ∧
  h_autoRollback h = true ∧ is_rollback h (dep, rel) (store s) = false ∧
  ∃ d x t rid, owned agent dep rel d x (store s) ∧
    is_latest t (earlier_successes (ag_org agent) dep (r_revision x) (store s)) ∧
    t_rels (store s) !! rid = None ∧
    t_rels (store s') = <[rid := rollback_release (ag_org agent) dep rid None (clock s)
                                   (r_revision x + 1) t]> (t_rels (store s)) ∧
    t_deps (store s') !! dep =
      Some (pointed_at t (clock s) d) ∧
    (h_rollouts h = true → is_rollback h (dep, rid) (store s') = true).
Proof.
  destruct (UpdateDeploymentProgress_spec h agent dep rel (Some req) s _ s' H Hu W) as [_ Hr].
  destruct Hr as (? & [= <-] & _ & _ & d & x & db1 & db2 & Ho & <- & Hid & Hp & He & Ht).
  pose proof (persisted_same _ _ _ _ _ _ _ _ Hp) as (_ & _ & R1).
  pose proof (emits_releases _ _ _ _ _ _ _ _ He) as R2.
  destruct (transition_releases _ _ _ _ _ _ _ _ _ _ Ht)
    as [Heq|(? & ? & ? & ? & db3 & R3 & [[_ Hnil]|(t & Hlat & rid & Hfr & _ & db4 & Hdb4 & He4)])];
    [left; congruence|left; congruence|right].
  split_and!; try done. exists d, x, t, rid. rewrite R3, R2, R1 in Hfr.
  assert (Hsame : earlier_successes (ag_org agent) (d_id d) (r_revision x) db3 =
                  earlier_successes (ag_org agent) (d_id d) (r_revision x) (store s)).
  { unfold earlier_successes. rewrite (releases_of_same _ _ (store s)); congruence. }
  destruct (emits_same _ _ _ _ _ _ _ _ He4) as [(_ & D4 & R4) S4].
  assert (t_rels db4 = <[rid := rollback_release (ag_org agent) (d_id d) rid None (clock s)
            (r_revision x + 1) t]> (t_rels db3) ∧
          t_deps db4 = <[d_id d := edit_dep (retarget (r_image t) (r_replicas t) d) (clock s) d]>
            (t_deps db3) ∧
          (h_rollouts h = true → marked (d_id d, rid) db4 = true)) as (R5 & D5 & M5).
  { destruct (h_rollouts h); [destruct Hdb4 as (st & -> & _)|subst db4]; (split_and!; try done).
    intros _. unfold marked. simpl. by rewrite lookup_insert_eq. }
  split_and!; try done.
  - by rewrite <- Hsame.
  - by rewrite R4, R5, R3, R2, R1.
  - by rewrite D4, D5, lookup_insert_eq.
  - intros Hh. unfold is_rollback, marked. rewrite S4, Hh. by apply M5.
Qed.

Lemma automatic_rollback_correct_witness :
  is_ok (demo_report demo_4).1 = true ∧
  ∃ d x t, owned demo_agent "id3" "id9" d x (store demo_4) ∧
    t ∈ earlier_successes "acme" "id3" (r_revision x) (store demo_4).
Proof.
  assert (Hok : is_ok (demo_report demo_4).1 = true) by (vm_compute; reflexivity).
  assert (Hn : (size (t_rels (store (demo_report demo_4).2)) =? size (t_rels (store demo_4)))%nat
               = false) by (vm_compute; reflexivity).
  split; [exact Hok|]. destruct (demo_report demo_4) as [[u|e] s'] eqn:E; [|discriminate Hok].
  simpl in Hn.
  destruct (automatic_rollback_correct demo_handler demo_agent "id3" "id9" _ demo_4 u s'
    ltac:(apply demo_uuids_of; vm_compute; reflexivity) demo_wf_4 E)
    as [Hs|(_ & _ & _ & _ & d & x & t & rid & Ho & Ht & _)].
  - rewrite Hs, Nat.eqb_refl in Hn. discriminate Hn.
  - exists d, x, t. split; [exact Ho|exact (proj1 Ht)].
Defined.

(** C16. A late failure is refused when the deployment has moved on: with the
    automatic rollback enabled, the first Failed report of a release that is not
    marked as a rollback itself, after which another release of the deployment
    was made and before which one succeeded, always fails: the revision the
    rollback wants is taken and the failed statement takes the whole transaction
    down; nothing of the report is stored.  (Marked, or without an earlier
    success, the release would not be rolled back and the report is accepted.) *)
Theorem superseded_failure_rejected h agent dep rel req s r s' x t
    (Hu : proper_uuids s) (W : wf (store s))
    (Hph : up_phase req = RolloutPhaseFailed)
    (Hprev : stored_phase h (dep, rel) (store s) ≠ RolloutPhaseFailed)
    (Hauto : h_autoRollback h = true) (Hmark : is_rollback h (dep, rel) (store s) = false)
    (Hx : t_rels (store s) !! rel = Some x)
    (Ht : t ∈ earlier_successes (ag_org agent) dep (r_revision x) (store s))
    (Hnext : has_revision dep (r_revision x + 1) (store s))
    (H : AgentHandler_UpdateDeploymentProgress h agent dep rel (Some req) s = (r, s')) :
  is_ok r = false ∧ store s' = store s.
Proof.
  destruct (UpdateDeploymentProgress_spec h agent dep rel (Some req) s r s' H Hu W) as [_ Hr].
  destruct r as [u|e]; [exfalso|done].
  destruct Hr as (? & [= <-] & _ & _ & d & y & db1 & db2 & Ho & Hid & Hrid & Hp & He & Htr).
  destruct (persisted_same _ _ _ _ _ _ _ _ Hp) as (_ & _ & R1).
  pose proof (emits_releases _ _ _ _ _ _ _ _ He) as R2.
  assert (y = x) as -> by (destruct Ho as (_&_&_&_&Hy&_); congruence).
  unfold transition in Htr. rewrite Hph in Htr. simpl in Htr.
  destruct (String.eqb_spec (stored_phase h (dep, rel) (store s)) RolloutPhaseFailed); [done|].
  destruct Htr as (db3 & H3 & Ha). rewrite Hauto, Hmark in Ha. simpl in Ha.
  assert (R3 : t_rels db3 = t_rels (store s)).
  { transitivity (t_rels db2); [|congruence].
    destruct (up_timeout req); [by apply emits_releases in H3|congruence]. }
  destruct Ha as [[Hnil _]|(t' & _ & rid & _ & Hfree & _)].
  - unfold earlier_successes in Hnil, Ht. rewrite (releases_of_same _ _ (store s) db3), Hid in Hnil
      by done. rewrite Hnil in Ht. by apply not_elem_of_nil in Ht.
  - destruct Hnext as (k & q & Hq & Hqd & Hqr). rewrite <- R3 in Hq.
    apply (Hfree k q Hq). simpl. by rewrite Hid.
Qed.

Lemma superseded_failure_rejected_witness :
  (∃ x, t_rels (store demo_6) !! "id9" = Some x) ∧ is_ok (demo_report demo_6).1 = false.
Proof.
  destruct (lookup_computed (t_rels (store demo_6) !! "id9") (λ x, r_revision x =? 2))
    as (x & Hx & Hr%Z.eqb_eq); [vm_compute; reflexivity|].
  split; [exists x; exact Hx|].
  destruct (lookup_computed (head (earlier_successes "acme" "id3" 2 (store demo_6))) (λ _, true))
    as (t & Ht & _); [vm_compute; reflexivity|].
  destruct (lookup_computed (t_rels (store demo_6) !! "id12")
    (λ q, String.eqb (r_dep q) "id3" && (r_revision q =? 3))) as (q & Hq & Hb);
    [vm_compute; reflexivity|].
  apply andb_true_iff in Hb as [Hqd%String.eqb_eq Hqr%Z.eqb_eq].
  destruct (demo_report demo_6) as [r s'] eqn:E.
  apply (superseded_failure_rejected demo_handler demo_agent "id3" "id9" (demo_progress "Failed")
    demo_6 r s' x t); [apply demo_uuids_of; vm_compute; reflexivity|exact demo_wf_6|reflexivity|
    vm_compute; discriminate|reflexivity|vm_compute; reflexivity|exact Hx|
    rewrite Hr; exact (head_Some_elem_of _ _ Ht)|
    exists "id12", q; rewrite Hr; split; [exact Hq|split; [exact Hqd|exact Hqr]]|exact E].
Defined.

Lemma readonly_GetDesiredState agent cluster : readonly (AgentHandler_GetDesiredState agent cluster).
Proof.
  unfold AgentHandler_GetDesiredState, desiredStateRepo_GetDesiredState. solve_readonly.
Qed.

(** ** Confinement of agents *)

(** Nothing but deployment [dep] and its releases changes. *)
Definition touches_only (dep : string) (db db' : DB) : Prop :=
  (∀ k, k ≠ dep → t_deps db' !! k = t_deps db !! k) ∧
  (∀ k x, t_rels db !! k = Some x → r_dep x ≠ dep → t_rels db' !! k = Some x) ∧
  t_apps db' = t_apps db.

#[export] Instance touches_only_preorder dep : PreOrder (touches_only dep).
Proof.
  split; [by intros db|]. intros d1 d2 d3 (D1 & R1 & A1) (D2 & R2 & A2). split_and!.
  - intros k Hk. by rewrite D2, D1.
  - eauto.
  - congruence.
Qed.

Lemma touches_same dep db db' : same_tables db db' → touches_only dep db db'.
Proof. intros (Ha & Hd & Hr). unfold touches_only. by rewrite Ha, Hd, Hr. Qed.
Lemma touches_emits h agent ty dep p now db db' :
  emits h agent ty dep p now db db' → touches_only dep db db'.
Proof. intros [? _]%emits_same. by apply touches_same. Qed.
Lemma touches_put_dep d db : touches_only (d_id d) db (put_dep d db).
Proof. split_and!; try done. intros k Hk. simpl. by rewrite lookup_insert_ne. Qed.
Lemma touches_put_rel r db :
  (∀ x, t_rels db !! r_id r = Some x → r_dep x = r_dep r) → touches_only (r_dep r) db (put_rel r db).
Proof.
  intros Hr. split_and!; try done. intros k x Hx Hne. simpl.
  rewrite lookup_insert_ne; [done|]. intros <-. by apply Hne, Hr.
Qed.

Lemma transition_touches h agent d x req prev rollback now db db' :
  transition h agent d x req prev rollback now db db' → touches_only (d_id d) db db'.
Proof.
  unfold transition. intros H.
  destruct (String.eqb (up_phase req) RolloutPhaseHealthy).
  { destruct (String.eqb _ _); [by subst|]. destruct H as (db1 & H1%touches_emits & H2).
    etrans; [exact H1|]. destruct rollback; [by eapply touches_emits|by subst]. }
  destruct (String.eqb (up_phase req) RolloutPhaseFailed); [|by subst].
  destruct (String.eqb _ _); [by subst|]. destruct H as (db1 & H1 & H2).
  assert (touches_only (d_id d) db db1) as ->.
  { destruct (up_timeout req); [by eapply touches_emits|by subst]. }
  destruct (h_autoRollback h && negb rollback); [|by subst].
  destruct H2 as [[_ ->]|(t & _ & rid & Hfr & _ & db2 & Hdb2 & He%touches_emits)]; [done|].
  etrans; [|exact He].
  assert (touches_only (d_id d) db1 (put_rel (rollback_release (ag_org agent) (d_id d) rid None now
    (r_revision x + 1) t) (put_dep (edit_dep (retarget (r_image t) (r_replicas t) d) now d) db1)))
    as Ht.
  { etrans; [apply (touches_put_dep (edit_dep (retarget (r_image t) (r_replicas t) d) now d))|].
    apply (touches_put_rel (rollback_release _ _ _ _ _ _ _)). simpl. intros y. by rewrite Hfr. }
  destruct (h_rollouts h); [destruct Hdb2 as (st & -> & _)|by subst]. by etrans; [exact Ht|].
Qed.

(** C10. An agent only reaches the deployments of its own cluster: a report that
    changes anything names a live deployment of the agent's organization on the
    agent's cluster, and touches no other deployment, no release of another
    deployment and no application. *)
Theorem agent_confined_to_cluster h agent req s r s'
    (Hu : proper_uuids s) (W : wf (store s)) (H : serve_agent h agent req s = (r, s')) :
  store s' = store s ∨
  ∃ dep d, t_deps (store s) !! dep = Some d ∧ d_org d = ag_org agent ∧
    d_cluster d = ag_cluster agent ∧ d_status d ≠ StatusDeleted ∧
    touches_only dep (store s) (store s').
Proof.
  destruct req as [cluster|dep rel b|dep rel b]; simpl in H; unfold bind in H.
  - left. revert H. pose proof (readonly_GetDesiredState agent cluster s) as Hr.
    destruct (AgentHandler_GetDesiredState agent cluster s) as [[?|?] ?];
      simpl in Hr; by intros [= <- <-].
  - destruct (AgentHandler_UpdateDeploymentStatus h agent dep rel b s) as [q s1] eqn:E.
    destruct (UpdateDeploymentStatus_ensures h agent dep rel b s q s1 E) as [_ Hq].
    destruct q as [u|e]; unfold respond, ret in H; simplify_eq; [right|by left].
    destruct Hq as (_ & (req & -> & Hv) & Hq).
    destruct (Hq req eq_refl Hv) as (d & x & (Hd & ? & ? & ? & Hx & Hxd & ?) & He%touches_emits).
    exists dep, d. split_and!; try done. etrans; [|exact He].
    pose proof (keyed_deps _ W _ _ Hd) as <-. pose proof (keyed_rels _ W _ _ Hx) as <-.
    etrans; [|apply (touches_put_dep (with_status _ _ _ d))].
    assert (Hsame : r_id (reported req (clock s) x) = r_id x ∧ r_dep (reported req (clock s) x) = d_id d).
    { unfold reported. by destruct (String.eqb _ _). }
    destruct Hsame as [Hrid <-]. apply touches_put_rel. rewrite Hrid, Hx.
    intros ? [= <-]. unfold reported. by destruct (String.eqb _ _).
  - destruct (AgentHandler_UpdateDeploymentProgress h agent dep rel b s) as [q s1] eqn:E.
    destruct (UpdateDeploymentProgress_spec h agent dep rel b s q s1 E Hu W) as [_ Hq].
    destruct q as [u|e]; unfold respond, ret in H; simplify_eq; [right|by left].
    destruct Hq as (req & -> & _ & _ & d & x & db1 & db2 & (Hd & ? & ? & ? & ?) & Hid & _ & Hp & He & Ht).
    exists dep, d. split_and!; try done. subst dep.
    apply persisted_same, (touches_same (d_id d)) in Hp. apply touches_emits in He.
    apply transition_touches in Ht. by etrans; [exact Hp|]; etrans.
Qed.

Lemma agent_confined_to_cluster_witness :
  is_ok (serve_agent demo_handler demo_agent
           (PostProgress "id3" "id9" (Some (demo_progress "Failed"))) demo_4).1 = true ∧
  ∃ dep d, t_deps (store demo_4) !! dep = Some d ∧ d_cluster d = "east".
Proof.
  set (req := PostProgress "id3" "id9" (Some (demo_progress "Failed"))).
  assert (Hok : is_ok (serve_agent demo_handler demo_agent req demo_4).1 = true)
    by (vm_compute; reflexivity).
  assert (Hn : (length (t_outbox (store (serve_agent demo_handler demo_agent req demo_4).2)) =?
                length (t_outbox (store demo_4)))%nat = false) by (vm_compute; reflexivity).
  split; [exact Hok|]. destruct (serve_agent demo_handler demo_agent req demo_4) as [r s'] eqn:E.
  simpl in Hn.
  destruct (agent_confined_to_cluster demo_handler demo_agent req demo_4 r s'
    ltac:(apply demo_uuids_of; vm_compute; reflexivity) demo_wf_4 E)
    as [Hs|(dep & d & Hd & _ & Hc & _)].
  - rewrite Hs, Nat.eqb_refl in Hn. discriminate Hn.
  - exists dep, d. split; [exact Hd|exact Hc].
Defined.

(** ** Desired state *)

(** The releases an agent may be told to run. *)
Definition active_releases (o dep : string) (db : DB) : list Release :=
  filter (λ r, one_of (r_status r) active_statuses = true) (releases_of o dep db).

Lemma head_by_revision l r :
  (∀ x y, x ∈ l → y ∈ l → r_revision x = r_revision y → x = y) →
  head (by_revision l) = Some r ↔ is_latest r l.
Proof.
  intros Hu. pose proof (by_revision_head l) as Hh. split.
  - intros Hr. destruct (by_revision l); [done|]. by simplify_eq/=.
  - intros [Hin Hmax]. destruct (by_revision l) as [|x t]; [subst; by apply not_elem_of_nil in Hin|].
    destruct Hh as [Hx Hxmax]. simpl. f_equal. apply Hu; [done..|].
    apply Z.le_antisymm; auto.
Qed.

Lemma releases_of_unique db o dep x y :
  wf db → x ∈ releases_of o dep db → y ∈ releases_of o dep db →
  r_revision x = r_revision y → x = y.
Proof.
  intros W (_ & _ & Hx & kx & Hkx)%elem_of_releases_of (_ & _ & Hy & ky & Hky)%elem_of_releases_of Hr.
  assert (kx = ky) as <- by (apply (wf_revision_unique _ W kx x ky y); congruence).
  congruence.
Qed.

Lemma desired_rows_spec o cluster db w :
  wf db → o ≠ "" →
  w ∈ desired_rows o cluster o db ↔
  (let d := w_dep w in t_deps db !! d_id d = Some d ∧ d_org d = o ∧ d_cluster d = cluster ∧
     d_status d ∉ [StatusDeleted; "deleting"]) ∧
  t_apps db !! d_app (w_dep w) = Some (w_app w) ∧
  is_latest (w_rel w) (active_releases o (d_id (w_dep w)) db).
Proof.
  intros W Ho. unfold desired_rows. rewrite list_elem_of_omap.
  assert (Hu : ∀ d x y, x ∈ active_releases o d db → y ∈ active_releases o d db →
            r_revision x = r_revision y → x = y).
  { intros d x y [_ ?]%list_elem_of_filter [_ ?]%list_elem_of_filter.
    by eapply releases_of_unique. }
  split.
  - intros (d & Hd & Hrow). rewrite merge_sort_Permutation in Hd.
    apply elem_of_rows_where in Hd as (Hp & k & Hk). bool_to_prop.
    assert (Hkd : d_id d = k) by by apply (keyed_deps _ W). subst k.
    apply bind_Some in Hrow as (a & Ha & Hrow). apply bind_Some in Hrow as (r & Hr & [= <-]).
    unfold row_at in Ha. apply bind_Some in Ha as (a' & Ha & Hv).
    destruct (visible o (a_org a')); simplify_eq/=.
    split_and!; try done; [intros Hin%one_of_spec; simpl in Hin; congruence|].
    by apply head_by_revision in Hr; [|apply (Hu (d_id d))].
  - destruct w as [a d r]. simpl. intros ((Hd & Hdo & Hc & Hst) & Ha & Hr). exists d.
    rewrite merge_sort_Permutation, elem_of_rows_where. split.
    + split; [|by exists (d_id d)].
      assert (visible o (d_org d) = true) as -> by by apply visible_spec.
      rewrite Hc, Hdo, !String.eqb_refl. simpl.
      destruct (one_of (d_status d) [StatusDeleted; "deleting"]) eqn:E; [|by simpl in E; rewrite E].
      by apply one_of_spec in E.
    + destruct (wf_app _ W _ _ Hd) as (a' & Ha' & Hao).
      unfold row_at. rewrite Ha. simpl.
      assert (visible o (a_org a) = true) as -> by (apply visible_spec; split; [done|congruence]).
      simpl. apply (head_by_revision _ _ (Hu (d_id d))) in Hr.
      unfold active_releases in Hr. simpl in Hr |- *. by rewrite Hr.
Qed.

Lemma desired_rows_ids (f : desiredDeploymentRow → DesiredDeployment) o cluster db :
  wf db → (∀ w, dd_dep (f w) = d_id (w_dep w)) → NoDup (dd_dep ∘ f <$> desired_rows o cluster o db).
Proof.
  intros W Hf. unfold desired_rows.
  match goal with |- NoDup (_ <$> omap ?g ?l) => set (q := g); assert (Hl : NoDup (d_id <$> l)) end.
  { rewrite merge_sort_Permutation. apply rows_where_ids, W. }
  revert Hl. generalize (merge_sort id_le (rows_where (λ d, visible o (d_org d) &&
    String.eqb (d_cluster d) cluster && String.eqb (d_org d) o &&
    negb (one_of (d_status d) [StatusDeleted; "deleting"])) (t_deps db))).
  assert (Hq : ∀ d w, q d = Some w → dd_dep (f w) = d_id d).
  { intros d w Hw. unfold q in Hw. apply bind_Some in Hw as (a & _ & Hw).
    apply bind_Some in Hw as (r & _ & [= <-]). by rewrite Hf. }
  induction l as [|d l IH]; intros Hl; [constructor|]. inversion Hl as [|?? Hni Hnd]; subst.
  simpl. destruct (q d) as [w|] eqn:E; [|by apply IH].
  simpl. constructor; [|by apply IH]. rewrite (Hq d w E).
  intros (w' & Heq & Hw')%list_elem_of_fmap. apply list_elem_of_omap in Hw' as (d' & Hd' & E').
  apply Hni, list_elem_of_fmap. exists d'. split; [|done]. simpl in Heq. by rewrite Heq, (Hq d' w').
Qed.

Lemma GetDesiredState_items agent cluster s c items s' :
  AgentHandler_GetDesiredState agent cluster s = (Ok (c, items), s') →
  c = ag_cluster agent ∧ ag_org agent ≠ "" ∧
  items = (λ r, toDesiredDeployment r (a_slug (w_app r))) <$>
            desired_rows (ag_org agent) (ag_cluster agent) (ag_org agent) (store s).
Proof.
  unfold AgentHandler_GetDesiredState.
  destruct (String.eqb_spec cluster (ag_cluster agent)) as [->|]; simpl; [|done].
  intros H. apply bind_Ok_inv in H as (l & s1 & H & Hr). simplify_eq/=. unfold ret in Hr. simplify_eq.
  apply WithTenant_run in H as (Ho & _ & s0 & s2 & (Hst & Hor & _) & Hf & _);
    [|apply stable_bind; [apply stable_QueryAll|intros; apply stable_ret]].
  apply bind_Ok_inv in Hf as (rows & s3 & (-> & _)%QueryAll_Ok & Hr). unfold ret in Hr. simplify_eq.
  rewrite Hst, Hor. by split_and!.
Qed.

(** The desired state an agent gets is exactly what its cluster should run:
    only the agent's own cluster can be asked about, nothing changes, and the
    list has one item for every deployment of the agent's organization on that
    cluster that is neither deleted nor being deleted and has a release that is
    pending, deploying or succeeded: the item of the latest such release, each
    deployment once. *)
Theorem GetDesiredState_correct agent cluster s c items s'
    (W : wf (store s)) (H : AgentHandler_GetDesiredState agent cluster s = (Ok (c, items), s')) :
  store s' = store s ∧ cluster = ag_cluster agent ∧ c = cluster ∧
  NoDup (dd_dep <$> items) ∧
  ∀ x, x ∈ items ↔ ∃ d a r,
    t_deps (store s) !! d_id d = Some d ∧ d_org d = ag_org agent ∧ d_cluster d = cluster ∧
    (d_status d ∉ [StatusDeleted; "deleting"]) ∧ t_apps (store s) !! d_app d = Some a ∧
    is_latest r (active_releases (ag_org agent) (d_id d) (store s)) ∧
    x = toDesiredDeployment (mkRow a d r) (a_slug a).
Proof.
  pose proof (readonly_GetDesiredState agent cluster s) as Hst. rewrite H in Hst. simpl in Hst.
  assert (cluster = ag_cluster agent) as ->.
  { revert H. unfold AgentHandler_GetDesiredState.
    destruct (String.eqb_spec cluster (ag_cluster agent)); [done|]. by simpl. }
  apply GetDesiredState_items in H as (-> & Ho & ->). split_and!; [done..| |].
  - rewrite <- list_fmap_compose. by apply desired_rows_ids.
  - intros x. rewrite list_elem_of_fmap. split.
    + intros (w & -> & Hw). apply desired_rows_spec in Hw as ((?&?&?&?)&?&?); [|done..].
      exists (w_dep w), (w_app w), (w_rel w). split_and!; try done.
    + intros (d & a & r & ? & ? & ? & ? & ? & ? & ->). exists (mkRow a d r). split; [done|].
      by apply desired_rows_spec.
Qed.

Lemma GetDesiredState_correct_witness :
  (∃ item s', AgentHandler_GetDesiredState demo_agent "east" demo_4 = (Ok ("east", [item]), s')) ∧
  ∃ d, t_deps (store demo_4) !! d_id d = Some d ∧ d_cluster d = "east".
Proof.
  assert (Hok : match (AgentHandler_GetDesiredState demo_agent "east" demo_4).1 with
                | Ok (c, [item]) => String.eqb c "east" | _ => false end = true)
    by (vm_compute; reflexivity).
  destruct (AgentHandler_GetDesiredState demo_agent "east" demo_4) as [r s'] eqn:E.
  simpl in Hok. destruct r as [[c [|item [|]]]|]; try discriminate Hok.
  apply String.eqb_eq in Hok. subst c. split; [exists item, s'; reflexivity|].
  destruct (GetDesiredState_correct demo_agent "east" demo_4 "east" [item] s' demo_wf_4 E)
    as (_ & _ & _ & _ & Hit).
  destruct (proj1 (Hit item) (list_elem_of_here item [])) as (d & a & r & Hd & _ & Hc & _).
  exists d. split; [exact Hd|exact Hc].
Defined.

(** ** The build consumer *)

(** C14. A build event rolls its image out exactly to the deployments that run it:
    an error and an invalid or already processed event leave the database as it
    was; otherwise, in one transaction, the event is marked processed and every
    live deployment of the organization whose image is the built repository (and
    no other) gets a new release pinned to the digest under its next revision,
    is pointed at it and set back to pending, with one event each. *)
Theorem BuildConsumer_process_correct e s r s'
    (W : wf (store s)) (H : BuildConsumer_process e s = (r, s')) :
  match r with
  | Err _ => store s' = store s
  | Ok res =>
      (res_outcome res ≠ processed ∧ store s' = store s) ∨
      res_outcome res = processed ∧ OrgID e ≠ "" ∧ ∃ p, decode_build (Payload e) = Some p ∧
        b_digest p ≠ "" ∧ b_image p ≠ "" ∧
        processed_build e p (clock s) (store s) (store s') (res_created res)
  end.
Proof.
  pose proof (BuildConsumer_process_spec e s r s' H W) as Hr. destruct r as [res|]; [|done].
  destruct (res_outcome res); [right|left..].
  - destruct Hr as (? & p & ? & ? & ? & _ & ?). split_and!; [done..|]. by exists p.
  - by destruct Hr.
  - done.
  - done.
Qed.

(** The build of a new image of the scenario's application. *)
Definition demo_build : Envelope json :=
  mkEnvelope "evt-1" "build.succeeded" 1 "acme" "" "" 0 no_actor no_resource
    (Some (JObj [("imageDigest"%string, JStr "sha256:ab"); ("image"%string, JStr "reg/shop:9")])).

Lemma BuildConsumer_process_correct_witness :
  (∃ res, (BuildConsumer_process demo_build demo_4).1 = Ok res ∧ res_created res = 1%nat) ∧
  ∃ p, decode_build (Payload demo_build) = Some p ∧ b_digest p ≠ "".
Proof.
  assert (Hok : match (BuildConsumer_process demo_build demo_4).1 with
                | Ok res => (res_created res =? 1)%nat &&
                            match res_outcome res with processed => true | _ => false end
                | Err _ => false end = true) by (vm_compute; reflexivity).
  destruct (BuildConsumer_process demo_build demo_4) as [r s'] eqn:E. simpl in Hok.
  destruct r as [res|]; [|discriminate Hok].
  apply andb_true_iff in Hok as [Hn%Nat.eqb_eq Hp].
  split; [exists res; split; [reflexivity|exact Hn]|].
  destruct (BuildConsumer_process_correct demo_build demo_4 _ s' demo_wf_4 E)
    as [[Ho _]|(_ & _ & p & Hd & Hne & _)].
  - destruct (res_outcome res); [destruct (Ho eq_refl)|discriminate Hp..].
  - exists p. split; [exact Hd|exact Hne].
Defined.

(** A processed event is marked. *)
Lemma processed_marks e s res s1 :
  BuildConsumer_process e s = (Ok res, s1) → wf (store s) → res_outcome res = processed →
  wf (store s1) ∧ logged (OrgID e) (store s) (store s1) ∧
  t_processed (store s1) !! (BuildConsumerDurable, EventID e) = Some (OrgID e).
Proof.
  intros H W Hp. pose proof (BuildConsumer_process_spec e s _ s1 H W) as Hr. simpl in Hr.
  rewrite Hp in Hr. destruct Hr as (Ho & p & _ & _ & _ & _ & Hnone & Hall & _).
  set (db0 := set_processed (<[(BuildConsumerDurable, EventID e) := OrgID e]>
                (t_processed (store s))) (store s)) in Hall.
  assert (Hc : change (OrgID e) (clock s) (store s) db0) by by apply ch_processed.
  assert (W0 : wf db0) by by eapply change_wf.
  apply rolled_out_all_steps in Hall; [|apply (active_current (OrgID e) (store s)), W].
  destruct (steps_guaranteed (OrgID e) (clock s) (store s) (store s1)) as (? & _ & _ & ?);
    [done|done|by eapply rtc_l|].
  split_and!; [done..|]. apply steps_history in Hall; [|done..].
  eapply lookup_weaken; [|apply (hi_processed _ _ Hall)]. simpl. by rewrite lookup_insert_eq.
Qed.

(** Redelivered build events have no effect: once an event was processed,
    handling it again, at any later time and after any other calls, leaves the
    database as it is then. *)
Theorem build_event_processed_once `{HJ : CursorJSON} e s res s1 s2 r s3
    (W : wf (store s)) (R : relay_ok (store s) (outside s))
    (H1 : BuildConsumer_process e s = (Ok res, s1)) (Hp : res_outcome res = processed)
    (Hs : rtc step (store s1, outside s1) (store s2, outside s2))
    (H2 : BuildConsumer_process e s2 = (r, s3)) :
  store s3 = store s2.
Proof.
  destruct (processed_marks e s res s1 H1 W Hp) as (W1 & Hlog & Hmark).
  assert (R1 : relay_ok (store s1) (outside s1)).
  { pose proof (mute_process e s) as Hm. rewrite H1 in Hm. simpl in Hm. rewrite Hm.
    by eapply relay_ok_logged. }
  destruct (steps_monotone _ _ Hs W1 R1) as [Hh _]. simpl in Hh.
  destruct (steps_invariant _ _ Hs W1 R1) as [W2 _].
  pose proof (lookup_weaken _ _ _ _ Hmark (hi_processed _ _ Hh)) as Hmark2.
  pose proof (BuildConsumer_process_spec e s2 r s3 H2 W2) as Hr.
  destruct r as [res2|]; [|done]. destruct (res_outcome res2); try done; [|by destruct Hr].
  destruct Hr as (_ & p & _ & _ & _ & _ & Hnone & _). congruence.
Qed.

Lemma demo_steps_refl s : rtc step (store s, outside s) (store s, outside s).
Proof. apply rtc_refl. Qed.

Lemma build_event_processed_once_witness :
  ∃ res s1, BuildConsumer_process demo_build demo_4 = (Ok res, s1) ∧ res_outcome res = processed ∧
    store (BuildConsumer_process demo_build s1).2 = store s1.
Proof.
  assert (Hok : match (BuildConsumer_process demo_build demo_4).1 with
                | Ok res => match res_outcome res with processed => true | _ => false end
                | Err _ => false end = true) by (vm_compute; reflexivity).
  destruct (BuildConsumer_process demo_build demo_4) as [r s1] eqn:E. simpl in Hok.
  destruct r as [res|]; [|discriminate Hok].
  assert (Hp : res_outcome res = processed)
    by (destruct (res_outcome res); [reflexivity|discriminate Hok..]).
  exists res, s1. split; [reflexivity|]. split; [exact Hp|].
  destruct (BuildConsumer_process demo_build s1) as [r s3] eqn:E2.
  exact (build_event_processed_once demo_build demo_4 res s1 s1 r s3 demo_wf_4
    (proj2 (reachable_invariant _ _ demo_reachable_4)) E Hp
    (demo_steps_refl s1) E2).
Defined.
