(* ===== verification/Rollout.v ===== *)
(** * The rollout state machine of the agent

    agents/platform-agent/internal/rollout/rollout.go: the phase and the
    completion percentage an agent derives from what it observes of a
    Kubernetes Deployment.  The percentage is computed in [float64], so the
    part of IEEE 754 binary64 it uses is modelled first. *)

From S2P Require Import Prelude Json GoTime AppErrors Events Domain.
From Stdlib Require SpecFloat.
From Stdlib Require Import ZifyBool.
Open Scope Z_scope.

(** ** Phases *)
Definition Phase := string.
Definition PhasePending : Phase := "Pending".
Definition PhaseScheduling : Phase := "Scheduling".
Definition PhaseReconciling : Phase := "Reconciling".
Definition PhaseRollingOut : Phase := "RollingOut".
Definition PhaseHealthy : Phase := "Healthy".
Definition PhaseFailed : Phase := "Failed".
Definition PhaseRollback : Phase := "Rollback".

Definition Phase_IsTerminal (p : Phase) : bool :=
  String.eqb p PhaseHealthy || String.eqb p PhaseFailed.

Record Snapshot := mkSnapshot {
  Applied : bool;
  DesiredReplicas : Z; ReadyReplicas : Z; UpdatedReplicas : Z;
  AvailableReplicas : Z; UnavailableReplicas : Z;
  Generation : Z; ObservedGeneration : Z;
  ProgressDeadlineExceeded : bool; ReplicaFailure : bool; PodIssue : string }.

Definition DerivePhase (s : Snapshot) : Phase :=
  if negb (Applied s) then PhasePending
  else if ProgressDeadlineExceeded s || ReplicaFailure s || negb (String.eqb (PodIssue s) "")
  then PhaseFailed
  else if (0 <? Generation s) && (ObservedGeneration s <? Generation s) then PhaseScheduling
  else if DesiredReplicas s <=? 0 then PhaseHealthy
  else if (DesiredReplicas s <=? UpdatedReplicas s) &&
          (DesiredReplicas s <=? AvailableReplicas s) &&
          (DesiredReplicas s <=? ReadyReplicas s) && (UnavailableReplicas s =? 0)
  then PhaseHealthy
  else if (UpdatedReplicas s =? 0) && (AvailableReplicas s =? 0) && (ReadyReplicas s =? 0)
  then PhaseReconciling
  else PhaseRollingOut.

Definition IsTimeout (s : Snapshot) : bool := ProgressDeadlineExceeded s.

Definition Percentage (s : Snapshot) : Z :=
  if DesiredReplicas s <=? 0 then
    if Applied s && ((Generation s =? 0) || (Generation s <=? ObservedGeneration s))
    then 100 else 0
  else
    let avail := AvailableReplicas s in
    let avail := if avail <? 0 then 0 else avail in
    let avail := if DesiredReplicas s <? avail then DesiredReplicas s else avail in
    Float64.to_int
      (Float64.mul (Float64.div (Float64.of_int avail) (Float64.of_int (DesiredReplicas s)))
         (Float64.of_int 100)).

(** The share of the desired replicas that is available, in whole percent. *)
Definition exact_percentage (s : Snapshot) : Z :=
  100 * Z.min (DesiredReplicas s) (Z.max 0 (AvailableReplicas s)) / DesiredReplicas s.

(** ** The operations agree with the standard library's binary64 *)
Definition spec_float (x : Float64.float64) : SpecFloat.spec_float :=
  SpecFloat.binary_normalize 53 1024 (Float64.mant x) (Float64.expo x) false.
Definition spec_percent (a d : Z) : SpecFloat.spec_float :=
  let i z := spec_float (Float64.of_int z) in
  SpecFloat.SFmul 53 1024 (SpecFloat.SFdiv 53 1024 (i a) (i d)) (i 100).
Definition model_percent (a d : Z) : SpecFloat.spec_float :=
  spec_float (Float64.mul (Float64.div (Float64.of_int a) (Float64.of_int d))
                (Float64.of_int 100)).
Definition same_float (x y : SpecFloat.spec_float) : bool :=
  match SpecFloat.SFcompare x y with Some Eq => true | _ => false end.
Example percent_agrees :
  forallb (λ d, forallb (λ a, same_float (spec_percent a d) (model_percent a d)) (seqZ 0 (d + 1)))
    [1; 3; 7; 49; 100] = true.
Proof. vm_compute. reflexivity. Qed.

(** ** Rounding errors *)
Section Rounding.
Import Float64.
Implicit Types n d e : Z.

Lemma pow2_pos e : 0 < 2 ^ Z.max 0 e.
Proof. apply Z.pow_pos_nonneg; lia. Qed.

Lemma scaled_pos n d e a b : 0 < n → 0 < d → scaled n d e = (a, b) → 0 < a ∧ 0 < b.
Proof.
  intros Hn Hd [= <- <-]. pose proof (pow2_pos e). pose proof (pow2_pos (- e)). split; nia.
Qed.

(** One more in the exponent halves the quotient. *)
Lemma scaled_succ n d e a b a' b' :
  scaled n d e = (a, b) → scaled n d (e + 1) = (a', b') → a * b' = 2 * (a' * b).
Proof.
  intros [= <- <-] [= <- <-].
  assert (Hp : 2 ^ Z.max 0 (- e) * 2 ^ Z.max 0 (e + 1) =
               2 * (2 ^ Z.max 0 (- (e + 1)) * 2 ^ Z.max 0 e)).
  { rewrite <- !Z.pow_add_r by lia.
    rewrite <- Z.pow_succ_r by lia. f_equal. lia. }
  transitivity (n * d * (2 ^ Z.max 0 (- e) * 2 ^ Z.max 0 (e + 1))); [ring|].
  rewrite Hp. ring.
Qed.

(** The first exponent leaves at least 52 bits in the quotient. *)
Lemma scaled_large n d a b :
  0 < n → 0 < d → scaled n d (Z.log2 n - Z.log2 d - 53) = (a, b) → 2 ^ 52 * b ≤ a.
Proof.
  intros Hn Hd [= <- <-].
  destruct (Z.log2_spec n Hn) as [Hn1 _]. destruct (Z.log2_spec d Hd) as [_ Hd2].
  pose proof (Z.log2_nonneg n). pose proof (Z.log2_nonneg d).
  set (l := Z.log2 n) in *. set (k := Z.log2 d) in *.
  assert (Hp : 2 ^ l * 2 ^ Z.max 0 (- (l - k - 53)) =
               2 ^ 52 * (2 ^ Z.succ k * 2 ^ Z.max 0 (l - k - 53))).
  { rewrite <- !Z.pow_add_r by lia. f_equal. lia. }
  pose proof (pow2_pos (l - k - 53)). pose proof (pow2_pos (- (l - k - 53))). nia.
Qed.

(** The rounded value is within half a unit in the last place of [n / d],
    which is at most [2 ^ -53] of it. *)
Lemma round_ratio_error n d :
  0 < n → 0 < d → let x := round_ratio n d in
  2 ^ 53 * Z.abs (fnum x * d - n * fden x) ≤ n * fden x.
Proof.
  intros Hn Hd. unfold round_ratio. destruct (Z.eqb_spec n 0); [lia|].
  destruct (scaled n d (Z.log2 n - Z.log2 d - 53)) as [a0 b0] eqn:H0.
  destruct (scaled_pos _ _ _ _ _ Hn Hd H0) as [Ha0 Hb0].
  pose proof (scaled_large _ _ _ _ Hn Hd H0) as Hl0.
  set (e := if 2 ^ 53 <=? a0 / b0 then _ else _).
  destruct (scaled n d e) as [a b] eqn:He.
  destruct (scaled_pos _ _ _ _ _ Hn Hd He) as [Ha Hb].
  assert (Hl : 2 ^ 52 * b ≤ a).
  { subst e. destruct (Z.leb_spec (2 ^ 53) (a0 / b0)) as [Hle|_];
      [|rewrite H0 in He; by injection He as <- <-].
    pose proof (scaled_succ _ _ _ _ _ _ _ H0 He) as Hs.
    pose proof (Z.mul_div_le a0 b0 Hb0). nia. }
  cbv zeta. unfold fnum, fden. simpl.
  pose proof (Z_div_mod_eq_full a b) as Hdm. pose proof (Z.mod_pos_bound a b Hb) as Hr.
  set (q := a / b) in *. set (r := a mod b) in *.
  set (up := (b <? 2 * r) || ((2 * r =? b) && Z.odd q)).
  assert (Hhalf : 2 * Z.abs ((if up then q + 1 else q) * b - a) ≤ b).
  { unfold up. destruct (Z.ltb_spec b (2 * r)); simpl; [lia|].
    destruct (Z.eqb_spec (2 * r) b); simpl; [destruct (Z.odd q); lia|lia]. }
  injection He as Hea Heb.
  replace (_ * 2 ^ Z.max 0 e * d) with ((if up then q + 1 else q) * b) by (rewrite <- Heb; ring).
  rewrite Hea. lia.
Qed.

Lemma round_ratio_same d : 0 < d → round_ratio d d = mkFloat (2 ^ 52) (-52).
Proof.
  intros Hd. unfold round_ratio. destruct (Z.eqb_spec d 0); [lia|].
  rewrite Z.sub_diag. change (0 - 53) with (-53). unfold scaled.
  change (Z.max 0 (- -53)) with 53. change (Z.max 0 (-53)) with 0.
  assert (Hq : ∀ z, d * z / (d * 2 ^ 0) = z).
  { intros z. rewrite Z.pow_0_r, Z.mul_1_r, (Z.mul_comm d). by apply Z.div_mul. }
  rewrite Hq, Z.leb_refl. change (-53 + 1) with (-52).
  change (Z.max 0 (- -52)) with 52. change (Z.max 0 (-52)) with 0.
  rewrite Hq, Z.pow_0_r, Z.mul_1_r, (Z.mul_comm d), Z.mod_mul by done.
  destruct (Z.ltb_spec d (2 * 0)); [lia|]. destruct (Z.eqb_spec (2 * 0) d); [lia|]. done.
Qed.

Lemma round_ratio_zero d : round_ratio 0 d = mkFloat 0 0.
Proof. done. Qed.
Lemma fden_pos x : 0 < fden x.
Proof. apply pow2_pos. Qed.
Lemma fnum_of_int z : fnum (of_int z) = z.
Proof. exact (Z.mul_1_r z). Qed.
Lemma fden_of_int z : fden (of_int z) = 1.
Proof. done. Qed.
Lemma round_ratio_nonneg n d : 0 ≤ n → 0 < d → 0 ≤ fnum (round_ratio n d).
Proof.
  intros Hn Hd. destruct (Z.eq_dec n 0) as [->|]; [done|].
  pose proof (round_ratio_error n d ltac:(lia) Hd) as He. simpl in He.
  pose proof (fden_pos (round_ratio n d)). set (f := fnum _) in *. set (g := fden _) in *.
  destruct (Z.le_gt_cases 0 f); [done|].
  assert (f * d < 0) by nia. assert (0 < n * g) by nia. lia.
Qed.

(** Two relative errors of [2 ^ -53] on [100 * a / d] do not cross an integer
    from below and cost less than one from above. *)
Lemma percent_floor a d n1 d1 n2 d2 k :
  0 < a ≤ d → 0 < d < 2 ^ 31 → 0 < d1 → 0 < d2 →
  2 ^ 53 * Z.abs (n1 * d - a * d1) ≤ a * d1 →
  2 ^ 53 * Z.abs (n2 * d1 - n1 * 100 * d2) ≤ n1 * 100 * d2 →
  0 ≤ k ≤ 100 → k * d ≤ 100 * a < (k + 1) * d →
  (k - 1) * d2 ≤ n2 < (k + 1) * d2.
Proof.
  intros Ha Hd Hd1 Hd2 H1 H2 Hk Hkd.
  set (u := 2 ^ 53 + 1). set (l := 2 ^ 53 - 1).
  assert (Hn1 : l * (a * d1) ≤ 2 ^ 53 * (n1 * d) ≤ u * (a * d1)) by (subst u l; lia).
  assert (Hn2 : l * (n1 * 100 * d2) ≤ 2 ^ 53 * (n2 * d1) ≤ u * (n1 * 100 * d2))
    by (subst u l; lia).
  assert (Hup : 2 ^ 106 * (n2 * d) ≤ u * u * (100 * a * d2)).
  { apply (Z.mul_le_mono_pos_r _ _ d1 Hd1).
    transitivity (u * (100 * d2 * (2 ^ 53 * (n1 * d)))); [|subst u; nia].
    transitivity (2 ^ 53 * d * (2 ^ 53 * (n2 * d1))); [lia|]. subst u; nia. }
  assert (Hlo : l * l * (100 * a * d2) ≤ 2 ^ 106 * (n2 * d)).
  { apply (Z.mul_le_mono_pos_r _ _ d1 Hd1).
    transitivity (l * (100 * d2 * (2 ^ 53 * (n1 * d)))); [subst l; nia|].
    transitivity (2 ^ 53 * d * (2 ^ 53 * (n2 * d1))); [|lia]. subst l; nia. }
  split.
  - apply (Z.mul_le_mono_pos_l _ _ (2 ^ 106 * d)); [lia|].
    assert (Hk1 : 2 ^ 106 * (k - 1) ≤ l * l * k) by (subst l; lia).
    transitivity (l * l * (100 * a * d2)); [|lia].
    transitivity (l * l * k * (d * d2)); [nia|].
    assert (k * d * d2 ≤ 100 * a * d2) by nia. subst l. lia.
  - apply (Z.mul_lt_mono_pos_l (2 ^ 106 * d)); [lia|].
    assert (Ht : (k + 1) * d ≤ 101 * 2 ^ 31) by nia.
    assert (Hk1 : u * u * ((k + 1) * d - 1) < 2 ^ 106 * ((k + 1) * d)) by (subst u; lia).
    assert (100 * a * d2 ≤ ((k + 1) * d - 1) * d2)
      by (apply Z.mul_le_mono_nonneg_r; lia).
    apply (Z.le_lt_trans _ (u * u * ((k + 1) * d - 1) * d2)); [subst u; lia|nia].
Qed.

(** Two roundings of [a / d * 100] stay within one unit below the exact
    value, and never reach the next integer. *)
Lemma percent_close a d :
  0 ≤ a ≤ d → 0 < d < 2 ^ 31 →
  let p := to_int (mul (div (of_int a) (of_int d)) (of_int 100)) in
  100 * a / d - 1 ≤ p ≤ 100 * a / d ∧ 0 ≤ p.
Proof.
  intros Ha Hd. cbv zeta. unfold div, mul. rewrite !fnum_of_int.
  rewrite !fden_of_int, !Z.mul_1_r, Z.mul_1_l. set (x := round_ratio a d).
  pose proof (fden_pos x) as Hx. pose proof (round_ratio_nonneg a d ltac:(lia) ltac:(lia)) as Hxn.
  fold x in Hxn. set (y := round_ratio (fnum x * 100) (fden x)).
  pose proof (fden_pos y) as Hy.
  pose proof (round_ratio_nonneg (fnum x * 100) (fden x) ltac:(lia) Hx) as Hyn. fold y in Hyn.
  assert (Hfloor : ∀ k, 0 ≤ k ≤ 100 → k * d ≤ 100 * a < (k + 1) * d →
            (k - 1) * fden y ≤ fnum y < (k + 1) * fden y).
  2: { set (k := 100 * a / d).
    assert (Hk : k * d ≤ 100 * a < (k + 1) * d).
    { pose proof (Z_div_mod_eq_full (100 * a) d). pose proof (Z.mod_pos_bound (100 * a) d).
      fold k in H. nia. }
    assert (0 ≤ k ≤ 100) by nia.
    destruct (Hfloor k) as [H1 H2]; [lia|done|]. unfold to_int.
    split; [split|apply Z.div_pos; lia].
    - apply Z.div_le_lower_bound; lia.
    - apply Z.lt_succ_r, Z.div_lt_upper_bound; lia. }
  intros k Hk Hkd. destruct (Z.eq_dec a 0) as [->|Ha0].
  { assert (k = 0) as -> by nia. unfold y, x. rewrite round_ratio_zero.
    by vm_compute. }
  pose proof (round_ratio_error a d ltac:(lia) ltac:(lia)) as H1. fold x in H1. cbv zeta in H1.
  destruct (Z.eq_dec (fnum x) 0) as [Hx0|Hx0];
    [exfalso; rewrite Hx0 in H1; assert (0 < a * fden x) by nia; lia|].
  pose proof (round_ratio_error (fnum x * 100) (fden x) ltac:(lia) Hx) as H2.
  fold y in H2. cbv zeta in H2.
  apply (percent_floor a d (fnum x) (fden x)); try assumption; lia.
Qed.
End Rounding.

(** ** The state machine *)

(** A failure signal: the progress deadline, a replica failure, a stuck pod. *)
Definition signals_failure (s : Snapshot) : Prop :=
  ProgressDeadlineExceeded s = true ∨ ReplicaFailure s = true ∨ PodIssue s ≠ "".
(** The controller has acted on the latest specification. *)
Definition observed (s : Snapshot) : Prop := Generation s ≤ 0 ∨ Generation s ≤ ObservedGeneration s.
Definition all_up (s : Snapshot) : Prop :=
  DesiredReplicas s ≤ 0 ∨
  DesiredReplicas s ≤ UpdatedReplicas s ∧ DesiredReplicas s ≤ AvailableReplicas s ∧
  DesiredReplicas s ≤ ReadyReplicas s ∧ UnavailableReplicas s = 0.
Definition none_up (s : Snapshot) : Prop :=
  UpdatedReplicas s = 0 ∧ AvailableReplicas s = 0 ∧ ReadyReplicas s = 0.

(** The rollout as an abstract machine: the phase is the first of these that
    describes the snapshot. *)
Inductive in_phase (s : Snapshot) : Phase → Prop :=
| is_pending : Applied s = false → in_phase s PhasePending
| is_failed : Applied s = true → signals_failure s → in_phase s PhaseFailed
| is_scheduling :
    Applied s = true → ¬ signals_failure s → ¬ observed s → in_phase s PhaseScheduling
| is_healthy :
    Applied s = true → ¬ signals_failure s → observed s → all_up s → in_phase s PhaseHealthy
| is_reconciling :
    Applied s = true → ¬ signals_failure s → observed s → ¬ all_up s → none_up s →
    in_phase s PhaseReconciling
| is_rolling_out :
    Applied s = true → ¬ signals_failure s → observed s → ¬ all_up s → ¬ none_up s →
    in_phase s PhaseRollingOut.

Lemma signals_failure_spec s :
  ProgressDeadlineExceeded s || ReplicaFailure s || negb (String.eqb (PodIssue s) "") = true ↔
  signals_failure s.
Proof.
  unfold signals_failure. rewrite !orb_true_iff, negb_true_iff, String.eqb_neq. tauto.
Qed.
Lemma observed_spec s :
  (0 <? Generation s) && (ObservedGeneration s <? Generation s) = false ↔ observed s.
Proof. unfold observed. rewrite andb_false_iff, !Z.ltb_ge. lia. Qed.
Lemma DerivePhase_in s : in_phase s (DerivePhase s).
Proof.
  unfold DerivePhase. destruct (Applied s) eqn:Ha; simpl; [|by constructor].
  destruct (_ || _ || _) eqn:Hf; [by constructor; [|apply signals_failure_spec]|].
  assert (¬ signals_failure s) by (rewrite <- signals_failure_spec; congruence).
  destruct ((0 <? _) && _) eqn:Ho.
  { constructor; [done|done|]. rewrite <- observed_spec. congruence. }
  apply observed_spec in Ho.
  destruct (Z.leb_spec (DesiredReplicas s) 0) as [Hd|Hd].
  { constructor; try done. by left. }
  destruct (_ && (UnavailableReplicas s =? 0)) eqn:Hu.
  { constructor; try done. right. lia. }
  assert (¬ all_up s) by (unfold all_up; lia).
  destruct (_ && (ReadyReplicas s =? 0)) eqn:Hn; constructor; try done; unfold none_up; lia.
Qed.

Lemma in_phase_unique s p q : in_phase s p → in_phase s q → p = q.
Proof. by destruct 1; destruct 1; try congruence. Qed.

Lemma in_phase_valid s p : in_phase s p → ValidRolloutPhase p = true ∧ p ≠ PhaseRollback.
Proof. by destruct 1. Qed.

(** C13. The agent's state machine derives exactly the phase the abstract
    rollout machine assigns to the snapshot: there is always one and only one;
    the control plane accepts it; and it is never [Rollback], which only the
    control plane sets. *)
Theorem DerivePhase_refines s :
  (∀ p, DerivePhase s = p ↔ in_phase s p) ∧
  ValidRolloutPhase (DerivePhase s) = true ∧ DerivePhase s ≠ PhaseRollback.
Proof.
  pose proof (DerivePhase_in s) as Hp. split; [|by eapply in_phase_valid].
  intros p. split; [by intros <-|]. by apply in_phase_unique.
Qed.

Lemma Percentage_replicas s :
  0 < DesiredReplicas s →
  Percentage s =
    Float64.to_int
      (Float64.mul
         (Float64.div (Float64.of_int (Z.min (DesiredReplicas s) (Z.max 0 (AvailableReplicas s))))
            (Float64.of_int (DesiredReplicas s))) (Float64.of_int 100)).
Proof.
  intros Hd. unfold Percentage. destruct (Z.leb_spec (DesiredReplicas s) 0); [lia|].
  do 4 f_equal. destruct (Z.ltb_spec (AvailableReplicas s) 0).
  - destruct (Z.ltb_spec (DesiredReplicas s) 0); lia.
  - destruct (Z.ltb_spec (DesiredReplicas s) (AvailableReplicas s)); lia.
Qed.

Lemma Percentage_full s : 0 < DesiredReplicas s ≤ AvailableReplicas s → Percentage s = 100.
Proof.
  intros Hd. rewrite Percentage_replicas by lia. rewrite Z.max_r, Z.min_l by lia.
  unfold Float64.div. rewrite !fnum_of_int, !fden_of_int, Z.mul_1_r, Z.mul_1_l.
  rewrite round_ratio_same by lia. by vm_compute.
Qed.

Lemma Percentage_cases s :
  DesiredReplicas s < 2 ^ 31 →
  (DesiredReplicas s ≤ 0 → Percentage s = 0 ∨ Percentage s = 100) ∧
  (0 < DesiredReplicas s →
     exact_percentage s - 1 ≤ Percentage s ≤ exact_percentage s ∧ 0 ≤ Percentage s ∧
     exact_percentage s * DesiredReplicas s ≤
       100 * Z.min (DesiredReplicas s) (Z.max 0 (AvailableReplicas s))).
Proof.
  intros H32. split; intros Hd.
  - unfold Percentage. destruct (Z.leb_spec (DesiredReplicas s) 0); [|lia].
    destruct (_ && _); auto.
  - pose proof (percent_close (Z.min (DesiredReplicas s) (Z.max 0 (AvailableReplicas s)))
                  (DesiredReplicas s) ltac:(lia) ltac:(lia)) as Hc. cbv zeta in Hc.
    rewrite <- Percentage_replicas in Hc by lia. unfold exact_percentage. split_and!; try lia.
    rewrite Z.mul_comm. apply Z.mul_div_le. lia.
Qed.
Lemma Percentage_range s : DesiredReplicas s < 2 ^ 31 → 0 ≤ Percentage s ≤ 100.
Proof.
  intros H32. destruct (Percentage_cases s H32) as [Hz Hp].
  destruct (Z.le_gt_cases (DesiredReplicas s) 0) as [Hd|Hd]; [destruct (Hz Hd); lia|].
  destruct (Hp Hd) as (H1 & H2 & H3). nia.
Qed.

(** C18. With 32-bit replica counts the percentage is between 0 and 100, within
    one below the exact share of available replicas despite the two float64
    roundings, 100 exactly when every desired replica is available, and for no
    desired replicas 100 exactly when the applied specification is observed. A
    healthy rollout is at 100. *)
Theorem Percentage_bounds s
    (H32 : DesiredReplicas s < 2 ^ 31) (Hgen : 0 ≤ Generation s) :
  0 ≤ Percentage s ≤ 100 ∧
  (0 < DesiredReplicas s →
     exact_percentage s - 1 ≤ Percentage s ≤ exact_percentage s ∧
     (Percentage s = 100 ↔ DesiredReplicas s ≤ AvailableReplicas s)) ∧
  (DesiredReplicas s ≤ 0 → (Percentage s = 100 ↔ Applied s = true ∧ observed s)) ∧
  (DerivePhase s = PhaseHealthy → Percentage s = 100).
Proof.
  destruct (Percentage_cases s H32) as [_ Hpos].
  assert (Hzero : DesiredReplicas s ≤ 0 → (Percentage s = 100 ↔ Applied s = true ∧ observed s)).
  { intros Hd. unfold Percentage, observed. destruct (Z.leb_spec (DesiredReplicas s) 0); [|lia].
    destruct (Applied s); simpl; [|by intuition].
    destruct (Z.eqb_spec (Generation s) 0), (Z.leb_spec (Generation s) (ObservedGeneration s));
      simpl; intuition lia. }
  assert (Hfull : 0 < DesiredReplicas s →
            (Percentage s = 100 ↔ DesiredReplicas s ≤ AvailableReplicas s)).
  { intros Hd. destruct (Hpos Hd) as (H1 & H2 & H3). split.
    - intros Hp. nia.
    - intros. apply Percentage_full. lia. }
  split_and!; [by apply Percentage_range..| | |].
  - intros Hd. destruct (Hpos Hd) as (H1 & _). by split; [|apply Hfull].
  - done.
  - intros Hh. pose proof (DerivePhase_in s) as Hi. rewrite Hh in Hi.
    destruct (Z.le_gt_cases (DesiredReplicas s) 0) as [Hd|Hd].
    + apply (Hzero Hd). by inversion Hi.
    + apply (Hfull Hd). inversion Hi as [| | |??? [?|(?&?&?&?)]| |]; lia.
Qed.

(** 29 replicas of 100 are reported as 28 percent: 0.29 is not a float64. *)
Definition snap_29 : Snapshot := mkSnapshot true 100 29 29 29 71 1 1 false false "".
Lemma Percentage_bounds_witness :
  exact_percentage snap_29 = 29 ∧ Percentage snap_29 = 28 ∧ 0 ≤ Percentage snap_29 ≤ 100.
Proof.
  split; [by vm_compute|]. split; [by vm_compute|].
  exact (proj1 (Percentage_bounds snap_29 eq_refl ltac:(vm_compute; discriminate))).
Defined.
