(* ===== verification/Effects.v ===== *)
(** * Effects of the agents, and the state file's system

    The monad the agents' loops run in: HTTP answers, the Kubernetes API and
    files of the outside world, the clock, and faults; and the file system the
    state file is written to, with the failures of its calls and crashes. *)
From S2P Require Import Prelude.

Section Monad.
Context {E S : Type}.
Definition SE (A : Type) : Type := S → result E A * S.

Definition ret {A} (a : A) : SE A := λ s, (Ok a, s).
Definition fail {A} (e : E) : SE A := λ s, (Err e, s).
Definition bind {A B} (m : SE A) (k : A → SE B) : SE B := λ s,
  match m s with
  | (Ok a, s') => k a s'
  | (Err e, s') => (Err e, s')
  end.
(** The result of [m] as a value, for code that inspects the error. *)
Definition attempt {A} (m : SE A) : SE (result E A) := λ s, let '(r, s') := m s in (Ok r, s').
Definition read {A} (f : S → A) : SE A := λ s, (Ok (f s), s).
Definition modify (f : S → S) : SE unit := λ s, (Ok tt, f s).
Fixpoint for_each {A} (f : A → SE unit) (l : list A) : SE unit :=
  match l with
  | [] => ret tt
  | a :: l' => bind (f a) (λ _, for_each f l')
  end.
End Monad.
Arguments SE : clear implicits.

Declare Scope se_scope.
Delimit Scope se_scope with se.
Notation "'let*' x ':=' m 'in' k" := (bind m (λ x, k))
  (at level 10, x pattern, m at level 100, k at level 200,
   format "'let*'  x  ':='  m  'in' '//' k") : se_scope.
Notation "m ;; k" := (bind m (λ _, k)) (at level 100, right associativity) : se_scope.

(** ** The monad laws, pointwise *)
Section Laws.
Context {E S : Type}.
Implicit Types s : S.
Lemma bind_ret_l {A B} (a : A) (k : A → SE E S B) s : bind (ret a) k s = k a s.
Proof. done. Qed.
Lemma bind_Ok {A B} (m : SE E S A) (k : A → SE E S B) a s s' :
  m s = (Ok a, s') → bind m k s = k a s'.
Proof. intros H. unfold bind. by rewrite H. Qed.
Lemma bind_Err {A B} (m : SE E S A) (k : A → SE E S B) e s s' :
  m s = (Err e, s') → bind m k s = (Err e, s').
Proof. intros H. unfold bind. by rewrite H. Qed.
Lemma bind_assoc {A B C} (m : SE E S A) (k : A → SE E S B) (k' : B → SE E S C) s :
  bind m (λ a, bind (k a) k') s = bind (bind m k) k' s.
Proof. unfold bind. by destruct (m s) as [[]]. Qed.
Lemma bind_inv {A B} (m : SE E S A) (k : A → SE E S B) s r s' :
  bind m k s = (r, s') →
  (∃ e, m s = (Err e, s') ∧ r = Err e) ∨ ∃ a s1, m s = (Ok a, s1) ∧ k a s1 = (r, s').
Proof.
  unfold bind. destruct (m s) as [[a|e] s1]; intros H.
  - right. by exists a, s1.
  - left. exists e. by simplify_eq.
Qed.
End Laws.

(** ** Computations that move along a relation *)
Definition preserves {E S A} (R : relation S) (m : SE E S A) : Prop := ∀ s, R s (m s).2.

Section Preserves.
Context {E S : Type} (R : relation S) `{HR : !PreOrder R}.

Lemma preserves_ret {A} (a : A) : preserves R (@ret E S A a).
Proof. intros s. apply HR. Qed.
Lemma preserves_fail {A} e : preserves R (@fail E S A e).
Proof. intros s. apply HR. Qed.
Lemma preserves_read {A} (f : S → A) : preserves R (@read E S A f).
Proof. intros s. apply HR. Qed.
Lemma preserves_modify f : (∀ s, R s (f s)) → preserves R (@modify E S f).
Proof. intros Hf s. apply Hf. Qed.
Lemma preserves_bind {A B} (m : SE E S A) (k : A → SE E S B) :
  preserves R m → (∀ a, preserves R (k a)) → preserves R (bind m k).
Proof.
  intros Hm Hk s. specialize (Hm s). unfold bind.
  destruct (m s) as [[a|e] s1]; simpl in *; [|done].
  exact (PreOrder_Transitive _ _ _ Hm (Hk a s1)).
Qed.
Lemma preserves_attempt {A} (m : SE E S A) : preserves R m → preserves R (attempt m).
Proof. intros Hm s. specialize (Hm s). unfold attempt. by destruct (m s). Qed.
Lemma preserves_for_each {A} (f : A → SE E S unit) l :
  (∀ a, preserves R (f a)) → preserves R (for_each f l).
Proof.
  intros Hf. induction l as [|a l IH]; simpl; [apply preserves_ret|by apply preserves_bind].
Qed.
End Preserves.

Create HintDb preserves.
#[export] Hint Resolve preserves_ret preserves_fail preserves_read : preserves.

(** Takes a computation apart; what is left are the calls of other parts. *)
Ltac preserves_step :=
  first
    [ progress intros
    | solve [eauto 4 with preserves typeclass_instances]
    | apply preserves_bind; [eauto with typeclass_instances|..]
    | apply preserves_attempt; [eauto with typeclass_instances|..]
    | apply preserves_for_each; [eauto with typeclass_instances|..]
    | case_match ].
Ltac solve_preserves := repeat preserves_step.

Open Scope se_scope.

(** ** Errors *)
Inductive read_error := NotExist | ReadFailed (text : string).

Module FileSystem.
(** ** The file system of one directory *)
Record inode := mkInode { i_data : string; i_synced : bool }.
Record FS := mkFS {
  fs_inodes : gmap nat inode;
  fs_dir : gmap string nat;
  fs_durable : gmap string nat;
  fs_next : nat }.

Definition file (fs : FS) (name : string) : option string :=
  i ← fs_dir fs !! name; i_data <$> (fs_inodes fs !! i).

(** After a crash. *)
Definition survives (fs fs' : FS) (name : string) : Prop :=
  fs_dir fs' !! name = fs_durable fs !! name ∨ fs_dir fs' !! name = fs_dir fs !! name.
Record crash (fs fs' : FS) : Prop := {
  crash_names name : survives fs fs' name;
  crash_durable : fs_durable fs' = fs_dir fs';
  crash_inodes i n : fs_inodes fs !! i = Some n → ∃ n', fs_inodes fs' !! i = Some n' ∧
    i_synced n' = true ∧ (i_synced n = true → i_data n' = i_data n) }.

(** ** System calls

    Each consumes an outcome: it is done, it fails (a failing write may have
    written a part), or the process dies before it.  None is left: all succeed. *)
Inductive outcome := Done | Fails (text : string) (written : nat) | Dies.
Inductive fs_error := FErr (text : string) | Died.
Record FSW := mkFSW { w_fs : FS; w_outcomes : list outcome }.
Abbreviation FM := (SE fs_error FSW).

Definition syscall (done : FS → FS) (failed : nat → FS → FS) : FM unit := λ w,
  match w_outcomes w with
  | [] => (Ok tt, mkFSW (done (w_fs w)) [])
  | Done :: l => (Ok tt, mkFSW (done (w_fs w)) l)
  | Fails e n :: l => (Err (FErr e), mkFSW (failed n (w_fs w)) l)
  | Dies :: l => (Err Died, mkFSW (w_fs w) l)
  end.

(** [return fmt.Errorf(...)] around a system call. *)
Definition wrap {A} (what : string) (m : FM A) : FM A := λ w,
  match m w with
  | (Err (FErr e), w') => (Err (FErr (what +:+ ": " +:+ e)), w')
  | x => x
  end.

Definition set_inode (i : nat) (n : inode) (fs : FS) : FS :=
  mkFS (<[i := n]> (fs_inodes fs)) (fs_dir fs) (fs_durable fs) (fs_next fs).
Definition set_dir (d : gmap string nat) (fs : FS) : FS :=
  mkFS (fs_inodes fs) d (fs_durable fs) (fs_next fs).

Definition MkdirAll : FM unit := syscall id (λ _ fs, fs).
(** [os.CreateTemp]: a new, empty file; [name] is the one it picks. *)
Definition CreateTemp (name : string) : FM nat := λ w,
  let i := fs_next (w_fs w) in
  match syscall (λ fs, mkFS (<[i := mkInode "" false]> (fs_inodes fs)) (<[name := i]> (fs_dir fs))
                         (fs_durable fs) (S i)) (λ _ fs, fs) w with
  | (Ok _, w') => (Ok i, w')
  | (Err e, w') => (Err e, w')
  end.
Definition Chmod (i : nat) : FM unit := syscall id (λ _ fs, fs).
Definition Write (i : nat) (data : string) : FM unit :=
  syscall (set_inode i (mkInode data false))
    (λ n, set_inode i (mkInode (GoStrings.take_str n data) false)).
Definition Sync (i : nat) : FM unit :=
  syscall (λ fs, match fs_inodes fs !! i with
                 | Some n => set_inode i (mkInode (i_data n) true) fs
                 | None => fs
                 end) (λ _ fs, fs).
Definition Close (i : nat) : FM unit := syscall id (λ _ fs, fs).
Definition Rename (from to : string) : FM unit :=
  syscall (λ fs, match fs_dir fs !! from with
                 | Some i => set_dir (<[to := i]> (delete from (fs_dir fs))) fs
                 | None => fs
                 end) (λ _ fs, fs).
Definition Remove (name : string) : FM unit :=
  syscall (λ fs, set_dir (delete name (fs_dir fs)) fs) (λ _ fs, fs).
Definition SyncDir : FM unit :=
  syscall (λ fs, mkFS (fs_inodes fs) (fs_dir fs) (fs_dir fs) (fs_next fs)) (λ _ fs, fs).

(** [defer cleanup]: run whatever [m] returns, its own error ignored; a dead
    process runs nothing. *)
Definition defer {A} (cleanup : FM unit) (m : FM A) : FM A := λ w,
  match m w with
  | (Err Died, w') => (Err Died, w')
  | (r, w') => match cleanup w' with
               | (Err Died, w'') => (Err Died, w'')
               | (_, w'') => (r, w'')
               end
  end.
(** An error of [m] is ignored. *)
Definition tolerate (m : FM unit) : FM unit := λ w,
  match m w with
  | (Err Died, w') => (Err Died, w')
  | (_, w') => (Ok tt, w')
  end.

(** ** Rules

    [triple P m Q F D]: from a file system satisfying [P], [m] ends in one
    satisfying [Q] when it succeeds, [F] when it fails and [D] when the process
    dies in it. *)
Definition triple {A} (P : FS → Prop) (m : FM A) (Q : A → FS → Prop) (F D : FS → Prop) : Prop :=
  ∀ w, P (w_fs w) →
    match m w with
    | (Ok a, w') => Q a (w_fs w')
    | (Err (FErr _), w') => F (w_fs w')
    | (Err Died, w') => D (w_fs w')
    end.

Lemma triple_syscall P done failed (Q F D : FS → Prop) :
  (∀ fs, P fs → Q (done fs)) → (∀ n fs, P fs → F (failed n fs)) → (∀ fs, P fs → D fs) →
  triple P (syscall done failed) (λ _, Q) F D.
Proof. intros HQ HF HD w HP. unfold syscall. destruct (w_outcomes w) as [|[]]; simpl; auto. Qed.

Lemma triple_bind {A B} P (m : FM A) (k : A → FM B) R Q F D :
  triple P m R F D → (∀ a, triple (R a) (k a) Q F D) → triple P (bind m k) Q F D.
Proof.
  intros Hm Hk w HP. specialize (Hm w HP). unfold bind.
  destruct (m w) as [[a|e] w']; [by apply Hk|done].
Qed.

Lemma triple_ret {A} (a : A) (P : FS → Prop) (Q : A → FS → Prop) F D :
  (∀ fs, P fs → Q a fs) → triple P (ret a) Q F D.
Proof. intros HQ w HP. simpl. auto. Qed.

Lemma triple_wrap {A} P what (m : FM A) Q F D : triple P m Q F D → triple P (wrap what m) Q F D.
Proof.
  intros Hm w HP. specialize (Hm w HP). unfold wrap.
  by destruct (m w) as [[a|[e|]] w'].
Qed.

Lemma triple_tolerate P (m : FM unit) (Q F D : FS → Prop) :
  triple P m (λ _, Q) Q D → triple P (tolerate m) (λ _, Q) F D.
Proof.
  intros Hm w HP. specialize (Hm w HP). unfold tolerate.
  by destruct (m w) as [[a|[e|]] w'].
Qed.

Lemma triple_defer {A} P cleanup (m : FM A) Q F D :
  triple P m Q F D → (∀ a, triple (Q a) cleanup (λ _, Q a) (Q a) D) →
  triple F cleanup (λ _, F) F D → triple P (defer cleanup m) Q F D.
Proof.
  intros Hm Hok Hf w HP. specialize (Hm w HP). unfold defer.
  destruct (m w) as [[a|[e|]] w']; [| |done].
  - specialize (Hok a w' Hm). by destruct (cleanup w') as [[u|[e'|]] w''].
  - specialize (Hf w' Hm). by destruct (cleanup w') as [[u|[e'|]] w''].
Qed.

Lemma triple_weaken {A} P P' (m : FM A) Q Q' F F' D D' :
  triple P m Q F D → (∀ fs, P' fs → P fs) → (∀ a fs, Q a fs → Q' a fs) →
  (∀ fs, F fs → F' fs) → (∀ fs, D fs → D' fs) → triple P' m Q' F' D'.
Proof.
  intros Hm HP HQ HF HD w Hw. specialize (Hm w (HP _ Hw)).
  destruct (m w) as [[a|[e|]] w']; auto.
Qed.
End FileSystem.
