(* ===== verification/ControlPlane.v ===== *)
(** * The agent's client of the control plane

    agents/platform-agent/internal/controlplane: client.go (registration,
    recovery, heartbeats, API errors) and deployment.go (the desired state and
    the two report endpoints).  The network is a parameter, [Transport]: one
    HTTP exchange on a world [W]; so is the decoding of response bodies.  Go's
    nil and empty maps and slices are not distinguished (the code never does
    for these types). *)

From S2P Require Import Prelude Json Effects.
Open Scope Z_scope.
Open Scope se_scope.

(** ** deployment.go: the desired state *)
Record controlplane_EnvVar := mkCPEnv { cpe_name : string; cpe_value : string }.
Record controlplane_ResourceSpec := mkCPRes { cpr_cpu : string; cpr_memory : string }.

Record DesiredConfigMap := mkDesiredCM {
  dcm_name : string; dcm_data : gmap string string; dcm_binary : gmap string string;
  dcm_labels : gmap string string; dcm_annotations : gmap string string }.

Record DesiredPVC := mkDesiredPVC {
  dpvc_name : string; dpvc_namespace : string; dpvc_modes : list string;
  dpvc_class : option string; dpvc_storage : string; dpvc_volume_mode : option string;
  dpvc_labels : gmap string string; dpvc_annotations : gmap string string }.

Record DesiredIngressPath := mkDesiredPath {
  dip_path : string; dip_type : string; dip_service : string; dip_port : Z }.
Record DesiredIngressRule := mkDesiredRule {
  dir_host : string; dir_paths : list DesiredIngressPath }.
Record DesiredIngressTLS := mkDesiredTLS { dit_hosts : list string; dit_secret : string }.
Record DesiredIngress := mkDesiredIngress {
  ding_name : string; ding_namespace : string; ding_class : option string;
  ding_rules : list DesiredIngressRule; ding_tls : list DesiredIngressTLS;
  ding_labels : gmap string string; ding_annotations : gmap string string }.

Record controlplane_DesiredDeployment := mkCPDesired {
  cpd_id : string; cpd_release : string; cpd_application : string; cpd_app_name : string;
  cpd_app_slug : string; cpd_namespace : string; cpd_image : string; cpd_revision : Z;
  cpd_replicas : Z; cpd_port : option Z; cpd_env : list controlplane_EnvVar;
  cpd_requests : option controlplane_ResourceSpec; cpd_limits : option controlplane_ResourceSpec;
  cpd_deadline : option Z; cpd_configmaps : list DesiredConfigMap;
  cpd_pvcs : list DesiredPVC; cpd_ingresses : list DesiredIngress; cpd_status : string }.

Record DesiredStateResponse := mkDesiredState {
  dsr_cluster : string; dsr_items : list controlplane_DesiredDeployment; dsr_next : string }.
Record AgentCredentials := mkCreds { cr_cluster : string; cr_agent : string }.

(** ** deployment.go: the reports *)
Definition CPStatusDeploying : string := "deploying".
Definition CPStatusSucceeded : string := "succeeded".
Definition CPStatusFailed : string := "failed".

Record DeploymentStatusRequest := mkStatusReq {
  sr_status : string; sr_ready : option Z; sr_error : option string }.
Record DeploymentConditionDTO := mkCondDTO {
  cdto_type : string; cdto_status : string; cdto_reason : string; cdto_message : string }.
Record DeploymentProgressRequest := mkProgressReq {
  pr_phase : string; pr_revision : Z; pr_image : string; pr_percentage : Z;
  pr_timeout : bool; pr_desired : Z; pr_ready : Z; pr_updated : Z; pr_available : Z;
  pr_unavailable : Z; pr_observed : Z; pr_conditions : list DeploymentConditionDTO;
  pr_error : string }.

(** ** client.go: requests, responses and errors *)
Record RegisterRequest := mkRegisterReq {
  rr_token : string; rr_agent : string; rr_version : string; rr_nodes : Z;
  rr_provider : string; rr_region : string }.
Record RegisterResponse := mkRegisterResp {
  rp_id : string; rp_org : string; rp_name : string; rp_slug : string; rp_status : string;
  rp_version : string; rp_nodes : option Z; rp_provider : string; rp_region : string;
  rp_agent : string; rp_registered : Z }.
Record HeartbeatRequest := mkHeartbeat {
  hb_agent : string; hb_version : string; hb_nodes : Z; hb_healthy : bool }.

Record APIError := mkAPIError { StatusCode : Z; Message : string }.
Definition IsUnauthorized (e : APIError) : bool := StatusCode e =? 401.
Definition IsConflict (e : APIError) : bool := StatusCode e =? 409.
Definition IsForbidden (e : APIError) : bool := StatusCode e =? 403.
Definition APIError_IsNotFound (e : APIError) : bool := StatusCode e =? 404.
Definition APIError_Error (e : APIError) : string :=
  "control plane error (status " +:+ GoStrings.Itoa (StatusCode e) +:+ "): " +:+ Message e.

(** A wrapped error, or one [errors.As] finds an [*APIError] in. *)
Inductive client_error := ErrText (text : string) | ErrAPI (e : APIError).

(** ** The bodies, as [json.Marshal] orders and omits the fields *)
Definition omit_str (k v : string) : list (string * json) :=
  if String.eqb v "" then [] else [(k, JStr v)].
Definition omit_opt {A} (f : A → json) (k : string) (v : option A) : list (string * json) :=
  match v with Some a => [(k, f a)] | None => [] end.

Definition json_RegisterRequest (r : RegisterRequest) : json :=
  JObj ([("token"%string, JStr (rr_token r)); ("agentId"%string, JStr (rr_agent r));
         ("kubernetesVersion"%string, JStr (rr_version r));
         ("nodeCount"%string, JNum (rr_nodes r))] ++
        omit_str "cloudProvider" (rr_provider r) ++ omit_str "region" (rr_region r)).
Definition json_HeartbeatRequest (r : HeartbeatRequest) : json :=
  JObj [("agentId"%string, JStr (hb_agent r)); ("kubernetesVersion"%string, JStr (hb_version r));
        ("nodeCount"%string, JNum (hb_nodes r)); ("apiServerHealthy"%string, JBool (hb_healthy r))].
Definition json_StatusRequest (r : DeploymentStatusRequest) : json :=
  JObj ([("status"%string, JStr (sr_status r))] ++
        omit_opt JNum "readyReplicas" (sr_ready r) ++ omit_opt JStr "errorMessage" (sr_error r)).
Definition json_Condition (c : DeploymentConditionDTO) : json :=
  JObj ([("type"%string, JStr (cdto_type c)); ("status"%string, JStr (cdto_status c))] ++
        omit_str "reason" (cdto_reason c) ++ omit_str "message" (cdto_message c)).
Definition json_ProgressRequest (r : DeploymentProgressRequest) : json :=
  JObj ([("phase"%string, JStr (pr_phase r)); ("revision"%string, JNum (pr_revision r))] ++
        omit_str "image" (pr_image r) ++
        [("rolloutPercentage"%string, JNum (pr_percentage r))] ++
        (if pr_timeout r then [("timeout"%string, JBool true)] else []) ++
        [("desiredReplicas"%string, JNum (pr_desired r));
         ("readyReplicas"%string, JNum (pr_ready r));
         ("updatedReplicas"%string, JNum (pr_updated r));
         ("availableReplicas"%string, JNum (pr_available r));
         ("unavailableReplicas"%string, JNum (pr_unavailable r));
         ("observedGeneration"%string, JNum (pr_observed r))] ++
        (if pr_conditions r is [] then []
         else [("conditions"%string, JArr (json_Condition <$> pr_conditions r))]) ++
        omit_str "errorMessage" (pr_error r)).

(** ** The network *)
Record http_request := mkHttp {
  hr_method : string; hr_url : string; hr_headers : list (string * string);
  hr_body : option json }.
(** A response: the status, the body and the error reading it, if any. *)
Record http_response := mkResp { hp_status : Z; hp_body : string; hp_read_error : option string }.

(** [http.NewRequest] refuses some URLs; [Do] is one exchange; the decoders
    are [json.Unmarshal] at the types of the program ([ErrorResponse] gives
    its [error] field, empty when absent). *)
Class Transport (W : Type) := {
  NewRequest_error : string → option string;
  Do : http_request → W → result string http_response * W;
  unmarshal_ErrorResponse : string → option string;
  unmarshal_DesiredState : string → result string DesiredStateResponse;
  unmarshal_RegisterResponse : string → result string RegisterResponse }.

Record Client := mkClient { baseURL : string }.

Section Client.
Context {W : Type} `{Transport W}.
Implicit Types creds : AgentCredentials.
Local Abbreviation CM := (SE client_error W).

(** The steps all requests share: creating the request, the exchange, the
    error of a response other than 200. *)
Definition new_request (method url : string) (headers : list (string * string))
    (body : option json) : CM http_request :=
  match NewRequest_error url with
  | Some e => fail (ErrText ("create request: " +:+ e))
  | None => ret (mkHttp method url headers body)
  end.
Definition do_request (req : http_request) : CM http_response := λ w,
  match Do req w with
  | (Ok resp, w') => (Ok resp, w')
  | (Err e, w') => (Err (ErrText ("do request: " +:+ e)), w')
  end.
Definition read_body (resp : http_response) : CM string :=
  match hp_read_error resp with
  | Some e => fail (ErrText ("read response: " +:+ e))
  | None => ret (hp_body resp)
  end.
Definition api_error (resp : http_response) : client_error :=
  match unmarshal_ErrorResponse (hp_body resp) with
  | Some m =>
      if negb (String.eqb m "") then ErrAPI (mkAPIError (hp_status resp) m)
      else ErrAPI (mkAPIError (hp_status resp) (hp_body resp))
  | None => ErrAPI (mkAPIError (hp_status resp) (hp_body resp))
  end.
Definition decode {A} (r : result string A) : CM A :=
  match r with
  | Ok a => ret a
  | Err e => fail (ErrText ("unmarshal response: " +:+ e))
  end.

Definition json_header : string * string := ("Content-Type", "application/json")%string.
Definition agent_headers creds : list (string * string) :=
  [("X-Cluster-ID"%string, cr_cluster creds); ("X-Agent-ID"%string, cr_agent creds)].

Definition Client_Register (c : Client) (req : RegisterRequest) : CM RegisterResponse :=
  let* httpReq := new_request "POST" (baseURL c +:+ "/v1/agent/register") [json_header]
    (Some (json_RegisterRequest req)) in
  let* resp := do_request httpReq in
  let* respBody := read_body resp in
  if negb (hp_status resp =? 200) then fail (api_error resp)
  else decode (unmarshal_RegisterResponse respBody).

Definition Client_Recover (c : Client) (token agentID : string) : CM RegisterResponse :=
  let* httpReq := new_request "GET" (baseURL c +:+ "/v1/agent/recover")
    ([("X-Registration-Token"%string, token)] ++
     (if String.eqb agentID "" then [] else [("X-Agent-ID"%string, agentID)])) None in
  let* resp := do_request httpReq in
  let* respBody := read_body resp in
  if negb (hp_status resp =? 200) then fail (api_error resp)
  else decode (unmarshal_RegisterResponse respBody).

Definition Client_HeartbeatWithCreds (c : Client) creds (req : HeartbeatRequest) : CM unit :=
  let* httpReq := new_request "POST"
    (baseURL c +:+ "/v1/agent/clusters/" +:+ cr_cluster creds +:+ "/heartbeat")
    (json_header :: agent_headers creds) (Some (json_HeartbeatRequest req)) in
  let* resp := do_request httpReq in
  if negb (hp_status resp =? 200) then fail (api_error resp) else ret tt.

Definition Client_Heartbeat (c : Client) (orgID clusterID : string) (req : HeartbeatRequest)
    : CM unit :=
  Client_HeartbeatWithCreds c (mkCreds clusterID (hb_agent req)) req.

Definition Client_GetDesiredState (c : Client) creds : CM (list controlplane_DesiredDeployment) :=
  let* httpReq := new_request "GET"
    (baseURL c +:+ "/v1/agent/clusters/" +:+ cr_cluster creds +:+ "/desired-state")
    (agent_headers creds) None in
  let* resp := do_request httpReq in
  let* respBody := read_body resp in
  if negb (hp_status resp =? 200) then fail (api_error resp)
  else
    let* result := decode (unmarshal_DesiredState respBody) in
    ret (dsr_items result).

Definition Client_GetDesiredDeployments (c : Client) (orgID clusterID accessToken : string)
    : CM (list controlplane_DesiredDeployment) :=
  Client_GetDesiredState c (mkCreds clusterID accessToken).

Definition report_url (c : Client) (deploymentID releaseID what : string) : string :=
  baseURL c +:+ "/v1/agent/deployments/" +:+ deploymentID +:+ "/releases/" +:+ releaseID +:+
  "/" +:+ what.

Definition Client_ReportDeploymentStatusWithCreds (c : Client) creds
    (deploymentID releaseID : string) (req : DeploymentStatusRequest) : CM unit :=
  let* httpReq := new_request "POST" (report_url c deploymentID releaseID "status")
    (json_header :: agent_headers creds) (Some (json_StatusRequest req)) in
  let* resp := do_request httpReq in
  if negb (hp_status resp =? 200) then fail (api_error resp) else ret tt.

Definition Client_ReportDeploymentStatus (c : Client)
    (orgID deploymentID releaseID accessToken : string) (req : DeploymentStatusRequest) : CM unit :=
  Client_ReportDeploymentStatusWithCreds c (mkCreds orgID accessToken) deploymentID releaseID req.

Definition Client_ReportDeploymentProgressWithCreds (c : Client) creds
    (deploymentID releaseID : string) (req : DeploymentProgressRequest) : CM unit :=
  let* httpReq := new_request "POST" (report_url c deploymentID releaseID "progress")
    (json_header :: agent_headers creds) (Some (json_ProgressRequest req)) in
  let* resp := do_request httpReq in
  if negb (hp_status resp =? 200) then fail (api_error resp) else ret tt.
End Client.
