(* ===== verification/K8s.v ===== *)
(** * The Kubernetes API as the agent uses it

    The API (client-go) is a parameter of the model: a typed client per kind of
    object on a cluster state [K].  Its objects are records of the fields the
    agent reads or writes, what else the server owns being one opaque value.
    Go's nil and empty maps and slices are distinguished only where the code
    does. *)

From S2P Require Import Prelude Effects.
Open Scope Z_scope.
Open Scope se_scope.

Abbreviation labels := (gmap string string).

(** ** The objects of the Kubernetes API *)
Record ObjectMeta := mkMeta {
  m_name : string; m_namespace : string; m_labels : labels; m_annotations : labels;
  m_generation : Z; m_server : string }.

(** Errors of the client; [apierrors.IsNotFound] is the test the code makes. *)
Record kube_error := mkKubeErr { ke_text : string; ke_not_found : bool }.

(** [resource.Quantity]: an abstract type with its zero, test and order. *)
Class Quantities (Q : Type) := {
  ZeroQuantity : Q;
  IsZeroQuantity : Q → bool;
  Cmp : Q → Q → Z;
  ParseQuantity : string → result string Q }.

Module kube.
Record EnvVar := mkEnv { env_name : string; env_value : string }.
Record ContainerPort := mkPort { cp_name : string; cp_port : Z; cp_protocol : string }.
Record Condition := mkCond {
  c_type : string; c_status : string; c_reason : string; c_message : string }.

Section Objects.
Context (Q : Type).
(** [None] is a nil resource list. *)
Record ResourceRequirements := mkResources {
  Requests : option (gmap string Q); Limits : option (gmap string Q) }.
Record Container := mkContainer {
  ct_name : string; ct_image : string; ct_env : list EnvVar; ct_resources : ResourceRequirements;
  ct_ports : list ContainerPort }.
Record DeploymentSpec := mkDepSpec {
  Replicas : option Z; Deadline : option Z; Selector : labels;
  tpl_labels : labels; tpl_annotations : labels; Containers : list Container }.
Record DeploymentStatus := mkDepStatus {
  st_replicas : Z; st_ready : Z; st_updated : Z; st_available : Z; st_unavailable : Z;
  st_observed : Z; st_conditions : list Condition }.
Record Deployment := mkDeployment {
  dep_meta : ObjectMeta; dep_spec : DeploymentSpec; dep_status : DeploymentStatus }.

Record ServicePort := mkSvcPort {
  sp_name : string; sp_port : Z; sp_target : Z; sp_protocol : string }.
Record Service := mkService {
  svc_meta : ObjectMeta; svc_selector : labels; svc_ports : list ServicePort; svc_type : string;
  svc_cluster : string }.

Record ConfigMap := mkConfigMap {
  cm_meta : ObjectMeta; cm_data : labels; cm_binary : labels }.

(** [pvc_storage] is the [storage] entry of the requests. *)
Record PVC := mkPVC {
  pvc_meta : ObjectMeta; pvc_modes : list string; pvc_class : option string;
  pvc_volume_mode : option string; pvc_requests : option (gmap string Q); pvc_volume : string }.

Record ServiceBackend := mkBackend { be_name : string; be_port : Z; be_port_name : string }.
Record HTTPPath := mkPath {
  hp_path : string; hp_type : option string; hp_service : option ServiceBackend }.
(** [None]: a rule without an http section. *)
Record Rule := mkRule { ru_host : string; ru_http : option (list HTTPPath) }.
Record TLS := mkTLS { tls_hosts : list string; tls_secret : string }.
Record Ingress := mkIngress {
  ing_meta : ObjectMeta; ing_class : option string; ing_rules : list Rule; ing_tls : list TLS;
  ing_status : string }.

(** A container's status; [None]: it is not waiting. *)
Record ContainerStatus := mkCStatus {
  cst_name : string; cst_waiting : option (string * string) }.
Record Pod := mkPod {
  pod_meta : ObjectMeta; pod_conditions : list Condition; pod_containers : list ContainerStatus }.
End Objects.
End kube.
Arguments kube.mkResources {Q}.
Arguments kube.Requests {Q}.
Arguments kube.Limits {Q}.
Arguments kube.mkContainer {Q}.
Arguments kube.ct_name {Q}.
Arguments kube.ct_image {Q}.
Arguments kube.ct_env {Q}.
Arguments kube.ct_resources {Q}.
Arguments kube.ct_ports {Q}.
Arguments kube.mkDepSpec {Q}.
Arguments kube.Replicas {Q}.
Arguments kube.Deadline {Q}.
Arguments kube.Selector {Q}.
Arguments kube.tpl_labels {Q}.
Arguments kube.tpl_annotations {Q}.
Arguments kube.Containers {Q}.
Arguments kube.mkDeployment {Q}.
Arguments kube.dep_meta {Q}.
Arguments kube.dep_spec {Q}.
Arguments kube.dep_status {Q}.
Arguments kube.mkPVC {Q}.
Arguments kube.pvc_meta {Q}.
Arguments kube.pvc_modes {Q}.
Arguments kube.pvc_class {Q}.
Arguments kube.pvc_volume_mode {Q}.
Arguments kube.pvc_requests {Q}.
Arguments kube.pvc_volume {Q}.

(** The kinds of objects the agent handles. *)
Inductive Kind := KDeployment | KService | KConfigMap | KPVC | KIngress | KPod.
#[export] Instance Kind_eq_dec : EqDecision Kind.
Proof. solve_decision. Defined.

Definition obj (Q : Type) (k : Kind) : Type :=
  match k with
  | KDeployment => kube.Deployment Q
  | KService => kube.Service
  | KConfigMap => kube.ConfigMap
  | KPVC => kube.PVC Q
  | KIngress => kube.Ingress
  | KPod => kube.Pod
  end.
Definition obj_meta {Q k} : obj Q k → ObjectMeta :=
  match k with
  | KDeployment => kube.dep_meta
  | KService => kube.svc_meta
  | KConfigMap => kube.cm_meta
  | KPVC => kube.pvc_meta
  | KIngress => kube.ing_meta
  | KPod => kube.pod_meta
  end.

(** The typed clients: namespace and name first; [List] takes a selector. *)
Class Kubernetes (Q K : Type) := {
  Get : ∀ k : Kind, string → string → SE kube_error K (obj Q k);
  Create : ∀ k : Kind, string → obj Q k → SE kube_error K (obj Q k);
  Update : ∀ k : Kind, string → obj Q k → SE kube_error K (obj Q k);
  Delete : ∀ k : Kind, string → string → SE kube_error K unit;
  List : ∀ k : Kind, string → string → SE kube_error K (list (obj Q k)) }.
