(* ===== verification/Manager.v ===== *)
(** * The Kubernetes resource manager of the agent

    agents/platform-agent/internal/k8s/manager.go: what the agent does to the
    cluster for a deployment and its service, config maps, volume claims and
    ingresses, and what it reads of deployments and pods.  Contexts are left
    out; an error is its text. *)

From S2P Require Import Prelude Effects ControlPlane K8s.
Open Scope Z_scope.
Open Scope se_scope.

(** ** Labels and annotations *)
Definition LabelManagedBy : string := "app.kubernetes.io/managed-by".
Definition LabelManagedByValue : string := "bdsplatform-agent".
Definition LabelDeploymentID : string := "bdsplatform.io/deployment-id".
Definition LabelApplicationName : string := "bdsplatform.io/application-name".
Definition AnnotationRevision : string := "bdsplatform.io/revision".
Definition AnnotationReleaseID : string := "bdsplatform.io/release-id".

(** Indexing a Go map: the zero value when absent. *)
Definition index (m : labels) (k : string) : string := default "" (m !! k).

(** [%q] of a name without characters to escape. *)
Definition quote_char : string := String (Ascii.ascii_of_nat 34) EmptyString.
Definition quoted (s : string) : string := quote_char +:+ s +:+ quote_char.

(** The conversion [int32(z)]. *)
Definition int32 (z : Z) : Z := (z + 2 ^ 31) mod 2 ^ 32 - 2 ^ 31.

Record Manager := mkManager { namespace : string }.
Definition NewManager (ns : string) : Manager :=
  mkManager (if String.eqb ns "" then "default" else ns).

Record ApplyResult := mkApplyResult {
  Created : bool; Updated : bool; NoOp : bool; ImmutableSkipped : bool }.
Definition created : ApplyResult := mkApplyResult true false false false.
Definition updated : ApplyResult := mkApplyResult false true false false.
Definition no_op : ApplyResult := mkApplyResult false false true false.
Definition immutable_skipped : ApplyResult := mkApplyResult false false false true.

(** ** Desired objects *)
Section Specs.
Context {Q : Type} `{Quantities Q}.

Record DeploymentSpec := mkDSpec {
  s_deployment : string; s_release : string; s_app_name : string; s_slug : string;
  s_image : string; s_replicas : Z; s_port : option Z; s_env : list kube.EnvVar;
  s_resources : kube.ResourceRequirements Q; s_revision : Z; s_deadline : option Z }.

Definition DefaultProgressDeadlineSeconds : Z := 600.

(** [resource.MustParse] panics on a malformed quantity: [None]. *)
Definition MustParse (s : string) : option Q :=
  match ParseQuantity s with Ok q => Some q | Err _ => None end.

(** A resource list from the control plane's strings, empty ones left out. *)
Definition resource_list (r : option controlplane_ResourceSpec)
    : option (option (gmap string Q)) :=
  match r with
  | None => Some None
  | Some r =>
      let add (k v : string) (m : gmap string Q) : option (gmap string Q) :=
        if String.eqb v "" then Some m else (λ q, <[k := q]> m) <$> MustParse v in
      m ← add "cpu"%string (cpr_cpu r) ∅;
      m ← add "memory"%string (cpr_memory r) m;
      Some (Some m)
  end.

(** [None]: the conversion panics. *)
Definition FromDesiredDeployment (d : controlplane_DesiredDeployment) : option DeploymentSpec :=
  requests ← resource_list (cpd_requests d);
  limits ← resource_list (cpd_limits d);
  Some (mkDSpec (cpd_id d) (cpd_release d) (cpd_app_name d) (cpd_app_slug d) (cpd_image d)
    (int32 (cpd_replicas d)) (int32 <$> cpd_port d)
    ((λ ev, kube.mkEnv (cpe_name ev) (cpe_value ev)) <$> cpd_env d)
    (kube.mkResources requests limits) (cpd_revision d) (int32 <$> cpd_deadline d)).

Definition ResourceName (s : DeploymentSpec) : string := s_slug s.

Record ConfigMapSpec := mkCMSpec {
  cms_name : string; cms_namespace : string; cms_deployment : string; cms_app_name : string;
  cms_slug : string; cms_data : labels; cms_binary : labels; cms_labels : labels;
  cms_annotations : labels }.
Definition FromDesiredConfigMap (d : controlplane_DesiredDeployment) (cm : DesiredConfigMap)
    : ConfigMapSpec :=
  mkCMSpec (dcm_name cm) (cpd_namespace d) (cpd_id d) (cpd_app_name d) (cpd_app_slug d)
    (dcm_data cm) (dcm_binary cm) (dcm_labels cm) (dcm_annotations cm).

Record PVCSpec := mkPVCSpec {
  ps_name : string; ps_namespace : string; ps_deployment : string; ps_app_name : string;
  ps_slug : string; ps_modes : list string; ps_class : option string; ps_storage : Q;
  ps_volume_mode : option string; ps_labels : labels; ps_annotations : labels }.
Definition FromDesiredPVC (d : controlplane_DesiredDeployment) (pvc : DesiredPVC)
    : result string PVCSpec :=
  let ns := if String.eqb (dpvc_namespace pvc) "" then cpd_namespace d else dpvc_namespace pvc in
  let spec q := mkPVCSpec (dpvc_name pvc) ns (cpd_id d) (cpd_app_name d) (cpd_app_slug d)
    (dpvc_modes pvc) (dpvc_class pvc) q (dpvc_volume_mode pvc) (dpvc_labels pvc)
    (dpvc_annotations pvc) in
  if negb (String.eqb (dpvc_storage pvc) "") then
    match ParseQuantity (dpvc_storage pvc) with
    | Err e => Err ("parse storage request " +:+ quoted (dpvc_storage pvc) +:+ ": " +:+ e)
    | Ok q => Ok (spec q)
    end
  else Ok (spec ZeroQuantity).

Record IngressSpec := mkIngSpec {
  is_name : string; is_namespace : string; is_deployment : string; is_app_name : string;
  is_slug : string; is_class : option string; is_rules : list DesiredIngressRule;
  is_tls : list DesiredIngressTLS; is_labels : labels; is_annotations : labels }.
Definition FromDesiredIngress (d : controlplane_DesiredDeployment) (ing : DesiredIngress)
    : IngressSpec :=
  mkIngSpec (ding_name ing)
    (if String.eqb (ding_namespace ing) "" then cpd_namespace d else ding_namespace ing)
    (cpd_id d) (cpd_app_name d) (cpd_app_slug d) (ding_class ing) (ding_rules ing)
    (ding_tls ing) (ding_labels ing) (ding_annotations ing).

(** The three [managedLabels]: the platform's labels win. *)
Definition managed_labels (extra : labels) (deployment app_name slug : string) : labels :=
  let l := <[LabelApplicationName := app_name]> (<[LabelDeploymentID := deployment]>
             (<[LabelManagedBy := LabelManagedByValue]> extra)) in
  if negb (String.eqb slug "") then <["app"%string := slug]> l else l.
Definition ConfigMapSpec_managedLabels (s : ConfigMapSpec) : labels :=
  managed_labels (cms_labels s) (cms_deployment s) (cms_app_name s) (cms_slug s).
Definition PVCSpec_managedLabels (s : PVCSpec) : labels :=
  managed_labels (ps_labels s) (ps_deployment s) (ps_app_name s) (ps_slug s).
Definition IngressSpec_managedLabels (s : IngressSpec) : labels :=
  managed_labels (is_labels s) (is_deployment s) (is_app_name s) (is_slug s).

Definition build_path (p : DesiredIngressPath) : kube.HTTPPath :=
  kube.mkPath (dip_path p)
    (Some (if String.eqb (dip_type p) "" then "Prefix"%string else dip_type p))
    (Some (kube.mkBackend (dip_service p) (dip_port p) "")).
Definition buildRules (s : IngressSpec) : list kube.Rule :=
  (λ r, kube.mkRule (dir_host r) (Some (build_path <$> dir_paths r))) <$> is_rules s.
Definition buildTLS (s : IngressSpec) : list kube.TLS :=
  (λ t, kube.mkTLS (dit_hosts t) (dit_secret t)) <$> is_tls s.
End Specs.
Arguments DeploymentSpec : clear implicits.
Arguments PVCSpec : clear implicits.

(** ** Drift detection *)
Section Drift.
Context {Q : Type} `{Quantities Q}.

Definition needsUpdate (existing desired : kube.Deployment Q) (revision : Z) : bool :=
  let image d := kube.ct_image <$> head (kube.Containers (kube.dep_spec d)) in
  if negb (String.eqb (index (m_annotations (kube.dep_meta existing)) AnnotationRevision)
             (GoStrings.Itoa revision)) then true
  else if match image existing, image desired with
          | Some a, Some b => negb (String.eqb a b)
          | _, _ => false
          end then true
  else match kube.Replicas (kube.dep_spec existing), kube.Replicas (kube.dep_spec desired) with
       | Some a, Some b => negb (a =? b)
       | _, _ => false
       end.

(** [maps.Equal] is equality of the maps; [binaryDataEqual] compares the
    lengths, then the entries of the first. *)
Definition binaryDataEqual (a b : labels) : bool :=
  if negb (Nat.eqb (size a) (size b)) then false
  else forallb (λ kv, match b !! kv.1 with Some bv => String.eqb kv.2 bv | None => false end)
         (map_to_list a).

Definition configMapNeedsUpdate (existing desired : kube.ConfigMap) : bool :=
  if negb (bool_decide (kube.cm_data existing = kube.cm_data desired)) then true
  else if negb (binaryDataEqual (kube.cm_binary existing) (kube.cm_binary desired)) then true
  else if negb (bool_decide (m_labels (kube.cm_meta existing) = m_labels (kube.cm_meta desired)))
  then true
  else negb (bool_decide (m_annotations (kube.cm_meta existing) =
                          m_annotations (kube.cm_meta desired))).

(** [accessModesEqual] and [stringSetEqual]: counts up for [a], down for [b],
    false as soon as a count is negative. *)
Definition count_up (a : list string) : gmap string Z :=
  fold_left (λ set m, <[m := default 0 (set !! m) + 1]> set) a ∅.
Fixpoint count_down (set : gmap string Z) (b : list string) : bool :=
  match b with
  | [] => true
  | m :: b' =>
      let n := default 0 (set !! m) - 1 in
      if n <? 0 then false else count_down (<[m := n]> set) b'
  end.
Definition accessModesEqual (a b : list string) : bool :=
  if negb (Nat.eqb (length a) (length b)) then false else count_down (count_up a) b.
Definition stringSetEqual (a b : list string) : bool :=
  if negb (Nat.eqb (length a) (length b)) then false else count_down (count_up a) b.

Definition existingStorage (pvc : kube.PVC Q) : Q :=
  match kube.pvc_requests pvc with
  | None => ZeroQuantity
  | Some requests => default ZeroQuantity (requests !! "storage"%string)
  end.

Definition pvcImmutableChanged (existing : kube.PVC Q) (spec : PVCSpec Q) : bool :=
  let or_empty o := default ""%string o in
  if negb (Nat.eqb (length (ps_modes spec)) 0) &&
     negb (accessModesEqual (kube.pvc_modes existing) (ps_modes spec)) then true
  else if match ps_class spec with
          | Some c => negb (String.eqb (or_empty (kube.pvc_class existing)) c)
          | None => false
          end then true
  else if match ps_volume_mode spec with
          | Some v => negb (String.eqb (or_empty (kube.pvc_volume_mode existing)) v)
          | None => false
          end then true
  else if negb (IsZeroQuantity (ps_storage spec))
  then Cmp (ps_storage spec) (existingStorage existing) <? 0
  else false.

Definition pvcLegalDrift (existing : kube.PVC Q) (spec : PVCSpec Q) : bool :=
  if negb (bool_decide (m_labels (kube.pvc_meta existing) = PVCSpec_managedLabels spec)) then true
  else if negb (bool_decide (m_annotations (kube.pvc_meta existing) = ps_annotations spec))
  then true
  else if negb (IsZeroQuantity (ps_storage spec))
  then 0 <? Cmp (ps_storage spec) (existingStorage existing)
  else false.

Definition derefPathType (p : option string) : string := default ""%string p.
Definition ingressPathEqual (a b : kube.HTTPPath) : bool :=
  if negb (String.eqb (kube.hp_path a) (kube.hp_path b)) then false
  else if negb (String.eqb (derefPathType (kube.hp_type a)) (derefPathType (kube.hp_type b)))
  then false
  else match kube.hp_service a, kube.hp_service b with
       | Some x, Some y =>
           String.eqb (kube.be_name x) (kube.be_name y) && (kube.be_port x =? kube.be_port y) &&
           String.eqb (kube.be_port_name x) (kube.be_port_name y)
       | None, None => true
       | _, _ => false
       end.

(** The indexed loops over two lists of equal lengths. *)
Fixpoint paths_equal (a b : list kube.HTTPPath) : bool :=
  match a, b with
  | x :: a', y :: b' => if ingressPathEqual x y then paths_equal a' b' else false
  | [], [] => true
  | _, _ => false
  end.
Fixpoint rules_equal (a b : list kube.Rule) : bool :=
  match a, b with
  | x :: a', y :: b' =>
      if negb (String.eqb (kube.ru_host x) (kube.ru_host y)) then false
      else match kube.ru_http x, kube.ru_http y with
           | None, None => rules_equal a' b'
           | Some p, Some q =>
               if negb (Nat.eqb (length p) (length q)) then false
               else if paths_equal p q then rules_equal a' b' else false
           | _, _ => false
           end
  | [], [] => true
  | _, _ => false
  end.
Definition ingressRulesEqual (a b : list kube.Rule) : bool :=
  if negb (Nat.eqb (length a) (length b)) then false else rules_equal a b.
Fixpoint tls_equal (a b : list kube.TLS) : bool :=
  match a, b with
  | x :: a', y :: b' =>
      if negb (String.eqb (kube.tls_secret x) (kube.tls_secret y)) then false
      else if negb (stringSetEqual (kube.tls_hosts x) (kube.tls_hosts y)) then false
      else tls_equal a' b'
  | [], [] => true
  | _, _ => false
  end.
Definition ingressTLSEqual (a b : list kube.TLS) : bool :=
  if negb (Nat.eqb (length a) (length b)) then false else tls_equal a b.

Definition ingressNeedsUpdate (existing desired : kube.Ingress) : bool :=
  if negb (bool_decide (m_labels (kube.ing_meta existing) = m_labels (kube.ing_meta desired)))
  then true
  else if negb (bool_decide (m_annotations (kube.ing_meta existing) =
                             m_annotations (kube.ing_meta desired))) then true
  else if match kube.ing_class desired with
          | Some c =>
              match kube.ing_class existing with
              | None => true
              | Some e => negb (String.eqb e c)
              end
          | None => false
          end then true
  else if negb (ingressRulesEqual (kube.ing_rules existing) (kube.ing_rules desired)) then true
  else negb (ingressTLSEqual (kube.ing_tls existing) (kube.ing_tls desired)).
End Drift.

(** ** What the manager reports of a deployment and of its pods *)
Record DeploymentStatus := mkDStatus {
  ds_name : string; ds_replicas : Z; ds_ready_replicas : Z; ds_updated : Z;
  ds_available : Z; ds_unavailable : Z; ds_desired : Z; ds_generation : Z;
  ds_observed : Z; ds_image : string; ds_revision : string; ds_release : string;
  ds_ready : bool; ds_failed : bool; ds_deadline_exceeded : bool; ds_replica_failure : bool;
  ds_failure_reason : string; ds_failure_message : string; ds_conditions : list kube.Condition }.

(** What the loop over the conditions sets. *)
Record failure_flags := mkFlags {
  ff_failed : bool; ff_deadline : bool; ff_replica : bool; ff_reason : string;
  ff_message : string }.
Definition note_condition (f : failure_flags) (c : kube.Condition) : failure_flags :=
  let f :=
    if String.eqb (kube.c_type c) "Progressing" && String.eqb (kube.c_status c) "False" then
      mkFlags true
        (if String.eqb (kube.c_reason c) "ProgressDeadlineExceeded" then true else ff_deadline f)
        (ff_replica f) (kube.c_reason c) (kube.c_message c)
    else f in
  if String.eqb (kube.c_type c) "ReplicaFailure" && String.eqb (kube.c_status c) "True" then
    mkFlags true (ff_deadline f) true (kube.c_reason c) (kube.c_message c)
  else f.

Definition deployment_status {Q} (dep : kube.Deployment Q) : DeploymentStatus :=
  let st := kube.dep_status dep in
  let f := fold_left note_condition (kube.st_conditions st) (mkFlags false false false "" "") in
  let desired := default 0 (kube.Replicas (kube.dep_spec dep)) in
  let ready :=
    match kube.Replicas (kube.dep_spec dep) with
    | Some n => (n <=? kube.st_ready st) && (n <=? kube.st_updated st)
    | None => false
    end in
  mkDStatus (m_name (kube.dep_meta dep)) (kube.st_replicas st) (kube.st_ready st)
    (kube.st_updated st) (kube.st_available st) (kube.st_unavailable st) desired
    (m_generation (kube.dep_meta dep)) (kube.st_observed st)
    (default ""%string (kube.ct_image <$> head (kube.Containers (kube.dep_spec dep))))
    (index (m_annotations (kube.dep_meta dep)) AnnotationRevision)
    (index (m_annotations (kube.dep_meta dep)) AnnotationReleaseID)
    ready (ff_failed f) (ff_deadline f) (ff_replica f) (ff_reason f) (ff_message f)
    (kube.st_conditions st).

Record PodHealth := mkHealth {
  ph_total : Z; ph_ready : Z; ph_issue : string; ph_message : string }.
Definition fatalWaitingReasons : list string :=
  ["ImagePullBackOff"; "ErrImagePull"; "CrashLoopBackOff"; "CreateContainerConfigError";
   "InvalidImageName"]%string.

(** The loops over a pod's conditions and over its containers (up to [break]). *)
Definition note_pod_condition (pod : kube.Pod) (h : PodHealth) (c : kube.Condition) : PodHealth :=
  let h :=
    if String.eqb (kube.c_type c) "Ready" && String.eqb (kube.c_status c) "True"
    then mkHealth (ph_total h) (ph_ready h + 1) (ph_issue h) (ph_message h) else h in
  if String.eqb (kube.c_type c) "PodScheduled" && String.eqb (kube.c_status c) "False" &&
     String.eqb (kube.c_reason c) "Unschedulable" && String.eqb (ph_issue h) ""
  then mkHealth (ph_total h) (ph_ready h) "Unschedulable"
         ("pod " +:+ m_name (kube.pod_meta pod) +:+ " unschedulable: " +:+ kube.c_message c)
  else h.
Fixpoint note_containers (pod : kube.Pod) (h : PodHealth) (l : list kube.ContainerStatus)
    : PodHealth :=
  match l with
  | [] => h
  | cs :: l' =>
      match kube.cst_waiting cs with
      | Some (reason, message) =>
          if existsb (String.eqb reason) fatalWaitingReasons
          then mkHealth (ph_total h) (ph_ready h) reason
                 ("container " +:+ kube.cst_name cs +:+ " in pod " +:+
                  m_name (kube.pod_meta pod) +:+ ": " +:+ message)
          else note_containers pod h l'
      | None => note_containers pod h l'
      end
  end.
Definition note_pod (h : PodHealth) (pod : kube.Pod) : PodHealth :=
  let h := fold_left (note_pod_condition pod) (kube.pod_conditions pod) h in
  if negb (String.eqb (ph_issue h) "") then h
  else note_containers pod h (kube.pod_containers pod).
Definition pod_health (pods : list kube.Pod) : PodHealth :=
  fold_left note_pod pods (mkHealth (Z.of_nat (length pods)) 0 "" "").

(** ** The operations on the cluster *)
Section Operations.
Context {Q K : Type} `{HQ : Quantities Q} `{HK : Kubernetes Q K}.
Local Abbreviation KM := (SE string K).

(** A call whose error the code looks at, and one whose error it wraps. *)
Definition inspect {A} (m : SE kube_error K A) : KM (result kube_error A) := λ s,
  let '(r, s') := m s in (Ok r, s').
Definition wrap {A} (context : string) (m : SE kube_error K A) : KM A := λ s,
  match m s with
  | (Ok a, s') => (Ok a, s')
  | (Err e, s') => (Err (context +:+ ": " +:+ ke_text e), s')
  end.
Definition refuse (verb kind name : string) : string :=
  "refusing to " +:+ verb +:+ " " +:+ kind +:+ " " +:+ quoted name +:+ " not managed by " +:+
  LabelManagedByValue.
Definition owned (m : ObjectMeta) : bool :=
  String.eqb (index (m_labels m) LabelManagedBy) LabelManagedByValue.
Definition in_namespace (m : Manager) (ns : string) : string :=
  if String.eqb ns "" then namespace m else ns.
Definition with_meta (meta : ObjectMeta) (l a : labels) : ObjectMeta :=
  mkMeta (m_name meta) (m_namespace meta) l a (m_generation meta) (m_server meta).

Definition deployment_labels (spec : DeploymentSpec Q) : labels :=
  <["app"%string := s_slug spec]> (<[LabelApplicationName := s_app_name spec]>
    (<[LabelDeploymentID := s_deployment spec]> {[LabelManagedBy := LabelManagedByValue]})).
Definition deployment_annotations (spec : DeploymentSpec Q) : labels :=
  <[AnnotationReleaseID := s_release spec]>
    {[AnnotationRevision := GoStrings.Itoa (s_revision spec)]}.

Definition desired_deployment (m : Manager) (spec : DeploymentSpec Q) : kube.Deployment Q :=
  let ports := match s_port spec with
               | Some p => [kube.mkPort "http" p "TCP"]
               | None => []
               end in
  kube.mkDeployment
    (mkMeta (ResourceName spec) (namespace m) (deployment_labels spec)
       (deployment_annotations spec) 0 "")
    (kube.mkDepSpec (Some (s_replicas spec))
       (Some (default DefaultProgressDeadlineSeconds (s_deadline spec)))
       {["app"%string := s_slug spec]} (deployment_labels spec) (deployment_annotations spec)
       [kube.mkContainer "app" (s_image spec) (s_env spec) (s_resources spec) ports])
    (kube.mkDepStatus 0 0 0 0 0 0 []).

Definition ApplyDeployment (m : Manager) (spec : DeploymentSpec Q) : KM ApplyResult :=
  let name := ResourceName spec in
  let desired := desired_deployment m spec in
  let* got := inspect (Get KDeployment (namespace m) name) in
  match got with
  | Err e =>
      if ke_not_found e then
        let* _ := wrap "create deployment" (Create KDeployment (namespace m) desired) in
        ret created
      else fail ("get deployment: " +:+ ke_text e)
  | Ok existing =>
      if negb (needsUpdate existing desired (s_revision spec)) then ret no_op
      else
        let meta := with_meta (kube.dep_meta existing) (m_labels (kube.dep_meta desired))
                      (m_annotations (kube.dep_meta desired)) in
        let* _ := wrap "update deployment"
          (Update KDeployment (namespace m)
             (kube.mkDeployment meta (kube.dep_spec desired) (kube.dep_status existing))) in
        ret updated
  end.

Definition desired_service (m : Manager) (spec : DeploymentSpec Q) (port : Z) : kube.Service :=
  kube.mkService (mkMeta (ResourceName spec) (namespace m) (deployment_labels spec) ∅ 0 "")
    {["app"%string := s_slug spec]} [kube.mkSvcPort "http" port port "TCP"] "ClusterIP" "".

Definition ApplyService (m : Manager) (spec : DeploymentSpec Q) : KM ApplyResult :=
  match s_port spec with
  | None => ret no_op
  | Some port =>
      let name := ResourceName spec in
      let desired := desired_service m spec port in
      let* got := inspect (Get KService (namespace m) name) in
      match got with
      | Err e =>
          if ke_not_found e then
            let* _ := wrap "create service" (Create KService (namespace m) desired) in
            ret created
          else fail ("get service: " +:+ ke_text e)
      | Ok existing =>
          let needs :=
            match kube.svc_ports existing, kube.svc_ports desired with
            | e :: _, d :: _ => negb (kube.sp_port e =? kube.sp_port d)
            | _, _ => false
            end in
          if negb needs then ret no_op
          else
            let meta := with_meta (kube.svc_meta existing) (m_labels (kube.svc_meta desired))
                          (m_annotations (kube.svc_meta existing)) in
            let* _ := wrap "update service"
              (Update KService (namespace m)
                 (kube.mkService meta (kube.svc_selector existing) (kube.svc_ports desired)
                    (kube.svc_type existing) (kube.svc_cluster existing))) in
            ret updated
      end
  end.

(** [None]: the deployment does not exist. *)
Definition GetDeploymentStatus (m : Manager) (name : string) : KM (option DeploymentStatus) :=
  let* got := inspect (Get KDeployment (namespace m) name) in
  match got with
  | Err e => if ke_not_found e then ret None else fail ("get deployment: " +:+ ke_text e)
  | Ok dep => ret (Some (deployment_status dep))
  end.

Definition GetPodHealth (m : Manager) (appSlug : string) : KM PodHealth :=
  let* pods := wrap "list pods" (List KPod (namespace m) ("app=" +:+ appSlug)) in
  ret (pod_health pods).

Definition managed_selector : string := LabelManagedBy +:+ "=" +:+ LabelManagedByValue.
Definition list_names (k : Kind) (context : string) (m : Manager) : KM (list string) :=
  let* items := wrap context (List k (namespace m) managed_selector) in
  ret ((λ o, m_name (obj_meta o)) <$> items).

(** A deletion that tolerates an absent object. *)
Definition delete_tolerant (k : Kind) (context : string) (m : Manager) (name : string) : KM unit :=
  let* deleted := inspect (Delete k (namespace m) name) in
  match deleted with
  | Err e => if ke_not_found e then ret tt else fail (context +:+ ": " +:+ ke_text e)
  | Ok _ => ret tt
  end.

Definition DeleteDeployment (m : Manager) (name : string) : KM unit :=
  delete_tolerant KDeployment "delete deployment" m name ;;
  delete_tolerant KService "delete service" m name.
Definition ListManagedDeployments (m : Manager) : KM (list string) :=
  list_names KDeployment "list deployments" m.

Definition desired_configmap (m : Manager) (spec : ConfigMapSpec) : kube.ConfigMap :=
  kube.mkConfigMap
    (mkMeta (cms_name spec) (in_namespace m (cms_namespace spec))
       (ConfigMapSpec_managedLabels spec) (cms_annotations spec) 0 "")
    (cms_data spec) (cms_binary spec).

Definition ApplyConfigMap (m : Manager) (spec : ConfigMapSpec) : KM ApplyResult :=
  let ns := in_namespace m (cms_namespace spec) in
  let desired := desired_configmap m spec in
  let* got := inspect (Get KConfigMap ns (cms_name spec)) in
  match got with
  | Err e =>
      if ke_not_found e then
        let* _ := wrap "create configmap" (Create KConfigMap ns desired) in ret created
      else fail ("get configmap: " +:+ ke_text e)
  | Ok existing =>
      if negb (owned (kube.cm_meta existing)) then fail (refuse "update" "configmap" (cms_name spec))
      else if negb (configMapNeedsUpdate existing desired) then ret no_op
      else
        let meta := with_meta (kube.cm_meta existing) (m_labels (kube.cm_meta desired))
                      (m_annotations (kube.cm_meta desired)) in
        let* _ := wrap "update configmap"
          (Update KConfigMap ns
             (kube.mkConfigMap meta (kube.cm_data desired) (kube.cm_binary desired))) in
        ret updated
  end.

(** The body [DeleteConfigMap], [DeletePVC] and [DeleteIngress] share. *)
Definition delete_owned (k : Kind) (kind : string) (m : Manager) (name : string) : KM unit :=
  let* got := inspect (Get k (namespace m) name) in
  match got with
  | Err e => if ke_not_found e then ret tt else fail ("get " +:+ kind +:+ ": " +:+ ke_text e)
  | Ok existing =>
      if negb (owned (obj_meta existing)) then fail (refuse "delete" kind name)
      else delete_tolerant k ("delete " +:+ kind) m name
  end.
Definition DeleteConfigMap := delete_owned KConfigMap "configmap".
Definition ListManagedConfigMaps (m : Manager) := list_names KConfigMap "list configmaps" m.

Definition storage_requests (q : Q) : option (gmap string Q) :=
  if negb (IsZeroQuantity q) then Some {["storage"%string := q]} else None.
Definition desired_pvc (m : Manager) (spec : PVCSpec Q) : kube.PVC Q :=
  kube.mkPVC
    (mkMeta (ps_name spec) (in_namespace m (ps_namespace spec)) (PVCSpec_managedLabels spec)
       (ps_annotations spec) 0 "")
    (ps_modes spec) (ps_class spec) (ps_volume_mode spec) (storage_requests (ps_storage spec)) "".

Definition ApplyPVC (m : Manager) (spec : PVCSpec Q) : KM ApplyResult :=
  let ns := in_namespace m (ps_namespace spec) in
  let desired := desired_pvc m spec in
  let* got := inspect (Get KPVC ns (ps_name spec)) in
  match got with
  | Err e =>
      if ke_not_found e then let* _ := wrap "create pvc" (Create KPVC ns desired) in ret created
      else fail ("get pvc: " +:+ ke_text e)
  | Ok existing =>
      if negb (owned (kube.pvc_meta existing)) then fail (refuse "update" "pvc" (ps_name spec))
      else if pvcImmutableChanged existing spec then ret immutable_skipped
      else if negb (pvcLegalDrift existing spec) then ret no_op
      else
        let meta := with_meta (kube.pvc_meta existing) (m_labels (kube.pvc_meta desired))
                      (m_annotations (kube.pvc_meta desired)) in
        let requests :=
          if negb (IsZeroQuantity (ps_storage spec))
          then Some (<["storage"%string := ps_storage spec]> (default ∅ (kube.pvc_requests existing)))
          else kube.pvc_requests existing in
        let* _ := wrap "update pvc"
          (Update KPVC ns
             (kube.mkPVC meta (kube.pvc_modes existing) (kube.pvc_class existing)
                (kube.pvc_volume_mode existing) requests (kube.pvc_volume existing))) in
        ret updated
  end.
Definition DeletePVC := delete_owned KPVC "pvc".
Definition ListManagedPVCs (m : Manager) := list_names KPVC "list pvcs" m.

Definition desired_ingress (m : Manager) (spec : IngressSpec) : kube.Ingress :=
  kube.mkIngress
    (mkMeta (is_name spec) (in_namespace m (is_namespace spec)) (IngressSpec_managedLabels spec)
       (is_annotations spec) 0 "")
    (is_class spec) (buildRules spec) (buildTLS spec) "".

Definition ApplyIngress (m : Manager) (spec : IngressSpec) : KM ApplyResult :=
  let ns := in_namespace m (is_namespace spec) in
  let desired := desired_ingress m spec in
  let* got := inspect (Get KIngress ns (is_name spec)) in
  match got with
  | Err e =>
      if ke_not_found e then
        let* _ := wrap "create ingress" (Create KIngress ns desired) in ret created
      else fail ("get ingress: " +:+ ke_text e)
  | Ok existing =>
      if negb (owned (kube.ing_meta existing)) then fail (refuse "update" "ingress" (is_name spec))
      else if negb (ingressNeedsUpdate existing desired) then ret no_op
      else
        let meta := with_meta (kube.ing_meta existing) (m_labels (kube.ing_meta desired))
                      (m_annotations (kube.ing_meta desired)) in
        let class :=
          match kube.ing_class desired with
          | Some c => Some c
          | None => kube.ing_class existing
          end in
        let* _ := wrap "update ingress"
          (Update KIngress ns
             (kube.mkIngress meta class (kube.ing_rules desired) (kube.ing_tls desired)
                (kube.ing_status existing))) in
        ret updated
  end.
Definition DeleteIngress := delete_owned KIngress "ingress".
Definition ListManagedIngresses (m : Manager) := list_names KIngress "list ingresses" m.
End Operations.
