(* ===== verification/ManagerFacts.v ===== *)
(** * Facts about the resource manager

    What the Kubernetes API promises ([KubernetesLaws]), the comparisons of
    the manager against equality and permutation, and what each operation of
    the manager does to the objects of the cluster. *)

From S2P Require Import Prelude Effects ControlPlane K8s Manager.
Open Scope Z_scope.
Open Scope se_scope.

(** ** Comparisons *)
Lemma map_eqb_spec (a b : labels) : negb (bool_decide (a = b)) = false ↔ a = b.
Proof. rewrite negb_false_iff. apply bool_decide_eq_true. Qed.

Lemma binaryDataEqual_eq a b : binaryDataEqual a b = true ↔ a = b.
Proof.
  unfold binaryDataEqual. split.
  - destruct (Nat.eqb_spec (size a) (size b)) as [Hs|]; simpl; [|done].
    intros Hf. rewrite forallb_forall in Hf.
    assert (Hsub : a ⊆ b).
    { apply map_subseteq_spec. intros k v Hk.
      specialize (Hf (k, v)). rewrite <- list_elem_of_In, elem_of_map_to_list in Hf.
      specialize (Hf Hk). simpl in Hf. case_match; [|done]. by apply String.eqb_eq in Hf as ->. }
    apply map_subseteq_size_eq; [done|]. by rewrite Hs.
  - intros ->. rewrite Nat.eqb_refl. simpl. apply forallb_forall.
    intros [k v]. rewrite <- list_elem_of_In, elem_of_map_to_list. simpl. intros ->.
    apply String.eqb_refl.
Qed.

Lemma configMapNeedsUpdate_false existing desired :
  configMapNeedsUpdate existing desired = false ↔
  kube.cm_data existing = kube.cm_data desired ∧ kube.cm_binary existing = kube.cm_binary desired ∧
  m_labels (kube.cm_meta existing) = m_labels (kube.cm_meta desired) ∧
  m_annotations (kube.cm_meta existing) = m_annotations (kube.cm_meta desired).
Proof.
  unfold configMapNeedsUpdate.
  pose proof (map_eqb_spec (kube.cm_data existing) (kube.cm_data desired)).
  pose proof (binaryDataEqual_eq (kube.cm_binary existing) (kube.cm_binary desired)).
  pose proof (map_eqb_spec (m_labels (kube.cm_meta existing)) (m_labels (kube.cm_meta desired))).
  pose proof (map_eqb_spec (m_annotations (kube.cm_meta existing))
                (m_annotations (kube.cm_meta desired))).
  destruct (negb (bool_decide (kube.cm_data existing = _))); [intuition congruence|].
  destruct (binaryDataEqual _ _); simpl; [|intuition congruence].
  destruct (negb (bool_decide (m_labels _ = _))); intuition congruence.
Qed.

(** *** Multisets by counting *)
Lemma count_up_spec a m : default 0 (count_up a !! m) = Z.of_nat (count_occ String.string_dec a m).
Proof.
  assert (Hg : ∀ set : gmap string Z,
            default 0 (fold_left (λ set m, <[m := default 0 (set !! m) + 1]> set) a set !! m)
            = default 0 (set !! m) + Z.of_nat (count_occ String.string_dec a m)).
  { induction a as [|x a IH]; intros set; [simpl; lia|]. cbn [fold_left count_occ].
    rewrite IH. destruct (String.string_dec x m) as [->|].
    - rewrite lookup_insert_eq. simpl. lia.
    - by rewrite lookup_insert_ne. }
  unfold count_up. rewrite Hg, lookup_empty. simpl. lia.
Qed.

Lemma count_down_spec b : ∀ set : gmap string Z, (∀ m, 0 ≤ default 0 (set !! m)) →
  count_down set b = true ↔ ∀ m, Z.of_nat (count_occ String.string_dec b m) ≤ default 0 (set !! m).
Proof.
  induction b as [|x b IH]; intros set Hset.
  { simpl. split; [|done]. intros _ m. apply Hset. }
  cbn [count_down count_occ]. destruct (Z.ltb_spec (default 0 (set !! x) - 1) 0) as [Hx|Hx].
  { split; [done|]. intros Hb. specialize (Hb x). destruct (String.string_dec x x); [lia|done]. }
  rewrite IH.
  - apply forall_proper. intros m. destruct (String.string_dec x m) as [->|].
    + rewrite lookup_insert_eq. simpl. lia.
    + by rewrite lookup_insert_ne.
  - intros m. destruct (decide (x = m)) as [->|].
    + rewrite lookup_insert_eq. simpl. lia.
    + rewrite lookup_insert_ne by done. apply Hset.
Qed.

Lemma count_occ_Permutation (a b : list string) :
  a ≡ₚ b ↔ ∀ m, count_occ String.string_dec a m = count_occ String.string_dec b m.
Proof. apply (Permutation_count_occ String.string_dec). Qed.

(** As many elements, none more often in [b]: none less often either. *)
Lemma count_le_Permutation (a b : list string) :
  length a = length b →
  (∀ m, (count_occ String.string_dec b m ≤ count_occ String.string_dec a m)%nat) → a ≡ₚ b.
Proof.
  revert a. induction b as [|x b IH]; intros a Hl Hc.
  { by destruct a. }
  assert (Hx : x ∈ a).
  { apply list_elem_of_In, (count_occ_In String.string_dec). specialize (Hc x). cbn in Hc.
    destruct (String.string_dec x x); [lia|done]. }
  apply elem_of_Permutation in Hx as [a' Ha]. rewrite Ha. apply Permutation_skip, IH.
  - apply Permutation_length in Ha. simpl in *. lia.
  - intros m. specialize (Hc m). rewrite count_occ_Permutation in Ha. rewrite Ha in Hc.
    cbn in Hc. destruct (String.string_dec x m); lia.
Qed.

Lemma stringSetEqual_iff a b : stringSetEqual a b = true ↔ a ≡ₚ b.
Proof.
  unfold stringSetEqual. destruct (Nat.eqb_spec (length a) (length b)) as [Hl|Hl]; simpl.
  - rewrite count_down_spec by (intros m; rewrite count_up_spec; lia). split.
    + intros Hc. apply count_le_Permutation; [done|]. intros m. specialize (Hc m).
      rewrite count_up_spec in Hc. lia.
    + intros Hp m. rewrite count_up_spec. rewrite count_occ_Permutation in Hp. by rewrite Hp.
  - split; [done|]. intros Hp%Permutation_length. done.
Qed.
Lemma accessModesEqual_iff a b : accessModesEqual a b = true ↔ a ≡ₚ b.
Proof. apply stringSetEqual_iff. Qed.

(** *** Ingress routes *)
Lemma ingressPathEqual_refl p : ingressPathEqual p p = true.
Proof.
  unfold ingressPathEqual. rewrite !String.eqb_refl. simpl.
  destruct (kube.hp_service p); [|done]. by rewrite !String.eqb_refl, Z.eqb_refl.
Qed.
Lemma paths_equal_refl l : paths_equal l l = true.
Proof. induction l; simpl; [done|]. by rewrite ingressPathEqual_refl. Qed.
Lemma ingressRulesEqual_refl l : ingressRulesEqual l l = true.
Proof.
  unfold ingressRulesEqual. rewrite Nat.eqb_refl. simpl.
  induction l as [|r l IH]; simpl; [done|]. rewrite String.eqb_refl. simpl.
  destruct (kube.ru_http r); [|done]. by rewrite Nat.eqb_refl, paths_equal_refl.
Qed.
Lemma ingressTLSEqual_refl l : ingressTLSEqual l l = true.
Proof.
  unfold ingressTLSEqual. rewrite Nat.eqb_refl. simpl.
  induction l as [|r l IH]; simpl; [done|]. rewrite String.eqb_refl. simpl.
  by rewrite (proj2 (stringSetEqual_iff _ _)).
Qed.

(** ** What the Kubernetes API promises *)

(** The server keeps what a request sets, fills in what it leaves out, and
    owns the rest. *)
Definition keeps_option {A} (asked kept : option A) : Prop :=
  ∀ a, asked = Some a → kept = Some a.
Definition keeps_meta (ns : string) (asked kept : ObjectMeta) : Prop :=
  m_name kept = m_name asked ∧ m_namespace kept = ns ∧
  m_labels kept = m_labels asked ∧ m_annotations kept = m_annotations asked.
Definition keeps_spec {Q} (k : Kind) : obj Q k → obj Q k → Prop :=
  match k with
  | KDeployment => λ a b,
      keeps_option (kube.Replicas (kube.dep_spec a)) (kube.Replicas (kube.dep_spec b)) ∧
      kube.ct_image <$> kube.Containers (kube.dep_spec a) =
      kube.ct_image <$> kube.Containers (kube.dep_spec b)
  | KService => λ a b, kube.svc_ports a = kube.svc_ports b
  | KConfigMap => λ a b, kube.cm_data a = kube.cm_data b ∧ kube.cm_binary a = kube.cm_binary b
  | KPVC => λ a b,
      (kube.pvc_modes a ≠ [] → kube.pvc_modes b = kube.pvc_modes a) ∧
      keeps_option (kube.pvc_class a) (kube.pvc_class b) ∧
      keeps_option (kube.pvc_volume_mode a) (kube.pvc_volume_mode b) ∧
      kube.pvc_requests a = kube.pvc_requests b
  | KIngress => λ a b,
      keeps_option (kube.ing_class a) (kube.ing_class b) ∧
      kube.ing_rules a = kube.ing_rules b ∧ kube.ing_tls a = kube.ing_tls b
  | KPod => λ _ _, True
  end.
Definition stored {Q} (ns : string) (k : Kind) (asked kept : obj Q k) : Prop :=
  keeps_meta ns (obj_meta asked) (obj_meta kept) ∧ keeps_spec k asked kept.

(** Label keys have no equals sign: a selector [key=value] splits in one way. *)
Definition no_equals (key : string) : bool :=
  all_chars (λ a, negb (Ascii.eqb a (Ascii.ascii_of_nat 61))) key.

(** [objs k s] are the objects of a kind, by namespace and name.  Reads change
    none; a write either succeeds on the one object it names, or fails, with
    or without having happened; others' objects are not affected.  A deleted
    object is gone. *)
Class KubernetesLaws (Q K : Type) `{Kubernetes Q K} := {
  objs : ∀ k, K → gmap (string * string) (obj Q k);
  law_names : ∀ k s ns n o, objs k s !! (ns, n) = Some o → m_name (obj_meta o) = n;
  law_Get : ∀ k ns n s r s', Get k ns n s = (r, s') →
    (∀ k, objs k s' = objs k s) ∧
    match r with
    | Ok o => objs k s !! (ns, n) = Some o
    | Err e => ke_not_found e = true → objs k s !! (ns, n) = None
    end;
  law_List : ∀ k ns sel s r s', List k ns sel s = (r, s') →
    (∀ k, objs k s' = objs k s) ∧
    (∀ key v l, sel = key +:+ "=" +:+ v → no_equals key = true → r = Ok l → ∀ o, o ∈ l ↔
       ∃ n, objs k s !! (ns, n) = Some o ∧ m_labels (obj_meta o) !! key = Some v);
  law_Create : ∀ k ns o s r s', Create k ns o s = (r, s') →
    is_ok r = false ∧ (∀ k, objs k s' = objs k s) ∨
    (∀ k', k' ≠ k → objs k' s' = objs k' s) ∧
    objs k s !! (ns, m_name (obj_meta o)) = None ∧
    ∃ o', stored ns k o o' ∧ objs k s' = <[(ns, m_name (obj_meta o)) := o']> (objs k s);
  law_Update : ∀ k ns o s r s', Update k ns o s = (r, s') →
    is_ok r = false ∧ (∀ k, objs k s' = objs k s) ∨
    (∀ k', k' ≠ k → objs k' s' = objs k' s) ∧
    is_Some (objs k s !! (ns, m_name (obj_meta o))) ∧
    ∃ o', stored ns k o o' ∧ objs k s' = <[(ns, m_name (obj_meta o)) := o']> (objs k s);
  law_Delete : ∀ k ns n s r s', Delete k ns n s = (r, s') →
    is_ok r = false ∧ (∀ k, objs k s' = objs k s) ∧
      (∀ e, r = Err e → ke_not_found e = true → objs k s !! (ns, n) = None) ∨
    (∀ k', k' ≠ k → objs k' s' = objs k' s) ∧
    objs k s' = delete (ns, n) (objs k s) }.

(** [Cmp] is a total order on quantities. *)
Class QuantityLaws (Q : Type) `{Quantities Q} := {
  Cmp_refl : ∀ a, Cmp a a = 0;
  Cmp_flip : ∀ a b, Cmp a b ≤ 0 ↔ 0 ≤ Cmp b a;
  Cmp_trans : ∀ a b c, Cmp a b ≤ 0 → Cmp b c ≤ 0 → Cmp a c ≤ 0 }.

(** ** The shape the five [Apply] operations share *)
Inductive decision {Q} (k : Kind) :=
| Refuse (why : string)
| Keep (r : ApplyResult)
| Change (o : obj Q k).
Arguments Refuse {Q k}.
Arguments Keep {Q k}.
Arguments Change {Q k}.

Section Facts.
Context {Q K : Type} `{HQ : Quantities Q} `{HK : Kubernetes Q K} `{HL : !KubernetesLaws Q K}.
Implicit Types (s : K) (k : Kind) (spec : DeploymentSpec Q) (cms : ConfigMapSpec)
  (ps : PVCSpec Q) (ings : IngressSpec).

Definition same_objs s s' : Prop := ∀ k, objs k s' = objs k s.
Definition written k ns (o : obj Q k) s s' : Prop :=
  (∀ k', k' ≠ k → objs k' s' = objs k' s) ∧
  ∃ o', stored ns k o o' ∧ objs k s' = <[(ns, m_name (obj_meta o)) := o']> (objs k s).

Definition apply_skeleton k ns n (what : string) (desired : obj Q k)
    (decide : obj Q k → decision k) : SE string K ApplyResult :=
  let* got := inspect (Get k ns n) in
  match got with
  | Err e =>
      if ke_not_found e then
        let* _ := wrap ("create " +:+ what) (Create k ns desired) in ret created
      else fail ("get " +:+ what +:+ ": " +:+ ke_text e)
  | Ok existing =>
      match decide existing with
      | Refuse why => fail why
      | Keep r => ret r
      | Change o => let* _ := wrap ("update " +:+ what) (Update k ns o) in ret updated
      end
  end.

(** What an application did, from its result. *)
Inductive outcome k ns n (desired : obj Q k) (decide : obj Q k → decision k) s s'
    : result string ApplyResult → Prop :=
| failed e : same_objs s s' → outcome k ns n desired decide s s' (Err e)
| kept o r :
    same_objs s s' → objs k s !! (ns, n) = Some o → decide o = Keep r →
    outcome k ns n desired decide s s' (Ok r)
| did_create r :
    objs k s !! (ns, n) = None → written k ns desired s s' → r = Ok created ∨ is_ok r = false →
    outcome k ns n desired decide s s' r
| did_change o o1 r :
    objs k s !! (ns, n) = Some o → decide o = Change o1 → written k ns o1 s s' →
    r = Ok updated ∨ is_ok r = false →
    outcome k ns n desired decide s s' r.

Lemma same_objs_trans s1 s2 s3 : same_objs s1 s2 → same_objs s2 s3 → same_objs s1 s3.
Proof. intros H1 H2 k. by rewrite H2, H1. Qed.
Lemma written_after k ns o s s1 s' : same_objs s s1 → written k ns o s1 s' → written k ns o s s'.
Proof.
  intros Hs [Hk (o' & Ho & Hw)]. split.
  - intros k' Hne. by rewrite Hk, Hs.
  - exists o'. by rewrite Hw, Hs.
Qed.

Lemma get_then {A} k ns n (f : result kube_error (obj Q k) → SE string K A) s r s' :
  bind (inspect (Get k ns n)) f s = (r, s') →
  ∃ got s1, same_objs s s1 ∧ f got s1 = (r, s') ∧
    match got with
    | Ok o => objs k s !! (ns, n) = Some o
    | Err e => ke_not_found e = true → objs k s !! (ns, n) = None
    end ∧ Get k ns n s = (got, s1).
Proof.
  unfold bind, inspect. destruct (Get k ns n s) as [got s1] eqn:Hg.
  pose proof Hg as [Hs Hgot]%law_Get. intros Hf. by exists got, s1.
Qed.

Lemma write_then {A} k ns o context (call : SE kube_error K A) (a : ApplyResult) s r s' :
  (∀ s1 r1 s2, call s1 = (r1, s2) →
     is_ok r1 = false ∧ same_objs s1 s2 ∨ written k ns o s1 s2) →
  bind (wrap context call) (λ _, ret a) s = (r, s') →
  (∃ e, r = Err e) ∧ same_objs s s' ∨ written k ns o s s' ∧ (r = Ok a ∨ is_ok r = false).
Proof.
  intros Hcall. unfold bind, wrap. destruct (call s) as [[x|e] s1] eqn:Hc;
    apply Hcall in Hc; intros [= <- <-].
  - destruct Hc as [[? _]|Hw]; [done|]. right. by split; [|left].
  - destruct Hc as [[_ Hs]|Hw]; [left; split; [by eexists|done]|right; by split; [|right]].
Qed.

Lemma Create_writes k ns o s1 r1 s2 :
  Create k ns o s1 = (r1, s2) → is_ok r1 = false ∧ same_objs s1 s2 ∨ written k ns o s1 s2.
Proof. intros [?|(? & _ & ?)]%law_Create; [by left|by right]. Qed.
Lemma Update_writes k ns o s1 r1 s2 :
  Update k ns o s1 = (r1, s2) → is_ok r1 = false ∧ same_objs s1 s2 ∨ written k ns o s1 s2.
Proof. intros [?|(? & _ & ?)]%law_Update; [by left|by right]. Qed.

Lemma apply_skeleton_spec k ns n what desired decide s r s' :
  apply_skeleton k ns n what desired decide s = (r, s') →
  outcome k ns n desired decide s s' r.
Proof.
  intros (got & s1 & Hs & Hf & Hgot & _)%get_then. destruct got as [o|e].
  - destruct (decide o) as [why|r0|o1] eqn:Hd.
    + injection Hf as <- <-. by constructor.
    + injection Hf as <- <-. by eapply kept.
    + apply (write_then k ns o1) in Hf; [|apply Update_writes].
      destruct Hf as [[[e ->] Hs2]|[Hw Hr]].
      * constructor. by eapply same_objs_trans.
      * eapply did_change; eauto using written_after.
  - destruct (ke_not_found e) eqn:Hn.
    + apply (write_then k ns desired) in Hf; [|apply Create_writes].
      destruct Hf as [[[e' ->] Hs2]|[Hw Hr]].
      * constructor. by eapply same_objs_trans.
      * eapply did_create; eauto using written_after.
    + injection Hf as <- <-. by constructor.
Qed.

(** ** The five applications, as decisions *)
Definition decide_deployment (m : Manager) spec (existing : obj Q KDeployment)
    : decision KDeployment :=
  let desired := desired_deployment m spec in
  if negb (needsUpdate existing desired (s_revision spec)) then Keep no_op
  else Change (Q := Q) (k := KDeployment) (kube.mkDeployment
    (with_meta (kube.dep_meta existing) (m_labels (kube.dep_meta desired))
       (m_annotations (kube.dep_meta desired)))
    (kube.dep_spec desired) (kube.dep_status existing)).

Definition decide_service (m : Manager) spec (port : Z) (existing : obj Q KService)
    : decision (Q := Q) KService :=
  let desired := desired_service m spec port in
  if negb match kube.svc_ports existing, kube.svc_ports desired with
          | e :: _, d :: _ => negb (kube.sp_port e =? kube.sp_port d)
          | _, _ => false
          end then Keep no_op
  else Change (Q := Q) (k := KService) (kube.mkService
    (with_meta (kube.svc_meta existing) (m_labels (kube.svc_meta desired))
       (m_annotations (kube.svc_meta existing)))
    (kube.svc_selector existing) (kube.svc_ports desired) (kube.svc_type existing)
    (kube.svc_cluster existing)).

Definition decide_configmap (m : Manager) cms (existing : obj Q KConfigMap)
    : decision (Q := Q) KConfigMap :=
  let desired := desired_configmap m cms in
  if negb (owned (kube.cm_meta existing)) then Refuse (refuse "update" "configmap" (cms_name cms))
  else if negb (configMapNeedsUpdate existing desired) then Keep no_op
  else Change (Q := Q) (k := KConfigMap) (kube.mkConfigMap
    (with_meta (kube.cm_meta existing) (m_labels (kube.cm_meta desired))
       (m_annotations (kube.cm_meta desired)))
    (kube.cm_data desired) (kube.cm_binary desired)).

Definition pvc_requests_after (existing : kube.PVC Q) ps : option (gmap string Q) :=
  if negb (IsZeroQuantity (ps_storage ps))
  then Some (<["storage"%string := ps_storage ps]> (default ∅ (kube.pvc_requests existing)))
  else kube.pvc_requests existing.
Definition decide_pvc (m : Manager) ps (existing : obj Q KPVC) : decision KPVC :=
  let desired := desired_pvc m ps in
  if negb (owned (kube.pvc_meta existing)) then Refuse (refuse "update" "pvc" (ps_name ps))
  else if pvcImmutableChanged existing ps then Keep immutable_skipped
  else if negb (pvcLegalDrift existing ps) then Keep no_op
  else Change (Q := Q) (k := KPVC) (kube.mkPVC
    (with_meta (kube.pvc_meta existing) (m_labels (kube.pvc_meta desired))
       (m_annotations (kube.pvc_meta desired)))
    (kube.pvc_modes existing) (kube.pvc_class existing) (kube.pvc_volume_mode existing)
    (pvc_requests_after existing ps) (kube.pvc_volume existing)).

Definition ingress_class_after (existing desired : kube.Ingress) : option string :=
  match kube.ing_class desired with Some c => Some c | None => kube.ing_class existing end.
Definition decide_ingress (m : Manager) ings (existing : obj Q KIngress)
    : decision (Q := Q) KIngress :=
  let desired := desired_ingress m ings in
  if negb (owned (kube.ing_meta existing)) then Refuse (refuse "update" "ingress" (is_name ings))
  else if negb (ingressNeedsUpdate existing desired) then Keep no_op
  else Change (Q := Q) (k := KIngress) (kube.mkIngress
    (with_meta (kube.ing_meta existing) (m_labels (kube.ing_meta desired))
       (m_annotations (kube.ing_meta desired)))
    (ingress_class_after existing desired) (kube.ing_rules desired) (kube.ing_tls desired)
    (kube.ing_status existing)).

(** Both sides make the same calls in the same order. *)
Ltac skeleton_eq :=
  unfold apply_skeleton, bind, inspect, ResourceName;
  match goal with |- context [Get ?k ?ns ?n ?s] => destruct (Get k ns n s) as [[?|?] ?] end;
  repeat match goal with |- context [if ?b then _ else _] => destruct b end; reflexivity.

Lemma ApplyDeployment_outcome m spec s r s' :
  ApplyDeployment m spec s = (r, s') →
  outcome KDeployment (namespace m) (s_slug spec) (desired_deployment m spec)
    (decide_deployment m spec) s s' r.
Proof.
  intros H. apply (apply_skeleton_spec _ _ _ "deployment"). rewrite <- H.
  unfold ApplyDeployment, decide_deployment. symmetry. skeleton_eq.
Qed.
Lemma ApplyService_outcome m spec port s r s' :
  s_port spec = Some port → ApplyService m spec s = (r, s') →
  outcome KService (namespace m) (s_slug spec) (desired_service m spec port : obj Q KService)
    (decide_service m spec port) s s' r.
Proof.
  intros Hp H. apply (apply_skeleton_spec _ _ _ "service"). rewrite <- H.
  unfold ApplyService, decide_service. rewrite Hp. symmetry. skeleton_eq.
Qed.
Lemma ApplyConfigMap_outcome m cms s r s' :
  ApplyConfigMap m cms s = (r, s') →
  outcome KConfigMap (in_namespace m (cms_namespace cms)) (cms_name cms)
    (desired_configmap m cms : obj Q KConfigMap) (decide_configmap m cms) s s' r.
Proof.
  intros H. apply (apply_skeleton_spec _ _ _ "configmap"). rewrite <- H.
  unfold ApplyConfigMap, decide_configmap. symmetry. skeleton_eq.
Qed.
Lemma ApplyPVC_outcome m ps s r s' :
  ApplyPVC m ps s = (r, s') →
  outcome KPVC (in_namespace m (ps_namespace ps)) (ps_name ps) (desired_pvc m ps)
    (decide_pvc m ps) s s' r.
Proof.
  intros H. apply (apply_skeleton_spec _ _ _ "pvc"). rewrite <- H.
  unfold ApplyPVC, decide_pvc, pvc_requests_after. symmetry. skeleton_eq.
Qed.
Lemma ApplyIngress_outcome m ings s r s' :
  ApplyIngress m ings s = (r, s') →
  outcome KIngress (in_namespace m (is_namespace ings)) (is_name ings)
    (desired_ingress m ings : obj Q KIngress) (decide_ingress m ings) s s' r.
Proof.
  intros H. apply (apply_skeleton_spec _ _ _ "ingress"). rewrite <- H.
  unfold ApplyIngress, decide_ingress, ingress_class_after. symmetry. skeleton_eq.
Qed.

(** ** Applications settle

    After a successful application, applying the same specification to the
    same objects changes nothing; a skipped immutable change stays skipped. *)
Definition settles (apply : SE string K ApplyResult) : Prop :=
  ∀ s r s', apply s = (Ok r, s') → ∀ s2 r2 s2', same_objs s' s2 → apply s2 = (r2, s2') →
  same_objs s2 s2' ∧
  (is_ok r2 = false ∨ r2 = Ok no_op ∨ r = immutable_skipped ∧ r2 = Ok r).

Lemma outcome_settles k ns n desired (decide : obj Q k → decision k) apply :
  (∀ s r s', apply s = (r, s') → outcome k ns n desired decide s s' r) →
  m_name (obj_meta desired) = n →
  (∀ o r, decide o = Keep r → r = no_op ∨ r = immutable_skipped) →
  (∀ o, stored ns k desired o → decide o = Keep no_op) →
  (∀ o o1, decide o = Change o1 →
     m_name (obj_meta o1) = m_name (obj_meta o) ∧
     ∀ o', stored ns k o1 o' → decide o' = Keep no_op) →
  settles apply.
Proof.
  intros Hout Hn Hkeep Hnew Hchange s r s' H s2 r2 s2' Hs H2.
  assert (Hnow : ∃ o r', objs k s2 !! (ns, n) = Some o ∧ decide o = Keep r' ∧
            (r' = no_op ∨ r' = immutable_skipped ∧ r' = r)).
  { apply Hout in H. rewrite (Hs k).
    inversion H as [|o r' Hsame Ho Hd|? Ho [_ (o' & Hst & ->)] _|o o1 ? Ho Hd [_ (o' & Hst & ->)] _];
      subst.
    - rewrite Hsame. exists o, r. split_and!; [done..|].
      destruct (Hkeep o r Hd); [by left|by right].
    - rewrite lookup_insert_eq. exists o', no_op. split_and!; [done| |by left]. by apply Hnew.
    - destruct (Hchange o o1 Hd) as [Hname Hst']. rewrite Hname.
      rewrite (law_names _ _ _ _ _ Ho), lookup_insert_eq.
      exists o', no_op. split_and!; [done| |by left]. by apply Hst'. }
  destruct Hnow as (o & r' & Ho & Hd & Hr').
  apply Hout in H2. inversion H2; subst; simplify_eq/=.
  - split; [done|by left].
  - split; [done|right]. destruct Hr' as [->|[-> <-]]; [left|right; split; [done|]]; congruence.
  - congruence.
Qed.

Lemma needsUpdate_stored m spec ns (asked : obj Q KDeployment) o :
  stored ns KDeployment asked o →
  m_annotations (kube.dep_meta asked) = deployment_annotations spec →
  kube.dep_spec asked = kube.dep_spec (desired_deployment m spec) →
  needsUpdate o (desired_deployment m spec) (s_revision spec) = false.
Proof.
  intros [(_ & _ & _ & Ha) [Hr Hi]] Ha' Hs. unfold needsUpdate, index.
  rewrite Hs in Hr, Hi. simpl in *. rewrite Ha, Ha'.
  unfold deployment_annotations. rewrite lookup_insert_ne, lookup_singleton_eq by done. simpl.
  rewrite String.eqb_refl. simpl. rewrite (Hr _ eq_refl), Z.eqb_refl.
  destruct (kube.Containers (kube.dep_spec o)) as [|c l]; [done|]. simpl in *. simplify_eq.
  by rewrite H, String.eqb_refl.
Qed.
Lemma ApplyDeployment_settles m spec : settles (ApplyDeployment m spec).
Proof.
  eapply outcome_settles; [apply ApplyDeployment_outcome|done|..]; unfold decide_deployment.
  - intros o r. case_match; [|done]. intros [= <-]. by left.
  - intros o Ho. by erewrite needsUpdate_stored.
  - intros o o1. case_match; [done|]. intros [= <-]. split; [done|].
    intros o' Ho'. by erewrite needsUpdate_stored.
Qed.

Lemma ApplyService_settles m spec : settles (ApplyService m spec).
Proof.
  destruct (s_port spec) as [port|] eqn:Hp.
  2: { intros s r s' H s2 r2 s2' Hs. unfold ApplyService in *. rewrite Hp in *.
       intros [= <- <-]. split; [done|]. auto. }
  eapply outcome_settles; [intros ???; exact (ApplyService_outcome m spec port _ _ _ Hp)|done|..];
    unfold decide_service.
  - intros o r. case_match; [|done]. intros [= <-]. by left.
  - intros o [_ Ho]. simpl in *. rewrite <- Ho. by rewrite Z.eqb_refl.
  - intros o o1. case_match; [done|]. intros [= <-]. split; [done|].
    intros o' [_ Ho]. simpl in *. rewrite <- Ho. by rewrite Z.eqb_refl.
Qed.

Lemma managed_owned meta extra deployment app_name slug :
  m_labels meta = managed_labels extra deployment app_name slug → owned meta = true.
Proof.
  intros Hl. unfold owned, index, managed_labels in *. rewrite Hl.
  destruct (negb (String.eqb slug "")); [rewrite lookup_insert_ne by done|];
    rewrite !lookup_insert_ne, lookup_insert_eq by done; apply String.eqb_refl.
Qed.

Lemma configmap_kept m cms o ns (asked : obj Q KConfigMap) :
  stored ns KConfigMap asked o →
  m_labels (kube.cm_meta asked) = ConfigMapSpec_managedLabels cms →
  m_annotations (kube.cm_meta asked) = cms_annotations cms →
  kube.cm_data asked = cms_data cms → kube.cm_binary asked = cms_binary cms →
  decide_configmap m cms o = Keep no_op.
Proof.
  intros [(_ & _ & Hl & Ha) [Hd Hb]] Hl' Ha' Hd' Hb'. unfold decide_configmap. simpl in *.
  rewrite (managed_owned _ (cms_labels cms) (cms_deployment cms) (cms_app_name cms) (cms_slug cms))
    by (by rewrite Hl, Hl').
  simpl. rewrite (proj2 (configMapNeedsUpdate_false _ _)); [done|]. simpl.
  by rewrite <- Hd, <- Hb, Hl, Ha.
Qed.
Lemma ApplyConfigMap_settles m cms : settles (ApplyConfigMap m cms).
Proof.
  eapply outcome_settles; [apply ApplyConfigMap_outcome|done|..].
  - intros o r. unfold decide_configmap. repeat case_match; try done. intros [= <-]. by left.
  - intros o Ho. by eapply configmap_kept.
  - intros o o1. unfold decide_configmap at 1. repeat case_match; try done. intros [= <-].
    split; [done|]. intros o' Ho'. by eapply configmap_kept.
Qed.

Lemma ingress_kept m ings o ns (asked : obj Q KIngress) :
  stored ns KIngress asked o →
  m_labels (kube.ing_meta asked) = IngressSpec_managedLabels ings →
  m_annotations (kube.ing_meta asked) = is_annotations ings →
  (∀ c, is_class ings = Some c → kube.ing_class asked = Some c) →
  kube.ing_rules asked = buildRules ings → kube.ing_tls asked = buildTLS ings →
  decide_ingress m ings o = Keep no_op.
Proof.
  intros [(_ & _ & Hl & Ha) (Hc & Hr & Ht)] Hl' Ha' Hc' Hr' Ht'. unfold decide_ingress. simpl in *.
  rewrite (managed_owned _ (is_labels ings) (is_deployment ings) (is_app_name ings) (is_slug ings))
    by (by rewrite Hl, Hl').
  simpl. unfold ingressNeedsUpdate. simpl.
  rewrite Hl, Hl', Ha, Ha', !bool_decide_eq_true_2 by done. simpl.
  rewrite <- Hr, <- Ht, Hr', Ht', ingressRulesEqual_refl, ingressTLSEqual_refl. simpl.
  destruct (is_class ings) as [c|]; [|done]. rewrite (Hc c) by by apply Hc'.
  by rewrite String.eqb_refl.
Qed.
Lemma ApplyIngress_settles m ings : settles (ApplyIngress m ings).
Proof.
  eapply outcome_settles; [apply ApplyIngress_outcome|done|..].
  - intros o r. unfold decide_ingress. repeat case_match; try done. intros [= <-]. by left.
  - intros o Ho. by eapply ingress_kept.
  - intros o o1. unfold decide_ingress at 1. repeat case_match; try done. intros [= <-].
    split; [done|]. intros o' Ho'. eapply ingress_kept; try done.
    intros c Hc. simpl. unfold ingress_class_after. simpl. by rewrite Hc.
Qed.

Context `{HQL : !QuantityLaws Q}.

(** The live claim has everything the specification asks for. *)
Lemma pvc_kept m ps o :
  m_labels (kube.pvc_meta o) = PVCSpec_managedLabels ps →
  m_annotations (kube.pvc_meta o) = ps_annotations ps →
  (ps_modes ps ≠ [] → kube.pvc_modes o ≡ₚ ps_modes ps) →
  (∀ c, ps_class ps = Some c → default "" (kube.pvc_class o) = c) →
  (∀ v, ps_volume_mode ps = Some v → default "" (kube.pvc_volume_mode o) = v) →
  (IsZeroQuantity (ps_storage ps) = false → existingStorage o = ps_storage ps) →
  decide_pvc m ps o = Keep no_op.
Proof.
  intros Hl Ha Hm Hc Hv Hs. unfold decide_pvc.
  rewrite (managed_owned _ (ps_labels ps) (ps_deployment ps) (ps_app_name ps) (ps_slug ps))
    by done. simpl.
  assert (Hi : pvcImmutableChanged o ps = false).
  { unfold pvcImmutableChanged.
    destruct (ps_modes ps) as [|x l]; simpl;
      [|rewrite (proj2 (accessModesEqual_iff _ _)) by (by apply Hm); simpl].
    all: destruct (ps_class ps) as [c|];
      [rewrite (Hc c), String.eqb_refl by done; simpl|].
    all: destruct (ps_volume_mode ps) as [v|];
      [rewrite (Hv v), String.eqb_refl by done; simpl|].
    all: destruct (IsZeroQuantity (ps_storage ps)); simpl; [done|].
    all: by rewrite Hs, Cmp_refl. }
  rewrite Hi. unfold pvcLegalDrift. rewrite Hl, Ha, !bool_decide_eq_true_2 by done. simpl.
  destruct (IsZeroQuantity (ps_storage ps)) eqn:Hz; simpl; [done|]. by rewrite Hs, Cmp_refl.
Qed.

Lemma pvcImmutableChanged_false (o : kube.PVC Q) ps :
  pvcImmutableChanged o ps = false →
  (ps_modes ps ≠ [] → kube.pvc_modes o ≡ₚ ps_modes ps) ∧
  (∀ c, ps_class ps = Some c → default "" (kube.pvc_class o) = c) ∧
  (∀ v, ps_volume_mode ps = Some v → default "" (kube.pvc_volume_mode o) = v) ∧
  (IsZeroQuantity (ps_storage ps) = false → Cmp (existingStorage o) (ps_storage ps) ≤ 0).
Proof.
  unfold pvcImmutableChanged. destruct (_ && _) eqn:Hm; [done|].
  destruct (match ps_class ps with Some _ => _ | None => _ end) eqn:Hc; [done|].
  destruct (match ps_volume_mode ps with Some _ => _ | None => _ end) eqn:Hv; [done|].
  intros Hs. split_and!.
  - intros Hne. apply accessModesEqual_iff. destruct (ps_modes ps); [done|].
    by apply negb_false_iff in Hm.
  - intros c Hc'. rewrite Hc' in Hc. by apply negb_false_iff, String.eqb_eq in Hc.
  - intros v Hv'. rewrite Hv' in Hv. by apply negb_false_iff, String.eqb_eq in Hv.
  - intros Hz. rewrite Hz in Hs. simpl in Hs. apply Z.ltb_ge in Hs.
    by apply Cmp_flip.
Qed.

Lemma storage_after (o o' : kube.PVC Q) ps :
  pvc_requests_after o ps = kube.pvc_requests o' →
  existingStorage o' =
    if IsZeroQuantity (ps_storage ps) then existingStorage o else ps_storage ps.
Proof.
  unfold existingStorage, pvc_requests_after. intros <-.
  destruct (IsZeroQuantity (ps_storage ps)); simpl; [done|]. by rewrite lookup_insert_eq.
Qed.

(** An explicitly empty class or volume mode asks for nothing the server keeps. *)
Lemma ApplyPVC_settles m ps :
  ps_class ps ≠ Some "" → ps_volume_mode ps ≠ Some "" → settles (ApplyPVC m ps).
Proof.
  intros Hc0 Hv0. eapply outcome_settles; [apply ApplyPVC_outcome|done|..].
  - intros o r. unfold decide_pvc. repeat case_match; try done; intros [= <-]; auto.
  - intros o [(_ & _ & Hl & Ha) (Hm & Hc & Hv & Hr)]. simpl in *. apply pvc_kept; [done|done|..].
    + by intros Hne%Hm; rewrite Hne.
    + by intros c ->%Hc.
    + by intros v ->%Hv.
    + intros Hz. unfold existingStorage. rewrite <- Hr. unfold storage_requests. rewrite Hz. simpl.
      by rewrite lookup_singleton_eq.
  - intros o o1. unfold decide_pvc at 1. destruct (negb (owned _)); [done|].
    destruct (pvcImmutableChanged o ps) eqn:Hi; [done|]. destruct (negb _); [done|].
    intros [= <-]. split; [done|]. apply pvcImmutableChanged_false in Hi as (Hm & Hc & Hv & _).
    intros o' [(_ & _ & Hl & Ha) (Hm' & Hc' & Hv' & Hr)]. simpl in *.
    apply pvc_kept; [done|done|..].
    + intros Hne. specialize (Hm Hne). rewrite Hm'; [done|].
      intros Heq. rewrite Heq in Hm. by apply Permutation_nil in Hm.
    + intros c Hs. specialize (Hc c Hs). destruct (kube.pvc_class o) as [x|]; simpl in Hc; subst.
      * by rewrite (Hc' _ eq_refl).
      * by destruct Hc0.
    + intros c Hs. specialize (Hv c Hs). destruct (kube.pvc_volume_mode o) as [x|];
        simpl in Hv; subst.
      * by rewrite (Hv' _ eq_refl).
      * by destruct Hv0.
    + intros Hz. rewrite (storage_after _ _ _ Hr). by rewrite Hz.
Qed.
End Facts.
