(* ===== verification/Reconciler.v ===== *)
(** * The reconciliation engine of the agent

    agents/platform-agent/internal/reconciler/reconciler.go: one cycle fetches
    the desired state, applies every deployment with its config maps, volume
    claims and ingresses, reports statuses and rollout progress, and deletes
    what is no longer desired.  The two interfaces of the file are classes on
    an outside world [W]; [Manager] implements the first.  Logs, spans and
    durations are left out, counters are kept; a panic ends the cycle. *)

From S2P Require Import Prelude Json AppErrors Events Domain Effects ControlPlane K8s Manager.
From S2P Require Import Rollout.
Open Scope Z_scope.
Open Scope se_scope.

Abbreviation Desired := controlplane_DesiredDeployment.

(** ** The interfaces *)
Class ResourceManager (Q W : Type) := {
  rm_ApplyDeployment : DeploymentSpec Q → SE string W ApplyResult;
  rm_ApplyService : DeploymentSpec Q → SE string W ApplyResult;
  rm_GetDeploymentStatus : string → SE string W (option DeploymentStatus);
  rm_GetPodHealth : string → SE string W (option PodHealth);
  rm_DeleteDeployment : string → SE string W unit;
  rm_ListManagedDeployments : SE string W (list string);
  rm_ApplyConfigMap : ConfigMapSpec → SE string W ApplyResult;
  rm_DeleteConfigMap : string → SE string W unit;
  rm_ListManagedConfigMaps : SE string W (list string);
  rm_ApplyPVC : PVCSpec Q → SE string W ApplyResult;
  rm_DeletePVC : string → SE string W unit;
  rm_ListManagedPVCs : SE string W (list string);
  rm_ApplyIngress : IngressSpec → SE string W ApplyResult;
  rm_DeleteIngress : string → SE string W unit;
  rm_ListManagedIngresses : SE string W (list string) }.

Class DeploymentClient (W : Type) := {
  dc_GetDesiredState : AgentCredentials → SE client_error W (list Desired);
  dc_ReportDeploymentStatusWithCreds :
    AgentCredentials → string → string → DeploymentStatusRequest → SE client_error W unit;
  dc_ReportDeploymentProgressWithCreds :
    AgentCredentials → string → string → DeploymentProgressRequest → SE client_error W unit }.

(** ** State *)
Record ReconcilerState := mkRState {
  AppliedRevisions : gmap string Z; ReportedStatuses : gmap string string;
  ReportedProgress : gmap string string }.
Definition fresh_state : ReconcilerState := mkRState ∅ ∅ ∅.

(** The state file: [ReadFile] and [WriteFile] on the configured path, and the
    JSON of the state ([json.Unmarshal] decodes into the given state, which it
    may have changed when it reports an error). *)
Class StateFile (W : Type) := {
  ReadFile : SE read_error W string;
  WriteFile : string → SE string W unit;
  MarshalState : ReconcilerState → string;
  UnmarshalState : string → ReconcilerState → option string * ReconcilerState }.

Inductive Metric :=
| ReconcileSkipped
| ConfigMapApply | ConfigMapDrift | ConfigMapDelete
| PVCApply | PVCDrift | PVCImmutableChange | PVCDelete
| IngressApply | IngressDrift | IngressDelete.

(** [IsLeader] is [None] without leader election. *)
Record Config (W : Type) := mkRConfig {
  rc_creds : AgentCredentials; IsLeader : option (W → bool) }.
Arguments mkRConfig {W}.
Arguments rc_creds {W}.
Arguments IsLeader {W}.

(** The running reconciler: its state, its counters, and the world. *)
Record RW (W : Type) := mkRW { r_state : ReconcilerState; r_metrics : list Metric; r_world : W }.
Arguments mkRW {W}.
Arguments r_state {W}.
Arguments r_metrics {W}.
Arguments r_world {W}.

Inductive panic := Panicked.

Record Seen := mkSeen {
  seen_deployments : gset string; seen_configmaps : gset string;
  seen_pvcs : gset string; seen_ingresses : gset string }.
Definition nothing_seen : Seen := mkSeen ∅ ∅ ∅ ∅.

Section Reconciler.
Context {Q W : Type} `{HQ : Quantities Q} `{RM : ResourceManager Q W} `{DC : DeploymentClient W}.
Context (cfg : Config W).
Local Abbreviation R := (SE panic (RW W)).
Implicit Types d : Desired.

(** A call to the outside, its error being a value. *)
Definition call {E A} (m : SE E W A) : R (result E A) := λ r,
  let '(x, w) := m (r_world r) in (Ok x, mkRW (r_state r) (r_metrics r) w).
Definition Inc (c : Metric) : R unit :=
  modify (λ r, mkRW (r_state r) (r_metrics r ++ [c]) (r_world r)).
Definition update_state (f : ReconcilerState → ReconcilerState) : R unit :=
  modify (λ r, mkRW (f (r_state r)) (r_metrics r) (r_world r)).

Definition set_applied (id : string) (revision : Z) (st : ReconcilerState) : ReconcilerState :=
  mkRState (<[id := revision]> (AppliedRevisions st)) (ReportedStatuses st) (ReportedProgress st).
Definition set_status (release status : string) (st : ReconcilerState) : ReconcilerState :=
  mkRState (AppliedRevisions st) (<[release := status]> (ReportedStatuses st))
    (ReportedProgress st).
Definition set_progress (release key : string) (st : ReconcilerState) : ReconcilerState :=
  mkRState (AppliedRevisions st) (ReportedStatuses st) (<[release := key]> (ReportedProgress st)).

(** ** Reports *)
Definition status_request (status : string) (readyReplicas : Z) (errorMsg : string)
    : DeploymentStatusRequest :=
  mkStatusReq status (if 0 <? readyReplicas then Some readyReplicas else None)
    (if negb (String.eqb errorMsg "") then Some errorMsg else None).

Definition reportStatus d (status : string) (readyReplicas : Z) (errorMsg : string) : R unit :=
  let* sent := call (dc_ReportDeploymentStatusWithCreds (rc_creds cfg) (cpd_id d) (cpd_release d)
                       (status_request status readyReplicas errorMsg)) in
  match sent with
  | Err _ => ret tt
  | Ok _ => update_state (set_status (cpd_release d) status)
  end.

Definition snapshot (status : DeploymentStatus) (podIssue : string) : Snapshot :=
  mkSnapshot true (int32 (ds_desired status)) (int32 (ds_ready_replicas status))
    (int32 (ds_updated status)) (int32 (ds_available status)) (int32 (ds_unavailable status))
    (ds_generation status) (ds_observed status) (ds_deadline_exceeded status)
    (ds_replica_failure status) podIssue.

Definition progress_key (snap : Snapshot) : string :=
  DerivePhase snap +:+ "|" +:+ GoStrings.Itoa (Percentage snap).

Definition progress_error (phase podIssue podMessage : string) (status : DeploymentStatus)
    : string :=
  if String.eqb phase PhaseFailed then
    if negb (String.eqb podMessage "") then podMessage
    else if negb (String.eqb (ds_failure_message status) "") then ds_failure_message status
    else if negb (String.eqb podIssue "") then podIssue
    else ""
  else "".

Definition progress_request d (status : DeploymentStatus) (snap : Snapshot) (podMessage : string)
    : DeploymentProgressRequest :=
  mkProgressReq (DerivePhase snap) (cpd_revision d) (ds_image status) (Percentage snap)
    (IsTimeout snap) (ds_desired status) (ds_ready_replicas status) (ds_updated status)
    (ds_available status) (ds_unavailable status) (ds_observed status)
    ((λ c, mkCondDTO (kube.c_type c) (kube.c_status c) (kube.c_reason c) (kube.c_message c)) <$>
       ds_conditions status)
    (progress_error (DerivePhase snap) (PodIssue snap) podMessage status).

Definition reportProgress d (spec : DeploymentSpec Q) (status : DeploymentStatus) : R unit :=
  let* ph := call (rm_GetPodHealth (s_slug spec)) in
  let '(podIssue, podMessage) :=
    match ph with
    | Ok (Some ph) => (ph_issue ph, ph_message ph)
    | _ => (""%string, ""%string)
    end in
  let snap := snapshot status podIssue in
  let key := progress_key snap in
  let* last := read (λ r, index (ReportedProgress (r_state r)) (cpd_release d)) in
  if String.eqb last key then ret tt
  else
    let* sent := call (dc_ReportDeploymentProgressWithCreds (rc_creds cfg) (cpd_id d)
                         (cpd_release d) (progress_request d status snap podMessage)) in
    match sent with
    | Err _ => ret tt
    | Ok _ => update_state (set_progress (cpd_release d) key)
    end.

(** ** Config maps, volume claims and ingresses *)
Definition reconcileConfigMap d (cm : DesiredConfigMap) : R unit :=
  if String.eqb (dcm_name cm) "" then ret tt
  else
    let* result := call (rm_ApplyConfigMap (FromDesiredConfigMap d cm)) in
    match result with
    | Err _ => ret tt
    | Ok res =>
        if Created res then Inc ConfigMapApply
        else if Updated res then Inc ConfigMapApply ;; Inc ConfigMapDrift
        else ret tt
    end.
Definition reconcileConfigMaps d : R unit := for_each (reconcileConfigMap d) (cpd_configmaps d).

Definition reconcilePVC d (pvc : DesiredPVC) : R unit :=
  if String.eqb (dpvc_name pvc) "" then ret tt
  else
    match FromDesiredPVC d pvc with
    | Err _ => ret tt
    | Ok spec =>
        let* result := call (rm_ApplyPVC spec) in
        match result with
        | Err _ => ret tt
        | Ok res =>
            if Created res then Inc PVCApply
            else if Updated res then Inc PVCApply ;; Inc PVCDrift
            else if ImmutableSkipped res then Inc PVCImmutableChange
            else ret tt
        end
    end.
Definition reconcilePVCs d : R unit := for_each (reconcilePVC d) (cpd_pvcs d).

Definition reconcileIngress d (ing : DesiredIngress) : R unit :=
  if String.eqb (ding_name ing) "" then ret tt
  else
    let* result := call (rm_ApplyIngress (FromDesiredIngress d ing)) in
    match result with
    | Err _ => ret tt
    | Ok res =>
        if Created res then Inc IngressApply
        else if Updated res then Inc IngressApply ;; Inc IngressDrift
        else ret tt
    end.
Definition reconcileIngresses d : R unit := for_each (reconcileIngress d) (cpd_ingresses d).

(** ** One deployment *)
Definition one_of_reported (s : string) : bool :=
  String.eqb s CPStatusDeploying || String.eqb s CPStatusSucceeded || String.eqb s CPStatusFailed.

(** What follows the applications: the status in the cluster is read and
    reported. *)
Definition observe_deployment d (spec : DeploymentSpec Q) (appliedRev : Z)
    (reportedStatus : string) : R (option string) :=
  let* got := call (rm_GetDeploymentStatus (ResourceName spec)) in
  match got with
  | Err _ | Ok None => ret None
  | Ok (Some status) =>
      (if negb (String.eqb (ds_revision status) "") && (appliedRev <? cpd_revision d)
       then update_state (set_applied (cpd_id d) (cpd_revision d)) else ret tt) ;;
      reportProgress d spec status ;;
      (if ds_ready status && negb (String.eqb reportedStatus CPStatusSucceeded)
       then reportStatus d CPStatusSucceeded (ds_ready_replicas status) ""
       else if ds_failed status && negb (String.eqb reportedStatus CPStatusFailed)
       then reportStatus d CPStatusFailed 0 (ds_failure_message status)
       else ret tt) ;;
      ret None
  end.

(** The result is the error the caller logs, if any. *)
Definition reconcileDeployment d (spec : DeploymentSpec Q) : R (option string) :=
  let* appliedRev := read (λ r, default 0 (AppliedRevisions (r_state r) !! cpd_id d)) in
  let* reportedStatus := read (λ r, index (ReportedStatuses (r_state r)) (cpd_release d)) in
  reconcileConfigMaps d ;;
  reconcilePVCs d ;;
  let* depResult := call (rm_ApplyDeployment spec) in
  match depResult with
  | Err e =>
      (if negb (String.eqb reportedStatus CPStatusFailed)
       then reportStatus d CPStatusFailed 0 e else ret tt) ;;
      ret (Some ("apply deployment: " +:+ e)%string)
  | Ok depResult =>
      let* _ := call (rm_ApplyService spec) in
      reconcileIngresses d ;;
      (if Created depResult || Updated depResult then
         if negb (one_of_reported reportedStatus)
         then reportStatus d CPStatusDeploying 0 "" else ret tt
       else ret tt) ;;
      observe_deployment d spec appliedRev reportedStatus
  end.

(** ** Garbage collection *)
Definition cleanupOrphanedDeployments (desiredNames : gset string) : R (option string) :=
  let* managed := call rm_ListManagedDeployments in
  match managed with
  | Err e => ret (Some ("list managed deployments: " +:+ e)%string)
  | Ok managed =>
      for_each (λ name,
        if bool_decide (name ∈ desiredNames) then ret tt
        else let* _ := call (rm_DeleteDeployment name) in ret tt) managed ;;
      ret None
  end.

(** The three other collectors count what they delete. *)
Definition delete_orphans (delete : string → SE string W unit) (c : Metric)
    (desired : gset string) (managed : list string) : R unit :=
  for_each (λ name,
    if bool_decide (name ∈ desired) then ret tt
    else
      let* deleted := call (delete name) in
      match deleted with Err _ => ret tt | Ok _ => Inc c end) managed.
Definition cleanupOrphanedConfigMaps (desired : gset string) : R (option string) :=
  let* managed := call rm_ListManagedConfigMaps in
  match managed with
  | Err e => ret (Some ("list managed configmaps: " +:+ e)%string)
  | Ok managed => delete_orphans rm_DeleteConfigMap ConfigMapDelete desired managed ;; ret None
  end.
Definition cleanupOrphanedPVCs (desired : gset string) : R (option string) :=
  let* managed := call rm_ListManagedPVCs in
  match managed with
  | Err e => ret (Some ("list managed pvcs: " +:+ e)%string)
  | Ok managed => delete_orphans rm_DeletePVC PVCDelete desired managed ;; ret None
  end.
Definition cleanupOrphanedIngresses (desired : gset string) : R (option string) :=
  let* managed := call rm_ListManagedIngresses in
  match managed with
  | Err e => ret (Some ("list managed ingresses: " +:+ e)%string)
  | Ok managed => delete_orphans rm_DeleteIngress IngressDelete desired managed ;; ret None
  end.

(** ** The state file *)
Context `{SF : StateFile W}.
Definition loadState : R (option string) :=
  let* data := call ReadFile in
  match data with
  | Err NotExist => ret None
  | Err (ReadFailed e) => ret (Some e)
  | Ok data =>
      let* st := read r_state in
      let '(err, st') := UnmarshalState data st in
      update_state (λ _, st') ;; ret err
  end.
Definition saveState : R (option string) :=
  let* st := read r_state in
  let* written := call (WriteFile (MarshalState st)) in
  match written with Err e => ret (Some e) | Ok _ => ret None end.
Definition Flush : R (option string) := saveState.
Definition State (r : RW W) : ReconcilerState :=
  mkRState (AppliedRevisions (r_state r)) (ReportedStatuses (r_state r))
    (ReportedProgress (r_state r)).

(** ** A cycle *)
Definition see d (slug : string) (seen : Seen) : Seen :=
  mkSeen ({[slug]} ∪ seen_deployments seen)
    (list_to_set (dcm_name <$> cpd_configmaps d) ∪ seen_configmaps seen)
    (list_to_set (dpvc_name <$> cpd_pvcs d) ∪ seen_pvcs seen)
    (list_to_set (ding_name <$> cpd_ingresses d) ∪ seen_ingresses seen).

Fixpoint reconcile_all (seen : Seen) (desired : list Desired) : R Seen :=
  match desired with
  | [] => ret seen
  | d :: rest =>
      if String.eqb (cpd_status d) "deleted" then reconcile_all seen rest
      else
        match FromDesiredDeployment d with
        | None => fail Panicked
        | Some spec =>
            let* _ := reconcileDeployment d spec in
            reconcile_all (see d (ResourceName spec) seen) rest
        end
  end.

Definition cleanup (seen : Seen) : R unit :=
  let* _ := cleanupOrphanedDeployments (seen_deployments seen) in
  let* _ := cleanupOrphanedConfigMaps (seen_configmaps seen) in
  let* _ := cleanupOrphanedPVCs (seen_pvcs seen) in
  let* _ := cleanupOrphanedIngresses (seen_ingresses seen) in
  ret tt.

Definition is_leader : R bool :=
  read (λ r, match IsLeader cfg with Some f => f (r_world r) | None => true end).

Definition reconcile : R unit :=
  let* leader := is_leader in
  if negb leader then Inc ReconcileSkipped
  else
    let* desired := call (dc_GetDesiredState (rc_creds cfg)) in
    match desired with
    | Err _ => ret tt
    | Ok desired =>
        let* seen := reconcile_all nothing_seen desired in
        cleanup seen ;;
        let* _ := saveState in
        ret tt
    end.

(** [Run]: the persisted state, one cycle, then one per tick until cancelled. *)
Definition Run (ticks : nat) : R unit :=
  let* _ := loadState in
  reconcile ;;
  for_each (λ _, reconcile) (seq 0 ticks).
End Reconciler.

(** ** The manager is a resource manager *)
#[export] Instance manager_ResourceManager {Q K} `{Quantities Q} `{Kubernetes Q K} (m : Manager)
    : ResourceManager Q K := {
  rm_ApplyDeployment := ApplyDeployment m;
  rm_ApplyService := ApplyService m;
  rm_GetDeploymentStatus := GetDeploymentStatus m;
  rm_GetPodHealth := λ slug, bind (GetPodHealth m slug) (λ h, ret (Some h));
  rm_DeleteDeployment := DeleteDeployment m;
  rm_ListManagedDeployments := ListManagedDeployments m;
  rm_ApplyConfigMap := ApplyConfigMap m;
  rm_DeleteConfigMap := DeleteConfigMap m;
  rm_ListManagedConfigMaps := ListManagedConfigMaps m;
  rm_ApplyPVC := ApplyPVC m;
  rm_DeletePVC := DeletePVC m;
  rm_ListManagedPVCs := ListManagedPVCs m;
  rm_ApplyIngress := ApplyIngress m;
  rm_DeleteIngress := DeleteIngress m;
  rm_ListManagedIngresses := ListManagedIngresses m }.
