(* ===== verification/ReconcilerFacts.v ===== *)
(** * Facts about the reconciler

    A cycle moves the world along any preorder its calls move it along
    ([respects]); the relation [cycle_rel], on the cluster, is one: config
    maps, volume claims and ingresses of others are never touched, claims keep
    what is immutable, and only undeclared objects of the platform go. *)

From S2P Require Import Prelude Json AppErrors Events Domain Effects ControlPlane K8s Manager.
From S2P Require Import ManagerFacts Rollout Reconciler.
Open Scope Z_scope.
Open Scope se_scope.

(** ** What a cycle has seen *)
Definition active (d : Desired) : bool := negb (String.eqb (cpd_status d) "deleted").
Fixpoint seen_of (seen : Seen) (l : list Desired) : Seen :=
  match l with
  | [] => seen
  | d :: l' => seen_of (if active d then see d (cpd_app_slug d) seen else seen) l'
  end.
Definition declared (l : list Desired) : Seen := seen_of nothing_seen l.

Definition names_of (k : Kind) (seen : Seen) : gset string :=
  match k with
  | KDeployment | KService => seen_deployments seen
  | KConfigMap => seen_configmaps seen
  | KPVC => seen_pvcs seen
  | KIngress => seen_ingresses seen
  | KPod => ∅
  end.

(** The names of kind [k] the active deployment [d] declares. *)
Definition declares (k : Kind) (d : Desired) (n : string) : Prop :=
  match k with
  | KDeployment | KService => cpd_app_slug d = n
  | KConfigMap => n ∈ dcm_name <$> cpd_configmaps d
  | KPVC => n ∈ dpvc_name <$> cpd_pvcs d
  | KIngress => n ∈ ding_name <$> cpd_ingresses d
  | KPod => False
  end.
Lemma seen_of_spec k l : ∀ seen n, n ∈ names_of k (seen_of seen l) ↔
  n ∈ names_of k seen ∨ ∃ d, d ∈ l ∧ active d = true ∧ declares k d n.
Proof.
  induction l as [|d l IH]; intros seen n; simpl.
  { split; [by left|]. by intros [?|(d & ?%not_elem_of_nil & _)]. }
  assert (Hd : n ∈ names_of k (if active d then see d (cpd_app_slug d) seen else seen) ↔
            n ∈ names_of k seen ∨ active d = true ∧ declares k d n).
  { destruct (active d); [|by intuition].
    destruct k; simpl; rewrite ?elem_of_union, ?elem_of_singleton, ?elem_of_list_to_set;
      intuition congruence. }
  rewrite IH, Hd. setoid_rewrite elem_of_cons. naive_solver.
Qed.
Lemma declared_spec k l n :
  n ∈ names_of k (declared l) ↔ ∃ d, d ∈ l ∧ active d = true ∧ declares k d n.
Proof.
  unfold declared. rewrite seen_of_spec. split; [|by right].
  intros [Hn|?]; [|done]. destruct k; by apply not_elem_of_empty in Hn.
Qed.

Section Preservation.
Context {Q W : Type} `{HQ : Quantities Q} `{RM : !ResourceManager Q W} `{DC : !DeploymentClient W}
  `{SF : !StateFile W}.
Context (cfg : Config W).
Implicit Types (d : Desired) (l : list Desired).

Definition on_world (R0 : relation W) : relation (RW W) := λ r r', R0 (r_world r) (r_world r').
#[export] Instance on_world_preorder R0 : PreOrder R0 → PreOrder (on_world R0).
Proof.
  intros [H1 H2]. split; [intros r; apply H1|]. intros r1 r2 r3. apply H2.
Qed.

(** The calls a cycle on [l] makes move along [R0]. *)
Record respects l (R0 : relation W) : Prop := {
  rs_ApplyDeployment : ∀ spec, preserves R0 (rm_ApplyDeployment spec);
  rs_ApplyService : ∀ spec, preserves R0 (rm_ApplyService spec);
  rs_GetDeploymentStatus : ∀ n, preserves R0 (rm_GetDeploymentStatus n);
  rs_GetPodHealth : ∀ n, preserves R0 (rm_GetPodHealth n);
  rs_ListDeployments : preserves R0 rm_ListManagedDeployments;
  rs_ListConfigMaps : preserves R0 rm_ListManagedConfigMaps;
  rs_ListPVCs : preserves R0 rm_ListManagedPVCs;
  rs_ListIngresses : preserves R0 rm_ListManagedIngresses;
  rs_ApplyConfigMap : ∀ d cm, d ∈ l → active d = true → cm ∈ cpd_configmaps d →
    preserves R0 (rm_ApplyConfigMap (FromDesiredConfigMap d cm));
  rs_ApplyPVC : ∀ d pvc spec, d ∈ l → active d = true → pvc ∈ cpd_pvcs d →
    FromDesiredPVC d pvc = Ok spec → preserves R0 (rm_ApplyPVC spec);
  rs_ApplyIngress : ∀ d ing, d ∈ l → active d = true → ing ∈ cpd_ingresses d →
    preserves R0 (rm_ApplyIngress (FromDesiredIngress d ing));
  rs_DeleteDeployment : ∀ n, n ∉ seen_deployments (declared l) →
    preserves R0 (rm_DeleteDeployment n);
  rs_DeleteConfigMap : ∀ n, n ∉ seen_configmaps (declared l) →
    preserves R0 (rm_DeleteConfigMap n);
  rs_DeletePVC : ∀ n, n ∉ seen_pvcs (declared l) → preserves R0 (rm_DeletePVC n);
  rs_DeleteIngress : ∀ n, n ∉ seen_ingresses (declared l) → preserves R0 (rm_DeleteIngress n);
  rs_ReportStatus : ∀ d st n e, d ∈ l → active d = true → one_of_reported st = true →
    preserves R0 (dc_ReportDeploymentStatusWithCreds (rc_creds cfg) (cpd_id d) (cpd_release d)
                    (status_request st n e));
  rs_ReportProgress : ∀ d st issue msg, d ∈ l → active d = true →
    preserves R0 (dc_ReportDeploymentProgressWithCreds (rc_creds cfg) (cpd_id d) (cpd_release d)
                    (progress_request d st (snapshot st issue) msg));
  rs_WriteFile : ∀ data, preserves R0 (WriteFile data) }.

Context (R0 : relation W) `{HR : !PreOrder R0}.
Local Abbreviation PW m := (preserves (on_world R0) m).

Lemma preserves_call {E A} (m : SE E W A) : preserves R0 m → PW (call m).
Proof.
  intros Hm r. specialize (Hm (r_world r)). unfold call, on_world.
  by destruct (m (r_world r)).
Qed.
Lemma preserves_Inc c : PW (Inc c).
Proof. intros r. apply HR. Qed.
Lemma preserves_update f : PW (update_state f).
Proof. intros r. apply HR. Qed.
Lemma preserves_bind_value {A B} (m : SE panic (RW W) A) (k : A → SE panic (RW W) B)
    (P : A → Prop) :
  PW m → (∀ r a r', m r = (Ok a, r') → P a) → (∀ a, P a → PW (k a)) → PW (bind m k).
Proof.
  intros Hm HP Hk r. specialize (Hm r). unfold bind. destruct (m r) as [[a|e] r1] eqn:E; [|done].
  simpl in Hm. exact (PreOrder_Transitive _ _ _ Hm (Hk a (HP _ _ _ E) r1)).
Qed.
Lemma preserves_for_each_in {A} (f : A → SE panic (RW W) unit) (l : list A) :
  (∀ a, a ∈ l → PW (f a)) → PW (for_each f l).
Proof.
  induction l as [|a l IH]; intros Hf; simpl; [apply preserves_ret; apply _|].
  apply preserves_bind; [apply _|apply Hf; left|]. intros _. apply IH. intros b Hb. apply Hf. by right.
Qed.

Context (l : list Desired) (HL : respects l R0).
Hint Resolve preserves_call preserves_Inc preserves_update : preserves.
Hint Resolve rs_ApplyDeployment rs_ApplyService rs_GetDeploymentStatus rs_GetPodHealth
  rs_ListDeployments rs_ListConfigMaps rs_ListPVCs rs_ListIngresses rs_ApplyConfigMap rs_ApplyPVC
  rs_ApplyIngress rs_DeleteDeployment rs_DeleteConfigMap rs_DeletePVC rs_DeleteIngress
  rs_ReportStatus rs_ReportProgress rs_WriteFile : preserves.

Lemma preserves_reportStatus d st n e :
  d ∈ l → active d = true → one_of_reported st = true → PW (reportStatus cfg d st n e).
Proof. intros Hd Ha Hst. unfold reportStatus. solve_preserves. Qed.
Hint Extern 1 (preserves _ (reportStatus _ _ _ _ _)) =>
  apply preserves_reportStatus; [assumption|assumption|reflexivity] : preserves.
Lemma preserves_reportProgress d spec st :
  d ∈ l → active d = true → PW (reportProgress cfg d spec st).
Proof. intros Hd Ha. unfold reportProgress. solve_preserves. Qed.
Hint Resolve preserves_reportProgress : preserves.
Lemma preserves_reconcileConfigMaps d :
  d ∈ l → active d = true → PW (reconcileConfigMaps d).
Proof.
  intros Hd Ha. apply preserves_for_each_in. intros cm Hcm. unfold reconcileConfigMap.
  solve_preserves.
Qed.
Lemma preserves_reconcilePVCs d : d ∈ l → active d = true → PW (reconcilePVCs d).
Proof.
  intros Hd Ha. apply preserves_for_each_in. intros pvc Hpvc. unfold reconcilePVC.
  solve_preserves.
Qed.
Lemma preserves_reconcileIngresses d : d ∈ l → active d = true → PW (reconcileIngresses d).
Proof.
  intros Hd Ha. apply preserves_for_each_in. intros ing Hing. unfold reconcileIngress.
  solve_preserves.
Qed.
Hint Resolve preserves_reconcileConfigMaps preserves_reconcilePVCs preserves_reconcileIngresses
  : preserves.
Lemma preserves_observe d spec rev st :
  d ∈ l → active d = true → PW (observe_deployment cfg d spec rev st).
Proof. intros Hd Ha. unfold observe_deployment. solve_preserves. Qed.
Hint Resolve preserves_observe : preserves.
Lemma preserves_reconcileDeployment d spec :
  d ∈ l → active d = true → PW (reconcileDeployment cfg d spec).
Proof. intros Hd Ha. unfold reconcileDeployment. solve_preserves. Qed.

Lemma reconcile_all_seen l' : ∀ seen r seen' r',
  reconcile_all cfg seen l' r = (Ok seen', r') → seen' = seen_of seen l'.
Proof.
  induction l' as [|d l' IH]; intros seen r seen' r'; simpl.
  { by intros [= <- _]. }
  unfold active. destruct (String.eqb (cpd_status d) "deleted"); simpl; [apply IH|].
  destruct (FromDesiredDeployment d) as [spec|] eqn:Hs; [|done].
  intros [(? & _ & ?)|(x & r1 & _ & H)]%bind_inv; [done|]. apply IH in H as ->.
  unfold FromDesiredDeployment in Hs.
  repeat match type of Hs with context [mbind _ ?x] => destruct x; simpl in Hs; [|done] end.
  by simplify_eq.
Qed.
Lemma preserves_reconcile_all l' : (∀ d, d ∈ l' → d ∈ l) → ∀ seen, PW (reconcile_all cfg seen l').
Proof.
  induction l' as [|d l' IH]; intros Hl seen; simpl; [apply preserves_ret; apply _|].
  assert (Hrest : ∀ seen, PW (reconcile_all cfg seen l')).
  { apply IH. intros d' Hd'. apply Hl. by right. }
  destruct (String.eqb (cpd_status d) "deleted") eqn:Hs; [done|].
  destruct (FromDesiredDeployment d) as [spec|]; [|apply preserves_fail; apply _].
  apply preserves_bind; [apply _| |done]. apply preserves_reconcileDeployment.
  - apply Hl. left.
  - unfold active. by rewrite Hs.
Qed.

Lemma preserves_delete_orphans delete c (D : gset string) managed :
  (∀ n, n ∉ D → preserves R0 (delete n)) → PW (delete_orphans delete c D managed).
Proof.
  intros Hd. unfold delete_orphans. apply preserves_for_each; [apply _|]. intros n.
  case_bool_decide; solve_preserves.
Qed.
Lemma preserves_cleanup : PW (cleanup (declared l)).
Proof.
  unfold cleanup, cleanupOrphanedDeployments, cleanupOrphanedConfigMaps, cleanupOrphanedPVCs,
    cleanupOrphanedIngresses.
  repeat first [apply preserves_delete_orphans; by eauto with preserves | case_bool_decide |
    preserves_step].
Qed.

(** The cycle on a desired state, once fetched. *)
Definition run_cycle (desired : list Desired) : SE panic (RW W) unit :=
  let* seen := reconcile_all cfg nothing_seen desired in
  cleanup seen ;;
  let* _ := saveState in
  ret tt.
Lemma preserves_run_cycle : PW (run_cycle l).
Proof.
  apply (preserves_bind_value _ _ (λ seen, seen = declared l)).
  - by apply preserves_reconcile_all.
  - apply reconcile_all_seen.
  - intros seen ->. apply preserves_bind; [apply _|apply preserves_cleanup|].
    intros _. unfold saveState. solve_preserves.
Qed.
End Preservation.
#[export] Hint Resolve preserves_call preserves_Inc preserves_update : preserves.

(** ** What a cycle sends *)
Inductive report :=
| StatusReport (deployment release : string) (req : DeploymentStatusRequest)
| ProgressReport (deployment release : string) (req : DeploymentProgressRequest).

(** What the deployment service accepts ([AgentApi]): a status an agent may
    report, a rollout phase, a percentage. *)
Definition acceptable (rep : report) : Prop :=
  match rep with
  | StatusReport _ _ req =>
      ValidAgentReleaseStatus (sr_status req) = true ∧
      (∀ n, sr_ready req = Some n → 0 < n) ∧ (∀ e, sr_error req = Some e → e ≠ "")
  | ProgressReport _ _ req =>
      ValidRolloutPhase (pr_phase req) = true ∧ pr_phase req ≠ "" ∧
      pr_phase req ≠ RolloutPhaseRollback ∧ 0 ≤ pr_percentage req ≤ 100
  end.
Definition about (l : list Desired) (rep : report) : Prop :=
  ∃ d, d ∈ l ∧ active d = true ∧
    match rep with
    | StatusReport dep rel _ => dep = cpd_id d ∧ rel = cpd_release d
    | ProgressReport dep rel req =>
        dep = cpd_id d ∧ rel = cpd_release d ∧ pr_revision req = cpd_revision d
    end.

Lemma int32_range z : - 2 ^ 31 ≤ int32 z < 2 ^ 31.
Proof. unfold int32. pose proof (Z.mod_pos_bound (z + 2 ^ 31) (2 ^ 32)). lia. Qed.
Lemma int32_id z : - 2 ^ 31 ≤ z < 2 ^ 31 → int32 z = z.
Proof. intros Hz. unfold int32. rewrite Z.mod_small; lia. Qed.
Lemma status_request_acceptable dep rel st n e :
  one_of_reported st = true → acceptable (StatusReport dep rel (status_request st n e)).
Proof.
  intros Hst. split_and!; simpl.
  - unfold one_of_reported in Hst. unfold ValidAgentReleaseStatus, one_of. simpl.
    by rewrite orb_false_r, orb_assoc.
  - intros n' Hn. destruct (Z.ltb_spec 0 n); by simplify_eq.
  - intros e' He. destruct (String.eqb_spec e ""); by simplify_eq/=.
Qed.
Lemma progress_request_acceptable dep rel d st issue msg :
  acceptable (ProgressReport dep rel (progress_request d st (snapshot st issue) msg)).
Proof.
  pose proof (DerivePhase_in (snapshot st issue)) as Hp.
  pose proof (in_phase_valid _ _ Hp) as [Hv Hr]. split_and!; [done| |done|..].
  - simpl. intros He. rewrite He in Hv. done.
  - apply Percentage_range. simpl. apply int32_range.
  - apply Percentage_range. simpl. apply int32_range.
Qed.

(** ** What a cycle may do to guarded objects *)
Definition guarded (k : Kind) : bool :=
  match k with KConfigMap | KPVC | KIngress => true | _ => false end.

(** A claim keeps what it has of its immutable fields, and its storage. *)
Definition same_claim {Q} `{Quantities Q} (o o' : kube.PVC Q) : Prop :=
  (kube.pvc_modes o ≠ [] → kube.pvc_modes o' = kube.pvc_modes o) ∧
  keeps_option (kube.pvc_class o) (kube.pvc_class o') ∧
  keeps_option (kube.pvc_volume_mode o) (kube.pvc_volume_mode o') ∧
  Cmp (existingStorage o) (existingStorage o') ≤ 0.
Definition claim_kept {Q} `{Quantities Q} (k : Kind) : relation (obj Q k) :=
  match k with KPVC => same_claim | _ => λ _ _, True end.
(** The fate of an object that survives a cycle. *)
Definition survives {Q} `{Quantities Q} (k : Kind) (o o' : obj Q k) : Prop :=
  owned (obj_meta o') = owned (obj_meta o) ∧ (owned (obj_meta o) = false → o' = o) ∧
  claim_kept k o o'.

Section Cycle.
Context {Q W : Type} `{HQ : Quantities Q} `{HQL : !QuantityLaws Q} `{HK : !Kubernetes Q W}
  `{HKL : !KubernetesLaws Q W}.
Context (m : Manager) (seen : Seen).

Record cycle_rel (w w' : W) : Prop := {
  cr_kept : ∀ k key o, guarded k = true → objs k w !! key = Some o →
    (∃ o', objs k w' !! key = Some o' ∧ survives k o o') ∨
    owned (obj_meta o) = true ∧ key.1 = namespace m ∧ key.2 ∉ names_of k seen;
  cr_new : ∀ k key o', guarded k = true → objs k w !! key = None → objs k w' !! key = Some o' →
    owned (obj_meta o') = true ∧ key.2 ∈ names_of k seen }.

Lemma same_claim_refl (o : kube.PVC Q) : same_claim o o.
Proof. split_and!; [done|by intros a|by intros a|]. by rewrite Cmp_refl. Qed.
Lemma same_claim_trans (o1 o2 o3 : kube.PVC Q) :
  same_claim o1 o2 → same_claim o2 o3 → same_claim o1 o3.
Proof.
  intros (Hm & Hc & Hv & Hs) (Hm' & Hc' & Hv' & Hs'). split_and!.
  - intros Hne. specialize (Hm Hne). rewrite Hm'; [done|]. by rewrite Hm.
  - intros a Ha. by apply Hc', Hc.
  - intros a Ha. by apply Hv', Hv.
  - by eapply Cmp_trans.
Qed.
Lemma survives_refl k (o : obj Q k) : survives k o o.
Proof. split_and!; [done..|]. destruct k; simpl; try done. apply same_claim_refl. Qed.
Lemma survives_trans k (o1 o2 o3 : obj Q k) :
  survives k o1 o2 → survives k o2 o3 → survives k o1 o3.
Proof.
  intros (Ho & Hu & Hc) (Ho' & Hu' & Hc'). split_and!; [congruence| |].
  - intros Hf. rewrite <- (Hu Hf). apply Hu'. by rewrite Ho.
  - destruct k; simpl in *; try done. by eapply same_claim_trans.
Qed.

#[export] Instance cycle_rel_preorder : PreOrder cycle_rel.
Proof.
  split.
  - intros w. split; intros k key o Hg Ho; [left; exists o; split; [done|apply survives_refl]|].
    congruence.
  - intros w1 w2 w3 H12 H23. split.
    + intros k key o Hg Ho. destruct (cr_kept _ _ H12 k key o Hg Ho) as [(o2 & Ho2 & Hs)|?];
        [|by right].
      destruct (cr_kept _ _ H23 k key o2 Hg Ho2) as [(o3 & Ho3 & Hs')|(? & ? & ?)].
      * left. exists o3. split; [done|]. by eapply survives_trans.
      * right. destruct Hs as (<- & _). done.
    + intros k key o3 Hg Hn Ho3. destruct (objs k w2 !! key) as [o2|] eqn:Ho2.
      * destruct (cr_new _ _ H12 k key o2 Hg Hn Ho2) as [Hown Hin].
        destruct (cr_kept _ _ H23 k key o2 Hg Ho2) as [(o3' & Ho3' & Hs & _)|(_ & _ & ?)]; [|done].
        rewrite Ho3 in Ho3'. simplify_eq. split; [congruence|done].
      * by eapply (cr_new _ _ H23).
Qed.

Lemma cycle_rel_guarded w w' :
  (∀ k, guarded k = true → objs k w' = objs k w) → cycle_rel w w'.
Proof.
  intros H. split; intros k key o Hg Ho; [|rewrite (H k Hg); congruence].
  left. exists o. rewrite (H k Hg). split; [done|apply survives_refl].
Qed.
Lemma cycle_rel_same w w' : same_objs w w' → cycle_rel w w'.
Proof. intros H. apply cycle_rel_guarded. intros k _. apply H. Qed.

(** One object changes. *)
Lemma cycle_rel_alter k key (new : option (obj Q k)) w w' :
  (∀ k', k' ≠ k → objs k' w' = objs k' w) →
  objs k w' = partial_alter (λ _, new) key (objs k w) →
  (∀ o, objs k w !! key = Some o →
     match new with
     | Some o' => survives k o o'
     | None => owned (obj_meta o) = true ∧ key.1 = namespace m ∧ key.2 ∉ names_of k seen
     end) →
  (∀ o', objs k w !! key = None → new = Some o' →
     owned (obj_meta o') = true ∧ key.2 ∈ names_of k seen) →
  cycle_rel w w'.
Proof.
  intros Hk Hw Hkept Hnew. split; intros k' key' o Hg Ho.
  - destruct (decide (k' = k)) as [->|Hne].
    2: { left. exists o. rewrite Hk by done. split; [done|apply survives_refl]. }
    rewrite Hw. destruct (decide (key = key')) as [<-|Hne].
    + rewrite lookup_partial_alter_eq. specialize (Hkept o Ho). destruct new as [o'|]; [|by right].
      left. by exists o'.
    + rewrite lookup_partial_alter_ne by done. left. exists o. split; [done|apply survives_refl].
  - intros Ho'. destruct (decide (k' = k)) as [->|Hne]; [|rewrite Hk in Ho' by done; congruence].
    rewrite Hw in Ho'. destruct (decide (key = key')) as [<-|Hne].
    + rewrite lookup_partial_alter_eq in Ho'. by apply Hnew.
    + rewrite lookup_partial_alter_ne in Ho' by done. congruence.
Qed.

(** ** The manager's calls move along it *)
Lemma outcome_cycle k ns n desired decide w w' r :
  outcome k ns n desired decide w w' r → m_name (obj_meta desired) = n →
  n ∈ names_of k seen →
  (∀ o', stored ns k desired o' → owned (obj_meta o') = true) →
  (∀ o o1, decide o = Change o1 →
     m_name (obj_meta o1) = m_name (obj_meta o) ∧
     ∀ o', stored ns k o1 o' → survives k o o') →
  cycle_rel w w'.
Proof.
  intros Hout Hn Hin Hnew Hchange.
  destruct Hout as [e Hs|o r Hs Ho Hd|r Ho [Hk (o' & Hst & Hw)] Hr|o o1 r Ho Hd [Hk (o' & Hst & Hw)] Hr].
  - by apply cycle_rel_same.
  - by apply cycle_rel_same.
  - rewrite Hn in Hw. apply (cycle_rel_alter k (ns, n) (Some o')); [done|done|congruence|].
    intros ? _ [= <-]. split; [by apply Hnew|done].
  - destruct (Hchange o o1 Hd) as [Hname Hsurv].
    rewrite Hname, (law_names _ _ _ _ _ Ho) in Hw.
    apply (cycle_rel_alter k (ns, n) (Some o')); [done|done| |congruence].
    intros o2 Ho2. simplify_eq. by apply Hsurv.
Qed.

Lemma outcome_unguarded k ns n desired decide w w' r :
  guarded k = false → outcome k ns n desired decide w w' r → cycle_rel w w'.
Proof.
  intros Hg Hout. apply cycle_rel_guarded. intros k' Hg'.
  assert (k' ≠ k) by congruence.
  by destruct Hout as [? Hs|??? Hs|? ? [Hk _]|???? ? [Hk _]]; auto.
Qed.

Lemma with_meta_owned meta l a extra deployment app_name slug :
  l = managed_labels extra deployment app_name slug → owned (with_meta meta l a) = true.
Proof. intros ->. by eapply managed_owned. Qed.
Lemma stored_owned {k} ns (o o' : obj Q k) : stored ns k o o' → owned (obj_meta o') = owned (obj_meta o).
Proof. intros [(_ & _ & Hl & _) _]. unfold owned. by rewrite Hl. Qed.

Lemma cycle_ApplyConfigMap cms :
  cms_name cms ∈ seen_configmaps seen → preserves cycle_rel (ApplyConfigMap m cms).
Proof.
  intros Hin w. destruct (ApplyConfigMap m cms w) as [r w'] eqn:E.
  apply ApplyConfigMap_outcome in E. apply (outcome_cycle _ _ _ _ _ _ _ _ E); [done|done|..].
  - intros o' Ho'. rewrite (stored_owned _ _ _ Ho'). by eapply managed_owned.
  - intros o o1. unfold decide_configmap. destruct (owned _) eqn:Hown; simpl; [|done].
    case_match; [done|]. intros [= <-]. split; [done|]. intros o' Ho'.
    split_and!; [|by simpl in *; rewrite Hown|done].
    rewrite (stored_owned _ _ _ Ho'). simpl in *. rewrite Hown. by eapply with_meta_owned.
Qed.
Lemma cycle_ApplyIngress ings :
  is_name ings ∈ seen_ingresses seen → preserves cycle_rel (ApplyIngress m ings).
Proof.
  intros Hin w. destruct (ApplyIngress m ings w) as [r w'] eqn:E.
  apply ApplyIngress_outcome in E. apply (outcome_cycle _ _ _ _ _ _ _ _ E); [done|done|..].
  - intros o' Ho'. rewrite (stored_owned _ _ _ Ho'). by eapply managed_owned.
  - intros o o1. unfold decide_ingress. destruct (owned _) eqn:Hown; simpl; [|done].
    case_match; [done|]. intros [= <-]. split; [done|]. intros o' Ho'.
    split_and!; [|by simpl in *; rewrite Hown|done].
    rewrite (stored_owned _ _ _ Ho'). simpl in *. rewrite Hown. by eapply with_meta_owned.
Qed.
Lemma cycle_ApplyPVC ps : ps_name ps ∈ seen_pvcs seen → preserves cycle_rel (ApplyPVC m ps).
Proof.
  intros Hin w. destruct (ApplyPVC m ps w) as [r w'] eqn:E.
  apply ApplyPVC_outcome in E. apply (outcome_cycle _ _ _ _ _ _ _ _ E); [done|done|..].
  - intros o' Ho'. rewrite (stored_owned _ _ _ Ho'). by eapply managed_owned.
  - intros o o1. unfold decide_pvc. destruct (owned _) eqn:Hown; simpl; [|done].
    destruct (pvcImmutableChanged o ps) eqn:Hi; [done|]. case_match; [done|].
    intros [= <-]. split; [done|]. intros o' Ho'.
    pose proof (stored_owned _ _ _ Ho') as Hown'.
    destruct Ho' as [_ (Hm' & Hc' & Hv' & Hr)]. simpl in *.
    split_and!; [|by simpl in *; rewrite Hown|simpl; split_and!; [done..|]].
    + simpl. rewrite Hown', Hown. by eapply with_meta_owned.
    + rewrite (storage_after _ _ _ Hr). apply pvcImmutableChanged_false in Hi as (_ & _ & _ & Hle).
      destruct (IsZeroQuantity (ps_storage ps)); [by rewrite Cmp_refl|by apply Hle].
Qed.

Lemma cycle_ApplyDeployment spec : preserves cycle_rel (ApplyDeployment m spec).
Proof.
  intros w. destruct (ApplyDeployment m spec w) as [r w'] eqn:E.
  by apply ApplyDeployment_outcome, outcome_unguarded in E.
Qed.
Lemma cycle_ApplyService spec : preserves cycle_rel (ApplyService m spec).
Proof.
  intros w. destruct (ApplyService m spec w) as [r w'] eqn:E. simpl.
  destruct (s_port spec) as [port|] eqn:Hp.
  - by apply (ApplyService_outcome m spec port _ _ _ Hp), outcome_unguarded in E.
  - unfold ApplyService in E. rewrite Hp in E. injection E as _ <-. by apply cycle_rel_same.
Qed.

(** *** Reads and deletions *)
Lemma cycle_inspect {A} (c : SE kube_error W A) :
  preserves cycle_rel c → preserves cycle_rel (inspect c).
Proof. intros Hc w. specialize (Hc w). unfold inspect. by destruct (c w). Qed.
Lemma cycle_wrap {A} context (c : SE kube_error W A) :
  preserves cycle_rel c → preserves cycle_rel (wrap context c).
Proof. intros Hc w. specialize (Hc w). unfold wrap. by destruct (c w) as [[?|?] ?]. Qed.
Lemma cycle_Get k ns n : preserves cycle_rel (Get k ns n).
Proof.
  intros w. destruct (Get k ns n w) as [r w'] eqn:E. apply law_Get in E as [Hs _].
  by apply cycle_rel_same.
Qed.
Lemma cycle_List k ns sel : preserves cycle_rel (List k ns sel).
Proof.
  intros w. destruct (List k ns sel w) as [r w'] eqn:E. apply law_List in E as [Hs _].
  by apply cycle_rel_same.
Qed.
Hint Resolve cycle_Get cycle_List cycle_inspect cycle_wrap : preserves.

Lemma cycle_GetDeploymentStatus n : preserves cycle_rel (GetDeploymentStatus m n).
Proof. unfold GetDeploymentStatus. solve_preserves. Qed.
Lemma cycle_GetPodHealth n : preserves cycle_rel (GetPodHealth m n).
Proof.
  unfold GetPodHealth. solve_preserves.
Qed.
Lemma cycle_list_names k context : preserves cycle_rel (list_names k context m).
Proof.
  unfold list_names. solve_preserves.
Qed.

Lemma cycle_Delete_unguarded k ns n : guarded k = false → preserves cycle_rel (Delete k ns n).
Proof.
  intros Hg w. destruct (Delete k ns n w) as [r w'] eqn:E. apply cycle_rel_guarded.
  intros k' Hg'. apply law_Delete in E as [(_ & Hs & _)|[Hk _]]; [apply Hs|apply Hk; congruence].
Qed.
Lemma cycle_DeleteDeployment n : preserves cycle_rel (DeleteDeployment m n).
Proof.
  unfold DeleteDeployment, delete_tolerant.
  solve_preserves; apply cycle_inspect; by apply cycle_Delete_unguarded.
Qed.
Lemma cycle_delete_owned k kind n :
  n ∉ names_of k seen → preserves cycle_rel (delete_owned k kind m n).
Proof.
  intros Hn w. destruct (delete_owned k kind m n w) as [r w'] eqn:E. simpl.
  apply get_then in E as (got & w1 & Hs & Hf & Hgot & _). destruct got as [o|e].
  2: { destruct (ke_not_found e); injection Hf as _ <-; by apply cycle_rel_same. }
  destruct (owned (obj_meta o)) eqn:Hown; simpl in Hf; [|injection Hf as _ <-; by apply cycle_rel_same].
  assert (Hd : ∃ r, Delete k (namespace m) n w1 = (r, w')).
  { unfold delete_tolerant, bind, inspect in Hf.
    destruct (Delete k (namespace m) n w1) as [[[]|e] w2].
    - injection Hf as _ <-. by eexists.
    - destruct (ke_not_found e); injection Hf as _ <-; by eexists. }
  destruct Hd as [r' [(_ & Hs' & _)|[Hk Hd]]%law_Delete].
  { apply cycle_rel_same. by eapply same_objs_trans. }
  apply (cycle_rel_alter k (namespace m, n) None).
  - intros k' Hne. by rewrite Hk, Hs.
  - by rewrite Hd, Hs.
  - intros o' Ho'. simplify_eq. done.
  - done.
Qed.
End Cycle.

(** ** Garbage collection without faults *)
Lemma owned_label meta :
  owned meta = true ↔ m_labels meta !! LabelManagedBy = Some LabelManagedByValue.
Proof.
  unfold owned, index. rewrite String.eqb_eq.
  destruct (m_labels meta !! LabelManagedBy); simpl; split; [by intros ->|by intros [= ->]|done..].
Qed.

Section Collect.
Context {Q W : Type} `{HQ : Quantities Q} `{HK : !Kubernetes Q W} `{HKL : !KubernetesLaws Q W}.
Context (m : Manager).

(** Reads and deletions only fail for objects that do not exist. *)
Class Faultless : Prop := {
  fl_Get : ∀ k ns n w e w', Get (Q := Q) (K := W) k ns n w = (Err e, w') → ke_not_found e = true;
  fl_Delete : ∀ k ns n w e w',
    Delete (Q := Q) (K := W) k ns n w = (Err e, w') → ke_not_found e = true;
  fl_List : ∀ k ns sel w e w', List (Q := Q) (K := W) k ns sel w ≠ (Err e, w') }.
Context `{HF : Faultless}.

(** An object in the agent's namespace whose name is one of [names] and not
    one of [D]. *)
Definition orphan k (names : list string) (D : gset string) (kv : string * string * obj Q k)
    : Prop :=
  owned (obj_meta kv.2) = true ∧ kv.1.1 = namespace m ∧ kv.1.2 ∈ names ∧ kv.1.2 ∉ D.
#[export] Instance orphan_dec k names D kv : Decision (orphan k names D kv).
Proof. unfold orphan. apply _. Defined.
Definition collected k names D (w w' : W) : Prop :=
  (∀ k', k' ≠ k → objs k' w' = objs k' w) ∧
  objs k w' = filter (λ kv, ¬ orphan k names D kv) (objs k w).

Lemma delete_tolerant_spec k context n w r w' :
  delete_tolerant k context m n w = (r, w') →
  r = Ok tt ∧ (∀ k', k' ≠ k → objs k' w' = objs k' w) ∧
  objs k w' = delete (namespace m, n) (objs k w).
Proof.
  unfold delete_tolerant, bind, inspect.
  destruct (Delete k (namespace m) n w) as [[[]|e] w1] eqn:E.
  - intros [= <- <-]. apply law_Delete in E as [(? & _)|[Hk Hd]]; [done|]. done.
  - pose proof (fl_Delete _ _ _ _ _ _ E) as Hn. rewrite Hn. intros [= <- <-].
    split; [done|]. apply law_Delete in E as [(_ & Hs & Hnf)|[Hk Hd]]; [|done].
    split; [by intros; apply Hs|]. rewrite Hs. symmetry. apply delete_id. by eapply Hnf.
Qed.
Lemma delete_owned_spec k kind n w r w' D :
  n ∉ D → delete_owned k kind m n w = (r, w') → collected k [n] D w w'.
Proof.
  intros HD (got & w1 & Hs & Hf & Hgot & HG)%get_then.
  assert (Hnone : (∀ o, objs k w !! (namespace m, n) = Some o → owned (obj_meta o) = false) →
            filter (λ kv, ¬ orphan k [n] D kv) (objs k w) = objs k w).
  { intros Ho. apply map_filter_id. intros [ns n'] o Hl (Hown & Hns & Hn%list_elem_of_singleton & _).
    simpl in *. subst. by rewrite (Ho o Hl) in Hown. }
  destruct got as [o|e].
  - destruct (owned (obj_meta o)) eqn:Hown; simpl in Hf.
    + apply delete_tolerant_spec in Hf as (_ & Hk & Hd). split.
      { intros k' Hne. by rewrite Hk, Hs. }
      rewrite Hd, Hs. apply map_eq. intros [ns n']. apply option_eq. intros o'.
      rewrite map_lookup_filter_Some, lookup_delete_Some. unfold orphan. simpl.
      rewrite list_elem_of_singleton. split.
      * intros [Hne Ho']. split; [done|]. intros (_ & -> & -> & _). done.
      * intros [Ho' Hno]. split; [|done]. intros [= <- <-]. rewrite Hgot in Ho'. simplify_eq.
        apply Hno. done.
    + injection Hf as _ <-. split; [by intros; apply Hs|]. rewrite Hs, Hnone; [done|].
      intros o' Ho'. by simplify_eq.
  - assert (w1 = w') as <- by (destruct (ke_not_found e); by injection Hf as _ <-).
    split; [by intros; apply Hs|]. rewrite Hs. symmetry. apply Hnone.
    intros o Ho. by rewrite (Hgot (fl_Get _ _ _ _ _ _ HG)) in Ho.
Qed.

Lemma collected_nil k D w : collected k [] D w w.
Proof.
  split; [done|]. symmetry. apply map_filter_id.
  intros key o _ (_ & _ & ?%not_elem_of_nil & _). done.
Qed.
Lemma collected_same k D n w : n ∈ D → collected k [n] D w w.
Proof.
  intros Hn. split; [done|]. symmetry. apply map_filter_id.
  intros key o _ (_ & _ & Hk%list_elem_of_singleton & HD). simpl in *. by subst.
Qed.
Lemma collected_app k n names D w w1 w2 :
  collected k [n] D w w1 → collected k names D w1 w2 → collected k (n :: names) D w w2.
Proof.
  intros [Hk1 H1] [Hk2 H2]. split.
  { intros k' Hne. by rewrite Hk2, Hk1. }
  rewrite H2, H1, map_filter_filter. apply map_filter_ext. intros key o _. unfold orphan.
  rewrite list_elem_of_singleton, elem_of_cons. simpl. tauto.
Qed.

Lemma delete_orphans_spec k kind c D names : ∀ r, ∃ r',
  delete_orphans (delete_owned k kind m) c D names r = (Ok tt, r') ∧
  collected k names D (r_world r) (r_world r').
Proof.
  induction names as [|n names IH]; intros r; [exists r; split; [done|]; apply collected_nil|].
  assert (Hstep : ∃ r1,
    (if bool_decide (n ∈ D) then ret tt
     else let* deleted := call (delete_owned k kind m n) in
          match deleted with Err _ => ret tt | Ok _ => Inc c end) r = (Ok tt, r1) ∧
    collected k [n] D (r_world r) (r_world r1)).
  { case_bool_decide as Hn; [exists r; split; [done|]; by apply collected_same|].
    unfold bind, call. destruct (delete_owned k kind m n (r_world r)) as [x w1] eqn:E.
    eapply delete_owned_spec in E; [|done]. destruct x; by eexists. }
  destruct Hstep as (r1 & Hr1 & Hc). destruct (IH r1) as (r2 & Hr2 & Hrest).
  exists r2. split; [|by eapply collected_app].
  unfold delete_orphans in *. simpl. by rewrite (bind_Ok _ _ tt r r1 Hr1).
Qed.

(** The names listed are those of the platform's objects in the namespace. *)
Lemma list_names_spec k context w r w' :
  list_names k context m w = (r, w') →
  same_objs (Q := Q) w w' ∧
  ∃ names, r = Ok names ∧
    ∀ n, n ∈ names ↔ ∃ o, objs k w !! (namespace m, n) = Some o ∧ owned (obj_meta o) = true.
Proof.
  unfold list_names, bind, wrap.
  destruct (List k (namespace m) managed_selector w) as [[items|e] w1] eqn:E.
  2: { by apply fl_List in E. }
  intros [= <- <-]. apply law_List in E as [Hs Hl]. split; [exact Hs|].
  eexists. split; [done|]. intros n. rewrite list_elem_of_fmap.
  specialize (Hl LabelManagedBy LabelManagedByValue items eq_refl eq_refl eq_refl).
  setoid_rewrite Hl. setoid_rewrite owned_label. split.
  - intros (o & -> & n' & Ho & Hlab). rewrite (law_names _ _ _ _ _ Ho). by exists o.
  - intros (o & Ho & Hlab). exists o. rewrite (law_names _ _ _ _ _ Ho). split; [done|]. by exists n.
Qed.

(** Everything of the platform's in the namespace that is not in [D]. *)
Definition undeclared k (D : gset string) (kv : string * string * obj Q k) : Prop :=
  owned (obj_meta kv.2) = true ∧ kv.1.1 = namespace m ∧ kv.1.2 ∉ D.
#[export] Instance undeclared_dec k D kv : Decision (undeclared k D kv).
Proof. unfold undeclared. apply _. Defined.

Lemma collector_exact k kind context c D (r : RW W) (report : string → option string) :
  let run : SE panic (RW W) (option string) :=
    let* managed := call (list_names k context m) in
    match managed with
    | Err e => ret (report e)
    | Ok managed => delete_orphans (delete_owned k kind m) c D managed ;; ret None
    end in
  ∃ r', run r = (Ok None, r') ∧
  (∀ k', k' ≠ k → objs k' (r_world r') = objs k' (r_world r)) ∧
  objs k (r_world r') = filter (λ kv, ¬ undeclared k D kv) (objs k (r_world r)).
Proof.
  cbv zeta. destruct (list_names k context m (r_world r)) as [x w1] eqn:E.
  assert (Hcall : call (list_names k context m) r = (Ok x, mkRW (r_state r) (r_metrics r) w1))
    by (unfold call; by rewrite E).
  apply list_names_spec in E as (Hs & names & -> & Hnames). rewrite (bind_Ok _ _ _ _ _ Hcall).
  destruct (delete_orphans_spec k kind c D names (mkRW (r_state r) (r_metrics r) w1))
    as (r2 & Hr2 & [Hk Hf]).
  exists r2. rewrite (bind_Ok _ _ _ _ _ Hr2). split; [done|]. simpl in *. split.
  { intros k' Hne. by rewrite Hk, Hs. }
  rewrite Hf, Hs. apply map_filter_ext. intros [ns n] o Ho. unfold orphan, undeclared. simpl.
  rewrite Hnames. split; [|tauto].
  intros Hno (Hown & -> & HD). apply Hno. split_and!; [done|done|by exists o|done].
Qed.

(** *** Deployments, deleted with the service of the same name *)
Definition deleted_name k (names : list string) (D : gset string)
    (kv : string * string * obj Q k) : Prop :=
  kv.1.1 = namespace m ∧ kv.1.2 ∈ names ∧ kv.1.2 ∉ D.
#[export] Instance deleted_name_dec k names D kv : Decision (deleted_name k names D kv).
Proof. unfold deleted_name. apply _. Defined.
Definition pair_kind (k : Kind) : bool :=
  match k with KDeployment | KService => true | _ => false end.
Definition pair_deleted names D (w w' : W) : Prop := ∀ k,
  objs k w' =
    if pair_kind k then filter (λ kv, ¬ deleted_name k names D kv) (objs k w) else objs k w.

Lemma pair_deleted_none names D w :
  (∀ n, n ∈ names → n ∈ D) → pair_deleted names D w w.
Proof.
  intros H k. destruct (pair_kind k); [|done]. symmetry. apply map_filter_id.
  intros key o _ (_ & Hn & HD). by apply HD, H.
Qed.
Lemma pair_deleted_app n names D w w1 w2 :
  pair_deleted [n] D w w1 → pair_deleted names D w1 w2 → pair_deleted (n :: names) D w w2.
Proof.
  intros H1 H2 k. rewrite H2, H1. destruct (pair_kind k); [|done].
  rewrite map_filter_filter. apply map_filter_ext. intros key o _. unfold deleted_name.
  rewrite list_elem_of_singleton, elem_of_cons. simpl. tauto.
Qed.
Lemma filter_one_name k (n : string) (D : gset string) (objects : gmap (string * string) (obj Q k)) :
  n ∉ D →
  filter (λ kv, ¬ deleted_name k [n] D kv) objects = delete (namespace m, n) objects.
Proof.
  intros HD. apply map_eq. intros [ns n']. apply option_eq. intros o.
  rewrite map_lookup_filter_Some, lookup_delete_Some. unfold deleted_name. simpl.
  rewrite list_elem_of_singleton. split.
  - intros [Ho Hno]. split; [|done]. intros [= <- <-]. by apply Hno.
  - intros [Hne Ho]. split; [done|]. intros (-> & -> & _). done.
Qed.
Lemma DeleteDeployment_spec n w r w' D :
  n ∉ D → DeleteDeployment m n w = (r, w') → pair_deleted [n] D w w'.
Proof.
  intros HD [(e & H & _)|([] & w1 & H1 & H2)]%bind_inv.
  { by apply delete_tolerant_spec in H as (? & _). }
  apply delete_tolerant_spec in H1 as (_ & Hk1 & H1).
  apply delete_tolerant_spec in H2 as (_ & Hk2 & H2).
  intros k. destruct (pair_kind k) eqn:Hp.
  - rewrite filter_one_name by done. destruct k; try done.
    + by rewrite Hk2.
    + by rewrite H2, Hk1.
  - rewrite Hk2, Hk1; [done|..]; by intros ->.
Qed.

Definition delete_deployments (D : gset string) (names : list string) : SE panic (RW W) unit :=
  for_each (λ name,
    if bool_decide (name ∈ D) then ret tt
    else let* _ := call (DeleteDeployment m name) in ret tt) names.
Lemma delete_deployments_spec D names : ∀ r, ∃ r',
  delete_deployments D names r = (Ok tt, r') ∧
  pair_deleted names D (r_world r) (r_world r').
Proof.
  induction names as [|n names IH]; intros r.
  { exists r. split; [done|]. apply pair_deleted_none. by intros n ?%not_elem_of_nil. }
  assert (Hstep : ∃ r1,
    (if bool_decide (n ∈ D) then ret tt
     else (let* _ := call (DeleteDeployment m n) in ret tt)) r = (Ok tt, r1) ∧
    pair_deleted [n] D (r_world r) (r_world r1)).
  { case_bool_decide as Hn.
    - exists r. split; [done|]. apply pair_deleted_none. by intros n' ->%list_elem_of_singleton.
    - unfold bind, call. destruct (DeleteDeployment m n (r_world r)) as [x w1] eqn:E.
      eapply DeleteDeployment_spec in E; [|done]. by eexists. }
  destruct Hstep as (r1 & Hr1 & Hc). destruct (IH r1) as (r2 & Hr2 & Hrest).
  exists r2. split; [|by eapply pair_deleted_app].
  unfold delete_deployments in *. simpl. by rewrite (bind_Ok _ _ tt r r1 Hr1).
Qed.

(** A service goes with an undeclared deployment of its name. *)
Definition service_of_undeclared (D : gset string) (w : W)
    (kv : string * string * obj Q KService) : Prop :=
  kv.1.1 = namespace m ∧ (kv.1.2 ∉ D) ∧
  match objs KDeployment w !! kv.1 with Some o => owned (obj_meta o) = true | None => False end.
#[export] Instance service_of_undeclared_dec D w kv : Decision (service_of_undeclared D w kv).
Proof. unfold service_of_undeclared. destruct (objs KDeployment w !! kv.1); apply _. Defined.

Lemma cleanupOrphanedDeployments_exact D (r : RW W) : ∃ r',
  cleanupOrphanedDeployments (RM := manager_ResourceManager m) D r = (Ok None, r') ∧
  (∀ k, pair_kind k = false → objs k (r_world r') = objs k (r_world r)) ∧
  objs KDeployment (r_world r') =
    filter (λ kv, ¬ undeclared KDeployment D kv) (objs KDeployment (r_world r)) ∧
  objs KService (r_world r') =
    filter (λ kv, ¬ service_of_undeclared D (r_world r) kv) (objs KService (r_world r)).
Proof.
  unfold cleanupOrphanedDeployments. simpl.
  destruct (ListManagedDeployments m (r_world r)) as [x w1] eqn:E.
  assert (Hcall : call (ListManagedDeployments m) r = (Ok x, mkRW (r_state r) (r_metrics r) w1))
    by (unfold call; by rewrite E).
  apply list_names_spec in E as (Hs & names & -> & Hnames). rewrite (bind_Ok _ _ _ _ _ Hcall).
  destruct (delete_deployments_spec D names (mkRW (r_state r) (r_metrics r) w1))
    as (r2 & Hr2 & Hp).
  exists r2. unfold delete_deployments in Hr2. rewrite (bind_Ok _ _ _ _ _ Hr2). split; [done|].
  simpl in Hp. split_and!.
  - intros k Hk. by rewrite (Hp k), Hk, Hs.
  - rewrite (Hp KDeployment), Hs. simpl. apply map_filter_ext. intros [ns n] o Ho.
    unfold deleted_name, undeclared. simpl. rewrite Hnames. split; intros Hno.
    + intros (Hown & -> & HD). apply Hno. split_and!; [done|by exists o|done].
    + intros (-> & (o' & Ho' & Hown) & HD). apply Hno.
      pose proof (eq_trans (eq_sym Ho') Ho) as Heq. injection Heq as ->. done.
  - rewrite (Hp KService), Hs. simpl. apply map_filter_ext. intros [ns n] o Ho.
    unfold deleted_name, service_of_undeclared. cbn [fst snd]. rewrite Hnames. split; intros Hno.
    + intros (-> & HD & Hown). apply Hno. split_and!; [done| |done].
      destruct (objs KDeployment (r_world r) !! (namespace m, n)) as [o'|]; [|done].
      exists o'. by split.
    + intros (-> & (o' & Ho' & Hown) & HD). apply Hno. split_and!; [done..|].
      by rewrite Ho'.
Qed.
End Collect.
