(* ===== verification/AgentDemo.v ===== *)
(** * A concrete cluster and control plane

    An instance of everything the agent's side takes as a parameter, and the
    proof that it keeps the promises its theorems rely on: an in-memory
    Kubernetes API, integer quantities, a control plane that answers a fixed
    desired state and logs the reports, and a state file.  The witnesses run
    the agent on it. *)

From S2P Require Import Total.
From S2P Require Import Prelude Json AppErrors Events Domain Effects ControlPlane K8s Manager.
From S2P Require Import ManagerFacts Rollout Reconciler ReconcilerFacts.
From stdpp Require Import countable.
Open Scope Z_scope.

(** ** Quantities: integers *)
#[export] Instance Z_Quantities : Quantities Z := {
  ZeroQuantity := 0;
  IsZeroQuantity q := q =? 0;
  Cmp a b := Z.sgn (a - b);
  ParseQuantity s := match GoStrings.Atoi s with Some q => Ok q | None => Err "bad quantity"%string end }.
#[export] Instance Z_QuantityLaws : QuantityLaws Z.
Proof. split; simpl; intros; rewrite ?Z.sub_diag; lia. Qed.

(** ** The world *)
Record world := mkWorld {
  w_deployments : gmap (string * string) (kube.Deployment Z);
  w_services : gmap (string * string) kube.Service;
  w_configmaps : gmap (string * string) kube.ConfigMap;
  w_pvcs : gmap (string * string) (kube.PVC Z);
  w_ingresses : gmap (string * string) kube.Ingress;
  w_pods : gmap (string * string) kube.Pod;
  w_desired : result client_error (list Desired);
  w_leader : bool;
  w_reports : list report;
  w_file : option string }.

Definition raw (k : Kind) (w : world) : gmap (string * string) (obj Z k) :=
  match k with
  | KDeployment => w_deployments w
  | KService => w_services w
  | KConfigMap => w_configmaps w
  | KPVC => w_pvcs w
  | KIngress => w_ingresses w
  | KPod => w_pods w
  end.
Definition set_raw (k : Kind) : gmap (string * string) (obj Z k) → world → world :=
  match k with
  | KDeployment => λ o '(mkWorld a b c d e f g h i j), mkWorld o b c d e f g h i j
  | KService => λ o '(mkWorld a b c d e f g h i j), mkWorld a o c d e f g h i j
  | KConfigMap => λ o '(mkWorld a b c d e f g h i j), mkWorld a b o d e f g h i j
  | KPVC => λ o '(mkWorld a b c d e f g h i j), mkWorld a b c o e f g h i j
  | KIngress => λ o '(mkWorld a b c d e f g h i j), mkWorld a b c d o f g h i j
  | KPod => λ o '(mkWorld a b c d e f g h i j), mkWorld a b c d e o g h i j
  end.
(** Objects are known by their own name. *)
Definition known (k : Kind) (w : world) : gmap (string * string) (obj Z k) :=
  filter (λ kv, m_name (obj_meta kv.2) = kv.1.2) (raw k w).

Definition placed (ns : string) (meta : ObjectMeta) : ObjectMeta :=
  mkMeta (m_name meta) ns (m_labels meta) (m_annotations meta) (m_generation meta + 1) "uid".
Definition admitted (k : Kind) (ns : string) : obj Z k → obj Z k :=
  match k with
  | KDeployment => λ o, kube.mkDeployment (placed ns (kube.dep_meta o)) (kube.dep_spec o)
                          (kube.dep_status o)
  | KService => λ o, kube.mkService (placed ns (kube.svc_meta o)) (kube.svc_selector o)
                       (kube.svc_ports o) (kube.svc_type o) "10.0.0.1"
  | KConfigMap => λ o, kube.mkConfigMap (placed ns (kube.cm_meta o)) (kube.cm_data o)
                         (kube.cm_binary o)
  | KPVC => λ o, kube.mkPVC (placed ns (kube.pvc_meta o)) (kube.pvc_modes o)
                   (Some (default "standard"%string (kube.pvc_class o)))
                   (Some (default "Filesystem"%string (kube.pvc_volume_mode o)))
                   (kube.pvc_requests o) (kube.pvc_volume o)
  | KIngress => λ o, kube.mkIngress (placed ns (kube.ing_meta o)) (kube.ing_class o)
                       (kube.ing_rules o) (kube.ing_tls o) (kube.ing_status o)
  | KPod => λ o, kube.mkPod (placed ns (kube.pod_meta o)) (kube.pod_conditions o)
                   (kube.pod_containers o)
  end.

Definition not_found : kube_error := mkKubeErr "not found" true.
Definition put {k} (ns : string) (o : obj Z k) (w : world) : result kube_error (obj Z k) * world :=
  let o' := admitted k ns o in
  (Ok o', set_raw k (<[(ns, m_name (obj_meta o)) := o']> (raw k w)) w).

(** A selector [key=value] splits at its first equals sign. *)
Fixpoint split_equals (s : string) : option (string * string) :=
  match s with
  | EmptyString => None
  | String a s' =>
      if Ascii.eqb a (Ascii.ascii_of_nat 61) then Some (EmptyString, s')
      else (λ kv, (String a kv.1, kv.2)) <$> split_equals s'
  end.
Definition selects (sel : string) (l : labels) : bool :=
  match split_equals sel with
  | Some (key, v) => bool_decide (l !! key = Some v)
  | None => false
  end.

#[export] Instance world_Kubernetes : Kubernetes Z world := {
  Get k ns n w :=
    match known k w !! (ns, n) with Some o => (Ok o, w) | None => (Err not_found, w) end;
  Create k ns o w :=
    match known k w !! (ns, m_name (obj_meta o)) with
    | Some _ => (Err (mkKubeErr "already exists" false), w)
    | None => put ns o w
    end;
  Update k ns o w :=
    match known k w !! (ns, m_name (obj_meta o)) with
    | Some _ => put ns o w
    | None => (Err not_found, w)
    end;
  Delete k ns n w :=
    match known k w !! (ns, n) with
    | Some _ => (Ok tt, set_raw k (delete (ns, n) (raw k w)) w)
    | None => (Err not_found, w)
    end;
  List k ns sel w :=
    (Ok (snd <$> map_to_list (filter (λ kv, kv.1.1 = ns ∧ selects sel (m_labels (obj_meta kv.2)) = true)
           (known k w))), w) }.

(** ** It keeps the promises *)
Lemma split_equals_app key v :
  no_equals key = true → split_equals (key +:+ "=" +:+ v) = Some (key, v).
Proof.
  unfold no_equals. induction key as [|a key IH]; [done|]. rewrite string_app_cons. simpl.
  intros [Ha Hk]%andb_true_iff. apply negb_true_iff in Ha. by rewrite Ha, IH.
Qed.

Lemma known_raw k w key o : known k w !! key = Some o ↔
  raw k w !! key = Some o ∧ m_name (obj_meta o) = key.2.
Proof. unfold known. apply map_lookup_filter_Some. Qed.
Lemma raw_set_same k o w : raw k (set_raw k o w) = o.
Proof. by destruct k, w. Qed.
Lemma raw_set_other k k' o w : k' ≠ k → raw k' (set_raw k o w) = raw k' w.
Proof. by destruct k, k', w. Qed.
Lemma known_set_other k k' o w : k' ≠ k → known k' (set_raw k o w) = known k' w.
Proof. intros Hne. unfold known. by rewrite raw_set_other. Qed.
Lemma admitted_name k ns o : m_name (obj_meta (admitted k ns o)) = m_name (obj_meta o).
Proof. by destruct k. Qed.
Lemma admitted_stored k ns o : stored ns k o (admitted k ns o).
Proof.
  destruct k; split; try done; simpl; split_and!; try done; intros ? ->; done.
Qed.
Lemma put_spec k ns (o : obj Z k) w : ∃ w',
  put ns o w = (Ok (admitted k ns o), w') ∧ (∀ k', k' ≠ k → known k' w' = known k' w) ∧
  known k w' = <[(ns, m_name (obj_meta o)) := admitted k ns o]> (known k w).
Proof.
  eexists. split; [done|]. split; [intros; by apply known_set_other|].
  unfold known. rewrite raw_set_same. rewrite map_filter_insert_True; [done|].
  simpl. apply admitted_name.
Qed.

#[export] Instance world_KubernetesLaws : KubernetesLaws Z world.
Proof.
  refine {| objs := known |}.
  - intros k w ns n o [_ H]%known_raw. exact H.
  - intros k ns n w r w'. simpl. destruct (known k w !! (ns, n)) eqn:E; by intros [= <- <-].
  - intros k ns sel w r w'. simpl. intros [= <- <-]. split; [done|].
    intros key v l -> Hk [= <-] o. rewrite list_elem_of_fmap.
    setoid_rewrite elem_of_map_to_list'. split.
    + intros ([[ns' n] o'] & -> & Ho). simpl in Ho. apply map_lookup_filter_Some in Ho as [Ho [Hns Hs]].
      simpl in *. subst ns'. exists n. split; [done|]. unfold selects in Hs.
      rewrite split_equals_app in Hs by done. by apply bool_decide_eq_true in Hs.
    + intros (n & Ho & Hl). exists ((ns, n), o). split; [done|]. simpl. apply map_lookup_filter_Some.
      split; [done|]. split; [done|]. simpl. unfold selects. rewrite split_equals_app by done.
      by apply bool_decide_eq_true.
  - intros k ns o w r w'. simpl. destruct (known k w !! _) eqn:E; [by intros [= <- <-]; left|].
    destruct (put_spec k ns o w) as (w1 & -> & Hk & Hw). intros [= <- <-]. right.
    split_and!; [done|done|]. exists (admitted k ns o). split; [apply admitted_stored|done].
  - intros k ns o w r w'. simpl. destruct (known k w !! _) eqn:E; [|by intros [= <- <-]; left].
    destruct (put_spec k ns o w) as (w1 & -> & Hk & Hw). intros [= <- <-]. right.
    split_and!; [done|by eexists|]. exists (admitted k ns o). split; [apply admitted_stored|done].
  - intros k ns n w r w'. simpl. destruct (known k w !! _) eqn:E; intros [= <- <-].
    + right. split; [intros; by apply known_set_other|]. unfold known.
      rewrite raw_set_same. apply map_filter_delete.
    + left. split_and!; [done|done|]. by intros e [= <-].
Defined.

(** ** The control plane and the state file *)
Definition set_reports (l : list report) '(mkWorld a b c d e f g h _ j) : world :=
  mkWorld a b c d e f g h l j.
Definition set_file (o : option string) '(mkWorld a b c d e f g h i _) : world :=
  mkWorld a b c d e f g h i o.

#[export] Instance world_DeploymentClient : DeploymentClient world := {
  dc_GetDesiredState _ w := (w_desired w, w);
  dc_ReportDeploymentStatusWithCreds _ dep rel req w :=
    (Ok tt, set_reports (w_reports w ++ [StatusReport dep rel req]) w);
  dc_ReportDeploymentProgressWithCreds _ dep rel req w :=
    (Ok tt, set_reports (w_reports w ++ [ProgressReport dep rel req]) w) }.

Definition state_code (st : ReconcilerState) : positive :=
  encode (AppliedRevisions st, ReportedStatuses st, ReportedProgress st).
Definition state_of_code (p : positive) : option ReconcilerState :=
  (λ t : gmap string Z * gmap string string * gmap string string,
     mkRState t.1.1 t.1.2 t.2) <$> decode p.

#[export] Instance world_StateFile : StateFile world := {
  ReadFile w := match w_file w with Some s => (Ok s, w) | None => (Err NotExist, w) end;
  WriteFile s w := (Ok tt, set_file (Some s) w);
  MarshalState st := digits (state_code st);
  UnmarshalState s st :=
    match state_of_code (of_digits s) with
    | Some st' => (None, st')
    | None => (Some "invalid character"%string, st)
    end }.
Lemma world_codec st st0 : UnmarshalState (MarshalState st) st0 = (None, st).
Proof.
  simpl. rewrite of_digits_digits. unfold state_of_code, state_code. rewrite decode_encode.
  by destruct st.
Qed.

(** ** A scenario: a deployment with a config map and a volume claim, next to
    a config map of somebody else and an orphan of the platform *)
Definition demo_manager : Manager := NewManager "".
Definition demo_cm : DesiredConfigMap :=
  mkDesiredCM "settings" {["MODE"%string := "prod"%string]} ∅ ∅ ∅.
Definition demo_pvc : DesiredPVC :=
  mkDesiredPVC "data" "" ["ReadWriteOnce"%string] None "10" None ∅ ∅.
Definition demo_desired : Desired :=
  mkCPDesired "dep1" "rel1" "app1" "Shop" "shop" "" "reg/shop:1" 1 2 (Some 8080) [] None None
    None [demo_cm] [demo_pvc] [] "deploying".
Definition meta_of (n : string) (l : labels) : ObjectMeta := mkMeta n "default" l ∅ 1 "uid".
Definition foreign_cm : kube.ConfigMap :=
  kube.mkConfigMap (meta_of "theirs" ∅) {["a"%string := "b"%string]} ∅.
Definition orphan_cm : kube.ConfigMap :=
  kube.mkConfigMap (meta_of "orphan" {[LabelManagedBy := LabelManagedByValue]}) ∅ ∅.
Definition demo_world (desired : result client_error (list Desired)) : world :=
  mkWorld ∅ ∅
    (<[("default", "theirs")%string := foreign_cm]> {[("default", "orphan")%string := orphan_cm]})
    ∅ ∅ ∅ desired true [] None.
Definition demo_config (leader : bool) : Config world :=
  mkRConfig (mkCreds "east" "agent-1") (Some (λ _, leader)).
Definition demo_rw (w : world) : RW world := mkRW fresh_state [] w.

Example demo_cycle :
  let r := (reconcile (RM := manager_ResourceManager demo_manager) (demo_config true)
              (demo_rw (demo_world (Ok [demo_desired])))).2 in
  (map_to_list (known KConfigMap (r_world r))).*1 =
    [("default", "settings"); ("default", "theirs")]%string ∧
  (map_to_list (known KPVC (r_world r))).*1 = [("default", "data")]%string ∧
  r_metrics r = [ConfigMapApply; PVCApply; ConfigMapDelete] ∧
  length (w_reports (r_world r)) = 2%nat.
Proof. vm_compute. split_and!; reflexivity. Qed.
