(* ===== verification/ReconcilerCorrectness.v ===== *)
(** * Correctness of the agent's reconciliation

    The properties of a reconciliation cycle against any Kubernetes API and
    any control plane that keep their promises, with witnesses on the concrete
    world of [AgentDemo]. *)

From S2P Require Import Prelude Json AppErrors Events Domain Effects ControlPlane K8s Manager.
From S2P Require Import ManagerFacts Rollout Reconciler ReconcilerFacts AgentDemo.
Open Scope Z_scope.
Open Scope se_scope.

(** ** Computations that do not fail *)
Definition succeeds {E S A} (m : SE E S A) : Prop := ∀ s, is_ok (m s).1 = true.
Section Succeeds.
Context {E S : Type}.
Lemma succeeds_ret {A} (a : A) : succeeds (@ret E S A a).
Proof. done. Qed.
Lemma succeeds_read {A} (f : S → A) : succeeds (@read E S A f).
Proof. done. Qed.
Lemma succeeds_modify f : succeeds (@modify E S f).
Proof. done. Qed.
Lemma succeeds_bind {A B} (m : SE E S A) (k : A → SE E S B) :
  succeeds m → (∀ a, succeeds (k a)) → succeeds (bind m k).
Proof.
  intros Hm Hk s. specialize (Hm s). unfold bind. destruct (m s) as [[a|e] s1]; [apply Hk|done].
Qed.
Lemma succeeds_for_each {A} (f : A → SE E S unit) l : (∀ a, succeeds (f a)) → succeeds (for_each f l).
Proof. intros Hf. induction l; simpl; [done|by apply succeeds_bind]. Qed.
End Succeeds.
Lemma succeeds_call {W E A} (m : SE E W A) : succeeds (call m).
Proof. intros r. unfold call. by destruct (m (r_world r)). Qed.
Lemma succeeds_Inc {W} c : succeeds (@Inc W c).
Proof. done. Qed.
Lemma succeeds_update {W} f : succeeds (@update_state W f).
Proof. done. Qed.
Create HintDb succeeds.
#[export] Hint Resolve succeeds_ret succeeds_read succeeds_modify succeeds_call succeeds_Inc succeeds_update : succeeds.
Ltac solve_succeeds :=
  repeat first
    [ progress intros
    | solve [eauto 2 with succeeds]
    | apply succeeds_bind | apply succeeds_for_each | case_match ].

Section Reconcile.
Context {Q W : Type} `{HQ : Quantities Q} `{RM : !ResourceManager Q W} `{DC : !DeploymentClient W}
  `{SF : !StateFile W}.
Context (cfg : Config W).
Implicit Types (d : Desired) (l : list Desired) (r : RW W).

Lemma succeeds_reconcileDeployment d (spec : DeploymentSpec Q) : succeeds (reconcileDeployment cfg d spec).
Proof.
  unfold reconcileDeployment, reconcileConfigMaps, reconcileConfigMap, reconcilePVCs, reconcilePVC,
    reconcileIngresses, reconcileIngress, reportStatus, observe_deployment, reportProgress.
  solve_succeeds.
Qed.
Lemma succeeds_cleanup seen : succeeds (cleanup seen).
Proof.
  unfold cleanup, cleanupOrphanedDeployments, cleanupOrphanedConfigMaps, cleanupOrphanedPVCs,
    cleanupOrphanedIngresses, delete_orphans. solve_succeeds.
Qed.

(** A resource quantity of [d] that does not parse. *)
Definition quantities_of d : list string :=
  match cpd_requests d with Some r => [cpr_cpu r; cpr_memory r] | None => [] end ++
  match cpd_limits d with Some r => [cpr_cpu r; cpr_memory r] | None => [] end.
Definition malformed d : Prop :=
  ∃ q, q ∈ quantities_of d ∧ q ≠ "" ∧ is_ok (ParseQuantity (Q := Q) q) = false.

Lemma resource_list_None (res : option controlplane_ResourceSpec) :
  resource_list (Q := Q) res = None ↔
  ∃ q, q ∈ match res with Some x => [cpr_cpu x; cpr_memory x] | None => [] end ∧
    q ≠ "" ∧ is_ok (ParseQuantity (Q := Q) q) = false.
Proof.
  destruct res as [[c mem]|]; simpl.
  2: { split; [done|]. by intros (q & ?%not_elem_of_nil & _). }
  assert (Hex : ∀ P : string → Prop, (∃ q, q ∈ [c; mem] ∧ P q) ↔ P c ∨ P mem).
  { intros P. split.
    - by intros (q & [->|[->|?%not_elem_of_nil]%elem_of_cons]%elem_of_cons & HP); auto.
    - intros [?|?]; [exists c|exists mem]; split; auto using elem_of_cons; set_solver. }
  rewrite Hex. unfold MustParse.
  destruct (String.eqb_spec c "") as [Hc|Hc]; destruct (String.eqb_spec mem "") as [Hm|Hm];
    simpl; destruct (ParseQuantity c); simpl; destruct (ParseQuantity mem); simpl;
    intuition congruence.
Qed.
Lemma FromDesiredDeployment_None d :
  FromDesiredDeployment (Q := Q) d = None ↔ malformed d.
Proof.
  unfold FromDesiredDeployment, malformed, quantities_of. setoid_rewrite elem_of_app.
  pose proof (resource_list_None (cpd_requests d)) as H1.
  pose proof (resource_list_None (cpd_limits d)) as H2.
  destruct (resource_list (cpd_requests d)); simpl; [|naive_solver].
  destruct (resource_list (cpd_limits d)); simpl; naive_solver.
Qed.

(** The loop reaches the first active deployment it cannot convert. *)
Lemma reconcile_all_ok l : ∀ seen r,
  (∀ d, d ∈ l → active d = true → ¬ malformed d) →
  ∃ seen' r', reconcile_all cfg seen l r = (Ok seen', r').
Proof.
  induction l as [|d l IH]; intros seen r Hl; simpl; [by do 2 eexists|].
  assert (Hrest : ∀ d, d ∈ l → active d = true → ¬ malformed d).
  { intros d' Hd'. apply Hl. by right. }
  pose proof (Hl d ltac:(left)) as Hd. unfold active in Hd.
  destruct (String.eqb (cpd_status d) "deleted"); [by apply IH|].
  rewrite <- FromDesiredDeployment_None in Hd.
  destruct (FromDesiredDeployment d) as [spec|]; [|by destruct Hd].
  pose proof (succeeds_reconcileDeployment d spec r) as Ht. unfold bind.
  destruct (reconcileDeployment cfg d spec r) as [[x|e] r1]; [by apply IH|done].
Qed.
Lemma reconcile_all_panics l1 d l2 : ∀ seen r,
  (∀ d, d ∈ l1 → active d = true → ¬ malformed d) → active d = true → malformed d →
  reconcile_all cfg seen (l1 ++ d :: l2) r =
    (Err Panicked, (reconcile_all cfg seen l1 r).2).
Proof.
  induction l1 as [|d1 l1 IH]; intros seen r Hl Ha Hm; simpl.
  - unfold active in Ha. apply negb_true_iff in Ha. rewrite Ha.
    by rewrite (proj2 (FromDesiredDeployment_None d) Hm).
  - assert (Hrest : ∀ d, d ∈ l1 → active d = true → ¬ malformed d).
    { intros d' Hd'. apply Hl. by right. }
    pose proof (Hl d1 ltac:(left)) as Hd. unfold active in Hd.
    destruct (String.eqb (cpd_status d1) "deleted"); [by apply IH|].
    rewrite <- FromDesiredDeployment_None in Hd.
    destruct (FromDesiredDeployment d1) as [spec|]; [|by destruct Hd].
    pose proof (succeeds_reconcileDeployment d1 spec r) as Ht. unfold bind.
    destruct (reconcileDeployment cfg d1 spec r) as [[x|e] r1]; [by apply IH|done].
Qed.
Lemma first_malformed l :
  (∃ l1 d l2, l = l1 ++ d :: l2 ∧ (∀ d, d ∈ l1 → active d = true → ¬ malformed d) ∧
     active d = true ∧ malformed d) ∨
  (∀ d, d ∈ l → active d = true → ¬ malformed d).
Proof.
  induction l as [|d l IH]; [right; by intros d ?%not_elem_of_nil|].
  assert (Hdec : (active d = true ∧ malformed d) ∨ (active d = true → ¬ malformed d)).
  { rewrite <- FromDesiredDeployment_None.
    destruct (active d), (FromDesiredDeployment (Q := Q) d) eqn:E; auto. }
  destruct Hdec as [[Ha Hm]|Hd].
  { left. exists [], d, l. split_and!; [done| |done..]. by intros d' ?%not_elem_of_nil. }
  destruct IH as [(l1 & d' & l2 & -> & Hl1 & ? & ?)|Hl].
  - left. exists (d :: l1), d', l2. split_and!; [done| |done..].
    intros d'' [->|?]%elem_of_cons; auto.
  - right. intros d'' [->|?]%elem_of_cons; auto.
Qed.

(** The state after the fetch. *)
Definition fetched r : RW W :=
  mkRW (r_state r) (r_metrics r) (dc_GetDesiredState (rc_creds cfg) (r_world r)).2.
Definition leads r : bool :=
  match IsLeader cfg with Some f => f (r_world r) | None => true end.

Lemma reconcile_eq r :
  reconcile cfg r =
    if leads r then
      match (dc_GetDesiredState (rc_creds cfg) (r_world r)).1 with
      | Ok l => run_cycle (Q := Q) cfg l (fetched r)
      | Err _ => (Ok tt, fetched r)
      end
    else (Ok tt, mkRW (r_state r) (r_metrics r ++ [ReconcileSkipped]) (r_world r)).
Proof.
  unfold reconcile, is_leader, read, call, bind at 1. fold (leads r). unfold fetched.
  destruct (leads r); [|done]. unfold negb, bind at 1.
  by destruct (dc_GetDesiredState (rc_creds cfg) (r_world r)) as [[l|e] w1].
Qed.

(** A cycle of a follower only counts itself as skipped; one that cannot
    fetch the desired state does nothing more. Otherwise it completes exactly
    when every active deployment's resource quantities parse; the first one
    that does not panics the agent: no deployment after it is reconciled,
    nothing is cleaned up and the state is not saved. *)
Theorem reconcile_outcome r :
  (leads r = false →
     reconcile cfg r = (Ok tt, mkRW (r_state r) (r_metrics r ++ [ReconcileSkipped]) (r_world r))) ∧
  (leads r = true →
     match (dc_GetDesiredState (rc_creds cfg) (r_world r)).1 with
     | Err e => reconcile cfg r = (Ok tt, fetched r)
     | Ok l =>
         ((reconcile cfg r).1 = Err Panicked ↔ ∃ d, d ∈ l ∧ active d = true ∧ malformed d) ∧
         ∀ l1 d l2, l = l1 ++ d :: l2 →
           (∀ d, d ∈ l1 → active d = true → ¬ malformed d) → active d = true → malformed d →
           (reconcile cfg r).2 = (reconcile_all cfg nothing_seen l1 (fetched r)).2
     end).
Proof.
  rewrite reconcile_eq. split; intros ->; [done|].
  destruct (dc_GetDesiredState (rc_creds cfg) (r_world r)).1 as [l|e]; [|done]. split.
  - destruct (first_malformed l) as [(l1 & d & l2 & -> & Hl1 & Ha & Hm)|Hl].
    + unfold run_cycle, bind at 1. rewrite reconcile_all_panics by done. simpl.
      split; [|done]. intros _. exists d. split; [|done]. set_solver.
    + destruct (reconcile_all_ok l nothing_seen (fetched r) Hl)
        as (seen & r1 & E).
      assert (Hok : is_ok (run_cycle (Q := Q) cfg l (fetched r)).1 = true).
      { unfold run_cycle, bind at 1. rewrite E.
        revert r1 E. assert (Ht : succeeds (cleanup (Q := Q) seen ;; let* _ := saveState in ret tt))
          by (unfold saveState; solve_succeeds; apply succeeds_cleanup).
        intros r1 _. apply Ht. }
      split; [intros He; rewrite He in Hok; done|]. intros (d & Hd & Ha & Hm). by destruct (Hl d).
  - intros l1 d l2 -> Hl1 Ha Hm. unfold run_cycle, bind at 1.
    by rewrite reconcile_all_panics.
Qed.
End Reconcile.

(** A malformed CPU quantity panics the agent before anything is applied. *)
Definition demo_malformed : Desired :=
  mkCPDesired "dep2" "rel2" "app2" "Bad" "bad" "" "reg/bad:1" 1 1 None []
    (Some (mkCPRes "lots" "")) None None [] [] [] "deploying".
Lemma reconcile_outcome_witness :
  (reconcile (RM := manager_ResourceManager demo_manager) (demo_config true)
     (demo_rw (demo_world (Ok [demo_malformed; demo_desired])))).1 = Err Panicked ∧
  (reconcile (RM := manager_ResourceManager demo_manager) (demo_config true)
     (demo_rw (demo_world (Ok [demo_malformed; demo_desired])))).2 =
  demo_rw (demo_world (Ok [demo_malformed; demo_desired])) ∧
  reconcile (RM := manager_ResourceManager demo_manager) (demo_config false)
    (demo_rw (demo_world (Ok [demo_desired]))) =
  (Ok tt, mkRW fresh_state [ReconcileSkipped] (demo_world (Ok [demo_desired]))).
Proof.
  assert (Hm : malformed (Q := Z) demo_malformed).
  { exists "lots"%string. split; [left|done]. }
  destruct (reconcile_outcome (RM := manager_ResourceManager demo_manager) (demo_config true)
              (demo_rw (demo_world (Ok [demo_malformed; demo_desired])))) as [_ H].
  destruct (H eq_refl) as [H1 H2]. split; [|split].
  - apply H1. exists demo_malformed. split; [left|done].
  - apply (H2 [] demo_malformed [demo_desired]); [done| |done|done].
    by intros d ?%not_elem_of_nil.
  - exact (proj1 (reconcile_outcome (RM := manager_ResourceManager demo_manager)
      (demo_config false) (demo_rw (demo_world (Ok [demo_desired])))) eq_refl).
Defined.

(** ** The cluster *)
Section Cluster.
Context {Q W : Type} `{HQ : Quantities Q} `{HQL : !QuantityLaws Q} `{HK : !Kubernetes Q W}
  `{HKL : !KubernetesLaws Q W} `{DC : !DeploymentClient W} `{SF : !StateFile W}.
Implicit Types (m : Manager) (cfg : Config W) (l : list Desired) (w : W).

#[export] Instance same_objs_preorder : PreOrder (same_objs (Q := Q) (K := W)).
Proof. split; [done|]. intros w1 w2 w3. apply same_objs_trans. Qed.

(** The calls to the control plane and to the state file are not to the
    cluster. *)
Class ClusterUntouched : Prop := {
  cu_fetch : ∀ c, preserves (same_objs (Q := Q)) (dc_GetDesiredState (W := W) c);
  cu_status : ∀ c x y req,
    preserves (same_objs (Q := Q)) (dc_ReportDeploymentStatusWithCreds (W := W) c x y req);
  cu_progress : ∀ c x y req,
    preserves (same_objs (Q := Q)) (dc_ReportDeploymentProgressWithCreds (W := W) c x y req);
  cu_write : ∀ data, preserves (same_objs (Q := Q)) (WriteFile (W := W) data) }.
Context `{HC : ClusterUntouched}.

Lemma respects_cycle m cfg l :
  respects (RM := manager_ResourceManager m) cfg l (cycle_rel (Q := Q) m (declared l)).
Proof.
  assert (Hsame : ∀ E A (c : SE E W A), preserves (same_objs (Q := Q)) c →
            preserves (cycle_rel (Q := Q) m (declared l)) c).
  { intros E A c Hc w. apply cycle_rel_same, Hc. }
  assert (Hin : ∀ k d n, d ∈ l → active d = true → declares k d n →
            n ∈ names_of k (declared l)).
  { intros k d n Hd Ha Hn. apply declared_spec. by exists d. }
  split; simpl; intros.
  - apply cycle_ApplyDeployment.
  - apply cycle_ApplyService.
  - apply cycle_GetDeploymentStatus.
  - apply preserves_bind; [apply _|apply cycle_GetPodHealth|]. intros h. apply preserves_ret, _.
  - apply cycle_list_names.
  - apply cycle_list_names.
  - apply cycle_list_names.
  - apply cycle_list_names.
  - apply cycle_ApplyConfigMap, (Hin KConfigMap d (dcm_name cm)); [done..|].
    by apply list_elem_of_fmap_2.
  - assert (Hname : ps_name spec = dpvc_name pvc).
    { unfold FromDesiredPVC in *. repeat case_match; by simplify_eq. }
    apply cycle_ApplyPVC. rewrite Hname.
    apply (Hin KPVC d (dpvc_name pvc)); [done..|]. by apply list_elem_of_fmap_2.
  - apply cycle_ApplyIngress, (Hin KIngress d (ding_name ing)); [done..|].
    by apply list_elem_of_fmap_2.
  - apply cycle_DeleteDeployment.
  - by apply cycle_delete_owned.
  - by apply cycle_delete_owned.
  - by apply cycle_delete_owned.
  - apply Hsame, cu_status.
  - apply Hsame, cu_progress.
  - apply Hsame, cu_write.
Qed.

(** C7. Of config maps, volume claims and ingresses, a reconciliation cycle,
    whatever fails and even if it panics, leaves every one that is not the
    platform's as it is; a surviving volume claim keeps its access modes, class
    and volume mode and never shrinks; one of these three kinds disappears only
    if it is the platform's, in the agent's namespace, and declared by no active
    deployment of the desired state; and every new one is labelled as the
    platform's and declared by an active deployment.  (Nothing of the sort is
    said of Deployments and Services: the code takes those over whoever owns
    them, and deletes a Service by its name.) *)
Theorem cluster_cycle_safe m cfg (r : RW W) :
  let r' := (reconcile (RM := manager_ResourceManager m) cfg r).2 in
  same_objs (Q := Q) (r_world r) (r_world r') ∨
  ∃ l, (dc_GetDesiredState (rc_creds cfg) (r_world r)).1 = Ok l ∧
    cycle_rel (Q := Q) m (declared l) (r_world r) (r_world r').
Proof.
  simpl. rewrite (reconcile_eq (RM := manager_ResourceManager m)).
  destruct (leads cfg r); [|by left]. pose proof (cu_fetch (rc_creds cfg) (r_world r)) as Hf.
  destruct (dc_GetDesiredState (rc_creds cfg) (r_world r)).1 as [l|e] eqn:E; [|by left].
  right. exists l. split; [done|].
  transitivity (r_world (fetched cfg r)); [by apply cycle_rel_same|].
  apply (preserves_run_cycle (RM := manager_ResourceManager m) cfg
           (cycle_rel m (declared l)) l (respects_cycle m cfg l)).
Qed.
End Cluster.

#[export] Instance world_ClusterUntouched : ClusterUntouched (Q := Z) (W := world).
Proof. split; intros; intros w; by destruct w. Qed.
Definition demo_run (desired : result client_error (list Desired)) : RW world :=
  (reconcile (RM := manager_ResourceManager demo_manager) (demo_config true)
     (demo_rw (demo_world desired))).2.

(** The foreign config map is where it was; the orphan is gone. *)
Lemma cluster_cycle_safe_witness :
  (∃ o', objs KConfigMap (r_world (demo_run (Ok [demo_desired]))) !! ("default", "theirs")%string =
         Some o' ∧ o' = foreign_cm) ∧
  bool_decide (is_Some (objs (Q := Z) KConfigMap (r_world (demo_run (Ok [demo_desired]))) !!
                 ("default", "orphan")%string)) = false.
Proof.
  split; [|by vm_compute].
  destruct (cluster_cycle_safe demo_manager (demo_config true)
              (demo_rw (demo_world (Ok [demo_desired])))) as [Hs|(l & Hl & Hc)].
  - exists foreign_cm. split; [|done]. unfold demo_run.
    rewrite (Hs KConfigMap). by vm_compute.
  - destruct (cr_kept _ _ _ _ Hc KConfigMap ("default", "theirs")%string foreign_cm eq_refl
                ltac:(by vm_compute)) as [(o' & Ho' & _ & Hsame & _)|(Hown & _)].
    + exists o'. split; [exact Ho'|]. apply Hsame. by vm_compute.
    + by vm_compute in Hown.
Defined.

(** ** Garbage collection *)

(** Without faults the clean-up of a cycle deletes exactly the platform's
    deployments, config maps, volume claims and ingresses of the agent's
    namespace that no active deployment declares, and the services named like
    such a deployment (whoever owns them); nothing else changes. *)
Theorem cleanup_exact {Q W} `{HQ : Quantities Q} `{HK : !Kubernetes Q W}
    `{HKL : !KubernetesLaws Q W} (HF : Faultless (Q := Q) (W := W)) (m : Manager) (seen : Seen)
    (r : RW W) :
  ∃ r', cleanup (RM := manager_ResourceManager m) seen r = (Ok tt, r') ∧
  (∀ k, k ∈ [KDeployment; KConfigMap; KPVC; KIngress] →
     objs k (r_world r') = filter (λ kv, ¬ undeclared m k (names_of k seen) kv) (objs k (r_world r))) ∧
  objs KService (r_world r') =
    filter (λ kv, ¬ service_of_undeclared m (seen_deployments seen) (r_world r) kv)
      (objs KService (r_world r)) ∧
  objs KPod (r_world r') = objs KPod (r_world r).
Proof.
  unfold cleanup.
  destruct (cleanupOrphanedDeployments_exact m (seen_deployments seen) r)
    as (r1 & E1 & Hk1 & Hd1 & Hs1).
  destruct (collector_exact m KConfigMap "configmap" "list configmaps" ConfigMapDelete
              (seen_configmaps seen) r1 (λ e, Some ("list managed configmaps: " +:+ e)))
    as (r2 & E2 & Hk2 & H2).
  destruct (collector_exact m KPVC "pvc" "list pvcs" PVCDelete
              (seen_pvcs seen) r2 (λ e, Some ("list managed pvcs: " +:+ e)))
    as (r3 & E3 & Hk3 & H3).
  destruct (collector_exact m KIngress "ingress" "list ingresses" IngressDelete
              (seen_ingresses seen) r3 (λ e, Some ("list managed ingresses: " +:+ e)))
    as (r4 & E4 & Hk4 & H4).
  exists r4. rewrite (bind_Ok _ _ _ _ _ E1), (bind_Ok _ _ _ _ _ E2), (bind_Ok _ _ _ _ _ E3),
    (bind_Ok _ _ _ _ _ E4).
  split; [done|]. split_and!.
  - intros k Hk. rewrite !elem_of_cons in Hk.
    destruct Hk as [->|[->|[->|[->|?%not_elem_of_nil]]]]; [..|done]; simpl names_of.
    + by rewrite Hk4, Hk3, Hk2.
    + by rewrite Hk4, Hk3, H2, Hk1.
    + by rewrite Hk4, H3, Hk2, Hk1.
    + by rewrite H4, Hk3, Hk2, Hk1.
  - by rewrite Hk4, Hk3, Hk2.
  - by rewrite Hk4, Hk3, Hk2, Hk1.
Qed.

#[export] Instance world_Faultless : Faultless (Q := Z) (W := world).
Proof.
  split.
  - intros k ns n w e w'. simpl. case_match; by intros [= <- <-].
  - intros k ns n w e w'. simpl. case_match; by intros [= <- <-].
  - by intros k ns sel w e w'.
Qed.
Lemma cleanup_exact_witness :
  ∃ r', cleanup (RM := manager_ResourceManager demo_manager) (mkSeen ∅ {["settings"%string]} ∅ ∅)
          (demo_rw (demo_world (Ok []))) = (Ok tt, r') ∧
    objs KConfigMap (r_world r') !! ("default", "orphan")%string = None.
Proof.
  destruct (cleanup_exact world_Faultless demo_manager (mkSeen ∅ {["settings"%string]} ∅ ∅)
              (demo_rw (demo_world (Ok [])))) as (r' & E & Hk & _).
  exists r'. split; [exact E|]. rewrite (Hk KConfigMap ltac:(right; left)).
  apply map_lookup_filter_None. right. intros o Ho Hn. apply Hn. split; [|split; [done|]].
  - assert (Hb : objs KConfigMap (demo_world (Ok [])) !! ("default", "orphan")%string =
                 Some orphan_cm) by by vm_compute.
    pose proof (eq_trans (eq_sym Hb) Ho) as Heq. injection Heq as <-. by vm_compute.
  - apply (bool_decide_eq_true_1 _). by vm_compute.
Defined.

(** ** Applications settle *)

(** C8. After a successful application of a deployment, service, config map,
    volume claim or ingress, applying the same specification again to the same
    objects changes nothing: it reports no operation, or the same skipped
    immutable change (for a claim whose specification does not name an empty
    class or volume mode), unless the read fails. *)
Theorem applications_settle {Q W} `{HQ : Quantities Q} `{HQL : !QuantityLaws Q}
    `{HK : !Kubernetes Q W} `{HKL : !KubernetesLaws Q W} (m : Manager) :
  (∀ spec, settles (Q := Q) (ApplyDeployment (K := W) m spec)) ∧
  (∀ spec, settles (Q := Q) (ApplyService (K := W) m spec)) ∧
  (∀ spec, settles (Q := Q) (ApplyConfigMap (K := W) m spec)) ∧
  (∀ spec, ps_class spec ≠ Some ""%string → ps_volume_mode spec ≠ Some ""%string →
     settles (Q := Q) (ApplyPVC (K := W) m spec)) ∧
  (∀ spec, settles (Q := Q) (ApplyIngress (K := W) m spec)).
Proof.
  split_and!; intros.
  - apply ApplyDeployment_settles.
  - apply ApplyService_settles.
  - apply ApplyConfigMap_settles.
  - by apply ApplyPVC_settles.
  - apply ApplyIngress_settles.
Qed.
Definition demo_cm_spec : ConfigMapSpec := FromDesiredConfigMap demo_desired demo_cm.
Definition demo_applied : world :=
  (ApplyConfigMap demo_manager demo_cm_spec (demo_world (Ok []))).2.
Lemma applications_settle_witness :
  (ApplyConfigMap demo_manager demo_cm_spec (demo_world (Ok []))).1 = Ok created ∧
  same_objs (Q := Z) demo_applied (ApplyConfigMap demo_manager demo_cm_spec demo_applied).2.
Proof.
  assert (H1 : (ApplyConfigMap demo_manager demo_cm_spec (demo_world (Ok []))).1 = Ok created)
    by by vm_compute.
  split; [exact H1|].
  destruct (applications_settle (Q := Z) (W := world) demo_manager) as (_ & _ & H & _).
  destruct (ApplyConfigMap demo_manager demo_cm_spec (demo_world (Ok []))) as [x w1] eqn:E.
  simpl in H1. subst x. unfold demo_applied. rewrite E. cbn [snd].
  destruct (ApplyConfigMap demo_manager demo_cm_spec w1) as [y w2] eqn:E2.
  cbn [snd]. exact (proj1 (H demo_cm_spec _ _ _ E w1 y w2 (λ _, eq_refl) E2)).
Defined.

(** ** Reports *)
Section Reports.
Context {Q W : Type} `{HQ : Quantities Q} `{HK : !Kubernetes Q W} `{DC : !DeploymentClient W}
  `{SF : !StateFile W}.
Implicit Types (m : Manager) (cfg : Config W) (l : list Desired) (w : W).

(** A record of what the control plane received: a report that fails may or
    may not have arrived; nothing else sends one. *)
Class Receives := {
  received : W → list report;
  rc_status : ∀ c x y req w,
    let w' := (dc_ReportDeploymentStatusWithCreds c x y req w).2 in
    received w' = received w ∨ received w' = received w ++ [StatusReport x y req];
  rc_progress : ∀ c x y req w,
    let w' := (dc_ReportDeploymentProgressWithCreds c x y req w).2 in
    received w' = received w ∨ received w' = received w ++ [ProgressReport x y req];
  rc_fetch : ∀ c w, received (dc_GetDesiredState c w).2 = received w;
  rc_write : ∀ data w, received (WriteFile data w).2 = received w;
  rc_Get : ∀ k ns n w, received (Get (Q := Q) k ns n w).2 = received w;
  rc_Create : ∀ k ns o w, received (Create (Q := Q) k ns o w).2 = received w;
  rc_Update : ∀ k ns o w, received (Update (Q := Q) k ns o w).2 = received w;
  rc_Delete : ∀ k ns n w, received (Delete (Q := Q) k ns n w).2 = received w;
  rc_List : ∀ k ns sel w, received (List (Q := Q) k ns sel w).2 = received w }.
Context `{HRc : Receives}.

Definition reports_on l (w w' : W) : Prop :=
  ∃ tail, received w' = received w ++ tail ∧ Forall (λ rep, acceptable rep ∧ about l rep) tail.
#[local] Instance reports_on_preorder l : PreOrder (reports_on l).
Proof.
  split.
  - intros w. exists []. by rewrite app_nil_r.
  - intros w1 w2 w3 (t1 & H1 & F1) (t2 & H2 & F2). exists (t1 ++ t2).
    rewrite H2, H1, app_assoc. split; [done|]. by apply Forall_app.
Qed.
Lemma reports_none l w w' : received w' = received w → reports_on l w w'.
Proof. intros H. exists []. by rewrite app_nil_r. Qed.
Lemma reports_one l w w' rep :
  received w' = received w ∨ received w' = received w ++ [rep] →
  acceptable rep → about l rep → reports_on l w w'.
Proof.
  intros [H|H] Ha Hb; [by apply reports_none|]. exists [rep]. split; [done|].
  by apply Forall_singleton.
Qed.

Definition silent {E A} (c : SE E W A) : Prop := ∀ w, received (c w).2 = received w.
Lemma silent_reports l {E A} (c : SE E W A) : silent c → preserves (reports_on l) c.
Proof. intros H w. apply reports_none, H. Qed.
Lemma silent_inspect l {A} (c : SE kube_error W A) :
  silent c → preserves (reports_on l) (inspect c).
Proof. intros Hc w. apply reports_none. specialize (Hc w). unfold inspect. by destruct (c w). Qed.
Lemma silent_wrap l {A} context (c : SE kube_error W A) :
  silent c → preserves (reports_on l) (wrap context c).
Proof.
  intros Hc w. apply reports_none. specialize (Hc w). unfold wrap. by destruct (c w) as [[?|?] ?].
Qed.
Ltac solve_silent :=
  repeat first
    [ apply silent_inspect; intros ?; first [apply rc_Get | apply rc_Delete]
    | apply silent_wrap; intros ?; first [apply rc_Create | apply rc_Update | apply rc_List]
    | case_match
    | preserves_step ].

Lemma respects_reports m cfg l :
  respects (RM := manager_ResourceManager m) cfg l (reports_on l).
Proof.
  split; simpl; intros.
  16: { intros w. eapply reports_one; [apply rc_status|by apply status_request_acceptable|].
        by exists d. }
  16: { intros w. eapply reports_one; [apply rc_progress|by apply progress_request_acceptable|].
        by exists d. }
  16: { intros w. apply reports_none, rc_write. }
  all: unfold ApplyDeployment, ApplyService, GetDeploymentStatus, GetPodHealth,
    ListManagedDeployments, ListManagedConfigMaps, ListManagedPVCs, ListManagedIngresses,
    list_names, ApplyConfigMap, ApplyPVC, ApplyIngress, DeleteDeployment, DeleteConfigMap,
    DeletePVC, DeleteIngress, delete_owned, delete_tolerant; solve_silent.
Qed.

(** C9. Every report a cycle sends passes the control plane's validation of its
    fields: it has a release status an agent may report, with a positive number of
    ready replicas and a non-empty error if any; or a rollout phase other than
    [Rollback] with a percentage between 0 and 100; and it is about a release of
    an active deployment of the desired state.  (Whether the control plane then
    takes it depends on the state of that release: see
    [superseded_failure_rejected].) *)
Theorem agent_reports_valid m cfg (r : RW W) :
  let r' := (reconcile (RM := manager_ResourceManager m) cfg r).2 in
  ∃ tail, received (r_world r') = received (r_world r) ++ tail ∧
    Forall (λ rep, acceptable rep ∧
      ∃ l, (dc_GetDesiredState (rc_creds cfg) (r_world r)).1 = Ok l ∧ about l rep) tail.
Proof.
  simpl. rewrite (reconcile_eq (RM := manager_ResourceManager m)).
  destruct (leads cfg r); [|exists []; by rewrite app_nil_r].
  pose proof (rc_fetch (rc_creds cfg) (r_world r)) as Hf.
  destruct (dc_GetDesiredState (rc_creds cfg) (r_world r)).1 as [l|e].
  2: { exists []. by rewrite app_nil_r. }
  destruct (preserves_run_cycle (RM := manager_ResourceManager m) cfg (reports_on l) l
             (respects_reports m cfg l) (fetched cfg r)) as (tail & Ht & HF).
  exists tail. split; [by rewrite Ht; unfold fetched; simpl; rewrite Hf|].
  eapply Forall_impl; [exact HF|]. intros rep [Ha Hb]. split; [done|]. by exists l.
Qed.
End Reports.

#[export] Instance world_Receives : Receives (Q := Z) (W := world).
Proof.
  refine {| received := w_reports |}; simpl; intros; try (by destruct w); try (by right; destruct w).
  - by case_match.
  - case_match; [done|]. unfold put. by destruct k, w.
  - case_match; [|done]. unfold put. by destruct k, w.
  - case_match; [|done]. by destruct k, w.
Defined.
Lemma agent_reports_valid_witness :
  length (received (r_world (demo_run (Ok [demo_desired])))) = 2%nat ∧
  Forall acceptable (received (r_world (demo_run (Ok [demo_desired])))).
Proof.
  split; [by vm_compute|].
  destruct (agent_reports_valid demo_manager (demo_config true)
              (demo_rw (demo_world (Ok [demo_desired])))) as (tail & Ht & HF).
  unfold demo_run. rewrite Ht. eapply Forall_impl; [exact HF|]. by intros rep [Ha _].
Defined.
