(* ===== verification/ReportCorrectness.v ===== *)
(** * Correctness of the agent's reports

    The specification of the reports one observed deployment gives rise to, in
    terms of the object in the cluster, and the lemmas that relate it to the
    loops of [deployment_status].  Which reports an observed deployment gives
    rise to on every branch, that an unchanged rollout is reported once, and that
    the agent's state survives a restart; with witnesses on the world of
    [AgentDemo]. *)

From S2P Require Import Prelude Json AppErrors Events Domain Rollout Effects ControlPlane K8s Manager ManagerFacts Reconciler.
From S2P Require Import ReconcilerFacts AgentDemo ReconcilerCorrectness.
Open Scope Z_scope.
Open Scope se_scope.

(** ** The verdict on a deployment *)
Definition failing_condition (c : kube.Condition) : Prop :=
  kube.c_type c = "Progressing" ∧ kube.c_status c = "False" ∨
  kube.c_type c = "ReplicaFailure" ∧ kube.c_status c = "True".
#[export] Instance failing_condition_dec c : Decision (failing_condition c).
Proof. unfold failing_condition. apply _. Defined.

Section Verdict.
Context {Q : Type}.
Implicit Types dep : kube.Deployment Q.
(** As many replicas are ready and up to date as are asked for. *)
Definition rolled_out dep : Prop := ∃ n,
  kube.Replicas (kube.dep_spec dep) = Some n ∧
  n ≤ kube.st_ready (kube.dep_status dep) ∧ n ≤ kube.st_updated (kube.dep_status dep).
(** The last condition that signals a failure. *)
Definition failure dep : option kube.Condition :=
  last (filter failing_condition (kube.st_conditions (kube.dep_status dep))).
(** The controller has not acted on the specification yet. *)
Definition unobserved dep : Prop :=
  0 < m_generation (kube.dep_meta dep) ∧
  kube.st_observed (kube.dep_status dep) < m_generation (kube.dep_meta dep).

Inductive verdict (reported : string) dep : list DeploymentStatusRequest → Prop :=
| verdict_succeeded req :
    rolled_out dep → reported ≠ CPStatusSucceeded →
    sr_status req = CPStatusSucceeded → sr_error req = None →
    sr_ready req = (if bool_decide (0 < kube.st_ready (kube.dep_status dep))
                    then Some (kube.st_ready (kube.dep_status dep)) else None) →
    verdict reported dep [req]
| verdict_failed req c :
    ¬ (rolled_out dep ∧ reported ≠ CPStatusSucceeded) → failure dep = Some c →
    reported ≠ CPStatusFailed → sr_status req = CPStatusFailed → sr_ready req = None →
    sr_error req = (if bool_decide (kube.c_message c = "") then None else Some (kube.c_message c)) →
    verdict reported dep [req]
| verdict_none :
    ¬ (rolled_out dep ∧ reported ≠ CPStatusSucceeded) →
    ¬ (is_Some (failure dep) ∧ reported ≠ CPStatusFailed) → verdict reported dep [].

Lemma ds_ready_rolled_out dep : ds_ready (deployment_status dep) = true ↔ rolled_out dep.
Proof.
  unfold rolled_out. simpl. destruct (kube.Replicas (kube.dep_spec dep)) as [n|].
  - rewrite andb_true_iff, !Z.leb_le. split; [by exists n|]. by intros (? & [= <-] & ?).
  - split; [done|]. by intros (? & ? & _).
Qed.

Lemma note_condition_spec f c :
  ff_failed (note_condition f c) = (if bool_decide (failing_condition c) then true else ff_failed f) ∧
  ff_message (note_condition f c) =
    (if bool_decide (failing_condition c) then kube.c_message c else ff_message f).
Proof.
  unfold note_condition, failing_condition.
  destruct (String.eqb_spec (kube.c_type c) "Progressing") as [H1|H1],
    (String.eqb_spec (kube.c_status c) "False") as [H2|H2],
    (String.eqb_spec (kube.c_type c) "ReplicaFailure") as [H3|H3],
    (String.eqb_spec (kube.c_status c) "True") as [H4|H4];
    simpl; try congruence; case_bool_decide as H; try done; naive_solver.
Qed.
Lemma fold_note_condition l : ∀ f,
  ff_failed (fold_left note_condition l f) =
    (match last (filter failing_condition l) with Some _ => true | None => ff_failed f end) ∧
  ff_message (fold_left note_condition l f) =
    (match last (filter failing_condition l) with
     | Some c => kube.c_message c
     | None => ff_message f
     end).
Proof.
  induction l as [|c l IH]; intros f; simpl; [done|].
  destruct (IH (note_condition f c)) as [-> ->].
  destruct (note_condition_spec f c) as [-> ->]. rewrite filter_cons.
  case_bool_decide as H; [rewrite decide_True by done|rewrite decide_False by done; done].
  rewrite last_cons. by destruct (last (filter failing_condition l)).
Qed.
Lemma ds_failed_failure dep :
  ds_failed (deployment_status dep) = true ↔ is_Some (failure dep).
Proof.
  simpl. rewrite (proj1 (fold_note_condition _ _)). fold (failure dep).
  destruct (failure dep) as [c|]; (split; [|by try (intros [? ?])]); [by exists c|done].
Qed.
Lemma ds_failure_message_failure dep c :
  failure dep = Some c → ds_failure_message (deployment_status dep) = kube.c_message c.
Proof.
  intros H. simpl. rewrite (proj2 (fold_note_condition _ _)). unfold failure in H. by rewrite H.
Qed.

(** The two flags a snapshot fails on come with a failing condition. *)
Lemma no_failure_flags l : ∀ f,
  Forall (λ c, ¬ failing_condition c) l → fold_left note_condition l f = f.
Proof.
  induction l as [|c l IH]; intros f Hl; simpl; [done|].
  apply Forall_cons in Hl as [Hc Hl]. rewrite <- (IH f Hl) at 2. f_equal.
  unfold note_condition, failing_condition in *.
  destruct (String.eqb_spec (kube.c_type c) "Progressing"),
    (String.eqb_spec (kube.c_status c) "False"),
    (String.eqb_spec (kube.c_type c) "ReplicaFailure"),
    (String.eqb_spec (kube.c_status c) "True"); simpl; try done; naive_solver.
Qed.
Lemma failure_None dep : failure dep = None →
  ds_deadline_exceeded (deployment_status dep) = false ∧
  ds_replica_failure (deployment_status dep) = false.
Proof.
  unfold failure. intros H%last_None. simpl. rewrite no_failure_flags; [done|].
  apply Forall_forall. intros c Hc Hf.
  assert (Hin : c ∈ filter failing_condition (kube.st_conditions (kube.dep_status dep)))
    by by apply list_elem_of_filter.
  rewrite H in Hin. by apply elem_of_nil in Hin.
Qed.

(** An unobserved specification without failure signals is [Scheduling]. *)
Lemma unobserved_scheduling dep : unobserved dep → failure dep = None →
  DerivePhase (snapshot (deployment_status dep) "") = PhaseScheduling.
Proof.
  intros [Hg Ho] Hf. destruct (failure_None dep Hf) as [Hd Hr].
  pose proof (DerivePhase_in (snapshot (deployment_status dep) "")) as Hp.
  eapply in_phase_unique; [exact Hp|]. constructor; [done| |].
  - unfold signals_failure, snapshot. cbn [ProgressDeadlineExceeded ReplicaFailure PodIssue].
    rewrite Hd, Hr. naive_solver.
  - unfold observed. simpl. lia.
Qed.
End Verdict.

Open Scope Z_scope.
Open Scope se_scope.

Lemma bind_call {W E A B} (c : SE E W A) (k : result E A → SE panic (RW W) B) r :
  bind (call c) k r = k (c (r_world r)).1 (mkRW (r_state r) (r_metrics r) (c (r_world r)).2).
Proof. unfold bind, call. by destruct (c (r_world r)). Qed.

Section Observe.
Context {Q W : Type} `{HQ : Quantities Q} `{HK : !Kubernetes Q W} `{DC : !DeploymentClient W}
  `{SF : !StateFile W} `{HRc : !Receives (Q := Q) (W := W)}.
Context (m : Manager) (cfg : Config W).
Implicit Types (d : Desired) (r : RW W) (dep : kube.Deployment Q).
#[local] Instance the_manager : ResourceManager Q W := manager_ResourceManager m.

(** A control plane that takes every report. *)
Class Accepts : Prop := {
  ac_status : ∀ c x y req w, ∃ w',
    dc_ReportDeploymentStatusWithCreds c x y req w = (Ok tt, w') ∧
    received w' = received w ++ [StatusReport x y req];
  ac_progress : ∀ c x y req w, ∃ w',
    dc_ReportDeploymentProgressWithCreds c x y req w = (Ok tt, w') ∧
    received w' = received w ++ [ProgressReport x y req] }.
Context `{HAc : !Accepts}.

(** [r'] is [r] after the reports [sent], with the state [st]. *)
Definition after_reports r (st : ReconcilerState) (sent : list report) r' : Prop :=
  r_state r' = st ∧ r_metrics r' = r_metrics r ∧ received (r_world r') = received (r_world r) ++ sent.

Lemma reportStatus_accepted d status n e r : ∃ r',
  reportStatus cfg d status n e r = (Ok tt, r') ∧
  after_reports r (set_status (cpd_release d) status (r_state r))
    [StatusReport (cpd_id d) (cpd_release d) (status_request status n e)] r'.
Proof.
  destruct (ac_status (rc_creds cfg) (cpd_id d) (cpd_release d) (status_request status n e)
              (r_world r)) as (w' & E & Hw).
  unfold reportStatus, bind, call. rewrite E. simpl. eexists. split; [done|]. by split_and!.
Qed.

Lemma GetPodHealth_received slug w : received (GetPodHealth m slug w).2 = received w.
Proof.
  pose proof (rc_List KPod (namespace m) ("app=" +:+ slug) w) as H.
  unfold GetPodHealth, wrap, bind. by destruct (List KPod _ _ w) as [[?|?] ?].
Qed.

(** The pod issue and its message, none when the pods cannot be listed. *)
Definition pod_issue (slug : string) (w : W) : string * string :=
  match (GetPodHealth m slug w).1 with
  | Ok h => (ph_issue h, ph_message h)
  | Err _ => ("", "")%string
  end.

Lemma pod_health_call slug w : ∃ o w1,
  rm_GetPodHealth (Q := Q) slug w = (o, w1) ∧ received w1 = received w ∧
  match o with
  | Ok (Some ph) => (ph_issue ph, ph_message ph)
  | _ => (""%string, ""%string)
  end = pod_issue slug w.
Proof.
  pose proof (GetPodHealth_received slug w) as Hw. unfold pod_issue.
  unfold rm_GetPodHealth, the_manager, manager_ResourceManager, bind.
  destruct (GetPodHealth m slug w) as [[h|e] w1]; by do 2 eexists.
Qed.

(** The progress report due: none when its key was the last one sent. *)
Definition progress_due d dep (last : string) (issue : string * string) : list report :=
  let snap := snapshot (deployment_status dep) issue.1 in
  if bool_decide (last = progress_key snap) then []
  else [ProgressReport (cpd_id d) (cpd_release d)
          (progress_request d (deployment_status dep) snap issue.2)].
Definition progress_noted d dep (issue : string * string) (st : ReconcilerState)
    : ReconcilerState :=
  let key := progress_key (snapshot (deployment_status dep) issue.1) in
  if bool_decide (index (ReportedProgress st) (cpd_release d) = key) then st
  else set_progress (cpd_release d) key st.

Lemma reportProgress_accepted d (spec : DeploymentSpec Q) dep r : ∃ r',
  reportProgress cfg d spec (deployment_status dep) r = (Ok tt, r') ∧
  let issue := pod_issue (s_slug spec) (r_world r) in
  after_reports r (progress_noted d dep issue (r_state r))
    (progress_due d dep (index (ReportedProgress (r_state r)) (cpd_release d)) issue) r'.
Proof.
  unfold progress_noted, progress_due, reportProgress. rewrite bind_call.
  destruct (pod_health_call (s_slug spec) (r_world r)) as (o & w1 & -> & Hw1 & Ho).
  cbn [fst snd]. rewrite Ho. generalize (pod_issue (s_slug spec) (r_world r)) as issue.
  intros [issue message]. unfold bind at 1, read. cbn [fst snd r_state].
  set (snap := snapshot _ _).
  destruct (String.eqb_spec (index (ReportedProgress (r_state r)) (cpd_release d))
              (progress_key snap)) as [He|He].
  { rewrite bool_decide_true by done. eexists. split; [done|].
    split_and!; [done..|]. simpl. by rewrite app_nil_r. }
  rewrite bool_decide_false by done. rewrite bind_call. cbn [r_world r_state r_metrics].
  destruct (ac_progress (rc_creds cfg) (cpd_id d) (cpd_release d)
              (progress_request d (deployment_status dep) snap message) w1) as (w2 & -> & Hw2).
  eexists. split; [done|]. split_and!; [done..|]. simpl. by rewrite Hw2, Hw1.
Qed.

Definition revision_noted d dep (appliedRev : Z) (st : ReconcilerState) : ReconcilerState :=
  if bool_decide (index (m_annotations (kube.dep_meta dep)) AnnotationRevision ≠ "" ∧
                  appliedRev < cpd_revision d)
  then set_applied (cpd_id d) (cpd_revision d) st else st.

Lemma status_call name w dep :
  (Get KDeployment (namespace m) name w).1 = Ok dep →
  rm_GetDeploymentStatus (Q := Q) name w =
    (Ok (Some (deployment_status dep)), (Get (Q := Q) KDeployment (namespace m) name w).2) ∧
  received (Get (Q := Q) KDeployment (namespace m) name w).2 = received w.
Proof.
  intros H. split; [|apply rc_Get].
  unfold rm_GetDeploymentStatus, the_manager, manager_ResourceManager, GetDeploymentStatus,
    inspect, bind.
  destruct (Get KDeployment (namespace m) name w) as [[o|e] w1]; by simplify_eq/=.
Qed.

Lemma note_revision d dep rev r :
  (if negb (String.eqb (ds_revision (deployment_status dep)) "") && (rev <? cpd_revision d)
   then update_state (set_applied (cpd_id d) (cpd_revision d)) else ret tt) r =
  (Ok tt, mkRW (revision_noted d dep rev (r_state r)) (r_metrics r) (r_world r)).
Proof.
  unfold revision_noted.
  change (ds_revision (deployment_status dep)) with
    (index (m_annotations (kube.dep_meta dep)) AnnotationRevision).
  destruct (String.eqb_spec (index (m_annotations (kube.dep_meta dep)) AnnotationRevision) "")
    as [H|H]; simpl negb; cbn [andb].
  { rewrite bool_decide_false by tauto. by destruct r. }
  destruct (Z.ltb_spec rev (cpd_revision d)).
  - by rewrite bool_decide_true.
  - rewrite bool_decide_false by lia. by destruct r.
Qed.

(** The status report of the end of the cycle. *)
Lemma report_verdict d dep reported r : ∃ reqs r',
  (if ds_ready (deployment_status dep) && negb (String.eqb reported CPStatusSucceeded)
   then reportStatus cfg d CPStatusSucceeded (ds_ready_replicas (deployment_status dep)) ""
   else if ds_failed (deployment_status dep) && negb (String.eqb reported CPStatusFailed)
   then reportStatus cfg d CPStatusFailed 0 (ds_failure_message (deployment_status dep))
   else ret tt) r = (Ok tt, r') ∧
  verdict reported dep reqs ∧
  after_reports r (foldr (λ req, set_status (cpd_release d) (sr_status req)) (r_state r) reqs)
    (StatusReport (cpd_id d) (cpd_release d) <$> reqs) r'.
Proof.
  assert (Hr : ds_ready (deployment_status dep) && negb (String.eqb reported CPStatusSucceeded) =
                true ↔ rolled_out dep ∧ reported ≠ CPStatusSucceeded)
    by by rewrite andb_true_iff, negb_true_iff, String.eqb_neq, ds_ready_rolled_out.
  assert (Hf : ds_failed (deployment_status dep) && negb (String.eqb reported CPStatusFailed) =
                true ↔ is_Some (failure dep) ∧ reported ≠ CPStatusFailed)
    by by rewrite andb_true_iff, negb_true_iff, String.eqb_neq, ds_failed_failure.
  destruct (ds_ready _ && _).
  { destruct (proj1 Hr eq_refl) as [Hup Hs].
    destruct (reportStatus_accepted d CPStatusSucceeded
                (ds_ready_replicas (deployment_status dep)) "" r) as (r' & E & H).
    exists [status_request CPStatusSucceeded (ds_ready_replicas (deployment_status dep)) ""], r'.
    split; [exact E|]. split; [|exact H]. apply verdict_succeeded; try done. simpl.
    destruct (Z.ltb_spec 0 (kube.st_ready (kube.dep_status dep))).
    - by rewrite bool_decide_true.
    - rewrite bool_decide_false by lia. done. }
  assert (Hnr : ¬ (rolled_out dep ∧ reported ≠ CPStatusSucceeded)) by (rewrite <- Hr; done).
  destruct (ds_failed _ && _).
  { destruct (proj1 Hf eq_refl) as [[c Hc] Hs].
    destruct (reportStatus_accepted d CPStatusFailed 0
                (ds_failure_message (deployment_status dep)) r) as (r' & E & H).
    exists [status_request CPStatusFailed 0 (ds_failure_message (deployment_status dep))], r'.
    split; [exact E|]. split; [|exact H]. apply (verdict_failed _ _ _ c); try done. unfold status_request. cbn [sr_error].
    rewrite (ds_failure_message_failure dep c Hc).
    destruct (String.eqb_spec (kube.c_message c) "").
    - by rewrite bool_decide_true.
    - by rewrite bool_decide_false. }
  assert (Hnf : ¬ (is_Some (failure dep) ∧ reported ≠ CPStatusFailed)) by (rewrite <- Hf; done).
  exists [], r. split; [done|]. split; [by constructor|]. split_and!; [done..|].
  by rewrite app_nil_r.
Qed.

(** Once the deployment is read, a cycle notes the revision, sends a
    progress report unless the last one sent has the same phase and percentage,
    and then at most one status report: succeeded when enough replicas are
    ready and up to date and success is not reported yet; otherwise failed,
    with the message of the last failing condition, when there is one and
    failure is not reported yet. The controller need not have observed the
    specification: such a release is reported as succeeded in the cycle whose
    progress report says that it is still being scheduled. *)
Theorem observe_deployment_correct d (spec : DeploymentSpec Q) rev reported r dep
    (Hget : (Get KDeployment (namespace m) (ResourceName spec) (r_world r)).1 = Ok dep) :
  let w1 := (Get (Q := Q) KDeployment (namespace m) (ResourceName spec) (r_world r)).2 in
  let issue := pod_issue (s_slug spec) w1 in
  let st := progress_noted d dep issue (revision_noted d dep rev (r_state r)) in
  ∃ reqs r', observe_deployment cfg d spec rev reported r = (Ok None, r') ∧
    verdict reported dep reqs ∧
    after_reports r
      (foldr (λ req, set_status (cpd_release d) (sr_status req)) st reqs)
      (progress_due d dep (index (ReportedProgress (r_state r)) (cpd_release d)) issue ++
       (StatusReport (cpd_id d) (cpd_release d) <$> reqs)) r' ∧
    (rolled_out dep → reported ≠ CPStatusSucceeded → unobserved dep → failure dep = None →
     issue.1 = "" → sr_status <$> reqs = [CPStatusSucceeded] ∧ 
       DerivePhase (snapshot (deployment_status dep) issue.1) = PhaseScheduling).
Proof.
  intros w1 issue st. unfold observe_deployment. rewrite bind_call.
  destruct (status_call (ResourceName spec) (r_world r) dep Hget) as [-> Hw1].
  fold w1 in Hw1 |- *. cbn [fst snd].
  rewrite (bind_Ok _ _ _ _ _ (note_revision d dep rev _)). cbn [r_state r_metrics r_world].
  destruct (reportProgress_accepted d spec dep
              (mkRW (revision_noted d dep rev (r_state r)) (r_metrics r) w1))
    as (r2 & E2 & H2). cbn [r_state r_metrics r_world] in H2. rewrite (bind_Ok _ _ _ _ _ E2).
  destruct (report_verdict d dep reported r2) as (reqs & r3 & E3 & Hv & Hs3 & Hm3 & Hr3).
  rewrite (bind_Ok _ _ _ _ _ E3). destruct H2 as (Hs2 & Hm2 & Hr2). cbn in Hs2, Hm2, Hr2.
  assert (Hlast : ReportedProgress (revision_noted d dep rev (r_state r)) =
                  ReportedProgress (r_state r)) by (unfold revision_noted; by case_bool_decide).
  rewrite Hlast in Hr2. exists reqs, r3. split; [done|]. split; [done|]. split.
  { split_and!.
    - by rewrite Hs3, Hs2.
    - by rewrite Hm3, Hm2.
    - by rewrite Hr3, Hr2, Hw1, app_assoc. }
  intros Hup Hne Hun Hf Hi. rewrite Hi. split; [|by apply unobserved_scheduling].
  inversion Hv as [req _ _ Hs _ _|req c Hn|Hn]; subst; simpl; [by rewrite Hs|by destruct Hn..].
Qed.
End Observe.

#[export] Instance world_Accepts : Accepts (Q := Z) (W := world).
Proof. split; intros; eexists; (split; [done|]); by destruct w. Qed.

(** An update of a deployment with two ready replicas, in the cycle that made
    it: the controller has not seen the new specification, and yet the new
    release is reported as succeeded. *)
Definition demo_spec : DeploymentSpec Z :=
  mkDSpec "dep1" "rel1" "Shop" "shop" "reg/shop:1" 2 (Some 8080) [] (kube.mkResources None None)
    1 None.
Definition demo_updated : kube.Deployment Z :=
  kube.mkDeployment (mkMeta "shop" "default" ∅ {[AnnotationRevision := "1"%string]} 2 "uid")
    (kube.mkDepSpec (Some 2) None ∅ ∅ ∅ []) (kube.mkDepStatus 2 2 2 2 0 1 []).
Definition demo_updated_rw : RW world :=
  demo_rw (mkWorld {[("default", "shop")%string := demo_updated]} ∅ ∅ ∅ ∅ ∅ (Ok []) true [] None).
Lemma observe_deployment_correct_witness : ∃ ready error,
  Get (Q := Z) KDeployment "default" "shop" (r_world demo_updated_rw) =
    (Ok demo_updated, r_world demo_updated_rw) ∧
  w_reports (r_world (observe_deployment (RM := manager_ResourceManager demo_manager)
                        (demo_config true) demo_desired demo_spec 0 CPStatusDeploying
                        demo_updated_rw).2) =
    [ProgressReport "dep1" "rel1"
       (progress_request demo_desired (deployment_status demo_updated)
          (snapshot (deployment_status demo_updated) "") "");
     StatusReport "dep1" "rel1" (mkStatusReq CPStatusSucceeded ready error)] ∧
  DerivePhase (snapshot (deployment_status demo_updated) "") = PhaseScheduling.
Proof.
  assert (Hget : (Get (Q := Z) KDeployment (namespace demo_manager) (ResourceName demo_spec)
                    (r_world demo_updated_rw)).1 = Ok demo_updated) by by vm_compute.
  destruct (observe_deployment_correct demo_manager (demo_config true) demo_desired demo_spec 0
              CPStatusDeploying demo_updated_rw demo_updated Hget)
    as (reqs & r' & E & Hv & (_ & _ & Hr) & Hs).
  assert (Hi : pod_issue demo_manager (s_slug demo_spec)
                 (Get (Q := Z) KDeployment (namespace demo_manager) (ResourceName demo_spec)
                    (r_world demo_updated_rw)).2 = ("", "")%string)
    by (vm_compute; reflexivity).
  rewrite Hi in Hs, Hr.
  assert (Hup : rolled_out demo_updated) by (exists 2; split_and!; [reflexivity|simpl; lia..]).
  assert (Hun : unobserved demo_updated) by (split; simpl; lia).
  destruct (Hs Hup ltac:(discriminate) Hun eq_refl eq_refl) as [Hs' Hp].
  destruct reqs as [|[status ready error] [|? ?]]; [discriminate Hs'| |discriminate Hs'].
  injection Hs' as ->. exists ready, error. split; [vm_compute; reflexivity|].
  split; [|exact Hp].
  exact (eq_trans (f_equal (λ x, w_reports (r_world x.2)) E) Hr).
Defined.

(** ** Restarts *)
Section Restart.
Context {Q W : Type} `{HQ : Quantities Q} `{RM : !ResourceManager Q W} `{DC : !DeploymentClient W}
  `{SF : !StateFile W}.
Context (cfg : Config W).
Implicit Types r : RW W.

Definition ascii (s : string) : bool :=
  forallb (λ a, Nat.ltb (Ascii.nat_of_ascii a) 128) (String.list_ascii_of_string s).
(** Identifiers, statuses and progress keys of ASCII text, which JSON keeps. *)
Definition ascii_state (st : ReconcilerState) : Prop :=
  (∀ id z, AppliedRevisions st !! id = Some z → ascii id = true) ∧
  (∀ id s, ReportedStatuses st !! id = Some s → ascii id = true ∧ ascii s = true) ∧
  (∀ id s, ReportedProgress st !! id = Some s → ascii id = true ∧ ascii s = true).

(** What is written is read back, and decodes to what was encoded. *)
Class StateFileLaws : Prop := {
  sf_written : ∀ data w w', WriteFile data w = (Ok tt, w') →
    ∃ w'', ReadFile w' = (Ok data, w'');
  sf_decoded : ∀ st, ascii_state st → UnmarshalState (MarshalState st) fresh_state = (None, st) }.
Context `{HSL : !StateFileLaws}.

Lemma Flush_written r r1 : Flush r = (Ok None, r1) →
  WriteFile (MarshalState (r_state r)) (r_world r) = (Ok tt, r_world r1).
Proof.
  unfold Flush, saveState, bind at 1, read. rewrite bind_call.
  destruct (WriteFile _ _) as [[[]|e] w1]; [|done]. by intros [= <-].
Qed.

Lemma for_each_repeat {E S A B} (c : SE E S unit) (l : list A) : ∀ (l' : list B) s,
  length l = length l' → for_each (λ _, c) l s = for_each (λ _, c) l' s.
Proof.
  induction l as [|a l IH]; intros [|b l'] s [=]; [done|]. cbn [for_each]. unfold bind.
  destruct (c s) as [[?|?] ?]; auto.
Qed.

(** An agent that saved its state on shutdown and is started again on what
    it left reads the very state it had, and runs on as if it had never
    stopped: no revision is forgotten and no status or progress is reported
    twice for being forgotten. *)
Theorem state_survives_restart r r1 r0 ticks
    (Hflush : Flush r = (Ok None, r1)) (Hascii : ascii_state (r_state r))
    (Hfresh : r_state r0 = fresh_state) (Hworld : r_world r0 = r_world r1) :
  ∃ w, loadState r0 = (Ok None, mkRW (r_state r) (r_metrics r0) w) ∧
    ReadFile (r_world r1) = (Ok (MarshalState (r_state r)), w) ∧
    Run cfg ticks r0 =
      for_each (λ _, reconcile cfg) (seq 0 (S ticks)) (mkRW (r_state r) (r_metrics r0) w).
Proof.
  destruct (sf_written _ _ _ (Flush_written r r1 Hflush)) as (w & Hw).
  assert (Hload : loadState r0 = (Ok None, mkRW (r_state r) (r_metrics r0) w)).
  { unfold loadState. rewrite bind_call, Hworld, Hw. cbn [fst snd].
    unfold bind at 1, read. cbn [r_state]. by rewrite Hfresh, sf_decoded. }
  exists w. split_and!; [done..|]. unfold Run. rewrite (bind_Ok _ _ _ _ _ Hload).
  cbn [seq for_each]. unfold bind.
  destruct (reconcile cfg _) as [[[]|] r2]; [|done].
  apply for_each_repeat. by rewrite !length_seq.
Qed.
End Restart.

#[export] Instance world_StateFileLaws : StateFileLaws (W := world).
Proof.
  split.
  - intros data w w' [= <-]. exists (set_file (Some data) w). by destruct w.
  - intros st _. apply world_codec.
Qed.
Definition demo_state : ReconcilerState :=
  mkRState {["dep1"%string := 3]} {["rel3"%string := CPStatusSucceeded]}
    {["rel3"%string := "Healthy|100"%string]}.
Definition saved (st : ReconcilerState) (w : world) : RW world :=
  mkRW st [] (set_file (Some (MarshalState st)) w).
Lemma world_Flush st w : Flush (mkRW st [] w) = (Ok None, saved st w).
Proof. reflexivity. Qed.
Lemma world_ReadFile st w :
  ReadFile (r_world (saved st w)) = (Ok (MarshalState st), r_world (saved st w)).
Proof. by destruct w. Qed.
Lemma demo_state_ascii : ascii_state demo_state.
Proof.
  split_and!; intros id z Hz; cbn [AppliedRevisions ReportedStatuses ReportedProgress demo_state] in Hz;
    apply lookup_singleton_Some in Hz as [<- <-]; vm_compute; auto.
Qed.
Lemma state_survives_restart_witness :
  Flush (mkRW demo_state [] (demo_world (Ok []))) = (Ok None, saved demo_state (demo_world (Ok []))) ∧
  (loadState (demo_rw (r_world (saved demo_state (demo_world (Ok [])))))).2 =
    saved demo_state (demo_world (Ok [])).
Proof.
  split; [apply world_Flush|].
  destruct (state_survives_restart (RM := manager_ResourceManager demo_manager)
              (demo_config true) _ _ (demo_rw (r_world (saved demo_state (demo_world (Ok [])))))
              0 (world_Flush demo_state (demo_world (Ok []))) demo_state_ascii eq_refl eq_refl)
    as (w & E & Hr & _).
  pose proof (eq_trans (eq_sym (world_ReadFile demo_state (demo_world (Ok [])))) Hr) as Hw.
  apply (f_equal snd) in Hw. cbn [snd] in Hw. rewrite E, <- Hw. reflexivity.
Defined.
