(* ===== verification/ClusterStore.v ===== *)
(** * The cluster service's tables

    services/cluster/internal: domain.go (clusters, registration tokens,
    heartbeats, requests and views) and repository.go, with the tables of
    migrations/cluster: statements of [Tx] over their own store.  As in
    [Store], tenant tables have FORCE ROW LEVEL SECURITY, uniqueness and
    foreign keys look at all rows, and values are taken to fit their column
    types (timestamps are stored exactly). *)

From S2P Require Import Prelude Json AppErrors Tx Events Pagination Authz.
From S2P Require Export Repository Runs Outbox.
Open Scope Z_scope.
Open Scope tx_scope.

(** ** domain.go *)
Definition ClusterPending : string := "pending".
Definition ClusterRegistering : string := "registering".
Definition ClusterConnected : string := "connected".
Definition ClusterDisconnected : string := "disconnected".
Definition ClusterDeleted : string := "deleted".

Definition TokenStatusActive : string := "active".
Definition TokenStatusUsed : string := "used".
Definition TokenStatusRevoked : string := "revoked".
Definition TokenStatusExpired : string := "expired".

Record Cluster := mkClu {
  k_id : string; k_created : Z; k_updated : Z; k_version : Z; k_org : string;
  k_name : string; k_slug : string; k_desc : option string; k_status : string;
  k_k8s : option string; k_nodes : option Z; k_provider : option string;
  k_region : option string; k_agent : option string; k_registered : option Z;
  k_heartbeat : option Z; k_labels : RawMessage; k_created_by : option string }.

Record RegistrationToken := mkTok {
  tk_id : string; tk_created : Z; tk_updated : Z; tk_version : Z; tk_org : string;
  tk_cluster : string; tk_hash : string; tk_status : string; tk_expires : Z;
  tk_used_at : option Z; tk_used_by : option string; tk_created_by : option string }.

Record Heartbeat := mkBeat {
  hb_id : string; hb_org : string; hb_cluster : string; hb_agent : string;
  hb_k8s : option string; hb_nodes : option Z; hb_healthy : bool; hb_received : Z }.

(** Requests; a nil map is [None]. *)
Record CreateClusterRequest := mkCreateClu {
  cc_name : string; cc_slug : string; cc_desc : option string; cc_provider : option string;
  cc_region : option string; cc_labels : option (gmap string string) }.
Record UpdateClusterRequest := mkUpdateClu {
  uc_name : option string; uc_desc : option string; uc_labels : option (gmap string string) }.
Record AgentRegisterRequest := mkRegister {
  ar_token : string; ar_agent : string; ar_k8s : string; ar_nodes : Z;
  ar_provider : string; ar_region : string }.
Record AgentHeartbeatRequest := mkHeartbeatReq {
  ah_agent : string; ah_k8s : string; ah_nodes : Z; ah_healthy : bool }.

(** Views. *)
Record ClusterView := mkCluView {
  kv_id : string; kv_org : string; kv_name : string; kv_slug : string; kv_desc : string;
  kv_status : string; kv_k8s : string; kv_nodes : option Z; kv_provider : string;
  kv_region : string; kv_agent : string; kv_registered : option Z; kv_heartbeat : option Z;
  kv_labels : option (gmap string string); kv_created : Z }.

(** [json.Unmarshal] into a [map[string]string], its error ignored: a value
    that is not a string leaves the empty string. *)
Definition unmarshal_labels (j : RawMessage) : option (gmap string string) :=
  match j with
  | Some (JObj fields) =>
      Some (fold_left (λ m kv, <[kv.1 := match kv.2 with JStr s => s | _ => ""%string end]> m)
              fields ∅)
  | _ => None
  end.

Definition toClusterView (c : Cluster) : ClusterView :=
  mkCluView (k_id c) (k_org c) (k_name c) (k_slug c) (default "" (k_desc c)) (k_status c)
    (default "" (k_k8s c)) (k_nodes c) (default "" (k_provider c)) (default "" (k_region c))
    (default "" (k_agent c)) (k_registered c) (k_heartbeat c) (unmarshal_labels (k_labels c))
    (k_created c).

Record RegistrationTokenView := mkTokView {
  tv_id : string; tv_cluster : string; tv_status : string; tv_expires : Z; tv_created : Z }.
Definition toTokenView (t : RegistrationToken) : RegistrationTokenView :=
  mkTokView (tk_id t) (tk_cluster t) (tk_status t) (tk_expires t) (tk_created t).
Record TokenWithSecret := mkSecretTok { ts_view : RegistrationTokenView; ts_token : string }.

Record HeartbeatView := mkBeatView {
  hv_cluster : string; hv_agent : string; hv_k8s : string; hv_nodes : option Z;
  hv_healthy : bool; hv_received : Z }.
Definition toHeartbeatView (h : Heartbeat) : HeartbeatView :=
  mkBeatView (hb_cluster h) (hb_agent h) (default "" (hb_k8s h)) (hb_nodes h) (hb_healthy h)
    (hb_received h).

(** ** events.go: the payloads *)
Inductive cluster_payload :=
| clusterCreatedPayload (clusterID name slug provider region createdBy : string)
| tokenCreatedPayload (clusterID tokenID : string) (expiresAt : Z) (deliveryRef : string)
| clusterRegisteredPayload (clusterID agentID k8s : string) (nodes : Z) (provider region : string)
| clusterRecoveredPayload (clusterID agentID requestedAgentID source : string)
| heartbeatReceivedPayload (clusterID agentID k8s : string) (nodes : Z) (healthy : bool)
| clusterDisconnectedPayload (clusterID : string) (lastHeartbeatAt : Z) (disconnectedAfter : string)
| clusterDeletedPayload (clusterID deletedBy : string).

(** ** notify.go: what the notifier delivers out of band *)
Record TokenDelivery := mkDelivery { td_cluster : string; td_token : string; td_ref : string }.

(** What a rollback does not undo: the tokens delivered, and the variable
    [count] that the body of [MarkDisconnected] captures. *)
Record COutside := mkOutside { delivered : list TokenDelivery; counted : nat }.

(** ** Tables *)
Record CDB := mkCDB {
  ct_orgs : gset string;
  ct_members : gmap (string * string) OrgMember;
  ct_clusters : gmap string Cluster;
  ct_tokens : gmap string RegistrationToken;
  ct_beats : gmap string Heartbeat;
  ct_outbox : list (OutboxRow cluster_payload) }.

Definition set_clusters (m : gmap string Cluster) (db : CDB) : CDB :=
  mkCDB (ct_orgs db) (ct_members db) m (ct_tokens db) (ct_beats db) (ct_outbox db).
Definition set_tokens (m : gmap string RegistrationToken) (db : CDB) : CDB :=
  mkCDB (ct_orgs db) (ct_members db) (ct_clusters db) m (ct_beats db) (ct_outbox db).
Definition set_beats (m : gmap string Heartbeat) (db : CDB) : CDB :=
  mkCDB (ct_orgs db) (ct_members db) (ct_clusters db) (ct_tokens db) m (ct_outbox db).
Definition set_coutbox (l : list (OutboxRow cluster_payload)) (db : CDB) : CDB :=
  mkCDB (ct_orgs db) (ct_members db) (ct_clusters db) (ct_tokens db) (ct_beats db) l.

#[export] Instance CDB_members : MembersTable CDB := {| org_members := ct_members |}.
#[export] Instance CDB_outbox : OutboxTable CDB cluster_payload :=
  {| outbox_rows := ct_outbox; set_outbox_rows := set_coutbox |}.

Abbreviation CM := (M CDB COutside).

(** ** repository.go: clusters *)

(** [json.Marshal] of a map writes its keys in order. *)
Definition key_le (a b : string * string) : Prop := String.compare a.1 b.1 ≠ Gt.
#[export] Instance key_le_dec a b : Decision (key_le a b).
Proof. unfold key_le. apply _. Defined.
Definition marshalLabels (labels : option (gmap string string)) : RawMessage :=
  match labels with
  | None => Some (JObj [])
  | Some m => Some (JObj ((λ kv, (kv.1, JStr kv.2)) <$> merge_sort key_le (map_to_list m)))
  end.

(** The inventory and agent columns keep their default NULL. *)
Definition insert_cluster (c : Cluster) (o : string) (now : Z) (db : CDB)
    : string + Cluster * CDB :=
  if negb (visible o (k_org c)) then inl rls_violation
  else if bool_decide (is_Some (ct_clusters db !! k_id c)) ||
       existsb (λ b, String.eqb (k_org b) (k_org c) && String.eqb (k_slug b) (k_slug c))
         (rows_where (λ _, true) (ct_clusters db))
  then inl sqlStateUniqueViolation
  else if negb (bool_decide (k_org c ∈ ct_orgs db)) then inl sqlStateForeignKeyViolation
  else
    let row k8s nodes agent registered heartbeat :=
      mkClu (k_id c) now now 1 (k_org c) (k_name c) (k_slug c) (k_desc c) (k_status c) k8s nodes
        (k_provider c) (k_region c) agent registered heartbeat (k_labels c) (k_created_by c) in
    inr (row (k_k8s c) (k_nodes c) (k_agent c) (k_registered c) (k_heartbeat c),
         set_clusters (<[k_id c := row None None None None None]> (ct_clusters db)) db).

Definition clusterRepo_Create (c : Cluster) : CM Cluster :=
  let* id := (if String.eqb (k_id c) "" then uuid_NewString else ret (k_id c)) in
  let status := if String.eqb (k_status c) "" then ClusterPending else k_status c in
  let labels := match k_labels c with None => Some (JObj []) | Some j => Some j end in
  let c := mkClu id (k_created c) (k_updated c) (k_version c) (k_org c) (k_name c) (k_slug c)
             (k_desc c) status (k_k8s c) (k_nodes c) (k_provider c) (k_region c) (k_agent c)
             (k_registered c) (k_heartbeat c) labels (k_created_by c) in
  on_err (stmt (insert_cluster c)) MapError.

Definition live (c : Cluster) : bool := negb (String.eqb (k_status c) ClusterDeleted).

Definition clusterRepo_GetByID (id : string) : CM Cluster :=
  QueryOne (λ o db,
    match row_at k_org o id (ct_clusters db) with
    | Some c => if live c then [c] else []
    | None => []
    end).

Definition clusterRepo_GetByIDWithoutTenant (bypassrls : bool) (id : string) : CM Cluster :=
  autocommit (QueryOne (λ o db,
    match ct_clusters db !! id with
    | Some c => if pool_sees bypassrls o (k_org c) then [c] else []
    | None => []
    end)).

Definition clusterRepo_GetBySlug (slug : string) : CM Cluster :=
  QueryOne (λ o db,
    rows_where (λ c, visible o (k_org c) && String.eqb (k_slug c) slug && live c)
      (ct_clusters db)).

Definition cluster_cursor (c : Cluster) : Cursor := mkCursor (k_created c) (k_id c).

(** A status of "deleted" lists the deleted clusters. *)
Definition clusterRepo_List `{CursorJSON} (req : PageRequest) (status : string)
    : CM (Page Cluster) :=
  List_ cluster_cursor
    (λ o db, rows_where (λ c, visible o (k_org c) &&
                if String.eqb status "" then live c else String.eqb (k_status c) status)
               (ct_clusters db)) req.

(** UPDATE clusters ... WHERE id = $n: [f] gives the row its new columns. *)
Definition update_cluster (id : string) (f : Z → Cluster → Cluster) (o : string) (now : Z)
    (db : CDB) : string + nat * CDB :=
  match row_at k_org o id (ct_clusters db) with
  | Some r => inr (1%nat, set_clusters (<[id := f now r]> (ct_clusters db)) db)
  | None => inr (0%nat, db)
  end.

(** The columns an UPDATE of [Update] sets. *)
Definition clu_edit (c : Cluster) (now : Z) (r : Cluster) : Cluster :=
  mkClu (k_id r) (k_created r) now (k_version r + 1) (k_org r) (k_name c) (k_slug r) (k_desc c)
    (k_status r) (k_k8s r) (k_nodes r) (k_provider r) (k_region r) (k_agent r) (k_registered r)
    (k_heartbeat r) (k_labels c) (k_created_by r).

Definition update_cluster_versioned (c : Cluster) (o : string) (now : Z) (db : CDB)
    : string + nat * CDB :=
  match row_at k_org o (k_id c) (ct_clusters db) with
  | Some r => if k_version r =? k_version c then update_cluster (k_id c) (clu_edit c) o now db
              else inr (0%nat, db)
  | None => inr (0%nat, db)
  end.

Definition clusterRepo_Update (c : Cluster) : CM Cluster :=
  let* n := Exec (update_cluster_versioned c) in
  let* _ := require_rows n ErrOptimisticLock in
  ret (mkClu (k_id c) (k_created c) (k_updated c) (k_version c + 1) (k_org c) (k_name c)
         (k_slug c) (k_desc c) (k_status c) (k_k8s c) (k_nodes c) (k_provider c) (k_region c)
         (k_agent c) (k_registered c) (k_heartbeat c) (k_labels c) (k_created_by c)).

Definition clu_with_status (status : string) (now : Z) (r : Cluster) : Cluster :=
  mkClu (k_id r) (k_created r) now (k_version r + 1) (k_org r) (k_name r) (k_slug r) (k_desc r)
    status (k_k8s r) (k_nodes r) (k_provider r) (k_region r) (k_agent r) (k_registered r)
    (k_heartbeat r) (k_labels r) (k_created_by r).

Definition cluster_missing : goerr := NotFound "cluster not found".

Definition clusterRepo_Delete (id : string) : CM unit :=
  let* n := Exec (update_cluster id (clu_with_status ClusterDeleted)) in
  require_rows n cluster_missing.

Definition clusterRepo_UpdateStatus (id status : string) : CM unit :=
  let* n := Exec (update_cluster id (clu_with_status status)) in
  require_rows n cluster_missing.

Definition clu_beat (at_ : Z) (k8s : string) (nodes : Z) (now : Z) (r : Cluster) : Cluster :=
  mkClu (k_id r) (k_created r) now (k_version r + 1) (k_org r) (k_name r) (k_slug r) (k_desc r)
    ClusterConnected (Some k8s) (Some nodes) (k_provider r) (k_region r) (k_agent r)
    (k_registered r) (Some at_) (k_labels r) (k_created_by r).

Definition clusterRepo_UpdateHeartbeat (id : string) (at_ : Z) (k8s : string) (nodes : Z)
    : CM unit :=
  let* n := Exec (update_cluster id (clu_beat at_ k8s nodes)) in
  require_rows n cluster_missing.

(** COALESCE keeps the provider and the region when none is given. *)
Definition clu_register (agent k8s : string) (nodes : Z) (provider region : option string)
    (at_ : Z) (now : Z) (r : Cluster) : Cluster :=
  mkClu (k_id r) (k_created r) now (k_version r + 1) (k_org r) (k_name r) (k_slug r) (k_desc r)
    ClusterConnected (Some k8s) (Some nodes)
    (match provider with Some p => Some p | None => k_provider r end)
    (match region with Some p => Some p | None => k_region r end)
    (Some agent) (Some at_) (Some at_) (k_labels r) (k_created_by r).

Definition clusterRepo_RegisterAgent (id agent k8s : string) (nodes : Z)
    (provider region : option string) (at_ : Z) : CM unit :=
  let* n := Exec (update_cluster id (clu_register agent k8s nodes provider region at_)) in
  require_rows n cluster_missing.

(** ** repository.go: registration tokens *)

(** UNIQUE (token_hash), and a partial unique index: one active token per
    cluster. *)
Definition insert_token (t : RegistrationToken) (o : string) (now : Z) (db : CDB)
    : string + RegistrationToken * CDB :=
  if negb (visible o (tk_org t)) then inl rls_violation
  else if bool_decide (is_Some (ct_tokens db !! tk_id t)) ||
       existsb (λ b, String.eqb (tk_hash b) (tk_hash t) ||
                     String.eqb (tk_status t) TokenStatusActive &&
                     String.eqb (tk_status b) TokenStatusActive &&
                     String.eqb (tk_cluster b) (tk_cluster t))
         (rows_where (λ _, true) (ct_tokens db))
  then inl sqlStateUniqueViolation
  else if negb (bool_decide (tk_org t ∈ ct_orgs db)) ||
          negb (bool_decide (is_Some (ct_clusters db !! tk_cluster t)))
  then inl sqlStateForeignKeyViolation
  else
    let row used_at used_by :=
      mkTok (tk_id t) now now 1 (tk_org t) (tk_cluster t) (tk_hash t) (tk_status t)
        (tk_expires t) used_at used_by (tk_created_by t) in
    inr (row (tk_used_at t) (tk_used_by t),
         set_tokens (<[tk_id t := row None None]> (ct_tokens db)) db).

Definition tokenRepo_Create (t : RegistrationToken) : CM RegistrationToken :=
  let* id := (if String.eqb (tk_id t) "" then uuid_NewString else ret (tk_id t)) in
  let status := if String.eqb (tk_status t) "" then TokenStatusActive else tk_status t in
  on_err (stmt (insert_token
    (mkTok id (tk_created t) (tk_updated t) (tk_version t) (tk_org t) (tk_cluster t) (tk_hash t)
       status (tk_expires t) (tk_used_at t) (tk_used_by t) (tk_created_by t)))) MapError.

(** On the pool, as [GetByIDWithoutTenant]. *)
Definition tokenRepo_GetByHash (bypassrls : bool) (hash : string) : CM RegistrationToken :=
  autocommit (QueryOne (λ o db,
    rows_where (λ t, pool_sees bypassrls o (tk_org t) && String.eqb (tk_hash t) hash)
      (ct_tokens db))).

Definition tokenRepo_GetActiveByCluster (clusterID : string) : CM RegistrationToken :=
  QueryOne (λ o db,
    rows_where (λ t, visible o (tk_org t) && String.eqb (tk_cluster t) clusterID &&
                     String.eqb (tk_status t) TokenStatusActive) (ct_tokens db)).

(** UPDATE ... WHERE id = $n AND status = 'active'. *)
Definition update_active_token (id : string) (f : Z → RegistrationToken → RegistrationToken)
    (o : string) (now : Z) (db : CDB) : string + nat * CDB :=
  match row_at tk_org o id (ct_tokens db) with
  | Some t =>
      if String.eqb (tk_status t) TokenStatusActive
      then inr (1%nat, set_tokens (<[id := f now t]> (ct_tokens db)) db)
      else inr (0%nat, db)
  | None => inr (0%nat, db)
  end.

Definition tok_used (agent : string) (now : Z) (t : RegistrationToken) : RegistrationToken :=
  mkTok (tk_id t) (tk_created t) now (tk_version t + 1) (tk_org t) (tk_cluster t) (tk_hash t)
    TokenStatusUsed (tk_expires t) (Some now) (Some agent) (tk_created_by t).
Definition tok_revoked (now : Z) (t : RegistrationToken) : RegistrationToken :=
  mkTok (tk_id t) (tk_created t) now (tk_version t + 1) (tk_org t) (tk_cluster t) (tk_hash t)
    TokenStatusRevoked (tk_expires t) (tk_used_at t) (tk_used_by t) (tk_created_by t).

Definition token_missing : goerr := NotFound "token not found or not active".

Definition tokenRepo_MarkUsed (id agent : string) : CM unit :=
  let* n := Exec (update_active_token id (tok_used agent)) in
  require_rows n token_missing.

Definition tokenRepo_Revoke (id : string) : CM unit :=
  let* n := Exec (update_active_token id tok_revoked) in
  require_rows n token_missing.

(** ** repository.go: heartbeats *)
Definition insert_beat (h : Heartbeat) (o : string) (now : Z) (db : CDB) : string + nat * CDB :=
  if negb (visible o (hb_org h)) then inl rls_violation
  else if bool_decide (is_Some (ct_beats db !! hb_id h)) then inl sqlStateUniqueViolation
  else if negb (bool_decide (hb_org h ∈ ct_orgs db)) ||
          negb (bool_decide (is_Some (ct_clusters db !! hb_cluster h)))
  then inl sqlStateForeignKeyViolation
  else inr (1%nat, set_beats (<[hb_id h := h]> (ct_beats db)) db).

Definition heartbeatRepo_Create (h : Heartbeat) : CM unit :=
  let* id := (if String.eqb (hb_id h) "" then uuid_NewString else ret (hb_id h)) in
  let* _ := Exec (insert_beat (mkBeat id (hb_org h) (hb_cluster h) (hb_agent h) (hb_k8s h)
                                 (hb_nodes h) (hb_healthy h) (hb_received h))) in
  ret tt.

(** ORDER BY received_at DESC. *)
Definition later (h1 h2 : Heartbeat) : Prop := hb_received h2 ≤ hb_received h1.
#[export] Instance later_dec h1 h2 : Decision (later h1 h2).
Proof. unfold later. apply _. Defined.

Definition heartbeatRepo_ListByCluster (clusterID : string) (limit : Z) : CM (list Heartbeat) :=
  let limit := if limit <=? 0 then 50 else limit in
  QueryAll (λ o db,
    take (Z.to_nat limit) (merge_sort later
      (rows_where (λ h, visible o (hb_org h) && String.eqb (hb_cluster h) clusterID)
         (ct_beats db)))).
