(* ===== verification/ClusterService.v ===== *)
(** * The cluster service

    services/cluster/internal: service.go (the [Service] methods), crypto.go
    (registration tokens and their hashes), agent_handlers.go (agent
    credentials and the heartbeat endpoint), handlers.go and routes.go.  As in
    [DeploymentService] a method returns the error alone when it fails,
    [time.Now] and [now()] are one clock, and a retried transaction draws fresh
    identifiers.  Random bytes are an argument ([None]: [rand.Read] failed); a
    delivered token is added to the world outside of the database when
    [DeliverToken] is called, and the counter of the disconnection sweep is
    there as well: neither is undone by a rollback.  [bypassrls] is explained in [ClusterStore]. *)

From S2P Require Import Prelude Json GoTime AppErrors Tx Events Pagination Authz ClusterStore.
From S2P Require Export Http.
Open Scope Z_scope.
Open Scope tx_scope.

(** ** errors.go *)
Definition errClusterOrgRequired := Validation "organization ID required".
Definition errClusterSlugTaken := Conflict "cluster slug already taken".
Definition errTokenExpired := Unauthorized "registration token expired".
Definition errTokenRevoked := Unauthorized "registration token revoked".
Definition errClusterNotPending := Conflict "cluster is not in pending status".
Definition errAgentMismatch := Forbidden "agent ID mismatch".
Definition errClusterNotFound := NotFound "cluster not found".

(** ** events.go *)
Definition EventClusterCreated : string := "cluster.created".
Definition EventRegistrationTokenCreated : string := "cluster.registration.token.created".
Definition EventClusterRegistered : string := "cluster.registered".
Definition EventClusterRecovered : string := "cluster.recovered".
Definition EventClusterHeartbeatReceived : string := "cluster.heartbeat.received".
Definition EventClusterDisconnected : string := "cluster.disconnected".
Definition EventClusterDeleted : string := "cluster.deleted".
Definition clusterEventVersion : Z := 1.

Definition enqueue_cluster (eventType orgID : string) (p : cluster_payload)
    (opts : list (@Option_ cluster_payload)) : CM unit :=
  let* e := events_New eventType clusterEventVersion orgID p opts in
  PostgresOutbox_Enqueue e.

Definition by_user (userID rtype id : string) : list (@Option_ cluster_payload) :=
  [WithActor (mkActor "user" userID); WithResource (mkResource rtype id)].
Definition by_cluster_agent (agentID clusterID : string) : list (@Option_ cluster_payload) :=
  [WithActor (mkActor "agent" agentID); WithResource (mkResource "cluster" clusterID)].

(** ** crypto.go *)
Definition generateRegistrationToken (rand : option (list Z)) : result goerr string :=
  match rand with
  | None => Err (Plain "cluster: generate registration token")
  | Some b => Ok (Base64.text (Base64.encode b))
  end.

Definition hashToken (token : string) : string :=
  text_of (mjoin (hex_byte <$> Sha256.Sum256 (bytes_of token))).

(** ** notify.go *)
Definition DeliverToken (d : TokenDelivery) : CM unit :=
  λ s, (Ok tt, set_outside (mkOutside (delivered (outside s) ++ [d]) (counted (outside s))) s).

Definition DefaultTokenTTL : Z := 24 * GoTime.Hour.
Definition HeartbeatTimeout : Z := 5 * GoTime.Minute.

Definition lift_result {A} (r : result goerr A) : CM A :=
  match r with Ok a => ret a | Err e => fail e end.

Section Service.
Context `{CursorJSON}.
Context (bypassrls : bool).

Definition authorize_clusters (orgID userID : string) : CM string :=
  AuthorizeOrgMember NewPolicyAuthorizer orgID userID ActionManageClusters.

(** ** Clusters *)
Definition Service_CreateCluster (orgID userID : string) (req : CreateClusterRequest)
    : CM Cluster :=
  let* _ := authorize_clusters orgID userID in
  let name := GoStrings.TrimSpace (cc_name req) in
  let* _ := check (validateName name) in
  let slug := GoStrings.ToLower (GoStrings.TrimSpace (cc_slug req)) in
  if negb (slugPattern slug)
  then fail (Validation "slug must be 2-64 chars of lowercase letters, digits, or hyphens")
  else
    let c := mkClu "" 0 0 0 orgID name slug (GoStrings.TrimSpace <$> cc_desc req) ClusterPending
               None None (cc_provider req) (cc_region req) None None None
               (marshalLabels (cc_labels req)) (Some userID) in
    WithTenant orgID (
      let* c := on_err (clusterRepo_Create c)
        (λ e, if String.eqb (from_code e) CodeConflict then errClusterSlugTaken else e) in
      enqueue_cluster EventClusterCreated orgID
        (clusterCreatedPayload (k_id c) (k_name c) (k_slug c) (default "" (k_provider c))
           (default "" (k_region c)) userID)
        (by_user userID "cluster" (k_id c)) ;;
      ret c).

Definition Service_GetCluster (orgID userID clusterID : string) : CM Cluster :=
  let* _ := AuthorizeOrgRead orgID userID in
  WithTenant orgID (clusterRepo_GetByID clusterID).

Definition Service_ListClusters (orgID userID : string) (page : PageRequest) (status : string)
    : CM (Page Cluster) :=
  let* _ := AuthorizeOrgRead orgID userID in
  WithTenant orgID (clusterRepo_List page status).

Definition with_name_desc_labels (name : string) (desc : option string) (labels : RawMessage)
    (c : Cluster) : Cluster :=
  mkClu (k_id c) (k_created c) (k_updated c) (k_version c) (k_org c) name (k_slug c) desc
    (k_status c) (k_k8s c) (k_nodes c) (k_provider c) (k_region c) (k_agent c) (k_registered c)
    (k_heartbeat c) labels (k_created_by c).

Definition Service_UpdateCluster (orgID userID clusterID : string) (req : UpdateClusterRequest)
    : CM Cluster :=
  let* _ := authorize_clusters orgID userID in
  WithTenant orgID (
    let* c := clusterRepo_GetByID clusterID in
    if String.eqb (k_status c) ClusterDeleted then fail errClusterNotFound
    else
      let* name :=
        match uc_name req with
        | Some n => let name := GoStrings.TrimSpace n in check (validateName name) ;; ret name
        | None => ret (k_name c)
        end in
      let desc := match uc_desc req with
                  | Some d => Some (GoStrings.TrimSpace d) | None => k_desc c end in
      let labels := match uc_labels req with
                    | Some m => marshalLabels (Some m) | None => k_labels c end in
      clusterRepo_Update (with_name_desc_labels name desc labels c)).

Definition Service_DeleteCluster (orgID userID clusterID : string) : CM unit :=
  let* _ := authorize_clusters orgID userID in
  WithTenant orgID (
    let* c := clusterRepo_GetByID clusterID in
    if String.eqb (k_status c) ClusterDeleted then ret tt
    else
      clusterRepo_Delete clusterID ;;
      enqueue_cluster EventClusterDeleted orgID (clusterDeletedPayload clusterID userID)
        (by_user userID "cluster" clusterID)).

(** ** Registration tokens *)
Definition token_ttl (expiresIn : string) : result goerr Z :=
  if String.eqb expiresIn "" then Ok DefaultTokenTTL
  else
    match GoTime.ParseDuration expiresIn with
    | Some d => if d <=? 0 then Err (Validation "invalid expiresIn duration") else Ok d
    | None => Err (Validation "invalid expiresIn duration")
    end.

Definition may_register (c : Cluster) : bool :=
  String.eqb (k_status c) ClusterPending || String.eqb (k_status c) ClusterDisconnected.

(** Revoking the active token of the cluster, every error ignored. *)
Definition revoke_active (clusterID : string) : CM unit :=
  let* existing := try (tokenRepo_GetActiveByCluster clusterID) in
  match existing with
  | Ok t => let* _ := try (tokenRepo_Revoke (tk_id t)) in ret tt
  | Err _ => ret tt
  end.

Definition Service_GenerateRegistrationToken (rand : option (list Z))
    (orgID userID clusterID expiresIn : string) : CM TokenWithSecret :=
  let* _ := authorize_clusters orgID userID in
  let* ttl := lift_result (token_ttl expiresIn) in
  let* plainToken := lift_result (generateRegistrationToken rand) in
  let tokenHash := hashToken plainToken in
  let* deliveryRef := uuid_NewString in
  let* now := now_ in
  let t := mkTok "" 0 0 0 orgID clusterID tokenHash TokenStatusActive (now + ttl) None None
             (Some userID) in
  WithTenant orgID (
    let* c := clusterRepo_GetByID clusterID in
    if negb (may_register c) then fail errClusterNotPending
    else
      revoke_active clusterID ;;
      let* t := tokenRepo_Create t in
      DeliverToken (mkDelivery clusterID plainToken deliveryRef) ;;
      enqueue_cluster EventRegistrationTokenCreated orgID
        (tokenCreatedPayload clusterID (tk_id t) (tk_expires t) deliveryRef)
        (by_user userID "cluster_registration_token" (tk_id t)) ;;
      ret (mkSecretTok (toTokenView t) plainToken)).

(** The cluster named by the route is not looked at. *)
Definition Service_RevokeRegistrationToken (orgID userID clusterID tokenID : string) : CM unit :=
  let* _ := authorize_clusters orgID userID in
  WithTenant orgID (tokenRepo_Revoke tokenID).

(** ** Agent registration *)
Definition recoverRegisteredCluster (token : RegistrationToken) (requestAgentID source : string)
    : CM Cluster :=
  let* c := on_err (clusterRepo_GetByIDWithoutTenant bypassrls (tk_cluster token))
    (λ e, if IsNotFound e then errClusterNotFound else e) in
  if String.eqb (k_status c) ClusterDeleted then fail errClusterNotFound
  else
    let stableAgentID := default "" (k_agent c) in
    let stableAgentID :=
      if String.eqb stableAgentID "" then default "" (tk_used_by token) else stableAgentID in
    if String.eqb stableAgentID "" then fail errClusterNotFound
    else
      let* _ := try (WithTenant (k_org c)
        (enqueue_cluster EventClusterRecovered (k_org c)
           (clusterRecoveredPayload (k_id c) stableAgentID requestAgentID source)
           (by_cluster_agent stableAgentID (k_id c)))) in
      ret c.

(** The cluster as [RegisterAgent] returns it, edited in place. *)
Definition registered_view (req : AgentRegisterRequest) (provider region : option string)
    (now : Z) (c : Cluster) : Cluster :=
  mkClu (k_id c) (k_created c) (k_updated c) (k_version c) (k_org c) (k_name c) (k_slug c)
    (k_desc c) ClusterConnected (Some (ar_k8s req)) (Some (ar_nodes req))
    (match provider with Some p => Some p | None => k_provider c end)
    (match region with Some r => Some r | None => k_region c end)
    (Some (ar_agent req)) (Some now) (Some now) (k_labels c) (k_created_by c).

Definition nonempty (s : string) : option string := if String.eqb s "" then None else Some s.

(** The transaction of a fresh registration. *)
Definition register_fresh (req : AgentRegisterRequest) (token : RegistrationToken) (now : Z)
    : CM Cluster :=
  let* c := clusterRepo_GetByID (tk_cluster token) in
  if negb (may_register c) then fail errClusterNotPending
  else
    tokenRepo_MarkUsed (tk_id token) (ar_agent req) ;;
    let provider := nonempty (ar_provider req) in
    let region := nonempty (ar_region req) in
    clusterRepo_RegisterAgent (k_id c) (ar_agent req) (ar_k8s req) (ar_nodes req) provider region
      now ;;
    enqueue_cluster EventClusterRegistered (tk_org token)
      (clusterRegisteredPayload (k_id c) (ar_agent req) (ar_k8s req) (ar_nodes req)
         (ar_provider req) (ar_region req))
      (by_cluster_agent (ar_agent req) (k_id c)) ;;
    ret (registered_view req provider region now c).

Definition lookup_token (hash : string) : CM RegistrationToken :=
  on_err (tokenRepo_GetByHash bypassrls hash)
    (λ e, if IsNotFound e then errInvalidToken else e).

Definition Service_RegisterAgent (req : AgentRegisterRequest) : CM Cluster :=
  if String.eqb (ar_token req) "" || String.eqb (ar_agent req) ""
  then fail (Validation "token and agentId are required")
  else
    let* now := now_ in
    let* token := lookup_token (hashToken (ar_token req)) in
    if String.eqb (tk_status token) TokenStatusRevoked then fail errTokenRevoked
    else if String.eqb (tk_status token) TokenStatusUsed
    then recoverRegisteredCluster token (ar_agent req) "register"
    else if String.eqb (tk_status token) TokenStatusExpired then fail errTokenExpired
    else if tk_expires token <? now then fail errTokenExpired
    else WithTenant (tk_org token) (register_fresh req token now).

Definition Service_RecoverCluster (plainToken requestAgentID : string) : CM Cluster :=
  if String.eqb plainToken "" then fail errInvalidToken
  else
    let* token := lookup_token (hashToken plainToken) in
    if String.eqb (tk_status token) TokenStatusRevoked then fail errTokenRevoked
    else if String.eqb (tk_status token) TokenStatusUsed
    then recoverRegisteredCluster token requestAgentID "recover"
    else if String.eqb (tk_status token) TokenStatusExpired then fail errTokenExpired
    else
      let* now := now_ in
      if tk_expires token <? now then fail errTokenExpired
      else recoverRegisteredCluster token requestAgentID "recover".

(** ** Heartbeats *)

(** A history row that cannot be written is logged and skipped. *)
Definition Service_RecordHeartbeat (orgID clusterID : string) (req : AgentHeartbeatRequest)
    : CM unit :=
  if String.eqb (ah_agent req) "" then fail (Validation "agentId is required")
  else
    let* now := now_ in
    WithTenant orgID (
      let* c := clusterRepo_GetByID clusterID in
      if negb (match k_agent c with Some a => String.eqb a (ah_agent req) | None => false end)
      then fail errAgentMismatch
      else
        let* _ := try (heartbeatRepo_Create
          (mkBeat "" orgID clusterID (ah_agent req) (Some (ah_k8s req)) (Some (ah_nodes req))
             (ah_healthy req) now)) in
        clusterRepo_UpdateHeartbeat clusterID now (ah_k8s req) (ah_nodes req) ;;
        enqueue_cluster EventClusterHeartbeatReceived orgID
          (heartbeatReceivedPayload clusterID (ah_agent req) (ah_k8s req) (ah_nodes req)
             (ah_healthy req))
          (by_cluster_agent (ah_agent req) clusterID)).

Definition Service_GetHeartbeats (orgID userID clusterID : string) (limit : Z)
    : CM (list Heartbeat) :=
  let* _ := AuthorizeOrgRead orgID userID in
  WithTenant orgID (heartbeatRepo_ListByCluster clusterID limit).

(** ** Disconnection *)

(** The variable [count], which a rolled back attempt does not reset. *)
Definition set_count (f : nat → nat) : CM unit :=
  λ s, (Ok tt, set_outside (mkOutside (delivered (outside s)) (f (counted (outside s)))) s).
Definition get_count : CM nat := λ s, (Ok (counted (outside s)), s).

(** The loop over the page. *)
Fixpoint mark_stale (orgID : string) (cutoff timeout : Z) (items : list Cluster) : CM unit :=
  match items with
  | [] => ret tt
  | c :: items =>
      match k_heartbeat c with
      | Some at_ =>
          if at_ <? cutoff then
            let* r := try (clusterRepo_UpdateStatus (k_id c) ClusterDisconnected) in
            match r with
            | Err _ => mark_stale orgID cutoff timeout items
            | Ok _ =>
                let* _ := try (enqueue_cluster EventClusterDisconnected orgID
                  (clusterDisconnectedPayload (k_id c) at_ (GoTime.Duration_String timeout))
                  [WithResource (mkResource "cluster" (k_id c))]) in
                set_count S ;;
                mark_stale orgID cutoff timeout items
            end
          else mark_stale orgID cutoff timeout items
      | None => mark_stale orgID cutoff timeout items
      end
  end.

Definition Service_MarkDisconnected (orgID : string) (timeout : Z) : CM nat :=
  let timeout := if timeout <=? 0 then HeartbeatTimeout else timeout in
  let* now := now_ in
  set_count (λ _, 0%nat) ;;
  WithTenant orgID (
    let* page := clusterRepo_List (mkPageRequest 100 "") ClusterConnected in
    mark_stale orgID (now - timeout) timeout (Items page)) ;;
  get_count.

(** ** agent_handlers.go *)
Definition clusterValidator_ValidateCluster (clusterID agentID : string) : CM string :=
  let* c := on_err (clusterRepo_GetByIDWithoutTenant bypassrls clusterID)
    (λ _, Unauthorized "invalid cluster credentials") in
  if String.eqb (k_status c) ClusterDeleted then fail (Forbidden "cluster deleted")
  else
    match k_agent c with
    | None => fail (Forbidden "cluster not registered")
    | Some a => if String.eqb a agentID then ret (k_org c)
                else fail (Unauthorized "invalid agent credentials")
    end.

(** POST /v1/agent/clusters/:clusterId/heartbeat, behind the middleware: the
    agent id of the body is replaced by the authenticated one. *)
Definition Agent_Heartbeat (hdr_cluster hdr_agent path_cluster : string)
    (body : option AgentHeartbeatRequest) : CM unit :=
  if String.eqb hdr_cluster "" then fail (Unauthorized "missing X-Cluster-ID header")
  else if String.eqb hdr_agent "" then fail (Unauthorized "missing X-Agent-ID header")
  else
    let* orgID := clusterValidator_ValidateCluster hdr_cluster hdr_agent in
    if negb (String.eqb path_cluster hdr_cluster) then fail (Forbidden "cluster ID mismatch")
    else
      let* req := parseBody body in
      Service_RecordHeartbeat orgID hdr_cluster
        (mkHeartbeatReq hdr_agent (ah_k8s req) (ah_nodes req) (ah_healthy req)).
End Service.
