(* ===== verification/ClusterApi.v ===== *)
(** * The HTTP API of the cluster service

    services/cluster/internal: handlers.go and routes.go (the route table, as
    [cserve_user] for the routes behind [RequireAuth] and [cserve_agent] for
    the capability-based and credential-based ones).  A handler's result is
    the status and the body of its response or the error the error handler
    renders. *)

From S2P Require Import Prelude Json AppErrors Tx Events Pagination Authz ClusterStore.
From S2P Require Import ClusterService.
Open Scope Z_scope.
Open Scope tx_scope.

Inductive CBody :=
| CBNone
| CBStatusOk
| CBCluster (v : ClusterView)
| CBClusters (items : list ClusterView) (nextCursor : string)
| CBToken (t : TokenWithSecret)
| CBHeartbeats (items : list HeartbeatView).
Record CResponse := mkCResponse { cr_status : Z; cr_body : CBody }.

Definition crespond (b : CBody) : CM CResponse := ret (mkCResponse 200 b).

Definition crequire_org (org : string) : CM unit :=
  if String.eqb org "" then fail errClusterOrgRequired else ret tt.

(** A request to an authenticated user route; random bytes come with the
    request that needs them. *)
Inductive ClusterRequest :=
| PostCluster (org : string) (b : option CreateClusterRequest)
| ListClusters (org : string) (page : PageRequest) (status : string)
| GetCluster (org cluster : string)
| PatchCluster (org cluster : string) (b : option UpdateClusterRequest)
| DeleteCluster (org cluster : string)
| PostToken (org cluster : string) (rand : option (list Z)) (b : option string)
| DeleteToken (org cluster token : string)
| GetHeartbeats (org cluster : string) (limit : Z).

(** A request to a route for agents. *)
Inductive ClusterAgentRequest :=
| PostRegister (b : option AgentRegisterRequest)
| GetRecover (hdr_token authorization hdr_agent : string)
| PostHeartbeat (hdr_cluster hdr_agent path_cluster : string) (b : option AgentHeartbeatRequest).

Section Handlers.
Context `{CursorJSON}.
Context (bypassrls : bool).

Definition CHandler_CreateCluster (org user : string) (b : option CreateClusterRequest)
    : CM CResponse :=
  let* _ := crequire_org org in
  let* req := parseBody b in
  let* c := Service_CreateCluster org user req in
  ret (mkCResponse 201 (CBCluster (toClusterView c))).

Definition CHandler_GetCluster (org user cluster : string) : CM CResponse :=
  let* _ := crequire_org org in
  let* c := Service_GetCluster org user cluster in
  crespond (CBCluster (toClusterView c)).

Definition CHandler_ListClusters (org user : string) (page : PageRequest) (status : string)
    : CM CResponse :=
  let* _ := crequire_org org in
  let* p := Service_ListClusters org user page status in
  crespond (CBClusters (toClusterView <$> Items p) (NextCursor p)).

Definition CHandler_UpdateCluster (org user cluster : string) (b : option UpdateClusterRequest)
    : CM CResponse :=
  let* _ := crequire_org org in
  let* req := parseBody b in
  let* c := Service_UpdateCluster org user cluster req in
  crespond (CBCluster (toClusterView c)).

Definition CHandler_DeleteCluster (org user cluster : string) : CM CResponse :=
  let* _ := crequire_org org in
  let* _ := Service_DeleteCluster org user cluster in
  ret (mkCResponse 204 CBNone).

(** The body is its [expiresIn]. *)
Definition CHandler_GenerateRegistrationToken (org user cluster : string)
    (rand : option (list Z)) (b : option string) : CM CResponse :=
  let* _ := crequire_org org in
  let* req := parseBody b in
  let* t := Service_GenerateRegistrationToken rand org user cluster req in
  ret (mkCResponse 201 (CBToken t)).

Definition CHandler_RevokeRegistrationToken (org user cluster token : string) : CM CResponse :=
  let* _ := crequire_org org in
  let* _ := Service_RevokeRegistrationToken org user cluster token in
  ret (mkCResponse 204 CBNone).

Definition CHandler_GetHeartbeats (org user cluster : string) (limit : Z) : CM CResponse :=
  let* _ := crequire_org org in
  let* l := Service_GetHeartbeats org user cluster limit in
  crespond (CBHeartbeats (toHeartbeatView <$> l)).

Definition CHandler_RegisterAgent (b : option AgentRegisterRequest) : CM CResponse :=
  let* req := parseBody b in
  let* c := Service_RegisterAgent bypassrls req in
  crespond (CBCluster (toClusterView c)).

(** The installation token: its own header or a bearer token. *)
Definition presented_token (hdr_token authorization : string) : string :=
  if String.eqb hdr_token "" then bearerToken authorization else hdr_token.

Definition CHandler_RecoverAgent (hdr_token authorization hdr_agent : string) : CM CResponse :=
  let* c := Service_RecoverCluster bypassrls (presented_token hdr_token authorization) hdr_agent in
  crespond (CBCluster (toClusterView c)).

(** ** routes.go *)
Definition cserve_user (user : string) (r : ClusterRequest) : CM CResponse :=
  match r with
  | PostCluster org b => CHandler_CreateCluster org user b
  | ListClusters org page status => CHandler_ListClusters org user page status
  | GetCluster org cluster => CHandler_GetCluster org user cluster
  | PatchCluster org cluster b => CHandler_UpdateCluster org user cluster b
  | DeleteCluster org cluster => CHandler_DeleteCluster org user cluster
  | PostToken org cluster rand b => CHandler_GenerateRegistrationToken org user cluster rand b
  | DeleteToken org cluster token => CHandler_RevokeRegistrationToken org user cluster token
  | GetHeartbeats org cluster limit => CHandler_GetHeartbeats org user cluster limit
  end.

Definition cserve_agent (r : ClusterAgentRequest) : CM CResponse :=
  match r with
  | PostRegister b => CHandler_RegisterAgent b
  | GetRecover tok auth agent => CHandler_RecoverAgent tok auth agent
  | PostHeartbeat hc ha path b =>
      let* _ := Agent_Heartbeat bypassrls hc ha path b in crespond CBStatusOk
  end.

(** ** Everything that reaches the service *)
Inductive ClusterCall :=
| CUser (user : string) (r : ClusterRequest)
| CAgent (r : ClusterAgentRequest)
| CSweep (org : string) (timeout : Z).

Definition cperform (c : ClusterCall) : CM (option CResponse) :=
  match c with
  | CUser user r => let* x := cserve_user user r in ret (Some x)
  | CAgent r => let* x := cserve_agent r in ret (Some x)
  | CSweep org timeout => let* _ := Service_MarkDisconnected org timeout in ret None
  end.
End Handlers.
