(* ===== verification/ClusterSpec.v ===== *)
(** * The abstract state machine of the cluster data

    What the cluster service may do to its tables, as a step relation
    [cchange] on the database, the invariant [cwf] of its states and the
    history [kept] every step respects.  [ClusterFacts] shows that every call
    of the service performs such steps. *)

From S2P Require Import Prelude Json AppErrors Tx Events Pagination Authz ClusterStore.
From S2P Require Import ClusterService.
Open Scope Z_scope.

(** ** Single-row updates *)
Definition put_clu (k : string) (c : Cluster) (db : CDB) : CDB :=
  set_clusters (<[k := c]> (ct_clusters db)) db.
Definition put_tok (k : string) (t : RegistrationToken) (db : CDB) : CDB :=
  set_tokens (<[k := t]> (ct_tokens db)) db.
Definition put_beat (k : string) (h : Heartbeat) (db : CDB) : CDB :=
  set_beats (<[k := h]> (ct_beats db)) db.

Definition slug_unused (o slug : string) (db : CDB) : Prop :=
  ∀ k c, ct_clusters db !! k = Some c → ¬ (k_org c = o ∧ k_slug c = slug).
Definition no_active (cluster : string) (db : CDB) : Prop :=
  ∀ k t, ct_tokens db !! k = Some t → ¬ (tk_cluster t = cluster ∧ tk_status t = TokenStatusActive).
Definition hash_unused (h : string) (db : CDB) : Prop :=
  ∀ k t, ct_tokens db !! k = Some t → tk_hash t ≠ h.

(** ** Steps, in the tenant [o] at time [now] *)
Inductive cchange (o : string) (now : Z) (db : CDB) : CDB → Prop :=
| cc_event row :
    OrgID (ob_event row) = o → Validate (ob_event row) = None → new_in row db →
    cchange o now db (append_row row db)
| cc_new c :
    k_org c = o → ct_clusters db !! k_id c = None → slug_unused o (k_slug c) db →
    k_status c = ClusterPending → k_agent c = None → k_version c = 1 →
    cchange o now db (put_clu (k_id c) c db)
| cc_edit k c e :
    ct_clusters db !! k = Some c → k_org c = o → live c = true →
    cchange o now db (put_clu k (clu_edit e now c) db)
| cc_delete k c :
    ct_clusters db !! k = Some c → k_org c = o → live c = true →
    cchange o now db (put_clu k (clu_with_status ClusterDeleted now c) db)
| cc_disconnect k c :
    ct_clusters db !! k = Some c → k_org c = o → k_status c = ClusterConnected →
    cchange o now db (put_clu k (clu_with_status ClusterDisconnected now c) db)
| cc_beat k c at_ k8s nodes a :
    ct_clusters db !! k = Some c → k_org c = o → live c = true → k_agent c = Some a →
    cchange o now db (put_clu k (clu_beat at_ k8s nodes now c) db)
| cc_beat_row k h :
    hb_org h = o → ct_beats db !! k = None →
    (∃ c, ct_clusters db !! hb_cluster h = Some c ∧ k_org c = o ∧ k_agent c = Some (hb_agent h)) →
    cchange o now db (put_beat k h db)
| cc_token_new t c :
    tk_org t = o → ct_tokens db !! tk_id t = None → tk_status t = TokenStatusActive →
    tk_used_by t = None → hash_unused (tk_hash t) db → no_active (tk_cluster t) db →
    ct_clusters db !! tk_cluster t = Some c → k_org c = o →
    cchange o now db (put_tok (tk_id t) t db)
| cc_revoke k t :
    ct_tokens db !! k = Some t → tk_org t = o → tk_status t = TokenStatusActive →
    cchange o now db (put_tok k (tok_revoked now t) db)
(** A registration consumes an active token and binds its cluster to an agent. *)
| cc_register k t c a k8s nodes provider region at_ :
    ct_tokens db !! k = Some t → tk_org t = o → tk_status t = TokenStatusActive → a ≠ "" →
    ct_clusters db !! tk_cluster t = Some c → k_org c = o → may_register c = true →
    cchange o now db
      (put_clu (tk_cluster t) (clu_register a k8s nodes provider region at_ now c)
         (put_tok k (tok_used a now t) db)).

(** ** The invariant *)
Definition cluster_statuses : list string :=
  [ClusterPending; ClusterConnected; ClusterDisconnected; ClusterDeleted].

Record cwf (db : CDB) : Prop := {
  cw_clu_key k c : ct_clusters db !! k = Some c → k_id c = k;
  cw_tok_key k t : ct_tokens db !! k = Some t → tk_id t = k;
  cw_status k c : ct_clusters db !! k = Some c → k_status c ∈ cluster_statuses;
  (** A cluster that is connected, or was, has an agent. *)
  cw_connected k c : ct_clusters db !! k = Some c →
    k_status c = ClusterConnected ∨ k_status c = ClusterDisconnected → is_Some (k_agent c);
  (** The agent of a cluster registered with a token that is used up. *)
  cw_agent k c a : ct_clusters db !! k = Some c → k_agent c = Some a →
    a ≠ "" ∧ ∃ kt t, ct_tokens db !! kt = Some t ∧ tk_cluster t = k ∧
      tk_status t = TokenStatusUsed ∧ tk_used_by t = Some a;
  (** A used token names its agent, and its cluster has one. *)
  cw_used k t : ct_tokens db !! k = Some t → tk_status t = TokenStatusUsed →
    is_Some (tk_used_by t) ∧
    ∃ c, ct_clusters db !! tk_cluster t = Some c ∧ is_Some (k_agent c);
  (** Tokens belong to a cluster of their tenant. *)
  cw_token k t : ct_tokens db !! k = Some t →
    ∃ c, ct_clusters db !! tk_cluster t = Some c ∧ k_org c = tk_org t;
  cw_hash k1 t1 k2 t2 : ct_tokens db !! k1 = Some t1 → ct_tokens db !! k2 = Some t2 →
    tk_hash t1 = tk_hash t2 → k1 = k2;
  cw_active k1 t1 k2 t2 : ct_tokens db !! k1 = Some t1 → ct_tokens db !! k2 = Some t2 →
    tk_status t1 = TokenStatusActive → tk_status t2 = TokenStatusActive →
    tk_cluster t1 = tk_cluster t2 → k1 = k2;
  cw_slug k1 c1 k2 c2 : ct_clusters db !! k1 = Some c1 → ct_clusters db !! k2 = Some c2 →
    k_org c1 = k_org c2 → k_slug c1 = k_slug c2 → k1 = k2;
  (** The heartbeat history is about clusters of its tenant. *)
  cw_beats k h : ct_beats db !! k = Some h →
    ∃ c, ct_clusters db !! hb_cluster h = Some c ∧ k_org c = hb_org h;
  cw_outbox : NoDup (ob_id <$> ct_outbox db) ∧ NoDup (EventID ∘ ob_event <$> ct_outbox db) ∧
    Forall (λ row, Validate (ob_event row) = None) (ct_outbox db) }.

(** ** The history *)
Record clu_kept (c c' : Cluster) : Prop := {
  ck_org : k_org c' = k_org c;
  ck_slug : k_slug c' = k_slug c;
  ck_created : k_created c' = k_created c;
  ck_version : k_version c ≤ k_version c';
  ck_deleted : k_status c = ClusterDeleted → k_status c' = ClusterDeleted ∧ k_agent c' = k_agent c;
  ck_agent : is_Some (k_agent c) → is_Some (k_agent c') }.

(** A token never changes hands; once used or revoked it never changes again. *)
Record tok_kept (t t' : RegistrationToken) : Prop := {
  tkk_org : tk_org t' = tk_org t;
  tkk_cluster : tk_cluster t' = tk_cluster t;
  tkk_hash : tk_hash t' = tk_hash t;
  tkk_expires : tk_expires t' = tk_expires t;
  tkk_final : tk_status t ≠ TokenStatusActive → t' = t }.

Record kept (db db' : CDB) : Prop := {
  kp_clusters k c : ct_clusters db !! k = Some c →
    ∃ c', ct_clusters db' !! k = Some c' ∧ clu_kept c c';
  kp_tokens k t : ct_tokens db !! k = Some t →
    ∃ t', ct_tokens db' !! k = Some t' ∧ tok_kept t t';
  kp_beats k h : ct_beats db !! k = Some h → ct_beats db' !! k = Some h;
  kp_outbox : ct_outbox db `prefix_of` ct_outbox db';
  kp_members : ct_members db' = ct_members db;
  kp_orgs : ct_orgs db' = ct_orgs db }.

#[export] Instance clu_kept_preorder : PreOrder clu_kept.
Proof.
  split; [by intros c; split|]. intros c1 c2 c3 [] []. split; try congruence; try lia.
  - intros Hd. destruct (ck_deleted0 Hd) as [Hd2 Ha]. destruct (ck_deleted1 Hd2). split; congruence.
  - auto.
Qed.
#[export] Instance tok_kept_preorder : PreOrder tok_kept.
Proof.
  split; [by intros c; split|]. intros c1 c2 c3 [] []. split; try congruence.
  intros Hf. rewrite (tkk_final0 Hf) in *. auto.
Qed.
#[export] Instance kept_preorder : PreOrder kept.
Proof.
  split.
  - intros db. split; eauto; intros; [eexists; split; [done|]; reflexivity..].
  - intros d1 d2 d3 [A1 A2 A3 A4 A5 A6] [B1 B2 B3 B4 B5 B6]. split; try congruence.
    + intros k c (c' & (c'' & ? & ?)%B1 & ?)%A1. exists c''. split; [done|]. by etrans.
    + intros k c (c' & (c'' & ? & ?)%B2 & ?)%A2. exists c''. split; [done|]. by etrans.
    + eauto.
    + by etrans.
Qed.

(** Rows of other tenants are untouched. *)
Record kept_apart (o : string) (db db' : CDB) : Prop := {
  ka_clusters k c : k_org c ≠ o →
    ct_clusters db !! k = Some c ↔ ct_clusters db' !! k = Some c;
  ka_tokens k t : tk_org t ≠ o → ct_tokens db !! k = Some t ↔ ct_tokens db' !! k = Some t;
  ka_beats k h : hb_org h ≠ o → ct_beats db !! k = Some h ↔ ct_beats db' !! k = Some h;
  ka_events : ∃ l, ct_outbox db' = ct_outbox db ++ l ∧ Forall (λ r, OrgID (ob_event r) = o) l }.

#[export] Instance kept_apart_preorder o : PreOrder (kept_apart o).
Proof.
  split.
  - intros db. split; [done..|]. exists []. by rewrite app_nil_r.
  - intros d1 d2 d3 [A1 A2 A3 (l1 & A4 & A5)] [B1 B2 B3 (l2 & B4 & B5)]. split.
    + intros k c Hc. by rewrite A1, B1.
    + intros k c Hc. by rewrite A2, B2.
    + intros k c Hc. by rewrite A3, B3.
    + exists (l1 ++ l2). rewrite B4, A4, app_assoc, Forall_app. done.
Qed.

(** ** Preservation *)

(** A row has one status. *)
Ltac other_status :=
  exfalso; simplify_eq/=;
  match goal with
  | H1 : ?x = ?a, H2 : ?x = ?b |- _ =>
      lazymatch type of a with string => rewrite H1 in H2; discriminate H2 end
  end.

(** A cluster row replaced by one of the same identity whose agent, if any, is
    accounted for by a used token. *)
Lemma cwf_put_clu db k c c' :
  cwf db → ct_clusters db !! k = Some c → k_id c' = k → k_org c' = k_org c → k_slug c' = k_slug c →
  k_status c' ∈ cluster_statuses →
  (k_status c' = ClusterConnected ∨ k_status c' = ClusterDisconnected → is_Some (k_agent c')) →
  k_agent c' = k_agent c → cwf (put_clu k c' db).
Proof.
  intros [W1 W2 W3 W4 W5 W6 W7 W8 W9 W10 W11 W12] Hk Hid Ho Hs Hst Hco Ha.
  assert (Hl : ∀ j x, <[k := c']> (ct_clusters db) !! j = Some x →
     ∃ y, ct_clusters db !! j = Some y ∧ k_org x = k_org y ∧ k_slug x = k_slug y ∧
       k_agent x = k_agent y).
  { intros j x [[<- <-]|[? Hj]]%lookup_insert_Some; eauto 10. }
  assert (Hl' : ∀ j y, ct_clusters db !! j = Some y →
     ∃ x, <[k := c']> (ct_clusters db) !! j = Some x ∧ k_org x = k_org y ∧
       k_agent x = k_agent y).
  { intros j y Hj. destruct (decide (j = k)) as [->|].
    - exists c'. rewrite lookup_insert_eq. simplify_eq. eauto.
    - exists y. by rewrite lookup_insert_ne. }
  split; simpl; try done.
  - intros j x [[<- <-]|[? Hj]]%lookup_insert_Some; eauto.
  - intros j x [[<- <-]|[? Hj]]%lookup_insert_Some; eauto.
  - intros j x [[<- <-]|[? Hj]]%lookup_insert_Some; eauto.
  - intros j x a (y & Hy & _ & _ & ->)%Hl. eauto.
  - intros j t Hj Hu. destruct (W6 j t Hj Hu) as [? (y & Hy & ?)]. split; [done|].
    destruct (Hl' _ _ Hy) as (x & ? & _ & Hxa). exists x. by rewrite Hxa.
  - intros j t (y & Hy & <-)%W7. destruct (Hl' _ _ Hy) as (x & ? & ? & _). eauto.
  - intros k1 c1 k2 c2 (y1 & ? & -> & -> & _)%Hl (y2 & ? & -> & -> & _)%Hl. eauto.
  - intros j h (y & Hy & <-)%W11. destruct (Hl' _ _ Hy) as (x & ? & ? & _). eauto.
Qed.

Lemma kept_put_clu db k c c' :
  ct_clusters db !! k = Some c → clu_kept c c' → kept db (put_clu k c' db).
Proof.
  intros Hk Hc. split; simpl; try done; [..|by intros j t Hj; exists t].
  intros j x Hj. destruct (decide (j = k)) as [->|].
  - exists c'. rewrite lookup_insert_eq. by simplify_eq.
  - exists x. by rewrite lookup_insert_ne.
Qed.

Lemma kept_put_tok db k t t' :
  ct_tokens db !! k = Some t → tok_kept t t' → kept db (put_tok k t' db).
Proof.
  intros Hk Hc. split; simpl; try done; [by intros j c Hj; exists c|].
  intros j x Hj. destruct (decide (j = k)) as [->|].
  - exists t'. rewrite lookup_insert_eq. by simplify_eq.
  - exists x. by rewrite lookup_insert_ne.
Qed.

(** A change of one row of the tenant is no change for the others. *)
Lemma insert_apart {A} (f : A → string) o (m : gmap string A) k a' :
  (∀ a, m !! k = Some a → f a = o) → f a' = o →
  ∀ j x, f x ≠ o → m !! j = Some x ↔ <[k := a']> m !! j = Some x.
Proof.
  intros Hold Hnew j x Hx. destruct (decide (j = k)) as [->|]; [|by rewrite lookup_insert_ne].
  rewrite lookup_insert_eq. split; [intros ?%Hold; done|intros [= ->]; done].
Qed.

Lemma apart_put_clu o db k c' :
  (∀ c, ct_clusters db !! k = Some c → k_org c = o) → k_org c' = o →
  kept_apart o db (put_clu k c' db).
Proof.
  intros Hold Hnew. split; simpl; try done; [by apply insert_apart|].
  exists []. by rewrite app_nil_r.
Qed.
Lemma apart_put_tok o db k t' :
  (∀ t, ct_tokens db !! k = Some t → tk_org t = o) → tk_org t' = o →
  kept_apart o db (put_tok k t' db).
Proof.
  intros Hold Hnew. split; simpl; try done; [by apply insert_apart|].
  exists []. by rewrite app_nil_r.
Qed.

(** A token row replaced by one that is no longer active, and not used. *)
Lemma cwf_put_tok_revoked db k t now :
  cwf db → ct_tokens db !! k = Some t → tk_status t = TokenStatusActive →
  cwf (put_tok k (tok_revoked now t) db).
Proof.
  intros [W1 W2 W3 W4 W5 W6 W7 W8 W9 W10 W11 W12] Hk Hst.
  assert (Hl : ∀ j x, <[k := tok_revoked now t]> (ct_tokens db) !! j = Some x →
     ∃ y, ct_tokens db !! j = Some y ∧ tk_org x = tk_org y ∧ tk_cluster x = tk_cluster y ∧
       tk_hash x = tk_hash y ∧ tk_id x = tk_id y ∧
       (x = y ∨ tk_status x = TokenStatusRevoked)).
  { intros j x [[<- <-]|[? Hj]]%lookup_insert_Some; eauto 10. }
  split; simpl; try done.
  - intros j x (y & Hy & _ & _ & _ & -> & _)%Hl. eauto.
  - intros j c a Hc Ha. destruct (W5 j c a Hc Ha) as [? (kt & u & Hu & ? & Hus & ?)].
    split; [done|]. exists kt, u. rewrite lookup_insert_ne; [done|]. intros ->. other_status.
  - intros j x (y & Hy & _ & Hc & _ & _ & [->|Hx])%Hl Hu; [eauto|other_status].
  - intros j x (y & Hy & Ho & Hc & _)%Hl. rewrite Ho, Hc. eauto.
  - intros k1 t1 k2 t2 (y1 & ? & _ & _ & -> & _)%Hl (y2 & ? & _ & _ & -> & _)%Hl. eauto.
  - intros k1 t1 k2 t2 (y1 & ? & _ & -> & _ & _ & [->|?])%Hl (y2 & ? & _ & -> & _ & _ & [->|?])%Hl ??;
      [eauto|other_status..].
Qed.

Lemma cwf_register db k t c a k8s nodes provider region at_ now :
  cwf db → ct_tokens db !! k = Some t → tk_status t = TokenStatusActive → a ≠ "" →
  ct_clusters db !! tk_cluster t = Some c →
  cwf (put_clu (tk_cluster t) (clu_register a k8s nodes provider region at_ now c)
         (put_tok k (tok_used a now t) db)).
Proof.
  intros [W1 W2 W3 W4 W5 W6 W7 W8 W9 W10 W11 W12] Hk Hst Ha Hc.
  set (c' := clu_register a k8s nodes provider region at_ now c). set (t' := tok_used a now t).
  assert (Ht : ∀ j x, <[k := t']> (ct_tokens db) !! j = Some x →
     ∃ y, ct_tokens db !! j = Some y ∧ tk_org x = tk_org y ∧ tk_cluster x = tk_cluster y ∧
       tk_hash x = tk_hash y ∧ tk_id x = tk_id y ∧ (x = y ∨ x = t' ∧ j = k)).
  { intros j x [[<- <-]|[? Hj]]%lookup_insert_Some; eauto 12. }
  assert (Hl : ∀ j x, <[tk_cluster t := c']> (ct_clusters db) !! j = Some x →
     ∃ y, ct_clusters db !! j = Some y ∧ k_org x = k_org y ∧ k_slug x = k_slug y ∧
       k_id x = k_id y ∧ (x = y ∨ x = c' ∧ j = tk_cluster t)).
  { intros j x [[<- <-]|[? Hj]]%lookup_insert_Some; eauto 12. }
  assert (Hl' : ∀ j y, ct_clusters db !! j = Some y →
     ∃ x, <[tk_cluster t := c']> (ct_clusters db) !! j = Some x ∧ k_org x = k_org y ∧
       (is_Some (k_agent y) → is_Some (k_agent x))).
  { intros j y Hj. destruct (decide (j = tk_cluster t)) as [->|].
    - exists c'. rewrite lookup_insert_eq. simplify_eq. split; [done|]. split; [done|]. by exists a.
    - exists y. by rewrite lookup_insert_ne. }
  split; simpl; try done.
  - intros j x (y & Hy & _ & _ & -> & _)%Hl. eauto.
  - intros j x (y & Hy & _ & _ & _ & -> & _)%Ht. eauto.
  - intros j x (y & Hy & _ & _ & _ & [->|[-> _]])%Hl; [eauto|]. right. left.
  - intros j x (y & Hy & _ & _ & _ & [->|[-> _]])%Hl; [eauto|]. by exists a.
  - intros j x b (y & Hy & _ & _ & _ & [->|[-> ->]])%Hl Hb.
    + destruct (W5 _ _ _ Hy Hb) as [? (kt & u & Hu & ? & Hus & ?)]. split; [done|].
      exists kt, u. rewrite lookup_insert_ne; [done|]. intros ->. other_status.
    + injection Hb as <-. split; [done|]. exists k, t'. by rewrite lookup_insert_eq.
  - intros j x (y & Hy & _ & Hcl & _ & _ & [->|[-> ->]])%Ht Hu.
    + destruct (W6 _ _ Hy Hu) as [? (z & Hz & Hza)]. split; [done|].
      destruct (Hl' _ _ Hz) as (x & ? & _ & ?). eauto.
    + split; [by exists a|]. exists c'. simpl. rewrite lookup_insert_eq. split; [done|]. by exists a.
  - intros j x (y & Hy & Ho & Hcl & _)%Ht. destruct (W7 _ _ Hy) as (z & Hz & Hzo).
    destruct (Hl' _ _ Hz) as (x' & ? & ? & _). exists x'. rewrite Ho, Hcl. split; [done|congruence].
  - intros k1 t1 k2 t2 (y1 & ? & _ & _ & -> & _)%Ht (y2 & ? & _ & _ & -> & _)%Ht. eauto.
  - intros k1 t1 k2 t2 (y1 & ? & _ & -> & _ & _ & [->|[-> _]])%Ht
      (y2 & ? & _ & -> & _ & _ & [->|[-> _]])%Ht; [eauto|done..].
  - intros k1 c1 k2 c2 (y1 & ? & -> & -> & _)%Hl (y2 & ? & -> & -> & _)%Hl. eauto.
  - intros j h (y & Hy & <-)%W11. destruct (Hl' _ _ Hy) as (x & ? & ? & _). eauto.
Qed.

Lemma cwf_new_clu db c :
  cwf db → ct_clusters db !! k_id c = None → slug_unused (k_org c) (k_slug c) db →
  k_status c = ClusterPending → k_agent c = None → cwf (put_clu (k_id c) c db).
Proof.
  intros [W1 W2 W3 W4 W5 W6 W7 W8 W9 W10 W11 W12] Hfr Hsl Hst Ha.
  assert (Hl' : ∀ j y, ct_clusters db !! j = Some y →
     <[k_id c := c]> (ct_clusters db) !! j = Some y).
  { intros j y Hj. rewrite lookup_insert_ne; [done|]. congruence. }
  split; simpl; try done.
  - intros j x [[<- <-]|[? Hj]]%lookup_insert_Some; eauto.
  - intros j x [[<- <-]|[? Hj]]%lookup_insert_Some; [rewrite Hst; left|eauto].
  - intros j x [[<- <-]|[? Hj]]%lookup_insert_Some; [rewrite Hst; intros [|]; done|eauto].
  - intros j x b [[<- <-]|[? Hj]]%lookup_insert_Some Hb; [congruence|eauto].
  - intros j t Hj Hu. destruct (W6 j t Hj Hu) as [? (y & Hy%Hl' & ?)]. eauto.
  - intros j t (y & Hy%Hl' & ?)%W7. eauto.
  - intros k1 c1 k2 c2 [[<- <-]|[? H1]]%lookup_insert_Some [[<- <-]|[? H2]]%lookup_insert_Some Ho Hs;
      [done| | |eauto].
    + by destruct (Hsl _ _ H2).
    + by destruct (Hsl _ _ H1).
  - intros j h (y & Hy%Hl' & ?)%W11. eauto.
Qed.

Lemma cwf_new_tok db t c :
  cwf db → ct_tokens db !! tk_id t = None → tk_status t = TokenStatusActive →
  hash_unused (tk_hash t) db → no_active (tk_cluster t) db →
  ct_clusters db !! tk_cluster t = Some c → k_org c = tk_org t → cwf (put_tok (tk_id t) t db).
Proof.
  intros [W1 W2 W3 W4 W5 W6 W7 W8 W9 W10 W11 W12] Hfr Hst Hh Hna Hc Ho.
  split; simpl; try done.
  - intros j x [[<- <-]|[? Hj]]%lookup_insert_Some; eauto.
  - intros j x a Hj Ha. destruct (W5 _ _ _ Hj Ha) as [? (kt & u & Hu & ?)]. split; [done|].
    exists kt, u. rewrite lookup_insert_ne; [done|]. congruence.
  - intros j x [[<- <-]|[? Hj]]%lookup_insert_Some Hu; [other_status|eauto].
  - intros j x [[<- <-]|[? Hj]]%lookup_insert_Some; eauto.
  - intros k1 t1 k2 t2 [[<- <-]|[? H1]]%lookup_insert_Some [[<- <-]|[? H2]]%lookup_insert_Some He;
      [done| | |eauto].
    + by destruct (Hh _ _ H2).
    + by destruct (Hh _ _ H1).
  - intros k1 t1 k2 t2 [[<- <-]|[? H1]]%lookup_insert_Some [[<- <-]|[? H2]]%lookup_insert_Some Ha1 Ha2 He;
      [done| | |eauto].
    + by destruct (Hna _ _ H2).
    + by destruct (Hna _ _ H1).
Qed.

(** The steps of a database keep it well formed, keep its history and stay
    within their tenant. *)
Lemma cchange_kept o now db db' : cchange o now db db' → kept db db' ∧ kept_apart o db db'.
Proof.
  intros Hs.
  assert (Hed : ∀ k c c', ct_clusters db !! k = Some c → k_org c = o → clu_kept c c' →
            kept db (put_clu k c' db) ∧ kept_apart o db (put_clu k c' db)).
  { intros k c c' Hk Ho Hc. split; [by eapply kept_put_clu|]. apply apart_put_clu.
    - intros x Hx. by simplify_eq.
    - by rewrite (ck_org _ _ Hc). }
  assert (Het : ∀ k t t', ct_tokens db !! k = Some t → tk_org t = o → tok_kept t t' →
            kept db (put_tok k t' db) ∧ kept_apart o db (put_tok k t' db)).
  { intros k t t' Hk Ho Hc. split; [by eapply kept_put_tok|]. apply apart_put_tok.
    - intros x Hx. by simplify_eq.
    - by rewrite (tkk_org _ _ Hc). }
  assert (Hlive : ∀ c, live c = true → k_status c ≠ ClusterDeleted).
  { intros c Hl. by apply negb_true_iff, String.eqb_neq in Hl. }
  destruct Hs as [row Ho Hv Hn|c Ho Hfr Hsl Hst Ha Hver|k c e Hk Ho Hl|k c Hk Ho Hl|k c Hk Ho Hst
    |k c at_ k8s nodes a Hk Ho Hl Ha|k h Ho Hfr Hc|t c Ho Hfr Hst Hub Hh Hna Hc Hco|k t Hk Ho Hst
    |k t c a k8s nodes p r at_ Hk Ho Hst Ha Hc Hco Hm].
  - split; [|split; simpl; try done; exists [row]; by rewrite Forall_singleton].
    split; simpl; try done; eauto; [intros; eexists; split; [done|]; reflexivity..|].
    by apply prefix_app_r.
  - split; [|apply apart_put_clu; [by rewrite Hfr|done]].
    split; simpl; try done; [|by intros j t Hj; exists t].
    intros j x Hj. exists x. rewrite lookup_insert_ne; [done|]. congruence.
  - eapply Hed; [done..|]. split; simpl; try done; lia.
  - eapply Hed; [done..|]. split; simpl; try done; lia.
  - eapply Hed; [done..|]. split; simpl; try done; try lia. rewrite Hst. by intros ?.
  - eapply Hed; [done..|]. split; simpl; try done; try lia. by intros ?%Hlive.
  - split; [|split; simpl; try done; [|exists []; by rewrite app_nil_r]].
    + split; simpl; try done; [by intros j c Hj; exists c|by intros j c Hj; exists c|].
      intros j x Hj. rewrite lookup_insert_ne; [done|]. congruence.
    + apply insert_apart; [by rewrite Hfr|done].
  - split; [|apply apart_put_tok; [by rewrite Hfr|done]].
    split; simpl; try done; [by intros j x Hj; exists x|].
    intros j x Hj. exists x. rewrite lookup_insert_ne; [done|]. congruence.
  - eapply Het; [done..|]. by split.
  - destruct (Het k t (tok_used a now t)) as [K1 K2]; [done..|by split|].
    assert (Hk2 : clu_kept c (clu_register a k8s nodes p r at_ now c)).
    { split; simpl; try done; try lia. intros Hd. unfold may_register in Hm.
      rewrite Hd in Hm. discriminate. }
    split.
    + etrans; [exact K1|]. by eapply (kept_put_clu (put_tok k _ db)).
    + etrans; [exact K2|]. apply apart_put_clu; simpl; [|done]. intros x Hx. by simplify_eq.
Qed.

Lemma cchange_wf o now db db' : cchange o now db db' → cwf db → cwf db'.
Proof.
  intros Hs W. pose proof (cw_status _ W) as Wst. pose proof (cw_connected _ W) as Wco.
  destruct Hs as [row Ho Hv Hn|c Ho Hfr Hsl Hst Ha Hver|k c e Hk Ho Hl|k c Hk Ho Hl|k c Hk Ho Hst
    |k c at_ k8s nodes a Hk Ho Hl Ha|k h Ho Hfr (c & Hc & Hco & Ha)
    |t c Ho Hfr Hst Hub Hh Hna Hc Hco|k t Hk Ho Hst
    |k t c a k8s nodes p r at_ Hk Ho Hst Ha Hc Hco Hm].
  - destruct W as [W1 W2 W3 W4 W5 W6 W7 W8 W9 W10 W11 (N1 & N2 & N3)]. split; try done.
    simpl. rewrite !fmap_app, !NoDup_app, Forall_app, Forall_singleton. simpl.
    split_and!; try done; try apply NoDup_singleton.
    + intros x (r & -> & Hr)%list_elem_of_fmap Hx%list_elem_of_singleton.
      destruct (Hn r Hr) as [_ Hne]. by apply Hne.
    + intros x (r & -> & Hr)%list_elem_of_fmap Hx%list_elem_of_singleton.
      destruct (Hn r Hr) as [Hne _]. by apply Hne.
  - subst o. by apply cwf_new_clu.
  - eapply cwf_put_clu; simpl; try done; [by eapply cw_clu_key|by eapply Wst|by eapply Wco].
  - eapply cwf_put_clu; simpl; try done; [by eapply cw_clu_key| |by intros [|]].
    do 3 right. left.
  - eapply cwf_put_clu; simpl; try done; [by eapply cw_clu_key| |].
    + do 2 right. left.
    + intros _. eapply Wco; [done|by left].
  - eapply cwf_put_clu; simpl; try done; [by eapply cw_clu_key|].
    right. left.
  - destruct W as [W1 W2 W3 W4 W5 W6 W7 W8 W9 W10 W11 W12]. split; try done. simpl.
    intros j x [[<- <-]|[? Hj]]%lookup_insert_Some; [|eauto]. exists c. by subst.
  - eapply cwf_new_tok; try done. by rewrite Hco.
  - by apply cwf_put_tok_revoked.
  - by apply cwf_register.
Qed.

Lemma cchanges_kept o now db db' : rtc (cchange o now) db db' → kept db db' ∧ kept_apart o db db'.
Proof.
  induction 1 as [db|db d2 db' [K1 K2]%cchange_kept _ [IH1 IH2]]; [done|].
  split; by etrans.
Qed.
Lemma cchanges_wf o now db db' : rtc (cchange o now) db db' → cwf db → cwf db'.
Proof. induction 1; eauto using cchange_wf. Qed.
