(* ===== verification/ClusterFacts.v ===== *)
(** * What the cluster service does

    Inversion lemmas of the operations of [ClusterStore], then for every
    method of [ClusterService] the exact database after a success; an error
    changes nothing.  Each success is a run of the machine of [ClusterSpec]. *)

From S2P Require Import Prelude Json GoTime AppErrors Tx Events Pagination Authz ClusterStore.
From S2P Require Import ClusterService ClusterSpec.
Open Scope Z_scope.
Open Scope tx_scope.
#[local] Opaque Sha256.Sum256.

Implicit Types s : Sess CDB COutside.

(** ** Stability *)
Lemma stable_enqueue_cluster ty o p opts :
  stable (W := COutside) (enqueue_cluster ty o p opts).
Proof. unfold enqueue_cluster. solve_stable. Qed.
Lemma stable_clu_Create c : stable (W := COutside) (clusterRepo_Create c).
Proof. unfold clusterRepo_Create. solve_stable. Qed.
Lemma stable_clu_Update c : stable (W := COutside) (clusterRepo_Update c).
Proof. unfold clusterRepo_Update. solve_stable. Qed.
Lemma stable_clu_Delete c : stable (W := COutside) (clusterRepo_Delete c).
Proof. unfold clusterRepo_Delete. solve_stable. Qed.
Lemma stable_clu_UpdateStatus c st : stable (W := COutside) (clusterRepo_UpdateStatus c st).
Proof. unfold clusterRepo_UpdateStatus. solve_stable. Qed.
Lemma stable_clu_UpdateHeartbeat c a k n :
  stable (W := COutside) (clusterRepo_UpdateHeartbeat c a k n).
Proof. unfold clusterRepo_UpdateHeartbeat. solve_stable. Qed.
Lemma stable_clu_RegisterAgent c a k n p r at_ :
  stable (W := COutside) (clusterRepo_RegisterAgent c a k n p r at_).
Proof. unfold clusterRepo_RegisterAgent. solve_stable. Qed.
Lemma stable_tok_Create t : stable (W := COutside) (tokenRepo_Create t).
Proof. unfold tokenRepo_Create. solve_stable. Qed.
Lemma stable_tok_MarkUsed t a : stable (W := COutside) (tokenRepo_MarkUsed t a).
Proof. unfold tokenRepo_MarkUsed. solve_stable. Qed.
Lemma stable_tok_Revoke t : stable (W := COutside) (tokenRepo_Revoke t).
Proof. unfold tokenRepo_Revoke. solve_stable. Qed.
Lemma stable_tok_GetActive c : stable (W := COutside) (tokenRepo_GetActiveByCluster c).
Proof. unfold tokenRepo_GetActiveByCluster. solve_stable. Qed.
Lemma stable_beat_Create h : stable (W := COutside) (heartbeatRepo_Create h).
Proof. unfold heartbeatRepo_Create. solve_stable. Qed.
Lemma stable_DeliverToken d : stable (DeliverToken d).
Proof. by intros s. Qed.
#[export] Hint Resolve stable_enqueue_cluster stable_clu_Create stable_clu_Update
  stable_clu_Delete stable_clu_UpdateStatus stable_clu_UpdateHeartbeat stable_clu_RegisterAgent
  stable_tok_Create stable_tok_MarkUsed stable_tok_Revoke stable_tok_GetActive stable_beat_Create
  stable_DeliverToken : stable.
Lemma stable_revoke_active c : stable (W := COutside) (revoke_active c).
Proof. unfold revoke_active. solve_stable. Qed.
#[export] Hint Resolve stable_revoke_active : stable.

(** ** Statements *)
Lemma clu_GetByID_Ok id s c s' :
  clusterRepo_GetByID id s = (Ok c, s') →
  ct_clusters (store s) !! id = Some c ∧ org s ≠ "" ∧ k_org c = org s ∧ live c = true ∧
  store s' = store s ∧ same_env s s'.
Proof.
  intros (Hq & ? & ?)%QueryOne_Ok. destruct (row_at _ _ _ _) as [x|] eqn:Hr; [|done].
  destruct (live x) eqn:Hn; simplify_eq. apply row_at_Some in Hr as (?&?&?). auto 10.
Qed.

(** An UPDATE of one cluster. *)
Definition clu_updated (id : string) (f : Z → Cluster → Cluster) s s' : Prop :=
  ∃ r, ct_clusters (store s) !! id = Some r ∧ org s ≠ "" ∧ k_org r = org s ∧
    store s' = put_clu id (f (clock s) r) (store s) ∧ same_env s s'.

Lemma update_cluster_inv id f o now db n db' :
  update_cluster id f o now db = inr (n, db') →
  match row_at k_org o id (ct_clusters db) with
  | Some r => n = 1%nat ∧ db' = put_clu id (f now r) db
  | None => n = 0%nat ∧ db' = db
  end.
Proof. unfold update_cluster. destruct (row_at _ _ _ _); by intros [= <- <-]. Qed.

Lemma clu_update_Ok id f e s u s' :
  (let* n := Exec (update_cluster id f) in require_rows n e) s = (Ok u, s') → clu_updated id f s s'.
Proof.
  intros (n & Hn & Hf%update_cluster_inv & He)%Exec_hit_Ok.
  destruct (row_at _ _ _ _) as [r|] eqn:Hr; destruct Hf as [? Hst]; [|done].
  apply row_at_Some in Hr as (?&?&?). exists r. auto 10.
Qed.
Lemma clu_Delete_Ok id s u s' :
  clusterRepo_Delete id s = (Ok u, s') → clu_updated id (clu_with_status ClusterDeleted) s s'.
Proof. apply clu_update_Ok. Qed.
Lemma clu_UpdateStatus_Ok id st s u s' :
  clusterRepo_UpdateStatus id st s = (Ok u, s') → clu_updated id (clu_with_status st) s s'.
Proof. apply clu_update_Ok. Qed.
Lemma clu_UpdateHeartbeat_Ok id at_ k8s n s u s' :
  clusterRepo_UpdateHeartbeat id at_ k8s n s = (Ok u, s') →
  clu_updated id (clu_beat at_ k8s n) s s'.
Proof. apply clu_update_Ok. Qed.
Lemma clu_RegisterAgent_Ok id a k8s n p r at_ s u s' :
  clusterRepo_RegisterAgent id a k8s n p r at_ s = (Ok u, s') →
  clu_updated id (clu_register a k8s n p r at_) s s'.
Proof. apply clu_update_Ok. Qed.

(** The struct after an UPDATE: its version is bumped. *)
Definition bumped (c : Cluster) : Cluster :=
  mkClu (k_id c) (k_created c) (k_updated c) (k_version c + 1) (k_org c) (k_name c)
    (k_slug c) (k_desc c) (k_status c) (k_k8s c) (k_nodes c) (k_provider c) (k_region c)
    (k_agent c) (k_registered c) (k_heartbeat c) (k_labels c) (k_created_by c).

Lemma clu_Update_Ok c s c' s' :
  clusterRepo_Update c s = (Ok c', s') →
  c' = bumped c ∧ ∃ r, ct_clusters (store s) !! k_id c = Some r ∧ k_org r = org s ∧
    k_version r = k_version c ∧ store s' = put_clu (k_id c) (clu_edit c (clock s) r) (store s) ∧
    same_env s s'.
Proof.
  unfold clusterRepo_Update. intros H. inv_bind. inv_bind. apply Exec_Ok in Hm as [Hf He].
  apply require_rows_Ok in Hm0 as [Hn ->]. injection H as <- <-. split; [done|].
  unfold update_cluster_versioned in Hf. destruct (row_at _ _ _ _) as [r|] eqn:Hr; [|by simplify_eq].
  destruct (Z.eqb_spec (k_version r) (k_version c)); [|by simplify_eq].
  apply update_cluster_inv in Hf. rewrite Hr in Hf. destruct Hf as [_ Hst].
  apply row_at_Some in Hr as (?&?&?). exists r. auto 10.
Qed.

(** What INSERT returns for a cluster without an agent. *)
Definition stamp_clu (id : string) (now : Z) (c : Cluster) : Cluster :=
  mkClu id now now 1 (k_org c) (k_name c) (k_slug c) (k_desc c) (k_status c) None None
    (k_provider c) (k_region c) None None None (k_labels c) (k_created_by c).

Definition plain_clu (c : Cluster) : Prop :=
  k_id c = "" ∧ k_status c = ClusterPending ∧ k_k8s c = None ∧ k_nodes c = None ∧
  k_agent c = None ∧ k_registered c = None ∧ k_heartbeat c = None ∧ is_Some (k_labels c).

Lemma clu_Create_Ok c s c' s' :
  plain_clu c → clusterRepo_Create c s = (Ok c', s') →
  ∃ id, c' = stamp_clu id (clock s) c ∧ ct_clusters (store s) !! id = None ∧
    slug_unused (k_org c) (k_slug c) (store s) ∧ org s ≠ "" ∧ k_org c = org s ∧
    store s' = put_clu id c' (store s) ∧ same_env s s'.
Proof.
  intros (Hid & Hst & H1 & H2 & H3 & H4 & H5 & [j Hj]).
  unfold clusterRepo_Create. rewrite Hst, Hj. simpl. intros H. inv_bind.
  apply create_id_Ok in Hm as (Hs & He & _ & _).
  apply on_err_Ok, stmt_Ok_inv in H as (Hf & _ & _ & _ & He').
  destruct He as (Ho & Hg & Hc). rewrite Hs, Ho, Hc in Hf.
  unfold insert_cluster in Hf. simpl in Hf.
  destruct (visible _ _) eqn:Hv; simpl in Hf; [|done]. apply visible_spec in Hv as [??].
  case_bool_decide as Hfr; simpl in Hf; [done|].
  destruct (existsb _ _) eqn:Hex; simpl in Hf; [done|].
  case_bool_decide; simpl in Hf; [|done]. injection Hf as Hc' Hst'.
  exists x. rewrite H1, H2, H3, H4, H5 in *. split_and!; try done.
  - rewrite <- Hc'. unfold stamp_clu. by rewrite Hst, Hj.
  - by apply eq_None_not_Some.
  - intros k b Hb [Hbo Hsl]. apply not_true_iff_false in Hex. apply Hex.
    apply existsb_exists. exists b. rewrite <- list_elem_of_In, elem_of_rows_where.
    split; [split; [done|by eexists]|]. by rewrite Hbo, Hsl, !String.eqb_refl.
  - rewrite <- Hst', <- Hc'. done.
  - unfold same_env in *. destruct He' as (?&?&?). split_and!; congruence.
Qed.

(** An UPDATE of an active token. *)
Definition tok_updated (id : string) (f : Z → RegistrationToken → RegistrationToken) s s' : Prop :=
  ∃ t, ct_tokens (store s) !! id = Some t ∧ org s ≠ "" ∧ tk_org t = org s ∧
    tk_status t = TokenStatusActive ∧
    store s' = put_tok id (f (clock s) t) (store s) ∧ same_env s s'.

Lemma tok_update_Ok id f e s u s' :
  (let* n := Exec (update_active_token id f) in require_rows n e) s = (Ok u, s') →
  tok_updated id f s s'.
Proof.
  intros (n & Hn & Hf & He)%Exec_hit_Ok. unfold update_active_token in Hf.
  destruct (row_at _ _ _ _) as [t|] eqn:Hr; [|by simplify_eq].
  destruct (String.eqb_spec (tk_status t) TokenStatusActive); [|by simplify_eq].
  injection Hf as <- Hst. apply row_at_Some in Hr as (?&?&?). exists t. auto 10.
Qed.
Lemma tok_MarkUsed_Ok id a s u s' :
  tokenRepo_MarkUsed id a s = (Ok u, s') → tok_updated id (tok_used a) s s'.
Proof. apply tok_update_Ok. Qed.
Lemma tok_Revoke_Ok id s u s' :
  tokenRepo_Revoke id s = (Ok u, s') → tok_updated id tok_revoked s s'.
Proof. apply tok_update_Ok. Qed.

(** A token that cannot be revoked is no active token of the tenant, or the
    transaction is broken. *)
Lemma tok_Revoke_Err id s e s' :
  tokenRepo_Revoke id s = (Err e, s') →
  same_env s s' ∧ (aborted s' = true ∨
   store s' = store s ∧ ∀ t, ct_tokens (store s) !! id = Some t → org s ≠ "" →
     tk_org t = org s → tk_status t ≠ TokenStatusActive).
Proof.
  intros H. pose proof (stable_tok_Revoke id s) as He. rewrite H in He. split; [exact He|].
  unfold tokenRepo_Revoke in H. apply bind_Err_inv in H as [H|(n & s1 & Hm & H)].
  { left. by eapply on_err_stmt_Err. }
  apply Exec_Ok in Hm as [Hf _]. unfold require_rows in H.
  destruct (Nat.eqb_spec n 0); [|done]. injection H as _ <-. right. unfold update_active_token in Hf.
  destruct (row_at _ _ _ _) as [t|] eqn:Hr.
  - destruct (String.eqb_spec (tk_status t) TokenStatusActive); [by simplify_eq|].
    injection Hf as _ <-. split; [done|]. intros t' Ht' _ _. apply row_at_Some in Hr as (?&?&?).
    by simplify_eq.
  - injection Hf as _ <-. split; [done|]. intros t Ht ??.
    assert (row_at tk_org (org s) id (ct_tokens (store s)) = Some t) by by apply row_at_Some.
    congruence.
Qed.

(** What INSERT returns for an active token. *)
Definition stamp_tok (id : string) (now : Z) (t : RegistrationToken) : RegistrationToken :=
  mkTok id now now 1 (tk_org t) (tk_cluster t) (tk_hash t) (tk_status t) (tk_expires t) None None
    (tk_created_by t).

Definition plain_tok (t : RegistrationToken) : Prop :=
  tk_id t = "" ∧ tk_status t = TokenStatusActive ∧ tk_used_at t = None ∧ tk_used_by t = None.

Lemma tok_Create_Ok t s t' s' :
  plain_tok t → tokenRepo_Create t s = (Ok t', s') →
  ∃ id, t' = stamp_tok id (clock s) t ∧ ct_tokens (store s) !! id = None ∧
    hash_unused (tk_hash t) (store s) ∧ no_active (tk_cluster t) (store s) ∧
    org s ≠ "" ∧ tk_org t = org s ∧ is_Some (ct_clusters (store s) !! tk_cluster t) ∧
    store s' = put_tok id t' (store s) ∧ same_env s s'.
Proof.
  intros (Hid & Hst & H1 & H2). unfold tokenRepo_Create. rewrite Hst. simpl. intros H. inv_bind.
  apply create_id_Ok in Hm as (Hs & He & _ & _).
  apply on_err_Ok, stmt_Ok_inv in H as (Hf & _ & _ & _ & He').
  destruct He as (Ho & Hg & Hc). rewrite Hs, Ho, Hc in Hf.
  unfold insert_token in Hf. simpl in Hf.
  destruct (visible _ _) eqn:Hv; simpl in Hf; [|done]. apply visible_spec in Hv as [??].
  case_bool_decide as Hfr; simpl in Hf; [done|].
  destruct (existsb _ _) eqn:Hex; simpl in Hf; [done|].
  case_bool_decide; simpl in Hf; [|done]. case_bool_decide; simpl in Hf; [|done].
  injection Hf as Hc' Hst'. rewrite H1, H2 in *.
  assert (Hno : ∀ k b, ct_tokens (store s) !! k = Some b →
     tk_hash b ≠ tk_hash t ∧ ¬ (tk_cluster b = tk_cluster t ∧ tk_status b = TokenStatusActive)).
  { intros k b Hb. apply not_true_iff_false in Hex.
    split; [intros Hh|intros [Hbc Hbs]]; apply Hex, existsb_exists; exists b;
      rewrite <- list_elem_of_In, elem_of_rows_where; (split; [split; [done|by eexists]|]).
    - by rewrite Hh, String.eqb_refl.
    - rewrite Hbc, Hbs, !String.eqb_refl. apply orb_true_r. }
  exists x. split_and!; try done.
  - rewrite <- Hc'. unfold stamp_tok. by rewrite Hst.
  - by apply eq_None_not_Some.
  - intros k b Hb. by apply (Hno k b).
  - intros k b Hb. by apply (Hno k b).
  - rewrite <- Hst', <- Hc'. done.
  - unfold same_env in *. destruct He' as (?&?&?). split_and!; congruence.
Qed.

(** The active token of a cluster, if any, is revoked. *)
Definition revoked (cluster o : string) (now : Z) (db db' : CDB) : Prop :=
  (db' = db ∧ ∀ k t, ct_tokens db !! k = Some t →
     ¬ (tk_org t = o ∧ tk_cluster t = cluster ∧ tk_status t = TokenStatusActive)) ∨
  ∃ k t, ct_tokens db !! k = Some t ∧ tk_id t = k ∧ tk_org t = o ∧ tk_cluster t = cluster ∧
    tk_status t = TokenStatusActive ∧ db' = put_tok k (tok_revoked now t) db.

Lemma revoke_active_inv cluster s r s' :
  revoke_active cluster s = (r, s') → org s ≠ "" → cwf (store s) →
  same_env s s' ∧ (aborted s' = false → r = Ok tt ∧ revoked cluster (org s) (clock s) (store s) (store s')).
Proof.
  intros H Ho W. pose proof (stable_revoke_active cluster s) as He. rewrite H in He.
  split; [exact He|]. intros Hab. unfold revoke_active, bind, try in H.
  destruct (tokenRepo_GetActiveByCluster cluster s) as [r0 s0] eqn:Hq.
  apply QueryOne_inv in Hq as (Hst0 & (Ho0 & Hg0 & Hc0) & Hr0).
  destruct r0 as [t|e].
  - assert (Ht : t ∈ [t]) by left. rewrite <- Hr0 in Ht. apply elem_of_rows_where in Ht as [Hp (k & Hk)].
    apply andb_true_iff in Hp as [[Hv Hcl]%andb_true_iff Hs].
    apply visible_spec in Hv as [_ Hv]. apply String.eqb_eq in Hcl, Hs.
    assert (Hidk : tk_id t = k) by (eapply cw_tok_key; eauto).
    destruct (tokenRepo_Revoke (tk_id t) s0) as [r1 s1] eqn:Hrev.
    destruct r1 as [u|e].
    + injection H as <- <-. split; [done|]. right.
      apply tok_Revoke_Ok in Hrev as (t' & Ht' & _ & _ & _ & Hst1 & _).
      rewrite Hst0, Hidk in Ht'. assert (t' = t) as -> by congruence. exists k, t.
      split_and!; try done. by rewrite Hst1, Hst0, Hc0, Hidk.
    + injection H as <- <-. apply tok_Revoke_Err in Hrev as [_ [Hb|[_ Hn]]]; [congruence|].
      exfalso. apply (Hn t); [by rewrite Hst0, Hidk|by rewrite Ho0|by rewrite Ho0|done].
  - injection H as <- <-. split; [done|]. left. split; [done|].
    destruct Hr0 as [Hb|[[Hn _]|[Hlen _]]]; [congruence| |].
    + intros k t Hk (Hto & Hcl & Hs).
      assert (Hin : t ∈ @nil RegistrationToken); [|by apply elem_of_nil in Hin].
      rewrite <- Hn. apply elem_of_rows_where. split; [|by exists k].
      rewrite (proj2 (visible_spec (org s) (tk_org t))), Hcl, Hs, !String.eqb_refl by done. done.
    + exfalso. eapply (Nat.lt_irrefl 1), Nat.lt_le_trans; [exact Hlen|].
      apply rows_where_unique.
      intros k1 t1 k2 t2 K1 K2 P1 P2. bool_to_prop. eapply cw_active; eauto; congruence.
Qed.

(** ** Events and authorization *)

(** One event is appended. *)
Definition emitted (ty o : string) (p : cluster_payload) (opts : list (@Option_ cluster_payload))
    (now : Z) (db db' : CDB) : Prop :=
  ∃ row_id eid, let row := new_row clusterEventVersion row_id eid now ty o p opts in
    Validate (ob_event row) = None ∧ new_in row db ∧ db' = append_row row db.

Lemma enqueue_cluster_Ok ty o p opts s u s' :
  enqueue_cluster ty o p opts s = (Ok u, s') →
  emitted ty o p opts (clock s) (store s) (store s') ∧ same_env s s'.
Proof.
  intros (row_id & eid & ? & ? & ? & ?)%New_Enqueue_Ok. split; [|done]. by exists row_id, eid.
Qed.

Lemma emitted_step ty o p opts now db db' :
  neutral opts → emitted ty o p opts now db db' → rtc (cchange o now) db db'.
Proof.
  intros Hn (row_id & eid & Hv & Hnew & ->). apply rtc_once, cc_event; [|done|done].
  unfold new_row. simpl. by destruct (Hn (mkEnvelope eid ty clusterEventVersion o "" "" now no_actor
    no_resource (Some p))) as (_ & _ & _ & ->).
Qed.

Lemma emitted_tables ty o p opts now db db' :
  emitted ty o p opts now db db' →
  ct_clusters db' = ct_clusters db ∧ ct_tokens db' = ct_tokens db ∧ ct_beats db' = ct_beats db.
Proof. by intros (row_id & eid & _ & _ & ->). Qed.

(** The organization roles that may manage clusters. *)
Lemma grants_clusters role :
  grants (pol_org NewPolicyAuthorizer) role ActionManageClusters = true ↔
  role = OrgOwner ∨ role = OrgAdmin.
Proof.
  unfold grants, NewPolicyAuthorizer; simpl. rewrite bool_decide_eq_true.
  destruct (decide (role = OrgOwner)) as [->|H1]; [vm_compute; tauto|].
  destruct (decide (role = OrgAdmin)) as [->|H2]; [vm_compute; tauto|].
  destruct (decide (role = RoleMember)) as [->|H3]; [vm_compute; intuition discriminate|].
  destruct (decide (role = OrgAuditor)) as [->|H4]; [vm_compute; intuition discriminate|].
  rewrite !lookup_insert_ne, lookup_empty by congruence. simpl. set_solver.
Qed.

Definition may_manage (o user : string) : CDB → Prop :=
  active_member o user (λ role, role = OrgOwner ∨ role = OrgAdmin).

Lemma authorize_clusters_probe o user :
  probe (W := COutside) (may_manage o user) (authorize_clusters o user).
Proof.
  intros s r s' (? & ? & Ha)%AuthorizeOrgMember_inv. split_and!; [done..|].
  intros (? & ? & Hm)%Ha. eapply active_member_impl, Hm. by intros role ?%grants_clusters.
Qed.

Lemma runs_manage {A} o user (P : CDB → Prop) (fn m : CM A) :
  runs o P fn m →
  runs o (λ db, may_manage o user db ∧ P db) fn (let* _ := authorize_clusters o user in m).
Proof. apply runs_probe, authorize_clusters_probe. Qed.

(** ** Clusters *)
Definition requested_cluster (o user : string) (req : CreateClusterRequest) : Cluster :=
  mkClu "" 0 0 0 o (GoStrings.TrimSpace (cc_name req))
    (GoStrings.ToLower (GoStrings.TrimSpace (cc_slug req))) (GoStrings.TrimSpace <$> cc_desc req)
    ClusterPending None None (cc_provider req) (cc_region req) None None None
    (marshalLabels (cc_labels req)) (Some user).

Lemma requested_cluster_plain o user req : plain_clu (requested_cluster o user req).
Proof. unfold plain_clu. simpl. split_and!; try done. by destruct (cc_labels req); eexists. Qed.

Lemma CreateCluster_ensures o user req :
  ensures (W := COutside) o
    (λ db, may_manage o user db ∧
       validateName (k_name (requested_cluster o user req)) = None ∧
       slugPattern (k_slug (requested_cluster o user req)) = true)
    (λ now db c db', ∃ id, c = stamp_clu id now (requested_cluster o user req) ∧
       ct_clusters db !! id = None ∧ slug_unused o (k_slug c) db ∧
       emitted EventClusterCreated o
         (clusterCreatedPayload id (k_name c) (k_slug c) (default "" (k_provider c))
            (default "" (k_region c)) user) (by_user user "cluster" id) now
         (put_clu id c db) db')
    (Service_CreateCluster o user req).
Proof.
  eapply runs_ensures.
  - eapply runs_weaken; [unfold Service_CreateCluster; cbv zeta;
      apply runs_manage, runs_check, runs_guard, runs_WithTenant; solve_stable|].
    intros db (? & ? & ?%negb_false_iff & _). done.
  - intros s c s' Ho Hos Hab H. inv_bind. inv_bind. injection H as <- <-.
    apply on_err_Ok, clu_Create_Ok in Hm as (id & -> & Hfr & Hsl & _ & _ & Hst & He);
      [|apply requested_cluster_plain].
    apply enqueue_cluster_Ok in Hm0 as [Hem _]. rewrite Hst in Hem.
    destruct He as (_ & _ & Hc). rewrite Hc in Hem. eauto 10.
Qed.

Definition edited_cluster (req : UpdateClusterRequest) (c : Cluster) : Cluster :=
  with_name_desc_labels
    (match uc_name req with Some n => GoStrings.TrimSpace n | None => k_name c end)
    (match uc_desc req with Some d => Some (GoStrings.TrimSpace d) | None => k_desc c end)
    (match uc_labels req with Some m => marshalLabels (Some m) | None => k_labels c end) c.

Definition name_ok (req : UpdateClusterRequest) : Prop :=
  ∀ n, uc_name req = Some n → validateName (GoStrings.TrimSpace n) = None.

Lemma UpdateCluster_ensures o user cluster req :
  ensures (W := COutside) o (may_manage o user)
    (λ now db c db', name_ok req ∧ (cwf db → ∃ old, ct_clusters db !! cluster = Some old ∧
       k_org old = o ∧ live old = true ∧ c = bumped (edited_cluster req old) ∧
       db' = put_clu cluster (clu_edit (edited_cluster req old) now old) db))
    (Service_UpdateCluster o user cluster req).
Proof.
  eapply runs_ensures.
  - eapply runs_weaken; [apply runs_manage, runs_WithTenant; solve_stable|]. by intros db [? _].
  - intros s c s' Ho Hos Hab H. inv_bind.
    apply clu_GetByID_Ok in Hm as (Hk & _ & Hko & Hl & Hs0 & He0).
    destruct (String.eqb_spec (k_status x) ClusterDeleted); [done|]. inv_bind.
    apply clu_Update_Ok in H as (-> & r & Hr & Hro & _ & Hst & He1).
    assert (Hname : name_ok req ∧ s1 = s0 ∧
              x0 = match uc_name req with Some n => GoStrings.TrimSpace n | None => k_name x end).
    { unfold name_ok. destruct (uc_name req) as [nm|] eqn:Hun; [|by injection Hm as <- <-].
      unfold bind, check in Hm. destruct (validateName (GoStrings.TrimSpace nm)) eqn:Hv; [done|].
      injection Hm as <- <-. split_and!; [|done..]. intros m [= <-]. done. }
    destruct Hname as (Hname & -> & ->). split; [exact Hname|]. intros W. simpl in Hr, Hst.
    assert (Hid : k_id x = cluster) by (eapply cw_clu_key; eauto).
    rewrite Hs0, Hid in *. assert (r = x) as -> by congruence.
    exists x. split_and!; [done|congruence|done|done|].
    destruct He0 as (_ & _ & Hc0). rewrite Hst, Hc0. done.
Qed.

Lemma DeleteCluster_ensures o user cluster :
  ensures (W := COutside) o (may_manage o user)
    (λ now db _ db', ∃ old, ct_clusters db !! cluster = Some old ∧ k_org old = o ∧
       live old = true ∧
       emitted EventClusterDeleted o (clusterDeletedPayload cluster user)
         (by_user user "cluster" cluster) now
         (put_clu cluster (clu_with_status ClusterDeleted now old) db) db')
    (Service_DeleteCluster o user cluster).
Proof.
  eapply runs_ensures.
  - eapply runs_weaken; [apply runs_manage, runs_WithTenant; solve_stable|]. by intros db [? _].
  - intros s c s' Ho Hos Hab H. inv_bind.
    apply clu_GetByID_Ok in Hm as (Hk & _ & Hko & Hl & Hs0 & (Ho0 & _ & Hc0)).
    destruct (String.eqb_spec (k_status x) ClusterDeleted) as [Hd|];
      [by unfold live in Hl; rewrite Hd in Hl|]. inv_bind.
    apply clu_Delete_Ok in Hm as (r & Hr & _ & Hro & Hst & (_ & _ & Hc1)).
    apply enqueue_cluster_Ok in H as [Hem _]. rewrite Hs0 in *.
    assert (r = x) as -> by congruence. exists x. split_and!; [done|congruence|done|].
    by rewrite Hst, Hc1, Hc0 in Hem.
Qed.

(** ** Tokens *)
Definition requested_token (o user cluster : string) (now ttl : Z) (plain : string)
    : RegistrationToken :=
  mkTok "" 0 0 0 o cluster (hashToken plain) TokenStatusActive (now + ttl) None None (Some user).

(** The outcome of a successful [GenerateRegistrationToken]. *)
Definition token_generated (o user cluster : string) (ttl : Z) (plain : string)
    (now : Z) (db : CDB) (r : TokenWithSecret) (db' : CDB) : Prop :=
  ∃ c id ref db1, let t := stamp_tok id now (requested_token o user cluster now ttl plain) in
    ct_clusters db !! cluster = Some c ∧ k_org c = o ∧ may_register c = true ∧
    revoked cluster o now db db1 ∧ no_active cluster db1 ∧ hash_unused (hashToken plain) db1 ∧
    ct_tokens db1 !! id = None ∧ r = mkSecretTok (toTokenView t) plain ∧
    emitted EventRegistrationTokenCreated o (tokenCreatedPayload cluster id (now + ttl) ref)
      (by_user user "cluster_registration_token" id) now (put_tok id t db1) db'.

Lemma looks_lift {A} (r : result goerr A) : looks (λ _ _ a, r = Ok a) (lift_result r).
Proof.
  intros s x s'. destruct r as [a|e]; intros [= <- <-]; (split_and!; [done..|]); by intros a' [= <-].
Qed.

(** The transaction of [GenerateRegistrationToken]. *)
Lemma generate_body o user cluster ttl plain ref now :
  ensures (W := COutside) o (λ _, True)
    (λ n db r db', cwf db → n = now → token_generated o user cluster ttl plain n db r db')
    (WithTenant o (
      let* c := clusterRepo_GetByID cluster in
      if negb (may_register c) then fail errClusterNotPending
      else
        revoke_active cluster ;;
        let* t := tokenRepo_Create (requested_token o user cluster now ttl plain) in
        DeliverToken (mkDelivery cluster plain ref) ;;
        enqueue_cluster EventRegistrationTokenCreated o
          (tokenCreatedPayload cluster (tk_id t) (tk_expires t) ref)
          (by_user user "cluster_registration_token" (tk_id t)) ;;
        ret (mkSecretTok (toTokenView t) plain))).
Proof.
  eapply runs_ensures; [apply runs_WithTenant; solve_stable|].
  intros s r s' Ho Hos Hab H W Hn. inv_bind.
  apply clu_GetByID_Ok in Hm as (Hk & _ & Hko & Hl & Hs0 & (Ho0 & _ & Hc0)).
  destruct (may_register x) eqn:Hmr; simpl in H; [|done]. repeat inv_bind.
  injection H as <- <-. injection Hm1 as <- <-.
  destruct (revoke_active_inv _ _ _ _ Hm) as [(Ho1 & _ & Hc1) Hrev]; [by rewrite Ho0, Hos|by rewrite Hs0|].
  assert (Hnb : aborted s1 = false).
  { unfold tokenRepo_Create, bind in Hm0. simpl in Hm0. destruct (aborted s1) eqn:Ha; [|done].
    by apply on_err_stmt_aborted in Hm0. }
  destruct (Hrev Hnb) as [_ Hr]. rewrite Ho0, Hos, Hc0, Hs0 in Hr.
  apply tok_Create_Ok in Hm0 as (id & -> & Hfr & Hh & Hna & _ & _ & _ & Hst & (_ & _ & Hc2)); [|done].
  apply enqueue_cluster_Ok in Hm2 as [Hem _]. simpl in Hem. rewrite Hst, Hc2, Hc1, Hc0 in *.
  rewrite Hn in *. exists x, id, ref, (store s1). split_and!; try done. congruence.
Qed.

Lemma GenerateRegistrationToken_ensures rand o user cluster expiresIn :
  ensures (W := COutside) o (λ _, True)
    (λ now db r db', may_manage o user db ∧ ∃ ttl plain, token_ttl expiresIn = Ok ttl ∧
       generateRegistrationToken rand = Ok plain ∧
       (cwf db → token_generated o user cluster ttl plain now db r db'))
    (Service_GenerateRegistrationToken rand o user cluster expiresIn).
Proof.
  eapply ensures_post.
  - apply (ensures_bind _ _ (λ _ db _, may_manage o user db)); [apply looks_probe, authorize_clusters_probe|].
    intros role. apply ensures_bind; [apply looks_lift|]. intros ttl.
    apply ensures_bind; [apply looks_lift|]. intros plain.
    apply ensures_bind; [apply looks_uuid|]. intros ref.
    apply ensures_bind; [apply looks_now|]. intros now. apply generate_body.
  - simpl. intros now db r db' (? & Hm & ttl & Ht & plain & Hp & ref & _ & n & -> & Hq).
    split; [done|]. exists ttl, plain. eauto.
Qed.

Lemma RevokeRegistrationToken_ensures o user cluster token :
  ensures (W := COutside) o (may_manage o user)
    (λ now db _ db', ∃ t, ct_tokens db !! token = Some t ∧ tk_org t = o ∧
       tk_status t = TokenStatusActive ∧ db' = put_tok token (tok_revoked now t) db)
    (Service_RevokeRegistrationToken o user cluster token).
Proof.
  eapply runs_ensures.
  - eapply runs_weaken; [apply runs_manage, runs_WithTenant; solve_stable|]. by intros db [? _].
  - intros s u s' Ho Hos Hab (t & Ht & _ & Hto & Hts & Hst & _)%tok_Revoke_Ok. exists t.
    split_and!; [done|congruence|done|done].
Qed.

(** ** Agents *)

(** The outcome of a fresh registration. *)
Definition registered (req : AgentRegisterRequest) (token : RegistrationToken)
    (now : Z) (db : CDB) (r : Cluster) (db' : CDB) : Prop :=
  ∃ c t, let provider := nonempty (ar_provider req) in let region := nonempty (ar_region req) in
    ct_clusters db !! tk_cluster token = Some c ∧ k_org c = tk_org token ∧ may_register c = true ∧
    ct_tokens db !! tk_id token = Some t ∧ tk_org t = tk_org token ∧
    tk_status t = TokenStatusActive ∧ r = registered_view req provider region now c ∧
    emitted EventClusterRegistered (tk_org token)
      (clusterRegisteredPayload (tk_cluster token) (ar_agent req) (ar_k8s req) (ar_nodes req)
         (ar_provider req) (ar_region req))
      (by_cluster_agent (ar_agent req) (tk_cluster token)) now
      (put_clu (tk_cluster token)
         (clu_register (ar_agent req) (ar_k8s req) (ar_nodes req) provider region now now c)
         (put_tok (tk_id token) (tok_used (ar_agent req) now t) db)) db'.

Lemma register_fresh_ensures req token now :
  ensures (W := COutside) (tk_org token) (λ _, True)
    (λ n db c db', cwf db → n = now → registered req token now db c db')
    (WithTenant (tk_org token) (register_fresh req token now)).
Proof.
  eapply runs_ensures; [apply runs_WithTenant; unfold register_fresh; solve_stable|].
  intros s c s' Ho Hos Hab H W Hn. unfold register_fresh in H. inv_bind.
  apply clu_GetByID_Ok in Hm as (Hk & _ & Hko & Hl & Hs0 & (Ho0 & _ & Hc0)).
  destruct (may_register x) eqn:Hmr; simpl in H; [|done]. repeat inv_bind. injection H as <- <-.
  assert (Hid : k_id x = tk_cluster token) by (eapply cw_clu_key; eauto).
  apply tok_MarkUsed_Ok in Hm as (t & Ht & _ & Hto & Hts & Hst1 & (Ho1 & _ & Hc1)).
  apply clu_RegisterAgent_Ok in Hm0 as (r & Hr & _ & _ & Hst2 & (_ & _ & Hc2)).
  apply enqueue_cluster_Ok in Hm1 as [Hem _].
  rewrite Hid, Hs0 in *. rewrite Hst1 in Hr. simpl in Hr.
  assert (r = x) as -> by congruence.
  assert (Hclk : clock s0 = now ∧ clock s1 = now ∧ clock s2 = now) by (split_and!; congruence).
  destruct Hclk as (C0 & C1 & C2).
  exists x, t. split_and!; try done; [congruence..|]. by rewrite Hst2, Hst1, C0, C1, C2 in Hem.
Qed.

(** Recovery returns the cluster of the token and at most records the fact. *)
Definition recovered (token : RegistrationToken) (requested source : string)
    (now : Z) (db : CDB) (c : Cluster) (db' : CDB) : Prop :=
  ct_clusters db !! tk_cluster token = Some c ∧ live c = true ∧
  ∃ a, a ≠ "" ∧ a = (if String.eqb (default "" (k_agent c)) "" then default "" (tk_used_by token)
                     else default "" (k_agent c)) ∧
    (db' = db ∨
     emitted EventClusterRecovered (k_org c) (clusterRecoveredPayload (k_id c) a requested source)
       (by_cluster_agent a (k_id c)) now db db').

Lemma enqueue_cluster_WithTenant ty o p opts s r s' :
  WithTenant o (enqueue_cluster ty o p opts) s = (r, s') → 
  same_env s s' ∧ (store s' = store s ∨ o ≠ "" ∧ emitted ty o p opts (clock s) (store s) (store s')).
Proof.
  intros H. pose proof (runs_WithTenant o _ (stable_enqueue_cluster ty o p opts) s r s' H) as [He Hr].
  split; [exact He|]. destruct r as [u|e]; [|by left].
  destruct Hr as (_ & Ho & s0 & s1 & H0 & _ & Hc & _ & _ & [Hem _]%enqueue_cluster_Ok & _ & ->).
  right. rewrite <- H0, <- Hc. done.
Qed.

Lemma recoverRegisteredCluster_inv b token requested source s r s' :
  recoverRegisteredCluster b token requested source s = (r, s') →
  same_env s s' ∧
  match r with
  | Err _ => store s' = store s
  | Ok c => recovered token requested source (clock s) (store s) c (store s')
  end.
Proof.
  unfold recoverRegisteredCluster. intros H. unfold bind at 1 in H. unfold on_err in H.
  destruct (clusterRepo_GetByIDWithoutTenant b (tk_cluster token) s) as [r0 s0] eqn:Hq.
  apply autocommit_QueryOne_inv in Hq as (Hs0 & He0 & _ & Hr0).
  destruct r0 as [c|e]; simpl in H; [|by injection H as <- <-].
  specialize (Hr0 c eq_refl).
  destruct (ct_clusters (store s) !! tk_cluster token) as [x|] eqn:Hx; [|done].
  destruct (pool_sees _ _ _); simplify_eq.
  destruct (String.eqb_spec (k_status c) ClusterDeleted) as [|Hnd]; [by injection H as <- <-|].
  destruct (String.eqb_spec (if String.eqb (default "" (k_agent c)) "" then default "" (tk_used_by token)
                     else default "" (k_agent c)) "") as [|Ha]; [by injection H as <- <-|].
  unfold bind, try in H. destruct (WithTenant _ _ s0) as [r1 s1] eqn:Hw.
  apply enqueue_cluster_WithTenant in Hw as [He1 Hst]. injection H as <- <-.
  split; [by eapply same_env_trans|]. split; [done|].
  split; [by apply negb_true_iff, String.eqb_neq|]. eexists. split_and!; [exact Ha|done|].
  destruct He0 as (_ & _ & Hc0). rewrite Hs0, Hc0 in Hst. destruct Hst as [->|[_ ?]]; auto.
Qed.

Lemma lookup_token_inv b h s r s' :
  lookup_token b h s = (r, s') →
  store s' = store s ∧ same_env s s' ∧ aborted s' = aborted s ∧
  ∀ t, r = Ok t → ∃ k, ct_tokens (store s) !! k = Some t ∧ tk_hash t = h.
Proof.
  unfold lookup_token, on_err. destruct (tokenRepo_GetByHash b h s) as [r0 s0] eqn:Hq.
  intros [= <- <-]. apply autocommit_QueryOne_inv in Hq as (? & ? & ? & Hr). split_and!; [done..|].
  intros t Ht. destruct r0 as [t0|e]; simpl in Ht; [|done]. injection Ht as ->.
  specialize (Hr t eq_refl). assert (Hin : t ∈ [t]) by left. rewrite <- Hr in Hin.
  apply elem_of_rows_where in Hin as [[_ Hh]%andb_true_iff (k & Hk)]. exists k.
  by apply String.eqb_eq in Hh.
Qed.

(** The token a request presents. *)
Definition presented (plain : string) (token : RegistrationToken) (db : CDB) : Prop :=
  ∃ k, ct_tokens db !! k = Some token ∧ tk_hash token = hashToken plain.

Definition register_outcome (req : AgentRegisterRequest) (now : Z) (db : CDB) (c : Cluster)
    (db' : CDB) : Prop :=
  ar_agent req ≠ "" ∧ ∃ token, presented (ar_token req) token db ∧
    (tk_status token = TokenStatusUsed ∧ recovered token (ar_agent req) "register" now db c db' ∨
     tk_status token = TokenStatusActive ∧ now ≤ tk_expires token ∧
     registered req token now db c db').

Lemma RegisterAgent_inv b req s r s' :
  Service_RegisterAgent b req s = (r, s') → cwf (store s) →
  same_env s s' ∧
  match r with
  | Err _ => store s' = store s
  | Ok c => register_outcome req (clock s) (store s) c (store s')
  end.
Proof.
  unfold Service_RegisterAgent. intros H W.
  destruct (String.eqb (ar_token req) ""); [by injection H as <- <-|].
  destruct (String.eqb_spec (ar_agent req) "") as [|Ha]; [by injection H as <- <-|].
  unfold bind at 1, now_ in H. simpl in H.
  unfold bind in H. destruct (lookup_token b _ s) as [r0 s0] eqn:Hl.
  apply lookup_token_inv in Hl as (Hs0 & He0 & _ & Ht).
  destruct r0 as [token|e]; [|by injection H as <- <-].
  destruct (Ht token eq_refl) as (k & Hk & Hh).
  assert (Hp : presented (ar_token req) token (store s)) by by exists k.
  pose proof He0 as (_ & _ & Hc0).
  destruct (String.eqb_spec (tk_status token) TokenStatusRevoked); [by injection H as <- <-|].
  destruct (String.eqb_spec (tk_status token) TokenStatusUsed) as [Hu|Hnu].
  - apply recoverRegisteredCluster_inv in H as [He H]. split; [by eapply same_env_trans|].
    rewrite Hs0, Hc0 in H. destruct r as [c|e]; [|done]. split; [done|]. exists token. auto.
  - destruct (String.eqb_spec (tk_status token) TokenStatusExpired); [by injection H as <- <-|].
    destruct (Z.ltb_spec (tk_expires token) (clock s)); [by injection H as <- <-|].
    apply register_fresh_ensures in H as [He H]. split; [by eapply same_env_trans|].
    destruct r as [c|e]; [|congruence]. destruct H as (_ & _ & H). rewrite Hs0, Hc0 in H.
    specialize (H W eq_refl). split; [done|]. exists token. split; [done|]. right.
    destruct H as (x & t & Hrest). pose proof Hrest as (_ & _ & _ & Htk & _ & Hta & _).
    split; [|split; [done|by exists x, t]].
    assert (Hid : tk_id token = k) by (eapply cw_tok_key; eauto). rewrite Hid in Htk. congruence.
Qed.

Lemma RecoverCluster_inv b plain requested s r s' :
  Service_RecoverCluster b plain requested s = (r, s') →
  same_env s s' ∧
  match r with
  | Err _ => store s' = store s
  | Ok c => ∃ token, presented plain token (store s) ∧ tk_status token ≠ TokenStatusRevoked ∧
      tk_status token ≠ TokenStatusExpired ∧
      (tk_status token ≠ TokenStatusUsed → clock s ≤ tk_expires token) ∧
      recovered token requested "recover" (clock s) (store s) c (store s')
  end.
Proof.
  unfold Service_RecoverCluster. intros H.
  destruct (String.eqb plain ""); [by injection H as <- <-|].
  unfold bind at 1 in H. destruct (lookup_token b _ s) as [r0 s0] eqn:Hl.
  apply lookup_token_inv in Hl as (Hs0 & He0 & _ & Ht).
  destruct r0 as [token|e]; [|by injection H as <- <-].
  destruct (Ht token eq_refl) as (k & Hk & Hh).
  assert (Hp : presented plain token (store s)) by by exists k.
  pose proof He0 as (_ & _ & Hc0).
  assert (Hrec : ∀ s1, s1 = s0 → recoverRegisteredCluster b token requested "recover" s1 = (r, s') →
     (tk_status token ≠ TokenStatusRevoked) → (tk_status token ≠ TokenStatusExpired) →
     (tk_status token ≠ TokenStatusUsed → clock s ≤ tk_expires token) → same_env s s' ∧
     match r with
     | Err _ => store s' = store s
     | Ok c => ∃ token, presented plain token (store s) ∧ tk_status token ≠ TokenStatusRevoked ∧
         tk_status token ≠ TokenStatusExpired ∧
         (tk_status token ≠ TokenStatusUsed → clock s ≤ tk_expires token) ∧
         recovered token requested "recover" (clock s) (store s) c (store s')
     end).
  { intros s1 -> [He Hr]%recoverRegisteredCluster_inv ???. split; [by eapply same_env_trans|].
    rewrite Hs0, Hc0 in Hr. destruct r as [c|e]; [|done]. exists token. auto. }
  destruct (String.eqb_spec (tk_status token) TokenStatusRevoked); [by injection H as <- <-|].
  destruct (String.eqb_spec (tk_status token) TokenStatusUsed) as [Hu|Hnu].
  - eapply Hrec; try done. by rewrite Hu.
  - destruct (String.eqb_spec (tk_status token) TokenStatusExpired); [by injection H as <- <-|].
    unfold bind, now_ in H.
    destruct (Z.ltb_spec (tk_expires token) (clock s0)); [by injection H as <- <-|].
    eapply Hrec; try done. intros _. lia.
Qed.

(** ** Heartbeats *)
Lemma beat_Create_Ok h s u s' :
  hb_id h = "" → heartbeatRepo_Create h s = (Ok u, s') →
  ∃ id, let h' := mkBeat id (hb_org h) (hb_cluster h) (hb_agent h) (hb_k8s h) (hb_nodes h)
                    (hb_healthy h) (hb_received h) in
    ct_beats (store s) !! id = None ∧ hb_org h = org s ∧ store s' = put_beat id h' (store s) ∧
    same_env s s'.
Proof.
  intros Hid. unfold heartbeatRepo_Create. intros H. repeat inv_bind. injection H as _ <-.
  apply create_id_Ok in Hm as (Hs & He & _ & _). apply Exec_Ok in Hm0 as [Hf He'].
  destruct He as (Ho & Hg & Hc). rewrite Hs, Ho, Hc in Hf. unfold insert_beat in Hf. simpl in Hf.
  destruct (visible _ _) eqn:Hv; simpl in Hf; [|done]. apply visible_spec in Hv as [??].
  case_bool_decide as Hfr; simpl in Hf; [done|].
  case_bool_decide; simpl in Hf; [|done]. case_bool_decide; simpl in Hf; [|done].
  injection Hf as _ Hst. exists x. split_and!; [by apply eq_None_not_Some|done|done|].
  unfold same_env in *. destruct He' as (?&?&?). split_and!; congruence.
Qed.

Lemma beat_Create_Err h s e s' : heartbeatRepo_Create h s = (Err e, s') → aborted s' = true.
Proof.
  unfold heartbeatRepo_Create. intros [H|(id & s1 & _ & H)]%bind_Err_inv.
  - by apply create_id_not_Err in H.
  - apply bind_Err_inv in H as [H|(n & s2 & _ & H)]; [by eapply on_err_stmt_Err|done].
Qed.

(** The outcome of a successful heartbeat: the history row is written. *)
Definition beat_recorded (o cluster : string) (req : AgentHeartbeatRequest) (now : Z)
    (db db' : CDB) : Prop :=
  ∃ c hid, ct_clusters db !! cluster = Some c ∧ k_org c = o ∧ live c = true ∧
    k_agent c = Some (ah_agent req) ∧ ct_beats db !! hid = None ∧
    emitted EventClusterHeartbeatReceived o
      (heartbeatReceivedPayload cluster (ah_agent req) (ah_k8s req) (ah_nodes req) (ah_healthy req))
      (by_cluster_agent (ah_agent req) cluster) now
      (put_clu cluster (clu_beat now (ah_k8s req) (ah_nodes req) now c)
         (put_beat hid (mkBeat hid o cluster (ah_agent req) (Some (ah_k8s req)) (Some (ah_nodes req))
                          (ah_healthy req) now) db)) db'.

Lemma RecordHeartbeat_ensures o cluster req :
  ensures (W := COutside) o (λ _, True)
    (λ now db _ db', ah_agent req ≠ "" ∧ beat_recorded o cluster req now db db')
    (Service_RecordHeartbeat o cluster req).
Proof.
  unfold Service_RecordHeartbeat.
  destruct (String.eqb_spec (ah_agent req) "") as [|Ha]; [by intros s r s' [= <- <-]|].
  eapply ensures_post;
    [eapply (ensures_bind _ _ _ (λ now n db _ db', n = now → beat_recorded o cluster req now db db'));
       [apply looks_now|intros now]
    |simpl; intros now db u db' (n & -> & H); split; [exact Ha|exact (H eq_refl)]].
  eapply runs_ensures; [apply runs_WithTenant; solve_stable|].
  intros s u s' Ho Hos Hab H Hn. inv_bind.
  apply clu_GetByID_Ok in Hm as (Hk & _ & Hko & Hl & Hs0 & (Ho0 & _ & Hc0)).
  destruct (k_agent x) as [a|] eqn:Hag; simpl in H; [|done].
  destruct (String.eqb_spec a (ah_agent req)) as [->|]; simpl in H; [|done]. repeat inv_bind.
  apply try_inv in Hm. destruct x0 as [v|e].
  - apply beat_Create_Ok in Hm as (hid & Hfr & _ & Hst1 & (_ & _ & Hc1)); [|done].
    apply clu_UpdateHeartbeat_Ok in Hm0 as (r & Hr & _ & _ & Hst2 & (_ & _ & Hc2)).
    apply enqueue_cluster_Ok in H as [Hem _]. rewrite Hs0 in *. rewrite Hst1 in Hr. simpl in Hr.
    assert (r = x) as -> by congruence. exists x, hid. split_and!; try done; [congruence|].
    assert (Hclk : clock s0 = now ∧ clock s1 = now ∧ clock s2 = now) by (split_and!; congruence).
    destruct Hclk as (C0 & C1 & C2). by rewrite Hst2, Hst1, C1, C2 in Hem.
  - apply beat_Create_Err in Hm. exfalso. unfold clusterRepo_UpdateHeartbeat in Hm0. inv_bind.
    by apply on_err_stmt_aborted in Hm1.
Qed.

(** ** Disconnection *)

Lemma frame_clu_UpdateStatus (R : Sess CDB COutside → Sess CDB COutside → Prop) `{!Framed R} id st :
  frame R (clusterRepo_UpdateStatus id st).
Proof. unfold clusterRepo_UpdateStatus, Exec, require_rows. solve_frame. Qed.
Lemma frame_enqueue_cluster (R : Sess CDB COutside → Sess CDB COutside → Prop) `{!Framed R} ty o p opts :
  frame R (enqueue_cluster ty o p opts).
Proof. unfold enqueue_cluster, events_New, PostgresOutbox_Enqueue. solve_frame. Qed.
Lemma frame_clu_List (R : Sess CDB COutside → Sess CDB COutside → Prop) `{!Framed R, !CursorJSON} req st :
  frame R (clusterRepo_List req st).
Proof. unfold clusterRepo_List, List_, QueryAll. solve_frame. Qed.

(** The sweep, for relations that do not look outside. *)
Lemma frame_mark_stale (R : Sess CDB COutside → Sess CDB COutside → Prop) `{!Framed R} o cutoff timeout items :
  (∀ f, frame R (set_count f)) → frame R (mark_stale o cutoff timeout items).
Proof.
  intros Hc. induction items as [|c items IH]; simpl; [by apply (frame_ret R)|].
  case_match; [|done]. case_match; [|done].
  apply (frame_bind R); [by apply (frame_try R), frame_clu_UpdateStatus|]. intros [u|e]; [|done].
  apply (frame_bind R); [by apply (frame_try R), frame_enqueue_cluster|]. intros _.
  by apply (frame_bind R).
Qed.
Lemma sticky_mark_stale o cutoff timeout items : frame stays_aborted (mark_stale o cutoff timeout items).
Proof. apply (frame_mark_stale stays_aborted). intros f s H. exact H. Qed.
Lemma quiet_mark_stale o cutoff timeout items : frame stays_quiet (mark_stale o cutoff timeout items).
Proof. apply (frame_mark_stale stays_quiet). intros f s H. exact H. Qed.

(** The clusters of a page whose heartbeat is older than [cutoff]. *)
Definition stale (cutoff : Z) (c : Cluster) : bool :=
  match k_heartbeat c with Some at_ => at_ <? cutoff | None => false end.

(** The clusters in [l] are marked one after the other, each with its event. *)
Inductive marked_stale (o : string) (timeout now : Z) : list Cluster → CDB → CDB → Prop :=
| ms_nil db : marked_stale o timeout now [] db db
| ms_cons c l at_ db db1 db' :
    k_heartbeat c = Some at_ → ct_clusters db !! k_id c = Some c → k_org c = o →
    k_status c = ClusterConnected →
    emitted EventClusterDisconnected o
      (clusterDisconnectedPayload (k_id c) at_ (GoTime.Duration_String timeout))
      [WithResource (mkResource "cluster" (k_id c))] now
      (put_clu (k_id c) (clu_with_status ClusterDisconnected now c) db) db1 →
    marked_stale o timeout now l db1 db' →
    marked_stale o timeout now (c :: l) db db'.

(** The connected clusters of a page, as they are stored. *)
Definition page_of (o : string) (items : list Cluster) (db : CDB) : Prop :=
  NoDup (k_id <$> items) ∧
  Forall (λ c, ct_clusters db !! k_id c = Some c ∧ k_org c = o ∧ k_status c = ClusterConnected) items.

Lemma page_of_mark o c items c' db db' :
  page_of o (c :: items) db → ct_clusters db' = ct_clusters (put_clu (k_id c) c' db) →
  page_of o items db'.
Proof.
  intros [[Hni Hnd]%NoDup_cons [_ Hrows]%Forall_cons] Ht. split; [done|].
  apply Forall_forall. intros x Hx. rewrite Forall_forall in Hrows.
  destruct (Hrows x Hx) as (? & ? & ?). split_and!; [|done..].
  rewrite Ht. simpl. rewrite lookup_insert_ne; [done|]. intros Heq. apply Hni. rewrite Heq.
  by apply list_elem_of_fmap_2.
Qed.

Lemma mark_stale_inv o cutoff timeout items s u s' :
  mark_stale o cutoff timeout items s = (Ok u, s') →
  proper_uuids s → org s = o → o ≠ "" → aborted s' = false → page_of o items (store s) →
  marked_stale o timeout (clock s) (filter (λ c, stale cutoff c = true) items) (store s) (store s') ∧
  counted (outside s') = (counted (outside s) + length (filter (λ c, stale cutoff c = true) items))%nat.
Proof.
  revert s. induction items as [|c items IH]; intros s H Hu Ho Hne Hab Hp; simpl in H.
  { injection H as <- <-. split; [constructor|]. simpl. lia. }
  assert (Hrow : ct_clusters (store s) !! k_id c = Some c ∧ k_org c = o ∧
                 k_status c = ClusterConnected) by by destruct Hp as [_ [? _]%Forall_cons].
  assert (Hp' : page_of o items (store s)).
  { destruct Hp as [[_ ?]%NoDup_cons [_ ?]%Forall_cons]. by split. }
  rewrite filter_cons. destruct (decide (stale cutoff c = true)) as [Hs|Hs]; unfold stale in Hs;
    (destruct (k_heartbeat c) as [at_|] eqn:Hh; [destruct (at_ <? cutoff)|]); try done;
    [|by apply IH..].
  destruct Hrow as (Hrow & Hro & Hst). inv_bind. apply try_inv in Hm. destruct x as [v|e].
  - pose proof (frame_clu_UpdateStatus same_outside (k_id c) ClusterDisconnected s) as Ko. rewrite Hm in Ko.
    apply clu_UpdateStatus_Ok in Hm as (r & Hr & _ & _ & Hst1 & He1).
    assert (r = c) as -> by congruence. inv_bind. apply try_inv in Hm.
    pose proof (frame_enqueue_cluster same_outside EventClusterDisconnected o
      (clusterDisconnectedPayload (k_id c) at_ (GoTime.Duration_String timeout))
      [WithResource (mkResource "cluster" (k_id c))] s0) as Ke. rewrite Hm in Ke.
    inv_bind. injection Hm0 as <- <-. simpl in Ko, Ke. destruct x as [v'|e].
    + apply enqueue_cluster_Ok in Hm as [Hem He2].
      destruct (emitted_tables _ _ _ _ _ _ _ Hem) as (Htab & _ & _).
      pose proof He1 as (O1 & _ & C1). pose proof He2 as (O2 & _ & C2).
      apply IH in H as [Hms ->]; [|by eapply proper_uuids_env, proper_uuids_env|simpl; congruence|done|done|].
      * split; [|simpl; rewrite Ke, Ko; lia]. simpl in Hms. rewrite C2, C1 in Hms.
        rewrite C1, Hst1 in Hem. by eapply ms_cons.
      * eapply page_of_mark; [exact Hp|]. simpl. by rewrite Htab, Hst1.
    + apply New_Enqueue_Err in Hm; [|by eapply proper_uuids_env|done..].
      match type of H with _ ?x = _ => pose proof (sticky_mark_stale o cutoff timeout items x Hm) as Hsk end.
      rewrite H in Hsk. simpl in Hsk. congruence.
  - exfalso. unfold clusterRepo_UpdateStatus in Hm. apply bind_Err_inv in Hm as [Hm|(k & s1 & Hm & Hq)].
    + apply on_err_stmt_Err in Hm.
      pose proof (sticky_mark_stale o cutoff timeout items s0 Hm) as Hsk. rewrite H in Hsk.
      simpl in Hsk. congruence.
    + apply Exec_Ok in Hm as [Hf _]. apply update_cluster_inv in Hf.
      rewrite (proj2 (row_at_Some k_org (org s) (k_id c) (ct_clusters (store s)) c)) in Hf
        by (split_and!; congruence).
      destruct Hf as [-> _]. done.
Qed.

(** What the sweep looks at: the newest 100 connected clusters of the tenant. *)
Definition swept (o : string) (db : CDB) : list Cluster :=
  take 100 (order_desc cluster_cursor
    (rows_where (λ c, visible o (k_org c) && String.eqb (k_status c) ClusterConnected)
       (ct_clusters db))).

Definition sweep_timeout (timeout : Z) : Z := if timeout <=? 0 then HeartbeatTimeout else timeout.

Lemma BuildPage_Items `{CursorJSON} {A} (key : A → Cursor) (l : list A) n limit :
  0 < limit → n = Z.to_nat (limit + 1) →
  Items (BuildPage key (take n l) limit) = take (Z.to_nat limit) l.
Proof.
  intros Hl ->. unfold BuildPage. destruct (0 <? limit) eqn:E; [|lia]. simpl.
  destruct (Z.ltb_spec limit (Z.of_nat (length (take (Z.to_nat (limit + 1)) l)))) as [Hlt|Hge].
  - assert (Ht : take (Z.to_nat limit) (take (Z.to_nat (limit + 1)) l) = take (Z.to_nat limit) l)
      by (rewrite take_take; f_equal; lia).
    rewrite Ht. by destruct (last _).
  - rewrite length_take in Hge. simpl. rewrite !take_ge by lia. done.
Qed.

Section Sweep.
Context `{CursorJSON}.

Lemma swept_page o s p s' :
  clusterRepo_List (mkPageRequest 100 "") ClusterConnected s = (Ok p, s') → org s = o →
  Items p = swept o (store s) ∧ store s' = store s ∧ same_env s s'.
Proof.
  unfold clusterRepo_List, List_. simpl. intros H0 Ho. inv_bind.
  apply QueryAll_Ok in Hm as (-> & Hs & He). injection H0 as <- <-. split; [|done].
  unfold select_page. simpl. rewrite (BuildPage_Items cluster_cursor) by done. by rewrite Ho.
Qed.

Lemma swept_page_of o db : cwf db → page_of o (swept o db) db.
Proof.
  intros W. unfold swept. set (p := λ c, visible o (k_org c) && _).
  set (l := order_desc cluster_cursor _).
  assert (Hl : NoDup (k_id <$> l)).
  { unfold l. rewrite order_desc_perm. apply rows_where_NoDup, cw_clu_key, W. }
  split.
  - rewrite fmap_take. eapply sublist_NoDup; [exact Hl|apply sublist_take].
  - apply Forall_take, Forall_forall. intros c Hc. unfold l in Hc. rewrite order_desc_perm in Hc.
    apply elem_of_rows_where in Hc as [[Hv Hst]%andb_true_iff (k & Hk)].
    apply visible_spec in Hv as [_ Hv]. apply String.eqb_eq in Hst.
    rewrite (cw_clu_key _ W _ _ Hk). done.
Qed.

Lemma stable_mark_stale o cutoff t l : stable (mark_stale o cutoff t l).
Proof.
  induction l as [|c l IH]; simpl; [solve_stable|]. case_match; [|done]. case_match; [|done].
  apply stable_bind; [solve_stable|]. intros [u|e]; [|done]. apply stable_bind; [solve_stable|].
  intros _. apply stable_bind; [by intros s|done].
Qed.

(** The body of the sweep only fails with the database. *)
Lemma mark_stale_Ok o cutoff t l s : ∃ s', mark_stale o cutoff t l s = (Ok tt, s').
Proof.
  revert s. induction l as [|c l IH]; intros s; simpl; [by exists s|].
  case_match; [|done]. case_match; [|done]. unfold bind at 1, try at 1.
  destruct (clusterRepo_UpdateStatus _ _ s) as [[u|e] s1]; [|apply IH].
  unfold bind at 1, try at 1. destruct (enqueue_cluster _ _ _ _ s1) as [r s2]. apply IH.
Qed.
Lemma sweep_total s cutoff t : quiet s → aborted s = false → ∃ s',
  (let* page := clusterRepo_List (mkPageRequest 100 "") ClusterConnected in
   mark_stale (org s) cutoff t (Items page)) s = (Ok tt, s') ∧ quiet s'.
Proof.
  intros Hq Ha. unfold bind at 1. destruct (clusterRepo_List _ _ s) as [r s1] eqn:Hl.
  pose proof (frame_clu_List stays_quiet (mkPageRequest 100 "") ClusterConnected s Hq) as Hq1.
  rewrite Hl in Hq1. unfold clusterRepo_List, List_, QueryAll, bind, on_err in Hl. simpl in Hl.
  rewrite stmt_quiet in Hl by done. simpl in Hl. injection Hl as <- <-.
  match goal with |- context [mark_stale ?o ?c ?t ?l ?x] =>
    destruct (mark_stale_Ok o c t l x) as (s' & Hs'); pose proof (quiet_mark_stale o c t l x Hq1) as Hq2 end.
  exists s'. rewrite Hs' in Hq2. by split.
Qed.

(** An error leaves the database alone; a success has marked the stale ones of
    the clusters it looked at, and no others. *)
Lemma MarkDisconnected_inv o timeout s r s' :
  Service_MarkDisconnected o timeout s = (r, s') → proper_uuids s → cwf (store s) →
  same_env s s' ∧
  match r with
  | Err _ => store s' = store s
  | Ok n => o ≠ "" ∧
      let t := sweep_timeout timeout in
      let l := filter (λ c, stale (clock s - t) c = true) (swept o (store s)) in
      marked_stale o t (clock s) l (store s) (store s') ∧ (length l ≤ n)%nat ∧
      (quiet s → n = length l)
  end.
Proof.
  unfold Service_MarkDisconnected. unfold bind at 1, now_. intros Hrun Hu W.
  fold (sweep_timeout timeout) in Hrun. set (t := sweep_timeout timeout) in *.
  unfold bind at 1, set_count in Hrun. set (s0 := set_outside _ s) in Hrun.
  set (body := let* page := clusterRepo_List _ _ in _) in Hrun.
  assert (Hbody : stable body).
  { unfold body, clusterRepo_List. apply stable_bind; [auto with stable|]. intros p.
    apply stable_mark_stale. }
  unfold bind at 1 in Hrun. destruct (WithTenant o body s0) as [r1 s1] eqn:Hw.
  pose proof (runs_WithTenant o body Hbody s0 r1 s1 Hw) as [He Hr].
  destruct r1 as [u|e]; [|injection Hrun as <- <-; split; [exact He|exact Hr]].
  injection Hrun as <- <-. split; [exact He|].
  assert (Hb : ∀ sa v sb, body sa = (Ok v, sb) → store sa = store s → org sa = o → o ≠ "" →
    clock sa = clock s → proper_uuids sa → aborted sb = false →
    marked_stale o t (clock s) (filter (λ c, stale (clock s - t) c = true) (swept o (store s)))
      (store s) (store sb) ∧
    counted (outside sb) = (counted (outside sa) +
      length (filter (λ c, stale (clock s - t) c = true) (swept o (store s))))%nat).
  { intros sa v sb (p & s2 & Hp & Hb)%bind_Ok_inv Hst Horg Hne Hc Hg Hab.
    pose proof (frame_clu_List same_outside (mkPageRequest 100 "") ClusterConnected sa) as Ko. rewrite Hp in Ko.
    apply (swept_page o) in Hp as (Hi & Hs2 & (Ho2 & Hg2 & Hc2)); [|done].
    rewrite Hi in Hb. simpl in Ko.
    apply mark_stale_inv in Hb as [Hms Hn]; [| |congruence|done|done|].
    - rewrite Ko in Hn. rewrite Hs2, Hc2, Hc, Hst in *. done.
    - intros k. rewrite Hg2. apply Hg.
    - rewrite Hs2, Hst. by apply swept_page_of. }
  pose proof Hw as (Ho & _ & sa & sb & (Ha & Hao & Hac & Hag & Hcl) & Hf & Hab & -> & Hout)%WithTenant_run_outside;
    [|done].
  destruct (Hb sa u sb Hf) as [Hms Hn]; try done; [by intros k; rewrite Hag; apply Hu|].
  split; [done|]. cbv zeta. split; [done|]. rewrite Hout. split; [lia|]. intros Hq.
  destruct (sweep_total (enter o s0) (clock s - t) t) as (sq & Hbq & Hqq); [done|done|].
  rewrite (WithTenant_quiet o body s0 (Ok tt) sq) in Hw by done.
  destruct (aborted sq) eqn:Haq; [done|]. injection Hw as _ <-. simpl in Hout. rewrite <- Hout.
  by destruct (Hb (enter o s0) tt sq Hbq) as [_ ->].
Qed.
End Sweep.
