(* ===== verification/ClusterSteps.v ===== *)
(** * Every call of the cluster service is a run of its machine

    Whoever calls, whatever the call carries and whichever statements fail, the
    service performs steps of [ClusterSpec] in one tenant, the one the request
    names for users and the sweep. *)

From S2P Require Import Prelude Json GoTime AppErrors Tx Events Pagination Authz ClusterStore.
From S2P Require Import Http Calls ClusterService ClusterApi ClusterSpec ClusterFacts.
Open Scope Z_scope.
Open Scope tx_scope.
#[local] Opaque Sha256.Sum256.

Implicit Types s : Sess CDB COutside.

(** ** Successes as steps *)
Lemma created_steps o now id c db user p db' :
  ct_clusters db !! id = None → slug_unused o (k_slug c) db →
  k_org c = o → k_id c = id → k_status c = ClusterPending → k_agent c = None → k_version c = 1 →
  emitted EventClusterCreated o p (by_user user "cluster" id) now (put_clu id c db) db' →
  rtc (cchange o now) db db'.
Proof.
  intros Hfr Hsl Ho <- Hst Ha Hv Hem. eapply rtc_l; [by apply cc_new|]. by eapply emitted_step, Hem.
Qed.

Lemma revoked_steps cluster o now db db' :
  revoked cluster o now db db' → rtc (cchange o now) db db' ∧ ct_clusters db' = ct_clusters db.
Proof.
  intros [[-> _]|(k & t & Hk & _ & Ho & _ & Hst & ->)]; [done|]. split; [|done].
  by eapply rtc_once, cc_revoke.
Qed.

Lemma generated_steps o user cluster ttl plain now db r db' :
  token_generated o user cluster ttl plain now db r db' → rtc (cchange o now) db db'.
Proof.
  intros (c & id & ref & db1 & Hc & Hco & _ & Hrev & Hna & Hh & Hfr & _ & Hem).
  apply revoked_steps in Hrev as [Hsteps Ht]. etrans; [exact Hsteps|].
  eapply rtc_l; [|eapply emitted_step, Hem; done].
  set (t := stamp_tok id now (requested_token o user cluster now ttl plain)).
  apply (cc_token_new o now db1 t c); try done. by rewrite Ht.
Qed.

Lemma registered_steps req token now db r db' :
  ar_agent req ≠ "" → registered req token now db r db' →
  (∀ t, ct_tokens db !! tk_id token = Some t → tk_cluster t = tk_cluster token) →
  rtc (cchange (tk_org token) now) db db'.
Proof.
  intros Ha (c & t & Hc & Hco & Hm & Ht & Hto & Hts & _ & Hem) Hcl.
  eapply rtc_l; [|eapply emitted_step, Hem; done]. rewrite <- (Hcl t Ht) in *.
  by eapply cc_register.
Qed.

Lemma beat_steps o cluster req now db db' :
  beat_recorded o cluster req now db db' → rtc (cchange o now) db db'.
Proof.
  intros (c & hid & Hc & Hco & Hl & Ha & Hfr & Hem).
  set (h := mkBeat hid o cluster _ _ _ _ _) in Hem.
  eapply rtc_l; [apply (cc_beat_row o now db hid h); [done|done|by exists c]|].
  eapply rtc_l; [|eapply emitted_step, Hem; done]. by eapply cc_beat.
Qed.

Lemma marked_steps o timeout now l db db' :
  marked_stale o timeout now l db db' → rtc (cchange o now) db db'.
Proof.
  induction 1 as [db|c l at_ db db1 db' Hh Hc Ho Hst Hem _ IH]; [done|].
  eapply rtc_l; [by eapply cc_disconnect|]. etrans; [|exact IH]. by eapply emitted_step, Hem.
Qed.

Lemma recovered_steps token requested source now db c db' :
  recovered token requested source now db c db' → rtc (cchange (k_org c) now) db db'.
Proof. intros (_ & _ & a & _ & _ & [->|Hem]); [done|]. by eapply emitted_step, Hem. Qed.

(** ** Calls *)

Abbreviation cacts := (performs cwf cchange).

Lemma idle_crequire_org o : idle (crequire_org o).
Proof. intros s r s'. unfold crequire_org. destruct (String.eqb o ""); by intros [= <- <-]. Qed.
#[export] Hint Resolve idle_crequire_org : idle.

Definition cluster_request_org (r : ClusterRequest) : string :=
  match r with
  | PostCluster o _ | ListClusters o _ _ | GetCluster o _ | PatchCluster o _ _
  | DeleteCluster o _ | PostToken o _ _ _ | DeleteToken o _ _ | GetHeartbeats o _ _ => o
  end.

Section Calls.
Context `{CursorJSON}.

Lemma CreateCluster_cacts o user req : cacts (eq o) (Service_CreateCluster o user req).
Proof.
  eapply ensures_performs; [apply CreateCluster_ensures|].
  intros now db c db' _ _ (id & -> & Hfr & Hsl & Hem). by eapply created_steps.
Qed.
Lemma UpdateCluster_cacts o user cluster req : cacts (eq o) (Service_UpdateCluster o user cluster req).
Proof.
  eapply ensures_performs; [apply UpdateCluster_ensures|].
  intros now db c db' W _ (_ & H0). destruct (H0 W) as (old & Hk & Ho & Hl & _ & ->).
  by eapply rtc_once, cc_edit.
Qed.
Lemma DeleteCluster_cacts o user cluster : cacts (eq o) (Service_DeleteCluster o user cluster).
Proof.
  eapply ensures_performs; [apply DeleteCluster_ensures|].
  intros now db u db' _ _ (old & Hk & Ho & Hl & Hem).
  eapply rtc_l; [by eapply cc_delete|]. by eapply emitted_step, Hem.
Qed.
Lemma GenerateRegistrationToken_cacts rand o user cluster e :
  cacts (eq o) (Service_GenerateRegistrationToken rand o user cluster e).
Proof.
  eapply ensures_performs; [apply GenerateRegistrationToken_ensures|].
  intros now db r db' W _ (_ & ttl & plain & _ & _ & Hq). by eapply generated_steps, Hq.
Qed.
Lemma RevokeRegistrationToken_cacts o user cluster token :
  cacts (eq o) (Service_RevokeRegistrationToken o user cluster token).
Proof.
  eapply ensures_performs; [apply RevokeRegistrationToken_ensures|].
  intros now db r db' W _ (t & ? & ? & ? & ->). by eapply rtc_once, cc_revoke.
Qed.
Lemma RecordHeartbeat_cacts o cluster req : cacts (eq o) (Service_RecordHeartbeat o cluster req).
Proof.
  eapply ensures_performs; [apply RecordHeartbeat_ensures|]. intros now db r db' W _ [_ Hb].
  by eapply beat_steps.
Qed.

Lemma RegisterAgent_cacts b req : cacts (λ _, True) (Service_RegisterAgent b req).
Proof.
  intros s r s' _ W H0. apply RegisterAgent_inv in H0 as [_ H0]; [|done].
  destruct r as [c|e]; [|by left].
  destruct H0 as (Ha & token & (k & Hk & _) & [[_ Hr]|(_ & _ & Hr)]); right.
  - exists (k_org c). split; [done|]. by eapply recovered_steps.
  - exists (tk_org token). split; [done|]. eapply registered_steps; [done..|].
    intros t Ht. rewrite (cw_tok_key _ W _ _ Hk) in Ht. congruence.
Qed.
Lemma RecoverCluster_cacts b plain a : cacts (λ _, True) (Service_RecoverCluster b plain a).
Proof.
  intros s r s' _ W H0. apply RecoverCluster_inv in H0 as [_ H0].
  destruct r as [c|e]; [|by left].
  destruct H0 as (token & _ & _ & _ & _ & Hr). right. exists (k_org c). split; [done|].
  by eapply recovered_steps.
Qed.
Lemma MarkDisconnected_cacts o timeout : cacts (eq o) (Service_MarkDisconnected o timeout).
Proof.
  intros s r s' Hu W H0. apply MarkDisconnected_inv in H0 as [_ H0]; [|done..].
  destruct r as [n|e]; [|by left]. destruct H0 as (_ & Hm & _). right. exists o. split; [done|].
  by eapply marked_steps.
Qed.

Lemma ValidateCluster_same b c a s r s' :
  clusterValidator_ValidateCluster b c a s = (r, s') →
  store s' = store s ∧ same_env s s' ∧ ∀ o, r = Ok o → ∃ row,
    ct_clusters (store s) !! c = Some row ∧ live row = true ∧ k_agent row = Some a ∧ k_org row = o.
Proof.
  unfold clusterValidator_ValidateCluster, bind, on_err.
  destruct (clusterRepo_GetByIDWithoutTenant b c s) as [r0 s0] eqn:Hq.
  apply autocommit_QueryOne_inv in Hq as (Hs & He & _ & Hr0).
  destruct r0 as [x|e]; simpl; [|by intros [= <- <-]]. specialize (Hr0 x eq_refl).
  destruct (ct_clusters (store s) !! c) as [row|] eqn:Hrow; [|done].
  destruct (pool_sees _ _ _); simplify_eq.
  destruct (String.eqb_spec (k_status x) ClusterDeleted); [by intros [= <- <-]|].
  destruct (k_agent x) as [a'|] eqn:Ha; [|by intros [= <- <-]].
  destruct (String.eqb_spec a' a); intros [= <- <-]; [|done]. split_and!; [done..|].
  intros o [= <-]. exists x. subst. split_and!; try done. by apply negb_true_iff, String.eqb_neq.
Qed.

Lemma Agent_Heartbeat_cacts b hc ha path body :
  cacts (λ _, True) (Agent_Heartbeat b hc ha path body).
Proof.
  unfold Agent_Heartbeat. destruct (String.eqb hc ""); [apply performs_fail|].
  destruct (String.eqb ha ""); [apply performs_fail|].
  apply performs_pre; [intros s r s' (? & ? & _)%ValidateCluster_same; done|]. intros o.
  destruct (negb _); [apply performs_fail|]. take_apart.
  intros s r s' Hu W [?|(o' & <- & Hs)]%RecordHeartbeat_cacts; [by left| |done|done].
  right. by exists o.
Qed.

Lemma cserve_user_cacts user r : cacts (eq (cluster_request_org r)) (cserve_user user r).
Proof.
  destruct r; simpl; try (apply readonly_performs; solve [
    unfold CHandler_ListClusters, CHandler_GetCluster, CHandler_GetHeartbeats, Service_ListClusters,
      Service_GetCluster, Service_GetHeartbeats, clusterRepo_List, clusterRepo_GetByID,
      heartbeatRepo_ListByCluster, crequire_org, crespond; solve_readonly]).
  - unfold CHandler_CreateCluster. take_apart. apply CreateCluster_cacts.
  - unfold CHandler_UpdateCluster, crespond. take_apart. apply UpdateCluster_cacts.
  - unfold CHandler_DeleteCluster. take_apart. apply DeleteCluster_cacts.
  - unfold CHandler_GenerateRegistrationToken. take_apart. apply GenerateRegistrationToken_cacts.
  - unfold CHandler_RevokeRegistrationToken. take_apart. apply RevokeRegistrationToken_cacts.
Qed.

Lemma cserve_agent_cacts b r : cacts (λ _, True) (cserve_agent b r).
Proof.
  destruct r; simpl; unfold CHandler_RegisterAgent, CHandler_RecoverAgent, crespond; take_apart.
  - apply RegisterAgent_cacts.
  - apply RecoverCluster_cacts.
  - apply Agent_Heartbeat_cacts.
Qed.

Lemma cperform_cacts b c : cacts (λ _, True) (cperform b c).
Proof.
  destruct c; simpl; take_apart.
  - eapply performs_any, cserve_user_cacts.
  - apply cserve_agent_cacts.
  - eapply performs_any, MarkDisconnected_cacts.
Qed.

(** ** Reachable states *)

(** One call, in any session: whatever the clock, the identifiers drawn and the
    failures the server injects. *)
Inductive cluster_step (b : bool) : CDB → CDB → Prop :=
| cluster_call s c : proper_uuids s → cluster_step b (store s) (store (cperform b c s).2).

Lemma cluster_step_kept b db db' : cluster_step b db db' → cwf db → cwf db' ∧ kept db db'.
Proof.
  intros [s c Hu] W. destruct (cperform b c s) as [r s'] eqn:E. simpl.
  destruct (cperform_cacts b c s r s' Hu W E) as [->|(o & _ & Hs)]; [done|].
  split; [by eapply cchanges_wf|]. by eapply cchanges_kept.
Qed.

Lemma cluster_steps_kept b db db' : rtc (cluster_step b) db db' → cwf db → cwf db' ∧ kept db db'.
Proof.
  induction 1 as [db|db d2 db' Hs _ IH]; intros W; [done|].
  destruct (cluster_step_kept _ _ _ Hs W) as [W2 K]. destruct (IH W2) as [W3 K2].
  split; [done|by etrans].
Qed.
End Calls.
