(* ===== verification/ClusterCorrectness.v ===== *)
(** * Correctness of the cluster service

    What registration tokens promise (one agent per token, recovery that never
    fails), how heartbeats and the disconnection sweep move a cluster, who may
    do what, and what no sequence of calls can undo; with a concrete scenario
    the witnesses evaluate. *)

From S2P Require Import Prelude Json GoTime AppErrors Tx Events Pagination Authz ClusterStore.
From S2P Require Import Total Http Calls ClusterService ClusterApi ClusterSpec ClusterFacts ClusterSteps.
Open Scope Z_scope.
Open Scope tx_scope.
#[local] Opaque Sha256.Sum256.

Implicit Types s : Sess CDB COutside.

(** ** A concrete service

    [ann] owns the organization, [bob] is a member; she creates the cluster
    [id0], generates a registration token for it and an agent registers. *)
Definition cdemo_db : CDB :=
  mkCDB {["acme"%string]}
    {[("acme", "ann")%string := mkMember "acme" "ann" OrgOwner "active";
      ("acme", "bob")%string := mkMember "acme" "bob" RoleMember "active"]} ∅ ∅ ∅ [].
Definition cdemo_session (db : CDB) (next : nat) (now : Z) : Sess CDB COutside :=
  mkSess db "" false [] demo_uuid next now (mkOutside [] 0).

Definition cdemo_rand : list Z := repeat 7 32.
Definition cdemo_token : string := Base64.text (Base64.encode cdemo_rand).
Definition cdemo_create : ClusterCall :=
  CUser "ann" (PostCluster "acme" (Some (mkCreateClu "East" "East" None None None None))).
Definition cdemo_generate : ClusterCall :=
  CUser "ann" (PostToken "acme" "id0" (Some cdemo_rand) (Some "1h"%string)).
Definition cdemo_register : AgentRegisterRequest :=
  mkRegister cdemo_token "agent-1" "v1.30" 3 "aws" "".
Definition cdemo_beat : AgentHeartbeatRequest := mkHeartbeatReq "" "v1.31" 4 true.

Definition cdemo_0 := cdemo_session cdemo_db 0 1000.
Definition cdemo_1 := (cperform true cdemo_create cdemo_0).2.
Definition cdemo_2 := (cperform true cdemo_generate cdemo_1).2.
Definition cdemo_3 := (cperform true (CAgent (PostRegister (Some cdemo_register))) cdemo_2).2.

Lemma cdemo_wf_0 : cwf (store cdemo_0).
Proof. split; simpl; intros; simplify_map_eq. by split_and!; constructor. Qed.
Lemma cperform_wf c s : uuid_gen s = demo_uuid → cwf (store s) → cwf (store (cperform true c s).2).
Proof.
  intros Hu W. eapply cluster_step_kept; [|exact W]. by apply cluster_call, demo_uuids_of.
Qed.
Lemma cdemo_wf_1 : cwf (store cdemo_1).
Proof. apply cperform_wf; [done|apply cdemo_wf_0]. Qed.
Lemma cdemo_wf_2 : cwf (store cdemo_2).
Proof. apply cperform_wf; [by vm_compute|apply cdemo_wf_1]. Qed.
Lemma cdemo_wf_3 : cwf (store cdemo_3).
Proof. apply cperform_wf; [by vm_compute|apply cdemo_wf_2]. Qed.

Lemma cdemo_step c s :
  uuid_gen s = demo_uuid → cluster_step true (store s) (store (cperform true c s).2).
Proof. intros Hu. by apply cluster_call, demo_uuids_of. Qed.

(** ** What no call can undo *)

(** C19. From a well-formed database, whatever users, agents and the sweep call,
    in whatever order and whichever statements fail: the data stay well formed
    (registered clusters have an agent that holds a consumed token of theirs,
    tokens and heartbeats belong to a cluster of their tenant, a cluster has at
    most one active token), and the history is kept: no cluster, token or
    heartbeat disappears, tenants, slugs and creation times are fixed, a
    deleted cluster stays deleted, a cluster that has an agent keeps having one,
    and a token that is used or revoked never changes again. *)
Theorem cluster_states_sound bypassrls db db'
    (Hs : rtc (cluster_step bypassrls) db db') (W : cwf db) : cwf db' ∧ kept db db'.
Proof. by eapply cluster_steps_kept. Qed.

Lemma cluster_states_sound_witness :
  rtc (cluster_step true) (store cdemo_0) (store cdemo_3) ∧ cwf (store cdemo_0) ∧
  cwf (store cdemo_3).
Proof.
  assert (H : rtc (cluster_step true) (store cdemo_0) (store cdemo_3)).
  { eapply rtc_l; [apply (cdemo_step cdemo_create); reflexivity|].
    eapply rtc_l; [apply (cdemo_step cdemo_generate); vm_compute; reflexivity|].
    eapply rtc_once, (cdemo_step (CAgent (PostRegister (Some cdemo_register)))). vm_compute.
    reflexivity. }
  split; [exact H|]. split; [exact cdemo_wf_0|].
  exact (proj1 (cluster_states_sound true _ _ H cdemo_wf_0)).
Defined.

(** ** Who may do what *)

Lemma permits_read {A} o user (k : string → CM A) :
  permits (may_read o user) (let* role := AuthorizeOrgRead o user in k role).
Proof. apply permits_first. intros s a s' (_ & _ & Ha)%AuthorizeOrgRead_inv. by apply Ha. Qed.

(** What a request needs: managing clusters is for owners and admins. *)
Definition cluster_request_needs (r : ClusterRequest) : string → string → CDB → Prop :=
  match r with
  | ListClusters _ _ _ | GetCluster _ _ | GetHeartbeats _ _ _ => may_read
  | _ => may_manage
  end.

Lemma cserve_user_authorized user r s res s' :
  cserve_user user r s = (res, s') →
  match res with
  | Ok _ => cluster_request_needs r (cluster_request_org r) user (store s)
  | Err _ => store s' = store s
  end.
Proof.
  intros H. destruct res as [a|e].
  - revert s a s' H. enough (Hp : permits (cluster_request_needs r (cluster_request_org r) user)
      (cserve_user user r)) by (intros; by eapply Hp).
    destruct r; simpl; repeat (apply permits_pre; [by auto with idle|intros]); apply permits_first;
      try apply permits_read.
    + eapply permits_weaken; [eapply ensures_permits, CreateCluster_ensures|]. by intros db [? _].
    + eapply ensures_permits, UpdateCluster_ensures.
    + eapply ensures_permits, DeleteCluster_ensures.
    + intros s t s' (_ & _ & _ & ? & _)%GenerateRegistrationToken_ensures. done.
    + eapply ensures_permits, RevokeRegistrationToken_ensures.
  - revert s e s' H. enough (Hc : clean (cserve_user user r)) by (intros; by eapply Hc).
    destruct r; simpl; try (apply readonly_clean; solve [
      unfold CHandler_ListClusters, CHandler_GetCluster, CHandler_GetHeartbeats, Service_ListClusters,
        Service_GetCluster, Service_GetHeartbeats, clusterRepo_List, clusterRepo_GetByID,
        heartbeatRepo_ListByCluster, crequire_org, crespond; solve_readonly]);
      repeat (apply clean_pre; [by auto with idle|intros]); apply clean_post;
      eapply ensures_clean.
    + apply CreateCluster_ensures.
    + apply UpdateCluster_ensures.
    + apply DeleteCluster_ensures.
    + apply GenerateRegistrationToken_ensures.
    + apply RevokeRegistrationToken_ensures.
Qed.

(** C20. A user's request only succeeds for an active member of the organization
    it names, and creating, changing or deleting a cluster and handling its
    registration tokens only for an owner or admin; one that fails changes
    nothing; and none touches the clusters, tokens and heartbeats of another
    tenant or adds an event of one. *)
Theorem cluster_requests_guarded user r s res s'
    (Hu : proper_uuids s) (W : cwf (store s)) (H : cserve_user user r s = (res, s')) :
  kept_apart (cluster_request_org r) (store s) (store s') ∧
  match res with
  | Ok _ => cluster_request_needs r (cluster_request_org r) user (store s)
  | Err _ => store s' = store s
  end.
Proof.
  split; [|by eapply cserve_user_authorized].
  destruct (cserve_user_cacts user r s res s' Hu W H) as [->|(o & -> & Hs)]; [done|].
  by eapply cchanges_kept.
Qed.

Lemma cluster_requests_guarded_witness :
  is_ok (cserve_user "ann" (PostToken "acme" "id0" (Some cdemo_rand) (Some EmptyString)) cdemo_1).1 = true ∧
  may_manage "acme" "ann" (store cdemo_1).
Proof.
  assert (Hok : is_ok (cserve_user "ann" (PostToken "acme" "id0" (Some cdemo_rand) (Some EmptyString)) cdemo_1).1
                = true) by (vm_compute; reflexivity).
  split; [exact Hok|].
  destruct (cserve_user "ann" (PostToken "acme" "id0" (Some cdemo_rand) (Some EmptyString)) cdemo_1) as [r s'] eqn:E.
  destruct r as [a|e]; [|discriminate Hok].
  exact (proj2 (cluster_requests_guarded "ann" (PostToken "acme" "id0" (Some cdemo_rand) (Some EmptyString))
           cdemo_1 (Ok a) s' ltac:(apply demo_uuids_of; vm_compute; reflexivity) cdemo_wf_1 E)).
Defined.

(** ** Registration tokens *)

(** One event more, of type [ty] in the organization [o]. *)
Definition one_more_event (ty o : string) (db db' : CDB) : Prop :=
  ∃ row, ct_outbox db' = ct_outbox db ++ [row] ∧ Type_ (ob_event row) = ty ∧
    OrgID (ob_event row) = o ∧ ob_published row = None.

Lemma emitted_event ty o p opts now db db' :
  neutral opts → emitted ty o p opts now db db' → one_more_event ty o db db'.
Proof.
  intros Hn (row_id & eid & _ & _ & ->). eexists. split; [done|].
  destruct (Hn (mkEnvelope eid ty clusterEventVersion o "" "" now no_actor no_resource (Some p)))
    as (_ & Hty & _ & Ho). by split_and!.
Qed.

Lemma token_ttl_positive e ttl : token_ttl e = Ok ttl → 0 < ttl.
Proof.
  unfold token_ttl. destruct (String.eqb e ""); [by intros [= <-]|].
  destruct (GoTime.ParseDuration e) as [d|]; [|done].
  destruct (Z.leb_spec d 0); [done|]. intros [= <-]. lia.
Qed.

(** Generating a registration token: it needs a live cluster of the
    organization that is pending or disconnected and a positive lifetime; the
    response carries the token, the table only its hash, active and bound to the
    cluster until the lifetime ends; it is now the only active token of the
    cluster, the previous one being revoked and all others untouched; one event
    is added and nothing else changes. *)
Theorem GenerateRegistrationToken_correct rand o user cluster expiresIn s r s' (W : cwf (store s))
    (H : Service_GenerateRegistrationToken rand o user cluster expiresIn s = (r, s')) :
  match r with
  | Err _ => store s' = store s
  | Ok secret => ∃ c ttl bytes t,
      may_manage o user (store s) ∧ ct_clusters (store s) !! cluster = Some c ∧ k_org c = o ∧
      (k_status c = ClusterPending ∨ k_status c = ClusterDisconnected) ∧ 0 < ttl ∧
      rand = Some bytes ∧ ts_token secret = Base64.text (Base64.encode bytes) ∧
      ts_view secret = toTokenView t ∧
      ct_tokens (store s) !! tk_id t = None ∧ ct_tokens (store s') !! tk_id t = Some t ∧
      tk_hash t = hashToken (ts_token secret) ∧ tk_status t = TokenStatusActive ∧ tk_org t = o ∧
      tk_cluster t = cluster ∧ tk_expires t = clock s + ttl ∧ tk_created_by t = Some user ∧
      (∀ k x, ct_tokens (store s') !! k = Some x → tk_cluster x = cluster →
         tk_status x = TokenStatusActive → k = tk_id t) ∧
      (∀ k x, ct_tokens (store s) !! k = Some x → ∃ x', ct_tokens (store s') !! k = Some x' ∧
         if bool_decide (tk_cluster x = cluster ∧ tk_status x = TokenStatusActive)
         then tk_status x' = TokenStatusRevoked else x' = x) ∧
      ct_clusters (store s') = ct_clusters (store s) ∧ ct_beats (store s') = ct_beats (store s) ∧
      one_more_event EventRegistrationTokenCreated o (store s) (store s')
  end.
Proof.
  apply GenerateRegistrationToken_ensures in H as [_ H]. destruct r as [secret|e]; [|exact H].
  destruct H as (_ & _ & Hm & ttl & plain & Httl & Hplain & Hq).
  destruct (Hq W) as (c & id & ref & db1 & Hc & Hco & Hmr & Hrev & Hna & Hh & Hfr & -> & Hem).
  destruct rand as [bytes|]; [|done]. injection Hplain as <-.
  destruct (emitted_tables _ _ _ _ _ _ _ Hem) as (T1 & T2 & T3). simpl in T1, T2, T3.
  apply revoked_steps in Hrev as Hst. destruct Hst as [_ Hdb1].
  set (t := stamp_tok id (clock s) _) in *. exists c, ttl, bytes, t.
  assert (Hrow : ∀ k x, ct_tokens (store s) !! k = Some x → ∃ x', ct_tokens db1 !! k = Some x' ∧
     if bool_decide (tk_cluster x = cluster ∧ tk_status x = TokenStatusActive)
     then tk_status x' = TokenStatusRevoked else x' = x).
  { intros k x Hk. destruct Hrev as [[-> Hno]|(k0 & t0 & Hk0 & _ & _ & Hcl & Hact & ->)].
    - exists x. split; [done|]. case_bool_decide as Hb; [|done].
      destruct (Hno k x Hk). destruct Hb. split_and!; [|done..].
      destruct (cw_token _ W _ _ Hk) as (c' & Hc' & <-). congruence.
    - simpl. destruct (decide (k = k0)) as [->|Hne].
      + eexists. split; [by rewrite lookup_insert_eq|]. assert (x = t0) as -> by congruence.
        by rewrite bool_decide_true.
      + exists x. rewrite lookup_insert_ne by done. split; [done|].
        case_bool_decide as Hb; [|done]. destruct Hb. exfalso. apply Hne.
        eapply cw_active; eauto. congruence. }
  assert (Hfr0 : ct_tokens (store s) !! id = None).
  { destruct (ct_tokens (store s) !! id) as [x|] eqn:Hx; [|done].
    destruct (Hrow _ _ Hx) as (x' & Hx' & _). congruence. }
  split_and!; try done.
  - unfold may_register in Hmr. bool_to_prop. destruct Hmr as [Hmr|Hmr]; bool_to_prop; auto.
  - by eapply token_ttl_positive.
  - by rewrite T2, lookup_insert_eq.
  - intros k x Hk Hxc Hxs. rewrite T2 in Hk. apply lookup_insert_Some in Hk as [[<- _]|[_ Hk]]; [done|].
    by destruct (Hna k x Hk).
  - intros k x Hk. destruct (Hrow k x Hk) as (x' & Hx' & ?). exists x'. split; [|done].
    rewrite T2, lookup_insert_ne; [done|]. simpl. congruence.
  - congruence.
  - rewrite T3. by destruct Hrev as [[-> _]|(k0 & t0 & _ & _ & _ & _ & _ & ->)].
  - apply emitted_event in Hem as (row & Hrow' & ?); [|done]. exists row. split; [|done].
    rewrite Hrow'. by destruct Hrev as [[-> _]|(k0 & t0 & _ & _ & _ & _ & _ & ->)].
Qed.

Lemma GenerateRegistrationToken_correct_witness :
  is_ok (Service_GenerateRegistrationToken (Some cdemo_rand) "acme" "ann" "id0" "1h" cdemo_1).1 = true ∧
  may_manage "acme" "ann" (store cdemo_1).
Proof.
  assert (Hok : is_ok (Service_GenerateRegistrationToken (Some cdemo_rand) "acme" "ann" "id0" "1h"
                         cdemo_1).1 = true) by (vm_compute; reflexivity).
  split; [exact Hok|].
  destruct (Service_GenerateRegistrationToken (Some cdemo_rand) "acme" "ann" "id0" "1h" cdemo_1)
    as [r s'] eqn:E. destruct r as [a|e]; [|discriminate Hok].
  destruct (GenerateRegistrationToken_correct (Some cdemo_rand) "acme" "ann" "id0" "1h" cdemo_1 (Ok a)
              s' cdemo_wf_1 E) as (c & ttl & bytes & t & Hm & _). exact Hm.
Defined.

(** ** Registration *)

(** A fresh registration: the cluster [k] is bound to the agent, the token [kt]
    is used up by it, nothing else changes. *)
Definition bound (req : AgentRegisterRequest) (k kt : string) (now : Z) (db db' : CDB) : Prop :=
  ∃ c c' t t',
    ct_clusters db !! k = Some c ∧ (k_status c = ClusterPending ∨ k_status c = ClusterDisconnected) ∧
    ct_clusters db' = <[k := c']> (ct_clusters db) ∧
    k_id c' = k ∧ k_org c' = k_org c ∧ k_name c' = k_name c ∧ k_slug c' = k_slug c ∧
    k_status c' = ClusterConnected ∧ k_agent c' = Some (ar_agent req) ∧
    k_k8s c' = Some (ar_k8s req) ∧ k_nodes c' = Some (ar_nodes req) ∧
    k_registered c' = Some now ∧ k_heartbeat c' = Some now ∧ k_version c' = k_version c + 1 ∧
    ct_tokens db !! kt = Some t ∧ tk_cluster t = k ∧ tk_status t = TokenStatusActive ∧
    ct_tokens db' = <[kt := t']> (ct_tokens db) ∧ tk_id t' = kt ∧ tk_hash t' = tk_hash t ∧
    tk_cluster t' = k ∧ tk_status t' = TokenStatusUsed ∧ tk_used_by t' = Some (ar_agent req) ∧
    tk_used_at t' = Some now ∧
    ct_beats db' = ct_beats db ∧ one_more_event EventClusterRegistered (k_org c) db db'.

(** C21. Registering an agent, whatever statement fails: an error leaves the
    database alone; a success needs a non-empty agent and a token whose hash is
    stored.  An active, unexpired one binds its pending or disconnected cluster
    to the agent and is used up; a used one returns its live cluster, whose
    recorded agent is not changed, and at most adds a recovery event. *)
Theorem RegisterAgent_correct bypassrls req s r s' (W : cwf (store s))
    (H : Service_RegisterAgent bypassrls req s = (r, s')) :
  match r with
  | Err _ => store s' = store s
  | Ok c => ar_agent req ≠ "" ∧ ∃ kt t, ct_tokens (store s) !! kt = Some t ∧
      tk_hash t = hashToken (ar_token req) ∧ k_id c = tk_cluster t ∧
      ((tk_status t = TokenStatusActive ∧ clock s ≤ tk_expires t ∧
        k_agent c = Some (ar_agent req) ∧ k_status c = ClusterConnected ∧
        bound req (tk_cluster t) kt (clock s) (store s) (store s')) ∨
       (tk_status t = TokenStatusUsed ∧ ct_clusters (store s) !! tk_cluster t = Some c ∧
        is_Some (k_agent c) ∧ k_status c ≠ ClusterDeleted ∧
        (store s' = store s ∨
         ct_clusters (store s') = ct_clusters (store s) ∧
         ct_tokens (store s') = ct_tokens (store s) ∧ ct_beats (store s') = ct_beats (store s) ∧
         one_more_event EventClusterRecovered (k_org c) (store s) (store s'))))
  end.
Proof.
  apply RegisterAgent_inv in H as [_ H]; [|exact W]. destruct r as [c|e]; [|exact H].
  destruct H as (Ha & t & (kt & Hkt & Hh) & Hcase). split; [exact Ha|].
  assert (Hid : tk_id t = kt) by (eapply cw_tok_key; eauto).
  exists kt, t. split; [done|]. split; [done|]. destruct Hcase as [(Hu & Hrec)|(Hact & Hexp & Hreg)].
  - destruct Hrec as (Hc & Hl & a & _ & _ & Hdb). split; [by eapply cw_clu_key|]. right.
    split_and!; try done.
    + destruct (cw_used _ W _ _ Hkt Hu) as [_ (c' & Hc' & ?)]. by simplify_eq.
    + by apply negb_true_iff, String.eqb_neq in Hl.
    + destruct Hdb as [->|Hem]; [by left|]. right.
      destruct (emitted_tables _ _ _ _ _ _ _ Hem) as (-> & -> & ->). split_and!; try done.
      eapply emitted_event, Hem. done.
  - destruct Hreg as (c0 & t0 & Hc0 & Hco & Hmr & Ht0 & _ & _ & -> & Hem).
    assert (k_id c0 = tk_cluster t) as Hkid by (eapply cw_clu_key; eauto).
    rewrite Hid in *. assert (t0 = t) as -> by congruence.
    destruct (emitted_tables _ _ _ _ _ _ _ Hem) as (T1 & T2 & T3). simpl in T1, T2, T3.
    split; [done|]. left. split_and!; try done.
    exists c0, (clu_register (ar_agent req) (ar_k8s req) (ar_nodes req) (nonempty (ar_provider req))
                  (nonempty (ar_region req)) (clock s) (clock s) c0), t, (tok_used (ar_agent req) (clock s) t).
    split_and!; try done.
    + unfold may_register in Hmr. bool_to_prop. destruct Hmr as [Hmr|Hmr]; bool_to_prop; auto.
    + apply emitted_event in Hem as (row & ? & ? & ? & ?); [|done]. exists row. rewrite Hco. done.
Qed.

Lemma RegisterAgent_correct_witness :
  is_ok (Service_RegisterAgent true cdemo_register cdemo_2).1 = true ∧
  ∃ kt t, ct_tokens (store cdemo_2) !! kt = Some t ∧ tk_hash t = hashToken cdemo_token.
Proof.
  assert (Hok : is_ok (Service_RegisterAgent true cdemo_register cdemo_2).1 = true)
    by (vm_compute; reflexivity).
  split; [exact Hok|]. destruct (Service_RegisterAgent true cdemo_register cdemo_2) as [r s'] eqn:E.
  destruct r as [c|e]; [|discriminate Hok].
  destruct (RegisterAgent_correct true cdemo_register cdemo_2 (Ok c) s' cdemo_wf_2 E)
    as (_ & kt & t & Ht & Hh & _).
  exists kt, t. split; [exact Ht|exact Hh].
Defined.

(** Under the row-level security the migrations force, no agent can ever
    register or recover: the token is looked up outside of any tenant, where the
    policies hide every row, so every request is refused. *)
Theorem registration_denied_under_rls req plain agent s :
  is_ok (Service_RegisterAgent false req s).1 = false ∧
  store (Service_RegisterAgent false req s).2 = store s ∧
  is_ok (Service_RecoverCluster false plain agent s).1 = false ∧
  store (Service_RecoverCluster false plain agent s).2 = store s.
Proof.
  assert (Hl : ∀ h s r s', lookup_token false h s = (r, s') → is_ok r = false ∧ store s' = store s).
  { intros h s0 r s'. unfold lookup_token, on_err.
    destruct (tokenRepo_GetByHash false h s0) as [r0 s1] eqn:Hq. intros [= <- <-].
    apply autocommit_QueryOne_inv in Hq as (Hs & _ & _ & Hr). split; [|done].
    destruct r0 as [t|e]; [|done]. exfalso. specialize (Hr t eq_refl).
    assert (Hin : t ∈ [t]) by left. rewrite <- Hr in Hin.
    by apply elem_of_rows_where in Hin as [[? _]%andb_true_iff _]. }
  unfold Service_RegisterAgent, Service_RecoverCluster. split_and!.
  - destruct (_ || _); [done|]. unfold bind, now_.
    destruct (lookup_token _ _ _) as [[t|e] s1] eqn:Hq; apply Hl in Hq as [? ?]; done.
  - destruct (_ || _); [done|]. unfold bind, now_.
    destruct (lookup_token _ _ _) as [[t|e] s1] eqn:Hq; apply Hl in Hq as [? ?]; done.
  - destruct (String.eqb plain ""); [done|]. unfold bind at 1.
    destruct (lookup_token _ _ _) as [[t|e] s1] eqn:Hq; apply Hl in Hq as [? ?]; done.
  - destruct (String.eqb plain ""); [done|]. unfold bind at 1.
    destruct (lookup_token _ _ _) as [[t|e] s1] eqn:Hq; apply Hl in Hq as [? ?]; done.
Qed.

(** ** Recovery *)

(** On the pool, without faults, a stored token and its cluster are found. *)
Lemma lookup_token_found s k t :
  quiet s → cwf (store s) → ct_tokens (store s) !! k = Some t →
  lookup_token true (tk_hash t) s = (Ok t, s).
Proof.
  intros Hq W Hk. unfold lookup_token, tokenRepo_GetByHash, on_err.
  rewrite (autocommit_one _ _ t); [done|done|].
  eapply rows_where_singleton; [exact Hk|by simpl; rewrite String.eqb_refl|].
  intros k' t' Hk' Hp. simpl in Hp. apply String.eqb_eq in Hp. by eapply cw_hash.
Qed.

Lemma recover_found s token requested source c a :
  quiet s → ct_clusters (store s) !! tk_cluster token = Some c → live c = true →
  k_agent c = Some a → a ≠ "" →
  (recoverRegisteredCluster true token requested source s).1 = Ok c.
Proof.
  intros Hq Hc Hl Ha Hne. unfold recoverRegisteredCluster, bind at 1, on_err,
    clusterRepo_GetByIDWithoutTenant. rewrite (autocommit_one _ _ c); [|done|by rewrite Hc].
  unfold live in Hl. cbn [map_err].
  destruct (String.eqb_spec (k_status c) ClusterDeleted) ; [done|].
  rewrite Ha. simpl.
  apply String.eqb_neq in Hne. rewrite !Hne. unfold bind, try. by destruct (WithTenant _ _ s).
Qed.

Lemma recover_deleted s token requested source c :
  quiet s → ct_clusters (store s) !! tk_cluster token = Some c → k_status c = ClusterDeleted →
  (recoverRegisteredCluster true token requested source s).1 = Err errClusterNotFound.
Proof.
  intros Hq Hc Hd. unfold recoverRegisteredCluster, bind at 1, on_err,
    clusterRepo_GetByIDWithoutTenant. rewrite (autocommit_one _ _ c); [|done|by rewrite Hc].
  cbn [map_err]. by rewrite Hd.
Qed.

Lemma lookup_token_denied s h : quiet s → lookup_token false h s = (Err errInvalidToken, s).
Proof.
  intros Hq. unfold lookup_token, tokenRepo_GetByHash, on_err. rewrite autocommit_none; [done|done|].
  unfold rows_where. apply filter_none. intros t (x & -> & Hx)%list_elem_of_fmap. by destruct x.
Qed.

(** C22. A token that has been used stays a credential for recovering its
    cluster, for ever: whatever happens afterwards (a revocation of the token,
    which finds it no longer active, new tokens, its expiry, failed or successful
    requests of anyone), on a run without faults and for a database role that
    bypasses the row-level security, presenting it to the registration or to the
    recovery endpoint returns the cluster, with the agent it is registered to, or
    "cluster not found" when the cluster has been deleted.  A role that does not
    bypass it gets "invalid token" from both, always. *)
Theorem used_token_recovers bypassrls db kt t plain req requested s
    (W : cwf db) (Ht : ct_tokens db !! kt = Some t) (Hused : tk_status t = TokenStatusUsed)
    (Hh : tk_hash t = hashToken plain) (Hs : rtc (cluster_step bypassrls) db (store s))
    (Hq : quiet s) (Hp : plain ≠ "") (Hr : ar_token req = plain) (Ha : ar_agent req ≠ "") :
  ∃ c a, ct_clusters (store s) !! tk_cluster t = Some c ∧ k_agent c = Some a ∧ a ≠ "" ∧
    let answer := if negb bypassrls then Err errInvalidToken
                  else if live c then Ok c else Err errClusterNotFound in
    (Service_RegisterAgent bypassrls req s).1 = answer ∧
    (Service_RecoverCluster bypassrls plain requested s).1 = answer.
Proof.
  destruct (cluster_steps_kept _ _ _ Hs W) as [W' K].
  destruct (kp_tokens _ _ K _ _ Ht) as (t' & Ht' & Hk).
  assert (t' = t) as -> by (apply (tkk_final _ _ Hk); by rewrite Hused).
  destruct (cw_used _ W' _ _ Ht' Hused) as [_ (c & Hc & [a Hca])].
  destruct (cw_agent _ W' _ _ _ Hc Hca) as [Hne _].
  exists c, a. split_and!; [done..|]. cbv zeta.
  apply String.eqb_neq in Hp as Hpb. apply String.eqb_neq in Ha as Hab.
  unfold Service_RegisterAgent, Service_RecoverCluster. rewrite Hr, Hpb, Hab. cbn [orb]. unfold bind, now_.
  destruct bypassrls; simpl; [|by rewrite lookup_token_denied].
  pose proof (lookup_token_found s kt t Hq W' Ht') as Hl. rewrite Hh in Hl. rewrite Hl, Hused.
  assert (Hans : ∀ source requested, (recoverRegisteredCluster true t requested source s).1 =
                   if live c then Ok c else Err errClusterNotFound); [|split; apply Hans].
  intros source rq. destruct (live c) eqn:Hlive; [by eapply recover_found|].
  eapply recover_deleted; [done..|]. unfold live in Hlive.
  by apply negb_false_iff, String.eqb_eq in Hlive.
Qed.

(** [ann] tries to revoke the used token, and a long time passes. *)
Definition cdemo_revoke : ClusterCall := CUser "ann" (DeleteToken "acme" "id0" "id4").
Definition cdemo_4 :=
  cdemo_session (store (cperform true cdemo_revoke cdemo_3).2) 20 (1000 * GoTime.Hour).

Lemma cdemo_session_store db next now : store (cdemo_session db next now) = db.
Proof. reflexivity. Qed.

Lemma used_token_recovers_witness :
  (Service_RegisterAgent true cdemo_register cdemo_4).1 =
  (Service_RecoverCluster true cdemo_token "agent-2" cdemo_4).1.
Proof.
  assert (Hs : rtc (cluster_step true) (store cdemo_3) (store cdemo_4)).
  { apply rtc_once. unfold cdemo_4. rewrite cdemo_session_store. apply cdemo_step. vm_compute.
    reflexivity. }
  assert (Ht : match ct_tokens (store cdemo_3) !! "id4"%string with
               | Some t => tk_status t = TokenStatusUsed ∧ tk_hash t = hashToken cdemo_token
               | None => False end) by (vm_compute; split; reflexivity).
  destruct (ct_tokens (store cdemo_3) !! "id4"%string) as [t|] eqn:E; [|destruct Ht].
  destruct Ht as [Hu Hh].
  assert (Hq : quiet cdemo_4) by reflexivity. assert (Hp : cdemo_token ≠ "") by discriminate.
  assert (Ha : ar_agent cdemo_register ≠ "") by discriminate.
  destruct (used_token_recovers true (store cdemo_3) "id4" t cdemo_token cdemo_register "agent-2" cdemo_4
              cdemo_wf_3 E Hu Hh Hs Hq Hp eq_refl Ha) as (c & a & _ & _ & _ & H1 & H2).
  rewrite H1, H2. reflexivity.
Defined.

(** ** Heartbeats *)

(** The heartbeat endpoint, whatever statement fails: an error leaves the
    database alone; a success needs the path to name the cluster of the
    credentials, a live cluster registered to exactly that agent, and has
    connected it (from any status) with the reported inventory at the present
    time, keeping its tenant, slug and agent, and has added a heartbeat of the
    authenticated agent, whatever agent the body names, and one event. *)
Theorem Agent_Heartbeat_correct bypassrls hc ha path body s r s' (W : cwf (store s))
    (H : Agent_Heartbeat bypassrls hc ha path body s = (r, s')) :
  match r with
  | Err _ => store s' = store s
  | Ok _ => path = hc ∧ ∃ c req hid, let now := clock s in
      body = Some req ∧ ha ≠ "" ∧
      ct_clusters (store s) !! hc = Some c ∧ k_status c ≠ ClusterDeleted ∧ k_agent c = Some ha ∧
      (∃ c', ct_clusters (store s') = <[hc := c']> (ct_clusters (store s)) ∧
         k_status c' = ClusterConnected ∧ k_heartbeat c' = Some now ∧ k_k8s c' = Some (ah_k8s req) ∧
         k_nodes c' = Some (ah_nodes req) ∧ k_agent c' = Some ha ∧ k_org c' = k_org c ∧
         k_slug c' = k_slug c ∧ k_version c' = k_version c + 1) ∧
      ct_beats (store s) !! hid = None ∧
      ct_beats (store s') = <[hid := mkBeat hid (k_org c) hc ha (Some (ah_k8s req))
                                       (Some (ah_nodes req)) (ah_healthy req) now]>
                              (ct_beats (store s)) ∧
      ct_tokens (store s') = ct_tokens (store s) ∧
      one_more_event EventClusterHeartbeatReceived (k_org c) (store s) (store s')
  end.
Proof.
  unfold Agent_Heartbeat in H. destruct (String.eqb_spec hc ""); [by injection H as <- <-|].
  destruct (String.eqb_spec ha ""); [by injection H as <- <-|]. unfold bind at 1 in H.
  destruct (clusterValidator_ValidateCluster bypassrls hc ha s) as [r0 s0] eqn:Hv.
  apply ValidateCluster_same in Hv as (Hs0 & (_ & _ & Hc0) & Hr0).
  destruct r0 as [o|e]; [|by injection H as <- <-].
  destruct (Hr0 o eq_refl) as (row & Hrow & _ & _ & Ho).
  destruct (String.eqb_spec path hc); simpl in H; [|by injection H as <- <-].
  destruct body as [req|]; [|by injection H as <- <-].
  apply RecordHeartbeat_ensures in H as [_ H]. rewrite Hs0, Hc0 in H.
  destruct r as [u|e']; [|done]. split; [done|].
  destruct H as (_ & _ & _ & c & hid & Hc & Hco & Hl & Hag & Hfr & Hem). simpl in *.
  destruct (emitted_tables _ _ _ _ _ _ _ Hem) as (T1 & T2 & T3). simpl in T1, T2, T3.
  assert (c = row) as -> by congruence.
  exists row, req, hid. cbv zeta. split_and!; try done.
  - by apply negb_true_iff, String.eqb_neq in Hl.
  - eexists. split; [exact T1|]. done.
  - by rewrite T3, Hco.
  - apply emitted_event in Hem; [|done]. by rewrite Ho.
Qed.

Lemma Agent_Heartbeat_correct_witness :
  is_ok (Agent_Heartbeat true "id0" "agent-1" "id0" (Some cdemo_beat) cdemo_3).1 = true ∧
  ∃ c, ct_clusters (store cdemo_3) !! "id0"%string = Some c ∧ k_agent c = Some "agent-1"%string.
Proof.
  assert (Hok : is_ok (Agent_Heartbeat true "id0" "agent-1" "id0" (Some cdemo_beat) cdemo_3).1 = true)
    by (vm_compute; reflexivity).
  split; [exact Hok|].
  destruct (Agent_Heartbeat true "id0" "agent-1" "id0" (Some cdemo_beat) cdemo_3) as [r s'] eqn:E.
  destruct r as [u|e]; [|discriminate Hok].
  destruct (Agent_Heartbeat_correct true "id0" "agent-1" "id0" (Some cdemo_beat) cdemo_3 (Ok u) s'
              cdemo_wf_3 E) as (_ & c & req & hid & _ & _ & Hc & _ & Ha & _).
  exists c. split; [exact Hc|exact Ha].
Defined.

(** ** Disconnection *)

(** What marking a list of clusters leaves. *)
Definition disconnected_event (o : string) (row : OutboxRow cluster_payload) : Prop :=
  Type_ (ob_event row) = EventClusterDisconnected ∧ OrgID (ob_event row) = o ∧
  ob_published row = None.

Lemma marked_stale_tables o t now l db db' :
  marked_stale o t now l db db' → NoDup (k_id <$> l) →
  (∀ c, c ∈ l → ct_clusters db' !! k_id c = Some (clu_with_status ClusterDisconnected now c)) ∧
  (∀ k, k ∉ k_id <$> l → ct_clusters db' !! k = ct_clusters db !! k) ∧
  ct_tokens db' = ct_tokens db ∧ ct_beats db' = ct_beats db ∧
  ∃ rows, ct_outbox db' = ct_outbox db ++ rows ∧ length rows = length l ∧
    Forall (disconnected_event o) rows.
Proof.
  induction 1 as [db|c l at_ db db1 db' Hat Hc Ho Hst Hem Hms IH]; intros Hnd.
  { split_and!; try done; [by intros c Hc%elem_of_nil|]. exists []. by rewrite app_nil_r. }
  rewrite fmap_cons in *. apply NoDup_cons in Hnd as [Hni Hnd].
  destruct (IH Hnd) as (I1 & I2 & I3 & I4 & rows & I5 & I6 & I7).
  destruct (emitted_tables _ _ _ _ _ _ _ Hem) as (T1 & T2 & T3). simpl in T1, T2, T3.
  apply emitted_event in Hem as (row & R1 & R2 & R3 & R4); [|done]. simpl in R1. split_and!.
  - intros x [->|Hx]%elem_of_cons; [|by apply I1]. by rewrite I2, T1, lookup_insert_eq.
  - intros k [Hne Hk]%not_elem_of_cons. by rewrite I2, T1, lookup_insert_ne.
  - congruence.
  - congruence.
  - exists (row :: rows). rewrite I5, R1, <- app_assoc. simpl. split_and!; [done|lia|].
    by constructor.
Qed.

(** The disconnection sweep, whatever statement fails: an error leaves the
    database alone; a success has marked exactly the clusters whose last
    heartbeat is older than the timeout (five minutes if none is given) among
    the newest hundred connected ones of the tenant: those are disconnected, with
    one event each, and nothing else changes; if the tenant has at most a hundred
    connected clusters none is missed.  The number returned is theirs when
    nothing fails, and may be too large when the transaction was retried. *)
Theorem MarkDisconnected_correct `{CursorJSON} o timeout s r s' (Hu : proper_uuids s)
    (W : cwf (store s)) (H0 : Service_MarkDisconnected o timeout s = (r, s')) :
  match r with
  | Err _ => store s' = store s
  | Ok n =>
      let t := if timeout <=? 0 then 5 * GoTime.Minute else timeout in
      let connected := rows_where (λ c, visible o (k_org c) && String.eqb (k_status c) ClusterConnected)
                         (ct_clusters (store s)) in
      ∃ l rows, (length l ≤ n)%nat ∧ (quiet s → n = length l) ∧ NoDup (k_id <$> l) ∧
        (∀ c, c ∈ l → c ∈ connected ∧ ∃ at_, k_heartbeat c = Some at_ ∧ at_ < clock s - t) ∧
        ((length connected ≤ 100)%nat → ∀ c at_, c ∈ connected → k_heartbeat c = Some at_ →
           at_ < clock s - t → c ∈ l) ∧
        (∀ c, c ∈ l → ct_clusters (store s') !! k_id c
                      = Some (clu_with_status ClusterDisconnected (clock s) c)) ∧
        (∀ k, k ∉ k_id <$> l → ct_clusters (store s') !! k = ct_clusters (store s) !! k) ∧
        ct_tokens (store s') = ct_tokens (store s) ∧ ct_beats (store s') = ct_beats (store s) ∧
        ct_outbox (store s') = ct_outbox (store s) ++ rows ∧ length rows = length l ∧
        Forall (disconnected_event o) rows
  end.
Proof.
  apply MarkDisconnected_inv in H0 as [_ H0]; [|done..]. destruct r as [n|e]; [|done].
  destruct H0 as (_ & Hms & Hn & Hnq). cbv zeta in *. fold HeartbeatTimeout. fold (sweep_timeout timeout).
  set (t := sweep_timeout timeout) in *. set (p := λ c, visible o (k_org c) && _).
  set (l := filter _ _) in *.
  assert (Hnd : NoDup (k_id <$> l)).
  { eapply sublist_NoDup; [apply (swept_page_of o (store s) W)|].
    apply fmap_sublist, sublist_filter. }
  destruct (marked_stale_tables _ _ _ _ _ _ Hms Hnd) as (I1 & I2 & I3 & I4 & rows & I5 & I6 & I7).
  assert (Hl : ∀ c, c ∈ l ↔ stale (clock s - t) c = true ∧ c ∈ swept o (store s)).
  { intros c. unfold l. by rewrite list_elem_of_filter. }
  exists l, rows. split_and!; try done.
  - intros c (Hs & Hc)%Hl. unfold stale in Hs. split.
    + unfold swept in Hc. eapply elem_of_sublist in Hc; [|apply sublist_take].
      by rewrite order_desc_perm in Hc.
    + destruct (k_heartbeat c) as [at_|]; [|done]. exists at_. bool_to_prop. done.
  - intros Hlen c at_ Hc Hat Hlt. apply Hl. unfold stale. rewrite Hat. split; [by apply Z.ltb_lt|].
    unfold swept. fold p. rewrite take_ge; [by rewrite order_desc_perm|]. by rewrite order_desc_perm.
Qed.

Lemma MarkDisconnected_correct_witness :
  (Service_MarkDisconnected "acme" 0 (cdemo_session (store cdemo_3) 20 (1000 * GoTime.Hour))).1 = Ok 1%nat ∧
  ∃ l : list Cluster, length l = 1%nat.
Proof.
  set (s := cdemo_session (store cdemo_3) 20 (1000 * GoTime.Hour)).
  assert (Hok : (Service_MarkDisconnected "acme" 0 s).1 = Ok 1%nat) by (vm_compute; reflexivity).
  split; [exact Hok|]. destruct (Service_MarkDisconnected "acme" 0 s) as [r s'] eqn:E.
  simpl in Hok. subst r.
  assert (W : cwf (store s)) by (unfold s; rewrite cdemo_session_store; exact cdemo_wf_3).
  destruct (MarkDisconnected_correct "acme" 0 s (Ok 1%nat) s' (demo_uuids_of s eq_refl) W E)
    as (l & rows & _ & Hn & _).
  exists l. symmetry. exact (Hn eq_refl).
Defined.
