(* ===== verification/ClusterCompleteness.v ===== *)
(** * Agents are served

    The operations of [ClusterStore] without faults ([Total]), and with them:
    an agent with a valid token registers, and the agent of a live cluster can
    always report, whether or not the cluster was marked disconnected. *)

From S2P Require Import Prelude Json GoTime AppErrors Tx Events Pagination Authz ClusterStore.
From S2P Require Import Total ClusterService ClusterApi ClusterSpec ClusterFacts ClusterSteps.
From S2P Require Import ClusterCorrectness.
Open Scope Z_scope.
Open Scope tx_scope.
#[local] Opaque Sha256.Sum256.

Implicit Types s : Sess CDB COutside.

(** The identifiers still to be drawn are proper, distinct and unused. *)
Record cfresh_uuids (s : Sess CDB COutside) : Prop := {
  cf_proper : proper_uuids s;
  cf_inj : Inj (=) (=) (uuid_gen s);
  cf_unused n : (uuid_next s ≤ n)%nat →
    ct_beats (store s) !! uuid_gen s n = None ∧
    ∀ row, row ∈ ct_outbox (store s) →
      ob_id row ≠ uuid_gen s n ∧ EventID (ob_event row) ≠ uuid_gen s n }.

(** ** Statements *)
Lemma total_clu_GetByID id s c Q :
  healthy s → org s ≠ "" → ct_clusters (store s) !! id = Some c → k_org c = org s →
  live c = true → Q c s → total (clusterRepo_GetByID id) s Q.
Proof.
  intros Hh Ho Hc Hco Hl HQ. eapply total_QueryOne; [done| |exact HQ]. unfold row_at.
  rewrite Hc. simpl. rewrite (visible_true _ _ Ho Hco). by rewrite Hl.
Qed.

Lemma total_update_one f (e : goerr) s st (Q : unit → Sess CDB COutside → Prop) :
  healthy s → f (org s) (clock s) (store s) = inr (1%nat, st) → Q tt (set_store st s) →
  total (let* n := Exec f in require_rows n e) s Q.
Proof.
  intros Hh Hf Hk. apply total_bind, total_on_err.
  eapply total_stmt; [done|exact Hf|]. apply total_ret; [exact Hh|]. intros _. exact Hk.
Qed.

Lemma update_cluster_hit id f s c :
  org s ≠ "" → ct_clusters (store s) !! id = Some c → k_org c = org s →
  update_cluster id f (org s) (clock s) (store s)
  = inr (1%nat, put_clu id (f (clock s) c) (store s)).
Proof.
  intros Ho Hc Hco. unfold update_cluster, row_at. rewrite Hc. simpl.
  by rewrite (visible_true _ _ Ho Hco).
Qed.

Lemma update_token_hit id f s t :
  org s ≠ "" → ct_tokens (store s) !! id = Some t → tk_org t = org s →
  tk_status t = TokenStatusActive →
  update_active_token id f (org s) (clock s) (store s)
  = inr (1%nat, put_tok id (f (clock s) t) (store s)).
Proof.
  intros Ho Hc Hco Hst. unfold update_active_token, row_at. rewrite Hc. simpl.
  rewrite (visible_true _ _ Ho Hco). simpl. by rewrite Hst.
Qed.

(** An event more, and fresh identifiers left. *)
Definition enqueued s s' : Prop :=
  healthy s' ∧ same_env s s' ∧ cfresh_uuids s' ∧
  ∃ row, store s' = append_row row (store s).

(** An event of the service. *)
Lemma total_enqueue_cluster ty o p opts s (Q : unit → Sess CDB COutside → Prop) :
  healthy s → cfresh_uuids s → ty ≠ "" → o ≠ "" → neutral opts →
  (∀ s', enqueued s s' → Q tt s') → total (enqueue_cluster ty o p opts) s Q.
Proof.
  intros Hh [Hu Hi Hfr] Hty Ho Hn HQ. set (g := uuid_gen s) in *.
  destruct (Hn (mkEnvelope (g (uuid_next s)) ty clusterEventVersion o "" "" (clock s)
                  no_actor no_resource (Some p))) as (Hev & _).
  apply total_New_Enqueue; [done|..|apply HQ].
  - unfold new_row. simpl. rewrite neutral_valid by done. by apply proper_valid.
  - intros row Hrow. unfold new_row. simpl. fold g. rewrite Hev.
    split; [apply (Hfr (uuid_next s))|apply (Hfr (S (uuid_next s)))]; auto with lia.
  - split; [done|]. split; [done|]. split; [|by eexists]. split; [exact Hu|exact Hi|].
    intros n Hnx. simpl in Hnx. simpl. fold g. destruct (Hfr n) as [H1 H2]; [lia|].
    split; [exact H1|]. intros row [Hr|Hr%list_elem_of_singleton]%elem_of_app; [by apply H2|].
    subst row. unfold new_row. simpl. rewrite Hev. simpl.
    split; intros Heq%Hi; lia.
Qed.

(** ** The transactions *)
Lemma total_register_fresh req token s t c Q :
  healthy s → cfresh_uuids s → cwf (store s) → org s ≠ "" → tk_org token = org s →
  ct_tokens (store s) !! tk_id token = Some t → tk_org t = org s → tk_status t = TokenStatusActive →
  ct_clusters (store s) !! tk_cluster token = Some c → k_org c = org s → may_register c = true →
  (∀ s', Q (registered_view req (nonempty (ar_provider req)) (nonempty (ar_region req)) (clock s) c) s') →
  total (register_fresh req token (clock s)) s Q.
Proof.
  intros Hh Hf W Ho Hto Ht Hco Hst Hc Hcc Hmr HQ. unfold register_fresh.
  assert (Hl : live c = true).
  { unfold may_register in Hmr. unfold live. apply negb_true_iff, String.eqb_neq. intros Hd.
    by rewrite Hd in Hmr. }
  apply total_bind. eapply total_clu_GetByID; [done|done|exact Hc|done..|]. rewrite Hmr. simpl.
  assert (k_id c = tk_cluster token) as -> by (eapply cw_clu_key; eauto).
  apply total_bind. eapply total_update_one; [done|by eapply update_token_hit|].
  apply total_bind. eapply total_update_one; [done|by eapply update_cluster_hit|].
  apply total_bind, total_enqueue_cluster; try done.
  - split; [apply Hf|apply Hf|exact (cf_unused _ Hf)].
  - by rewrite Hto.
  - intros s' (Hs' & _). apply total_ret; [done|]. intros _ _ _ _. apply HQ.
Qed.

Lemma healthy_enter o s : healthy s → healthy (enter o s).
Proof. by intros [? _]. Qed.
#[local] Hint Resolve healthy_enter : core.

Lemma total_beat_Create h s (Q : unit → Sess CDB COutside → Prop) :
  let id := uuid_gen s (uuid_next s) in
  healthy s → org s ≠ "" → hb_id h = "" → hb_org h = org s → hb_org h ∈ ct_orgs (store s) →
  ct_beats (store s) !! id = None → is_Some (ct_clusters (store s) !! hb_cluster h) →
  Q tt (set_store (put_beat id (mkBeat id (hb_org h) (hb_cluster h) (hb_agent h) (hb_k8s h)
                                  (hb_nodes h) (hb_healthy h) (hb_received h)) (store s))
          (set_uuid_next (S (uuid_next s)) s)) →
  total (heartbeatRepo_Create h) s Q.
Proof.
  intros id Hh Ho Hid Hbo Horg Hfr Hcl HQ. unfold heartbeatRepo_Create.
  apply total_bind. rewrite Hid. apply total_create_id; [done|]. apply total_bind, total_on_err.
  eapply total_stmt; [done| |apply total_ret; [done|]; intros _ _; exact HQ].
  unfold insert_beat. simpl. rewrite (visible_true _ _ Ho Hbo). fold id. rewrite Hfr.
  rewrite bool_decide_false by (by intros [? [=]]). simpl. by rewrite !bool_decide_true.
Qed.

Lemma total_try {A} (m : CM A) s Q : total m s (λ a, Q (Ok a)) → total (try m) s Q.
Proof. intros (a & s' & Hm & ?). exists (Ok a), s'. unfold try. by rewrite Hm. Qed.

Lemma total_RecordHeartbeat o cluster req s c (Q : unit → Sess CDB COutside → Prop) :
  healthy s → cfresh_uuids s → o ≠ "" → o ∈ ct_orgs (store s) → ah_agent req ≠ "" →
  ct_clusters (store s) !! cluster = Some c → k_org c = o → live c = true →
  k_agent c = Some (ah_agent req) → (∀ s', healthy s' → Q tt s') →
  total (Service_RecordHeartbeat o cluster req) s Q.
Proof.
  intros Hh Hf Ho Horg Ha Hc Hco Hl Hag HQ. unfold Service_RecordHeartbeat.
  apply String.eqb_neq in Ha as Hab. rewrite Hab. apply total_bind. exists (clock s), s.
  split; [done|]. split; [done|]. split; [done|]. apply total_WithTenant; [done..|]. apply total_bind.
  eapply total_clu_GetByID; [auto|done|exact Hc|done..|]. rewrite Hag, String.eqb_refl. cbn [negb].
  apply total_bind, total_try, total_beat_Create; try done; [by apply healthy_enter|..].
  { apply (cf_unused _ Hf). simpl. lia. }
  apply total_bind. eapply total_update_one; [by apply healthy_enter|by eapply update_cluster_hit|].
  apply total_enqueue_cluster; try done; [by apply healthy_enter| |].
  - split; [apply Hf|apply Hf|]. intros n Hn. simpl in *.
    destruct (cf_unused _ Hf n) as [Hb Hr]; [lia|]. split; [|exact Hr].
    rewrite lookup_insert_ne; [exact Hb|]. intros Heq%(cf_inj _ Hf). lia.
  - intros s' ([Hq _] & _) _ _ _ _. apply HQ. split; [exact Hq|]. apply Hh.
Qed.

(** Reads on the pool. *)
Lemma total_lookup_token s k t Q :
  healthy s → cwf (store s) → ct_tokens (store s) !! k = Some t → Q t s →
  total (lookup_token true (tk_hash t)) s Q.
Proof. intros Hh W Hk HQ. exists t, s. rewrite (lookup_token_found s k t); [done|apply Hh|done|done]. Qed.

Lemma total_ValidateCluster hc ha s c (Q : string → Sess CDB COutside → Prop) :
  healthy s → ct_clusters (store s) !! hc = Some c → live c = true → k_agent c = Some ha →
  Q (k_org c) s → total (clusterValidator_ValidateCluster true hc ha) s Q.
Proof.
  intros Hh Hc Hl Hag HQ. exists (k_org c), s. split; [|done].
  unfold clusterValidator_ValidateCluster, bind, on_err, clusterRepo_GetByIDWithoutTenant.
  rewrite (autocommit_one _ _ c); [|by destruct Hh|by rewrite Hc]. cbn [map_err].
  unfold live in Hl. destruct (String.eqb_spec (k_status c) ClusterDeleted); [done|].
  by rewrite Hag, String.eqb_refl.
Qed.

(** Recovery of a live cluster. *)
Lemma total_recover s token requested source c a (Q : Cluster → Sess CDB COutside → Prop) :
  healthy s → cfresh_uuids s → ct_clusters (store s) !! tk_cluster token = Some c → live c = true →
  k_agent c = Some a → a ≠ "" → k_org c ≠ "" → (∀ s', enqueued s s' → Q c s') →
  total (recoverRegisteredCluster true token requested source) s Q.
Proof.
  intros Hh Hf Hc Hl Ha Hne Ho HQ. unfold recoverRegisteredCluster. apply total_bind, total_on_err.
  exists c, s. split.
  { unfold clusterRepo_GetByIDWithoutTenant. apply autocommit_one; [apply Hh|by rewrite Hc]. }
  split; [done|]. split; [done|].
  unfold live in Hl. destruct (String.eqb_spec (k_status c) ClusterDeleted); [done|]. rewrite Ha. simpl.
  apply String.eqb_neq in Hne. rewrite !Hne.
  apply total_bind, total_try, total_WithTenant; [done|done|].
  apply total_enqueue_cluster; try done; [by apply healthy_enter|..].
  - split; [apply Hf|apply Hf|exact (cf_unused _ Hf)].
  - intros s' ([Hq Hab] & (_ & Hg & Hck) & [F1 F2 F3] & row & Hst).
    assert (Hen : enqueued s (leave s s')).
    { split; [split; [exact Hq|apply Hh]|]. split; [done|]. split; [by split|]. by exists row. }
    apply total_ret; [apply Hen|]. intros _ _. by apply HQ.
Qed.

(** Registering with a used token. *)
Lemma total_RegisterAgent_used req s kt t c a (Q : Cluster → Sess CDB COutside → Prop) :
  healthy s → cfresh_uuids s → cwf (store s) → ct_tokens (store s) !! kt = Some t →
  tk_status t = TokenStatusUsed → tk_hash t = hashToken (ar_token req) →
  ar_token req ≠ "" → ar_agent req ≠ "" →
  ct_clusters (store s) !! tk_cluster t = Some c → live c = true → k_agent c = Some a →
  k_org c ≠ "" → (∀ s', enqueued s s' → Q c s') → total (Service_RegisterAgent true req) s Q.
Proof.
  intros Hh Hf W Ht Hu Hhash Htok Hag Hc Hl Ha Ho HQ. unfold Service_RegisterAgent.
  apply String.eqb_neq in Htok, Hag. rewrite Htok, Hag. simpl.
  apply total_bind. exists (clock s), s. split; [done|]. split; [done|]. split; [done|].
  rewrite <- Hhash. apply total_bind. eapply total_lookup_token; [done|done|exact Ht|].
  rewrite Hu. simpl. eapply total_recover; try done.
  - by eapply cw_agent.
  - intros s' Hs' _ _. by apply HQ.
Qed.

Lemma total_Agent_Heartbeat hc ha req s c (Q : unit → Sess CDB COutside → Prop) :
  healthy s → cfresh_uuids s → ct_clusters (store s) !! hc = Some c → live c = true →
  k_agent c = Some ha → hc ≠ "" → ha ≠ "" → k_org c ≠ "" → k_org c ∈ ct_orgs (store s) →
  (∀ s', healthy s' → Q tt s') → total (Agent_Heartbeat true hc ha hc (Some req)) s Q.
Proof.
  intros Hh Hf Hc Hl Hag Hhc Hha Ho Horg HQ. unfold Agent_Heartbeat.
  apply String.eqb_neq in Hhc, Hha as Hhb. rewrite Hhc, Hhb.
  apply total_bind. eapply total_ValidateCluster; [done..|]. rewrite String.eqb_refl. cbn [negb].
  apply total_bind, total_ret; [done|].
  eapply total_RecordHeartbeat; try done. intros s' Hs' _ _. by apply HQ.
Qed.

(** ** Properties *)

(** An agent is let in: without faults, presenting an active token before
    it expires, for a cluster that is pending or disconnected, registers the
    agent and connects the cluster. *)
Theorem registration_served req s kt t c
    (Hh : healthy s) (Hf : cfresh_uuids s) (W : cwf (store s))
    (Ht : ct_tokens (store s) !! kt = Some t) (Hst : tk_status t = TokenStatusActive)
    (Hhash : tk_hash t = hashToken (ar_token req)) (Hexp : clock s ≤ tk_expires t)
    (Hc : ct_clusters (store s) !! tk_cluster t = Some c) (Hmr : may_register c = true)
    (Ho : tk_org t ≠ "") (Htok : ar_token req ≠ "") (Ha : ar_agent req ≠ "") :
  ∃ c', (Service_RegisterAgent true req s).1 = Ok c' ∧ k_id c' = tk_cluster t ∧
    k_status c' = ClusterConnected ∧ k_agent c' = Some (ar_agent req).
Proof.
  unfold Service_RegisterAgent. apply String.eqb_neq in Htok, Ha. rewrite Htok, Ha. simpl.
  unfold bind, now_. destruct Hh as [Hq Hab].
  pose proof (lookup_token_found s kt t Hq W Ht) as Hl. rewrite Hhash in Hl. rewrite Hl, Hst. simpl.
  destruct (Z.ltb_spec (tk_expires t) (clock s)); [lia|].
  assert (Htk : tk_id t = kt) by (eapply cw_tok_key; eauto).
  assert (Hco : k_org c = tk_org t).
  { destruct (cw_token _ W _ _ Ht) as (c' & Hc' & ?). congruence. }
  assert (Htot : total (WithTenant (tk_org t) (register_fresh req t (clock s))) s (λ c' _,
    c' = registered_view req (nonempty (ar_provider req)) (nonempty (ar_region req)) (clock s) c)).
  { apply total_WithTenant; [done..|].
    change (register_fresh req t (clock s)) with (register_fresh req t (clock (enter (tk_org t) s))).
    eapply total_register_fresh; try done; [|by rewrite Htk].
    split; [apply Hf|apply Hf|exact (cf_unused _ Hf)]. }
  destruct Htot as (c' & s' & -> & _ & _ & ->). exists (registered_view req
    (nonempty (ar_provider req)) (nonempty (ar_region req)) (clock s) c).
  split_and!; try done. simpl. by eapply cw_clu_key.
Qed.

(** The scenario of [ClusterCorrectness] draws fresh identifiers. *)
Definition call_drawn (next : nat) (db : CDB) : bool :=
  forallb (drawn next) (map_to_list (ct_beats db)).*1 &&
  forallb (λ row, drawn next (ob_id row) && drawn next (EventID (ob_event row))) (ct_outbox db).

Lemma cdemo_fresh s :
  uuid_gen s = demo_uuid → call_drawn (uuid_next s) (store s) = true → cfresh_uuids s.
Proof.
  intros Hu [Hb Ho]%andb_true_iff. split; rewrite ?Hu; [by apply demo_uuids_of|apply demo_uuid_inj|].
  intros n Hn. split; [by eapply drawn_keys|]. intros row Hrow. rewrite forallb_forall in Ho.
  apply list_elem_of_In, Ho, andb_true_iff in Hrow as [H1 H2]. split; by eapply drawn_spec.
Qed.

Lemma registration_served_witness :
  ∃ c, (Service_RegisterAgent true cdemo_register cdemo_2).1 = Ok c ∧
    k_status c = ClusterConnected ∧ k_agent c = Some "agent-1"%string.
Proof.
  destruct (lookup_computed (ct_tokens (store cdemo_2) !! "id4"%string) (λ t,
      String.eqb (tk_status t) TokenStatusActive && String.eqb (tk_hash t) (hashToken cdemo_token) &&
      (1000 <=? tk_expires t) && String.eqb (tk_cluster t) "id0" && String.eqb (tk_org t) "acme"))
    as (t & Ht & Hb); [vm_compute; reflexivity|].
  apply andb_true_iff in Hb as [[[[Hst Hh]%andb_true_iff Hx]%andb_true_iff Hcl]%andb_true_iff Ho].
  apply String.eqb_eq in Hst, Hh, Hcl, Ho. apply Z.leb_le in Hx.
  destruct (lookup_computed (ct_clusters (store cdemo_2) !! "id0"%string) may_register) as (c & Hc & Hmr);
    [vm_compute; reflexivity|]. rewrite <- Hcl in Hc.
  assert (Hclk : clock cdemo_2 = 1000) by (vm_compute; reflexivity). rewrite <- Hclk in Hx.
  assert (Hh2 : healthy cdemo_2) by (split; vm_compute; reflexivity).
  assert (Hf : cfresh_uuids cdemo_2) by (apply cdemo_fresh; vm_compute; reflexivity).
  destruct (registration_served cdemo_register cdemo_2 "id4" t c Hh2 Hf cdemo_wf_2 Ht Hst Hh Hx Hc Hmr)
    as (c' & H1 & _ & H3 & H4); [rewrite Ho; discriminate|discriminate|discriminate|].
  exists c'. split; [exact H1|]. split; [exact H3|exact H4].
Defined.

(** A registered agent stays in touch: without faults, the heartbeat of the
    agent of a live cluster is accepted whatever the status of the cluster, and
    with [Agent_Heartbeat_correct] a cluster that was marked disconnected is
    connected again. *)
Theorem heartbeat_served hc ha req s c
    (Hh : healthy s) (Hf : cfresh_uuids s)
    (Hc : ct_clusters (store s) !! hc = Some c) (Hl : live c = true)
    (Hag : k_agent c = Some ha) (Hhc : hc ≠ "") (Hha : ha ≠ "") (Ho : k_org c ≠ "")
    (Horg : k_org c ∈ ct_orgs (store s)) :
  (Agent_Heartbeat true hc ha hc (Some req) s).1 = Ok tt.
Proof.
  destruct (total_Agent_Heartbeat hc ha req s c (λ _ _, True)) as ([] & s' & -> & _); done.
Qed.

(** The cluster of the scenario, marked disconnected by the sweep long after. *)
Definition cdemo_late := cdemo_session (store cdemo_3) 20 (1000 * GoTime.Hour).
Definition cdemo_swept := (cperform true (CSweep "acme" 0) cdemo_late).2.

Lemma heartbeat_served_witness :
  ∃ c, ct_clusters (store cdemo_swept) !! "id0"%string = Some c ∧
    k_status c = ClusterDisconnected ∧
    (Agent_Heartbeat true "id0" "agent-1" "id0" (Some cdemo_beat) cdemo_swept).1 = Ok tt.
Proof.
  destruct (lookup_computed (ct_clusters (store cdemo_swept) !! "id0"%string) (λ c,
      String.eqb (k_status c) ClusterDisconnected && bool_decide (k_agent c = Some "agent-1"%string) &&
      String.eqb (k_org c) "acme")) as (c & Hc & Hb); [vm_compute; reflexivity|].
  apply andb_true_iff in Hb as [[Hst Ha]%andb_true_iff Ho]. apply String.eqb_eq in Hst, Ho.
  apply bool_decide_eq_true in Ha. exists c. split; [exact Hc|]. split; [exact Hst|].
  assert (Hh : healthy cdemo_swept) by (split; vm_compute; reflexivity).
  assert (Hf : cfresh_uuids cdemo_swept) by (apply cdemo_fresh; vm_compute; reflexivity).
  assert (Horg : bool_decide ("acme"%string ∈ ct_orgs (store cdemo_swept)) = true)
    by (vm_compute; reflexivity).
  apply bool_decide_eq_true in Horg.
  assert (Hl : live c = true) by (unfold live; rewrite Hst; reflexivity).
  assert (Hn : k_org c ≠ "") by (rewrite Ho; discriminate). rewrite <- Ho in Horg.
  exact (heartbeat_served "id0" "agent-1" cdemo_beat cdemo_swept c Hh Hf Hc Hl Ha
           ltac:(discriminate) ltac:(discriminate) Hn Horg).
Defined.
