(* ===== verification/Relational.v ===== *)
(** * Runs that cannot be told apart

    A relational logic for the transactions of [Tx].  Two sessions are [low]
    related when their stores are related by [L] and everything else (tenant,
    failures, identifiers, clock, outside) is the same; [sim R] relates two
    computations that map related sessions to related sessions and to the same
    error or to results related by [R].  What [L] leaves out can then not
    influence what a caller sees.  The second half transfers scans, filters and
    sorts of tables along a function that blanks a part of each row. *)

From S2P Require Import Prelude AppErrors Tx Events Pagination Repository Outbox.
From stdpp Require Import sorting.
Open Scope Z_scope.
Open Scope tx_scope.

Inductive rel_result {A B} (R : A → B → Prop) : result goerr A → result goerr B → Prop :=
| rel_Ok a b : R a b → rel_result R (Ok a) (Ok b)
| rel_Err e : rel_result R (Err e) (Err e).

Lemma rel_result_mono {A B} (R R' : A → B → Prop) r1 r2 :
  rel_result R r1 r2 → (∀ a b, R a b → R' a b) → rel_result R' r1 r2.
Proof. intros [a b Hab|e] HR; constructor; auto. Qed.

Section Relational.
Context {S W : Type} (L : S → S → Prop).
Implicit Types s : Sess S W.

Definition low s1 s2 : Prop := L (store s1) (store s2) ∧ s2 = set_store (store s2) s1.

Definition sim {A B} (R : A → B → Prop) (m1 : M S W A) (m2 : M S W B) : Prop :=
  ∀ s1 s2, low s1 s2 → rel_result R (m1 s1).1 (m2 s2).1 ∧ low (m1 s1).2 (m2 s2).2.

(** What a related pair looks like. *)
Lemma low_inv s1 s2 : low s1 s2 →
  ∃ a b o ab fs g n c w, s1 = mkSess a o ab fs g n c w ∧ s2 = mkSess b o ab fs g n c w ∧ L a b.
Proof. destruct s1, s2. intros [HL Heq]. injection Heq as <- <- <- <- <- <- <-. eauto 15. Qed.
Lemma low_intro a b o ab fs g n c w : L a b → low (mkSess a o ab fs g n c w) (mkSess b o ab fs g n c w).
Proof. done. Qed.

(** ** The monad *)
Lemma sim_ret {A B} (R : A → B → Prop) a b : R a b → sim R (ret a) (ret b).
Proof. intros HR s1 s2 Hs. by split; [constructor|]. Qed.
Lemma sim_fail {A B} (R : A → B → Prop) e : sim R (fail e) (fail e).
Proof. intros s1 s2 Hs. by split; [constructor|]. Qed.
Lemma sim_bind {A B A' B'} (R : A → B → Prop) (R' : A' → B' → Prop)
    (m1 : M S W A) (m2 : M S W B) (k1 : A → M S W A') (k2 : B → M S W B') :
  sim R m1 m2 → (∀ a b, R a b → sim R' (k1 a) (k2 b)) → sim R' (bind m1 k1) (bind m2 k2).
Proof.
  intros Hm Hk s1 s2 Hs. unfold bind. destruct (Hm s1 s2 Hs) as [Hr Hs'].
  destruct (m1 s1) as [r1 t1], (m2 s2) as [r2 t2]. simpl in *.
  destruct Hr as [a b Hab|e]; [by apply Hk|by split; [constructor|]].
Qed.
Lemma sim_try {A B} (R : A → B → Prop) (m1 : M S W A) (m2 : M S W B) :
  sim R m1 m2 → sim (rel_result R) (try m1) (try m2).
Proof.
  intros Hm s1 s2 Hs. unfold try. destruct (Hm s1 s2 Hs) as [Hr Hs'].
  destruct (m1 s1) as [r1 t1], (m2 s2) as [r2 t2]. simpl in *. by split; [constructor|].
Qed.
Lemma sim_on_err {A B} (R : A → B → Prop) (m1 : M S W A) (m2 : M S W B) f :
  sim R m1 m2 → sim R (on_err m1 f) (on_err m2 f).
Proof.
  intros Hm s1 s2 Hs. unfold on_err. destruct (Hm s1 s2 Hs) as [Hr Hs'].
  destruct (m1 s1) as [r1 t1], (m2 s2) as [r2 t2]. simpl in *.
  split; [by destruct Hr; constructor|done].
Qed.
Lemma sim_mono {A B} (R R' : A → B → Prop) (m1 : M S W A) (m2 : M S W B) :
  sim R m1 m2 → (∀ a b, R a b → R' a b) → sim R' m1 m2.
Proof.
  intros Hm HR s1 s2 Hs. destruct (Hm s1 s2 Hs) as [Hr Hs']. split; [by eapply rel_result_mono|done].
Qed.
Lemma sim_uuid : sim eq uuid_NewString uuid_NewString.
Proof.
  intros s1 s2 (a & b & o & ab & fs & g & n & c & w & -> & -> & HL)%low_inv.
  split; [by constructor|by apply low_intro].
Qed.
Lemma sim_now : sim eq now_ now_.
Proof.
  intros s1 s2 (a & b & o & ab & fs & g & n & c & w & -> & -> & HL)%low_inv.
  split; [by constructor|by apply low_intro].
Qed.
Lemma sim_check o : sim eq (check o) (check o).
Proof. unfold check. destruct o; [apply sim_fail|by apply sim_ret]. Qed.

(** ** Statements *)
Definition rel_row {A B} (R : A → B → Prop) (r1 : string + A * S) (r2 : string + B * S) : Prop :=
  match r1, r2 with
  | inl c1, inl c2 => c1 = c2
  | inr (a, d1), inr (b, d2) => R a b ∧ L d1 d2
  | _, _ => False
  end.

Lemma sim_stmt {A B} (R : A → B → Prop) f1 f2 :
  (∀ o now d1 d2, L d1 d2 → rel_row R (f1 o now d1) (f2 o now d2)) →
  sim R (@stmt S W A f1) (@stmt S W B f2).
Proof.
  intros Hf s1 s2 (a & b & o & ab & fs & g & n & c & w & -> & -> & HL)%low_inv.
  unfold stmt, pop_fault. simpl. destruct ab; [by split; [constructor|apply low_intro]|].
  specialize (Hf o c a b HL).
  destruct fs as [|[e|] fs]; simpl; [|by split; [constructor|apply low_intro]|];
    (destruct (f1 o c a) as [c1|[x d1]], (f2 o c b) as [c2|[y d2]]; simpl in *; try done;
     [subst; by split; [constructor|apply low_intro]
     |destruct Hf; by split; [constructor|apply low_intro]]).
Qed.

(** ** Transactions *)
Lemma sim_applyTenant o : sim eq (applyTenant o) (applyTenant o).
Proof.
  intros s1 s2 Hs. unfold applyTenant. destruct (String.eqb o ""); [by split; [constructor|]|].
  assert (Hst : sim eq (@stmt S W unit (λ _ _ st, inr (tt, st))) (stmt (λ _ _ st, inr (tt, st))))
    by (by apply sim_stmt).
  destruct (Hst s1 s2 Hs) as [Hr Hs'].
  destruct (stmt _ s1) as [r1 t1], (stmt _ s2) as [r2 t2]. simpl in *.
  destruct Hr; (split; [by constructor|]); [|done].
  apply low_inv in Hs' as (a1 & b1 & o1 & ab & fs & g & n & c & w & -> & -> & HL). by apply low_intro.
Qed.

Lemma low_pop s1 s2 : low s1 s2 →
  (pop_fault s1).1 = (pop_fault s2).1 ∧ low (pop_fault s1).2 (pop_fault s2).2.
Proof.
  intros (a & b & o & ab & fs & g & n & c & w & -> & -> & HL)%low_inv.
  unfold pop_fault. by destruct fs as [|f fs].
Qed.
Lemma low_rollback s1 s2 t1 t2 : low s1 s2 → low t1 t2 → low (rollback s1 t1) (rollback s2 t2).
Proof.
  intros (a & b & o & ab & fs & g & n & c & w & -> & -> & HL)%low_inv
    (a' & b' & o' & ab' & fs' & g' & n' & c' & w' & -> & -> & HL')%low_inv. by apply low_intro.
Qed.
Lemma low_leave s1 s2 t1 t2 : low s1 s2 → low t1 t2 → low (leave s1 t1) (leave s2 t2).
Proof.
  intros (a & b & o & ab & fs & g & n & c & w & -> & -> & HL)%low_inv
    (a' & b' & o' & ab' & fs' & g' & n' & c' & w' & -> & -> & HL')%low_inv. by apply low_intro.
Qed.
Lemma low_begin s1 s2 : low s1 s2 → low (set_org "" (set_aborted false s1)) (set_org "" (set_aborted false s2)).
Proof.
  intros (a & b & o & ab & fs & g & n & c & w & -> & -> & HL)%low_inv. by apply low_intro.
Qed.
Lemma low_commit s1 s2 t1 t2 : low s1 s2 → low t1 t2 →
  (commit s1 t1).1 = (commit s2 t2).1 ∧ low (commit s1 t1).2 (commit s2 t2).2.
Proof.
  intros Hs Ht. unfold commit. destruct (low_pop _ _ Ht) as [He Hp].
  destruct (pop_fault t1) as [e1 u1], (pop_fault t2) as [e2 u2]. simpl in *. subst e2.
  destruct e1 as [e|]; [by split; [|apply low_rollback]|].
  assert (aborted u1 = aborted u2) as <- by (by destruct Hp as [_ ->]).
  destruct (aborted u1); (split; [done|]); [by apply low_rollback|by apply low_leave].
Qed.

Lemma sim_runTx {A B} (R : A → B → Prop) o (fn1 : M S W A) (fn2 : M S W B) :
  sim R fn1 fn2 → sim R (runTx o fn1) (runTx o fn2).
Proof.
  intros Hf s1 s2 Hs. unfold runTx. destruct (low_pop _ _ Hs) as [He Hp].
  destruct (pop_fault s1) as [e1 u1], (pop_fault s2) as [e2 u2]. simpl in *. subst e2.
  destruct e1 as [e|]; [by split; [constructor|]|].
  assert (Hb : sim R (bind (applyTenant o) (λ _, fn1)) (bind (applyTenant o) (λ _, fn2)))
    by (by eapply sim_bind; [apply sim_applyTenant|]).
  destruct (Hb _ _ (low_begin _ _ Hp)) as [Hr Ht].
  destruct (bind _ _ (set_org "" (set_aborted false u1))) as [r1 t1],
    (bind _ _ (set_org "" (set_aborted false u2))) as [r2 t2]. simpl in *.
  destruct Hr as [a b Hab|e]; [|by split; [constructor|apply low_rollback]].
  destruct (low_commit _ _ _ _ Hp Ht) as [Hc Hl].
  destruct (commit u1 t1) as [c1 v1], (commit u2 t2) as [c2 v2]. simpl in *. subst c2.
  destruct c1; by split; [constructor|].
Qed.

Lemma sim_attempts {A B} (R : A → B → Prop) n last o (fn1 : M S W A) (fn2 : M S W B) :
  sim R fn1 fn2 → sim R (tx_attempts n last o fn1) (tx_attempts n last o fn2).
Proof.
  intros Hf. revert last. induction n as [|n IH]; intros last s1 s2 Hs; simpl;
    [by split; [constructor|]|].
  destruct (sim_runTx R o fn1 fn2 Hf s1 s2 Hs) as [Hr Ht].
  destruct (runTx o fn1 s1) as [r1 t1], (runTx o fn2 s2) as [r2 t2]. simpl in *.
  destruct Hr as [a b Hab|e]; [by split; [constructor|]|].
  destruct (isRetryable e); [by apply IH|by split; [constructor|]].
Qed.
Lemma sim_WithTenant {A B} (R : A → B → Prop) o (fn1 : M S W A) (fn2 : M S W B) :
  sim R fn1 fn2 → sim R (WithTenant o fn1) (WithTenant o fn2).
Proof. intros Hf. unfold WithTenant. destruct (String.eqb o ""); [apply sim_fail|by apply sim_attempts]. Qed.

(** ** Queries and events *)
Lemma sim_query {A B} (R : A → B → Prop) q1 q2 :
  (∀ o d1 d2, L d1 d2 → R (q1 o d1) (q2 o d2)) →
  sim R (@stmt S W A (λ o _ db, inr (q1 o db, db))) (@stmt S W B (λ o _ db, inr (q2 o db, db))).
Proof. intros Hq. apply sim_stmt. intros o now d1 d2 HL. split; auto. Qed.
Lemma sim_QueryRow {A B} (R : A → B → Prop) (q1 : string → S → list A) (q2 : string → S → list B) :
  (∀ o d1 d2, L d1 d2 → Forall2 R (q1 o d1) (q2 o d2)) → sim R (QueryRow q1) (QueryRow q2).
Proof.
  intros Hq. eapply sim_bind; [by apply sim_query|].
  intros l1 l2 [|a b l1' l2' Hab _]; [apply sim_fail|by apply sim_ret].
Qed.
Lemma sim_require_rows n e : sim eq (require_rows n e) (require_rows n e).
Proof. unfold require_rows. case_match; [apply sim_fail|by apply sim_ret]. Qed.

Context {P : Type} `{!OutboxTable S P}.
Hypothesis L_outbox : ∀ d1 d2, L d1 d2 →
  outbox_rows d1 = outbox_rows d2 ∧ ∀ l, L (set_outbox_rows l d1) (set_outbox_rows l d2).

Lemma sim_events_New ty v o (p : P) opts : sim eq (events_New ty v o p opts) (events_New ty v o p opts).
Proof using.
  unfold events_New. eapply sim_bind; [apply sim_uuid|]. intros eid ? <-.
  eapply sim_bind; [apply sim_now|]. intros now ? <-.
  destruct (New_envelope _ _ _ _ _ _ _); [by apply sim_ret|apply sim_fail].
Qed.
Lemma sim_Enqueue (e : Envelope P) :
  sim eq (PostgresOutbox_Enqueue (S := S) (W := W) e) (PostgresOutbox_Enqueue e).
Proof using L_outbox.
  unfold PostgresOutbox_Enqueue. destruct (Validate e); [apply sim_fail|].
  eapply sim_bind; [apply sim_uuid|]. intros row_id ? <-. apply sim_on_err, sim_stmt.
  intros o now d1 d2 HL. destruct (L_outbox d1 d2 HL) as [Ho Hs].
  unfold insert_outbox. rewrite Ho. case_match; [done|]. split; [done|apply Hs].
Qed.
Lemma sim_emit v ty o (p : P) opts :
  sim eq (let* e := events_New ty v o p opts in PostgresOutbox_Enqueue e)
    (let* e := events_New (S := S) (W := W) ty v o p opts in PostgresOutbox_Enqueue e).
Proof using L_outbox. eapply sim_bind; [apply sim_events_New|]. intros e ? <-. apply sim_Enqueue. Qed.
End Relational.

(** ** Statements that commute with blanking *)

(** The outcome of a statement, its store and its result blanked. *)
Definition blank_row {S A B} (g : A → B) (E : S → S) (r : string + A * S) : string + B * S :=
  match r with inl c => inl c | inr (a, d) => inr (g a, E d) end.

Lemma sim_blank {S W A B C} (E : S → S) (g1 : A → C) (g2 : B → C) f1 f2
    (h : string → Z → S → string + C * S) :
  (∀ o now d, blank_row g1 E (f1 o now d) = h o now (E d)) →
  (∀ o now d, blank_row g2 E (f2 o now d) = h o now (E d)) →
  sim (W := W) (λ d1 d2, E d1 = E d2) (λ a b, g1 a = g2 b) (stmt f1) (stmt f2).
Proof.
  intros H1 H2. apply sim_stmt. intros o now d1 d2 Hd.
  specialize (H1 o now d1). specialize (H2 o now d2). rewrite Hd, <- H2 in H1.
  destruct (f1 o now d1) as [c1|[a d1']], (f2 o now d2) as [c2|[b d2']]; simpl in *; try done.
  - by injection H1.
  - by injection H1.
Qed.

(** ** Tables with a part of each row blanked *)
Section Blank.
Context {A : Type} (f : A → A).

Lemma Forall2_blank {B} (g : A → B) (l1 l2 : list A) : g <$> l1 = g <$> l2 → Forall2 (λ x y, g x = g y) l1 l2.
Proof.
  revert l2. induction l1 as [|x l1 IH]; intros [|y l2]; try done. rewrite !fmap_cons.
  intros [= Hxy Hl]. constructor; auto.
Qed.
Lemma existsb_fmap (p : A → bool) (l : list A) : (∀ x, p (f x) = p x) →
  existsb p (f <$> l) = existsb p l.
Proof. intros Hp. induction l as [|x l IH]; [done|]. rewrite fmap_cons. cbn [existsb]. by rewrite Hp, IH. Qed.
Lemma row_at_fmap {K} `{Countable K} (g : A → string) o (k : K) (m : gmap K A) :
  (∀ x, g (f x) = g x) → row_at g o k (f <$> m) = f <$> row_at g o k m.
Proof.
  intros Hg. unfold row_at. rewrite lookup_fmap. destruct (m !! k) as [x|]; simpl; [|done].
  rewrite Hg. by destruct (visible o (g x)).
Qed.
Lemma is_Some_fmap {K} `{Countable K} (k : K) (m : gmap K A) :
  bool_decide (is_Some ((f <$> m) !! k)) = bool_decide (is_Some (m !! k)).
Proof. apply bool_decide_ext. by rewrite lookup_fmap, fmap_is_Some. Qed.

Lemma filter_fmap (p : A → bool) (l : list A) : (∀ x, p (f x) = p x) →
  filter (λ x, p x = true) (f <$> l) = f <$> filter (λ x, p x = true) l.
Proof.
  intros Hp. induction l as [|x l IH]; [done|]. rewrite fmap_cons, !filter_cons, IH.
  destruct (decide (p (f x) = true)), (decide (p x = true)); try done; congruence.
Qed.
Lemma rows_where_fmap {K} `{Countable K} (p : A → bool) (m : gmap K A) : (∀ x, p (f x) = p x) →
  rows_where p (f <$> m) = f <$> rows_where p m.
Proof.
  intros Hp. unfold rows_where. rewrite <- filter_fmap by done. f_equal.
  rewrite map_to_list_fmap, <- !list_fmap_compose. by apply list_fmap_ext; intros ? [].
Qed.

Context (R : A → A → Prop) `{∀ x y, Decision (R x y)} (HR : ∀ x y, R (f x) (f y) ↔ R x y).
Lemma list_merge_fmap l1 l2 : list_merge R (f <$> l1) (f <$> l2) = f <$> list_merge R l1 l2.
Proof using HR.
  revert l2. induction l1 as [|x l1 IH1]; intros l2; [by destruct l2|].
  induction l2 as [|y l2 IH2]; [done|]. simpl in *.
  destruct (decide (R (f x) (f y))) as [Hf|Hf], (decide (R x y)) as [Hr|Hr];
    rewrite HR in Hf; try done; rewrite fmap_cons; f_equal; [apply (IH1 (y :: l2))|exact IH2].
Qed.
#[local] Abbreviation fstack := (fmap (M := list) (fmap (M := option) (fmap (M := list) f))).
Lemma merge_list_to_stack_fmap (st : list (option (list A))) (l : list A) :
  merge_list_to_stack R (fstack st) (f <$> l) = fstack (merge_list_to_stack R st l).
Proof using HR.
  revert l. induction st as [|[l'|] st IH]; intros l; simpl; [done| |done].
  by rewrite list_merge_fmap, IH.
Qed.
Lemma merge_stack_fmap (st : list (option (list A))) : merge_stack R (fstack st) = f <$> merge_stack R st.
Proof using HR.
  induction st as [|[l|] st IH]; simpl; [done| |done]. by rewrite <- list_merge_fmap, <- IH.
Qed.
Lemma merge_sort_fmap (l : list A) : merge_sort R (f <$> l) = f <$> merge_sort R l.
Proof using HR.
  unfold merge_sort. change (@nil (option (list A))) with (fstack (@nil (option (list A)))) at 1.
  generalize (@nil (option (list A))). induction l as [|x l IH]; intros st; simpl.
  - apply merge_stack_fmap.
  - change [f x] with (f <$> [x]). by rewrite merge_list_to_stack_fmap, IH.
Qed.
End Blank.
