(* ===== verification/Encodings.v ===== *)
(** * Base64 in its standard alphabet

    [base64.StdEncoding] and [base64.RawStdEncoding] of the Go standard library,
    over the URL alphabet of [Pagination], and that what is encoded can be read
    back. *)

From S2P Require Import Prelude Json Pagination.
Open Scope Z_scope.

(** [base64.StdEncoding]: the URL alphabet with + and / for - and _, padded. *)
Module StdBase64.
Definition to_std (c : Z) : Z := if c =? 45 then 43 else if c =? 95 then 47 else c.
Definition of_std (c : Z) : option Z :=
  if (c =? 45) || (c =? 95) then None
  else Some (if c =? 43 then 45 else if c =? 47 then 95 else c).
Definition padding (n : nat) : list Z :=
  repeat 61 (match n mod 3 with 1%nat => 2 | 2%nat => 1 | _ => 0 end)%nat.
Definition encode (bs : list Z) : list Z := (to_std <$> Base64.encode bs) ++ padding (length bs).
(** Line breaks are ignored; what is left must be whole quanta, of which the
    last may be padded. *)
Definition unpad (cs : list Z) : list Z :=
  match rev cs with
  | 61 :: 61 :: r => rev r
  | 61 :: r => rev r
  | _ => cs
  end.
Definition decode (cs : list Z) : option (list Z) :=
  let cs := filter (λ c, c ≠ 10 ∧ c ≠ 13) cs in
  if (length cs mod 4 =? 0)%nat
  then mapM of_std (unpad cs) ≫= Base64.decode
  else None.
(** [base64.RawStdEncoding]: without padding. *)
Definition raw_encode (bs : list Z) : list Z := to_std <$> Base64.encode bs.
Definition raw_decode (cs : list Z) : option (list Z) :=
  mapM of_std (filter (λ c, c ≠ 10 ∧ c ≠ 13) cs) ≫= Base64.decode.
End StdBase64.

Definition is_bytes (l : list Z) : Prop := Forall (λ b, 0 ≤ b < 256) l.

(** A character of the encoding: its standard form is read back, is a byte, no
    line break and no padding. *)
Lemma std_char_ok v : 0 ≤ v < 64 →
  let c := StdBase64.to_std (Base64.enc_char v) in
  StdBase64.of_std c = Some (Base64.enc_char v) ∧ 0 ≤ c < 256 ∧ c ≠ 10 ∧ c ≠ 13 ∧ c ≠ 61.
Proof.
  apply (Base64.sextets (λ v, let c := StdBase64.to_std (Base64.enc_char v) in
    StdBase64.of_std c = Some (Base64.enc_char v) ∧ 0 ≤ c < 256 ∧ c ≠ 10 ∧ c ≠ 13 ∧ c ≠ 61)).
  repeat (constructor; [vm_compute; repeat split; discriminate || congruence|]). constructor.
Qed.

Lemma padding_cases n : ∃ k, StdBase64.padding n = repeat 61 k ∧ (k ≤ 2)%nat.
Proof.
  unfold StdBase64.padding. destruct (n mod 3)%nat as [|[|[|]]]; [exists 0%nat|exists 2%nat|exists 1%nat|exists 0%nat];
    (split; [done|lia]).
Qed.
Lemma Forall_repeat (P : Z → Prop) x k : P x → Forall P (repeat x k).
Proof. intros Hx. by induction k; constructor. Qed.
Lemma encode_length bs : ((length (Base64.fields bs) + length (StdBase64.padding (length bs))) mod 4 = 0)%nat.
Proof.
  induction bs as [|a|a b|a b c l IH] using Base64.triples_ind; [done..|].
  cbn [Base64.fields length]. replace (StdBase64.padding (S (S (S (length l))))) with (StdBase64.padding (length l)).
  - replace (S (S (S (S (length (Base64.fields l))))) + _)%nat
      with (length (Base64.fields l) + length (StdBase64.padding (length l)) + 1 * 4)%nat by lia.
    by rewrite Nat.Div0.mod_add.
  - unfold StdBase64.padding. replace (S (S (S (length l)))) with (length l + 1 * 3)%nat by lia.
    by rewrite Nat.Div0.mod_add.
Qed.

Lemma unpad_app l k : (∀ x, last l = Some x → x ≠ 61) → (k ≤ 2)%nat →
  StdBase64.unpad (l ++ repeat 61 k) = l.
Proof.
  intros Hl Hk. unfold StdBase64.unpad. rewrite rev_app_distr.
  assert (Hr : rev (repeat 61 k) = repeat 61 k) by (destruct k as [|[|[|]]]; [done..|lia]).
  rewrite Hr. pose proof (rev_involutive l) as Hi.
  assert (Hh : ∀ x r, rev l = x :: r → x ≠ 61).
  { intros x r Hx. apply Hl. rewrite <- Hi, Hx. simpl. apply last_snoc. }
  destruct (rev l) as [|x r]; simpl in *.
  - subst l. by destruct k as [|[|[|]]]; [..|lia].
  - specialize (Hh x r eq_refl). rewrite <- Hi.
    destruct k as [|[|[|]]]; [| | |lia]; simpl; rewrite ?app_nil_r;
      repeat (case_match; subst; try done; try lia); reflexivity.
Qed.

Lemma mapM_of_std vs : Forall (λ v, 0 ≤ v < 64) vs →
  mapM StdBase64.of_std (StdBase64.to_std ∘ Base64.enc_char <$> vs) = Some (Base64.enc_char <$> vs).
Proof.
  induction 1 as [|v vs Hv _ IH]; [done|]. cbn [fmap list_fmap mapM].
  destruct (std_char_ok v Hv) as [Hc _].
  change (StdBase64.of_std (StdBase64.to_std (Base64.enc_char v)) = Some (Base64.enc_char v)) in Hc.
  cbn -[StdBase64.of_std StdBase64.to_std Base64.enc_char] in *. rewrite Hc. simpl. by rewrite IH.
Qed.

Lemma std_decode_encode bs : is_bytes bs → StdBase64.decode (StdBase64.encode bs) = Some bs.
Proof.
  intros Hbs. destruct (Base64.fields_join bs Hbs) as [Hf Hj]. unfold StdBase64.decode, StdBase64.encode.
  rewrite Base64.encode_fields, <- list_fmap_compose. set (cs := _ <$> Base64.fields bs).
  destruct (padding_cases (length bs)) as (k & Hk & Hk2).
  assert (Hcs : Forall (λ c, c ≠ 10 ∧ c ≠ 13 ∧ c ≠ 61) cs).
  { apply Forall_fmap. eapply Forall_impl; [exact Hf|]. intros v Hv. by apply std_char_ok in Hv as (_ & _ & ?). }
  assert (Hfil : filter (λ c, c ≠ 10 ∧ c ≠ 13) (cs ++ StdBase64.padding (length bs)) =
                 cs ++ StdBase64.padding (length bs)).
  { apply filter_all, Forall_forall, Forall_app. split; [eapply Forall_impl; [exact Hcs|]; naive_solver|].
    rewrite Hk. by apply Forall_repeat. }
  rewrite Hfil, length_app. unfold cs at 1. rewrite length_fmap, encode_length. simpl.
  rewrite Hk, unpad_app; [|intros x Hx; apply last_Some_elem_of in Hx; rewrite Forall_forall in Hcs; by apply Hcs|done].
  assert (Hm : mapM StdBase64.of_std cs = Some (Base64.enc_char <$> Base64.fields bs)) by by apply mapM_of_std.
  rewrite Hm. simpl. unfold Base64.decode. by rewrite Base64.encode_no_breaks, Base64.mapM_dec_enc.
Qed.


(** The characters of the unpadded encoding. *)
Lemma raw_chars bs : is_bytes bs → ∃ vs, Forall (λ v, 0 ≤ v < 64) vs ∧
  StdBase64.raw_encode bs = StdBase64.to_std ∘ Base64.enc_char <$> vs.
Proof.
  intros Hbs. destruct (Base64.fields_join bs Hbs) as [Hf _]. exists (Base64.fields bs). split; [done|].
  unfold StdBase64.raw_encode. by rewrite Base64.encode_fields, <- list_fmap_compose.
Qed.

Lemma raw_decode_encode bs : is_bytes bs → StdBase64.raw_decode (StdBase64.raw_encode bs) = Some bs.
Proof.
  intros Hbs. destruct (Base64.fields_join bs Hbs) as [Hf Hj]. unfold StdBase64.raw_decode, StdBase64.raw_encode.
  rewrite Base64.encode_fields, <- list_fmap_compose, filter_all.
  - rewrite mapM_of_std by done. simpl. unfold Base64.decode. by rewrite Base64.encode_no_breaks, Base64.mapM_dec_enc.
  - apply Forall_forall, Forall_fmap. eapply Forall_impl; [exact Hf|]. intros v Hv.
    by apply std_char_ok in Hv as (_ & _ & ? & ? & _).
Qed.
