(* ===== verification/Credentials.v ===== *)
(** * One-time passwords and password hashes

    services/auth/internal: totp.go, with what it uses of the Go standard
    library written out (base32, SHA-1 and HMAC; times are in nanoseconds), and
    password.go.  Argon2 (golang.org/x/crypto) is the parameter [IDKey]; the text
    form of a hash, and [strings.Split] and [fmt.Sscanf] that read it back, are
    written out. *)

From S2P Require Import Prelude Json GoTime AppErrors Pagination Encodings.
Open Scope Z_scope.

(** ** Digits in a base, the most significant first *)
Definition undigits (base : Z) (l : list Z) : Z := fold_left (λ n d, n * base + d) l 0.
Fixpoint digits (base : Z) (k : nat) (n : Z) : list Z :=
  match k with
  | O => []
  | S k => digits base k (n / base) ++ [n mod base]
  end.

Lemma undigits_snoc base l d : undigits base (l ++ [d]) = undigits base l * base + d.
Proof. unfold undigits. by rewrite fold_left_app. Qed.
Lemma length_digits base k n : length (digits base k n) = k.
Proof. revert n. induction k as [|k IH]; intros n; [done|]. simpl. rewrite length_app, IH. simpl. lia. Qed.
Lemma digits_range base k n : 0 < base → Forall (λ d, 0 ≤ d < base) (digits base k n).
Proof.
  intros Hb. revert n. induction k as [|k IH]; intros n; [constructor|]. simpl. apply Forall_app. split; [apply IH|].
  apply Forall_singleton. by apply Z.mod_pos_bound.
Qed.
Lemma undigits_digits base k n : 0 < base → 0 ≤ n < base ^ Z.of_nat k → undigits base (digits base k n) = n.
Proof.
  intros Hb. revert n. induction k as [|k IH]; intros n Hn; [simpl in *; unfold undigits; simpl; lia|].
  rewrite Nat2Z.inj_succ, Z.pow_succ_r in Hn by lia. cbn [digits]. rewrite undigits_snoc, IH.
  - pose proof (Z.div_mod n base). lia.
  - split; [apply Z.div_pos; lia|apply Z.div_lt_upper_bound; lia].
Qed.
Lemma undigits_range base l : 0 < base → Forall (λ d, 0 ≤ d < base) l →
  0 ≤ undigits base l < base ^ Z.of_nat (length l).
Proof.
  intros Hb. induction l as [|d l IH] using rev_ind; [done|]. intros [Hl Hd]%Forall_app.
  rewrite Forall_singleton in Hd. rewrite undigits_snoc, length_app, Nat.add_1_r, Nat2Z.inj_succ, Z.pow_succ_r by lia.
  specialize (IH Hl). set (p := base ^ _) in *. set (u := undigits base l) in *.
  assert (u * base ≤ (p - 1) * base) by (apply Z.mul_le_mono_nonneg_r; lia).
  assert (0 ≤ u * base) by (apply Z.mul_nonneg_nonneg; lia). lia.
Qed.
Lemma digits_undigits base l : 0 < base → Forall (λ d, 0 ≤ d < base) l →
  digits base (length l) (undigits base l) = l.
Proof.
  intros Hb. induction l as [|d l IH] using rev_ind; [done|]. intros [Hl Hd]%Forall_app.
  rewrite Forall_singleton in Hd. rewrite undigits_snoc, length_app, Nat.add_1_r. cbn [digits].
  rewrite Z.add_comm, Z.div_add, Z.mod_add, Z.div_small, Z.mod_small by lia. by rewrite Z.add_0_l, IH.
Qed.

(** ** base32.StdEncoding without padding *)
Module Base32.
Definition enc_char (v : Z) : Z := if v <? 26 then v + 65 else v + 24.
Definition dec_char (c : Z) : option Z :=
  if (65 <=? c) && (c <=? 90) then Some (c - 65)
  else if (50 <=? c) && (c <=? 55) then Some (c - 24)
  else None.

(** Five bytes are eight characters; [pad] fills up the last group. *)
Definition pad (n : nat) (l : list Z) : list Z := l ++ repeat 0 (n - length l).
Definition group (bs : list Z) : list Z := digits 32 8 (undigits 256 (pad 5 bs)).
Definition ungroup (vs : list Z) : list Z := digits 256 5 (undigits 32 (pad 8 vs)).
Definition chars_of (n : nat) : nat := match n with 1 => 2 | 2 => 4 | 3 => 5 | 4 => 7 | _ => 8 end%nat.
Definition bytes_in (n : nat) : nat :=
  match n with 8 => 5 | 7 => 4 | 5 => 3 | 4 => 2 | 2 => 1 | _ => 0 end%nat.

Fixpoint chunks (fuel n : nat) (l : list Z) : list (list Z) :=
  match fuel, l with
  | S fuel, _ :: _ => take n l :: chunks fuel n (drop n l)
  | _, _ => []
  end.
Definition encode (bs : list Z) : list Z :=
  enc_char <$> mjoin ((λ c, take (chars_of (length c)) (group c)) <$> chunks (length bs) 5 bs).
(** Line breaks are dropped; a last group of an impossible length gives nothing. *)
Definition decode (cs : list Z) : option (list Z) :=
  vs ← mapM dec_char (filter (λ c, c ≠ 10 ∧ c ≠ 13) cs);
  Some (mjoin ((λ c, take (bytes_in (length c)) (ungroup c)) <$> chunks (length vs) 8 vs)).
Definition EncodeToString (bs : list Z) : string := Base64.text (encode bs).
Definition DecodeString (s : string) : option (list Z) := decode (Base64.bytes s).

Lemma chunks_app n a l fuel : length a = n → (0 < n)%nat →
  chunks (S fuel) n (a ++ l) = a :: chunks fuel n l.
Proof.
  intros Ha Hn. destruct a as [|x a]; [simpl in Ha; lia|]. rewrite <- app_comm_cons. cbn [chunks].
  rewrite app_comm_cons, take_app_length', drop_app_length' by done. done.
Qed.
Lemma mjoin_cons (a : list Z) l : mjoin (a :: l) = a ++ mjoin l.
Proof. done. Qed.

Lemma ungroup_group bs : Forall (λ b, 0 ≤ b < 256) bs → length bs = 5%nat → ungroup (group bs) = bs.
Proof.
  intros Hb Hl. unfold ungroup, group, pad. rewrite length_digits, Hl, !app_nil_r.
  pose proof (undigits_range 256 bs ltac:(lia) Hb) as Hr. rewrite Hl in Hr. rewrite undigits_digits by (simpl in *; lia).
  rewrite <- Hl. by apply digits_undigits.
Qed.

Lemma char_ok v : 0 ≤ v < 32 →
  dec_char (enc_char v) = Some v ∧ 0 ≤ enc_char v < 256 ∧ enc_char v ≠ 10 ∧ enc_char v ≠ 13.
Proof.
  intros Hv. unfold dec_char, enc_char. destruct (Z.ltb_spec v 26).
  - destruct (Z.leb_spec 65 (v + 65)), (Z.leb_spec (v + 65) 90); simpl; try lia. split; [f_equal|]; lia.
  - destruct (Z.leb_spec 65 (v + 24)); [lia|]. simpl.
    destruct (Z.leb_spec 50 (v + 24)), (Z.leb_spec (v + 24) 55); simpl; try lia. split; [f_equal|]; lia.
Qed.

(** Whole groups round-trip. *)
Lemma decode_groups l : Forall (λ b, 0 ≤ b < 256) (mjoin l) → Forall (λ c, length c = 5%nat) l →
  DecodeString (EncodeToString (mjoin l)) = Some (mjoin l).
Proof.
  intros Hb Hl. set (vs := mjoin (group <$> l)).
  assert (Hc : ∀ f, (length (mjoin l) ≤ f)%nat → chunks f 5 (mjoin l) = l).
  { clear Hb vs. induction Hl as [|c l Hc Hl IH]; intros f Hf; [by destruct f|]. simpl in *. rewrite length_app in Hf.
    destruct f as [|f]; [lia|]. rewrite chunks_app by lia. f_equal. apply IH. lia. }
  assert (Hv : Forall (λ v, 0 ≤ v < 32) vs).
  { subst vs. clear. induction l as [|c l IH]; [constructor|]. apply Forall_app. split; [|done]. by apply digits_range. }
  assert (He : encode (mjoin l) = enc_char <$> vs).
  { unfold encode. rewrite Hc by done. f_equal. subst vs. clear -Hl. induction Hl as [|c l Hc _ IH]; [done|].
    rewrite !fmap_cons. by rewrite !mjoin_cons, IH, Hc. }
  unfold DecodeString, EncodeToString, decode. rewrite He, Base64.bytes_text.
  2:{ apply Forall_fmap. eapply Forall_impl; [exact Hv|]. intros v Hv'. by apply char_ok. }
  rewrite filter_all.
  2:{ apply Forall_forall, Forall_fmap. eapply Forall_impl; [exact Hv|]. intros v Hv'. by apply char_ok in Hv' as (_ & _ & ?). }
  assert (Hm : mapM dec_char (enc_char <$> vs) = Some vs).
  { clear -Hv. induction Hv as [|v vs Hv _ IH]; [done|]. cbn -[dec_char enc_char]. destruct (char_ok v Hv) as [-> _].
    cbn -[dec_char enc_char]. by rewrite IH. }
  rewrite Hm. simpl. f_equal.
  assert (Hc2 : ∀ f, (length vs ≤ f)%nat → chunks f 8 vs = group <$> l).
  { subst vs. clear. induction l as [|c l IH]; intros f Hf; [by destruct f|].
    rewrite fmap_cons, mjoin_cons, length_app in *. unfold group at 1 in Hf. rewrite length_digits in Hf.
    destruct f as [|f]; [lia|]. rewrite chunks_app; [|apply length_digits|lia]. f_equal. apply IH. lia. }
  rewrite Hc2 by done. rewrite <- list_fmap_compose. clear -Hb Hl. induction Hl as [|c l Hc _ IH]; [done|].
  rewrite mjoin_cons in Hb. apply Forall_app in Hb as [Hb Hbl]. rewrite fmap_cons, !mjoin_cons, (IH Hbl).
  f_equal. cbn beta. unfold compose. cbn beta. unfold group at 1. rewrite length_digits. simpl bytes_in.
  rewrite take_ge; [by apply ungroup_group|]. unfold ungroup. by rewrite length_digits.
Qed.
End Base32.

(** ** SHA-1 and HMAC *)
Module Sha1.
Definition rotl (n x : Z) : Z := Sha256.w32 (Z.lor (Z.shiftl x n) (Z.shiftr x (32 - n))).
Definition h0 : list Z := [1732584193; 4023233417; 2562383102; 271733878; 3285377520].

(** The message schedule: [n] more words, newest first. *)
Fixpoint schedule (n : nat) (w : list Z) : list Z :=
  match n with
  | O => w
  | S n =>
      let g i := default 0 (w !! i) in
      schedule n
        (rotl 1 (Z.lxor (g 2%nat) (Z.lxor (g 7%nat) (Z.lxor (g 13%nat) (g 15%nat)))) :: w)
  end.

Definition fk (t : nat) (b c d : Z) : Z * Z :=
  if (t <? 20)%nat then (Sha256.ch b c d, 1518500249)
  else if (t <? 40)%nat then (Z.lxor b (Z.lxor c d), 1859775393)
  else if (t <? 60)%nat then (Sha256.maj b c d, 2400959708)
  else (Z.lxor b (Z.lxor c d), 3395469782).
Definition round (v : list Z) (tw : nat * Z) : list Z :=
  match v with
  | [a; b; c; d; e] =>
      let '(f, k) := fk tw.1 b c d in
      [Sha256.w32 (rotl 5 a + f + e + k + tw.2); a; rotl 30 b; c; d]
  | _ => v
  end.
Definition block (h : list Z) (chunk : list Z) : list Z :=
  let w := rev (schedule 64 (rev (Sha256.words chunk))) in
  zip_with Sha256.add h (fold_left round (zip (seq 0 80) w) h).
Definition Sum (m : list Z) : list Z :=
  mbind (Sha256.be 4) (fold_left block (Base32.chunks (length (Sha256.pad m)) 64 (Sha256.pad m)) h0).
End Sha1.

(** [hmac.New(sha1.New, key)] and [Sum]. *)
Definition hmac_key (key : list Z) : list Z :=
  let k := if (64 <? length key)%nat then Sha1.Sum key else key in
  k ++ repeat 0 (64 - length k).
Definition hmac (key msg : list Z) : list Z :=
  let k := hmac_key key in
  Sha1.Sum ((Z.lxor 92 <$> k) ++ Sha1.Sum ((Z.lxor 54 <$> k) ++ msg)).

(** ** totp.go *)
Definition totpDigits : nat := 6.
Definition totpPeriod : Z := 30 * GoTime.Second.
Definition totpSecretLen : nat := 20.
Definition totpSkewWindow : Z := 1.

(** [strings.ToUpper] on ASCII, with the two non-ASCII code points whose upper
    case is ASCII (U+0131, U+017F); the other bytes are kept: base32 refuses
    them either way. *)
Definition upper_ascii (a : Ascii.ascii) : Ascii.ascii :=
  let n := Ascii.nat_of_ascii a in
  if ((97 <=? n) && (n <=? 122))%nat then Ascii.ascii_of_nat (n - 32) else a.
Fixpoint ToUpper (s : string) : string :=
  match s with
  | EmptyString => EmptyString
  | String a (String b s' as s1) =>
      if GoStrings.has_prefix (GoStrings.of_bytes [196; 177]%nat) s then String (Ascii.ascii_of_nat 73) (ToUpper s')
      else if GoStrings.has_prefix (GoStrings.of_bytes [197; 191]%nat) s then String (Ascii.ascii_of_nat 83) (ToUpper s')
      else String (upper_ascii a) (ToUpper s1)
  | String a s' => String (upper_ascii a) (ToUpper s')
  end.

Definition generateTOTPSecret (rand : option (list Z)) : option string :=
  Base32.EncodeToString <$> rand.

(** [t.Unix()] of a time in nanoseconds, as a [uint64], over the period. *)
Definition totp_counter (t : Z) : Z := (t / GoTime.Second) mod 2 ^ 64 / (totpPeriod / GoTime.Second).

(** Dynamic truncation. *)
Definition truncated (sum : list Z) : Z :=
  let at_ i := nth i sum 0 in
  let offset := Z.to_nat (Z.land (at_ (length sum - 1)%nat) 15) in
  Z.lor (Z.shiftl (Z.land (at_ offset) 127) 24)
    (Z.lor (Z.shiftl (at_ (offset + 1)%nat) 16)
       (Z.lor (Z.shiftl (at_ (offset + 2)%nat) 8) (at_ (offset + 3)%nat))).

(** [fmt.Sprintf("%0*d", n, z)]: at least [n] digits. *)
Definition zero_padded (n : nat) (z : Z) : string :=
  if z <? 10 ^ Z.of_nat n then Base64.text (Z.add 48 <$> digits 10 n z) else GoStrings.Itoa z.

(** The code of a step for a key. *)
Definition code_of (key : list Z) (counter : Z) : string :=
  zero_padded totpDigits (truncated (hmac key (Sha256.be 8 counter)) mod 10 ^ Z.of_nat totpDigits).

(** [None]: the secret is not base32. *)
Definition totpCodeAt (secret : string) (t : Z) : option string :=
  match Base32.DecodeString (ToUpper secret) with
  | None => None
  | Some key => Some (code_of key (totp_counter t))
  end.

(** The loop over the skews; a secret that cannot be decoded ends it. *)
Fixpoint try_skews (secret code : string) (t : Z) (skews : list Z) : bool :=
  match skews with
  | [] => false
  | skew :: skews =>
      match totpCodeAt secret (t + skew * totpPeriod) with
      | None => false
      | Some want => if String.eqb want code then true else try_skews secret code t skews
      end
  end.
Definition verifyTOTP (secret code : string) (t : Z) : bool :=
  let code := GoStrings.TrimSpace code in
  if negb (String.length code =? totpDigits)%nat then false
  else try_skews secret code t (seqZ (- totpSkewWindow) (2 * totpSkewWindow + 1)).

(** ** Test vectors *)
Example sha1_abc :
  text_of (mbind hex_byte (Sha1.Sum (bytes_of "abc"))) = "a9993e364706816aba3e25717850c26c9cd0d89d"%string.
Proof. vm_compute. reflexivity. Qed.
Example sha1_two_blocks :
  text_of (mbind hex_byte (Sha1.Sum (bytes_of "abcdbcdecdefdefgefghfghighijhijkijkljklmklmnlmnomnopnopq"))) =
  "84983e441c3bd26ebaae4aa1f95129e5e54670f1"%string.
Proof. vm_compute. reflexivity. Qed.

(** RFC 2202, test case 2. *)
Example hmac_jefe :
  text_of (mbind hex_byte (hmac (bytes_of "Jefe") (bytes_of "what do ya want for nothing?"))) =
  "effcdf6ae5eb2fa2d27416d5f184df9c259a7c79"%string.
Proof. vm_compute. reflexivity. Qed.

(** RFC 6238, appendix B, with the last six of its eight digits. *)
Definition rfc6238_secret : string := Base32.EncodeToString (bytes_of "12345678901234567890").
Example rfc6238_codes :
  rfc6238_secret = "GEZDGNBVGY3TQOJQGEZDGNBVGY3TQOJQ"%string ∧
  (λ t, totpCodeAt rfc6238_secret (t * GoTime.Second)) <$>
    [59; 1111111109; 1111111111; 1234567890; 2000000000; 20000000000] =
  Some <$> ["287082"; "081804"; "050471"; "005924"; "279037"; "353130"]%string.
Proof. vm_compute. split; reflexivity. Qed.

(** ** What codes are accepted *)
Lemma length_text l : String.length (Base64.text l) = length l.
Proof. induction l as [|b l IH]; simpl; [done|by rewrite IH]. Qed.

Lemma length_code key c : String.length (code_of key c) = totpDigits.
Proof.
  unfold code_of, zero_padded. pose proof (Z.mod_pos_bound (truncated (hmac key (Sha256.be 8 c))) (10 ^ Z.of_nat totpDigits) ltac:(done)).
  destruct (Z.ltb_spec (truncated (hmac key (Sha256.be 8 c)) mod 10 ^ Z.of_nat totpDigits) (10 ^ Z.of_nat totpDigits)); [|lia].
  by rewrite length_text, length_fmap, length_digits.
Qed.

(** The times at which a step can be moved without leaving 64 bits. *)
Definition totp_time (t : Z) : Prop := totpPeriod ≤ t ∧ (t + totpPeriod) / GoTime.Second < 2 ^ 64.

Lemma totp_counter_skew t k : totp_time t → -1 ≤ k ≤ 1 →
  totp_counter (t + k * totpPeriod) = totp_counter t + k.
Proof.
  unfold totp_time, totp_counter. change totpPeriod with (30 * GoTime.Second). intros [H1 H2] Hk.
  assert (HS : GoTime.Second = 10 ^ 9) by done. set (S := GoTime.Second) in *.
  replace (t + k * (30 * S)) with (t + (k * 30) * S) by ring. replace (30 * S / S) with 30 by (rewrite HS; done).
  rewrite (Z.div_add _ (k * 30)) by lia. rewrite (Z.div_add t 30) in H2 by lia.
  assert (30 ≤ t / S) by (apply Z.div_le_lower_bound; lia).
  rewrite !Z.mod_small by lia. rewrite Z.div_add by lia. done.
Qed.

(** The window: one step to each side. *)
Lemma verifyTOTP_spec secret key code t : Base32.DecodeString (ToUpper secret) = Some key → totp_time t →
  verifyTOTP secret code t = true ↔
  ∃ k, -1 ≤ k ≤ 1 ∧ GoStrings.TrimSpace code = code_of key (totp_counter t + k).
Proof.
  intros Hs Ht. unfold verifyTOTP. set (c := GoStrings.TrimSpace code).
  assert (Hat : ∀ k, -1 ≤ k ≤ 1 → totpCodeAt secret (t + k * totpPeriod) = Some (code_of key (totp_counter t + k))).
  { intros k Hk. unfold totpCodeAt. by rewrite Hs, totp_counter_skew. }
  assert (Hsk : ∀ l, Forall (λ k, -1 ≤ k ≤ 1) l →
    try_skews secret c t l = true ↔ ∃ k, k ∈ l ∧ c = code_of key (totp_counter t + k)).
  { induction 1 as [|k l Hk _ IH]; [split; [done|by intros (k & Hk%elem_of_nil & _)]|].
    cbn [try_skews]. rewrite Hat by done. destruct (String.eqb_spec (code_of key (totp_counter t + k)) c) as [He|He].
    - split; [|done]. intros _. exists k. split; [left|done].
    - rewrite IH. split; intros (k' & Hin & Hc); exists k'; (split; [|done]); [by right|].
      apply elem_of_cons in Hin as [->|?]; congruence. }
  destruct (Nat.eqb_spec (String.length c) totpDigits) as [Hl|Hl]; cbn [negb].
  - change (seqZ (- totpSkewWindow) (2 * totpSkewWindow + 1)) with [-1; 0; 1]. rewrite Hsk by (repeat constructor; lia).
    split; intros (k & Hk & Hc); exists k; (split; [|done]).
    + rewrite !elem_of_cons, elem_of_nil in Hk. lia.
    + rewrite !elem_of_cons, elem_of_nil. lia.
  - split; [done|]. intros (k & _ & Hc). by rewrite Hc, length_code in Hl.
Qed.

(** A secret that cannot be decoded accepts nothing. *)
Lemma verifyTOTP_undecodable secret code t : Base32.DecodeString (ToUpper secret) = None →
  verifyTOTP secret code t = false.
Proof.
  intros Hs. assert (Hn : ∀ u, totpCodeAt secret u = None) by (intros u; unfold totpCodeAt; by rewrite Hs).
  unfold verifyTOTP. case_match; [done|].
  change (seqZ (- totpSkewWindow) (2 * totpSkewWindow + 1)) with [-1; 0; 1]. cbn [try_skews]. by rewrite Hn.
Qed.

(** A generated secret is decodable, its letters being capitals already. *)
Lemma ToUpper_chars cs : Forall (λ v, 0 ≤ v < 32) cs →
  ToUpper (Base64.text (Base32.enc_char <$> cs)) = Base64.text (Base32.enc_char <$> cs).
Proof.
  assert (Hc : ∀ v, 0 ≤ v < 32 → let a := Ascii.ascii_of_nat (Z.to_nat (Base32.enc_char v)) in
    upper_ascii a = a ∧ Ascii.eqb (Ascii.ascii_of_nat 196) a = false ∧ Ascii.eqb (Ascii.ascii_of_nat 197) a = false).
  { intros v Hv. assert (v ∈ seqZ 0 32) as Hin by (apply elem_of_seqZ; lia).
    clear Hv. revert v Hin. apply Forall_forall. repeat (constructor; [vm_compute; auto|]). constructor. }
  induction 1 as [|v cs Hv Hcs IH]; [done|]. destruct (Hc v Hv) as (Hu & H1 & H2).
  rewrite fmap_cons. set (a := Ascii.ascii_of_nat (Z.to_nat (Base32.enc_char v))) in *.
  change (Base64.text (Base32.enc_char v :: (Base32.enc_char <$> cs)))
    with (String a (Base64.text (Base32.enc_char <$> cs))).
  destruct (Base64.text (Base32.enc_char <$> cs)) as [|b s] eqn:Hb; cbn [ToUpper]; [by rewrite Hu|].
  cbn [GoStrings.has_prefix GoStrings.of_bytes fold_right]. rewrite H1, H2. cbn [andb]. by rewrite Hu, <- IH.
Qed.

Lemma encode_chars bs : ∃ vs, Forall (λ v, 0 ≤ v < 32) vs ∧ Base32.encode bs = Base32.enc_char <$> vs.
Proof.
  eexists. split; [|reflexivity]. induction (Base32.chunks (length bs) 5 bs) as [|c l IH]; [constructor|].
  apply Forall_app. split; [|done]. by apply Forall_take, digits_range.
Qed.

Lemma generated_secret key secret : Forall (λ b, 0 ≤ b < 256) key → length key = totpSecretLen →
  generateTOTPSecret (Some key) = Some secret → Base32.DecodeString (ToUpper secret) = Some key.
Proof.
  intros Hb Hl [= <-]. unfold Base32.EncodeToString. destruct (encode_chars key) as (vs & Hv & He).
  rewrite He, ToUpper_chars, <- He by done. change (Base64.text (Base32.encode key)) with (Base32.EncodeToString key).
  set (l := [take 5 key; take 5 (drop 5 key); take 5 (drop 10 key); drop 15 key]).
  assert (Hk : mjoin l = key).
  { subst l. cbn [mjoin list_join]. rewrite app_nil_r.
    transitivity (take 5 key ++ drop 5 key); [f_equal|apply take_drop].
    transitivity (take 5 (drop 5 key) ++ drop 5 (drop 5 key)); [f_equal|apply take_drop].
    rewrite !drop_drop. transitivity (take 5 (drop 10 key) ++ drop 5 (drop 10 key)); [f_equal|apply take_drop].
    by rewrite drop_drop. }
  rewrite <- Hk at 2. rewrite <- Hk at 1. apply Base32.decode_groups; [by rewrite Hk|].
  unfold totpSecretLen in Hl. subst l. repeat constructor; rewrite ?length_take, ?length_drop, Hl; done.
Qed.

Open Scope Z_scope.

(** [url.PathEscape] and [url.QueryEscape], on bytes. *)
Definition upper_hex (z : Z) : Z := if z <? 10 then 48 + z else 55 + z.
Definition percent (b : Z) : list Z := [37; upper_hex (b / 16); upper_hex (b mod 16)].
Definition unreserved (b : Z) : bool :=
  (97 <=? b) && (b <=? 122) || (65 <=? b) && (b <=? 90) || (48 <=? b) && (b <=? 57) ||
  (b =? 45) || (b =? 95) || (b =? 46) || (b =? 126).
(** In a path segment $, &, +, :, = and @ stay. *)
Definition PathEscape (s : string) : string :=
  text_of (mjoin ((λ b, if unreserved b || bool_decide (b ∈ [36; 38; 43; 58; 61; 64]) then [b] else percent b)
                    <$> bytes_of s)).
Definition QueryEscape (s : string) : string :=
  text_of (mjoin ((λ b, if unreserved b then [b] else if b =? 32 then [43] else percent b) <$> bytes_of s)).

(** [Values.Encode] sorts by key. *)
Definition otpauthURL (issuer account secret : string) : string :=
  "otpauth://totp/" +:+ PathEscape (issuer +:+ ":" +:+ account) +:+
  "?algorithm=SHA1&digits=" +:+ GoStrings.Itoa (Z.of_nat totpDigits) +:+
  "&issuer=" +:+ QueryEscape issuer +:+
  "&period=" +:+ GoStrings.Itoa (totpPeriod / GoTime.Second) +:+
  "&secret=" +:+ QueryEscape secret.
Example otpauth_url :
  otpauthURL "BDS Platform" "ann+x@example.org" "JBSWY3DP" =
  "otpauth://totp/BDS%20Platform:ann+x@example.org?algorithm=SHA1&digits=6&issuer=BDS+Platform&period=30&secret=JBSWY3DP"%string.
Proof. vm_compute. reflexivity. Qed.

Definition argonTime : Z := 1.
Definition argonMemory : Z := 64 * 1024.
Definition argonThreads : Z := 4.
Definition argonKeyLen : Z := 32.
Definition argonSaltLen : Z := 16.
(** [argon2.Version]. *)
Definition argon2_Version : Z := 19.

(** [strings.Split] at a character. *)
Fixpoint split_char (c : Ascii.ascii) (s : string) : list string :=
  match s with
  | EmptyString => [EmptyString]
  | String a s' =>
      if Ascii.eqb a c then EmptyString :: split_char c s'
      else match split_char c s' with
           | w :: ws => String a w :: ws
           | [] => [String a EmptyString]
           end
  end.
Definition dollar : Ascii.ascii := Ascii.ascii_of_nat 36.

(** [fmt.Sscanf]: a literal, then %d.  White space before a number is skipped,
    a line break there is an error; what follows the last item is not read. *)
Definition scan_space (s : string) : option string :=
  let newline := GoStrings.of_bytes [10]%nat in
  let runes := filter (λ r, r ≠ newline) GoStrings.space_runes in
  let t := GoStrings.trim_left_runes (String.length s) runes s in
  if GoStrings.has_prefix newline t then None else Some t.
Fixpoint take_digits (s : string) : string * string :=
  match s with
  | String a s' => if is_digit a then let '(d, r) := take_digits s' in (String a d, r) else (EmptyString, s)
  | EmptyString => (EmptyString, EmptyString)
  end.
Definition number (s : string) : option (Z * string) :=
  let '(d, r) := take_digits s in
  v ← option_map Z.of_uint (DecimalString.NilZero.uint_of_string d);
  if String.eqb d "" then None else Some (v, r).
(** An [int], with a sign, and an unsigned integer of [bits] bits. *)
Definition scan_int (s : string) : option (Z * string) :=
  s ← scan_space s;
  '(v, r) ← (if GoStrings.has_prefix "-" s then '(v, r) ← number (GoStrings.drop_str 1 s); Some (- v, r)
             else if GoStrings.has_prefix "+" s then number (GoStrings.drop_str 1 s) else number s);
  if GoStrings.int64_ok v then Some (v, r) else None.
Definition scan_uint (bits : Z) (s : string) : option (Z * string) :=
  s ← scan_space s; '(v, r) ← number s; if v <? 2 ^ bits then Some (v, r) else None.
Definition scan_text (t s : string) : option string :=
  if GoStrings.has_prefix t s then Some (GoStrings.drop_str (String.length t) s) else None.

Section Password.
Context (IDKey : list Z → list Z → Z → Z → Z → Z → list Z).

(** [salt] is what the random source gave, if it did. *)
Definition HashPassword (salt : option (list Z)) (password : string) : result goerr string :=
  match salt with
  | None => Err (Plain "auth: generate salt")
  | Some salt =>
      let key := IDKey (Base64.bytes password) salt argonTime argonMemory argonThreads argonKeyLen in
      Ok ("$argon2id$v=" +:+ GoStrings.Itoa argon2_Version +:+
          "$m=" +:+ GoStrings.Itoa argonMemory +:+ ",t=" +:+ GoStrings.Itoa argonTime +:+
          ",p=" +:+ GoStrings.Itoa argonThreads +:+
          "$" +:+ Base64.text (StdBase64.raw_encode salt) +:+
          "$" +:+ Base64.text (StdBase64.raw_encode key))
  end.

Definition parse_version (s : string) : option Z :=
  s ← scan_text "v=" s; '(v, _) ← scan_int s; Some v.
Definition parse_params (s : string) : option (Z * Z * Z) :=
  s ← scan_text "m=" s; '(m, s) ← scan_uint 32 s;
  s ← scan_text ",t=" s; '(t, s) ← scan_uint 32 s;
  s ← scan_text ",p=" s; '(p, _) ← scan_uint 8 s;
  Some (m, t, p).

Definition VerifyPassword (password encoded : string) : result goerr bool :=
  match split_char dollar encoded with
  | [_; alg; version; params; salt; key] =>
      if negb (String.eqb alg "argon2id") then Err (Plain "auth: malformed password hash")
      else
        match parse_version version with
        | None => Err (Plain "auth: parse hash version")
        | Some _ =>
            match parse_params params with
            | None => Err (Plain "auth: parse hash params")
            | Some (memory, time, threads) =>
                match StdBase64.raw_decode (Base64.bytes salt) with
                | None => Err (Plain "auth: decode salt")
                | Some salt =>
                    match StdBase64.raw_decode (Base64.bytes key) with
                    | None => Err (Plain "auth: decode key")
                    | Some want =>
                        let got := IDKey (Base64.bytes password) salt time memory threads
                                     (Z.of_nat (length want) mod 2 ^ 32) in
                        Ok (bool_decide (got = want))
                    end
                end
            end
        end
  | _ => Err (Plain "auth: malformed password hash")
  end.

(** ** A hash can be verified *)
Lemma split_char_app c p s : all_chars (λ a, negb (Ascii.eqb c a)) p = true →
  split_char c (p +:+ String c s) = p :: split_char c s.
Proof using.
  induction p as [|a p IH]; simpl; intros Hp.
  - change (EmptyString +:+ String c s) with (String c s). simpl. by rewrite Ascii.eqb_refl.
  - apply andb_true_iff in Hp as [Ha Hp]. change (String a p +:+ String c s) with (String a (p +:+ String c s)).
    simpl. apply negb_true_iff in Ha. rewrite Ascii.eqb_sym, Ha, IH; done.
Qed.
Lemma split_char_none c p : all_chars (λ a, negb (Ascii.eqb c a)) p = true → split_char c p = [p].
Proof using.
  induction p as [|a p IH]; simpl; [done|]. intros [Ha Hp]%andb_true_iff.
  apply negb_true_iff in Ha. by rewrite Ascii.eqb_sym, Ha, IH.
Qed.

Lemma raw_text_no_dollar bs : is_bytes bs →
  all_chars (λ a, negb (Ascii.eqb dollar a)) (Base64.text (StdBase64.raw_encode bs)) = true.
Proof using.
  intros (vs & Hv & ->)%raw_chars.
  assert (Hc : ∀ v, 0 ≤ v < 64 → Ascii.eqb dollar (Ascii.ascii_of_nat (Z.to_nat
    ((StdBase64.to_std ∘ Base64.enc_char) v))) = false).
  { apply Base64.sextets. repeat (constructor; [vm_compute; reflexivity|]). constructor. }
  induction Hv as [|v vs Hv _ IH]; [done|]. rewrite fmap_cons. cbn [Base64.text all_chars]. by rewrite Hc, IH.
Qed.
Lemma bytes_raw_text bs : is_bytes bs →
  Base64.bytes (Base64.text (StdBase64.raw_encode bs)) = StdBase64.raw_encode bs.
Proof using.
  intros (vs & Hv & ->)%raw_chars. apply Base64.bytes_text, Forall_fmap. eapply Forall_impl; [exact Hv|].
  intros v Hv'. by apply std_char_ok in Hv' as (_ & ? & _).
Qed.

(** A password is accepted for a hash exactly when it derives the key the
    hash was made with. *)
Lemma VerifyPassword_HashPassword salt p q h :
  is_bytes salt → (∀ pw t m th n, is_bytes (IDKey pw salt t m th n) ∧
    length (IDKey pw salt t m th n) = Z.to_nat n) →
  HashPassword (Some salt) p = Ok h →
  let key w := IDKey (Base64.bytes w) salt argonTime argonMemory argonThreads argonKeyLen in
  VerifyPassword q h = Ok (bool_decide (key q = key p)).
Proof using.
  intros Hs Hk [= <-] key. unfold VerifyPassword.
  set (salt_text := Base64.text (StdBase64.raw_encode salt)).
  set (key_text := Base64.text (StdBase64.raw_encode
    (IDKey (Base64.bytes p) salt argonTime argonMemory argonThreads argonKeyLen))).
  assert (Hsplit : split_char dollar
    ("$argon2id$v=" +:+ GoStrings.Itoa argon2_Version +:+
     "$m=" +:+ GoStrings.Itoa argonMemory +:+ ",t=" +:+ GoStrings.Itoa argonTime +:+
     ",p=" +:+ GoStrings.Itoa argonThreads +:+ "$" +:+ salt_text +:+ "$" +:+ key_text) =
    [""; "argon2id"; "v=19"; "m=65536,t=1,p=4"; salt_text; key_text]%string).
  { change (split_char dollar (String dollar ("argon2id" +:+ String dollar ("v=19" +:+ String dollar
      ("m=65536,t=1,p=4" +:+ String dollar (salt_text +:+ String dollar key_text))))) =
      [""; "argon2id"; "v=19"; "m=65536,t=1,p=4"; salt_text; key_text]%string).
    destruct (Hk (Base64.bytes p) argonTime argonMemory argonThreads argonKeyLen) as [Hkb _].
    rewrite (split_char_app dollar "" _ eq_refl : split_char dollar (String dollar _) = _).
    rewrite !split_char_app by (try reflexivity; by apply raw_text_no_dollar).
    rewrite split_char_none by by apply raw_text_no_dollar. done. }
  rewrite Hsplit. simpl String.eqb. cbn [negb].
  replace (parse_version "v=19") with (Some 19) by (vm_compute; reflexivity).
  replace (parse_params "m=65536,t=1,p=4") with (Some (argonMemory, argonTime, argonThreads)) by (vm_compute; reflexivity).
  destruct (Hk (Base64.bytes p) argonTime argonMemory argonThreads argonKeyLen) as [Hkb Hkl]. fold (key p) in *.
  subst salt_text key_text. rewrite !bytes_raw_text, !raw_decode_encode by done.
  rewrite Hkl. done.
Qed.
End Password.
