(* ===== verification/AuthStore.v ===== *)
(** * The authentication service's tables

    services/auth/internal: domain.go (users, sessions, one-time tokens, machine
    identities), events.go (payloads), notify.go and repository.go, with the
    tables of migrations/auth.  Users, sessions and one-time tokens are global;
    service accounts and API tokens have FORCE ROW LEVEL SECURITY.  As in
    [Store], uniqueness and foreign keys look at all rows, and values are taken
    to fit their column types. *)

From S2P Require Import Prelude Json AppErrors Tx Events Pagination Authz.
From S2P Require Export Repository Runs Outbox.
Open Scope Z_scope.
Open Scope tx_scope.

(** ** domain.go *)
Definition UserStatusActive : string := "active".
Definition UserStatusLocked : string := "locked".
Definition UserStatusDisabled : string := "disabled".

Definition PurposeEmailVerify : string := "email_verify".
Definition PurposePasswordReset : string := "password_reset".

Record User := mkUser {
  u_id : string; u_created : Z; u_updated : Z; u_version : Z;
  u_email : string; u_name : string; u_hash : string; u_status : string;
  u_verified : bool; u_mfa : bool; u_secret : option string;
  u_failed : Z; u_locked : option Z }.

Definition IsLocked (u : User) (now : Z) : bool :=
  String.eqb (u_status u) UserStatusLocked ||
  match u_locked u with Some t => now <? t | None => false end.

Record RefreshToken := mkSession {
  rt_id : string; rt_created : Z; rt_user : string; rt_hash : string;
  rt_agent : option string; rt_ip : option string; rt_expires : Z;
  rt_revoked : option Z; rt_replaced : option string }.

Definition Active (t : RefreshToken) (now : Z) : bool :=
  match rt_revoked t with Some _ => false | None => now <? rt_expires t end.

Record OneTimeToken := mkOTT {
  ot_id : string; ot_user : string; ot_purpose : string; ot_hash : string;
  ot_expires : Z; ot_used : option Z; ot_created : Z }.

Definition Usable (t : OneTimeToken) (now : Z) : bool :=
  match ot_used t with Some _ => false | None => now <? ot_expires t end.

Record ServiceAccount := mkAccount {
  sa_id : string; sa_created : Z; sa_updated : Z; sa_version : Z; sa_org : string;
  sa_name : string; sa_desc : option string; sa_status : string; sa_created_by : option string }.

Record APIToken := mkApi {
  ap_id : string; ap_created : Z; ap_updated : Z; ap_version : Z; ap_org : string;
  ap_account : string; ap_name : string; ap_prefix : string; ap_hash : string;
  ap_scopes : list string; ap_expires : option Z; ap_last_used : option Z; ap_revoked : option Z }.

(** Requests. *)
Record SignupRequest := mkSignup { sg_email : string; sg_password : string; sg_name : string }.
Record LoginRequest := mkLogin { lg_email : string; lg_password : string; lg_code : string }.
Record CreateServiceAccountRequest := mkCreateSA { cs_name : string; cs_desc : string }.
Record CreateAPITokenRequest := mkCreateApi {
  ca_name : string; ca_scopes : option (list string); ca_days : Z }.

(** Responses. *)
Record UserProfile := mkProfile {
  up_id : string; up_email : string; up_name : string; up_verified : bool; up_mfa : bool }.
Definition Profile (u : User) : UserProfile :=
  mkProfile (u_id u) (u_email u) (u_name u) (u_verified u) (u_mfa u).
Record TokenPair := mkPair {
  tp_access : string; tp_refresh : string; tp_expires : Z; tp_user : option UserProfile }.
Record MFASetupResult := mkSetup { ms_secret : string; ms_url : string }.

(** ** events.go: the payloads *)
Inductive auth_payload :=
| userCreatedPayload (userID email name : string)
| emailVerificationRequestedPayload (userID email purpose deliveryRef : string)
| emailVerifiedPayload (userID email : string)
| passwordResetPayload (userID phase email purpose deliveryRef : string)
| loginSucceededPayload (userID email : string)
| loginFailedPayload (userID email : string) (attempts : Z)
| tokenRevokedPayload (userID sessionID : string)
| tokenRotatedPayload (userID sessionID replacedSessionID : string)
| mfaPayload (userID : string)
| serviceAccountCreatedPayload (serviceAccountID name createdBy : string)
| serviceAccountDeletedPayload (serviceAccountID : string)
| apiTokenCreatedPayload (apiTokenID serviceAccountID name : string)
| apiTokenRevokedPayload (apiTokenID : string).

(** ** notify.go: what the notifier delivers out of band *)
Record TokenDelivery := mkDelivery {
  td_purpose : string; td_user : string; td_email : string; td_token : string; td_ref : string }.

(** What a rollback does not undo: the [*User] a closure captures and changes,
    the shared revocation store (Redis), and the tokens delivered. *)
Record AOutside (R : Type) := mkAOutside {
  captured : User; redis : R; mailbox : list TokenDelivery }.
Arguments mkAOutside {R}. Arguments captured {R}. Arguments redis {R}. Arguments mailbox {R}.

(** ** Tables *)
Record AuthDB := mkAuthDB {
  at_members : gmap (string * string) OrgMember;
  at_users : gmap string User;
  at_sessions : gmap string RefreshToken;
  at_otts : gmap string OneTimeToken;
  at_accounts : gmap string ServiceAccount;
  at_api : gmap string APIToken;
  at_outbox : list (OutboxRow auth_payload) }.

Definition set_users (m : gmap string User) (db : AuthDB) : AuthDB :=
  mkAuthDB (at_members db) m (at_sessions db) (at_otts db) (at_accounts db) (at_api db) (at_outbox db).
Definition set_sessions (m : gmap string RefreshToken) (db : AuthDB) : AuthDB :=
  mkAuthDB (at_members db) (at_users db) m (at_otts db) (at_accounts db) (at_api db) (at_outbox db).
Definition set_otts (m : gmap string OneTimeToken) (db : AuthDB) : AuthDB :=
  mkAuthDB (at_members db) (at_users db) (at_sessions db) m (at_accounts db) (at_api db) (at_outbox db).
Definition set_accounts (m : gmap string ServiceAccount) (db : AuthDB) : AuthDB :=
  mkAuthDB (at_members db) (at_users db) (at_sessions db) (at_otts db) m (at_api db) (at_outbox db).
Definition set_api (m : gmap string APIToken) (db : AuthDB) : AuthDB :=
  mkAuthDB (at_members db) (at_users db) (at_sessions db) (at_otts db) (at_accounts db) m (at_outbox db).
Definition set_aoutbox (l : list (OutboxRow auth_payload)) (db : AuthDB) : AuthDB :=
  mkAuthDB (at_members db) (at_users db) (at_sessions db) (at_otts db) (at_accounts db) (at_api db) l.

#[export] Instance AuthDB_members : MembersTable AuthDB := {| org_members := at_members |}.
#[export] Instance AuthDB_outbox : OutboxTable AuthDB auth_payload :=
  {| outbox_rows := at_outbox; set_outbox_rows := set_aoutbox |}.

Section Repositories.
Context {R : Type}.
Abbreviation AM := (M AuthDB (AOutside R)).

(** ** repository.go: users *)

(** The email column is CITEXT. *)
Definition citext_eq (a b : string) : bool := String.eqb (GoStrings.ToLower a) (GoStrings.ToLower b).

(** The columns not named keep their defaults. *)
Definition insert_user (u : User) (o : string) (now : Z) (db : AuthDB) : string + User * AuthDB :=
  if bool_decide (is_Some (at_users db !! u_id u)) ||
     existsb (λ b, citext_eq (u_email b) (u_email u)) (rows_where (λ _, true) (at_users db))
  then inl sqlStateUniqueViolation
  else
    let row secret mfa failed locked :=
      mkUser (u_id u) now now 1 (u_email u) (u_name u) (u_hash u) (u_status u) (u_verified u) mfa
        secret failed locked in
    inr (row (u_secret u) (u_mfa u) (u_failed u) (u_locked u),
         set_users (<[u_id u := row None false 0 None]> (at_users db)) db).

(** The id is the database's. *)
Definition with_user_id (id : string) (u : User) : User :=
  mkUser id (u_created u) (u_updated u) (u_version u) (u_email u) (u_name u) (u_hash u) (u_status u)
    (u_verified u) (u_mfa u) (u_secret u) (u_failed u) (u_locked u).
Definition userRepo_Create (u : User) : AM User :=
  let* id := uuid_NewString in
  on_err (stmt (insert_user (with_user_id id u))) MapError.

Definition userRepo_GetByID (id : string) : AM User :=
  QueryOne (λ _ db, match at_users db !! id with Some u => [u] | None => [] end).
Definition userRepo_GetByEmail (email : string) : AM User :=
  QueryOne (λ _ db, rows_where (λ u, citext_eq (u_email u) email) (at_users db)).

(** The columns the UPDATE sets. *)
Definition user_edit (u : User) (now : Z) (r : User) : User :=
  mkUser (u_id r) (u_created r) now (u_version r + 1) (u_email r) (u_name u) (u_hash u) (u_status u)
    (u_verified u) (u_mfa u) (u_secret u) (u_failed u) (u_locked u).
Definition update_user (u : User) (o : string) (now : Z) (db : AuthDB) : string + nat * AuthDB :=
  match at_users db !! u_id u with
  | Some r =>
      if u_version r =? u_version u
      then inr (1%nat, set_users (<[u_id u := user_edit u now r]> (at_users db)) db)
      else inr (0%nat, db)
  | None => inr (0%nat, db)
  end.
(** [u.Version++]. *)
Definition bump (u : User) : User :=
  mkUser (u_id u) (u_created u) (u_updated u) (u_version u + 1) (u_email u) (u_name u) (u_hash u)
    (u_status u) (u_verified u) (u_mfa u) (u_secret u) (u_failed u) (u_locked u).
Definition userRepo_Update (u : User) : AM User :=
  let* n := Exec (update_user u) in
  let* _ := require_rows n ErrOptimisticLock in
  ret (bump u).

(** ** repository.go: sessions *)
Definition insert_session (t : RefreshToken) (o : string) (now : Z) (db : AuthDB)
    : string + RefreshToken * AuthDB :=
  if bool_decide (is_Some (at_sessions db !! rt_id t)) ||
     existsb (λ b, String.eqb (rt_hash b) (rt_hash t)) (rows_where (λ _, true) (at_sessions db))
  then inl sqlStateUniqueViolation
  else if negb (bool_decide (is_Some (at_users db !! rt_user t))) then inl sqlStateForeignKeyViolation
  else
    let row revoked replaced :=
      mkSession (rt_id t) now (rt_user t) (rt_hash t) (rt_agent t) (rt_ip t) (rt_expires t) revoked
        replaced in
    inr (row (rt_revoked t) (rt_replaced t),
         set_sessions (<[rt_id t := row None None]> (at_sessions db)) db).
Definition sessionRepo_Create (user hash : string) (agent ip : option string) (expires : Z)
    : AM RefreshToken :=
  let* id := uuid_NewString in
  on_err (stmt (insert_session (mkSession id 0 user hash agent ip expires None None))) MapError.

Definition sessionRepo_GetByHash (hash : string) : AM RefreshToken :=
  QueryOne (λ _ db, rows_where (λ t, String.eqb (rt_hash t) hash) (at_sessions db)).

Definition with_revoked (now : Z) (replaced : option string) (t : RefreshToken) : RefreshToken :=
  mkSession (rt_id t) (rt_created t) (rt_user t) (rt_hash t) (rt_agent t) (rt_ip t) (rt_expires t)
    (Some now) replaced.
(** UPDATE ... WHERE id = $1 AND revoked_at IS NULL. *)
Definition revoke_session (id : string) (replacedBy : option string) (o : string) (now : Z)
    (db : AuthDB) : string + nat * AuthDB :=
  match at_sessions db !! id with
  | Some t =>
      match rt_revoked t with
      | None =>
          inr (1%nat, set_sessions (<[id := with_revoked now replacedBy t]> (at_sessions db)) db)
      | Some _ => inr (0%nat, db)
      end
  | None => inr (0%nat, db)
  end.
Definition sessionRepo_Revoke (id : string) (replacedBy : option string) : AM unit :=
  let* _ := Exec (revoke_session id replacedBy) in ret tt.

Definition revoke_if_of (user : string) (now : Z) (t : RefreshToken) : RefreshToken :=
  match rt_revoked t with
  | None => if String.eqb (rt_user t) user then with_revoked now (rt_replaced t) t else t
  | Some _ => t
  end.
Definition revoke_sessions_of (user : string) (o : string) (now : Z) (db : AuthDB)
    : string + nat * AuthDB :=
  inr (length (rows_where (λ t, String.eqb (rt_user t) user && bool_decide (rt_revoked t = None))
                 (at_sessions db)),
       set_sessions (revoke_if_of user now <$> at_sessions db) db).
Definition sessionRepo_RevokeAllForUser (user : string) : AM unit :=
  let* _ := Exec (revoke_sessions_of user) in ret tt.

(** ** repository.go: one-time tokens *)
Definition insert_ott (t : OneTimeToken) (o : string) (now : Z) (db : AuthDB)
    : string + OneTimeToken * AuthDB :=
  if bool_decide (is_Some (at_otts db !! ot_id t)) ||
     existsb (λ b, String.eqb (ot_hash b) (ot_hash t)) (rows_where (λ _, true) (at_otts db))
  then inl sqlStateUniqueViolation
  else if negb (bool_decide (is_Some (at_users db !! ot_user t))) then inl sqlStateForeignKeyViolation
  else
    let row used := mkOTT (ot_id t) (ot_user t) (ot_purpose t) (ot_hash t) (ot_expires t) used now in
    inr (row (ot_used t), set_otts (<[ot_id t := row None]> (at_otts db)) db).
Definition oneTimeTokenRepo_Create (user purpose hash : string) (expires : Z) : AM OneTimeToken :=
  let* id := uuid_NewString in
  on_err (stmt (insert_ott (mkOTT id user purpose hash expires None 0))) MapError.

Definition oneTimeTokenRepo_GetByHash (hash : string) : AM OneTimeToken :=
  QueryOne (λ _ db, rows_where (λ t, String.eqb (ot_hash t) hash) (at_otts db)).

Definition with_used (now : Z) (t : OneTimeToken) : OneTimeToken :=
  match ot_used t with
  | None => mkOTT (ot_id t) (ot_user t) (ot_purpose t) (ot_hash t) (ot_expires t) (Some now) (ot_created t)
  | Some _ => t
  end.
Definition use_ott (id : string) (o : string) (now : Z) (db : AuthDB) : string + nat * AuthDB :=
  match at_otts db !! id with
  | Some t =>
      match ot_used t with
      | None => inr (1%nat, set_otts (<[id := with_used now t]> (at_otts db)) db)
      | Some _ => inr (0%nat, db)
      end
  | None => inr (0%nat, db)
  end.
Definition oneTimeTokenRepo_MarkUsed (id : string) : AM unit :=
  let* _ := Exec (use_ott id) in ret tt.

Definition use_if_of (user purpose : string) (now : Z) (t : OneTimeToken) : OneTimeToken :=
  if String.eqb (ot_user t) user && String.eqb (ot_purpose t) purpose then with_used now t else t.
Definition use_otts_of (user purpose : string) (o : string) (now : Z) (db : AuthDB)
    : string + nat * AuthDB :=
  inr (length (rows_where (λ t, String.eqb (ot_user t) user && String.eqb (ot_purpose t) purpose &&
                                bool_decide (ot_used t = None)) (at_otts db)),
       set_otts (use_if_of user purpose now <$> at_otts db) db).
Definition oneTimeTokenRepo_InvalidateForUser (user purpose : string) : AM unit :=
  let* _ := Exec (use_otts_of user purpose) in ret tt.

(** ** repository.go: service accounts *)
Definition insert_account (a : ServiceAccount) (o : string) (now : Z) (db : AuthDB)
    : string + ServiceAccount * AuthDB :=
  if negb (visible o (sa_org a)) then inl rls_violation
  else if bool_decide (is_Some (at_accounts db !! sa_id a)) ||
          existsb (λ b, String.eqb (sa_org b) (sa_org a) && String.eqb (sa_name b) (sa_name a))
            (rows_where (λ _, true) (at_accounts db))
  then inl sqlStateUniqueViolation
  else
    let row := mkAccount (sa_id a) now now 1 (sa_org a) (sa_name a) (sa_desc a) (sa_status a)
                 (sa_created_by a) in
    inr (row, set_accounts (<[sa_id a := row]> (at_accounts db)) db).
Definition serviceAccountRepo_Create (org name : string) (desc : option string) (status : string)
    (created_by : option string) : AM ServiceAccount :=
  let* id := uuid_NewString in
  on_err (stmt (insert_account (mkAccount id 0 0 0 org name desc status created_by))) MapError.

Definition serviceAccountRepo_GetByID (id : string) : AM ServiceAccount :=
  QueryOne (λ o db, match row_at sa_org o id (at_accounts db) with Some a => [a] | None => [] end).

Definition account_cursor (a : ServiceAccount) : Cursor := mkCursor (sa_created a) (sa_id a).
Definition serviceAccountRepo_List `{CursorJSON} (req : PageRequest) : AM (Page ServiceAccount) :=
  List_ account_cursor (λ o db, rows_where (λ a, visible o (sa_org a)) (at_accounts db)) req.

(** The API tokens of the account go with it (ON DELETE CASCADE). *)
Definition delete_account (id : string) (o : string) (now : Z) (db : AuthDB) : string + nat * AuthDB :=
  match row_at sa_org o id (at_accounts db) with
  | Some _ =>
      inr (1%nat, set_api (filter (λ kv, ap_account kv.2 ≠ id) (at_api db))
                    (set_accounts (delete id (at_accounts db)) db))
  | None => inr (0%nat, db)
  end.
Definition serviceAccountRepo_Delete (id : string) : AM unit :=
  let* n := Exec (delete_account id) in
  require_rows n (NotFound "service account not found").

(** ** repository.go: API tokens *)
Definition insert_api (t : APIToken) (o : string) (now : Z) (db : AuthDB) : string + APIToken * AuthDB :=
  if negb (visible o (ap_org t)) then inl rls_violation
  else if bool_decide (is_Some (at_api db !! ap_id t)) ||
          existsb (λ b, String.eqb (ap_hash b) (ap_hash t)) (rows_where (λ _, true) (at_api db))
  then inl sqlStateUniqueViolation
  else if negb (bool_decide (is_Some (at_accounts db !! ap_account t))) then inl sqlStateForeignKeyViolation
  else
    let row last_used revoked :=
      mkApi (ap_id t) now now 1 (ap_org t) (ap_account t) (ap_name t) (ap_prefix t) (ap_hash t)
        (ap_scopes t) (ap_expires t) last_used revoked in
    inr (row (ap_last_used t) (ap_revoked t),
         set_api (<[ap_id t := row None None]> (at_api db)) db).
Definition apiTokenRepo_Create (org account name prefix hash : string) (scopes : list string)
    (expires : option Z) : AM APIToken :=
  let* id := uuid_NewString in
  on_err (stmt (insert_api (mkApi id 0 0 0 org account name prefix hash scopes expires None None)))
    MapError.

Definition api_cursor (t : APIToken) : Cursor := mkCursor (ap_created t) (ap_id t).
Definition apiTokenRepo_ListByOrg `{CursorJSON} (req : PageRequest) : AM (Page APIToken) :=
  List_ api_cursor (λ o db, rows_where (λ t, visible o (ap_org t)) (at_api db)) req.

Definition api_revoked (now : Z) (t : APIToken) : APIToken :=
  mkApi (ap_id t) (ap_created t) now (ap_version t) (ap_org t) (ap_account t) (ap_name t) (ap_prefix t)
    (ap_hash t) (ap_scopes t) (ap_expires t) (ap_last_used t) (Some now).
Definition revoke_api (id : string) (o : string) (now : Z) (db : AuthDB) : string + nat * AuthDB :=
  match row_at ap_org o id (at_api db) with
  | Some t =>
      match ap_revoked t with
      | None => inr (1%nat, set_api (<[id := api_revoked now t]> (at_api db)) db)
      | Some _ => inr (0%nat, db)
      end
  | None => inr (0%nat, db)
  end.
Definition apiTokenRepo_Revoke (id : string) : AM unit :=
  let* n := Exec (revoke_api id) in
  require_rows n (NotFound "api token not found").

Definition scopesOrEmpty (s : option (list string)) : list string := default [] s.
End Repositories.
