(* ===== verification/AuthService.v ===== *)
(** * The authentication service

    services/auth/internal: service.go, service_accounts.go, jwt.go, tokens.go,
    errors.go, events.go, middleware.go, handlers.go and routes.go, and the
    revocation list of libs/security/sessions.go.  A request is [serve_auth].
    Parameters: Argon2 ([IDKey]), the JWT library (class [JWT]), Redis (class
    [RevocationStore]), the random source [rand] (what the n-th draw of so many
    bytes gives), and whether a revocation store and a notifier are wired.
    Request bodies arrive parsed. *)

From S2P Require Import Prelude Json GoTime AppErrors Tx Events Pagination Authz Http.
From S2P Require Import Encodings Credentials AuthStore.
Open Scope Z_scope.
Open Scope tx_scope.

(** ** errors.go *)
Definition errInvalidCredentials := NewWithStatus "INVALID_CREDENTIALS" 401 "invalid email or password".
Definition errMFARequired := NewWithStatus "MFA_REQUIRED" 401 "multi-factor authentication code required".
Definition errMFAInvalid := NewWithStatus "MFA_INVALID" 401 "invalid multi-factor authentication code".
Definition errAccountLocked :=
  NewWithStatus "ACCOUNT_LOCKED" 423 "account temporarily locked due to failed login attempts".
Definition errInvalidToken := NewWithStatus "INVALID_TOKEN" 401 "invalid or expired token".
Definition errTokenRevoked := NewWithStatus "TOKEN_REVOKED" 401 "token has been revoked".
Definition errEmailTaken := NewWithStatus "EMAIL_TAKEN" 409 "an account with this email already exists".
Definition errNameTaken := NewWithStatus "NAME_TAKEN" 409 "name already in use".

(** ** events.go *)
Definition EventUserCreated : string := "auth.user.created".
Definition EventEmailVerificationRequested : string := "auth.user.email.verification.requested".
Definition EventEmailVerified : string := "auth.user.email.verified".
Definition EventPasswordReset : string := "auth.user.password.reset".
Definition EventLoginSucceeded : string := "auth.login.succeeded".
Definition EventLoginFailed : string := "auth.login.failed".
Definition EventTokenRevoked : string := "auth.token.revoked".
Definition EventTokenRotated : string := "auth.token.rotated".
Definition EventMFASetupStarted : string := "auth.mfa.setup.started".
Definition EventMFAEnabled : string := "auth.mfa.enabled".
Definition EventMFADisabled : string := "auth.mfa.disabled".
Definition EventServiceAccountCreated : string := "auth.service.account.created".
Definition EventServiceAccountDeleted : string := "auth.service.account.deleted".
Definition EventAPITokenCreated : string := "auth.api.token.created".
Definition EventAPITokenRevoked : string := "auth.api.token.revoked".
Definition authEventVersion : Z := 1.
Definition systemOrg : string := "platform".
Definition PurposeEmailVerification : string := "email_verification".
Definition PurposePasswordResetMsg : string := "password_reset".

(** ** tokens.go *)
Definition hashToken (token : string) : string :=
  text_of (mjoin (hex_byte <$> Sha256.Sum256 (bytes_of token))).

(** ** jwt.go *)
Definition jwtIssuer : string := "bdsplatform-auth".

(** golang-jwt: signing claims with HS256, and [ParseWithClaims] with the key,
    the issuer and HS256 required: the claims of a token that is valid now. *)
Class JWT := {
  jwt_SignedString : list Z → json → result goerr string;
  jwt_ParseWithClaims : list Z → string → Z → string → option json }.

(** What the code relies on: what was signed with the key is read back while its
    expiry is in the future, if the issuer is the one required, and a compact
    token has no blanks around it. *)
Class JWTLaws `{!JWT} : Prop := {
  jwt_parsed key fs token iss e now :
    jwt_SignedString key (JObj fs) = Ok token → NoDup fs.*1 →
    ("iss"%string, JStr iss) ∈ fs → ("exp"%string, JNum e) ∈ fs →
    jwt_ParseWithClaims key iss now token = if now <? e * GoTime.Second then Some (JObj fs) else None;
  jwt_compact key claims token : jwt_SignedString key claims = Ok token →
    token ≠ "" ∧ GoStrings.TrimSpace token = token }.

(** [omitempty]. *)
Definition opt_field (name v : string) : list (string * json) :=
  if String.eqb v "" then [] else [(name, JStr v)].

(** [jwt.RegisteredClaims]; a [NumericDate] has whole seconds. *)
Definition registered_claims (subject jti : string) (issued expires : Z) : list (string * json) :=
  opt_field "iss" jwtIssuer ++ opt_field "sub" subject ++
  [("exp", JNum (expires / GoTime.Second)); ("iat", JNum (issued / GoTime.Second))] ++
  opt_field "jti" jti.
Definition access_claims (email sid subject jti : string) (issued expires : Z) : json :=
  JObj (("email", JStr email) :: opt_field "sid" sid ++ registered_claims subject jti issued expires).
Definition service_account_claims (org : string) (scopes : list string) (subject jti : string)
    (issued expires : Z) : json :=
  JObj (("org_id", JStr org) ::
        match scopes with [] => [] | _ => [("scopes", JArr (JStr <$> scopes))] end ++
        registered_claims subject jti issued expires).

(** Unmarshalling into [AccessClaims]: what the code reads of it. *)
Record AccessClaims := mkClaims {
  cl_email : string; cl_sid : string; cl_sub : string; cl_id : string; cl_iat : option Z }.
Definition json_iat : list (string * json) → option (option Z) :=
  λ fs, field_as (λ v j, match j with JNum n => Some (Some n) | JNull => Some None | _ => None end)
          None fs "iat".
Definition access_of (j : json) : option AccessClaims :=
  match j with
  | JObj fs =>
      email ← json_field fs "email"; sid ← json_field fs "sid"; sub ← json_field fs "sub";
      id ← json_field fs "jti"; iat ← json_iat fs;
      Some (mkClaims email sid sub id iat)
  | _ => None
  end.

(** ** libs/security/sessions.go: [TokenRevocationList] over Redis *)
Class RevocationStore (R : Type) := {
  (** SET key "1" with a time to live, and EXISTS: how many of the keys exist. *)
  redis_Set : Z → string → Z → R → result goerr unit * R;
  redis_Exists : Z → list string → R → result goerr Z }.
Definition revokedPrefix : string := "revoked:".

(** What the code relies on: a key lives until its time to live is over, and a
    failing SET may or may not have taken effect.  [redis_expiry] is when a key
    ends. *)
Class RevocationLaws R `{!RevocationStore R} := {
  redis_expiry : R → string → option Z;
  redis_set now k ttl r res r' : redis_Set now k ttl r = (res, r') →
    (∀ j, j ≠ k → redis_expiry r' j = redis_expiry r j) ∧
    (redis_expiry r' k = Some (now + ttl) ∨ res ≠ Ok tt ∧ redis_expiry r' k = redis_expiry r k);
  redis_exists now ks r n : redis_Exists now ks r = Ok n →
    n = Z.of_nat (length (filter (λ k, default false ((λ e, now <? e) <$> redis_expiry r k) = true) ks)) }.

(** [AnyRevoked] of the identifiers that are not empty, and [IsRevoked]. *)
Definition AnyRevoked {R} `{!RevocationStore R} (now : Z) (ids : list string) (r : R) : result goerr bool :=
  let keys := (λ id, revokedPrefix +:+ id) <$> filter (λ id, id ≠ "") ids in
  match keys with
  | [] => Ok false
  | _ => match redis_Exists now keys r with Ok n => Ok (0 <? n) | Err e => Err e end
  end.
Definition IsRevoked {R} `{!RevocationStore R} (now : Z) (tokenID : string) (r : R) : result goerr bool :=
  match redis_Exists now [revokedPrefix +:+ tokenID] r with Ok n => Ok (0 <? n) | Err e => Err e end.

(** ** Tunables *)
Definition maxFailedLogins : Z := 5.
Definition lockoutDuration : Z := 15 * GoTime.Minute.
Definition emailVerifyTTL : Z := 24 * GoTime.Hour.
Definition passwordResetTTL : Z := GoTime.Hour.
Definition minPasswordLen : nat := 8.
Definition mfaIssuerLabel : string := "BDS Platform".

Record RequestMeta := mkMeta { rm_agent : string; rm_ip : string }.

(** ** Validation helpers *)
Definition normalizeEmail (email : string) : string := GoStrings.ToLower (GoStrings.TrimSpace email).

(** [strings.IndexByte] and [strings.Contains] for one byte. *)
Fixpoint IndexByte (c : Ascii.ascii) (s : string) : option nat :=
  match s with
  | EmptyString => None
  | String a s' => if Ascii.eqb a c then Some 0%nat else S <$> IndexByte c s'
  end.
Definition at_byte : Ascii.ascii := Ascii.ascii_of_nat 64.
Definition dot_byte : Ascii.ascii := Ascii.ascii_of_nat 46.
Definition validateEmail (email : string) : option goerr :=
  let bad := Some (Validation "a valid email address is required") in
  match IndexByte at_byte email with
  | None => bad
  | Some at_ =>
      if (at_ =? 0)%nat || (at_ =? String.length email - 1)%nat ||
         negb (bool_decide (is_Some (IndexByte dot_byte (GoStrings.drop_str (at_ + 1) email))))
      then bad else None
  end.
Definition validatePassword (password : string) : option goerr :=
  if (String.length password <? minPasswordLen)%nat
  then Some (Validation "password must be at least 8 characters") else None.
Definition optionalString (s : string) : option string :=
  if String.eqb (GoStrings.TrimSpace s) "" then None else Some s.
Definition blank (s : string) : bool := String.eqb (GoStrings.TrimSpace s) "".

(** 64-bit multiplication of durations wraps. *)
Definition wrap64 (z : Z) : Z := (z + 2 ^ 63) mod 2 ^ 64 - 2 ^ 63.

(** ** Changes of the captured user *)
Definition with_login_state (failed : Z) (locked : option Z) (u : User) : User :=
  mkUser (u_id u) (u_created u) (u_updated u) (u_version u) (u_email u) (u_name u) (u_hash u)
    (u_status u) (u_verified u) (u_mfa u) (u_secret u) failed locked.
Definition with_mfa (on : bool) (secret : option string) (u : User) : User :=
  mkUser (u_id u) (u_created u) (u_updated u) (u_version u) (u_email u) (u_name u) (u_hash u)
    (u_status u) (u_verified u) on secret (u_failed u) (u_locked u).
Definition with_verified (u : User) : User :=
  mkUser (u_id u) (u_created u) (u_updated u) (u_version u) (u_email u) (u_name u) (u_hash u)
    (u_status u) true (u_mfa u) (u_secret u) (u_failed u) (u_locked u).
Definition with_password (hash : string) (u : User) : User :=
  mkUser (u_id u) (u_created u) (u_updated u) (u_version u) (u_email u) (u_name u) hash
    (u_status u) (u_verified u) (u_mfa u) (u_secret u) (u_failed u) (u_locked u).

Record APITokenResult := mkApiResult {
  ar_id : string; ar_name : string; ar_prefix : string; ar_token : string;
  ar_scopes : list string; ar_expires : option Z; ar_created : Z }.

(** ** handlers.go: views, responses and the requests of the routes *)
Record serviceAccountView := mkAccountView {
  sv_id : string; sv_org : string; sv_name : string; sv_desc : option string; sv_status : string;
  sv_created : Z }.
Definition toServiceAccountView (a : ServiceAccount) : serviceAccountView :=
  mkAccountView (sa_id a) (sa_org a) (sa_name a) (sa_desc a) (sa_status a) (sa_created a).
Record apiTokenView := mkApiView {
  av_id : string; av_name : string; av_prefix : string; av_scopes : list string;
  av_expires : option Z; av_last_used : option Z; av_revoked : option Z; av_created : Z }.
Definition toAPITokenView (t : APIToken) : apiTokenView :=
  mkApiView (ap_id t) (ap_name t) (ap_prefix t) (ap_scopes t) (ap_expires t) (ap_last_used t)
    (ap_revoked t) (ap_created t).

Inductive AuthBody :=
| ABNone
| ABPair (tokens : TokenPair)
| ABFlag (name : string) (b : bool)
| ABStatus (s : string)
| ABProfile (p : UserProfile)
| ABSetup (m : MFASetupResult)
| ABAccount (a : serviceAccountView)
| ABAccounts (items : list serviceAccountView) (nextCursor : string)
| ABToken (t : APITokenResult)
| ABTokens (items : list apiTokenView) (nextCursor : string).
Record AuthResponse := mkAuthResponse { as_status : Z; as_body : AuthBody }.

(** A body is [None] when it cannot be parsed. *)
Inductive PublicRequest :=
| PostSignup (meta : RequestMeta) (b : option SignupRequest)
| PostLogin (meta : RequestMeta) (b : option LoginRequest)
| PostRefresh (meta : RequestMeta) (refreshToken : option string)
| PostVerifyEmail (token : option string)
| PostResendVerification (email : option string)
| PostResetRequest (email : option string)
| PostResetConfirm (token_and_password : option (string * string)).
Inductive AccountRequest :=
| PostLogout (refreshToken : option string)
| GetMe
| PostMFASetup
| PostMFAEnable (code : option string)
| PostMFADisable (code : option string)
| PostServiceAccount (org : string) (b : option CreateServiceAccountRequest)
| ListServiceAccounts (org : string) (page : PageRequest)
| DeleteServiceAccount (org id : string)
| PostAPIToken (org account : string) (b : option CreateAPITokenRequest)
| ListAPITokens (org : string) (page : PageRequest)
| DeleteAPIToken (org id : string).
Inductive AuthRequest :=
| Public (r : PublicRequest)
| WithAuth (authorization : string) (r : AccountRequest).

Section Service.
Context {R : Type} `{RS : !RevocationStore R} `{JW : !JWT} `{CJ : !CursorJSON}.
Context (IDKey : list Z → list Z → Z → Z → Z → Z → list Z) (rand : nat → nat → option (list Z)).
Context (signing_key : list Z) (AccessTTL RefreshTTL : Z) (revoking notifying : bool).
Abbreviation AM := (M AuthDB (AOutside R)).

Definition of_result {A} (r : result goerr A) : AM A :=
  match r with Ok a => ret a | Err e => fail e end.

(** [rand.Read]; draws are numbered like identifiers. *)
Definition rand_Read (n : nat) : AM (option (list Z)) := λ s,
  (Ok (rand (uuid_next s) n), set_uuid_next (S (uuid_next s)) s).
Definition captured_ : AM User := λ s, (Ok (captured (outside s)), s).
Definition capture (u : User) : AM unit := λ s,
  (Ok tt, set_outside (mkAOutside u (redis (outside s)) (mailbox (outside s))) s).
(** [s.users.Update(ctx, user)] on the captured user. *)
Definition update_captured : AM unit :=
  let* u := captured_ in
  let* u := userRepo_Update u in
  capture u.

Definition notify (d : TokenDelivery) : AM unit := λ s,
  if notifying
  then (Ok tt, set_outside (mkAOutside (captured (outside s)) (redis (outside s))
                              (mailbox (outside s) ++ [d])) s)
  else (Ok tt, s).

Definition TokenRevocationList_Revoke (tokenID : string) (expiresAt : Z) : AM unit := λ s,
  let ttl := expiresAt - clock s in
  if ttl <=? 0 then (Ok tt, s)
  else
    let '(r, store) := redis_Set (clock s) (revokedPrefix +:+ tokenID) ttl (redis (outside s)) in
    (r, set_outside (mkAOutside (captured (outside s)) store (mailbox (outside s))) s).

Definition enqueue_auth (eventType orgID : string) (p : auth_payload)
    (opts : list (@Option_ auth_payload)) : AM unit :=
  let orgID := if String.eqb orgID "" then systemOrg else orgID in
  let* e := events_New eventType authEventVersion orgID p opts in
  PostgresOutbox_Enqueue e.
Definition by_account (id : string) : list (@Option_ auth_payload) := [WithActor (mkActor "user" id)].
Definition on_account (id : string) : list (@Option_ auth_payload) := [WithResource (mkResource "user" id)].

Definition generateSecret (numBytes : nat) : AM string :=
  let* b := rand_Read numBytes in
  match b with
  | None => fail (Plain "auth: generate random token")
  | Some b => ret (Base64.text (Base64.encode b))
  end.

(** ** jwt.go: [JWTIssuer] *)
Definition JWTIssuer_Issue (userID email sessionID : string) : AM (string * string * Z) :=
  let* now := now_ in
  let* jti := uuid_NewString in
  match jwt_SignedString signing_key (access_claims email sessionID userID jti now (now + AccessTTL)) with
  | Err e => fail (Wrapped "auth: sign access token" e)
  | Ok signed => ret (signed, jti, Z.quot AccessTTL GoTime.Second)
  end.

Definition JWTIssuer_Verify (now : Z) (token : string) : result goerr AccessClaims :=
  match jwt_ParseWithClaims signing_key jwtIssuer now token ≫= access_of with
  | None => Err errInvalidToken
  | Some claims => Ok claims
  end.

Definition JWTIssuer_IssueServiceAccountToken (serviceAccountID orgID : string)
    (scopes : list string) (expiresAt : option Z) : AM (string * string) :=
  let* now := now_ in
  let* jti := uuid_NewString in
  let exp := default (now + 365 * 24 * GoTime.Hour) expiresAt in
  match jwt_SignedString signing_key
          (service_account_claims orgID scopes serviceAccountID jti now exp) with
  | Err e => fail (Wrapped "auth: sign service account token" e)
  | Ok signed => ret (signed, jti)
  end.

(** ** service.go: sessions and one-time tokens *)
Definition issueTokenPair (u : User) (includeUser : bool) (meta : RequestMeta) : AM TokenPair :=
  let* refreshPlain := generateSecret 32 in
  let* now := now_ in
  let* session := sessionRepo_Create (u_id u) (hashToken refreshPlain)
    (optionalString (rm_agent meta)) (optionalString (rm_ip meta)) (now + RefreshTTL) in
  let* issued := JWTIssuer_Issue (u_id u) (u_email u) (rt_id session) in
  let '(access, _, expiresIn) := issued in
  ret (mkPair access refreshPlain expiresIn (if includeUser then Some (Profile u) else None)).

Definition createOneTimeToken (userID purpose : string) (ttl : Z) : AM (string * string) :=
  let* plaintext := generateSecret 32 in
  let* now := now_ in
  let* ott := oneTimeTokenRepo_Create userID purpose (hashToken plaintext) (now + ttl) in
  ret (plaintext, ot_id ott).

Definition consumeOneTimeToken (token purpose : string) (apply : User → AM unit) : AM unit :=
  if blank token then fail errInvalidToken
  else
    Tx false (
      let* ott := on_err (oneTimeTokenRepo_GetByHash (hashToken token))
        (λ e, if IsNotFound e then errInvalidToken else e) in
      let* now := now_ in
      if negb (String.eqb (ot_purpose ott) purpose) || negb (Usable ott now) then fail errInvalidToken
      else
        let* user := userRepo_GetByID (ot_user ott) in
        oneTimeTokenRepo_MarkUsed (ot_id ott) ;;
        apply user).

Definition revokeSessionInCache (sessionID : string) : AM unit :=
  if negb revoking || String.eqb sessionID "" then ret tt
  else
    let* now := now_ in
    let* _ := try (TokenRevocationList_Revoke sessionID (now + AccessTTL)) in
    ret tt.

(** ** Signup and login *)
Definition new_user (email name hash : string) : User :=
  mkUser "" 0 0 0 email name hash UserStatusActive false false None 0 None.

Definition Service_Signup (req : SignupRequest) (meta : RequestMeta) : AM TokenPair :=
  let email := normalizeEmail (sg_email req) in
  let* _ := check (validateEmail email) in
  let* _ := check (validatePassword (sg_password req)) in
  if blank (sg_name req) then fail (Validation "name is required")
  else
    let* salt := rand_Read (Z.to_nat argonSaltLen) in
    let* hash := of_result (HashPassword IDKey salt (sg_password req)) in
    let* committed :=
      Tx false (
        let* user := on_err (userRepo_Create (new_user email (GoStrings.TrimSpace (sg_name req)) hash))
          (λ e, if String.eqb (from_code e) CodeConflict then errEmailTaken else e) in
        let* created := createOneTimeToken (u_id user) PurposeEmailVerify emailVerifyTTL in
        let '(verifyToken, deliveryRef) := created in
        let* tokens := issueTokenPair user true meta in
        enqueue_auth EventUserCreated systemOrg
          (userCreatedPayload (u_id user) (u_email user) (u_name user))
          (by_account (u_id user) ++ on_account (u_id user)) ;;
        enqueue_auth EventEmailVerificationRequested systemOrg
          (emailVerificationRequestedPayload (u_id user) (u_email user) PurposeEmailVerification deliveryRef)
          (on_account (u_id user)) ;;
        ret (user, verifyToken, deliveryRef, tokens)) in
    let '(user, verifyToken, deliveryRef, tokens) := committed in
    notify (mkDelivery PurposeEmailVerification (u_id user) (u_email user) verifyToken deliveryRef) ;;
    ret tokens.

(** The failure counter, and the lock at the threshold; what goes wrong here is
    only logged. *)
Definition failed_login (now : Z) (u : User) : User :=
  let failed := u_failed u + 1 in
  with_login_state failed
    (if maxFailedLogins <=? failed then Some (now + lockoutDuration) else u_locked u) u.
Definition registerFailedLogin (user : User) : AM unit :=
  let* now := now_ in
  capture (failed_login now user) ;;
  let* _ := try (Tx false (
    update_captured ;;
    let* u := captured_ in
    enqueue_auth EventLoginFailed systemOrg (loginFailedPayload (u_id u) (u_email u) (u_failed u))
      (by_account (u_id u)))) in
  ret tt.

(** The transaction of a login. *)
Definition login_commit (meta : RequestMeta) : AM TokenPair :=
  Tx false (
    let* u := captured_ in
    (if negb (u_failed u =? 0) || bool_decide (is_Some (u_locked u))
     then capture (with_login_state 0 None u) ;; update_captured
     else ret tt) ;;
    let* u := captured_ in
    let* tokens := issueTokenPair u true meta in
    enqueue_auth EventLoginSucceeded systemOrg (loginSucceededPayload (u_id u) (u_email u))
      (by_account (u_id u)) ;;
    ret tokens).

(** The code is right for the user's secret. *)
Definition mfa_ok (u : User) (code : string) (now : Z) : bool :=
  match u_secret u with Some secret => verifyTOTP secret code now | None => false end.

Definition Service_Login (req : LoginRequest) (meta : RequestMeta) : AM TokenPair :=
  let email := normalizeEmail (lg_email req) in
  if String.eqb email "" || String.eqb (lg_password req) "" then fail errInvalidCredentials
  else
    let* user := on_err (autocommit (userRepo_GetByEmail email))
      (λ e, if IsNotFound e then errInvalidCredentials else e) in
    let* now := now_ in
    if IsLocked user now then fail errAccountLocked
    else if String.eqb (u_status user) UserStatusDisabled then fail errInvalidCredentials
    else
      let* ok := of_result (VerifyPassword IDKey (lg_password req) (u_hash user)) in
      if negb ok then registerFailedLogin user ;; fail errInvalidCredentials
      else if u_mfa user && blank (lg_code req) then fail errMFARequired
      else if u_mfa user && negb (mfa_ok user (lg_code req) now)
      then registerFailedLogin user ;; fail errMFAInvalid
      else capture user ;; login_commit meta.

(** ** Token lifecycle *)

(** [Refresh] reads the session and the user on the pool, ... *)
Definition refresh_check (token : string) : AM (RefreshToken * User) :=
  if blank token then fail errInvalidToken
  else
    let* session := on_err (autocommit (sessionRepo_GetByHash (hashToken token)))
      (λ e, if IsNotFound e then errInvalidToken else e) in
    let* now := now_ in
    if bool_decide (is_Some (rt_revoked session)) then fail errTokenRevoked
    else if negb (Active session now) then fail errInvalidToken
    else
      let* user := autocommit (userRepo_GetByID (rt_user session)) in
      if IsLocked user now || String.eqb (u_status user) UserStatusDisabled then fail errAccountLocked
      else ret (session, user).

(** ... then rotates the session in a transaction.  The new session was just
    written with the hash of the new token. *)
Definition refresh_rotate (session : RefreshToken) (user : User) (meta : RequestMeta) : AM TokenPair :=
  let* tokens :=
    Tx false (
      let* tokens := issueTokenPair user false meta in
      let* newSession := try (sessionRepo_GetByHash (hashToken (tp_refresh tokens))) in
      let* newSessionID :=
        match newSession with
        | Ok s => sessionRepo_Revoke (rt_id session) (Some (rt_id s)) ;; ret (rt_id s)
        | Err _ => sessionRepo_Revoke (rt_id session) None ;; ret ""
        end in
      enqueue_auth EventTokenRotated systemOrg
        (tokenRotatedPayload (u_id user) newSessionID (rt_id session)) (by_account (u_id user)) ;;
      ret tokens) in
  revokeSessionInCache (rt_id session) ;;
  ret tokens.

Definition Service_Refresh (token : string) (meta : RequestMeta) : AM TokenPair :=
  let* checked := refresh_check token in
  refresh_rotate checked.1 checked.2 meta.

Definition Service_Logout (token : string) : AM unit :=
  if blank token then ret tt
  else
    let* found := try (autocommit (sessionRepo_GetByHash (hashToken token))) in
    match found with
    | Err e => if IsNotFound e then ret tt else fail e
    | Ok session =>
        Tx false (
          sessionRepo_Revoke (rt_id session) None ;;
          enqueue_auth EventTokenRevoked systemOrg (tokenRevokedPayload (rt_user session) (rt_id session))
            (by_account (rt_user session))) ;;
        revokeSessionInCache (rt_id session)
    end.

(** ** Email verification and password reset *)
Definition verify_user (u : User) : AM unit :=
  if u_verified u then ret tt
  else
    let* u := userRepo_Update (with_verified u) in
    enqueue_auth EventEmailVerified systemOrg (emailVerifiedPayload (u_id u) (u_email u))
      (by_account (u_id u) ++ on_account (u_id u)).
Definition Service_VerifyEmail (token : string) : AM unit :=
  consumeOneTimeToken token PurposeEmailVerify verify_user.

(** A new token of a purpose in place of the earlier ones. *)
Definition renew_token (user : User) (purpose : string) (ttl : Z) (eventType : string)
    (p : string → auth_payload) : AM (string * string) :=
  Tx false (
    oneTimeTokenRepo_InvalidateForUser (u_id user) purpose ;;
    let* created := createOneTimeToken (u_id user) purpose ttl in
    enqueue_auth eventType systemOrg (p created.2) (on_account (u_id user)) ;;
    ret created).

Definition Service_ResendVerification (email : string) : AM unit :=
  let* found := try (autocommit (userRepo_GetByEmail (normalizeEmail email))) in
  match found with
  | Err e => if IsNotFound e then ret tt else fail e
  | Ok user =>
      if u_verified user then ret tt
      else
        let* created := renew_token user PurposeEmailVerify emailVerifyTTL EventEmailVerificationRequested
          (emailVerificationRequestedPayload (u_id user) (u_email user) PurposeEmailVerification) in
        notify (mkDelivery PurposeEmailVerification (u_id user) (u_email user) created.1 created.2)
  end.

Definition Service_RequestPasswordReset (email : string) : AM unit :=
  let* found := try (autocommit (userRepo_GetByEmail (normalizeEmail email))) in
  match found with
  | Err e => if IsNotFound e then ret tt else fail e
  | Ok user =>
      let* created := renew_token user PurposePasswordReset passwordResetTTL EventPasswordReset
        (passwordResetPayload (u_id user) "requested" (u_email user) PurposePasswordResetMsg) in
      notify (mkDelivery PurposePasswordResetMsg (u_id user) (u_email user) created.1 created.2)
  end.

Definition reset_user (hash : string) (u : User) : AM unit :=
  let* u := userRepo_Update (with_login_state 0 None (with_password hash u)) in
  sessionRepo_RevokeAllForUser (u_id u) ;;
  enqueue_auth EventPasswordReset systemOrg (passwordResetPayload (u_id u) "completed" "" "" "")
    (by_account (u_id u) ++ on_account (u_id u)).
Definition Service_ConfirmPasswordReset (token newPassword : string) : AM unit :=
  let* _ := check (validatePassword newPassword) in
  let* salt := rand_Read (Z.to_nat argonSaltLen) in
  let* hash := of_result (HashPassword IDKey salt newPassword) in
  consumeOneTimeToken token PurposePasswordReset (reset_user hash).

(** ** Profile and MFA *)
Definition Service_Me (userID : string) : AM UserProfile :=
  let* user := autocommit (userRepo_GetByID userID) in
  ret (Profile user).

(** The transaction the three MFA operations end with. *)
Definition mfa_commit (eventType : string) : AM unit :=
  Tx false (
    update_captured ;;
    let* u := captured_ in
    enqueue_auth eventType systemOrg (mfaPayload (u_id u)) (by_account (u_id u) ++ on_account (u_id u))).

Definition Service_SetupMFA (userID : string) : AM MFASetupResult :=
  let* user := autocommit (userRepo_GetByID userID) in
  let* b := rand_Read totpSecretLen in
  match generateTOTPSecret b with
  | None => fail (Plain "auth: generate totp secret")
  | Some secret =>
      capture (with_mfa false (Some secret) user) ;;
      mfa_commit EventMFASetupStarted ;;
      ret (mkSetup secret (otpauthURL mfaIssuerLabel (u_email user) secret))
  end.

Definition Service_EnableMFA (userID code : string) : AM unit :=
  let* user := autocommit (userRepo_GetByID userID) in
  let* now := now_ in
  match u_secret user with
  | None => fail (Validation "MFA setup has not been started")
  | Some secret =>
      if negb (verifyTOTP secret code now) then fail errMFAInvalid
      else capture (with_mfa true (Some secret) user) ;; mfa_commit EventMFAEnabled
  end.

Definition Service_DisableMFA (userID code : string) : AM unit :=
  let* user := autocommit (userRepo_GetByID userID) in
  let* now := now_ in
  match u_mfa user, u_secret user with
  | true, Some secret =>
      if negb (verifyTOTP secret code now) then fail errMFAInvalid
      else capture (with_mfa false None user) ;; mfa_commit EventMFADisabled
  | _, _ => fail (Validation "MFA is not enabled")
  end.

(** ** service_accounts.go *)
Definition authorize_machines (orgID userID : string) : AM string :=
  AuthorizeOrgMember NewPolicyAuthorizer orgID userID ActionManageOrg.

Definition Service_CreateServiceAccount (orgID creator : string) (req : CreateServiceAccountRequest)
    : AM ServiceAccount :=
  let* _ := authorize_machines orgID creator in
  if blank (cs_name req) then fail (Validation "name is required")
  else
    let d := GoStrings.TrimSpace (cs_desc req) in
    let desc := if String.eqb d "" then None else Some d in
    WithTenant orgID (
      let* sa := on_err (serviceAccountRepo_Create orgID (GoStrings.TrimSpace (cs_name req)) desc "active"
                           (optionalString creator))
        (λ e, if String.eqb (from_code e) CodeConflict then errNameTaken else e) in
      enqueue_auth EventServiceAccountCreated orgID
        (serviceAccountCreatedPayload (sa_id sa) (sa_name sa) creator)
        (by_account creator ++ [WithResource (mkResource "service_account" (sa_id sa))]) ;;
      ret sa).

Definition Service_ListServiceAccounts (orgID userID : string) (page : PageRequest)
    : AM (Page ServiceAccount) :=
  let* _ := AuthorizeOrgRead orgID userID in
  WithTenant orgID (serviceAccountRepo_List page).

Definition Service_DeleteServiceAccount (orgID userID id : string) : AM unit :=
  let* _ := authorize_machines orgID userID in
  WithTenant orgID (
    serviceAccountRepo_Delete id ;;
    enqueue_auth EventServiceAccountDeleted orgID (serviceAccountDeletedPayload id)
      [WithResource (mkResource "service_account" id)]).

Definition api_expiry (now days : Z) : option Z :=
  if 0 <? days then Some (now + wrap64 (wrap64 (days * 24) * GoTime.Hour)) else None.

Definition Service_CreateAPIToken (orgID userID serviceAccountID : string) (req : CreateAPITokenRequest)
    : AM APITokenResult :=
  let* _ := authorize_machines orgID userID in
  if blank (ca_name req) then fail (Validation "name is required")
  else
    let* now := now_ in
    let expiresAt := api_expiry now (ca_days req) in
    let scopes := scopesOrEmpty (ca_scopes req) in
    let* issued := JWTIssuer_IssueServiceAccountToken serviceAccountID orgID scopes expiresAt in
    let '(jwtToken, jti) := issued in
    let* token := WithTenant orgID (
      let* _ := on_err (serviceAccountRepo_GetByID serviceAccountID)
        (λ e, if IsNotFound e then NotFound "service account not found" else e) in
      let* token := apiTokenRepo_Create orgID serviceAccountID (GoStrings.TrimSpace (ca_name req))
        ("jwt_" +:+ GoStrings.take_str 8 jti) jti scopes expiresAt in
      enqueue_auth EventAPITokenCreated orgID
        (apiTokenCreatedPayload (ap_id token) serviceAccountID (ap_name token))
        [WithResource (mkResource "api_token" (ap_id token))] ;;
      ret token) in
    ret (mkApiResult (ap_id token) (ap_name token) (ap_prefix token) jwtToken (ap_scopes token)
           (ap_expires token) (ap_created token)).

Definition Service_ListAPITokens (orgID userID : string) (page : PageRequest) : AM (Page APIToken) :=
  let* _ := AuthorizeOrgRead orgID userID in
  WithTenant orgID (apiTokenRepo_ListByOrg page).

Definition Service_RevokeAPIToken (orgID userID id : string) : AM unit :=
  let* _ := authorize_machines orgID userID in
  WithTenant orgID (
    apiTokenRepo_Revoke id ;;
    enqueue_auth EventAPITokenRevoked orgID (apiTokenRevokedPayload id)
      [WithResource (mkResource "api_token" id)]).

(** ** middleware.go *)
Definition RequireAuth {A} (header : string) (next : string → AM A) : AM A :=
  let token := bearerToken header in
  if String.eqb token "" then fail errInvalidToken
  else
    let* now := now_ in
    match JWTIssuer_Verify now token with
    | Err _ => fail errInvalidToken
    | Ok claims => next (cl_sub claims)
    end.

(** ** handlers.go and routes.go *)
Definition respond (status : Z) (b : AuthBody) : AM AuthResponse := ret (mkAuthResponse status b).

Definition serve_public (r : PublicRequest) : AM AuthResponse :=
  match r with
  | PostSignup meta b =>
      let* req := parseBody b in
      let* tokens := Service_Signup req meta in respond 201 (ABPair tokens)
  | PostLogin meta b =>
      let* req := parseBody b in
      let* tokens := Service_Login req meta in respond 200 (ABPair tokens)
  | PostRefresh meta b =>
      let* token := parseBody b in
      let* tokens := Service_Refresh token meta in respond 200 (ABPair tokens)
  | PostVerifyEmail b =>
      let* token := parseBody b in
      Service_VerifyEmail token ;; respond 200 (ABFlag "verified" true)
  | PostResendVerification b =>
      let* email := parseBody b in
      Service_ResendVerification email ;; respond 202 (ABStatus "sent")
  | PostResetRequest b =>
      let* email := parseBody b in
      Service_RequestPasswordReset email ;; respond 202 (ABStatus "sent")
  | PostResetConfirm b =>
      let* req := parseBody b in
      Service_ConfirmPasswordReset req.1 req.2 ;; respond 200 (ABStatus "reset")
  end.

Definition serve_account (user : string) (r : AccountRequest) : AM AuthResponse :=
  match r with
  | PostLogout b =>
      let* token := parseBody b in
      Service_Logout token ;; respond 204 ABNone
  | GetMe => let* p := Service_Me user in respond 200 (ABProfile p)
  | PostMFASetup => let* m := Service_SetupMFA user in respond 200 (ABSetup m)
  | PostMFAEnable b =>
      let* code := parseBody b in
      Service_EnableMFA user code ;; respond 200 (ABFlag "mfaEnabled" true)
  | PostMFADisable b =>
      let* code := parseBody b in
      Service_DisableMFA user code ;; respond 200 (ABFlag "mfaEnabled" false)
  | PostServiceAccount org b =>
      let* req := parseBody b in
      let* sa := Service_CreateServiceAccount org user req in
      respond 201 (ABAccount (toServiceAccountView sa))
  | ListServiceAccounts org page =>
      let* p := Service_ListServiceAccounts org user page in
      respond 200 (ABAccounts (toServiceAccountView <$> Items p) (NextCursor p))
  | DeleteServiceAccount org id => Service_DeleteServiceAccount org user id ;; respond 204 ABNone
  | PostAPIToken org account b =>
      let* req := parseBody b in
      let* t := Service_CreateAPIToken org user account req in respond 201 (ABToken t)
  | ListAPITokens org page =>
      let* p := Service_ListAPITokens org user page in
      respond 200 (ABTokens (toAPITokenView <$> Items p) (NextCursor p))
  | DeleteAPIToken org id => Service_RevokeAPIToken org user id ;; respond 204 ABNone
  end.

Definition serve_auth (r : AuthRequest) : AM AuthResponse :=
  match r with
  | Public r => serve_public r
  | WithAuth header r => RequireAuth header (λ user, serve_account user r)
  end.
End Service.
