(* ===== verification/Gateway.v ===== *)
(** * The gateway's authentication

    services/gateway/internal: auth/auth.go and auth/errors.go (token
    validation), middleware/middleware.go (the request identifier,
    authentication, organization, project and scope middleware) and
    middleware/revocation.go.  A middleware sees the request ([Ctx]) and, as
    [c.Next()], either fails or passes the request on.  The rate limiters, the
    proxy and the routing of Fiber are not modelled. *)

From S2P Require Import Prelude Json AppErrors Authz Http AuthService.
Open Scope Z_scope.

(** ** auth/errors.go *)
Definition ErrInvalidToken : goerr := Unauthorized "invalid or expired token".
Definition ErrTokenRevoked : goerr := Unauthorized "token has been revoked".
Definition ErrNoToken : goerr := Unauthorized "authentication required".
Definition ErrInsufficientScope : goerr := Forbidden "insufficient scope".
Definition ErrOrgMismatch : goerr := Forbidden "organization mismatch".

(** ** auth/auth.go *)
Definition gateway_jwtIssuer : string := "bdsplatform-auth".
Inductive TokenType := TokenTypeUser | TokenTypeServiceAccount.
#[export] Instance TokenType_eq_dec : EqDecision TokenType.
Proof. solve_decision. Defined.
Definition token_type_text (t : TokenType) : string :=
  match t with TokenTypeUser => "user" | TokenTypeServiceAccount => "service_account" end.

Record Identity := mkIdentity {
  id_type : TokenType; id_user : string; id_email : string; id_org : string;
  id_scopes : list string; id_issued : Z; id_jti : string; id_session : string }.
Definition HasScope (i : Identity) (scope : string) : bool :=
  existsb (λ s, String.eqb s scope || String.eqb s "*") (id_scopes i).

(** Unmarshalling into [serviceAccountClaims]: what the code reads of it. *)
Definition json_scopes : list (string * json) → option (list string) :=
  λ fs, field_as (λ v j,
      match j with
      | JArr l => mapM (λ x, match x with JStr s => Some s | JNull => Some "" | _ => None end) l
      | JNull => Some []
      | _ => None
      end) [] fs "scopes".
Record serviceAccountClaims := mkSAClaims {
  sc_org : string; sc_scopes : list string; sc_sub : string; sc_id : string; sc_iat : option Z }.
Definition service_account_of (j : json) : option serviceAccountClaims :=
  match j with
  | JObj fs =>
      org ← json_field fs "org_id"; scopes ← json_scopes fs; sub ← json_field fs "sub";
      id ← json_field fs "jti"; iat ← json_iat fs;
      Some (mkSAClaims org scopes sub id iat)
  | _ => None
  end.

Section Gateway.
Context `{JW : !JWT} (key : list Z).

Definition ValidateUserToken (now : Z) (token : string) : result goerr Identity :=
  match jwt_ParseWithClaims key gateway_jwtIssuer now token ≫= access_of with
  | None => Err ErrInvalidToken
  | Some c => Ok (mkIdentity TokenTypeUser (cl_sub c) (cl_email c) "" [] (default 0 (cl_iat c)) (cl_id c) (cl_sid c))
  end.
Definition ValidateServiceAccountToken (now : Z) (token : string) : result goerr Identity :=
  match jwt_ParseWithClaims key gateway_jwtIssuer now token ≫= service_account_of with
  | None => Err ErrInvalidToken
  | Some c => Ok (mkIdentity TokenTypeServiceAccount (sc_sub c) "" (sc_org c) (sc_scopes c)
                    (default 0 (sc_iat c)) (sc_id c) "")
  end.
Definition ValidateToken (now : Z) (token : string) : result goerr Identity :=
  match ValidateUserToken now token with
  | Ok id => Ok id
  | Err _ =>
      match ValidateServiceAccountToken now token with
      | Ok id => Ok id
      | Err _ => Err ErrInvalidToken
      end
  end.

(** ** middleware/revocation.go *)

(** [Revoked]: a failing store lets the token through. *)
Definition Revoked {R} `{!RevocationStore R} (now : Z) (store : R) (id : Identity) : bool :=
  match AnyRevoked now [id_jti id; id_session id] store with
  | Err _ => false
  | Ok revoked => revoked
  end.

(** ** middleware/middleware.go *)

(** What the middleware reads and writes of a request: method, headers, path
    parameters ("" when absent), the locals, and the organization and user the
    context carries for authorization. *)
Record Ctx := mkCtx {
  cx_method : string; cx_headers : list (string * string); cx_params : list (string * string);
  cx_identity : option Identity; cx_request_id : string; cx_set : list (string * string);
  cx_principal : option Principal; cx_org : option string }.
Definition HeaderRequestID : string := "X-Request-ID".
Definition HeaderCorrelationID : string := "X-Correlation-ID".
Definition HeaderOrgID : string := "X-Org-ID".
Definition HeaderUserID : string := "X-User-ID".
Definition HeaderUserEmail : string := "X-User-Email".
Definition HeaderTokenType : string := "X-Token-Type".

(** Setting a header replaces those of the name. *)
Definition set_header (name v : string) (hs : list (string * string)) : list (string * string) :=
  filter (λ h, GoStrings.ToLower h.1 ≠ GoStrings.ToLower name) hs ++ [(name, v)].
Definition forward (name v : string) (c : Ctx) : Ctx :=
  mkCtx (cx_method c) (set_header name v (cx_headers c)) (cx_params c) (cx_identity c) (cx_request_id c)
    (cx_set c) (cx_principal c) (cx_org c).
Definition respond_header (name v : string) (c : Ctx) : Ctx :=
  mkCtx (cx_method c) (cx_headers c) (cx_params c) (cx_identity c) (cx_request_id c)
    (set_header name v (cx_set c)) (cx_principal c) (cx_org c).
Definition Params (c : Ctx) (name : string) : string :=
  match find (λ p, String.eqb p.1 name) (cx_params c) with Some p => p.2 | None => "" end.

(** A middleware and the handlers after it: [Ok] is the request as it is passed
    on by [c.Next()]. *)
Definition Middleware : Type := Ctx → result goerr Ctx.

Definition RequestID (fresh : string) : Middleware := λ c,
  let sent := header (cx_headers c) HeaderRequestID in
  let id := if String.eqb sent "" then fresh else sent in
  let c := respond_header HeaderRequestID id c in
  let c := mkCtx (cx_method c) (cx_headers c) (cx_params c) (cx_identity c) id (cx_set c)
             (cx_principal c) (cx_org c) in
  Ok (if String.eqb (header (cx_headers c) HeaderCorrelationID) ""
      then respond_header HeaderCorrelationID id c else c).

(** The identity, in the locals and the headers. *)
Definition with_identity (id : Identity) (c : Ctx) : Ctx :=
  let c := mkCtx (cx_method c) (cx_headers c) (cx_params c) (Some id) (cx_request_id c) (cx_set c)
             (cx_principal c) (cx_org c) in
  let c := forward HeaderUserID (id_user id) c in
  let c := if String.eqb (id_email id) "" then c else forward HeaderUserEmail (id_email id) c in
  forward HeaderTokenType (token_type_text (id_type id)) c.
Definition with_principal (id : Identity) (c : Ctx) : Ctx :=
  mkCtx (cx_method c) (cx_headers c) (cx_params c) (cx_identity c) (cx_request_id c) (cx_set c)
    (Some (mkPrincipal (id_user id) (id_org id) [] ∅)) (cx_org c).

Context {R : Type} `{RS : !RevocationStore R}.
(** The token's identity, unless it is invalid or revoked; [None] is no
    revocation checker. *)
Definition authenticate (now : Z) (revoker : option R) (token : string) : result goerr Identity :=
  match ValidateToken now token with
  | Err e => Err e
  | Ok id =>
      match revoker with
      | Some store => if Revoked now store id then Err ErrTokenRevoked else Ok id
      | None => Ok id
      end
  end.

Definition Authentication (now : Z) (revoker : option R) : Middleware := λ c,
  if String.eqb (cx_method c) "OPTIONS" then Ok c
  else
    let token := bearerToken (header (cx_headers c) "Authorization") in
    if String.eqb token "" then Err ErrNoToken
    else
      match authenticate now revoker token with
      | Err e => Err e
      | Ok id => Ok (with_identity id (with_principal id c))
      end.

Definition OptionalAuthentication (now : Z) (revoker : option R) : Middleware := λ c,
  let token := bearerToken (header (cx_headers c) "Authorization") in
  if String.eqb token "" then Ok c
  else
    match authenticate now revoker token with
    | Err e => Err e
    | Ok id => Ok (with_identity id c)
    end.
End Gateway.

Definition OrgScope : Middleware := λ c,
  let orgID := Params c "orgId" in
  if String.eqb orgID "" then Ok c
  else
    match cx_identity c with
    | None => Err ErrNoToken
    | Some id =>
        if bool_decide (id_type id = TokenTypeServiceAccount) &&
           (negb (String.eqb (id_org id) "") && negb (String.eqb (id_org id) orgID))
        then Err ErrOrgMismatch
        else
          let c := forward HeaderOrgID orgID c in
          Ok (mkCtx (cx_method c) (cx_headers c) (cx_params c) (cx_identity c) (cx_request_id c) (cx_set c)
                (cx_principal c) (Some orgID))
    end.

Definition ProjectScope : Middleware := λ c,
  if String.eqb (Params c "projectId") "" then Ok c
  else match cx_identity c with None => Err ErrNoToken | Some _ => Ok c end.

Definition RequireScope (scope : string) : Middleware := λ c,
  match cx_identity c with
  | None => Err ErrNoToken
  | Some id =>
      if bool_decide (id_type id = TokenTypeUser) then Ok c
      else if HasScope id scope then Ok c else Err ErrInsufficientScope
  end.
