(* ===== verification/AuthSpec.v ===== *)
(** * The abstract state machine of the accounts

    What the authentication service may do to its tables, as a step relation
    [achange], the invariant [awf] of its states, the history [akept] every step
    respects and what a step leaves alone of other tenants. *)

From S2P Require Import Prelude Json AppErrors Tx Events Pagination Authz AuthStore AuthService.
Open Scope Z_scope.

(** ** Tables with a primary key and unique columns *)
Section Tables.
Context {A : Type}.
Implicit Types m : gmap string A.

Definition keyed (key : A → string) m : Prop := ∀ k a, m !! k = Some a → key a = k.
Definition unique_by {B} (f : A → B) m : Prop :=
  ∀ k1 a1 k2 a2, m !! k1 = Some a1 → m !! k2 = Some a2 → f a1 = f a2 → k1 = k2.
Definition unused {B} (f : A → B) (v : B) m : Prop := ∀ k a, m !! k = Some a → f a ≠ v.

Lemma keyed_insert key m a : keyed key m → keyed key (<[key a := a]> m).
Proof. intros Hm k x [[<- <-]|[_ Hk]]%lookup_insert_Some; [done|by apply Hm]. Qed.
Lemma keyed_alter key m k a : keyed key m → key a = k → keyed key (<[k := a]> m).
Proof. intros Hm <-. by apply keyed_insert. Qed.
Lemma keyed_fmap key (g : A → A) m : keyed key m → (∀ a, key (g a) = key a) → keyed key (g <$> m).
Proof. intros Hm Hg k x (a & <- & Ha)%lookup_fmap_Some. rewrite Hg. by apply Hm. Qed.
Lemma keyed_filter key (P : string * A → Prop) `{∀ x, Decision (P x)} m : keyed key m → keyed key (filter P m).
Proof. intros Hm k x [Hk _]%map_lookup_filter_Some. by apply Hm. Qed.
Lemma keyed_delete key m k : keyed key m → keyed key (delete k m).
Proof. intros Hm j x [_ Hk]%lookup_delete_Some. by apply Hm. Qed.

Lemma unique_insert {B} (f : A → B) m k a : unique_by f m → unused f (f a) m → unique_by f (<[k := a]> m).
Proof.
  intros Hm Hu k1 a1 k2 a2 [[<- <-]|[_ H1]]%lookup_insert_Some [[<- <-]|[_ H2]]%lookup_insert_Some He;
    [done|..|by eauto]; exfalso; [by eapply Hu|by eapply Hu].
Qed.
Lemma unique_alter {B} (f : A → B) m k a b : unique_by f m → m !! k = Some a → f b = f a →
  unique_by f (<[k := b]> m).
Proof.
  intros Hm Hk Hf. assert (Hl : ∀ j x, <[k := b]> m !! j = Some x → ∃ y, m !! j = Some y ∧ f x = f y).
  { intros j x [[<- <-]|[_ Hj]]%lookup_insert_Some; eauto. }
  intros k1 a1 k2 a2 (y1 & H1 & ->)%Hl (y2 & H2 & ->)%Hl. by apply Hm.
Qed.
Lemma unique_fmap {B} (f : A → B) (g : A → A) m : unique_by f m → (∀ a, f (g a) = f a) → unique_by f (g <$> m).
Proof.
  intros Hm Hg k1 a1 k2 a2 (x1 & <- & H1)%lookup_fmap_Some (x2 & <- & H2)%lookup_fmap_Some.
  rewrite !Hg. by apply Hm.
Qed.
Lemma unique_sub {B} (f : A → B) m m' : unique_by f m → m' ⊆ m → unique_by f m'.
Proof. intros Hm Hs k1 a1 k2 a2 H1 H2. apply Hm; by eapply lookup_weaken. Qed.
End Tables.

(** ** The invariant, table by table *)
Definition mail_key (u : User) : string := GoStrings.ToLower (u_email u).

(** A second factor has a secret, and the lock goes with the counter. *)
Record user_ok (u : User) : Prop := {
  uo_mfa : u_mfa u = true → is_Some (u_secret u);
  uo_failed : 0 ≤ u_failed u;
  uo_locked : maxFailedLogins ≤ u_failed u ↔ is_Some (u_locked u);
  uo_version : 1 ≤ u_version u }.
Record users_ok (us : gmap string User) : Prop := {
  us_key : keyed u_id us;
  us_mail : unique_by mail_key us;
  us_rows k u : us !! k = Some u → user_ok u }.

(** A replaced session is revoked, in favour of one of the same user. *)
Record sessions_ok (us : gmap string User) (ss : gmap string RefreshToken) : Prop := {
  ss_key : keyed rt_id ss;
  ss_hash : unique_by rt_hash ss;
  ss_user k t : ss !! k = Some t → is_Some (us !! rt_user t);
  ss_replaced k t n : ss !! k = Some t → rt_replaced t = Some n →
    is_Some (rt_revoked t) ∧ ∃ t', ss !! n = Some t' ∧ rt_user t' = rt_user t }.

(** At most one one-time token of a user and purpose can still be used. *)
Record otts_ok (us : gmap string User) (os : gmap string OneTimeToken) : Prop := {
  os_key : keyed ot_id os;
  os_hash : unique_by ot_hash os;
  os_user k t : os !! k = Some t → is_Some (us !! ot_user t);
  os_live k1 t1 k2 t2 : os !! k1 = Some t1 → os !! k2 = Some t2 → ot_used t1 = None → ot_used t2 = None →
    ot_user t1 = ot_user t2 → ot_purpose t1 = ot_purpose t2 → k1 = k2 }.

(** An API token belongs to an account of its organization. *)
Record machines_ok (sas : gmap string ServiceAccount) (aps : gmap string APIToken) : Prop := {
  ma_key : keyed sa_id sas;
  ma_name : unique_by (λ a, (sa_org a, sa_name a)) sas;
  ma_token_key : keyed ap_id aps;
  ma_token_hash : unique_by ap_hash aps;
  ma_owner k t : aps !! k = Some t → ∃ a, sas !! ap_account t = Some a ∧ sa_org a = ap_org t }.

Definition outbox_sound (l : list (OutboxRow auth_payload)) : Prop :=
  NoDup (ob_id <$> l) ∧ NoDup (EventID ∘ ob_event <$> l) ∧ Forall (λ row, Validate (ob_event row) = None) l.

Record awf (db : AuthDB) : Prop := {
  aw_users : users_ok (at_users db);
  aw_sessions : sessions_ok (at_users db) (at_sessions db);
  aw_otts : otts_ok (at_users db) (at_otts db);
  aw_machines : machines_ok (at_accounts db) (at_api db);
  aw_outbox : outbox_sound (at_outbox db) }.

(** ** Steps *)
Definition put_user (u : User) (db : AuthDB) : AuthDB := set_users (<[u_id u := u]> (at_users db)) db.
Definition put_session (t : RefreshToken) (db : AuthDB) : AuthDB :=
  set_sessions (<[rt_id t := t]> (at_sessions db)) db.
Definition put_ott (t : OneTimeToken) (db : AuthDB) : AuthDB := set_otts (<[ot_id t := t]> (at_otts db)) db.
Definition put_account (a : ServiceAccount) (db : AuthDB) : AuthDB :=
  set_accounts (<[sa_id a := a]> (at_accounts db)) db.
Definition put_api (t : APIToken) (db : AuthDB) : AuthDB := set_api (<[ap_id t := t]> (at_api db)) db.

(** What no update of a user changes. *)
Definition same_identity (r u : User) : Prop :=
  u_id u = u_id r ∧ u_email u = u_email r ∧ u_name u = u_name r ∧ u_created u = u_created r ∧
  u_status u = u_status r.
Definition no_live_ott (user purpose : string) (db : AuthDB) : Prop :=
  ∀ k t, at_otts db !! k = Some t → ot_user t = user → ot_purpose t = purpose → is_Some (ot_used t).

Inductive achange (o : string) (now : Z) (db : AuthDB) : AuthDB → Prop :=
| ac_user u :
    at_users db !! u_id u = None → unused mail_key (mail_key u) (at_users db) → user_ok u →
    achange o now db (put_user u db)
| ac_edit r u :
    at_users db !! u_id u = Some r → same_identity r u → u_version u = u_version r + 1 →
    (user_ok r → user_ok u) → achange o now db (put_user u db)
| ac_session t :
    at_sessions db !! rt_id t = None → unused rt_hash (rt_hash t) (at_sessions db) →
    is_Some (at_users db !! rt_user t) → rt_revoked t = None → rt_replaced t = None →
    achange o now db (put_session t db)
| ac_revoke t replaced :
    at_sessions db !! rt_id t = Some t → rt_revoked t = None →
    (∀ n, replaced = Some n → ∃ t', at_sessions db !! n = Some t' ∧ rt_user t' = rt_user t) →
    achange o now db (put_session (with_revoked now replaced t) db)
| ac_revoke_all user :
    achange o now db (set_sessions (revoke_if_of user now <$> at_sessions db) db)
| ac_ott t :
    at_otts db !! ot_id t = None → unused ot_hash (ot_hash t) (at_otts db) →
    is_Some (at_users db !! ot_user t) → ot_used t = None → no_live_ott (ot_user t) (ot_purpose t) db →
    achange o now db (put_ott t db)
| ac_use t :
    at_otts db !! ot_id t = Some t → achange o now db (put_ott (with_used now t) db)
| ac_use_all user purpose :
    achange o now db (set_otts (use_if_of user purpose now <$> at_otts db) db)
| ac_account a :
    sa_org a = o → at_accounts db !! sa_id a = None →
    unused (λ a, (sa_org a, sa_name a)) (sa_org a, sa_name a) (at_accounts db) →
    achange o now db (put_account a db)
| ac_delete_account a :
    at_accounts db !! sa_id a = Some a → sa_org a = o →
    achange o now db (set_api (filter (λ kv, ap_account kv.2 ≠ sa_id a) (at_api db))
                        (set_accounts (delete (sa_id a) (at_accounts db)) db))
| ac_api t a :
    ap_org t = o → at_api db !! ap_id t = None → unused ap_hash (ap_hash t) (at_api db) →
    at_accounts db !! ap_account t = Some a → sa_org a = o →
    achange o now db (put_api t db)
| ac_revoke_api t :
    at_api db !! ap_id t = Some t → ap_org t = o → achange o now db (put_api (api_revoked now t) db)
| ac_event row :
    Validate (ob_event row) = None → new_in row db →
    OrgID (ob_event row) = o ∨ OrgID (ob_event row) = systemOrg → achange o now db (append_row row db).

(** ** The history *)
Definition user_kept (r u : User) : Prop := same_identity r u ∧ (u = r ∨ u_version r < u_version u).
Definition session_kept (t t' : RefreshToken) : Prop :=
  rt_id t' = rt_id t ∧ rt_created t' = rt_created t ∧ rt_user t' = rt_user t ∧ rt_hash t' = rt_hash t ∧
  rt_expires t' = rt_expires t ∧ (is_Some (rt_revoked t) → t' = t).
Definition ott_kept (t t' : OneTimeToken) : Prop :=
  ot_id t' = ot_id t ∧ ot_user t' = ot_user t ∧ ot_purpose t' = ot_purpose t ∧ ot_hash t' = ot_hash t ∧
  ot_expires t' = ot_expires t ∧ (is_Some (ot_used t) → t' = t).

(** Every row of [m] is still there, changed along [R]. *)
Definition rows_kept {A} (R : A → A → Prop) (m m' : gmap string A) : Prop :=
  ∀ k a, m !! k = Some a → ∃ a', m' !! k = Some a' ∧ R a a'.
Record akept (db db' : AuthDB) : Prop := {
  ak_users : rows_kept user_kept (at_users db) (at_users db');
  ak_sessions : rows_kept session_kept (at_sessions db) (at_sessions db');
  ak_otts : rows_kept ott_kept (at_otts db) (at_otts db');
  ak_outbox : at_outbox db `prefix_of` at_outbox db';
  ak_members : at_members db' = at_members db }.

(** Machine identities of other tenants are untouched, and no event is theirs. *)
Definition org_events (o : string) (db : AuthDB) : list (OutboxRow auth_payload) :=
  filter (λ row, OrgID (ob_event row) = o) (at_outbox db).
Record apart (o : string) (db db' : AuthDB) : Prop := {
  ap_accounts k a : sa_org a ≠ o → at_accounts db !! k = Some a ↔ at_accounts db' !! k = Some a;
  ap_tokens k t : ap_org t ≠ o → at_api db !! k = Some t ↔ at_api db' !! k = Some t;
  ap_events x : x ≠ o → x ≠ systemOrg → org_events x db' = org_events x db }.

Lemma rows_kept_refl {A} (R : A → A → Prop) `{!Reflexive R} m : rows_kept R m m.
Proof. intros k a Ha. exists a. done. Qed.
Lemma rows_kept_trans {A} (R : A → A → Prop) `{!Transitive R} m1 m2 m3 :
  rows_kept R m1 m2 → rows_kept R m2 m3 → rows_kept R m1 m3.
Proof. intros H1 H2 k a (b & (c & ? & ?)%H2 & ?)%H1. exists c. split; [done|by etrans]. Qed.
Lemma rows_kept_new {A} (R : A → A → Prop) `{!Reflexive R} (m : gmap string A) k a :
  m !! k = None → rows_kept R m (<[k := a]> m).
Proof. intros Hk j x Hj. exists x. rewrite lookup_insert_ne by congruence. done. Qed.
Lemma rows_kept_alter {A} (R : A → A → Prop) `{!Reflexive R} (m : gmap string A) k a b :
  m !! k = Some a → R a b → rows_kept R m (<[k := b]> m).
Proof.
  intros Hk HR j x Hj. destruct (decide (j = k)) as [->|].
  - exists b. rewrite lookup_insert_eq. by simplify_eq.
  - exists x. by rewrite lookup_insert_ne.
Qed.
Lemma rows_kept_fmap {A} (R : A → A → Prop) (g : A → A) (m : gmap string A) :
  (∀ a, R a (g a)) → rows_kept R m (g <$> m).
Proof. intros Hg k a Ha. exists (g a). by rewrite lookup_fmap, Ha. Qed.

#[export] Instance user_kept_preorder : PreOrder user_kept.
Proof.
  split; [by intros u; split; [|left]|]. intros u1 u2 u3 [(?&?&?&?&?) K1] [(?&?&?&?&?) K2].
  split; [unfold same_identity; split_and!; congruence|]. destruct K1 as [->|], K2 as [->|]; auto. right. lia.
Qed.
#[export] Instance session_kept_preorder : PreOrder session_kept.
Proof.
  split; [by intros t|]. intros t1 t2 t3 (?&?&?&?&?&K1) (?&?&?&?&?&K2).
  unfold session_kept. split_and!; try congruence. intros Hr. rewrite (K1 Hr) in *. auto.
Qed.
#[export] Instance ott_kept_preorder : PreOrder ott_kept.
Proof.
  split; [by intros t|]. intros t1 t2 t3 (?&?&?&?&?&K1) (?&?&?&?&?&K2).
  unfold ott_kept. split_and!; try congruence. intros Hr. rewrite (K1 Hr) in *. auto.
Qed.
#[export] Instance akept_preorder : PreOrder akept.
Proof.
  split; [intros db; split; try done; apply rows_kept_refl, _|].
  intros d1 d2 d3 [A1 A2 A3 A4 A5] [B1 B2 B3 B4 B5].
  split; [by eapply rows_kept_trans; [apply _|..]..|by etrans|congruence].
Qed.
#[export] Instance apart_preorder o : PreOrder (apart o).
Proof.
  split; [by intros db|]. intros d1 d2 d3 [A1 A2 A3] [B1 B2 B3].
  split; [intros k x Hx; by rewrite A1, B1|intros k x Hx; by rewrite A2, B2|intros x ??; by rewrite B3, A3].
Qed.

(** ** Preservation, table by table *)
Lemma users_ok_put us u : users_ok us →
  (us !! u_id u = None ∧ unused mail_key (mail_key u) us ∧ user_ok u ∨
   ∃ r, us !! u_id u = Some r ∧ same_identity r u ∧ (user_ok r → user_ok u)) →
  users_ok (<[u_id u := u]> us).
Proof.
  intros [W1 W2 W3] [(Hn & Hm & Hu)|(r & Hr & (Hi & He & _) & Hu)].
  - split; [by apply keyed_insert|by apply unique_insert|].
    intros k x [[<- <-]|[_ Hk]]%lookup_insert_Some; eauto.
  - split; [by apply keyed_insert| |].
    + eapply unique_alter; [done|exact Hr|]. unfold mail_key. by rewrite He.
    + intros k x [[<- <-]|[_ Hk]]%lookup_insert_Some; eauto.
Qed.

(** References to users survive more users. *)
Lemma is_Some_insert {A} (m : gmap string A) k j a : is_Some (m !! j) → is_Some (<[k := a]> m !! j).
Proof.
  intros [x Hx]. destruct (decide (j = k)) as [->|].
  - rewrite lookup_insert_eq. eauto.
  - rewrite lookup_insert_ne by done. eauto.
Qed.
Lemma sessions_ok_users us ss k u : sessions_ok us ss → sessions_ok (<[k := u]> us) ss.
Proof. intros [W1 W2 W3 W4]. split; try done. intros j t Hj. by eapply is_Some_insert, W3. Qed.
Lemma otts_ok_users us os k u : otts_ok us os → otts_ok (<[k := u]> us) os.
Proof. intros [W1 W2 W3 W4]. split; try done. intros j t Hj. by eapply is_Some_insert, W3. Qed.

Lemma sessions_ok_new us ss t : sessions_ok us ss → ss !! rt_id t = None → unused rt_hash (rt_hash t) ss →
  is_Some (us !! rt_user t) → rt_replaced t = None → sessions_ok us (<[rt_id t := t]> ss).
Proof.
  intros [W1 W2 W3 W4] Hn Hh Hu Hr.
  split; [by apply keyed_insert|by apply unique_insert| |].
  - intros k x [[<- <-]|[_ Hk]]%lookup_insert_Some; eauto.
  - intros k x n [[<- <-]|[_ Hk]]%lookup_insert_Some Hx; [congruence|].
    destruct (W4 k x n Hk Hx) as [? (t' & Ht' & ?)]. split; [done|]. exists t'.
    rewrite lookup_insert_ne; [done|congruence].
Qed.
Lemma sessions_ok_revoke us ss t now replaced : sessions_ok us ss → ss !! rt_id t = Some t →
  (∀ n, replaced = Some n → ∃ t', ss !! n = Some t' ∧ rt_user t' = rt_user t) →
  sessions_ok us (<[rt_id t := with_revoked now replaced t]> ss).
Proof.
  intros [W1 W2 W3 W4] Ht Hr.
  assert (Hsame : ∀ n t', ss !! n = Some t' → ∃ t'',
    <[rt_id t := with_revoked now replaced t]> ss !! n = Some t'' ∧ rt_user t'' = rt_user t').
  { intros n t' Hn. destruct (decide (n = rt_id t)) as [->|].
    - eexists. rewrite lookup_insert_eq. by simplify_eq.
    - exists t'. by rewrite lookup_insert_ne. }
  split.
  - by apply keyed_alter.
  - by eapply unique_alter.
  - intros k x [[<- <-]|[_ Hk]]%lookup_insert_Some; [by eapply (W3 _ t)|eauto].
  - intros k x n [[<- <-]|[_ Hk]]%lookup_insert_Some Hx; simpl in *.
    + split; [done|]. destruct (Hr n Hx) as (t' & Hn & <-). by apply Hsame.
    + destruct (W4 k x n Hk Hx) as [? (t' & Hn & <-)]. split; [done|]. by apply Hsame.
Qed.
Lemma revoke_if_of_same user now t :
  rt_id (revoke_if_of user now t) = rt_id t ∧ rt_hash (revoke_if_of user now t) = rt_hash t ∧
  rt_user (revoke_if_of user now t) = rt_user t ∧ rt_replaced (revoke_if_of user now t) = rt_replaced t ∧
  session_kept t (revoke_if_of user now t).
Proof.
  unfold revoke_if_of, session_kept. destruct (rt_revoked t) eqn:Hr; [by split_and!|].
  destruct (String.eqb _ _); split_and!; try done; simpl; by intros [? ?].
Qed.
Lemma sessions_ok_revoke_all us ss user now : sessions_ok us ss →
  sessions_ok us (revoke_if_of user now <$> ss).
Proof.
  intros [W1 W2 W3 W4].
  split; [apply keyed_fmap; [done|]; intros a; by apply revoke_if_of_same
         |apply unique_fmap; [done|]; intros a; by apply revoke_if_of_same|..].
  - intros k x (y & <- & Hk)%lookup_fmap_Some. destruct (revoke_if_of_same user now y) as (_ & _ & -> & _). eauto.
  - intros k x n (y & <- & Hk)%lookup_fmap_Some Hx.
    destruct (revoke_if_of_same user now y) as (_ & _ & Hu & Hrp & Hkept). rewrite Hrp in Hx. rewrite Hu.
    destruct (W4 k y n Hk Hx) as [Hs (t' & Hn & <-)]. destruct Hkept as (_ & _ & _ & _ & _ & Hkept).
    rewrite (Hkept Hs). split; [done|]. exists (revoke_if_of user now t'). rewrite lookup_fmap, Hn.
    split; [done|]. by apply revoke_if_of_same.
Qed.

Lemma otts_ok_new us os t : otts_ok us os → os !! ot_id t = None → unused ot_hash (ot_hash t) os →
  is_Some (us !! ot_user t) →
  (∀ k x, os !! k = Some x → ot_user x = ot_user t → ot_purpose x = ot_purpose t → is_Some (ot_used x)) →
  otts_ok us (<[ot_id t := t]> os).
Proof.
  intros [W1 W2 W3 W4] Hn Hh Hu Hl. split; [by apply keyed_insert|by apply unique_insert|..].
  - intros k x [[<- <-]|[_ Hk]]%lookup_insert_Some; eauto.
  - intros k1 t1 k2 t2 [[<- <-]|[_ H1]]%lookup_insert_Some [[<- <-]|[_ H2]]%lookup_insert_Some U1 U2 Hus Hp;
      [done|..|by eauto]; exfalso;
      [destruct (Hl k2 t2) as [? ?]|destruct (Hl k1 t1) as [? ?]]; congruence.
Qed.
Lemma with_used_same now t :
  ot_id (with_used now t) = ot_id t ∧ ot_hash (with_used now t) = ot_hash t ∧
  ot_user (with_used now t) = ot_user t ∧ ot_purpose (with_used now t) = ot_purpose t ∧
  is_Some (ot_used (with_used now t)) ∧ ott_kept t (with_used now t).
Proof.
  unfold with_used, ott_kept. destruct (ot_used t) eqn:Hu; [rewrite Hu; by split_and!|].
  split_and!; try done; simpl; by intros [? ?].
Qed.
Lemma use_if_of_same user purpose now t :
  ot_id (use_if_of user purpose now t) = ot_id t ∧ ot_hash (use_if_of user purpose now t) = ot_hash t ∧
  ot_user (use_if_of user purpose now t) = ot_user t ∧
  ot_purpose (use_if_of user purpose now t) = ot_purpose t ∧
  (ot_used (use_if_of user purpose now t) = None → ot_used t = None) ∧
  ott_kept t (use_if_of user purpose now t).
Proof.
  unfold use_if_of. destruct (with_used_same now t) as (?&?&?&?&[x Hx]&?).
  destruct (_ && _); split_and!; try done. by rewrite Hx.
Qed.
(** Rows that keep their identity and are used once they were. *)
Lemma otts_ok_alter us os os' : otts_ok us os →
  (∀ k t', os' !! k = Some t' → ∃ t, os !! k = Some t ∧ ot_id t' = ot_id t ∧ ot_hash t' = ot_hash t ∧
     ot_user t' = ot_user t ∧ ot_purpose t' = ot_purpose t ∧ (ot_used t' = None → ot_used t = None)) →
  otts_ok us os'.
Proof.
  intros [W1 W2 W3 W4] H. split.
  - intros k t' (t & Hk & -> & _)%H. by apply W1.
  - intros k1 t1 k2 t2 (x1 & H1 & _ & -> & _)%H (x2 & H2 & _ & -> & _)%H. by apply W2.
  - intros k t' (t & Hk & _ & _ & -> & _)%H. by eapply W3.
  - intros k1 t1 k2 t2 (x1 & H1 & _ & _ & -> & -> & U1)%H (x2 & H2 & _ & _ & -> & -> & U2)%H ????.
    eapply W4; eauto.
Qed.

Lemma outbox_sound_append l row : outbox_sound l → Validate (ob_event row) = None →
  (∀ r, r ∈ l → EventID (ob_event r) ≠ EventID (ob_event row) ∧ ob_id r ≠ ob_id row) →
  outbox_sound (l ++ [row]).
Proof.
  intros (N1 & N2 & N3) Hv Hn. unfold outbox_sound. rewrite !fmap_app, Forall_app.
  split_and!; [..|done|by constructor].
  - apply NoDup_app. split; [done|]. split; [|apply NoDup_singleton].
    intros x (y & -> & Hy)%list_elem_of_fmap Hx%list_elem_of_singleton. by destruct (Hn y Hy).
  - apply NoDup_app. split; [done|]. split; [|apply NoDup_singleton].
    intros x (y & -> & Hy)%list_elem_of_fmap Hx%list_elem_of_singleton. by destruct (Hn y Hy).
Qed.

Lemma machines_ok_delete sas aps id : machines_ok sas aps →
  machines_ok (delete id sas) (filter (λ kv, ap_account kv.2 ≠ id) aps).
Proof.
  intros [W1 W2 W3 W4 W5]. split; [by apply keyed_delete| |by apply keyed_filter|..].
  - eapply unique_sub; [done|apply delete_subseteq].
  - eapply unique_sub; [done|apply map_filter_subseteq].
  - intros k t [Hk Hne]%map_lookup_filter_Some. destruct (W5 k t Hk) as (a & ? & ?).
    exists a. by rewrite lookup_delete_ne.
Qed.

Lemma achange_wf o now db db' : achange o now db db' → awf db → awf db'.
Proof.
  intros Hc [WU WS WO WM WB].
  destruct Hc; split; simpl in *; try done;
    try (by apply sessions_ok_users); try (by apply otts_ok_users).
  - apply users_ok_put; auto.
  - apply users_ok_put; eauto 10.
  - by apply sessions_ok_new.
  - by apply sessions_ok_revoke.
  - by apply sessions_ok_revoke_all.
  - by apply otts_ok_new.
  - eapply otts_ok_alter; [done|]. destruct (with_used_same now t) as (Hi & Hh & Hu & Hp & Hs & _).
    rewrite Hi. intros k t' [[<- <-]|[_ Hk]]%lookup_insert_Some; [|by exists t'].
    exists t. split_and!; try done. intros Hn. by rewrite Hn in Hs; destruct Hs.
  - eapply otts_ok_alter; [done|]. intros k t' (t & <- & Hk)%lookup_fmap_Some. exists t.
    split; [done|]. pose proof (use_if_of_same user purpose now t). tauto.
  - destruct WM as [W1 W2 W3 W4 W5]. split; [by apply keyed_insert|by apply unique_insert|done..|].
    intros k t (a' & Ha' & ?)%W5. exists a'. rewrite lookup_insert_ne; [done|congruence].
  - by apply machines_ok_delete.
  - destruct WM as [W1 W2 W3 W4 W5]. split; [done..|by apply keyed_insert|by apply unique_insert|].
    intros k x [[<- <-]|[_ Hk]]%lookup_insert_Some; [exists a; split; congruence|eauto].
  - destruct WM as [W1 W2 W3 W4 W5]. split; [done..| | |].
    + by apply keyed_alter.
    + by eapply unique_alter.
    + intros k x [[<- <-]|[_ Hk]]%lookup_insert_Some; [by eapply (W5 _ t)|eauto].
  - apply outbox_sound_append; [done..|]. intros r Hr. by apply H0.
Qed.

Lemma achange_kept o now db db' : achange o now db db' → akept db db'.
Proof.
  intros Hc. destruct Hc; split; simpl; try done; try (apply rows_kept_refl, _);
    try (eapply rows_kept_new; [apply _|done]).
  - eapply rows_kept_alter; [apply _|done|]. split; [done|]. right. lia.
  - eapply rows_kept_alter; [apply _|done|]. unfold session_kept. split_and!; try done.
    rewrite H0. by intros [? ?].
  - apply rows_kept_fmap. intros t. by apply revoke_if_of_same.
  - destruct (with_used_same now t) as (-> & _ & _ & _ & _ & ?).
    eapply rows_kept_alter; [apply _|done|done].
  - apply rows_kept_fmap. intros t. by apply use_if_of_same.
  - by apply prefix_app_r.
Qed.

(** A change of a row of the tenant is none for the others. *)
Lemma insert_elsewhere {A} (f : A → string) o (m : gmap string A) k b :
  (∀ a, m !! k = Some a → f a = o) → f b = o →
  ∀ j x, f x ≠ o → m !! j = Some x ↔ <[k := b]> m !! j = Some x.
Proof.
  intros Hold Hnew j x Hx. destruct (decide (j = k)) as [->|]; [|by rewrite lookup_insert_ne].
  rewrite lookup_insert_eq. split; [intros ?%Hold; done|intros [= ->]; done].
Qed.
Lemma achange_apart o now db db' : achange o now db db' → awf db → apart o db db'.
Proof.
  intros Hc W. destruct Hc; split; simpl; try done.
  - apply (insert_elsewhere sa_org); [|done]. intros x Hx. congruence.
  - intros k x Hx. rewrite lookup_delete_Some. split; [|by intros [_ ?]].
    intros Hk. split; [|done]. intros He. congruence.
  - intros k x Hx. rewrite map_lookup_filter_Some. split; [|by intros [? _]]. intros Hk. split; [done|].
    simpl. intros He. destruct (ma_owner _ _ (aw_machines _ W) k x Hk) as (y & Hy & Ho).
    rewrite He in Hy. congruence.
  - apply (insert_elsewhere ap_org); [|done]. intros x Hx. congruence.
  - apply (insert_elsewhere ap_org); [|done]. intros x Hx. congruence.
  - intros x Hx Hs. unfold org_events. simpl. rewrite filter_app, filter_cons_False, filter_nil, app_nil_r; [done|].
    destruct H1; congruence.
Qed.

Lemma achanges_sound o now db db' : rtc (achange o now) db db' → awf db →
  awf db' ∧ akept db db' ∧ apart o db db'.
Proof.
  induction 1 as [db|db d2 db' Hs _ IH]; intros W; [done|].
  destruct (IH (achange_wf _ _ _ _ Hs W)) as (W3 & K & A).
  split_and!; [done|etrans; [by eapply achange_kept|done]|etrans; [by eapply achange_apart|done]].
Qed.
