(* ===== verification/AuthFacts.v ===== *)
(** * What the authentication service does

    The exact effect of every statement of [AuthStore] and of every method of
    the service that changes state ([yields] for the bodies of transactions). *)

From S2P Require Import Prelude Json GoTime AppErrors Tx Events Pagination Authz Http Calls Total.
From S2P Require Import Encodings Credentials AuthStore AuthService AuthSpec.
Open Scope Z_scope.
Open Scope tx_scope.
#[local] Opaque Sha256.Sum256.

(** A scan that found nothing. *)
Lemma unused_scan {A} (p : A → bool) (m : gmap string A) :
  existsb p (rows_where (λ _, true) m) = false → ∀ k a, m !! k = Some a → p a = false.
Proof.
  intros Hex k a Hk. destruct (p a) eqn:Hp; [|done]. apply not_true_iff_false in Hex. exfalso.
  apply Hex, existsb_exists. exists a. split; [|done]. apply list_elem_of_In, elem_of_rows_where. eauto.
Qed.
(** A scan that found one row. *)
Lemma scan_one {A} (p : A → bool) (m : gmap string A) a : rows_where p m = [a] → p a = true ∧ ∃ k, m !! k = Some a.
Proof. intros H. apply elem_of_rows_where. rewrite H. by left. Qed.
Lemma opt_one {A} (o : option A) a : match o with Some x => [x] | None => [] end = [a] → o = Some a.
Proof. destruct o; by intros [=->]. Qed.

Section Statements.
Context {R : Type}.
Implicit Types s : Sess AuthDB (AOutside R).

(** ** Users *)
Definition added_user (u : User) (now : Z) (db : AuthDB) (u' : User) (db' : AuthDB) : Prop :=
  ∃ id, u' = mkUser id now now 1 (u_email u) (u_name u) (u_hash u) (u_status u) (u_verified u)
               (u_mfa u) (u_secret u) (u_failed u) (u_locked u) ∧
    at_users db !! id = None ∧ unused mail_key (mail_key u) (at_users db) ∧
    db' = put_user (mkUser id now now 1 (u_email u) (u_name u) (u_hash u) (u_status u) (u_verified u)
                      false None 0 None) db.
Lemma yields_userCreate u : yields (added_user u) (userRepo_Create (R := R) u).
Proof.
  eapply yields_post.
  { eapply yields_bind; [apply yields_uuid|]. intros id. apply yields_on_err.
    apply (yields_stmt _ (λ now db u' db', ∃ o, insert_user (with_user_id id u) o now db = inr (u', db'))). eauto. }
  intros now db u' db' (id & db1 & -> & o & Hi). unfold insert_user in Hi.
  destruct (bool_decide _) eqn:Hd; [done|]. apply bool_decide_eq_false in Hd. simpl in Hi.
  destruct (existsb _ _) eqn:Hex; [done|]. injection Hi as <- <-. exists id. split_and!; try done.
  - by apply eq_None_not_Some.
  - intros k b Hk Heq. apply (unused_scan _ _ Hex) in Hk. unfold citext_eq in Hk. simpl in Hk.
    by apply String.eqb_neq in Hk.
Qed.

(** The row [u] was read from is replaced. *)
Definition updated_user (u : User) (now : Z) (db : AuthDB) (db' : AuthDB) : Prop :=
  ∃ r, at_users db !! u_id u = Some r ∧ u_version r = u_version u ∧
    db' = set_users (<[u_id u := user_edit u now r]> (at_users db)) db.
Lemma yields_userUpdate u :
  yields (λ now db u' db', u' = bump u ∧ updated_user u now db db') (userRepo_Update (R := R) u).
Proof.
  eapply yields_post.
  { eapply yields_bind; [apply (yields_Exec _ (λ now db n db', ∃ o, update_user u o now db = inr (n, db'))); eauto|].
    intros n. eapply yields_bind; [apply yields_require|]. intros ?. apply yields_ret. }
  intros now db u' db' (n & db1 & [o Hu] & ? & db2 & [Hn ->] & -> & ->). split; [done|].
  unfold update_user in Hu. destruct (at_users db !! u_id u) as [r|] eqn:Hr; [|by injection Hu as <- _].
  destruct (Z.eqb_spec (u_version r) (u_version u)); [|by injection Hu as <- _].
  injection Hu as _ <-. by exists r.
Qed.
Lemma yields_userByID id :
  yields (λ _ db u db', at_users db !! id = Some u ∧ db' = db) (userRepo_GetByID (R := R) id).
Proof.
  eapply yields_post; [apply (yields_QueryOne (λ db, match at_users db !! id with Some u => [u] | None => [] end))|].
  intros now db u db' [H ->]. by apply opt_one in H.
Qed.

(** ** Sessions *)
Definition new_session (id : string) (now : Z) (user hash : string) (agent ip : option string) (expires : Z)
    : RefreshToken := mkSession id now user hash agent ip expires None None.
Definition added_session (t : RefreshToken) (db db' : AuthDB) : Prop :=
  at_sessions db !! rt_id t = None ∧ unused rt_hash (rt_hash t) (at_sessions db) ∧
  is_Some (at_users db !! rt_user t) ∧ db' = put_session t db.
Lemma yields_sessionCreate user hash agent ip expires :
  yields (λ now db t db', ∃ id, t = new_session id now user hash agent ip expires ∧ added_session t db db')
    (sessionRepo_Create (R := R) user hash agent ip expires).
Proof.
  eapply yields_post.
  { eapply yields_bind; [apply yields_uuid|]. intros id. apply yields_on_err.
    apply (yields_stmt _ (λ now db t db', ∃ o,
      insert_session (mkSession id 0 user hash agent ip expires None None) o now db = inr (t, db'))). eauto. }
  intros now db t db' (id & db1 & -> & o & Hi). unfold insert_session in Hi. simpl in Hi.
  destruct (bool_decide _) eqn:Hd; [done|]. apply bool_decide_eq_false in Hd. simpl in Hi.
  destruct (existsb _ _) eqn:Hex; [done|].
  destruct (bool_decide (is_Some (at_users db !! user))) eqn:Hu; [|done]. simpl in Hi.
  apply bool_decide_eq_true in Hu. injection Hi as <- <-. exists id. unfold added_session. split_and!; try done.
  - by apply eq_None_not_Some.
  - intros k b Hk Heq. apply (unused_scan _ _ Hex) in Hk. simpl in Hk. by apply String.eqb_neq in Hk.
Qed.

(** At most one live session is revoked. *)
Definition revoked_one (id : string) (replaced : option string) (now : Z) (db db' : AuthDB) : Prop :=
  (∀ t, at_sessions db !! id = Some t → is_Some (rt_revoked t)) ∧ db' = db ∨
  ∃ t, at_sessions db !! id = Some t ∧ rt_revoked t = None ∧
    db' = set_sessions (<[id := with_revoked now replaced t]> (at_sessions db)) db.
Lemma yields_sessionRevoke id replaced :
  yields (λ now db _ db', revoked_one id replaced now db db') (sessionRepo_Revoke (R := R) id replaced).
Proof.
  eapply yields_post.
  { eapply yields_bind; [apply (yields_Exec _ (λ now db n db', ∃ o, revoke_session id replaced o now db = inr (n, db'))); eauto|].
    intros n. apply yields_ret. }
  intros now db u db' (n & db1 & [o Hu] & _ & ->). unfold revoke_session in Hu.
  destruct (at_sessions db !! id) as [t|] eqn:Ht; [destruct (rt_revoked t) eqn:Hr|]; injection Hu as _ <-.
  - left. split; [|done]. intros x Hx. simplify_eq. by rewrite Hr.
  - right. by exists t.
  - left. split; [|done]. intros x Hx. congruence.
Qed.
Lemma yields_sessionRevokeAll user :
  yields (λ now db _ db', db' = set_sessions (revoke_if_of user now <$> at_sessions db) db)
    (sessionRepo_RevokeAllForUser (R := R) user).
Proof.
  eapply yields_post.
  { eapply yields_bind; [apply (yields_Exec _ (λ now db n db', ∃ o, revoke_sessions_of user o now db = inr (n, db'))); eauto|].
    intros n. apply yields_ret. }
  intros now db u db' (n & db1 & [o Hu] & _ & ->). by injection Hu as _ <-.
Qed.

(** ** One-time tokens *)
Definition new_ott (id : string) (now : Z) (user purpose hash : string) (expires : Z) : OneTimeToken :=
  mkOTT id user purpose hash expires None now.
Definition added_ott (t : OneTimeToken) (db db' : AuthDB) : Prop :=
  at_otts db !! ot_id t = None ∧ unused ot_hash (ot_hash t) (at_otts db) ∧
  is_Some (at_users db !! ot_user t) ∧ db' = put_ott t db.
Lemma yields_ottCreate user purpose hash expires :
  yields (λ now db t db', ∃ id, t = new_ott id now user purpose hash expires ∧ added_ott t db db')
    (oneTimeTokenRepo_Create (R := R) user purpose hash expires).
Proof.
  eapply yields_post.
  { eapply yields_bind; [apply yields_uuid|]. intros id. apply yields_on_err.
    apply (yields_stmt _ (λ now db t db', ∃ o,
      insert_ott (mkOTT id user purpose hash expires None 0) o now db = inr (t, db'))). eauto. }
  intros now db t db' (id & db1 & -> & o & Hi). unfold insert_ott in Hi. simpl in Hi.
  destruct (bool_decide _) eqn:Hd; [done|]. apply bool_decide_eq_false in Hd. simpl in Hi.
  destruct (existsb _ _) eqn:Hex; [done|].
  destruct (bool_decide (is_Some (at_users db !! user))) eqn:Hu; [|done]. simpl in Hi.
  apply bool_decide_eq_true in Hu. injection Hi as <- <-. exists id. unfold added_ott. split_and!; try done.
  - by apply eq_None_not_Some.
  - intros k b Hk Heq. apply (unused_scan _ _ Hex) in Hk. simpl in Hk. by apply String.eqb_neq in Hk.
Qed.
Lemma yields_ottByHash hash :
  yields (λ _ db t db', ot_hash t = hash ∧ (∃ k, at_otts db !! k = Some t) ∧ db' = db)
    (oneTimeTokenRepo_GetByHash (R := R) hash).
Proof.
  eapply yields_post; [apply (yields_QueryOne (λ db, rows_where (λ t, String.eqb (ot_hash t) hash) (at_otts db)))|].
  intros now db t db' [[Hh%String.eqb_eq Hk]%scan_one ->]. done.
Qed.
(** A token that is not used yet is used. *)
Lemma yields_ottUse id :
  yields (λ now db _ db', ∀ t, at_otts db !! id = Some t → ot_used t = None →
            db' = set_otts (<[id := with_used now t]> (at_otts db)) db)
    (oneTimeTokenRepo_MarkUsed (R := R) id).
Proof.
  eapply yields_post.
  { eapply yields_bind; [apply (yields_Exec _ (λ now db n db', ∃ o, use_ott id o now db = inr (n, db'))); eauto|].
    intros n. apply yields_ret. }
  intros now db u db' (n & db1 & [o Hu] & _ & ->) t Ht Hn. unfold use_ott in Hu.
  rewrite Ht, Hn in Hu. by injection Hu as _ <-.
Qed.
Lemma yields_ottInvalidate user purpose :
  yields (λ now db _ db', db' = set_otts (use_if_of user purpose now <$> at_otts db) db)
    (oneTimeTokenRepo_InvalidateForUser (R := R) user purpose).
Proof.
  eapply yields_post.
  { eapply yields_bind; [apply (yields_Exec _ (λ now db n db', ∃ o, use_otts_of user purpose o now db = inr (n, db'))); eauto|].
    intros n. apply yields_ret. }
  intros now db u db' (n & db1 & [o Hu] & _ & ->). by injection Hu as _ <-.
Qed.

(** ** Events, random bytes and tokens *)
Definition emitted (ty o : string) (p : auth_payload) (opts : list (@Option_ auth_payload)) (now : Z)
    (db db' : AuthDB) : Prop := emitted_event authEventVersion ty o p opts now db db'.
Lemma frame_emit ty o p opts : frame same_outside (enqueue_auth (R := R) ty o p opts).
Proof. unfold enqueue_auth, events_New, PostgresOutbox_Enqueue. solve_frame. Qed.
Lemma yields_emit ty o p opts : o ≠ "" →
  yields (λ now db _ db', emitted ty o p opts now db db') (enqueue_auth (R := R) ty o p opts).
Proof.
  intros Ho s u s' H. pose proof (frame_emit ty o p opts s) as Hw. rewrite H in Hw.
  unfold enqueue_auth in H. destruct (String.eqb_spec o ""); [done|].
  apply emit_Ok in H as [? ?]. done.
Qed.

(** ** Changes of the captured user *)
Definition same_rest (w w' : AOutside R) : Prop := redis w' = redis w ∧ mailbox w' = mailbox w.
Lemma same_rest_trans w1 w2 w3 : same_rest w1 w2 → same_rest w2 w3 → same_rest w1 w3.
Proof. unfold same_rest. intuition congruence. Qed.

Lemma stable_captured : stable (captured_ (R := R)).
Proof. by intros s. Qed.
Lemma stable_capture u : stable (capture (R := R) u).
Proof. by intros s. Qed.
Lemma stable_emit ty o p opts : stable (enqueue_auth (R := R) ty o p opts).
Proof. unfold enqueue_auth, PostgresOutbox_Enqueue. solve_stable. Qed.
Lemma stable_userUpdate u : stable (userRepo_Update (R := R) u).
Proof. unfold userRepo_Update. solve_stable. Qed.
Lemma stable_update_captured : stable (update_captured (R := R)).
Proof.
  unfold update_captured. apply stable_bind; [apply stable_captured|]. intros u.
  apply stable_bind; [apply stable_userUpdate|]. intros v. apply stable_capture.
Qed.
Lemma frame_userUpdate u : frame same_outside (userRepo_Update (R := R) u).
Proof. unfold userRepo_Update, Exec, require_rows. solve_frame. Qed.

(** The captured user is updated, or left alone. *)
Lemma update_captured_inv s r s' : update_captured s = (r, s') →
  let u := captured (outside s) in
  same_rest (outside s) (outside s') ∧
  match r with
  | Ok _ => same_env s s' ∧ captured (outside s') = bump u ∧ updated_user u (clock s) (store s) (store s')
  | Err _ => captured (outside s') = u
  end.
Proof.
  intros H u. unfold update_captured, captured_, bind in H. fold u in H.
  pose proof (frame_userUpdate u s) as Hw. unfold same_outside in Hw.
  destruct (userRepo_Update u s) as [[v|e] s1] eqn:Hu; simpl in Hw.
  - apply yields_userUpdate in Hu as (He & _ & -> & Hu). injection H as <- <-. simpl.
    unfold same_rest. simpl. rewrite Hw. done.
  - injection H as <- <-. unfold same_rest. rewrite Hw. done.
Qed.

(** The transactions of failed logins and of the MFA operations. *)
Definition captured_body (ty : string) (p : User → auth_payload) (opts : User → list (@Option_ auth_payload))
    : M AuthDB (AOutside R) unit :=
  update_captured ;;
  let* u := captured_ in
  enqueue_auth ty systemOrg (p u) (opts u).

(** The row [r] takes the edits of [u], with an event. *)
Definition edited (u r : User) (ty : string) (p : auth_payload) (opts : list (@Option_ auth_payload)) (now : Z)
    (db db' : AuthDB) : Prop :=
  emitted ty systemOrg p opts now (set_users (<[u_id u := user_edit u now r]> (at_users db)) db) db'.

Lemma captured_commit u r ty p opts s res s' :
  (∀ v, p (bump v) = p v ∧ opts (bump v) = opts v) →
  at_users (store s) !! u_id u = Some r → u_version r = u_version u → captured (outside s) = u →
  Tx false (captured_body ty p opts) s = (res, s') →
  same_env s s' ∧ same_rest (outside s) (outside s') ∧
  match res with
  | Err _ => store s' = store s
  | Ok _ => edited u r ty (p u) (opts u) (clock s) (store s) (store s')
  end.
Proof.
  intros Hp Hr Hv Hc H.
  destruct (Tx_spec (captured_body ty p opts)
    (λ w, (captured w = u ∨ u_id (captured w) = u_id u ∧ u_version u < u_version (captured w)) ∧
          same_rest (outside s) w)
    (λ now db w a db' w', ∃ d1, updated_user (captured w) now db d1 ∧
       emitted ty systemOrg (p (captured w)) (opts (captured w)) now d1 db') s res s') as (He & [_ Hw] & Hres).
  - unfold captured_body. apply stable_bind; [apply stable_update_captured|]. intros ?.
    apply stable_bind; [apply stable_captured|]. intros v. apply stable_emit.
  - intros s0 r0 s1 [Hcap Hw] H0. unfold captured_body, bind, captured_ in H0.
    destruct (update_captured s0) as [[a|e] s2] eqn:Hu; apply update_captured_inv in Hu as [Hw2 Hu].
    + destruct Hu as ((_ & _ & Hc2) & Hc' & Hu). pose proof (frame_emit ty systemOrg (p (captured (outside s2)))
        (opts (captured (outside s2))) s2) as Hf. unfold same_outside in Hf. rewrite H0 in Hf. simpl in Hf.
      rewrite Hf. split; [split; [|by eapply same_rest_trans]|].
      * right. rewrite Hc'. destruct Hcap as [->|[? ?]]; simpl; split; (done || lia).
      * intros b -> _. exists (store s2). split; [done|]. rewrite Hc' in H0.
        destruct (Hp (captured (outside s0))) as [E1 E2]. rewrite E1, E2 in H0. apply yields_emit in H0 as (_ & _ & H0); [|done]. by rewrite Hc2 in H0.
    + injection H0 as <- <-. rewrite Hu. split; [|done]. split; [done|by eapply same_rest_trans].
  - done.
  - rewrite Hc. split; [by left|done].
  - split_and!; [done..|]. destruct res as [a|e]; [|done]. destruct Hres as (w & [Hcap _] & d1 & Hu & Hem).
    destruct Hu as (r' & Hr' & Hv' & ->). destruct Hcap as [Hcu|[Hid Hlt]].
    + rewrite Hcu in *. rewrite Hr' in Hr. by injection Hr as ->.
    + rewrite Hid, Hr in Hr'. injection Hr' as ->. lia.
Qed.
Lemma autocommit_outside {A} (q : string → AuthDB → list A) s r s' :
  autocommit (QueryOne q) s = (r, s') → outside s' = outside s.
Proof.
  unfold autocommit. assert (Hf : frame same_outside (QueryOne (W := AOutside R) q)).
  { unfold QueryOne. solve_frame. }
  specialize (Hf (set_org "" (set_aborted false s))). destruct (QueryOne q _) as [r0 s0].
  by intros [= <- <-].
Qed.
(** Reads on the pool. *)
Lemma pool_user_inv id s r s' : autocommit (userRepo_GetByID id) s = (r, s') →
  store s' = store s ∧ same_env s s' ∧ outside s' = outside s ∧
  ∀ u, r = Ok u → at_users (store s) !! id = Some u.
Proof.
  intros H. pose proof (autocommit_outside _ _ _ _ H). apply autocommit_QueryOne_inv in H as (?&?&_&Hr).
  split_and!; try done. intros u ->. by eapply opt_one, Hr.
Qed.
Lemma pool_email_inv email s r s' : autocommit (userRepo_GetByEmail email) s = (r, s') →
  store s' = store s ∧ same_env s s' ∧ outside s' = outside s ∧
  ∀ u, r = Ok u → citext_eq (u_email u) email = true ∧ ∃ k, at_users (store s) !! k = Some u.
Proof.
  intros H. pose proof (autocommit_outside _ _ _ _ H). apply autocommit_QueryOne_inv in H as (?&?&_&Hr).
  split_and!; try done. intros u ->. by apply (scan_one (λ u, citext_eq (u_email u) email)), Hr.
Qed.
Lemma pool_session_inv hash s r s' : autocommit (sessionRepo_GetByHash hash) s = (r, s') →
  store s' = store s ∧ same_env s s' ∧ outside s' = outside s ∧
  ∀ t, r = Ok t → rt_hash t = hash ∧ ∃ k, at_sessions (store s) !! k = Some t.
Proof.
  intros H. pose proof (autocommit_outside _ _ _ _ H). apply autocommit_QueryOne_inv in H as (?&?&_&Hr).
  split_and!; try done. intros u ->. specialize (Hr u eq_refl). apply scan_one in Hr as [Hh%String.eqb_eq Hk]. done.
Qed.

(** ** Failed logins and MFA *)
Definition failure_recorded (u : User) (now : Z) (db db' : AuthDB) : Prop :=
  edited (failed_login now u) u EventLoginFailed (loginFailedPayload (u_id u) (u_email u) (u_failed u + 1))
    (by_account (u_id u)) now db db'.
Lemma registerFailedLogin_inv u s r s' :
  at_users (store s) !! u_id u = Some u → registerFailedLogin u s = (r, s') →
  r = Ok tt ∧ same_env s s' ∧ same_rest (outside s) (outside s') ∧
  (store s' = store s ∨ failure_recorded u (clock s) (store s) (store s')).
Proof.
  intros Hu H. set (v := failed_login (clock s) u).
  set (s0 := set_outside (mkAOutside v (redis (outside s)) (mailbox (outside s))) s).
  assert (H' : (let* _ := try (Tx false (captured_body EventLoginFailed
            (λ u, loginFailedPayload (u_id u) (u_email u) (u_failed u)) (λ u, by_account (u_id u)))) in ret tt) s0
          = (r, s')) by exact H.
  unfold bind, try in H'. destruct (Tx false _ s0) as [res s1] eqn:Ht. injection H' as <- <-.
  apply (captured_commit v u) in Ht as ((?&?&?) & Hw & Hres); [|done..].
  split; [done|]. split; [done|]. split; [done|].
  destruct res as [a|e]; [right|left]; exact Hres.
Qed.

Definition mfa_edited (v u : User) (ty : string) (now : Z) (db db' : AuthDB) : Prop :=
  edited v u ty (mfaPayload (u_id u)) (by_account (u_id u) ++ on_account (u_id u)) now db db'.
Lemma mfa_commit_inv v u ty s r s' :
  u_id v = u_id u → u_version v = u_version u → at_users (store s) !! u_id u = Some u →
  (capture v ;; mfa_commit ty) s = (r, s') →
  same_env s s' ∧ same_rest (outside s) (outside s') ∧
  match r with
  | Err _ => store s' = store s
  | Ok _ => mfa_edited v u ty (clock s) (store s) (store s')
  end.
Proof.
  intros Hid Hv Hu H.
  set (s0 := set_outside (mkAOutside v (redis (outside s)) (mailbox (outside s))) s).
  change (Tx false (captured_body ty (λ u, mfaPayload (u_id u)) (λ u, by_account (u_id u) ++ on_account (u_id u))) s0
          = (r, s')) in H.
  apply (captured_commit v u) in H as (He & Hw & Hres); [|done|simpl; congruence|done|done].
  split; [done|]. split; [done|]. unfold mfa_edited. by rewrite <- Hid.
Qed.
End Statements.

Section Facts.
Context {R : Type} `{RS : !RevocationStore R} `{JW : !JWT} `{CJ : !CursorJSON}.
Context (IDKey : list Z → list Z → Z → Z → Z → Z → list Z) (rand : nat → nat → option (list Z)).
Context (signing_key : list Z) (AccessTTL RefreshTTL : Z) (revoking notifying : bool).
Implicit Types s : Sess AuthDB (AOutside R).

Lemma stable_rand n : stable (rand_Read (R := R) rand n).
Proof. by intros s. Qed.
Lemma yields_rand n : yields (λ _ db b db', (∃ i, b = rand i n) ∧ db' = db) (rand_Read (R := R) rand n).
Proof. intros s b s' [= <- <-]. split_and!; try done. by eexists. Qed.
Definition secret_text (n : nat) (t : string) : Prop :=
  ∃ i b, rand i n = Some b ∧ t = Base64.text (Base64.encode b).
Lemma yields_generateSecret n :
  yields (λ _ db t db', secret_text n t ∧ db' = db) (generateSecret (R := R) rand n).
Proof.
  eapply yields_post.
  { eapply yields_bind; [apply yields_rand|]. intros b.
    instantiate (1 := λ b _ db t db', ∃ x, b = Some x ∧ t = Base64.text (Base64.encode x) ∧ db' = db).
    destruct b as [x|]; [|apply yields_fail]. eapply yields_post; [apply yields_ret|].
    intros now db t db' [-> ->]. by exists x. }
  intros now db t db' (b & db1 & [(i & ->) ->] & x & Hi & -> & ->). split; [|done]. by exists i, x.
Qed.

(** An access token of the session, issued now. *)
Definition access_token (u : User) (sid : string) (now : Z) (token : string) : Prop :=
  ∃ jti, jwt_SignedString signing_key (access_claims (u_email u) sid (u_id u) jti now (now + AccessTTL)) = Ok token.
Lemma yields_Issue u sid :
  yields (λ now db r db', access_token u sid now r.1.1 ∧ r.2 = Z.quot AccessTTL GoTime.Second ∧ db' = db)
    (JWTIssuer_Issue (R := R) signing_key AccessTTL (u_id u) (u_email u) sid).
Proof.
  intros s r s' H. unfold JWTIssuer_Issue, now_, uuid_NewString, bind in H. simpl in H.
  destruct (jwt_SignedString _ _) as [signed|e] eqn:Hs; [|done]. injection H as <- <-. split_and!; try done.
  by eexists.
Qed.

(** A pair of tokens for a new session of the user. *)
Definition issued_pair (u : User) (incl : bool) (meta : RequestMeta) (now : Z) (db : AuthDB) (p : TokenPair)
    (db' : AuthDB) : Prop :=
  ∃ id, let t := new_session id now (u_id u) (hashToken (tp_refresh p)) (optionalString (rm_agent meta))
                   (optionalString (rm_ip meta)) (now + RefreshTTL) in
    added_session t db db' ∧ access_token u id now (tp_access p) ∧ secret_text 32 (tp_refresh p) ∧
    tp_expires p = Z.quot AccessTTL GoTime.Second ∧ tp_user p = if incl then Some (Profile u) else None.
Lemma yields_issueTokenPair u incl meta :
  yields (issued_pair u incl meta) (issueTokenPair (R := R) rand signing_key AccessTTL RefreshTTL u incl meta).
Proof.
  eapply yields_post.
  { eapply yields_bind; [apply yields_generateSecret|]. intros plain.
    eapply yields_bind; [apply yields_now|]. intros now.
    eapply yields_bind; [apply yields_sessionCreate|]. intros t.
    eapply yields_bind; [apply yields_Issue|]. intros r.
    instantiate (1 := λ r _ db b db', b = mkPair r.1.1 plain r.2 (if incl then Some (Profile u) else None) ∧ db' = db).
    destruct r as [[access jti] e]. apply yields_ret. }
  intros now db p db' (plain & d1 & [Hpl ->] & n & d2 & [-> ->] & t & d3 & (id & -> & Ha) & r & d4 &
    (Hac & He & ->) & -> & ->). by exists id.
Qed.

Definition created_ott (user purpose : string) (ttl now : Z) (db : AuthDB) (r : string * string) (db' : AuthDB) : Prop :=
  secret_text 32 r.1 ∧ added_ott (new_ott r.2 now user purpose (hashToken r.1) (now + ttl)) db db'.
Lemma yields_createOneTimeToken user purpose ttl :
  yields (created_ott user purpose ttl) (createOneTimeToken (R := R) rand user purpose ttl).
Proof.
  eapply yields_post.
  { eapply yields_bind; [apply yields_generateSecret|]. intros plain.
    eapply yields_bind; [apply yields_now|]. intros now.
    eapply yields_bind; [apply yields_ottCreate|]. intros t. apply yields_ret. }
  intros now db r db' (plain & d1 & [Hpl ->] & n & d2 & [-> ->] & t & d3 & (id & -> & Ha) & -> & ->). done.
Qed.

(** ** MFA *)
Abbreviation SetupMFA := (Service_SetupMFA (R := R) rand).

Lemma SetupMFA_inv user s r s' : keyed u_id (at_users (store s)) → SetupMFA user s = (r, s') →
  same_env s s' ∧ same_rest (outside s) (outside s') ∧
  match r with
  | Err _ => store s' = store s
  | Ok m => ∃ u i b, at_users (store s) !! user = Some u ∧ rand i totpSecretLen = Some b ∧
      generateTOTPSecret (Some b) = Some (ms_secret m) ∧
      ms_url m = otpauthURL mfaIssuerLabel (u_email u) (ms_secret m) ∧
      mfa_edited (with_mfa false (Some (ms_secret m)) u) u EventMFASetupStarted (clock s) (store s) (store s')
  end.
Proof.
  intros W H. unfold Service_SetupMFA, bind at 1 in H.
  destruct (autocommit _ s) as [[u|e] s1] eqn:Hu; apply pool_user_inv in Hu as (Hs & He & Hw & Hu);
    [|injection H as <- <-; by rewrite Hs, Hw].
  specialize (Hu u eq_refl). unfold bind at 1, rand_Read in H.
  destruct (rand (uuid_next s1) totpSecretLen) as [b|] eqn:Hb; [|injection H as <- <-; by rewrite <- Hs, <- Hw].
  destruct (generateTOTPSecret (Some b)) as [secret|] eqn:Hsec; [|done].
  set (s2 := set_uuid_next (S (uuid_next s1)) s1) in *.
  assert (Hid : u_id u = user) by (by apply W in Hu).
  change ((let* _ := (capture (with_mfa false (Some secret) u) ;; mfa_commit EventMFASetupStarted) in
    ret (mkSetup secret (otpauthURL mfaIssuerLabel (u_email u) secret))) s2 = (r, s')) in H.
  unfold bind at 1 in H. destruct ((capture _ ;; mfa_commit _) s2) as [r0 s3] eqn:Hm.
  apply (mfa_commit_inv _ u) in Hm as (He' & Hw' & Hr0); [|done|done|simpl; by rewrite Hs, Hid].
  change (store s2) with (store s1) in *. change (clock s2) with (clock s1) in *. change (outside s2) with (outside s1) in *.
  assert (same_env s s3) by (eapply same_env_trans; [exact He|done]).
  destruct He as (_ & _ & Hc). rewrite Hs, Hc, Hw in *. destruct r0 as [?|e]; injection H as <- <-; [|done].
  split; [done|]. split; [done|]. by exists u, (uuid_next s1), b.
Qed.

Definition totp_edit (user code : string) (on : bool) (ty : string) now db db' : Prop :=
  ∃ u secret, at_users db !! user = Some u ∧ u_secret u = Some secret ∧ verifyTOTP secret code now = true ∧
    (on = false → u_mfa u = true) ∧
    mfa_edited (with_mfa on (if on then Some secret else None) u) u ty now db db'.
Lemma EnableMFA_inv user code s r s' : keyed u_id (at_users (store s)) →
  Service_EnableMFA user code s = (r, s') →
  same_env s s' ∧ same_rest (outside s) (outside s') ∧
  match r with
  | Err _ => store s' = store s
  | Ok _ => totp_edit user code true EventMFAEnabled (clock s) (store s) (store s')
  end.
Proof.
  intros W H. unfold Service_EnableMFA, bind at 1 in H.
  destruct (autocommit _ s) as [[u|e] s1] eqn:Hu; apply pool_user_inv in Hu as (Hs & He & Hw & Hu);
    [|injection H as <- <-; by rewrite Hs, Hw].
  specialize (Hu u eq_refl). unfold bind at 1, now_ in H. pose proof He as (_ & _ & Hc). rewrite <- Hc.
  destruct (u_secret u) as [secret|] eqn:Hsec; [|injection H as <- <-; by rewrite Hs, Hw].
  destruct (verifyTOTP secret code (clock s1)) eqn:Hv; [|injection H as <- <-; by rewrite Hs, Hw].
  assert (Hid : u_id u = user) by (by apply W in Hu).
  apply (mfa_commit_inv _ u) in H as (He' & Hw' & Hr0); [|done|done|by rewrite Hs, Hid].
  rewrite Hw in Hw'. rewrite Hs in Hr0. split; [by eapply same_env_trans|]. split; [done|].
  destruct r; [|done]. by exists u, secret.
Qed.
Lemma DisableMFA_inv user code s r s' : keyed u_id (at_users (store s)) →
  Service_DisableMFA user code s = (r, s') →
  same_env s s' ∧ same_rest (outside s) (outside s') ∧
  match r with
  | Err _ => store s' = store s
  | Ok _ => totp_edit user code false EventMFADisabled (clock s) (store s) (store s')
  end.
Proof.
  intros W H. unfold Service_DisableMFA, bind at 1 in H.
  destruct (autocommit _ s) as [[u|e] s1] eqn:Hu; apply pool_user_inv in Hu as (Hs & He & Hw & Hu);
    [|injection H as <- <-; by rewrite Hs, Hw].
  specialize (Hu u eq_refl). unfold bind at 1, now_ in H. pose proof He as (_ & _ & Hc). rewrite <- Hc.
  destruct (u_mfa u) eqn:Hmfa; [|injection H as <- <-; by rewrite Hs, Hw].
  destruct (u_secret u) as [secret|] eqn:Hsec; [|injection H as <- <-; by rewrite Hs, Hw].
  destruct (verifyTOTP secret code (clock s1)) eqn:Hv; [|injection H as <- <-; by rewrite Hs, Hw].
  assert (Hid : u_id u = user) by (by apply W in Hu).
  apply (mfa_commit_inv _ u) in H as (He' & Hw' & Hr0); [|done|done|by rewrite Hs, Hid].
  rewrite Hw in Hw'. rewrite Hs in Hr0. split; [by eapply same_env_trans|]. split; [done|].
  destruct r; [|done]. by exists u, secret.
Qed.

(** ** Logins *)
Abbreviation issue := (issueTokenPair (R := R) rand signing_key AccessTTL RefreshTTL).
Lemma stable_issue u incl meta : stable (issue u incl meta).
Proof.
  unfold issueTokenPair, generateSecret, sessionRepo_Create, JWTIssuer_Issue. solve_stable; try apply stable_rand.
Qed.
Lemma frame_issue u incl meta : frame same_outside (issue u incl meta).
Proof.
  unfold issueTokenPair, generateSecret, sessionRepo_Create, JWTIssuer_Issue.
  solve_frame.
Qed.

(** The counters of [u] are reset when one is set. *)
Definition counters_set (u : User) : Prop := u_failed u ≠ 0 ∨ is_Some (u_locked u).
#[export] Instance counters_set_dec u : Decision (counters_set u).
Proof. unfold counters_set. apply _. Defined.
Definition reset_row (u : User) (now : Z) (db : AuthDB) : AuthDB :=
  set_users (<[u_id u := user_edit (with_login_state 0 None u) now u]> (at_users db)) db.
Definition counters_reset (u : User) (now : Z) (db db' : AuthDB) : Prop :=
  db' = if decide (counters_set u) then reset_row u now db else db.
(** A transaction that is run again finds the captured user reset by the run
    before, and leaves the row as it is. *)
Definition counters_reset_once (u : User) (now : Z) (db db' : AuthDB) : Prop :=
  db' = db ∨ counters_reset u now db db'.
(** The session, the tokens and the event. *)
Definition session_opened (u : User) (meta : RequestMeta) (now : Z) (d1 : AuthDB) (p : TokenPair) (db' : AuthDB) : Prop :=
  ∃ d2, issued_pair u true meta now d1 p d2 ∧
    emitted EventLoginSucceeded systemOrg (loginSucceededPayload (u_id u) (u_email u)) (by_account (u_id u)) now d2 db'.
Definition logged_in (u : User) (meta : RequestMeta) (now : Z) (db : AuthDB) (p : TokenPair) (db' : AuthDB) : Prop :=
  ∃ d1, counters_reset_once u now db d1 ∧ session_opened u meta now d1 p db'.

(** What a login needs of the captured user. *)
Definition same_account (u v : User) : Prop := u_id v = u_id u ∧ u_email v = u_email u ∧ Profile v = Profile u.
Lemma issued_pair_same u v incl meta now db p db' : same_account u v →
  issued_pair v incl meta now db p db' → issued_pair u incl meta now db p db'.
Proof. unfold issued_pair, access_token. intros (-> & -> & ->). done. Qed.
(** After the counters, the captured user is an account state of [u]. *)
Definition login_tail (meta : RequestMeta) : M AuthDB (AOutside R) TokenPair :=
  let* x := captured_ in
  let* p := issue x true meta in
  enqueue_auth EventLoginSucceeded systemOrg (loginSucceededPayload (u_id x) (u_email x)) (by_account (u_id x)) ;;
  ret p.
Lemma login_tail_inv u meta s r s' : same_account u (captured (outside s)) → login_tail meta s = (r, s') →
  outside s' = outside s ∧ ∀ p, r = Ok p → session_opened u meta (clock s) (store s) p (store s').
Proof.
  intros Hacc H. unfold login_tail, bind at 1, captured_ in H. set (x := captured (outside s)) in *.
  assert (Hf : frame same_outside (let* p := issue x true meta in
    enqueue_auth EventLoginSucceeded systemOrg (loginSucceededPayload (u_id x) (u_email x)) (by_account (u_id x)) ;; ret p)).
  { apply frame_bind; [apply _|apply frame_issue|]. intros p. apply frame_bind; [apply _|apply frame_emit|].
    intros ?. apply frame_ret. apply _. }
  specialize (Hf s). rewrite H in Hf. split; [exact Hf|]. intros p ->.
  apply bind_Ok_inv in H as (q & s2 & Hq & H). apply bind_Ok_inv in H as ([] & s5 & Hev & H).
  injection H as <- <-. apply yields_issueTokenPair in Hq as (He1 & _ & Hq).
  apply yields_emit in Hev as (_ & _ & Hev); [|done]. pose proof Hacc as (E1 & E2 & _).
  rewrite E1, E2 in Hev. destruct He1 as (_ & _ & Hck). rewrite Hck in Hev. exists (store s2).
  split; [|done]. by eapply issued_pair_same.
Qed.
Lemma reset_counters_inv u s r s' :
  let v := with_login_state 0 None u in
  let near w := w = u ∨ w = v ∨ w = bump v in
  let w0 := captured (outside s) in
  near w0 →
  (if negb (u_failed w0 =? 0) || bool_decide (is_Some (u_locked w0))
   then capture (R := R) (with_login_state 0 None w0) ;; update_captured else ret tt) s = (r, s') →
  near (captured (outside s')) ∧ same_rest (outside s) (outside s') ∧
  ∀ a, r = Ok a → same_env s s' ∧
    (store s' = store s ∨
     w0 = u ∧ (u_failed u ≠ 0 ∨ is_Some (u_locked u)) ∧ updated_user v (clock s) (store s) (store s')).
Proof.
  intros v near w0 Hw H. destruct (negb _ || _) eqn:Hcnt.
  - apply orb_true_iff in Hcnt. rewrite negb_true_iff, Z.eqb_neq, bool_decide_eq_true in Hcnt.
    assert (Hu : w0 = u) by by destruct Hw as [?|[->| ->]]; [|destruct Hcnt as [?|[? ?]]..].
    rewrite Hu in *. unfold bind, capture in H. apply update_captured_inv in H as [Hr H]. simpl in *.
    destruct r as [a|e].
    + destruct H as (He & -> & Hup). split; [unfold near; auto|]. split; [done|]. intros b _.
      split; [done|]. by right.
    + rewrite H. unfold near. split; [by right; left|]. done.
  - injection H as <- <-. split; [done|]. split; [done|]. intros a _. split; [done|by left].
Qed.

Abbreviation login_tx := (login_commit (R := R) rand signing_key AccessTTL RefreshTTL).
Lemma login_commit_inv u meta s r s' :
  at_users (store s) !! u_id u = Some u → captured (outside s) = u → login_tx meta s = (r, s') →
  same_env s s' ∧ same_rest (outside s) (outside s') ∧
  match r with
  | Err _ => store s' = store s
  | Ok p => logged_in u meta (clock s) (store s) p (store s')
  end.
Proof.
  intros Hu Hc H. set (v := with_login_state 0 None u).
  assert (Hacc : ∀ w, w = u ∨ w = v ∨ w = bump v → same_account u w) by by intros w [->|[->| ->]].
  unfold login_commit in H.
  match type of H with Tx false ?f s = _ => set (fn := f) in H end.
  destruct (Tx_spec fn
    (λ w, (captured w = u ∨ captured w = v ∨ captured w = bump v) ∧ same_rest (outside s) w)
    (λ now db w p db' w', ∃ d1, (d1 = db ∨ captured w = u ∧ counters_set u ∧ updated_user v now db d1) ∧
       session_opened u meta now d1 p db')
    s r s') as (He & [_ Hw] & Hr); [| |done|rewrite Hc; split; [by left|done]|].
  - subst fn. apply stable_bind; [apply stable_captured|]. intros w. apply stable_bind.
    { case_match; [|apply stable_ret]. apply stable_bind; [apply stable_capture|]. intros ?. apply stable_update_captured. }
    intros ?. apply stable_bind; [apply stable_captured|]. intros x. apply stable_bind; [apply stable_issue|].
    intros p. apply stable_bind; [apply stable_emit|]. intros ?. apply stable_ret.
  - clear H. intros s0 r0 s3 [Hcap Hw] H.
    subst fn. unfold bind at 1, captured_ at 1 in H. set (w0 := captured (outside s0)) in *.
    unfold bind at 1 in H. lazymatch type of H with match ?m with _ => _ end = _ => destruct m as [ra s1] eqn:Hupd end.
    apply (reset_counters_inv u) in Hupd as (Hc1 & Hw1 & Hok); [|done].
    destruct ra as [y|e].
    + destruct (Hok y eq_refl) as [He1 Hst].
      change (login_tail meta s1 = (r0, s3)) in H. apply (login_tail_inv u) in H as [Hout Hq]; [|by apply Hacc].
      rewrite Hout. split; [split; [done|by eapply same_rest_trans]|]. intros p -> _.
      destruct He1 as (_ & _ & Hck). rewrite <- Hck. exists (store s1). split; [|by apply Hq].
      by rewrite Hck.
    + injection H as <- <-. split; [|done]. split; [done|by eapply same_rest_trans].
  - split_and!; [done..|]. destruct r as [p|e]; [|done].
    destruct Hr as (w & [Hcap _] & d1 & Hd & Hp). exists d1. split; [|done].
    destruct Hd as [->|(_ & Hcnt & r' & Hr' & _ & ->)]; [by left|right]. simpl in Hr'.
    rewrite Hu in Hr'. injection Hr' as <-. unfold counters_reset. by rewrite decide_True.
Qed.
Abbreviation Login := (Service_Login (R := R) IDKey rand signing_key AccessTTL RefreshTTL).

(** The account a login is for. *)
Definition has_credentials (req : LoginRequest) : Prop :=
  normalizeEmail (lg_email req) ≠ "" ∧ lg_password req ≠ "".
Definition login_for (req : LoginRequest) (u : User) (db : AuthDB) : Prop :=
  citext_eq (u_email u) (normalizeEmail (lg_email req)) = true ∧ at_users db !! u_id u = Some u.
Definition password_is (u : User) (password : string) (ok : bool) : Prop :=
  VerifyPassword IDKey password (u_hash u) = Ok ok.

(** What is to be done with a login to the account [u]: it is refused, it is
    refused and counts as a failure, or it is let in. *)
Inductive Verdict := Refuse (e : goerr) | Count (e : goerr) | Admit.
Definition second_factor (req : LoginRequest) (u : User) (now : Z) : Verdict :=
  if negb (u_mfa u) then Admit
  else if blank (lg_code req) then Refuse errMFARequired
  else if mfa_ok u (lg_code req) now then Admit
  else Count errMFAInvalid.
Definition login_verdict (req : LoginRequest) (u : User) (now : Z) : Verdict :=
  if decide (IsLocked u now = true) then Refuse errAccountLocked
  else if decide (u_status u = UserStatusDisabled) then Refuse errInvalidCredentials
  else match VerifyPassword IDKey (lg_password req) (u_hash u) with
       | Err e => Refuse e
       | Ok false => Count errInvalidCredentials
       | Ok true => second_factor req u now
       end.
(** The accounts that are let in. *)
Lemma admitted req u now : login_verdict req u now = Admit ↔
  IsLocked u now = false ∧ u_status u ≠ UserStatusDisabled ∧ password_is u (lg_password req) true ∧
  (u_mfa u = true → blank (lg_code req) = false ∧ mfa_ok u (lg_code req) now = true).
Proof.
  clear - req u now. unfold login_verdict, second_factor, password_is. destruct (decide _) as [->|Hl%not_true_is_false]; [naive_solver|].
  destruct (decide _); [naive_solver|].
  destruct (VerifyPassword _ _ _) as [[]|], (u_mfa u), (blank _), (mfa_ok _ _ _); simpl; naive_solver.
Qed.

(** What a login returns and what it leaves in the database. *)
Definition login_outcome (req : LoginRequest) (meta : RequestMeta) s (r : result goerr TokenPair) (db' : AuthDB) : Prop :=
  let now := clock s in let db := store s in
  match r with
  | Ok p => has_credentials req ∧ ∃ u, login_for req u db ∧ login_verdict req u now = Admit ∧ logged_in u meta now db p db'
  | Err e =>
      ¬ has_credentials req ∧ e = errInvalidCredentials ∧ db' = db ∨
      has_credentials req ∧
      ((∃ e0 s1, autocommit (userRepo_GetByEmail (normalizeEmail (lg_email req))) s = (Err e0, s1) ∧
          e = (if IsNotFound e0 then errInvalidCredentials else e0) ∧ db' = db) ∨
       ∃ u, login_for req u db ∧
         match login_verdict req u now with
         | Refuse e' => e = e' ∧ db' = db
         | Count e' => e = e' ∧ (db' = db ∨ failure_recorded u now db db')
         | Admit => db' = db
         end)
  end.
Lemma has_credentials_spec req :
  String.eqb (normalizeEmail (lg_email req)) "" || String.eqb (lg_password req) "" = false ↔ has_credentials req.
Proof. unfold has_credentials. by rewrite orb_false_iff, !String.eqb_neq. Qed.
(** The service once the account is found. *)
Definition login_with req meta (user : User) : M AuthDB (AOutside R) TokenPair :=
  let* now := now_ in
  match login_verdict req user now with
  | Refuse e => fail e
  | Count e => registerFailedLogin user ;; fail e
  | Admit => capture user ;; login_tx meta
  end.
Lemma Login_eq req meta s : has_credentials req →
  Login req meta s =
  (let* user := on_err (autocommit (userRepo_GetByEmail (normalizeEmail (lg_email req))))
     (λ e, if IsNotFound e then errInvalidCredentials else e) in login_with req meta user) s.
Proof.
  intros Hc%has_credentials_spec. unfold Service_Login. rewrite Hc. unfold bind, now_.
  destruct (on_err _ _ s) as [[u|e] s1]; [|done]. unfold login_with, login_verdict, second_factor, bind, now_.
  destruct (IsLocked u (clock s1)) eqn:Hl; [by rewrite decide_True|]. rewrite decide_False by done.
  destruct (String.eqb_spec (u_status u) UserStatusDisabled); [by rewrite decide_True|]. rewrite decide_False by done.
  unfold of_result. destruct (VerifyPassword _ _ _) as [[]|]; [|done..].
  by destruct (u_mfa u), (blank _), (mfa_ok _ _ _).
Qed.
Lemma Login_inv req meta s r s' : keyed u_id (at_users (store s)) → Login req meta s = (r, s') →
  same_env s s' ∧ same_rest (outside s) (outside s') ∧ login_outcome req meta s r (store s').
Proof.
  intros W H. destruct (decide (has_credentials req)) as [Hc|Hc].
  2: { unfold Service_Login in H. destruct (_ || _) eqn:Hb; [|by apply has_credentials_spec in Hb].
       injection H as <- <-. split; [done|]. split; [done|by left]. }
  rewrite Login_eq in H by done. unfold bind at 1, on_err in H. unfold login_outcome.
  destruct (autocommit _ s) as [[u|e] s1] eqn:Hu; pose proof Hu as Hrun;
    apply pool_email_inv in Hu as (Hs & He & Hw & Hu); simpl in H.
  2: { injection H as <- <-. rewrite Hs, Hw. split; [done|]. split; [done|]. right. split; [done|]. left.
       by exists e, s1. }
  destruct (Hu u eq_refl) as [Hmail [k Hk]]. pose proof (W k u Hk) as Hid. subst k.
  assert (Hfor : login_for req u (store s)) by done. clear Hu Hrun.
  pose proof He as (_ & _ & Hck). unfold login_with, bind at 1, now_ in H. rewrite Hck in H.
  destruct (login_verdict req u (clock s)) as [e|e|] eqn:Hv.
  - injection H as <- <-. rewrite Hs, Hw. split; [done|]. split; [done|]. right. split; [done|]. right.
    exists u. by rewrite Hv.
  - unfold bind at 1 in H. destruct (registerFailedLogin u s1) as [r0 s2] eqn:Hr.
    apply registerFailedLogin_inv in Hr as (-> & He2 & Hw2 & Hst); [|by rewrite Hs].
    injection H as <- <-. rewrite Hs, Hck, Hw in *. split; [by eapply same_env_trans|]. split; [done|].
    right. split; [done|]. right. exists u. by rewrite Hv.
  - unfold bind at 1, capture in H. apply (login_commit_inv u) in H as (He2 & Hw2 & Hst);
      [|simpl; by rewrite Hs|done]. simpl in *. rewrite Hs, Hck, Hw in *.
    split; [by eapply same_env_trans|]. split; [done|]. destruct r as [p|e].
    + split; [done|]. by exists u.
    + right. split; [done|]. right. exists u. by rewrite Hv.
Qed.

(** ** Sessions *)
Abbreviation refresh_check_ := (refresh_check (R := R)).
Abbreviation rotate := (refresh_rotate (R := R) rand signing_key AccessTTL RefreshTTL revoking).
Abbreviation Refresh := (Service_Refresh (R := R) rand signing_key AccessTTL RefreshTTL revoking).
Abbreviation Logout := (Service_Logout (R := R) AccessTTL revoking).

(** The session of a token that may be refreshed, and its user. *)
Definition refreshable (token : string) (t : RefreshToken) (u : User) (now : Z) (db : AuthDB) : Prop :=
  rt_hash t = hashToken token ∧ at_sessions db !! rt_id t = Some t ∧ Active t now = true ∧
  at_users db !! rt_user t = Some u ∧ IsLocked u now = false ∧ u_status u ≠ UserStatusDisabled.
Lemma refresh_check_inv token s r s' : keyed rt_id (at_sessions (store s)) →
  refresh_check_ token s = (r, s') →
  store s' = store s ∧ same_env s s' ∧ outside s' = outside s ∧
  ∀ t u, r = Ok (t, u) → refreshable token t u (clock s) (store s).
Proof.
  intros W H.
  assert (Hstop : ∀ e s0, (Err e, s0) = (r, s') → store s0 = store s → same_env s s0 → outside s0 = outside s →
    store s' = store s ∧ same_env s s' ∧ outside s' = outside s ∧
    ∀ t u, r = Ok (t, u) → refreshable token t u (clock s) (store s)) by by intros e s0 [= <- <-].
  unfold refresh_check in H. destruct (blank token); [by apply Hstop in H|].
  unfold bind at 1, on_err in H.
  destruct (autocommit _ s) as [[t|e] s1] eqn:Ht; apply pool_session_inv in Ht as (Hs & He & Hw & Ht); simpl in H;
    [|by apply Hstop in H].
  destruct (Ht t eq_refl) as [Hh [k Hk]]. pose proof (W k t Hk) as Hid. subst k.
  unfold bind at 1, now_ in H. destruct (bool_decide _); [by apply Hstop in H|].
  destruct (Active t (clock s1)) eqn:Ha; simpl in H; [|by apply Hstop in H].
  unfold bind at 1 in H.
  destruct (autocommit _ s1) as [[u|e] s2] eqn:Hu; apply pool_user_inv in Hu as (Hs2 & He2 & Hw2 & Hu);
    rewrite Hs in Hs2, Hu; rewrite Hw in Hw2; assert (He3 : same_env s s2) by (by eapply same_env_trans);
    [|by apply Hstop in H].
  specialize (Hu u eq_refl). destruct (IsLocked u (clock s1)) eqn:Hl; simpl in H; [by apply Hstop in H|].
  destruct (String.eqb_spec (u_status u) UserStatusDisabled); [by apply Hstop in H|].
  injection H as <- <-. split; [done|]. split; [done|]. split; [done|].
  intros t' u' [= <- <-]. destruct He as (_ & _ & <-). done.
Qed.

(** The revocation store after a session is recorded there. *)
Definition cached (sid : string) (now : Z) (w : AOutside R) : AOutside R :=
  if negb revoking || String.eqb sid "" || (AccessTTL <=? 0) then w
  else mkAOutside (captured w) (redis_Set now (revokedPrefix +:+ sid) AccessTTL (redis w)).2 (mailbox w).
Lemma revokeSessionInCache_eq sid s :
  revokeSessionInCache AccessTTL revoking sid s = (Ok tt, set_outside (cached sid (clock s) (outside s)) s).
Proof.
  unfold revokeSessionInCache, cached. destruct (negb revoking || String.eqb sid "") eqn:Hn; simpl.
  { by destruct s. }
  unfold bind, now_, try, TokenRevocationList_Revoke. replace (clock s + AccessTTL - clock s) with AccessTTL by lia.
  destruct (AccessTTL <=? 0); [by destruct s|]. by destruct (redis_Set _ _ _ _).
Qed.

(** The session [t] makes way for a new one; if it is still live it is revoked
    in favour of the new one. *)
Definition rotated (t : RefreshToken) (u : User) (meta : RequestMeta) (now : Z) (db : AuthDB) (p : TokenPair)
    (db' : AuthDB) : Prop :=
  ∃ id d1 d2, let n := new_session id now (u_id u) (hashToken (tp_refresh p)) (optionalString (rm_agent meta))
                   (optionalString (rm_ip meta)) (now + RefreshTTL) in
    added_session n db d1 ∧ access_token u id now (tp_access p) ∧ secret_text 32 (tp_refresh p) ∧
    tp_expires p = Z.quot AccessTTL GoTime.Second ∧ tp_user p = None ∧
    revoked_one (rt_id t) (Some id) now d1 d2 ∧
    emitted EventTokenRotated systemOrg (tokenRotatedPayload (u_id u) id (rt_id t)) (by_account (u_id u)) now d2 db'.
Lemma session_found t db db' : added_session t db db' →
  rows_where (λ x, String.eqb (rt_hash x) (rt_hash t)) (at_sessions db') = [t].
Proof.
  intros (Hn & Hh & _ & ->). apply (rows_where_singleton _ _ (rt_id t)).
  - apply lookup_insert_eq.
  - apply String.eqb_refl.
  - simpl. intros k x [[<- _]|[_ Hk]]%lookup_insert_Some Hx; [done|]. apply String.eqb_eq in Hx. by apply Hh in Hk.
Qed.

(** The lookup of the session just written finds it, or breaks the transaction. *)
Lemma lookup_new_session t db s r s' : added_session t db (store s) →
  try (sessionRepo_GetByHash (R := R) (rt_hash t)) s = (Ok r, s') →
  store s' = store s ∧ same_env s s' ∧ outside s' = outside s ∧ (r = Ok t ∨ aborted s' = true).
Proof.
  intros Ha H%try_inv. assert (Hw : outside s' = outside s).
  { assert (Hf : frame same_outside (sessionRepo_GetByHash (R := R) (rt_hash t))).
    { unfold sessionRepo_GetByHash, QueryOne. solve_frame. }
    specialize (Hf s). by rewrite H in Hf. }
  apply QueryOne_inv in H as (Hs & He & H). rewrite (session_found _ _ _ Ha) in H. split; [done|]. split; [done|].
  split; [done|]. destruct r as [x|e]; [left; congruence|right].
  destruct H as [?|[[? _]|[Hl _]]]; [done..|]. simpl in Hl. lia.
Qed.

Lemma rotate_body_yields t u meta :
  yields (rotated t u meta)
    (let* tokens := issue u false meta in
     let* newSession := try (sessionRepo_GetByHash (hashToken (tp_refresh tokens))) in
     let* newSessionID :=
       match newSession with
       | Ok s => sessionRepo_Revoke (rt_id t) (Some (rt_id s)) ;; ret (rt_id s)
       | Err _ => sessionRepo_Revoke (rt_id t) None ;; ret ""
       end in
     enqueue_auth EventTokenRotated systemOrg (tokenRotatedPayload (u_id u) newSessionID (rt_id t))
       (by_account (u_id u)) ;;
     ret tokens).
Proof.
  intros s p s' H. apply bind_Ok_inv in H as (q & s1 & Hq & H).
  apply yields_issueTokenPair in Hq as (He1 & Hw1 & id & Hadd & Hac & Hsec & Hexp & Hus).
  apply bind_Ok_inv in H as (n & s2 & Hn & H).
  set (row := new_session _ _ _ _ _ _ _) in Hadd.
  change (hashToken (tp_refresh q)) with (rt_hash row) in Hn.
  apply (lookup_new_session _ _ _ _ _ Hadd) in Hn as (Hs2 & He2 & Hw2 & Hn).
  apply bind_Ok_inv in H as (nid & s3 & Hrev & H). apply bind_Ok_inv in H as ([] & s4 & Hev & H).
  injection H as <- <-. destruct n as [x|e].
  - assert (x = row) as ->.
    { destruct Hn as [[= ->]|Ha]; [done|]. exfalso. apply bind_Ok_inv in Hrev as ([] & s5 & Hrev & _).
      unfold sessionRepo_Revoke in Hrev. apply bind_Ok_inv in Hrev as (k & s6 & Hrev & _).
      by apply on_err_stmt_aborted in Hrev. }
    apply bind_Ok_inv in Hrev as ([] & s5 & Hrev & Hr). injection Hr as <- <-.
    apply yields_sessionRevoke in Hrev as (He5 & Hw5 & Hrev). apply yields_emit in Hev as (He4 & Hw4 & Hev); [|done].
    destruct He1 as (Ho1 & Hg1 & Hc1), He2 as (Ho2 & Hg2 & Hc2), He5 as (Ho5 & Hg5 & Hc5), He4 as (Ho4 & Hg4 & Hc4).
    rewrite Hs2, Hc2, Hc1 in Hrev. rewrite Hc5, Hc2, Hc1 in Hev.
    split; [unfold same_env; split_and!; congruence|]. split; [congruence|].
    exists id, (store s1), (store s5). done.
  - exfalso. destruct Hn as [?|Ha]; [done|]. apply bind_Ok_inv in Hrev as ([] & s5 & Hrev & _).
    unfold sessionRepo_Revoke in Hrev. apply bind_Ok_inv in Hrev as (k & s6 & Hrev & _).
    by apply on_err_stmt_aborted in Hrev.
Qed.

Lemma rotate_inv t u meta s r s' : rotate t u meta s = (r, s') →
  same_env s s' ∧
  match r with
  | Err _ => store s' = store s ∧ outside s' = outside s
  | Ok p => rotated t u meta (clock s) (store s) p (store s') ∧ outside s' = cached (rt_id t) (clock s) (outside s)
  end.
Proof.
  intros H. unfold refresh_rotate, bind at 1 in H.
  match type of H with match ?m with _ => _ end = _ => destruct m as [r0 s1] eqn:Ht end.
  apply (Tx_yields (rotated t u meta)) in Ht as (He & Hw & Hr0).
  - destruct r0 as [p|e]; [|by injection H as <- <-].
    unfold bind in H. rewrite revokeSessionInCache_eq in H. injection H as <- <-. simpl.
    destruct He as (? & ? & Hc). by rewrite Hc, Hw.
  - apply stable_bind; [apply stable_issue|]. intros p. unfold sessionRepo_GetByHash, sessionRepo_Revoke.
    solve_stable; apply stable_emit.
  - apply frame_bind; [apply _|apply frame_issue|]. intros p. unfold sessionRepo_GetByHash, QueryOne, sessionRepo_Revoke, Exec, enqueue_auth, events_New, PostgresOutbox_Enqueue.
    solve_frame.
  - apply rotate_body_yields.
Qed.

Lemma Refresh_inv token meta s r s' : keyed rt_id (at_sessions (store s)) → Refresh token meta s = (r, s') →
  same_env s s' ∧
  match r with
  | Err _ => store s' = store s ∧ outside s' = outside s
  | Ok p => ∃ t u, refreshable token t u (clock s) (store s) ∧ rotated t u meta (clock s) (store s) p (store s') ∧
      outside s' = cached (rt_id t) (clock s) (outside s)
  end.
Proof.
  intros W H. unfold Service_Refresh, bind in H.
  destruct (refresh_check_ token s) as [[[t u]|e] s1] eqn:Hc; apply refresh_check_inv in Hc as (Hs & He & Hw & Hok);
    [|done| |done]; [|by injection H as <- <-].
  specialize (Hok t u eq_refl). apply rotate_inv in H as (He2 & H). simpl in H.
  split; [by eapply same_env_trans|]. destruct He as (_ & _ & Hck). rewrite Hs, Hw, Hck in H.
  destruct r; [|done]. by exists t, u.
Qed.

Definition session_closed (t : RefreshToken) (now : Z) (db db' : AuthDB) : Prop :=
  ∃ d1, revoked_one (rt_id t) None now db d1 ∧
    emitted EventTokenRevoked systemOrg (tokenRevokedPayload (rt_user t) (rt_id t)) (by_account (rt_user t)) now d1 db'.
Lemma logout_tx_inv t s r s' :
  Tx false (sessionRepo_Revoke (rt_id t) None ;;
    enqueue_auth EventTokenRevoked systemOrg (tokenRevokedPayload (rt_user t) (rt_id t)) (by_account (rt_user t))) s
  = (r, s') →
  same_env s s' ∧ outside s' = outside s ∧
  match r with Err _ => store s' = store s | Ok _ => session_closed t (clock s) (store s) (store s') end.
Proof.
  apply (Tx_yields (λ now db _ db', session_closed t now db db')).
  - unfold sessionRepo_Revoke. solve_stable; apply stable_emit.
  - unfold sessionRepo_Revoke, Exec, enqueue_auth, events_New, PostgresOutbox_Enqueue. solve_frame.
  - eapply yields_post; [eapply yields_bind; [apply yields_sessionRevoke|]; intros ?; by apply yields_emit|].
    intros now db a db' (_ & d1 & ? & ?). by exists d1.
Qed.
Definition logged_out (token : string) (t : RefreshToken) (now : Z) (db db' : AuthDB) : Prop :=
  rt_hash t = hashToken token ∧ at_sessions db !! rt_id t = Some t ∧ session_closed t now db db'.
Lemma Logout_inv token s r s' : keyed rt_id (at_sessions (store s)) → Logout token s = (r, s') →
  same_env s s' ∧
  match r with
  | Err _ => store s' = store s ∧ outside s' = outside s
  | Ok _ => store s' = store s ∧ outside s' = outside s ∨
      ∃ t, logged_out token t (clock s) (store s) (store s') ∧ outside s' = cached (rt_id t) (clock s) (outside s)
  end.
Proof.
  intros W H. unfold Service_Logout in H. destruct (blank token); [injection H as <- <-; by split; [|left]|].
  unfold bind at 1, try in H.
  destruct (autocommit _ s) as [[t|e] s1] eqn:Ht; apply pool_session_inv in Ht as (Hs & He & Hw & Ht); simpl in H.
  2: { destruct (IsNotFound e); injection H as <- <-; (split; [done|]); [by left|done]. }
  destruct (Ht t eq_refl) as [Hh [k Hk]]. pose proof (W k t Hk) as Hid. subst k.
  unfold bind at 1 in H. match type of H with match ?m with _ => _ end = _ => destruct m as [r0 s2] eqn:Htx end.
  apply logout_tx_inv in Htx as (He2 & Hw2 & Hr0).
  assert (He3 : same_env s s2) by by eapply same_env_trans.
  destruct r0 as [p|e]; [|injection H as <- <-; split; [done|]; rewrite Hr0, Hw2, Hs, Hw; done].
  rewrite revokeSessionInCache_eq in H. injection H as <- <-. split; [done|]. right. exists t. simpl.
  destruct He as (_ & _ & Hc), He3 as (_ & _ & Hc3). rewrite Hs, Hc in Hr0. rewrite Hw2, Hw, Hc3. done.
Qed.

(** ** One-time tokens *)
(** The token [plain] of the purpose can be used now, by the user [u]. *)
Definition usable_token (plain purpose : string) (t : OneTimeToken) (u : User) (now : Z) (db : AuthDB) : Prop :=
  ot_hash t = hashToken plain ∧ (∃ k, at_otts db !! k = Some t) ∧ ot_purpose t = purpose ∧ Usable t now = true ∧
  at_users db !! ot_user t = Some u.
Definition used_token (t : OneTimeToken) (now : Z) (db : AuthDB) : AuthDB :=
  set_otts (<[ot_id t := with_used now t]> (at_otts db)) db.
Definition consumed (plain purpose : string) (Q : User → Z → AuthDB → AuthDB → Prop) (now : Z) (db db' : AuthDB) : Prop :=
  ∃ t u, usable_token plain purpose t u now db ∧ Q u now (used_token t now db) db'.

Lemma consume_inv plain purpose apply (Q : User → Z → AuthDB → AuthDB → Prop) s r s' :
  keyed ot_id (at_otts (store s)) →
  (∀ u, stable (apply u)) → (∀ u, frame same_outside (apply u)) → (∀ u, yields (λ now db _ db', Q u now db db') (apply u)) →
  consumeOneTimeToken (R := R) plain purpose apply s = (r, s') →
  same_env s s' ∧ outside s' = outside s ∧
  match r with
  | Err _ => store s' = store s
  | Ok _ => consumed plain purpose Q (clock s) (store s) (store s')
  end.
Proof.
  intros W Hst Hfr HQ H. unfold consumeOneTimeToken in H.
  destruct (blank plain); [by injection H as <- <-|].
  apply (Tx_yields (λ now db _ db', keyed ot_id (at_otts db) → consumed plain purpose Q now db db')) in H as (He & Hw & Hr).
  - split; [done|]. split; [done|]. destruct r; [by apply Hr|done].
  - unfold oneTimeTokenRepo_MarkUsed. solve_stable; apply Hst.
  - unfold oneTimeTokenRepo_GetByHash, userRepo_GetByID, QueryOne, oneTimeTokenRepo_MarkUsed, Exec.
    solve_frame; apply Hfr.
  - eapply yields_post.
    { eapply yields_bind; [apply yields_on_err, yields_ottByHash|]. intros t.
      eapply yields_bind; [apply yields_now|]. intros now.
      instantiate (1 := λ now n db _ db', ot_purpose t = purpose ∧ Usable t now = true ∧ ∃ u d2, at_users db !! ot_user t = Some u ∧
        (∀ x, at_otts db !! ot_id t = Some x → ot_used x = None →
           d2 = set_otts (<[ot_id t := with_used n x]> (at_otts db)) db) ∧ Q u n d2 db').
      destruct (negb _ || negb _) eqn:Hg; [apply yields_fail|].
      apply orb_false_iff in Hg as [Hg1%negb_false_iff%String.eqb_eq Hg2%negb_false_iff].
      eapply yields_post.
      { eapply yields_bind; [apply yields_userByID|]. intros u.
        eapply yields_bind; [apply yields_ottUse|]. intros ?. apply HQ. }
      intros n db a db' (u & d1 & [Hu ->] & ? & d2 & Hd2 & Hq). split; [done|]. split; [done|]. by exists u, d2. }
    intros now db a db' (t & d1 & (Hh & [k Hk] & ->) & n & d2 & [-> ->] & Hp & Hus & u & d3 & Hu & Hd3 & Hq) W'.
    pose proof (W' k t Hk) as <-. exists t, u. unfold usable_token. split; [by split_and!; try done; exists (ot_id t)|].
    rewrite (Hd3 t) in Hq; [done|done|]. unfold Usable in Hus. by destruct (ot_used t).
Qed.

(** The address is marked verified, once. *)
Definition verified (u : User) (now : Z) (db db' : AuthDB) : Prop :=
  u_verified u = true ∧ db' = db ∨
  u_verified u = false ∧ ∃ d1, updated_user (with_verified u) now db d1 ∧
    emitted EventEmailVerified systemOrg (emailVerifiedPayload (u_id u) (u_email u))
      (by_account (u_id u) ++ on_account (u_id u)) now d1 db'.
Lemma VerifyEmail_inv plain s r s' : keyed ot_id (at_otts (store s)) →
  Service_VerifyEmail (R := R) plain s = (r, s') →
  same_env s s' ∧ outside s' = outside s ∧
  match r with
  | Err _ => store s' = store s
  | Ok _ => consumed plain PurposeEmailVerify verified (clock s) (store s) (store s')
  end.
Proof.
  intros W H. eapply consume_inv in H; [exact H|done|..].
  - intros u. unfold verify_user, userRepo_Update. solve_stable; apply stable_emit.
  - intros u. unfold verify_user. destruct (u_verified u); [apply frame_ret; apply _|].
    apply frame_bind; [apply _|apply frame_userUpdate|]. intros ?. apply frame_emit.
  - intros u. unfold verify_user. destruct (u_verified u) eqn:Hv.
    + eapply yields_post; [apply yields_ret|]. intros now db a db' [_ ->]. by left.
    + eapply yields_post; [eapply yields_bind; [apply yields_userUpdate|]; intros v; by apply yields_emit|].
      intros now db a db' (v & d1 & [-> Hu] & Hev). right. split; [done|]. by exists d1.
Qed.

(** The password is replaced and every session of the user revoked. *)
Definition password_reset (hash : string) (u : User) (now : Z) (db db' : AuthDB) : Prop :=
  ∃ d1, updated_user (with_login_state 0 None (with_password hash u)) now db d1 ∧
    emitted EventPasswordReset systemOrg (passwordResetPayload (u_id u) "completed" "" "" "")
      (by_account (u_id u) ++ on_account (u_id u)) now
      (set_sessions (revoke_if_of (u_id u) now <$> at_sessions d1) d1) db'.
Abbreviation ConfirmPasswordReset := (Service_ConfirmPasswordReset (R := R) IDKey rand).
Lemma ConfirmPasswordReset_inv plain password s r s' : keyed ot_id (at_otts (store s)) →
  ConfirmPasswordReset plain password s = (r, s') →
  same_env s s' ∧ outside s' = outside s ∧
  match r with
  | Err _ => store s' = store s
  | Ok _ => validatePassword password = None ∧ ∃ i salt hash, rand i (Z.to_nat argonSaltLen) = Some salt ∧
      HashPassword IDKey (Some salt) password = Ok hash ∧
      consumed plain PurposePasswordReset (password_reset hash) (clock s) (store s) (store s')
  end.
Proof.
  intros W H. unfold Service_ConfirmPasswordReset, check in H.
  destruct (validatePassword password) eqn:Hv; [by injection H as <- <-|].
  unfold bind at 1, ret at 1, bind at 1, rand_Read in H. unfold bind, of_result in H.
  destruct (rand (uuid_next s) _) as [salt|] eqn:Hr; [|by injection H as <- <-].
  destruct (HashPassword IDKey (Some salt) password) as [hash|e] eqn:Hh; [|by injection H as <- <-]. simpl in H.
  eapply (consume_inv _ _ _ (password_reset hash)) in H as (He & Hw & Hr'); [|done|..].
  - split; [exact He|]. split; [done|]. destruct r; [|done]. split; [done|]. by exists (uuid_next s), salt, hash.
  - intros u. unfold reset_user, userRepo_Update, sessionRepo_RevokeAllForUser. solve_stable; apply stable_emit.
  - intros u. unfold reset_user. apply frame_bind; [apply _|apply frame_userUpdate|]. intros v.
    unfold sessionRepo_RevokeAllForUser, Exec. apply frame_bind; [apply _|solve_frame|]. intros ?. apply frame_emit.
  - intros u. unfold reset_user.
    eapply yields_post.
    { eapply yields_bind; [apply yields_userUpdate|]. intros v.
      eapply yields_bind; [apply yields_sessionRevokeAll|]. intros ?. by apply yields_emit. }
    intros now db a db' (v & d1 & [-> Hu] & ? & d2 & -> & Hev). by exists d1.
Qed.

(** A new token of the purpose takes the place of the user's earlier ones. *)
Definition renewed (u : User) (purpose : string) (ttl : Z) (ty : string) (p : string → auth_payload)
    (now : Z) (db : AuthDB) (r : string * string) (db' : AuthDB) : Prop :=
  ∃ d1, created_ott (u_id u) purpose ttl now
          (set_otts (use_if_of (u_id u) purpose now <$> at_otts db) db) r d1 ∧
    emitted ty systemOrg (p r.2) (on_account (u_id u)) now d1 db'.
Lemma renew_token_inv u purpose ttl ty p s r s' :
  renew_token (R := R) rand u purpose ttl ty p s = (r, s') →
  same_env s s' ∧ outside s' = outside s ∧
  match r with
  | Err _ => store s' = store s
  | Ok c => renewed u purpose ttl ty p (clock s) (store s) c (store s')
  end.
Proof.
  intros H. unfold renew_token in H. apply (Tx_yields (renewed u purpose ttl ty p)) in H; [exact H|..].
  - unfold oneTimeTokenRepo_InvalidateForUser, createOneTimeToken, generateSecret, oneTimeTokenRepo_Create.
    solve_stable; first [apply stable_emit|apply stable_rand].
  - unfold oneTimeTokenRepo_InvalidateForUser, Exec. apply frame_bind; [apply _|solve_frame|]. intros ?.
    apply frame_bind; [apply _| |].
    { unfold createOneTimeToken, generateSecret, oneTimeTokenRepo_Create. solve_frame. }
    intros c. apply frame_bind; [apply _|apply frame_emit|]. intros ?. apply frame_ret; apply _.
  - eapply yields_post.
    { eapply yields_bind; [apply yields_ottInvalidate|]. intros ?.
      eapply yields_bind; [apply yields_createOneTimeToken|]. intros c.
      eapply yields_bind; [by apply yields_emit|]. intros ?. apply yields_ret. }
    intros now db c db' (? & d1 & -> & c' & d2 & Hc & ? & d3 & Hev & -> & ->). by exists d2.
Qed.

(** Both requests answer alike whether the address is known or not. *)
Definition mailed (d : TokenDelivery) (w : AOutside R) : AOutside R :=
  if notifying then mkAOutside (captured w) (redis w) (mailbox w ++ [d]) else w.
Lemma notify_eq d s : notify notifying d s = (Ok tt, set_outside (mailed d (outside s)) s).
Proof. unfold notify, mailed. destruct notifying; [done|by destruct s]. Qed.

Definition requested (email purpose : string) (msg : string) (ttl : Z) (ty : string)
    (p : User → string → auth_payload) (wanted : User → bool) s s' : Prop :=
  store s' = store s ∧ outside s' = outside s ∨
  ∃ u plain ref, citext_eq (u_email u) (normalizeEmail email) = true ∧ wanted u = true ∧
    (∃ k, at_users (store s) !! k = Some u) ∧
    renewed u purpose ttl ty (p u) (clock s) (store s) (plain, ref) (store s') ∧
    outside s' = mailed (mkDelivery msg (u_id u) (u_email u) plain ref) (outside s).
Lemma request_inv email purpose msg ttl ty p (wanted : User → bool) s r s' :
  (let* found := try (autocommit (userRepo_GetByEmail (normalizeEmail email))) in
   match found with
   | Err e => if IsNotFound e then ret tt else fail e
   | Ok u => if negb (wanted u) then ret tt
             else let* c := renew_token (R := R) rand u purpose ttl ty (p u) in
                  notify notifying (mkDelivery msg (u_id u) (u_email u) c.1 c.2)
   end) s = (r, s') →
  same_env s s' ∧
  match r with
  | Err _ => store s' = store s ∧ outside s' = outside s
  | Ok _ => requested email purpose msg ttl ty p wanted s s'
  end.
Proof.
  intros H. unfold bind at 1, try in H.
  destruct (autocommit _ s) as [[u|e] s1] eqn:Hu; apply pool_email_inv in Hu as (Hs & He & Hw & Hu); simpl in H.
  2: { destruct (IsNotFound e); injection H as <- <-; (split; [done|]); [by left|done]. }
  destruct (Hu u eq_refl) as [Hm Hk]. destruct (wanted u) eqn:Hwt; simpl in H; [|injection H as <- <-; split; [done|by left]].
  unfold bind in H. destruct (renew_token _ _ _ _ _ _ s1) as [[[plain ref]|e] s2] eqn:Hr;
    apply renew_token_inv in Hr as (He2 & Hw2 & Hr); destruct He as (Ho & Hg & Hc), He2 as (Ho2 & Hg2 & Hc2).
  - rewrite notify_eq in H. injection H as <- <-. split; [unfold same_env; simpl; split_and!; congruence|]. right.
    exists u, plain, ref. rewrite Hs, Hc in Hr. simpl. rewrite Hw2, Hw. done.
  - injection H as <- <-. split; [unfold same_env; split_and!; congruence|]. split; congruence.
Qed.

Abbreviation ResendVerification := (Service_ResendVerification (R := R) rand notifying).
Abbreviation RequestPasswordReset := (Service_RequestPasswordReset (R := R) rand notifying).
Lemma ResendVerification_inv email s r s' : ResendVerification email s = (r, s') →
  same_env s s' ∧
  match r with
  | Err _ => store s' = store s ∧ outside s' = outside s
  | Ok _ => requested email PurposeEmailVerify PurposeEmailVerification emailVerifyTTL EventEmailVerificationRequested
      (λ u, emailVerificationRequestedPayload (u_id u) (u_email u) PurposeEmailVerification)
      (λ u, negb (u_verified u)) s s'
  end.
Proof.
  intros H. apply request_inv. rewrite <- H. unfold Service_ResendVerification, bind, try.
  destruct (autocommit _ s) as [[u|e] s1]; [|done]. by rewrite negb_involutive.
Qed.
Lemma RequestPasswordReset_inv email s r s' : RequestPasswordReset email s = (r, s') →
  same_env s s' ∧
  match r with
  | Err _ => store s' = store s ∧ outside s' = outside s
  | Ok _ => requested email PurposePasswordReset PurposePasswordResetMsg passwordResetTTL EventPasswordReset
      (λ u, passwordResetPayload (u_id u) "requested" (u_email u) PurposePasswordResetMsg) (λ _, true) s s'
  end.
Proof. intros H. by apply (request_inv _ _ _ _ _ _ (λ _, true)). Qed.
(** ** Signup *)
Abbreviation Signup := (Service_Signup (R := R) IDKey rand signing_key AccessTTL RefreshTTL notifying).

(** The row of a new account. *)
Definition fresh_account (id : string) (now : Z) (email name hash : string) : User :=
  mkUser id now now 1 email name hash UserStatusActive false false None 0 None.
Definition signed_up (email name hash : string) (meta : RequestMeta) (now : Z) (db : AuthDB)
    (r : User * string * string * TokenPair) (db' : AuthDB) : Prop :=
  let '(u, plain, ref, p) := r in
  ∃ id d2 d3 d4, u = fresh_account id now email name hash ∧
    at_users db !! id = None ∧ unused mail_key (mail_key u) (at_users db) ∧
    created_ott id PurposeEmailVerify emailVerifyTTL now (put_user u db) (plain, ref) d2 ∧
    issued_pair u true meta now d2 p d3 ∧
    emitted EventUserCreated systemOrg (userCreatedPayload id email name) (by_account id ++ on_account id) now d3 d4 ∧
    emitted EventEmailVerificationRequested systemOrg
      (emailVerificationRequestedPayload id email PurposeEmailVerification ref) (on_account id) now d4 db'.

Lemma Signup_inv req meta s r s' : Signup req meta s = (r, s') →
  same_env s s' ∧
  match r with
  | Err _ => store s' = store s ∧ outside s' = outside s
  | Ok p => let email := normalizeEmail (sg_email req) in
      validateEmail email = None ∧ validatePassword (sg_password req) = None ∧ blank (sg_name req) = false ∧
      ∃ i salt hash u plain ref, rand i (Z.to_nat argonSaltLen) = Some salt ∧
        HashPassword IDKey (Some salt) (sg_password req) = Ok hash ∧
        signed_up email (GoStrings.TrimSpace (sg_name req)) hash meta (clock s) (store s) (u, plain, ref, p) (store s') ∧
        outside s' = mailed (mkDelivery PurposeEmailVerification (u_id u) (u_email u) plain ref) (outside s)
  end.
Proof.
  intros H. unfold Service_Signup, check in H. set (email := normalizeEmail (sg_email req)) in *.
  destruct (validateEmail email) eqn:Hve; [by injection H as <- <-|]. unfold bind at 1, ret at 1 in H.
  destruct (validatePassword _) eqn:Hvp; [by injection H as <- <-|]. unfold bind at 1, ret at 1 in H.
  destruct (blank (sg_name req)) eqn:Hn; [by injection H as <- <-|].
  unfold bind at 1, rand_Read, bind at 1, of_result in H.
  destruct (rand (uuid_next s) _) as [salt|] eqn:Hr; [|by injection H as <- <-].
  destruct (HashPassword IDKey (Some salt) _) as [hash|e] eqn:Hh; [|by injection H as <- <-]. simpl in H.
  unfold bind at 1 in H. match type of H with match ?m with _ => _ end = _ => destruct m as [r0 s1] eqn:Ht end.
  apply (Tx_yields (signed_up email (GoStrings.TrimSpace (sg_name req)) hash meta)) in Ht as (He & Hw & Hr0).
  - simpl in *. destruct r0 as [[[[u plain] ref] p]|e]; [|by injection H as <- <-].
    unfold bind in H. rewrite notify_eq in H. injection H as <- <-. split; [done|]. split; [done|]. split; [done|].
    split; [done|]. exists (uuid_next s), salt, hash, u, plain, ref. simpl. by rewrite Hw.
  - unfold userRepo_Create, createOneTimeToken, generateSecret, oneTimeTokenRepo_Create.
    solve_stable; first [apply stable_rand|apply stable_issue|apply stable_emit].
  - unfold userRepo_Create, createOneTimeToken, generateSecret, oneTimeTokenRepo_Create, issueTokenPair,
      sessionRepo_Create, JWTIssuer_Issue, enqueue_auth, events_New, PostgresOutbox_Enqueue, generateSecret. solve_frame.
  - eapply yields_post.
    { eapply yields_bind; [apply yields_on_err, yields_userCreate|]. intros u.
      eapply yields_bind; [apply yields_createOneTimeToken|]. intros c.
      instantiate (1 := λ c n db x db', ∃ p d3 d4, issued_pair u true meta n db p d3 ∧
        emitted EventUserCreated systemOrg (userCreatedPayload (u_id u) (u_email u) (u_name u))
          (by_account (u_id u) ++ on_account (u_id u)) n d3 d4 ∧
        emitted EventEmailVerificationRequested systemOrg
          (emailVerificationRequestedPayload (u_id u) (u_email u) PurposeEmailVerification c.2) (on_account (u_id u)) n d4 db' ∧
        x = (u, c.1, c.2, p)).
      destruct c as [plain ref]. eapply yields_post.
      { eapply yields_bind; [apply yields_issueTokenPair|]. intros p.
        eapply yields_bind; [by apply yields_emit|]. intros ?.
        eapply yields_bind; [by apply yields_emit|]. intros ?. apply yields_ret. }
      intros n db x db' (p & d3 & Hp & ? & d4 & He1 & ? & d5 & He2 & -> & ->). by exists p, d3, d4. }
    intros n db x db' (u & d1 & (id & -> & Hid & Hmail & ->) & c & d2 & Hc & p & d3 & d4 & Hp & He1 & He2 & ->).
    destruct c as [plain ref]. by exists id, d2, d3, d4.
Qed.

End Facts.

(** ** Machine identities *)
Section Machines.
Context {R : Type} `{JW : !JWT} (signing_key : list Z).
Implicit Types s : Sess AuthDB (AOutside R).

Lemma accountCreate_Ok o name desc status by_ s a s' :
  serviceAccountRepo_Create (R := R) o name desc status by_ s = (Ok a, s') →
  ∃ id, a = mkAccount id (clock s) (clock s) 1 o name desc status by_ ∧ o = org s ∧
    at_accounts (store s) !! id = None ∧ unused (λ a, (sa_org a, sa_name a)) (o, name) (at_accounts (store s)) ∧
    store s' = put_account a (store s) ∧ same_env s s'.
Proof.
  unfold serviceAccountRepo_Create. intros H. inv_bind. apply uuid_Ok in Hm as (Hs0 & (Ho0 & Hg0 & Hc0) & _).
  apply on_err_Ok, stmt_Ok_inv in H as (Hi & _ & _ & _ & (?&?&?)). unfold insert_account in Hi. simpl in Hi.
  destruct (visible _ _) eqn:Hv; [|done]. simpl in Hi. apply visible_spec in Hv as [_ Hv].
  destruct (bool_decide _) eqn:Hd; [done|]. apply bool_decide_eq_false in Hd. simpl in Hi.
  destruct (existsb _ _) eqn:Hex; [done|]. injection Hi as <- Hst. rewrite Hs0, Hc0, Ho0 in *. exists x.
  split; [done|]. split; [congruence|]. split; [by apply eq_None_not_Some|]. split; [|split; [done|]].
  - intros k b Hk [= E1 E2]. apply (unused_scan _ _ Hex) in Hk. simpl in Hk.
    by rewrite E1, E2, !String.eqb_refl in Hk.
  - unfold same_env. split_and!; congruence.
Qed.

Lemma emit_Ok_auth ty o p opts s u s' : o ≠ "" → enqueue_auth (R := R) ty o p opts s = (Ok u, s') →
  emitted ty o p opts (clock s) (store s) (store s') ∧ same_env s s'.
Proof. intros Ho H. by apply yields_emit in H as (? & _ & ?). Qed.

(** Only an active owner may manage the organization. *)
Lemma grants_manage_org role : grants (pol_org NewPolicyAuthorizer) role ActionManageOrg = true → role = OrgOwner.
Proof.
  unfold grants, NewPolicyAuthorizer; simpl. rewrite bool_decide_eq_true.
  destruct (decide (role = OrgOwner)) as [->|H1]; [done|].
  destruct (decide (role = OrgAdmin)) as [->|H2]; [vm_compute; intuition discriminate|].
  destruct (decide (role = RoleMember)) as [->|H3]; [vm_compute; intuition discriminate|].
  destruct (decide (role = OrgAuditor)) as [->|H4]; [vm_compute; intuition discriminate|].
  rewrite !lookup_insert_ne, lookup_empty by congruence. simpl. set_solver.
Qed.
Definition owns (o user : string) : AuthDB → Prop := active_member o user (λ role, role = OrgOwner).
Lemma probe_machines o user : probe (owns o user) (authorize_machines (R := R) o user).
Proof.
  intros s r s' (Hs & He & Hr)%AuthorizeOrgMember_inv. split; [done|]. split; [done|].
  intros (_ & _ & Ha)%Hr. eapply active_member_impl, Ha. apply grants_manage_org.
Qed.

Definition account_created (o creator : string) (req : CreateServiceAccountRequest) (now : Z) (db : AuthDB)
    (a : ServiceAccount) (db' : AuthDB) : Prop :=
  ∃ id, let name := GoStrings.TrimSpace (cs_name req) in let d := GoStrings.TrimSpace (cs_desc req) in
    a = mkAccount id now now 1 o name (if String.eqb d "" then None else Some d) "active" (optionalString creator) ∧
    at_accounts db !! id = None ∧ unused (λ a, (sa_org a, sa_name a)) (o, name) (at_accounts db) ∧
    emitted EventServiceAccountCreated o (serviceAccountCreatedPayload id name creator)
      (by_account creator ++ [WithResource (mkResource "service_account" id)]) now (put_account a db) db'.
Lemma CreateServiceAccount_ensures o creator req :
  ensures o (λ db, owns o creator db ∧ blank (cs_name req) = false ∧ True) (account_created o creator req)
    (Service_CreateServiceAccount (R := R) o creator req).
Proof.
  apply ensures_probe; [apply probe_machines|].
  eapply runs_ensures; [apply runs_guard, runs_WithTenant|].
  { unfold serviceAccountRepo_Create. solve_stable; apply stable_emit. }
  intros s a s' Ho Hos _ H. apply bind_Ok_inv in H as (x & s1 & Hm%on_err_Ok & H).
  apply bind_Ok_inv in H as ([] & s2 & Hev & H). injection H as <- <-.
  apply accountCreate_Ok in Hm as (id & -> & _ & Hid & Hun & Hs1 & (_ & _ & Hc1)).
  apply emit_Ok_auth in Hev as [Hev _]; [|done]. rewrite Hs1, Hc1 in Hev. by exists id.
Qed.

Definition account_deleted (o id : string) (now : Z) (db : AuthDB) (u : unit) (db' : AuthDB) : Prop :=
  ∃ a, at_accounts db !! id = Some a ∧ sa_org a = o ∧
    emitted EventServiceAccountDeleted o (serviceAccountDeletedPayload id) [WithResource (mkResource "service_account" id)]
      now (set_api (filter (λ kv, ap_account kv.2 ≠ id) (at_api db)) (set_accounts (delete id (at_accounts db)) db)) db'.
Lemma DeleteServiceAccount_ensures o user id :
  ensures o (λ db, owns o user db ∧ True) (account_deleted o id) (Service_DeleteServiceAccount (R := R) o user id).
Proof.
  apply ensures_probe; [apply probe_machines|].
  eapply runs_ensures; [apply runs_WithTenant|].
  { unfold serviceAccountRepo_Delete. solve_stable; apply stable_emit. }
  intros s a s' Ho Hos _ H. apply bind_Ok_inv in H as ([] & s1 & Hm & Hev).
  apply Exec_hit_Ok in Hm as (n & Hn & Hi & (_ & _ & Hc1)). unfold delete_account in Hi.
  destruct (row_at _ _ _ _) as [x|] eqn:Hr; [|by injection Hi as <-]. apply row_at_Some in Hr as (Hk & _ & Hx).
  injection Hi as _ Hst. apply emit_Ok_auth in Hev as [Hev _]; [|done]. rewrite <- Hst, Hc1 in Hev.
  exists x. split_and!; [done|congruence|done].
Qed.

(** The token is signed before the account is looked up. *)
Definition api_created (o account : string) (req : CreateAPITokenRequest) (now : Z) (db : AuthDB)
    (r : APITokenResult) (db' : AuthDB) : Prop :=
  ∃ id jti a, let expires := api_expiry now (ca_days req) in let scopes := scopesOrEmpty (ca_scopes req) in
    let t := mkApi id now now 1 o account (GoStrings.TrimSpace (ca_name req)) ("jwt_" +:+ GoStrings.take_str 8 jti) jti
               scopes expires None None in
    at_accounts db !! account = Some a ∧ sa_org a = o ∧ at_api db !! id = None ∧ unused ap_hash jti (at_api db) ∧
    jwt_SignedString signing_key (service_account_claims o scopes account jti now
      (default (now + 365 * 24 * GoTime.Hour) expires)) = Ok (ar_token r) ∧
    r = mkApiResult id (ap_name t) (ap_prefix t) (ar_token r) scopes expires now ∧
    emitted EventAPITokenCreated o (apiTokenCreatedPayload id account (ap_name t)) [WithResource (mkResource "api_token" id)]
      now (put_api t db) db'.
Lemma apiCreate_Ok o account name prefix hash scopes expires s t s' :
  apiTokenRepo_Create (R := R) o account name prefix hash scopes expires s = (Ok t, s') →
  ∃ id, t = mkApi id (clock s) (clock s) 1 o account name prefix hash scopes expires None None ∧
    at_api (store s) !! id = None ∧ unused ap_hash hash (at_api (store s)) ∧
    store s' = put_api t (store s) ∧ same_env s s'.
Proof.
  unfold apiTokenRepo_Create. intros H. inv_bind. apply uuid_Ok in Hm as (Hs0 & (Ho0 & Hg0 & Hc0) & _).
  apply on_err_Ok, stmt_Ok_inv in H as (Hi & _ & _ & _ & (?&?&?)). unfold insert_api in Hi. simpl in Hi.
  destruct (visible _ _) eqn:Hv; [|done]. simpl in Hi.
  destruct (bool_decide _) eqn:Hd; [done|]. apply bool_decide_eq_false in Hd. simpl in Hi.
  destruct (existsb _ _) eqn:Hex; [done|]. destruct (negb _) eqn:Hfk in Hi; [done|].
  injection Hi as <- Hst. rewrite Hs0, Hc0 in *. exists x.
  split; [done|]. split; [by apply eq_None_not_Some|]. split; [|split; [done|]].
  - intros k b Hk He. apply (unused_scan _ _ Hex) in Hk. by apply String.eqb_neq in Hk.
  - unfold same_env. split_and!; congruence.
Qed.

Lemma looks_IssueServiceAccountToken account o scopes expires :
  looks (λ now _ r, jwt_SignedString signing_key (service_account_claims o scopes account r.2 now
           (default (now + 365 * 24 * GoTime.Hour) expires)) = Ok r.1)
    (JWTIssuer_IssueServiceAccountToken (R := R) signing_key account o scopes expires).
Proof.
  intros s r s' H. unfold JWTIssuer_IssueServiceAccountToken, now_, uuid_NewString, bind in H. simpl in H.
  destruct (jwt_SignedString _ _) as [signed|e] eqn:Hs; injection H as <- <-; (split; [done|]); (split; [done|]).
  - by intros a [= <-].
  - done.
Qed.
Lemma ensures_ret {A B} o P (Q : Z → AuthDB → A → AuthDB → Prop) (m : M AuthDB (AOutside R) A) (f : A → B) :
  ensures o P Q m → ensures o P (λ now db b db', ∃ a, b = f a ∧ Q now db a db') (let* a := m in ret (f a)).
Proof.
  intros Hm s r s' H. unfold bind in H. destruct (m s) as [[a|e] s1] eqn:Ha; apply Hm in Ha as [He Ha];
    injection H as <- <-; (split; [done|]); [|done]. destruct Ha as (? & ? & ?). eauto 6.
Qed.

Lemma CreateAPIToken_ensures o user account req :
  ensures o (λ db, owns o user db) (api_created o account req)
    (Service_CreateAPIToken (R := R) signing_key o user account req).
Proof.
  eapply ensures_weaken; [apply ensures_probe; [apply probe_machines|]|by intros db [? _]].
  destruct (blank (ca_name req)); [by intros s r s' [= <- <-]|].
  eapply ensures_post; [eapply ensures_bind; [apply looks_now|]; intros now|].
  { eapply ensures_bind; [apply looks_IssueServiceAccountToken|]. intros [signed jti].
    instantiate (1 := λ sj n db r db', ∃ t, let expires := api_expiry now (ca_days req) in
      let scopes := scopesOrEmpty (ca_scopes req) in
      r = mkApiResult (ap_id t) (ap_name t) (ap_prefix t) sj.1 (ap_scopes t) (ap_expires t) (ap_created t) ∧
      ∃ a id, t = mkApi id n n 1 o account (GoStrings.TrimSpace (ca_name req)) ("jwt_" +:+ GoStrings.take_str 8 sj.2) sj.2
               scopes expires None None ∧ at_accounts db !! account = Some a ∧ sa_org a = o ∧
        at_api db !! id = None ∧ unused ap_hash sj.2 (at_api db) ∧
        emitted EventAPITokenCreated o (apiTokenCreatedPayload id account (ap_name t))
          [WithResource (mkResource "api_token" id)] n (put_api t db) db').
    instantiate (1 := λ _, True).
    apply ensures_ret. eapply runs_ensures; [apply runs_WithTenant|].
    - unfold serviceAccountRepo_GetByID, apiTokenRepo_Create. solve_stable; apply stable_emit.
    - intros s t s' Ho Hos _ H. apply bind_Ok_inv in H as (a & s1 & Hm%on_err_Ok & H).
      apply QueryOne_Ok in Hm as (Hq%opt_one & Hs1 & (Ho1 & Hg1 & Hc1)). apply row_at_Some in Hq as (Hk & _ & Ha).
      apply bind_Ok_inv in H as (x & s2 & Hm & H). apply apiCreate_Ok in Hm as (id & -> & Hid & Hun & Hs2 & (_ & _ & Hc2)).
      apply bind_Ok_inv in H as ([] & s3 & Hev & H). injection H as <- <-.
      apply emit_Ok_auth in Hev as [Hev _]; [|done]. rewrite Hs2, Hc2, Hs1, Hc1 in Hev. rewrite Hs1 in Hid, Hun.
      rewrite Hc1. exists a, id. simpl. split_and!; try done. congruence. }
  intros now db r db' (now' & -> & [signed jti] & Hsig & t & -> & a & id & -> & ?).
  exists id, jti, a. simpl in *. tauto.
Qed.

Definition api_token_revoked (o id : string) (now : Z) (db : AuthDB) (u : unit) (db' : AuthDB) : Prop :=
  ∃ t, at_api db !! id = Some t ∧ ap_org t = o ∧ ap_revoked t = None ∧
    emitted EventAPITokenRevoked o (apiTokenRevokedPayload id) [WithResource (mkResource "api_token" id)] now
      (set_api (<[id := api_revoked now t]> (at_api db)) db) db'.
Lemma RevokeAPIToken_ensures o user id :
  ensures o (λ db, owns o user db ∧ True) (api_token_revoked o id) (Service_RevokeAPIToken (R := R) o user id).
Proof.
  apply ensures_probe; [apply probe_machines|].
  eapply runs_ensures; [apply runs_WithTenant|].
  { unfold apiTokenRepo_Revoke. solve_stable; apply stable_emit. }
  intros s a s' Ho Hos _ H. apply bind_Ok_inv in H as ([] & s1 & Hm & Hev).
  apply Exec_hit_Ok in Hm as (n & Hn & Hi & (_ & _ & Hc1)). unfold revoke_api in Hi.
  destruct (row_at _ _ _ _) as [t|] eqn:Hr; [|by injection Hi as <-]. apply row_at_Some in Hr as (Hk & _ & Hx).
  destruct (ap_revoked t) eqn:Hrev; injection Hi as Hn' Hst; [done|].
  apply emit_Ok_auth in Hev as [Hev _]; [|done]. rewrite <- Hst, Hc1 in Hev.
  exists t. split_and!; try done. congruence.
Qed.
End Machines.
