(* ===== verification/AuthSteps.v ===== *)
(** * Every call of the authentication service is a run of its machine

    Whoever calls, whatever the call carries and whichever statements fail, a
    request performs steps of [AuthSpec] in the organization it names (if any),
    also when refreshes that have checked their session rotate it later. *)

From S2P Require Import Prelude Json GoTime AppErrors Tx Events Pagination Authz Http Calls.
From S2P Require Import Encodings Credentials AuthStore AuthService AuthSpec AuthFacts.
Open Scope Z_scope.
Open Scope tx_scope.
#[local] Opaque Sha256.Sum256.

(** ** Outcomes as steps *)
Lemma event_step ty x p opts o now db db' : neutral opts → x = o ∨ x = systemOrg →
  emitted ty x p opts now db db' → rtc (achange o now) db db'.
Proof.
  intros Hn Hx (row_id & eid & Hv & Hnew & ->). apply rtc_once, ac_event; [done..|].
  by rewrite (emitted_org _ _ _ _ _ _ _ _ Hn).
Qed.

(** What an update keeps of the invariant of the row. *)
Lemma user_ok_edit v u now :
  (u_mfa v = true → is_Some (u_secret v)) → 0 ≤ u_failed v →
  (maxFailedLogins ≤ u_failed v ↔ is_Some (u_locked v)) → user_ok u → user_ok (user_edit v now u).
Proof. intros ??? [_ _ _ ?]. split; [done..|]. simpl. lia. Qed.
Lemma no_failures : maxFailedLogins ≤ 0 ↔ is_Some (@None Z).
Proof. unfold maxFailedLogins. split; [lia|by intros [? ?]]. Qed.

Lemma edit_step o v u now db : keyed u_id (at_users db) → at_users db !! u_id v = Some u →
  u_name v = u_name u → u_status v = u_status u → (user_ok u → user_ok (user_edit v now u)) →
  achange o now db (set_users (<[u_id v := user_edit v now u]> (at_users db)) db).
Proof.
  intros W Hu Hn Hs Hok. pose proof (W _ _ Hu) as Hid. rewrite <- Hid in *.
  apply (ac_edit o now db u (user_edit v now u)); [done| |done|done]. by split_and!.
Qed.
Lemma updated_step o v u now db db' : keyed u_id (at_users db) → at_users db !! u_id v = Some u →
  u_name v = u_name u → u_status v = u_status u → (user_ok u → user_ok (user_edit v now u)) →
  updated_user v now db db' → rtc (achange o now) db db'.
Proof.
  intros W Hu Hn Hs Hok (r & Hr & _ & ->). rewrite Hu in Hr. injection Hr as <-.
  by apply rtc_once, edit_step.
Qed.

Lemma user_ok_failed now n u : user_ok u → user_ok (user_edit (failed_login n u) now u).
Proof.
  intros H. apply user_ok_edit; [apply H|pose proof (uo_failed _ H); simpl; lia| |done].
  pose proof (uo_locked _ H) as Hl. simpl. destruct (Z.leb_spec maxFailedLogins (u_failed u + 1)).
  - split; [eauto|done].
  - split; [lia|]. intros ?%Hl. lia.
Qed.
Lemma user_ok_reset now h u : user_ok u → user_ok (user_edit (with_login_state 0 None (with_password h u)) now u).
Proof. intros H. apply user_ok_edit; [apply H|done|apply no_failures|done]. Qed.
Lemma user_ok_counters now u : user_ok u → user_ok (user_edit (with_login_state 0 None u) now u).
Proof. intros H. apply user_ok_edit; [apply H|done|apply no_failures|done]. Qed.
Lemma user_ok_mfa now on secret u : (on = true → is_Some secret) →
  user_ok u → user_ok (user_edit (with_mfa on secret u) now u).
Proof. intros Hs H. apply user_ok_edit; [done|apply H..|done]. Qed.
Lemma user_ok_verified now u : user_ok u → user_ok (user_edit (with_verified u) now u).
Proof. intros H. apply user_ok_edit; [apply H..|done]. Qed.

Section Steps.
Context {R : Type} `{RS : !RevocationStore R} `{JW : !JWT} `{CJ : !CursorJSON}.
Context (IDKey : list Z → list Z → Z → Z → Z → Z → list Z) (rand : nat → nat → option (list Z)).
Context (signing_key : list Z) (AccessTTL RefreshTTL : Z) (revoking notifying : bool).
Implicit Types s : Sess AuthDB (AOutside R).
Abbreviation acts := (performs (W := AOutside R) awf achange).

Lemma edited_steps u v ty p opts now db db' : awf db → at_users db !! u_id u = Some u →
  u_id v = u_id u → u_name v = u_name u → u_status v = u_status u →
  (user_ok u → user_ok (user_edit v now u)) → neutral opts →
  edited v u ty p opts now db db' → rtc (achange "" now) db db'.
Proof.
  intros W Hu Hid Hn Hs Hok Hne Hed. unfold edited in Hed. rewrite <- Hid in Hu.
  pose proof (us_key _ (aw_users _ W)).
  eapply rtc_l; [apply (edit_step _ v u); done|]. eapply event_step, Hed; auto.
Qed.

(** Sessions. *)
Lemma pair_steps o u incl meta now db p db' :
  issued_pair rand signing_key AccessTTL RefreshTTL u incl meta now db p db' → rtc (achange o now) db db'.
Proof. intros (id & (Hn & Hh & Hu & ->) & _). by apply rtc_once, ac_session. Qed.

Lemma rotated_steps t u meta now db p db' : awf db →
  (∃ t', at_sessions db !! rt_id t = Some t' ∧ rt_user t' = u_id u) →
  rotated rand signing_key AccessTTL RefreshTTL t u meta now db p db' → rtc (achange "" now) db db'.
Proof.
  intros W (t' & Ht & Hu) (id & d1 & d2 & (Hn & Hh & Hus & ->) & _ & _ & _ & _ & Hrev & Hev).
  pose proof (ss_key _ _ (aw_sessions _ W) _ _ Ht) as Hid.
  set (n := new_session _ _ _ _ _ _ _) in *.
  eapply rtc_l; [by apply (ac_session "" now db n)|]. simpl in Hn. etrans; [|eapply event_step, Hev; [done|by right]].
  assert (Hne : rt_id t ≠ id) by congruence.
  destruct Hrev as [[_ ->]|(x & Hx & Hl & ->)]; [done|]. simpl in Hx.
  rewrite lookup_insert_ne in Hx by done. rewrite Ht in Hx. injection Hx as <-.
  apply rtc_once. rewrite <- Hid. apply (ac_revoke "" now _ t'); [|done|].
  - simpl. rewrite lookup_insert_ne; congruence.
  - intros nid [= <-]. eexists. simpl. rewrite lookup_insert_eq. split; [done|]. by rewrite Hu.
Qed.
Lemma logged_out_steps token t now db db' :
  awf db → logged_out token t now db db' → rtc (achange "" now) db db'.
Proof.
  intros W (_ & Ht & d1 & Hrev & Hev). etrans; [|eapply event_step, Hev; [done|by right]].
  destruct Hrev as [[_ ->]|(x & Hx & Hl & ->)]; [done|]. rewrite Ht in Hx. injection Hx as <-.
  by apply rtc_once, ac_revoke.
Qed.
Lemma logged_in_steps u meta now db p db' : awf db → at_users db !! u_id u = Some u →
  logged_in rand signing_key AccessTTL RefreshTTL u meta now db p db' → rtc (achange "" now) db db'.
Proof.
  intros W Hu (d1 & Hc & d2 & Hp & Hev). etrans; [|etrans; [by eapply pair_steps|eapply event_step, Hev; auto]]; [|done].
  destruct Hc as [->|Hc]; [done|]. unfold counters_reset in Hc. destruct (decide _) in Hc; subst d1; [|done].
  apply rtc_once, (edit_step _ (with_login_state 0 None u));
    [apply W|done..|apply user_ok_counters].
Qed.

(** One-time tokens. *)
Lemma used_user_awf t now db k : awf db → at_otts db !! k = Some t → awf (used_token t now db).
Proof.
  intros W Hk. pose proof (os_key _ _ (aw_otts _ W) _ _ Hk) as <-.
  replace (used_token t now db) with (put_ott (with_used now t) db).
  - eapply (achange_wf "" now), W. by apply ac_use.
  - unfold put_ott, used_token. by destruct (with_used_same now t) as (-> & _).
Qed.
Lemma consumed_steps plain purpose (Q : User → Z → AuthDB → AuthDB → Prop) now db db' : awf db →
  (∀ u db db', awf db → at_users db !! u_id u = Some u → Q u now db db' → rtc (achange "" now) db db') →
  consumed plain purpose Q now db db' → rtc (achange "" now) db db'.
Proof.
  intros W HQ (t & u & (_ & (k & Hk) & _ & _ & Hu) & Hq).
  pose proof (us_key _ (aw_users _ W) _ _ Hu) as Hid.
  eapply rtc_l; [|apply (HQ u); [by eapply used_user_awf|by rewrite Hid|exact Hq]].
  pose proof (os_key _ _ (aw_otts _ W) _ _ Hk) as <-.
  replace (used_token t now db) with (put_ott (with_used now t) db); [by apply ac_use|].
  unfold put_ott, used_token. by destruct (with_used_same now t) as (-> & _).
Qed.
Lemma verified_steps u now db db' : awf db → at_users db !! u_id u = Some u →
  verified u now db db' → rtc (achange "" now) db db'.
Proof.
  intros W Hu [[_ ->]|(_ & d1 & Hup & Hev)]; [done|]. etrans; [|eapply event_step, Hev; auto; done].
  eapply updated_step, Hup; [apply W|done..|apply user_ok_verified].
Qed.
Lemma reset_steps h u now db db' : awf db → at_users db !! u_id u = Some u →
  password_reset h u now db db' → rtc (achange "" now) db db'.
Proof.
  intros W Hu (d1 & Hup & Hev).
  etrans; [eapply updated_step, Hup; [apply W|done..|apply user_ok_reset]|].
  eapply rtc_l; [apply ac_revoke_all|]. eapply event_step, Hev; auto; done.
Qed.
Lemma created_ott_steps user purpose ttl now db r db' : no_live_ott user purpose db →
  created_ott rand user purpose ttl now db r db' → rtc (achange "" now) db db'.
Proof. intros Hl (_ & Hn & Hh & Hu & ->). by apply rtc_once, ac_ott. Qed.
Lemma renewed_steps u purpose ttl ty p now db r db' :
  renewed rand u purpose ttl ty p now db r db' → rtc (achange "" now) db db'.
Proof.
  intros (d1 & Hc & Hev). eapply rtc_l; [apply (ac_use_all "" now db (u_id u) purpose)|].
  etrans; [eapply created_ott_steps, Hc|eapply event_step, Hev; auto; done].
  intros k t (x & <- & Hx)%lookup_fmap_Some. unfold use_if_of.
  destruct (String.eqb_spec (ot_user x) (u_id u)) as [|Hne]; simpl; [|by intros ?%Hne].
  destruct (String.eqb_spec (ot_purpose x) purpose) as [|Hne]; simpl; [|by intros _ ?%Hne].
  intros _ _. by destruct (with_used_same now x) as (_&_&_&_&?&_).
Qed.
Lemma signed_up_steps email name hash meta now db r db' : awf db →
  signed_up rand signing_key AccessTTL RefreshTTL email name hash meta now db r db' →
  rtc (achange "" now) db db'.
Proof.
  destruct r as [[[u plain] ref] p]. intros W (id & d2 & d3 & d4 & -> & Hn & Hm & Hc & Hp & He1 & He2).
  eapply rtc_l; [apply (ac_user "" now db (fresh_account id now email name hash)); [done|done|]|].
  { split; simpl; [done|done|apply no_failures|done]. }
  etrans; [eapply created_ott_steps, Hc|].
  { intros k t Hk Hu. apply (os_user _ _ (aw_otts _ W)) in Hk as [x Hx]. simpl in Hx. congruence. }
  etrans; [by eapply pair_steps|]. etrans; [eapply event_step, He1|eapply event_step, He2]; auto; done.
Qed.

(** ** Calls as runs *)
Lemma ran {A} (m : M AuthDB (AOutside R) A) :
  (∀ s r s', awf (store s) → m s = (r, s') → store s' = store s ∨ rtc (achange "" (clock s)) (store s) (store s')) →
  acts (eq "") m.
Proof. intros Hm s r s' _ W H. destruct (Hm s r s' W H); [by left|right]. by exists "". Qed.

Lemma mfa_edited_steps u v ty now db db' : awf db → at_users db !! u_id u = Some u →
  u_id v = u_id u → u_name v = u_name u → u_status v = u_status u →
  (user_ok u → user_ok (user_edit v now u)) → mfa_edited v u ty now db db' → rtc (achange "" now) db db'.
Proof. unfold mfa_edited. intros ??????. intros Hed. eapply edited_steps; [..|exact Hed]; done. Qed.
Lemma acts_SetupMFA user : acts (eq "") (Service_SetupMFA (R := R) rand user).
Proof.
  apply ran. intros s r s' W H. pose proof (us_key _ (aw_users _ W)) as K.
  apply SetupMFA_inv in H as (_ & _ & H); [|done]. destruct r as [m|e]; [|by left].
  destruct H as (u & i & b & Hu & _ & _ & _ & H). right. pose proof (K _ _ Hu) as <-.
  eapply mfa_edited_steps, H; try done. by apply user_ok_mfa.
Qed.
Lemma totp_steps user code on ty now db db' : awf db → totp_edit user code on ty now db db' →
  rtc (achange "" now) db db'.
Proof.
  intros W (u & secret & Hu & _ & _ & _ & H). pose proof (us_key _ (aw_users _ W) _ _ Hu) as <-.
  eapply mfa_edited_steps, H; try done. apply user_ok_mfa. by intros ->.
Qed.
Lemma acts_EnableMFA user code : acts (eq "") (Service_EnableMFA (R := R) user code).
Proof.
  apply ran. intros s r s' W H. apply EnableMFA_inv in H as (_ & _ & H); [|apply W].
  destruct r; [right; by eapply totp_steps|by left].
Qed.
Lemma acts_DisableMFA user code : acts (eq "") (Service_DisableMFA (R := R) user code).
Proof.
  apply ran. intros s r s' W H. apply DisableMFA_inv in H as (_ & _ & H); [|apply W].
  destruct r; [right; by eapply totp_steps|by left].
Qed.
Abbreviation Login := (Service_Login (R := R) IDKey rand signing_key AccessTTL RefreshTTL).
Lemma acts_Login req meta : acts (eq "") (Login req meta).
Proof.
  apply ran. intros s r s' W H. apply Login_inv in H as (_ & _ & H); [|apply W]. destruct r as [p|e].
  - destruct H as (_ & u & [_ Hu] & _ & H). right. by eapply logged_in_steps.
  - destruct H as [(_ & _ & ?)|[_ [(_ & _ & _ & _ & ?)|(u & [_ Hu] & H)]]]; [by left..|].
    destruct (login_verdict _ _ _ _); [by left; destruct H| |by left].
    destruct H as [_ [?|H]]; [by left|right]. eapply edited_steps, H; try done. apply user_ok_failed.
Qed.
Lemma acts_Signup req meta :
  acts (eq "") (Service_Signup (R := R) IDKey rand signing_key AccessTTL RefreshTTL notifying req meta).
Proof.
  apply ran. intros s r s' W [_ H]%Signup_inv. destruct r as [p|e]; [|left; by destruct H].
  destruct H as (_ & _ & _ & i & salt & hash & u & plain & ref & _ & _ & H & _). right. by eapply signed_up_steps.
Qed.

(** A rotation, whenever its session was checked. *)
Definition session_of (t : RefreshToken) (u : User) (db : AuthDB) : Prop :=
  ∃ t', at_sessions db !! rt_id t = Some t' ∧ rt_user t' = u_id u.
Abbreviation rotate := (refresh_rotate (R := R) rand signing_key AccessTTL RefreshTTL revoking).
Lemma rotate_runs t u meta s r s' : awf (store s) → session_of t u (store s) → rotate t u meta s = (r, s') →
  rtc (achange "" (clock s)) (store s) (store s').
Proof.
  intros W Ht [_ H]%rotate_inv. destruct r as [p|e]; [|by destruct H as [-> _]].
  destruct H as [H _]. by eapply rotated_steps.
Qed.
Lemma refreshable_session token t u now db : awf db → refreshable token t u now db → session_of t u db.
Proof.
  intros W (_ & Ht & _ & Hu & _). exists t. split; [done|]. symmetry. by apply (us_key _ (aw_users _ W)).
Qed.
Lemma acts_Refresh token meta :
  acts (eq "") (Service_Refresh (R := R) rand signing_key AccessTTL RefreshTTL revoking token meta).
Proof.
  apply ran. intros s r s' W H. apply Refresh_inv in H as (_ & H); [|apply W].
  destruct r as [p|e]; [|left; by destruct H]. destruct H as (t & u & Ht & H & _). right.
  eapply rotated_steps, H; [done|]. by eapply refreshable_session.
Qed.
Lemma acts_Logout token : acts (eq "") (Service_Logout (R := R) AccessTTL revoking token).
Proof.
  apply ran. intros s r s' W H. apply Logout_inv in H as (_ & H); [|apply W].
  destruct r as [p|e]; [|left; by destruct H]. destruct H as [[? _]|(t & H & _)]; [by left|right].
  by eapply logged_out_steps.
Qed.
Lemma acts_VerifyEmail plain : acts (eq "") (Service_VerifyEmail (R := R) plain).
Proof.
  apply ran. intros s r s' W H. apply VerifyEmail_inv in H as (_ & _ & H); [|apply W].
  destruct r; [right|by left]. eapply consumed_steps, H; [done|]. intros. by eapply verified_steps.
Qed.
Lemma acts_ConfirmPasswordReset_any plain password s r s' : awf (store s) →
  Service_ConfirmPasswordReset (R := R) IDKey rand plain password s = (r, s') →
  store s' = store s ∨ rtc (achange "" (clock s)) (store s) (store s').
Proof.
  intros W H. apply ConfirmPasswordReset_inv in H as (_ & _ & H); [|apply W].
  destruct r; [right|by left]. destruct H as (_ & i & salt & hash & _ & _ & H).
  eapply consumed_steps, H; [done|]. intros. by eapply reset_steps.
Qed.
Lemma acts_ConfirmPasswordReset plain password :
  acts (eq "") (Service_ConfirmPasswordReset (R := R) IDKey rand plain password).
Proof. apply ran. intros s r s'. apply acts_ConfirmPasswordReset_any. Qed.
Lemma requested_runs email purpose msg ttl ty p wanted s s' :
  requested rand notifying email purpose msg ttl ty p wanted s s' →
  store s' = store s ∨ rtc (achange "" (clock s)) (store s) (store s').
Proof. intros [[? _]|(u & plain & ref & _ & _ & _ & H & _)]; [by left|right]. by eapply renewed_steps. Qed.
Lemma acts_ResendVerification email : acts (eq "") (Service_ResendVerification (R := R) rand notifying email).
Proof.
  apply ran. intros s r s' W [_ H]%ResendVerification_inv. destruct r; [by eapply requested_runs|left; by destruct H].
Qed.
Lemma acts_RequestPasswordReset email : acts (eq "") (Service_RequestPasswordReset (R := R) rand notifying email).
Proof.
  apply ran. intros s r s' W [_ H]%RequestPasswordReset_inv. destruct r; [by eapply requested_runs|left; by destruct H].
Qed.

(** Machine identities. *)
Lemma acts_CreateServiceAccount o user req : acts (eq o) (Service_CreateServiceAccount (R := R) o user req).
Proof.
  eapply ensures_performs; [apply CreateServiceAccount_ensures|].
  intros now db a db' W _ (id & -> & Hn & Hu & Hev). set (a := mkAccount _ _ _ _ _ _ _ _ _) in Hev.
  eapply rtc_l; [by apply (ac_account o now db a)|]. eapply event_step, Hev; auto; done.
Qed.
Lemma acts_DeleteServiceAccount o user id : acts (eq o) (Service_DeleteServiceAccount (R := R) o user id).
Proof.
  eapply ensures_performs; [apply DeleteServiceAccount_ensures|].
  intros now db a db' W _ (x & Hx & Ho & Hev). pose proof (ma_key _ _ (aw_machines _ W) _ _ Hx) as <-.
  eapply rtc_l; [by apply (ac_delete_account o now db x)|]. eapply event_step, Hev; auto; done.
Qed.
Lemma acts_CreateAPIToken o user account req :
  acts (eq o) (Service_CreateAPIToken (R := R) signing_key o user account req).
Proof.
  eapply ensures_performs; [apply CreateAPIToken_ensures|].
  intros now db r db' W _ (id & jti & a & Ha & Ho & Hn & Hu & _ & _ & Hev). set (t := mkApi _ _ _ _ _ _ _ _ _ _ _ _ _) in Hev.
  eapply rtc_l; [by apply (ac_api o now db t a)|]. eapply event_step, Hev; auto; done.
Qed.
Lemma acts_RevokeAPIToken o user id : acts (eq o) (Service_RevokeAPIToken (R := R) o user id).
Proof.
  eapply ensures_performs; [apply RevokeAPIToken_ensures|].
  intros now db a db' W _ (t & Ht & Ho & _ & Hev). pose proof (ma_token_key _ _ (aw_machines _ W) _ _ Ht) as <-.
  eapply rtc_l; [by apply (ac_revoke_api o now db t)|]. eapply event_step, Hev; auto; done.
Qed.

(** ** Requests *)
Abbreviation spublic :=
  (serve_public (R := R) IDKey rand signing_key AccessTTL RefreshTTL revoking notifying).
Abbreviation saccount := (serve_account (R := R) rand signing_key AccessTTL revoking).
Abbreviation serve :=
  (serve_auth (R := R) IDKey rand signing_key AccessTTL RefreshTTL revoking notifying).

(** The organization a request names, if any. *)
Definition account_request_org (r : AccountRequest) : string :=
  match r with
  | PostServiceAccount o _ | ListServiceAccounts o _ | DeleteServiceAccount o _ | PostAPIToken o _ _
  | ListAPITokens o _ | DeleteAPIToken o _ => o
  | _ => ""
  end.
Definition auth_request_org (r : AuthRequest) : string :=
  match r with Public _ => "" | WithAuth _ r => account_request_org r end.

Lemma readonly_auth_respond status b : readonly (respond (R := R) status b).
Proof. by intros s. Qed.
Lemma public_acts r : acts (eq "") (spublic r).
Proof.
  destruct r; simpl; (apply performs_pre; [apply idle_parse|intros]); apply performs_post; try (by intros);
    [apply acts_Signup|apply acts_Login|apply acts_Refresh|apply acts_VerifyEmail|apply acts_ResendVerification
    |apply acts_RequestPasswordReset|apply acts_ConfirmPasswordReset].
Qed.

Lemma account_acts user r : acts (eq (account_request_org r)) (saccount user r).
Proof.
  destruct r; simpl; try (apply readonly_performs; solve [
    unfold Service_Me, userRepo_GetByID, Service_ListServiceAccounts, Service_ListAPITokens,
      serviceAccountRepo_List, apiTokenRepo_ListByOrg, respond; solve_readonly]);
    repeat (apply performs_pre; [apply idle_parse|intros]); apply performs_post; try (by intros);
    [apply acts_Logout|apply acts_SetupMFA|apply acts_EnableMFA|apply acts_DisableMFA|apply acts_CreateServiceAccount
    |apply acts_DeleteServiceAccount|apply acts_CreateAPIToken|apply acts_RevokeAPIToken].
Qed.

Lemma idle_now : idle (S := AuthDB) (W := AOutside R) now_.
Proof. by intros s r s' [= <- <-]. Qed.
Lemma serve_acts r : acts (eq (auth_request_org r)) (serve r).
Proof.
  destruct r as [r|h r]; simpl; [apply public_acts|]. unfold RequireAuth.
  destruct (String.eqb _ ""); [apply performs_fail|]. apply performs_pre; [apply idle_now|]. intros now.
  destruct (JWTIssuer_Verify _ _ _); [apply account_acts|apply performs_fail].
Qed.

(** ** Reachable states *)

(** The database with the refreshes that have checked their session and not yet
    rotated it.  A request runs in any session: whatever the clock, the
    identifiers drawn, what Redis holds, and the failures the server injects. *)
Definition auth_state : Type := AuthDB * list (RefreshToken * User).
Inductive auth_step : auth_state → auth_state → Prop :=
| auth_request s r l : proper_uuids s → auth_step (store s, l) (store (serve r s).2, l)
| refresh_checks s token t u l :
    (refresh_check (R := R) token s).1 = Ok (t, u) → auth_step (store s, l) (store s, (t, u) :: l)
| refresh_rotates s t u meta l1 l2 :
    auth_step (store s, l1 ++ (t, u) :: l2) (store (rotate t u meta s).2, l1 ++ l2).

(** What is checked stays the session of its user. *)
Definition auth_wf (st : auth_state) : Prop :=
  awf st.1 ∧ Forall (λ c, session_of c.1 c.2 st.1) st.2.
Lemma session_of_kept t u db db' : akept db db' → session_of t u db → session_of t u db'.
Proof.
  intros K (t' & Ht & Hu). destruct (ak_sessions _ _ K _ _ Ht) as (x & Hx & _ & _ & Hxu & _).
  exists x. by rewrite Hxu.
Qed.
Lemma checked_kept l db db' : akept db db' → Forall (λ c, session_of c.1 c.2 db) l →
  Forall (λ c, session_of c.1 c.2 db') l.
Proof. intros K H. eapply Forall_impl; [exact H|]. intros c. by apply session_of_kept. Qed.

Lemma auth_step_kept st st' : auth_step st st' → auth_wf st → auth_wf st' ∧ akept st.1 st'.1.
Proof.
  intros [s r l Hu|s token t u l Hc|s t u meta l1 l2] [W L]; simpl in *.
  - destruct (serve r s) as [res s'] eqn:E. simpl. pose proof (serve_acts r s res s' Hu W E) as H.
    assert (Hk : awf (store s') ∧ akept (store s) (store s')).
    { destruct H as [->|(o & _ & H)]; [done|]. by eapply achanges_sound in H as (? & ? & _). }
    destruct Hk as [? K]. by split; [split; [|by eapply checked_kept]|].
  - split; [|done]. split; [done|]. constructor; [|done].
    destruct (refresh_check token s) as [r s'] eqn:E. simpl in Hc. subst r.
    apply refresh_check_inv in E as (_ & _ & _ & H); [|apply W]. by eapply refreshable_session, H.
  - destruct (rotate t u meta s) as [res s'] eqn:E. simpl.
    apply Forall_app in L as [L1 [H L2]%Forall_cons]. apply rotate_runs in E; [|done|done].
    apply achanges_sound in E as (? & K & _); [|done]. split; [|done]. split; [done|].
    by eapply checked_kept, Forall_app.
Qed.
Lemma auth_steps_kept st st' : rtc auth_step st st' → auth_wf st → auth_wf st' ∧ akept st.1 st'.1.
Proof.
  induction 1 as [st|st st2 st' Hs _ IH]; intros W; [done|].
  destruct (auth_step_kept _ _ Hs W) as [W2 K]. destruct (IH W2) as [W3 K2]. split; [done|by etrans].
Qed.
End Steps.
