(* ===== verification/AuthCorrectness.v ===== *)
(** * Correctness of the authentication service

    What logins, refreshes, resets and the second factor promise, who may
    handle machine identities, and what no sequence of requests can undo, with
    a concrete service the witnesses evaluate. *)

From S2P Require Import Prelude Json GoTime AppErrors Tx Events Pagination Authz Http Calls Total.
From S2P Require Import Encodings Credentials AuthStore AuthService Gateway AuthSpec AuthFacts AuthSteps.
Open Scope Z_scope.
Open Scope tx_scope.
#[local] Opaque Sha256.Sum256.

(** ** Tokens that are spent *)

(** The refresh token belongs to a session that is revoked; the one-time token
    is used. *)
Definition spent_session (token : string) (db : AuthDB) : Prop :=
  ∃ k t, at_sessions db !! k = Some t ∧ rt_hash t = hashToken token ∧ is_Some (rt_revoked t).
Definition spent_ott (token : string) (db : AuthDB) : Prop :=
  ∃ k t, at_otts db !! k = Some t ∧ ot_hash t = hashToken token ∧ is_Some (ot_used t).
Lemma spent_session_kept token db db' : akept db db' → spent_session token db → spent_session token db'.
Proof.
  intros K (k & t & Hk & Hh & Hr). destruct (ak_sessions _ _ K _ _ Hk) as (x & Hx & Hkept).
  destruct Hkept as (_ & _ & _ & _ & _ & He). rewrite (He Hr) in Hx. by exists k, t.
Qed.
Lemma spent_ott_kept token db db' : akept db db' → spent_ott token db → spent_ott token db'.
Proof.
  intros K (k & t & Hk & Hh & Hr). destruct (ak_otts _ _ K _ _ Hk) as (x & Hx & Hkept).
  destruct Hkept as (_ & _ & _ & _ & _ & He). rewrite (He Hr) in Hx. by exists k, t.
Qed.
Lemma spent_not_refreshable token t u now db : awf db → spent_session token db →
  ¬ refreshable token t u now db.
Proof.
  intros W (k & x & Hk & Hh & [v Hv]) (Hh' & Ht & Ha & _).
  assert (k = rt_id t) as -> by (eapply (ss_hash _ _ (aw_sessions _ W)); [exact Hk|exact Ht|congruence]).
  unfold Active in Ha. simplify_eq. by rewrite Hv in Ha.
Qed.
Lemma spent_not_usable token purpose t u now db : awf db → spent_ott token db →
  ¬ usable_token token purpose t u now db.
Proof.
  intros W (k & x & Hk & Hh & [v Hv]) (Hh' & (j & Ht) & _ & Ha & _).
  assert (k = j) as -> by (eapply (os_hash _ _ (aw_otts _ W)); [exact Hk|exact Ht|congruence]).
  unfold Usable in Ha. simplify_eq. by rewrite Hv in Ha.
Qed.

(** ** Tokens *)

(** What the service mints is read back, by itself and by the gateway: also the
    token of a service account, as the claims of a user. *)
Lemma access_of_access_claims email sid sub jti issued expires :
  access_of (access_claims email sid sub jti issued expires)
  = Some (mkClaims email sid sub jti (Some (issued / GoTime.Second))).
Proof.
  unfold access_claims, registered_claims, opt_field.
  by destruct (String.eqb_spec sid "") as [->|], (String.eqb_spec sub "") as [->|], (String.eqb_spec jti "") as [->|].
Qed.
Lemma access_of_service_account_claims org scopes sub jti issued expires :
  access_of (service_account_claims org scopes sub jti issued expires)
  = Some (mkClaims "" "" sub jti (Some (issued / GoTime.Second))).
Proof.
  unfold service_account_claims, registered_claims, opt_field.
  by destruct scopes, (String.eqb_spec sub "") as [->|], (String.eqb_spec jti "") as [->|].
Qed.

Lemma lower_prefix_spec t : t ≠ "" → GoStrings.TrimSpace t = t → bearerToken ("Bearer " +:+ t) = t.
Proof.
  intros Hne Ht. unfold bearerToken. destruct t as [|a t]; [done|]. simpl.
  rewrite <- Ht at 2. done.
Qed.

Section Tokens.
Context `{JW : !JWT} `{JL : !JWTLaws}.

Lemma access_parsed key email sid sub jti issued expires token now :
  let claims := access_claims email sid sub jti issued expires in
  jwt_SignedString key claims = Ok token →
  jwt_ParseWithClaims key jwtIssuer now token
  = if now <? expires / GoTime.Second * GoTime.Second then Some claims else None.
Proof.
  intros claims Hs. apply (jwt_parsed _ _ _ jwtIssuer (expires / GoTime.Second) _ Hs).
  - unfold registered_claims, opt_field.
    destruct (String.eqb sid ""), (String.eqb sub ""), (String.eqb jti ""); apply (bool_decide_unpack _); reflexivity.
  - set_solver.
  - unfold registered_claims. set_solver.
Qed.
Lemma parse_access key email sid sub jti issued expires token now :
  jwt_SignedString key (access_claims email sid sub jti issued expires) = Ok token →
  jwt_ParseWithClaims key jwtIssuer now token ≫= access_of
  = if now <? expires / GoTime.Second * GoTime.Second
    then Some (mkClaims email sid sub jti (Some (issued / GoTime.Second))) else None.
Proof.
  intros Hs. rewrite (access_parsed _ _ _ _ _ _ _ _ now Hs).
  destruct (now <? _); [apply access_of_access_claims|done].
Qed.
Lemma jwt_parsed_end key email sid sub jti issued expires token now :
  jwt_SignedString key (access_claims email sid sub jti issued expires) = Ok token →
  (now <? expires / GoTime.Second * GoTime.Second) = false → jwt_ParseWithClaims key jwtIssuer now token = None.
Proof.
  intros Hs Hn. rewrite (access_parsed _ _ _ _ _ _ _ _ now Hs). by rewrite Hn.
Qed.
Lemma parse_service_account key org scopes sub jti issued expires token now :
  jwt_SignedString key (service_account_claims org scopes sub jti issued expires) = Ok token →
  jwt_ParseWithClaims key jwtIssuer now token ≫= access_of
  = if now <? expires / GoTime.Second * GoTime.Second
    then Some (mkClaims "" "" sub jti (Some (issued / GoTime.Second))) else None.
Proof.
  intros Hs. rewrite (jwt_parsed _ _ _ jwtIssuer (expires / GoTime.Second) _ Hs).
  - destruct (now <? _); [apply access_of_service_account_claims|done].
  - unfold registered_claims, opt_field.
    destruct scopes, (String.eqb sub ""), (String.eqb jti ""); apply (bool_decide_unpack _); reflexivity.
  - set_solver.
  - unfold registered_claims. set_solver.
Qed.
End Tokens.

(** ** Failed logins without faults *)
Section Failures.
Context {R : Type}.
Implicit Types s : Sess AuthDB (AOutside R).

(** The identifiers still to be drawn are proper, distinct and on no event. *)
Record afresh_uuids s : Prop := {
  af_proper : proper_uuids s;
  af_inj : Inj (=) (=) (uuid_gen s);
  af_unused n : (uuid_next s ≤ n)%nat → ∀ row, row ∈ at_outbox (store s) →
    ob_id row ≠ uuid_gen s n ∧ EventID (ob_event row) ≠ uuid_gen s n }.

Lemma Tx_commits {A} (fn : M AuthDB (AOutside R) A) s a s1 :
  quiet s → fn (enter "" s) = (Ok a, s1) → healthy s1 → Tx false fn s = (Ok a, leave s s1).
Proof.
  intros Hq Hf [Hq1 Ha]. unfold Tx, TxWithOptions, tx_attempts, maxTxAttempts.
  by rewrite (runTx_quiet "" fn s (Ok a) s1), Ha.
Qed.
Lemma total_update_captured s r (Q : unit → Sess AuthDB (AOutside R) → Prop) :
  let v := captured (outside s) in
  healthy s → at_users (store s) !! u_id v = Some r → u_version r = u_version v →
  Q tt (set_outside (mkAOutside (bump v) (redis (outside s)) (mailbox (outside s)))
         (set_store (set_users (<[u_id v := user_edit v (clock s) r]> (at_users (store s))) (store s)) s)) →
  total update_captured s Q.
Proof.
  intros v [Hq Ha] Hr Hv HQ. exists tt. eexists. split; [|split; [|split; [|exact HQ]]]; [|done|done].
  unfold update_captured, captured_, userRepo_Update, Exec, on_err, require_rows, capture, bind. fold v.
  rewrite stmt_quiet by done. unfold update_user. by rewrite Hr, Hv, Z.eqb_refl.
Qed.

(** A failed attempt is counted. *)
Lemma registerFailedLogin_counts u s : healthy s → afresh_uuids s → at_users (store s) !! u_id u = Some u →
  ∃ s', registerFailedLogin u s = (Ok tt, s') ∧ healthy s' ∧ afresh_uuids s' ∧ same_env s s' ∧
    at_users (store s') = <[u_id u := user_edit (failed_login (clock s) u) (clock s) u]> (at_users (store s)).
Proof.
  intros Hh [Hp Hi Hf] Hu. set (v := failed_login (clock s) u).
  set (sc := set_outside (mkAOutside v (redis (outside s)) (mailbox (outside s))) s). set (s0 := enter "" sc).
  set (p := loginFailedPayload (u_id u) (u_email u) (u_failed v)).
  set (g := uuid_gen s) in *. set (n := uuid_next s) in *.
  set (row := new_row authEventVersion (g (S n)) (g n) (clock s) EventLoginFailed systemOrg p (by_account (u_id u))).
  assert (Hb : total (captured_body EventLoginFailed (λ u, loginFailedPayload (u_id u) (u_email u) (u_failed u))
      (λ u, by_account (u_id u))) s0
    (λ _ s1, at_users (store s1) = <[u_id u := user_edit v (clock s) u]> (at_users (store s)) ∧
       at_outbox (store s1) = at_outbox (store s) ++ [row] ∧ uuid_next s1 = S (S n))).
  { apply total_bind, (total_update_captured s0 u); [by destruct Hh|done|done|].
    apply total_bind. eexists _, _. split; [reflexivity|]. split; [by destruct Hh|]. split; [done|]. simpl.
    apply total_New_Enqueue; [by destruct Hh|..|done].
    - unfold new_row. cbn [ob_event]. rewrite neutral_valid by done.
      apply proper_valid; [apply Hp|done|by unfold authEventVersion|done].
    - intros x Hx. unfold new_row. simpl. split; eapply Hf; try exact Hx; lia. }
  destruct Hb as (a & s1 & Hrun & Hh1 & He & Hus & Hob & Hnext).
  pose proof (Tx_commits _ sc a s1 (proj1 Hh) Hrun Hh1) as Htx.
  exists (leave sc s1). split.
  { change (registerFailedLogin u s) with ((let* _ := try (Tx false (captured_body EventLoginFailed
      (λ u, loginFailedPayload (u_id u) (u_email u) (u_failed u)) (λ u, by_account (u_id u)))) in ret tt) sc).
    unfold bind, try. by rewrite Htx. }
  destruct He as (He1 & He2 & He3). split; [split; [apply Hh1|apply Hh]|].
  split; [split; simpl|split; [by split|exact Hus]].
  - intros k. simpl. rewrite He2. apply Hp.
  - rewrite He2. exact Hi.
  - intros k Hk x Hx. rewrite He2, Hnext in *. rewrite Hob in Hx.
    apply elem_of_app in Hx as [Hx|Hx%list_elem_of_singleton]; [eapply Hf; [|exact Hx]; lia|].
    subst x. unfold row, new_row. simpl. split; intros Heq%Hi; lia.
Qed.
End Failures.

Section Correctness.
Context {R : Type} `{RS : !RevocationStore R} `{JW : !JWT} `{CJ : !CursorJSON}.
Context (IDKey : list Z → list Z → Z → Z → Z → Z → list Z) (rand : nat → nat → option (list Z)).
Context (signing_key : list Z) (AccessTTL RefreshTTL : Z) (revoking notifying : bool).
Implicit Types s : Sess AuthDB (AOutside R).
Abbreviation serve :=
  (serve_auth (R := R) IDKey rand signing_key AccessTTL RefreshTTL revoking notifying).
Abbreviation step :=
  (auth_step (R := R) IDKey rand signing_key AccessTTL RefreshTTL revoking notifying).
Abbreviation Login := (Service_Login (R := R) IDKey rand signing_key AccessTTL RefreshTTL).
Abbreviation Refresh := (Service_Refresh (R := R) rand signing_key AccessTTL RefreshTTL revoking).
Abbreviation Logout := (Service_Logout (R := R) AccessTTL revoking).
Abbreviation ConfirmPasswordReset := (Service_ConfirmPasswordReset (R := R) IDKey rand).

(** C33. From a well-formed database, whatever requests are served, in whatever
    order, with refreshes interleaved between their check and their rotation,
    and whichever statements fail: the data stay well formed (addresses and
    token hashes are unique, locks go with the failure counter, a second factor
    that is on has a secret, a replaced session is revoked in favour of one of
    the same user, a user has at most one usable one-time token of a purpose,
    API tokens belong to an account of their organization), and the history is
    kept: users keep their identity and change with growing versions, sessions
    and one-time tokens stay, those that are revoked or used never change
    again, and events are only added. *)
Theorem auth_states_sound st st' (Hs : rtc step st st') (W : auth_wf st) :
  auth_wf st' ∧ akept st.1 st'.1.
Proof. by eapply auth_steps_kept. Qed.

(** ** Sessions *)

(** A session that is over stays over. *)
Lemma spent_refused token meta st s (W : auth_wf st) : spent_session token st.1 → store s = st.1 →
  ∃ e s', Refresh token meta s = (Err e, s') ∧ store s' = store s.
Proof.
  intros Hsp Hst. destruct W as [W _]. destruct (Refresh token meta s) as [r s'] eqn:H.
  apply Refresh_inv in H as [_ H]; [|rewrite Hst; apply W].
  destruct r as [p|e]; [|exists e, s'; by destruct H]. exfalso.
  destruct H as (t & u & Ht & _). rewrite Hst in Ht. by eapply spent_not_refreshable.
Qed.
Lemma revoked_one_spent id replaced now db db' t : at_sessions db !! id = Some t →
  revoked_one id replaced now db db' → ∃ t', at_sessions db' !! id = Some t' ∧ rt_hash t' = rt_hash t ∧ is_Some (rt_revoked t').
Proof.
  intros Ht [[Hr ->]|(x & Hx & _ & ->)]; [exists t; eauto|]. simplify_eq. eexists. simpl.
  rewrite lookup_insert_eq. split; [done|]. split; [done|]. by eexists.
Qed.
Lemma emitted_sessions ty o p opts now db db' : emitted ty o p opts now db db' → at_sessions db' = at_sessions db.
Proof. by intros (row & eid & _ & _ & ->). Qed.
Lemma emitted_users ty o p opts now db db' : emitted ty o p opts now db db' → at_users db' = at_users db.
Proof. by intros (row & eid & _ & _ & ->). Qed.
Lemma emitted_otts ty o p opts now db db' : emitted ty o p opts now db db' → at_otts db' = at_otts db.
Proof. by intros (row & eid & _ & _ & ->). Qed.

(** Without faults a logout finds the session of its token. *)
Lemma Logout_ends token s s' t k : quiet s → awf (store s) → blank token = false →
  at_sessions (store s) !! k = Some t → rt_hash t = hashToken token →
  Logout token s = (Ok tt, s') → spent_session token (store s').
Proof.
  intros Hq W Hb Hk Hh H. unfold Service_Logout in H. rewrite Hb in H. unfold bind at 1, try in H.
  unfold sessionRepo_GetByHash in H. rewrite (autocommit_one _ s t) in H; [|done|].
  2: { apply (rows_where_singleton _ _ k); [done|by apply String.eqb_eq|].
    intros j x Hj Hx%String.eqb_eq. eapply (ss_hash _ _ (aw_sessions _ W)); [exact Hj|exact Hk|congruence]. }
  pose proof (ss_key _ _ (aw_sessions _ W) _ _ Hk) as Hid.
  unfold bind at 1 in H. match type of H with match ?m with _ => _ end = _ => destruct m as [r0 s2] eqn:Htx end.
  destruct r0 as [[]|e]; [|done]. rewrite revokeSessionInCache_eq in H. injection H as <-. simpl.
  apply logout_tx_inv in Htx as (_ & _ & d1 & Hrev & Hev). unfold spent_session. rewrite (emitted_sessions _ _ _ _ _ _ _ Hev).
  rewrite <- Hid in Hk. destruct (revoked_one_spent _ _ _ _ _ _ Hk Hrev) as (t' & ? & ? & ?).
  exists (rt_id t), t'. split_and!; congruence.
Qed.

(** What a rotation leaves of the session and its successor. *)
Lemma refresh_rotates_one token t u meta now db p db' : awf db → refreshable token t u now db →
  rotated rand signing_key AccessTTL RefreshTTL t u meta now db p db' →
  ∃ n, at_sessions db' !! rt_id t = Some (with_revoked now (Some (rt_id n)) t) ∧
    at_sessions db !! rt_id n = None ∧ at_sessions db' !! rt_id n = Some n ∧
    rt_user n = rt_user t ∧ rt_hash n = hashToken (tp_refresh p) ∧
    rt_expires n = now + RefreshTTL ∧ rt_revoked n = None.
Proof.
  intros W (_ & Ht & Ha & Hu & _) (id & d1 & d2 & (Hn & _ & _ & ->) & _ & _ & _ & _ & Hrev & Hev).
  rewrite (emitted_sessions _ _ _ _ _ _ _ Hev). set (n := new_session _ _ _ _ _ _ _) in *. exists n.
  simpl in Hn. assert (Hne : rt_id t ≠ id) by congruence.
  assert (Hl : rt_revoked t = None) by (unfold Active in Ha; by destruct (rt_revoked t)).
  destruct Hrev as [[Hr _]|(x & Hx & _ & ->)].
  - exfalso. destruct (Hr t) as [? ?]; [simpl; by rewrite lookup_insert_ne|congruence].
  - simpl in Hx |- *. rewrite lookup_insert_ne in Hx by done. rewrite Ht in Hx. injection Hx as <-.
    rewrite lookup_insert_eq, lookup_insert_ne, lookup_insert_eq by done. split_and!; try done.
    by apply (us_key _ (aw_users _ W)).
Qed.

(** C34. A refresh token is good for one refresh that commits: a refresh that
    succeeds was made with the token of a live session of an unlocked, enabled
    user, opens a new session of the same user with a fresh token and revokes
    the old one in favour of the new; and so is a logout with it (no statement
    failing on the way) the end of the token: whatever is requested afterwards,
    another refresh with the token fails and leaves the database alone. *)
Theorem refresh_single_use token meta s s' l st s2 meta2
    (W : auth_wf (store s, l))
    (H : (∃ p, Refresh token meta s = (Ok p, s')) ∨
         (∃ t k, Logout token s = (Ok tt, s') ∧ quiet s ∧ blank token = false ∧
            at_sessions (store s) !! k = Some t ∧ rt_hash t = hashToken token))
    (Hs : rtc step (store s', l) st) (Hst : store s2 = st.1) :
  (∀ p, Refresh token meta s = (Ok p, s') →
     ∃ t u n, refreshable token t u (clock s) (store s) ∧
       at_sessions (store s') !! rt_id t = Some (with_revoked (clock s) (Some (rt_id n)) t) ∧
       at_sessions (store s) !! rt_id n = None ∧ at_sessions (store s') !! rt_id n = Some n ∧
       rt_user n = rt_user t ∧ rt_hash n = hashToken (tp_refresh p) ∧
       rt_expires n = clock s + RefreshTTL ∧ rt_revoked n = None) ∧
  spent_session token (store s') ∧
  ∃ e s3, Refresh token meta2 s2 = (Err e, s3) ∧ store s3 = store s2.
Proof.
  destruct W as [W L]. simpl in *.
  assert (Hok : ∀ p, Refresh token meta s = (Ok p, s') →
     (∃ t u n, refreshable token t u (clock s) (store s) ∧
       at_sessions (store s') !! rt_id t = Some (with_revoked (clock s) (Some (rt_id n)) t) ∧
       at_sessions (store s) !! rt_id n = None ∧ at_sessions (store s') !! rt_id n = Some n ∧
       rt_user n = rt_user t ∧ rt_hash n = hashToken (tp_refresh p) ∧
       rt_expires n = clock s + RefreshTTL ∧ rt_revoked n = None) ∧ spent_session token (store s') ∧
     awf (store s') ∧ akept (store s) (store s')).
  { intros p Hr. apply Refresh_inv in Hr as (_ & t & u & Ht & Hrot & _); [|apply W].
    pose proof (rotated_steps _ _ _ _ _ _ _ _ _ _ _ W (refreshable_session _ _ _ _ _ W Ht) Hrot) as Hst'.
    apply achanges_sound in Hst' as (W' & K & _); [|done].
    destruct (refresh_rotates_one _ _ _ _ _ _ _ _ W Ht Hrot) as (n & Hn). split; [by exists t, u, n|].
    split; [|done]. exists (rt_id t). eexists. split; [apply Hn|]. split; [apply Ht|by eexists]. }
  assert (Hend : spent_session token (store s') ∧ awf (store s') ∧ akept (store s) (store s')).
  { destruct H as [(p & Hr)|(t & k & Hl & Hq & Hb & Hk & Hh)]; [by apply Hok in Hr as [_ ?]|].
    split; [by eapply Logout_ends|]. apply Logout_inv in Hl as [_ Hl]; [|apply W].
    destruct Hl as [[-> _]|(x & Hl & _)]; [done|]. apply logged_out_steps in Hl; [|done].
    by apply achanges_sound in Hl as (? & ? & _). }
  destruct Hend as (Hsp & W' & K). split; [by intros p [? _]%Hok|]. split; [done|].
  destruct (auth_steps_kept _ _ _ _ _ _ _ _ _ Hs) as [W2 K2].
  { split; [done|]. by eapply checked_kept. }
  eapply spent_refused; [exact W2| |done]. by eapply spent_session_kept.
Qed.

(** ** Password reset *)

(** What the reset of [u]'s password leaves in the tables of accounts. *)
Definition reset_done (plain password : string) (t : OneTimeToken) (u : User) (now : Z) (db db' : AuthDB) : Prop :=
  usable_token plain PurposePasswordReset t u now db ∧
  (∃ v hash, at_users db' = <[u_id u := v]> (at_users db) ∧ u_hash v = hash ∧
     VerifyPassword IDKey password hash = Ok true ∧ u_failed v = 0 ∧ u_locked v = None ∧
     u_mfa v = u_mfa u ∧ u_secret v = u_secret u ∧ u_verified v = u_verified u ∧ same_identity u v) ∧
  at_sessions db' = revoke_if_of (u_id u) now <$> at_sessions db ∧
  at_otts db' = <[ot_id t := with_used now t]> (at_otts db).

(** The tokens of a user's sessions are spent when all are revoked. *)
Lemma revoke_all_spent user now k t token db db' : at_sessions db' = revoke_if_of user now <$> at_sessions db →
  at_sessions db !! k = Some t → rt_user t = user → rt_hash t = hashToken token → spent_session token db'.
Proof.
  intros He Hk Hu Hh. exists k, (revoke_if_of user now t). rewrite He, lookup_fmap, Hk. split; [done|].
  unfold revoke_if_of. destruct (rt_revoked t) eqn:Hr; [by split; [|rewrite Hr; eexists]|].
  apply String.eqb_eq in Hu. rewrite Hu. simpl. split; [done|by eexists].
Qed.

(** Argon2 gives as many bytes as it is asked for, the random source bytes. *)
Definition argon_sound : Prop := ∀ pw salt t m th n,
  is_bytes (IDKey pw salt t m th n) ∧ length (IDKey pw salt t m th n) = Z.to_nat n.
Definition rand_sound : Prop := ∀ i n b, rand i n = Some b → is_bytes b.

Lemma ConfirmPasswordReset_done plain password s s' : awf (store s) → argon_sound → rand_sound →
  ConfirmPasswordReset plain password s = (Ok tt, s') →
  (minPasswordLen ≤ String.length password)%nat ∧
  ∃ t u, reset_done plain password t u (clock s) (store s) (store s').
Proof.
  intros W HA HR H. apply ConfirmPasswordReset_inv in H as (_ & _ & Hv & i & salt & hash & Hsalt & Hh & t & u & Hus & Hd);
    [|apply W]. split.
  { unfold validatePassword in Hv. destruct (Nat.ltb_spec (String.length password) minPasswordLen); [done|lia]. }
  exists t, u. split; [done|]. destruct Hd as (d1 & (r & Hr & _ & ->) & Hev).
  destruct Hus as (_ & (k & Hk) & _ & Hus & Hu). pose proof (us_key _ (aw_users _ W) _ _ Hu) as Hid.
  pose proof (os_key _ _ (aw_otts _ W) _ _ Hk) as <-. simpl in Hr. rewrite <- Hid in Hu. rewrite Hu in Hr. injection Hr as <-.
  rewrite (emitted_users _ _ _ _ _ _ _ Hev), (emitted_sessions _ _ _ _ _ _ _ Hev), (emitted_otts _ _ _ _ _ _ _ Hev).
  split; [|done]. eexists _, hash. split; [reflexivity|]. split; [done|]. split; [|by split_and!].
  rewrite (VerifyPassword_HashPassword IDKey salt password password hash (HR _ _ _ Hsalt) (λ pw, HA pw salt) Hh).
  by rewrite bool_decide_eq_true_2.
Qed.

(** C35. A password reset that succeeds was made with an unused, unexpired reset
    token of the user: the new password (of the required length) is the one
    that verifies, the failure counter and the lock are gone while the second
    factor stays, every session of the user is revoked, the token is used up,
    and no other account is touched; whatever is requested afterwards, neither
    the token nor a refresh token the user had before is accepted.  A reset
    that fails changes nothing. *)
Theorem password_reset_correct plain password s r s' l (W : auth_wf (store s, l))
    (HA : argon_sound) (HR : rand_sound) (H : ConfirmPasswordReset plain password s = (r, s')) :
  match r with
  | Err _ => store s' = store s
  | Ok _ => (minPasswordLen ≤ String.length password)%nat ∧ ∃ t u,
      reset_done plain password t u (clock s) (store s) (store s') ∧
      ∀ st s2, rtc step (store s', l) st → store s2 = st.1 →
        (∀ password2, ∃ e s3, ConfirmPasswordReset plain password2 s2 = (Err e, s3) ∧ store s3 = store s2) ∧
        (∀ k x token meta, at_sessions (store s) !! k = Some x → rt_user x = u_id u → rt_hash x = hashToken token →
           ∃ e s3, Refresh token meta s2 = (Err e, s3) ∧ store s3 = store s2)
  end.
Proof.
  destruct W as [W L]. destruct r as [[]|e].
  2: { by apply ConfirmPasswordReset_inv in H as (_ & _ & H); [|apply W]. }
  pose proof H as Hrun. apply ConfirmPasswordReset_done in H as [Hlen (t & u & Hd)]; [|done..].
  split; [done|]. exists t, u. split; [done|].
  assert (Hk : awf (store s') ∧ akept (store s) (store s')).
  { apply acts_ConfirmPasswordReset_any in Hrun as [->|Hst]; [done| |done].
    by apply achanges_sound in Hst as (? & ? & _). }
  destruct Hk as [W' K]. intros st s2 Hs Hst.
  destruct (auth_steps_kept _ _ _ _ _ _ _ _ _ Hs) as [W2 K2]; [split; [done|]; by eapply checked_kept|].
  destruct Hd as (Hus & _ & Hss & Hos). split.
  - intros password2. destruct (ConfirmPasswordReset plain password2 s2) as [r s3] eqn:H2.
    destruct W2 as [W2 _]. apply ConfirmPasswordReset_inv in H2 as (_ & _ & H2); [|rewrite Hst; apply W2].
    destruct r as [[]|e]; [|by exists e, s3]. exfalso.
    destruct H2 as (_ & _ & _ & _ & _ & _ & t2 & u2 & Ht2 & _). rewrite Hst in Ht2.
    eapply spent_not_usable, Ht2; [done|]. eapply spent_ott_kept; [exact K2|]. simpl.
    exists (ot_id t), (with_used (clock s) t). rewrite Hos, lookup_insert_eq. split; [done|].
    destruct (with_used_same (clock s) t) as (_ & -> & _ & _ & ? & _). split; [apply Hus|done].
  - intros k x token meta Hx Hu Hh. eapply spent_refused; [exact W2| |done].
    eapply spent_session_kept; [exact K2|]. by eapply revoke_all_spent.
Qed.

(** ** Who may do what *)

(** What a request on machine identities needs of its user: to handle them is
    for owners. *)
Definition account_request_needs (r : AccountRequest) (user : string) : AuthDB → Prop :=
  match r with
  | PostServiceAccount o _ | DeleteServiceAccount o _ | PostAPIToken o _ _ | DeleteAPIToken o _ => owns o user
  | ListServiceAccounts o _ | ListAPITokens o _ => may_read o user
  | _ => λ _, True
  end.
Abbreviation saccount := (serve_account (R := R) rand signing_key AccessTTL revoking).

Lemma account_permits user r : permits (account_request_needs r user) (saccount user r).
Proof.
  destruct r; simpl; repeat (apply permits_pre; [apply idle_parse|intros]); try by intros s.
  1, 3, 4, 6: apply permits_first; eapply permits_weaken; [eapply ensures_permits|].
  - apply CreateServiceAccount_ensures.
  - by intros db (? & _).
  - apply DeleteServiceAccount_ensures.
  - by intros db (? & _).
  - apply CreateAPIToken_ensures.
  - done.
  - apply RevokeAPIToken_ensures.
  - by intros db (? & _).
  - do 2 apply permits_first. intros s a s' (_ & _ & Ha)%AuthorizeOrgRead_inv. by apply Ha.
  - do 2 apply permits_first. intros s a s' (_ & _ & Ha)%AuthorizeOrgRead_inv. by apply Ha.
Qed.

(** A failure in a well-formed database leaves it alone. *)
Definition tidy {A} (m : M AuthDB (AOutside R) A) : Prop :=
  ∀ s e s', awf (store s) → m s = (Err e, s') → store s' = store s.
Lemma clean_tidy {A} (m : M AuthDB (AOutside R) A) : clean m → tidy m.
Proof. intros Hm s e s' _. apply Hm. Qed.
Lemma tidy_pre {A B} (m : M AuthDB (AOutside R) A) (k : A → M AuthDB (AOutside R) B) :
  idle m → (∀ a, tidy (k a)) → tidy (bind m k).
Proof.
  intros Hm Hk s e s' W H. unfold bind in H. destruct (m s) as [[a|x] s1] eqn:Ha;
    apply Hm in Ha as [Hs _]; [|by simplify_eq]. apply Hk in H; [congruence|by rewrite Hs].
Qed.
Lemma tidy_post {A B} (m : M AuthDB (AOutside R) A) (f : A → B) : tidy m → tidy (let* a := m in ret (f a)).
Proof.
  intros Hm s e s' W H. unfold bind in H. destruct (m s) as [[a|x] s1] eqn:Ha; [done|].
  injection H as <- <-. by eapply Hm.
Qed.
Lemma account_tidy user r : tidy (saccount user r).
Proof.
  destruct r; simpl; repeat (apply tidy_pre; [apply idle_parse|intros]); apply tidy_post;
    try (eapply clean_tidy, ensures_clean;
         solve [apply CreateServiceAccount_ensures|apply DeleteServiceAccount_ensures
               |apply CreateAPIToken_ensures|apply RevokeAPIToken_ensures]);
    try (apply clean_tidy, readonly_clean; solve [
      unfold Service_Me, userRepo_GetByID, Service_ListServiceAccounts, Service_ListAPITokens,
        serviceAccountRepo_List, apiTokenRepo_ListByOrg; solve_readonly]);
    intros s e s' W H.
  - apply Logout_inv in H as [_ [? _]]; [done|apply W].
  - by apply SetupMFA_inv in H as (_ & _ & ?); [|apply W].
  - by apply EnableMFA_inv in H as (_ & _ & ?); [|apply W].
  - by apply DisableMFA_inv in H as (_ & _ & ?); [|apply W].
Qed.

(** C38. A request that needs authentication only succeeds with an access token
    that verifies now; handling service accounts and API tokens of an
    organization only for an active owner of it, listing them only for an
    active member; one that fails changes nothing; and none touches the machine
    identities of another organization or adds an event of one. *)
Theorem account_requests_guarded h r s res s' (Hu : proper_uuids s) (W : awf (store s))
    (H : serve (WithAuth h r) s = (res, s')) :
  apart (account_request_org r) (store s) (store s') ∧
  match res with
  | Ok _ => ∃ claims, JWTIssuer_Verify signing_key (clock s) (bearerToken h) = Ok claims ∧
      account_request_needs r (cl_sub claims) (store s)
  | Err _ => store s' = store s
  end.
Proof.
  split.
  { apply (serve_acts IDKey rand) in H; [|done|done]. destruct H as [->|(o & <- & H)]; [done|].
    by apply achanges_sound in H as (_ & _ & ?). }
  simpl in H. unfold RequireAuth in H. destruct (String.eqb _ ""); [by injection H as <- <-|].
  unfold bind at 1, now_ in H.
  destruct (JWTIssuer_Verify signing_key (clock s) (bearerToken h)) as [claims|e] eqn:Hv; [|by injection H as <- <-].
  destruct res as [a|e]; [exists claims; split; [done|]; by eapply account_permits|by eapply account_tidy].
Qed.

(** ** Logins *)

Lemma find_by_email u email s : quiet s → awf (store s) → at_users (store s) !! u_id u = Some u →
  citext_eq (u_email u) email = true → autocommit (userRepo_GetByEmail email) s = (Ok u, s).
Proof.
  intros Hq W Hu Hm. unfold userRepo_GetByEmail. apply autocommit_one; [done|].
  apply (rows_where_singleton _ _ (u_id u)); [done|done|]. intros k v Hk Hv.
  eapply (us_mail _ (aw_users _ W)); [exact Hk|exact Hu|]. unfold mail_key.
  unfold citext_eq in Hm, Hv. apply String.eqb_eq in Hm, Hv. congruence.
Qed.
Lemma Login_found u req meta s : quiet s → awf (store s) → has_credentials req → login_for req u (store s) →
  Login req meta s = login_with IDKey rand signing_key AccessTTL RefreshTTL req meta u s.
Proof.
  intros Hq W Hc [Hm Hu]. rewrite Login_eq by done. unfold bind, on_err. by rewrite (find_by_email u).
Qed.
Lemma Login_unknown req meta s : quiet s → has_credentials req →
  (∀ k u, at_users (store s) !! k = Some u → citext_eq (u_email u) (normalizeEmail (lg_email req)) = false) →
  Login req meta s = (Err errInvalidCredentials, s).
Proof.
  intros Hq Hc Hno. rewrite Login_eq by done. unfold bind, on_err, userRepo_GetByEmail.
  rewrite autocommit_none; [done|done|]. unfold rows_where. apply filter_none. intros u (x & -> & Hx)%list_elem_of_fmap.
  destruct x as [k v]. apply elem_of_map_to_list, Hno in Hx. simpl. by rewrite Hx.
Qed.

(** The failure is recorded. *)
Lemma failure_counted u s : healthy s → afresh_uuids s → at_users (store s) !! u_id u = Some u →
  ∃ s', registerFailedLogin u s = (Ok tt, s') ∧ failure_recorded u (clock s) (store s) (store s').
Proof.
  intros Hh Hf Hu. destruct (registerFailedLogin_counts u s Hh Hf Hu) as (s' & Hr & _ & _ & _ & Hus).
  exists s'. split; [done|]. apply registerFailedLogin_inv in Hr as (_ & _ & _ & [Hst|?]); [|done..].
  exfalso. rewrite Hst in Hus. rewrite Hus, lookup_insert_eq in Hu. apply (f_equal (option_map u_version)) in Hu.
  simpl in Hu. injection Hu. lia.
Qed.

(** What the transaction of a login draws: the refresh token, and a session and
    an access token that can be made. *)
Definition login_ready u s : Prop :=
  let n := uuid_next s in
  ∃ b access, rand n 32%nat = Some b ∧
    (∀ k t, at_sessions (store s) !! k = Some t →
       k ≠ uuid_gen s (S n) ∧ rt_hash t ≠ hashToken (Base64.text (Base64.encode b))) ∧
    jwt_SignedString signing_key (access_claims (u_email u) (uuid_gen s (S n)) (u_id u) (uuid_gen s (S (S n)))
      (clock s) (clock s + AccessTTL)) = Ok access.
Lemma login_tail_total u v meta s : healthy s → afresh_uuids s → login_ready u s →
  is_Some (at_users (store s) !! u_id u) → same_account u v → captured (outside s) = v →
  total (login_tail rand signing_key AccessTTL RefreshTTL meta) s
    (λ p s', session_opened rand signing_key AccessTTL RefreshTTL u meta (clock s) (store s) p (store s')).
Proof.
  intros Hh [Hp Hi Hf] (b & access & Hb & Hno & Hsign) Hu Hacc Hc.
  assert (Ht : total (login_tail rand signing_key AccessTTL RefreshTTL meta) s (λ _ _, True)).
  { destruct Hacc as (E1 & E2 & E3). set (n := uuid_next s) in *.
    unfold login_tail. apply total_bind. eexists _, _. split; [reflexivity|]. split; [done|]. split; [done|].
    rewrite Hc. apply total_bind. unfold issueTokenPair, generateSecret. apply total_bind, total_bind.
    eexists _, _. split; [reflexivity|]. split; [done|]. split; [done|]. fold n. rewrite Hb.
    apply total_ret; [done|]. intros _. apply total_bind. eexists _, _. split; [reflexivity|]. split; [done|].
    split; [done|]. apply total_bind. unfold sessionRepo_Create. apply total_bind, total_uuid; [done|]. simpl.
    fold n. apply total_on_err. eapply total_stmt; [done| |].
    { unfold insert_session. simpl. rewrite bool_decide_false by
        (intros [t Htk]; by apply Hno in Htk as [? _]).
      destruct (existsb _ _) eqn:Hex.
      { apply existsb_exists in Hex as (t & Ht%list_elem_of_In & He%String.eqb_eq).
        apply (elem_of_rows_where _ _ t) in Ht as [_ [k Hk]]. by apply Hno in Hk as [_ ?]. }
      rewrite bool_decide_true by (by rewrite E1). reflexivity. }
    intros _. apply total_bind. unfold JWTIssuer_Issue. apply total_bind. eexists _, _. split; [reflexivity|].
    split; [done|]. split; [done|]. apply total_bind, total_uuid; [done|]. simpl. fold n. rewrite E1, E2, Hsign.
    apply total_ret; [done|]. cbn beta; intros. apply total_ret; [done|]. cbn beta; intros.
    apply total_bind, total_New_Enqueue; [done|..].
    - unfold new_row. cbn [ob_event]. rewrite neutral_valid by done.
      apply proper_valid; [apply Hp|done|by unfold authEventVersion|done].
    - intros x Hx. unfold new_row. simpl. split; eapply Hf; try exact Hx; simpl; lia.
    - apply total_ret; [done|]. by intros. }
  destruct Ht as (p & s' & Hr & Hh' & He & _). exists p, s'. split; [done|]. split; [done|]. split; [done|].
  apply (login_tail_inv rand signing_key AccessTTL RefreshTTL u) in Hr as [_ Hr]; [by apply Hr|by rewrite Hc].
Qed.
Lemma login_admitted u meta s : healthy s → afresh_uuids s → login_ready u s →
  at_users (store s) !! u_id u = Some u →
  ∃ p s', (capture u ;; login_commit rand signing_key AccessTTL RefreshTTL meta) s = (Ok p, s') ∧
    ∃ d1, counters_reset u (clock s) (store s) d1 ∧
      session_opened rand signing_key AccessTTL RefreshTTL u meta (clock s) d1 p (store s').
Proof.
  intros Hh Hf Hready Hu. set (sc := set_outside (mkAOutside u (redis (outside s)) (mailbox (outside s))) s).
  set (s0 := enter "" sc). set (v := with_login_state 0 None u).
  assert (Hb : total ((if negb (u_failed u =? 0) || bool_decide (is_Some (u_locked u))
      then capture v ;; update_captured else ret tt) ;; login_tail rand signing_key AccessTTL RefreshTTL meta) s0
    (λ p s1, ∃ d1, counters_reset u (clock s) (store s) d1 ∧
       session_opened rand signing_key AccessTTL RefreshTTL u meta (clock s) d1 p (store s1))).
  { assert (Hset : negb (u_failed u =? 0) || bool_decide (is_Some (u_locked u)) = bool_decide (counters_set u)).
    { apply eq_bool_prop_intro. rewrite orb_True, negb_True, Is_true_true, Z.eqb_eq. unfold counters_set.
      by rewrite !bool_decide_spec. }
    rewrite Hset. apply total_bind. unfold counters_reset. destruct (decide (counters_set u)) as [Hcs|Hcs].
    - rewrite bool_decide_true by done. apply total_bind. eexists _, _. split; [reflexivity|].
      split; [by destruct Hh|]. split; [done|]. apply (total_update_captured _ u); [by destruct Hh|done|done|].
      intros _. eapply total_weaken; [apply (login_tail_total u (bump v)); try done|].
      + by destruct Hh.
      + destruct Hf as [Hp Hi Hn]. by split.
      + simpl. rewrite lookup_insert_eq. by eexists.
      + simpl. intros p s1 _ _ Hs _. by eexists.
    - rewrite bool_decide_false by done. apply total_ret; [by destruct Hh|].
      eapply total_weaken; [apply (login_tail_total u u); try done|].
      + by destruct Hh.
      + destruct Hf as [Hp Hi Hn]. by split.
      + simpl. intros p s1 _ _ Hs _. by eexists. }
  destruct Hb as (p & s1 & Hrun & Hh1 & _ & HQ). exists p, (leave sc s1). split; [|done].
  change ((capture u ;; login_commit rand signing_key AccessTTL RefreshTTL meta) s)
    with (login_commit rand signing_key AccessTTL RefreshTTL meta sc).
  apply Tx_commits; [apply Hh|exact Hrun|exact Hh1].
Qed.

(** What a login without faults does to the account it is for. *)
Definition login_done (req : LoginRequest) (meta : RequestMeta) (u : User) s (r : result goerr TokenPair)
    (db' : AuthDB) : Prop :=
  match login_verdict IDKey req u (clock s) with
  | Refuse e => r = Err e ∧ db' = store s
  | Count e => r = Err e ∧ failure_recorded u (clock s) (store s) db'
  | Admit => login_ready u s → ∃ p d1, r = Ok p ∧ counters_reset u (clock s) (store s) d1 ∧
      session_opened rand signing_key AccessTTL RefreshTTL u meta (clock s) d1 p db'
  end.
Lemma Login_healthy req meta u s r s' : healthy s → afresh_uuids s → awf (store s) → has_credentials req →
  login_for req u (store s) → Login req meta s = (r, s') → login_done req meta u s r (store s').
Proof.
  intros Hh Hf W Hc Hfor H. pose proof Hfor as [_ Hu]. rewrite (Login_found u) in H by (done || apply Hh).
  unfold login_with, bind at 1, now_ in H. unfold login_done. destruct (login_verdict _ _ _ _) as [e|e|].
  - by injection H as <- <-.
  - unfold bind in H. destruct (failure_counted u s Hh Hf Hu) as (s1 & Hr & Hrec). rewrite Hr in H.
    by injection H as <- <-.
  - intros Hready. destruct (login_admitted u meta s Hh Hf Hready Hu) as (p & s1 & Hr & d1 & Hd & Hp).
    rewrite Hr in H. injection H as <- <-. by exists p, d1.
Qed.

(** C36. A login succeeds only for an account that is neither locked nor disabled,
    with its password and, when a second factor is on, its code of the moment;
    it then resets the failure counter, opens one session and gives its tokens.
    One that is refused fails with the error of the first check it does not
    pass: without an e-mail, a password or an account as invalid credentials, for
    a locked account as locked, for a disabled one or with a wrong password as
    invalid credentials, without a code as in need of one and with a wrong code
    as such; only the wrong password and the wrong code are counted, one failure
    of that account (which locks it for the lockout time at the threshold), and
    all other refusals change nothing.  With faults the count of a failure may
    be lost (its error is only logged), and a transaction that is run again
    does not repeat the reset; without faults, and with identifiers not used
    before, both are certain. *)
Theorem Login_correct req meta s r s' (W : awf (store s)) (H : Login req meta s = (r, s')) :
  login_outcome IDKey rand signing_key AccessTTL RefreshTTL req meta s r (store s') ∧
  (healthy s → afresh_uuids s → has_credentials req →
     ((∀ k u, at_users (store s) !! k = Some u → citext_eq (u_email u) (normalizeEmail (lg_email req)) = false) →
        r = Err errInvalidCredentials ∧ store s' = store s) ∧
     ∀ u, login_for req u (store s) → login_done req meta u s r (store s')).
Proof.
  split; [apply Login_inv in H as (_ & _ & H); [done|apply W]|]. intros Hh Hf Hc. split.
  - intros Hno. rewrite Login_unknown in H by (done || apply Hh). by injection H as <- <-.
  - intros u Hu. by eapply Login_healthy.
Qed.

(** The attempt is for the account [u] and has a password that is not its. *)
Definition wrong_password (u : User) (req : LoginRequest) : Prop :=
  normalizeEmail (lg_email req) ≠ "" ∧ citext_eq (u_email u) (normalizeEmail (lg_email req)) = true ∧
  lg_password req ≠ "" ∧ password_is IDKey u (lg_password req) false.
Lemma wrong_password_counts u req meta s : healthy s → afresh_uuids s → awf (store s) →
  at_users (store s) !! u_id u = Some u → IsLocked u (clock s) = false → u_status u ≠ UserStatusDisabled →
  wrong_password u req →
  ∃ s', Login req meta s = (Err errInvalidCredentials, s') ∧ healthy s' ∧ afresh_uuids s' ∧ same_env s s' ∧
    at_users (store s') = <[u_id u := user_edit (failed_login (clock s) u) (clock s) u]> (at_users (store s)).
Proof.
  intros Hh Hf W Hu Hl Hd (Hne & Hm & Hpne & Hpw).
  destruct (registerFailedLogin_counts u s Hh Hf Hu) as (s' & Hr & Hs'). exists s'. split; [|exact Hs'].
  rewrite (Login_found u) by (done || apply Hh). unfold login_with, bind, now_, login_verdict.
  rewrite !decide_False by (done || by rewrite Hl). unfold password_is in Hpw. rewrite Hpw. by rewrite Hr.
Qed.

(** Attempts one after the other. *)
Fixpoint logins (reqs : list (LoginRequest * RequestMeta)) s : list (result goerr TokenPair) * Sess AuthDB (AOutside R) :=
  match reqs with
  | [] => ([], s)
  | (req, meta) :: reqs =>
      let '(r, s1) := Login req meta s in
      let '(rs, s2) := logins reqs s1 in (r :: rs, s2)
  end.
(** The account after [n] more failures. *)
Definition failures_of (u v : User) (n : Z) (now : Z) : Prop :=
  u_id v = u_id u ∧ u_email v = u_email u ∧ u_hash v = u_hash u ∧ u_status v = u_status u ∧
  u_failed v = u_failed u + n ∧
  u_locked v = if maxFailedLogins <=? u_failed u + n then Some (now + lockoutDuration) else None.
Lemma logins_fail reqs u v n s : healthy s → afresh_uuids s → awf (store s) →
  at_users (store s) !! u_id u = Some v → failures_of u v n (clock s) →
  u_status u = UserStatusActive → u_failed u + n + Z.of_nat (length reqs) ≤ maxFailedLogins →
  Forall (λ r, wrong_password u r.1) reqs →
  ∃ s' w, logins reqs s = ((λ _, Err errInvalidCredentials) <$> reqs, s') ∧ healthy s' ∧ awf (store s') ∧
    clock s' = clock s ∧
    at_users (store s') !! u_id u = Some w ∧ failures_of u w (n + Z.of_nat (length reqs)) (clock s).
Proof.
  revert v n s. induction reqs as [|[req meta] reqs IH]; intros v n s Hh Hf W Hu Hv Hst Hle Hall.
  { exists s, v. rewrite Z.add_0_r. done. }
  apply Forall_cons in Hall as [Hreq Hall]. simpl in Hreq. rewrite length_cons in *.
  destruct Hv as (Hid & Hmail & Hhash & Hstat & Hfail & Hlock). rewrite <- Hid in Hu.
  destruct (wrong_password_counts v req meta s) as (s1 & Hrun & Hh1 & Hf1 & He1 & Hus); try done.
  { unfold IsLocked. rewrite Hstat, Hst, Hlock. simpl.
    destruct (Z.leb_spec maxFailedLogins (u_failed u + n)); [lia|done]. }
  { by rewrite Hstat, Hst. }
  { unfold wrong_password, password_is. by rewrite Hmail, Hhash. }
  pose proof He1 as (_ & _ & Hc1).
  assert (W1 : awf (store s1)).
  { pose proof (acts_Login (R := R) IDKey rand signing_key AccessTTL RefreshTTL req meta) as Hacts.
    destruct (Hacts s _ s1 (af_proper _ Hf) W Hrun) as [->|(o & _ & Hst1)]; [done|].
    by apply achanges_sound in Hst1 as (? & _). }
  destruct (IH (user_edit (failed_login (clock s) v) (clock s) v) (n + 1) s1) as (s' & w & Hrest & Hh' & W' & Hc' & Hw & Hfw);
    [done|done|done|by rewrite Hus, <- Hid, lookup_insert_eq| |done|lia|done|].
  { unfold failures_of. simpl. rewrite Hc1, Hfail, Hlock. split_and!; try done; [lia|].
    replace (u_failed u + (n + 1)) with (u_failed u + n + 1) by lia.
    destruct (Z.leb_spec maxFailedLogins (u_failed u + n + 1)); [done|].
    destruct (Z.leb_spec maxFailedLogins (u_failed u + n)); [lia|done]. }
  exists s', w. simpl. rewrite Hrun, Hrest. rewrite Hc1 in *.
  replace (n + Z.of_nat (S (length reqs))) with (n + 1 + Z.of_nat (length reqs)) by lia. by split_and!.
Qed.

(** C37. Without faults, attempts with wrong passwords at one instant that
    bring the failures of an active account to the threshold of five (five, when
    it had none) lock it: each is refused with invalid credentials, and then,
    until the lockout time is over and not longer, every login to it is refused
    as locked, whatever the password, and changes nothing. *)
Theorem failures_lock_account reqs u s (Hh : healthy s) (Hf : afresh_uuids s) (W : awf (store s))
    (Hu : at_users (store s) !! u_id u = Some u) (Hst : u_status u = UserStatusActive) (H0 : reqs ≠ [])
    (Hn : u_failed u + Z.of_nat (length reqs) = maxFailedLogins) (Hw : Forall (λ r, wrong_password u r.1) reqs) :
  ∃ s', logins reqs s = ((λ _, Err errInvalidCredentials) <$> reqs, s') ∧
    ∀ s2, store s2 = store s' → quiet s2 →
      (∀ req meta, normalizeEmail (lg_email req) ≠ "" → lg_password req ≠ "" →
         citext_eq (u_email u) (normalizeEmail (lg_email req)) = true →
         clock s2 < clock s + lockoutDuration → Login req meta s2 = (Err errAccountLocked, s2)) ∧
      ∀ v, at_users (store s2) !! u_id u = Some v → IsLocked v (clock s2) = (clock s2 <? clock s + lockoutDuration).
Proof.
  assert (Hl : u_locked u = None).
  { assert (Z.of_nat (length reqs) ≠ 0) by by destruct reqs.
    pose proof (us_rows _ (aw_users _ W) _ _ Hu) as [_ _ Hlk _]. destruct (u_locked u); [|done].
    assert (maxFailedLogins ≤ u_failed u) by (apply Hlk; by eexists). lia. }
  destruct (logins_fail reqs u u 0 s) as (s' & w & Hrun & Hh' & W' & Hc & Hw' & Hfw); try done.
  { unfold failures_of. rewrite Hl, Z.add_0_r. destruct (Z.leb_spec maxFailedLogins (u_failed u)); [|done].
    assert (Z.of_nat (length reqs) ≠ 0) by by destruct reqs. lia. }
  { lia. }
  exists s'. split; [done|]. intros s2 Hs2 Hq.
  destruct Hfw as (Hid & Hmail & _ & Hstat & _ & Hlock). rewrite Z.add_0_l, Hn, Z.leb_refl in Hlock.
  assert (HL : IsLocked w (clock s2) = (clock s2 <? clock s + lockoutDuration)).
  { unfold IsLocked. by rewrite Hlock, Hstat, Hst. }
  rewrite <- Hs2 in Hw', W'. split; [|intros v Hv; by simplify_eq].
  intros req meta Hne Hpne Hm Hlt. unfold Service_Login. apply String.eqb_neq in Hne, Hpne. rewrite Hne, Hpne. simpl.
  unfold bind, on_err. rewrite <- Hid in Hw'. rewrite (find_by_email w) by (done || by rewrite Hmail). simpl.
  by rewrite HL, (proj2 (Z.ltb_lt _ _) Hlt).
Qed.

(** ** The second factor *)

(** The second factor is turned on or off with a code of the moment: the
    code is that of the stored secret for the present 30-second step or one of
    its neighbours, and nothing but the user's second factor changes (the
    secret is forgotten when it is turned off); with any other code the request
    fails and changes nothing. *)
Theorem second_factor_proven user code (on : bool) s r s' (W : awf (store s)) (Ht : totp_time (clock s))
    (H : (if on then Service_EnableMFA (R := R) user code else Service_DisableMFA user code) s = (r, s')) :
  match r with
  | Ok _ => ∃ u secret, at_users (store s) !! user = Some u ∧ u_secret u = Some secret ∧
      (on = false → u_mfa u = true) ∧
      (∀ key, Base32.DecodeString (ToUpper secret) = Some key →
         ∃ k, -1 ≤ k ≤ 1 ∧ GoStrings.TrimSpace code = code_of key (totp_counter (clock s) + k)) ∧
      at_users (store s') = <[user := user_edit (with_mfa on (if on then Some secret else None) u) (clock s) u]>
                              (at_users (store s)) ∧
      at_sessions (store s') = at_sessions (store s) ∧ at_otts (store s') = at_otts (store s)
  | Err _ => store s' = store s
  end.
Proof.
  pose proof (us_key _ (aw_users _ W)) as K. destruct r as [[]|e].
  - assert (Hed : ∃ ty, totp_edit user code on ty (clock s) (store s) (store s')).
    { destruct on; [apply EnableMFA_inv in H as (_ & _ & H)|apply DisableMFA_inv in H as (_ & _ & H)];
        try done; by eexists. }
    destruct Hed as (ty & u & secret & Hu & Hsec & Hv & Hm & Hed). exists u, secret.
    pose proof (K _ _ Hu) as Hid. unfold mfa_edited, edited in Hed. simpl in Hed. rewrite Hid in Hed.
    rewrite (emitted_users _ _ _ _ _ _ _ Hed), (emitted_sessions _ _ _ _ _ _ _ Hed), (emitted_otts _ _ _ _ _ _ _ Hed).
    split_and!; try done. intros key Hkey. by apply (verifyTOTP_spec secret key code (clock s) Hkey Ht).
  - destruct on; [apply EnableMFA_inv in H as (_ & _ & H)|apply DisableMFA_inv in H as (_ & _ & H)]; done.
Qed.

(** ** Access tokens *)
Context `{JL : !JWTLaws}.

(** Where a token is valid until: whole seconds. *)
Definition valid_until (issued : Z) : Z := (issued + AccessTTL) / GoTime.Second * GoTime.Second.
Lemma verify_access u sid t0 token now : access_token signing_key AccessTTL u sid t0 token →
  ∃ jti, JWTIssuer_Verify signing_key now token
  = if now <? valid_until t0 then Ok (mkClaims (u_email u) sid (u_id u) jti (Some (t0 / GoTime.Second)))
    else Err errInvalidToken.
Proof.
  intros [jti Hs]. exists jti. unfold JWTIssuer_Verify. rewrite (parse_access _ _ _ _ _ _ _ _ now Hs).
  unfold valid_until. by destruct (now <? _).
Qed.

(** The identity of the gateway for an access token of a session. *)
Definition user_identity (u : User) (sid jti : string) (t0 : Z) : Identity :=
  mkIdentity TokenTypeUser (u_id u) (u_email u) "" [] (t0 / GoTime.Second) jti sid.
Lemma validate_minted u sid jti t0 token now :
  jwt_SignedString signing_key (access_claims (u_email u) sid (u_id u) jti t0 (t0 + AccessTTL)) = Ok token →
  ValidateToken signing_key now token
  = if now <? valid_until t0 then Ok (user_identity u sid jti t0) else Err ErrInvalidToken.
Proof.
  intros Hs. pose proof (parse_access _ _ _ _ _ _ _ _ now Hs) as Hp. fold (valid_until t0) in Hp.
  unfold ValidateToken, ValidateUserToken. change gateway_jwtIssuer with jwtIssuer. rewrite Hp.
  destruct (Z.ltb_spec now (valid_until t0)); [done|].
  unfold ValidateServiceAccountToken. change gateway_jwtIssuer with jwtIssuer.
  rewrite (jwt_parsed_end _ _ _ _ _ _ _ _ now Hs); [done|]. by apply Z.ltb_ge.
Qed.
Lemma validate_access u sid t0 token now : access_token signing_key AccessTTL u sid t0 token →
  ∃ jti, ValidateToken signing_key now token
  = if now <? valid_until t0 then Ok (user_identity u sid jti t0) else Err ErrInvalidToken.
Proof. intros [jti Hs]. exists jti. by apply validate_minted. Qed.

Lemma bearer_access u sid t0 token : access_token signing_key AccessTTL u sid t0 token →
  bearerToken ("Bearer " +:+ token) = token ∧ token ≠ "".
Proof.
  intros [jti Hs]. destruct (jwt_compact _ _ _ Hs) as [Hne Ht]. split; [by apply lower_prefix_spec|done].
Qed.

(** The access token a login gives identifies its user, to the service and
    to the gateway, until its time to live is over (cut to whole seconds), and
    nobody afterwards. *)
Theorem login_token_identifies req meta s p s' (W : awf (store s)) (H : Login req meta s = (Ok p, s')) :
  ∃ u sid, login_for req u (store s) ∧ IsLocked u (clock s) = false ∧ u_status u ≠ UserStatusDisabled ∧
    at_sessions (store s) !! sid = None ∧ (rt_user <$> at_sessions (store s') !! sid) = Some (u_id u) ∧
    (∀ A (next : string → M AuthDB (AOutside R) A) s2,
       RequireAuth signing_key ("Bearer " +:+ tp_access p) next s2 =
       if clock s2 <? valid_until (clock s) then next (u_id u) s2 else (Err errInvalidToken, s2)) ∧
    ∃ jti, ∀ now c, cx_method c ≠ "OPTIONS" → header (cx_headers c) "Authorization" = "Bearer " +:+ tp_access p →
      Authentication (R := R) signing_key now None c =
      if now <? valid_until (clock s)
      then Ok (with_identity (user_identity u sid jti (clock s)) (with_principal (user_identity u sid jti (clock s)) c))
      else Err ErrInvalidToken.
Proof.
  apply Login_inv in H as (_ & _ & _ & u & Hfor & (Hl & Hdis & _)%admitted & d1 & Hcnt & d2 & Hp & Hev); [|apply W].
  destruct Hp as (sid & (Hn & _ & _ & ->) & Hac & _). exists u, sid. split; [done|]. split; [done|]. split; [done|].
  assert (Hss : at_sessions d1 = at_sessions (store s)).
  { destruct Hcnt as [->|Hcnt]; [done|]. unfold counters_reset in Hcnt. rewrite Hcnt. by destruct (decide _). }
  simpl in Hn. rewrite Hss in Hn. split; [done|].
  rewrite (emitted_sessions _ _ _ _ _ _ _ Hev). simpl. rewrite lookup_insert_eq. split; [done|].
  destruct (bearer_access _ _ _ _ Hac) as [Hb Hne]. apply String.eqb_neq in Hne. split.
  - intros A next s2. unfold RequireAuth. rewrite Hb, Hne. unfold bind, now_.
    destruct (verify_access _ _ _ _ (clock s2) Hac) as [jti ->]. by destruct (clock s2 <? _).
  - destruct Hac as [jti Hs]. exists jti. intros now c Hm Hh. unfold Authentication. apply String.eqb_neq in Hm.
    rewrite Hm, Hh, Hb, Hne. unfold authenticate. rewrite (validate_minted _ _ _ _ _ now Hs). by destruct (now <? _).
Qed.

(** A session that a refresh or a logout ended is in the revocation store for
    as long as its access tokens are valid. *)
Definition ends_session (token : string) s s' : Prop :=
  (∃ meta p, Refresh token meta s = (Ok p, s')) ∨ Logout token s = (Ok tt, s') ∧ store s' ≠ store s.
Lemma ends_session_cached token s s' t k : awf (store s) → ends_session token s s' →
  at_sessions (store s) !! k = Some t → rt_hash t = hashToken token →
  outside s' = cached AccessTTL revoking (rt_id t) (clock s) (outside s).
Proof.
  intros W H Hk Hh.
  assert (Hsame : ∀ x, at_sessions (store s) !! rt_id x = Some x → rt_hash x = hashToken token → x = t).
  { intros x Hx Hxh. pose proof (ss_hash _ _ (aw_sessions _ W) _ _ _ _ Hx Hk) as Heq.
    rewrite Hxh, Hh in Heq. rewrite (Heq eq_refl) in Hx. congruence. }
  destruct H as [(meta & p & H)|[H Hne]].
  - apply Refresh_inv in H as (_ & x & u & (Hxh & Hx & _) & _ & ->); [|apply W]. by rewrite (Hsame x).
  - apply Logout_inv in H as [_ H]; [|apply W]. destruct H as [[? _]|(x & (Hxh & Hx & _) & ->)]; [done|].
    by rewrite (Hsame x).
Qed.
Context `{RL : !RevocationLaws R}.
Lemma Revoked_session now r id e : id_session id ≠ "" → (∀ ks, is_ok (redis_Exists now ks r) = true) →
  redis_expiry r (revokedPrefix +:+ id_session id) = Some e → now < e → Revoked now r id = true.
Proof.
  intros Hne Hex He Hlt. unfold Revoked, AnyRevoked.
  set (keys := (λ x, revokedPrefix +:+ x) <$> filter (λ x, x ≠ "") [id_jti id; id_session id]).
  assert (Hin : (revokedPrefix +:+ id_session id) ∈ keys).
  { unfold keys. apply list_elem_of_fmap. exists (id_session id). split; [done|]. apply list_elem_of_filter. set_solver. }
  clearbody keys. specialize (Hex keys). destruct (redis_Exists now keys r) as [n|x] eqn:Hn; [|done].
  apply redis_exists in Hn. destruct keys as [|k0 keys']; [by apply elem_of_nil in Hin|].
  apply Z.ltb_lt. rewrite Hn.
  match goal with |- 0 < Z.of_nat (length ?l) => assert (Hl : (revokedPrefix +:+ id_session id) ∈ l) end.
  { apply list_elem_of_filter. split; [|done]. rewrite He. simpl. by apply Z.ltb_lt. }
  destruct (filter _ _); [by apply elem_of_nil in Hl|simpl; lia].
Qed.

(** C39. With a revocation store, the access tokens of a session die with it: once
    a refresh or a logout has ended the session and the store took the entry,
    the gateway rejects every access token that was issued for the session, from
    then on, as long as the store answers and keeps the entry (when it does not
    answer the gateway lets the token through: it fails open). *)
Theorem ended_sessions_rejected token s s' t k v t0 tok now r c (W : awf (store s)) (Hrev : revoking = true)
    (H : ends_session token s s') (Hk : at_sessions (store s) !! k = Some t) (Hh : rt_hash t = hashToken token)
    (Hid : rt_id t ≠ "")
    (Hset : (redis_Set (clock s) (revokedPrefix +:+ rt_id t) AccessTTL (redis (outside s))).1 = Ok tt)
    (Htok : access_token signing_key AccessTTL v (rt_id t) t0 tok) (Ht0 : t0 ≤ clock s) (Hnow : clock s ≤ now)
    (Hkeep : redis_expiry r (revokedPrefix +:+ rt_id t) = redis_expiry (redis (outside s')) (revokedPrefix +:+ rt_id t))
    (Hex : ∀ ks, is_ok (redis_Exists now ks r) = true)
    (Hm : cx_method c ≠ "OPTIONS") (Hhd : header (cx_headers c) "Authorization" = "Bearer " +:+ tok) :
  Authentication signing_key now (Some r) c = Err ErrInvalidToken ∨
  Authentication signing_key now (Some r) c = Err ErrTokenRevoked.
Proof.
  destruct (bearer_access _ _ _ _ Htok) as [Hb Hne]. apply String.eqb_neq in Hne, Hm.
  unfold Authentication. rewrite Hm, Hhd, Hb, Hne. unfold authenticate.
  destruct (validate_access _ _ _ _ now Htok) as [jti ->].
  destruct (Z.ltb_spec now (valid_until t0)) as [Hlt|_]; [right|by left].
  assert (Hpos : now < clock s + AccessTTL).
  { unfold valid_until in Hlt. pose proof (Z.mul_div_le (t0 + AccessTTL) GoTime.Second eq_refl). lia. }
  erewrite Revoked_session; [done|done|done| |exact Hpos].
  change (id_session _) with (rt_id t). rewrite Hkeep.
  rewrite (ends_session_cached _ _ _ _ _ W H Hk Hh). unfold cached. rewrite Hrev. simpl.
  apply String.eqb_neq in Hid. rewrite Hid. destruct (Z.leb_spec AccessTTL 0); [lia|]. simpl.
  destruct (redis_Set _ _ _ _) as [res r'] eqn:Hr. simpl in *. subst res.
  by destruct (redis_set _ _ _ _ _ _ Hr) as [_ [?|[? _]]].
Qed.

(** C40. The token of a service account passes the gateway as a user: while it is
    valid, it is taken for the access token of a user whose identifier is that of
    the account, with neither organization nor scopes, so that the organization
    check lets it into every organization and every scope is granted. *)
Theorem service_account_passes_as_user o user account req s p s' now c
    (H : Service_CreateAPIToken (R := R) signing_key o user account req s = (Ok p, s'))
    (Hm : cx_method c ≠ "OPTIONS") (Hhd : header (cx_headers c) "Authorization" = "Bearer " +:+ ar_token p)
    (Hnow : now < default (clock s + 365 * 24 * GoTime.Hour) (api_expiry (clock s) (ca_days req)) / GoTime.Second * GoTime.Second) :
  ∃ c' id, Authentication (R := R) signing_key now None c = Ok c' ∧ cx_identity c' = Some id ∧
    id_type id = TokenTypeUser ∧ id_user id = account ∧ id_org id = "" ∧ id_scopes id = [] ∧
    (∀ c2 orgID, cx_identity c2 = Some id → Params c2 "orgId" = orgID → orgID ≠ "" →
       ∃ c3, OrgScope c2 = Ok c3 ∧ cx_org c3 = Some orgID) ∧
    ∀ scope, RequireScope scope c' = Ok c'.
Proof.
  apply CreateAPIToken_ensures in H as (_ & _ & _ & tid & jti & a & _ & _ & _ & _ & Hs & _ & _).
  destruct (jwt_compact _ _ _ Hs) as [Hne Htrim]. pose proof (lower_prefix_spec _ Hne Htrim) as Hb.
  pose proof (parse_service_account _ _ _ _ _ _ _ _ now Hs) as Hp. rewrite (proj2 (Z.ltb_lt _ _) Hnow) in Hp.
  set (id := mkIdentity TokenTypeUser account "" "" [] (clock s / GoTime.Second) jti "").
  assert (Ha : Authentication (R := R) signing_key now None c = Ok (with_identity id (with_principal id c))).
  { unfold Authentication. apply String.eqb_neq in Hm, Hne. rewrite Hm, Hhd, Hb, Hne.
    unfold authenticate, ValidateToken, ValidateUserToken. change gateway_jwtIssuer with jwtIssuer. by rewrite Hp. }
  eexists _, id. split; [exact Ha|]. split_and!; try done.
  intros c2 orgID Hc2 Hpar Hne2. unfold OrgScope. apply String.eqb_neq in Hne2. rewrite Hpar, Hne2, Hc2. simpl.
  eexists. split; [done|]. done.
Qed.
End Correctness.

(** ** A concrete service

    An Argon2 that repeats the password's bytes, signatures that are the
    claims' text, and a Redis that is a map from keys to the ends of their
    lives.  [ann] (the first user, an owner of the organization) signs up. *)
Definition flat : Type := string + Z + list string.
Definition flat_json (v : flat) : json :=
  match v with inl (inl s) => JStr s | inl (inr n) => JNum n | inr l => JArr (JStr <$> l) end.
Definition json_flat (j : json) : option flat :=
  match j with
  | JStr s => Some (inl (inl s))
  | JNum n => Some (inl (inr n))
  | JArr l => inr <$> mapM (λ j, match j with JStr s => Some s | _ => None end) l
  | _ => None
  end.
Lemma flat_json_flat j v : json_flat j = Some v → flat_json v = j.
Proof.
  destruct j as [| |n|s|l|]; try by intros [= <-]. simpl. intros (l' & Hl & ->)%fmap_Some. simpl. f_equal.
  apply mapM_Some_1 in Hl. induction Hl as [|x y l l' Hx _ IH]; [done|]. simpl. f_equal; [|done].
  destruct x; try done. by injection Hx as ->.
Qed.
Definition demo_fields (fs : list (string * json)) : option (list (string * flat)) :=
  mapM (λ f, v ← json_flat f.2; Some (f.1, v)) fs.
Definition demo_sign (key : list Z) (claims : json) : result goerr string :=
  match claims with
  | JObj fs =>
      match demo_fields fs with
      | Some l =>
          let token := text_of_value (key, l) in
          if bool_decide (token ≠ "" ∧ GoStrings.TrimSpace token = token) then Ok token else Err (Plain "sign")
      | None => Err (Plain "sign")
      end
  | _ => Err (Plain "sign")
  end.
Definition demo_parse (key : list Z) (iss : string) (now : Z) (token : string) : option json :=
  match value_of_text token : option (list Z * list (string * flat)) with
  | Some (k, l) =>
      let m : gmap string flat := list_to_map l in
      match m !! "iss"%string, m !! "exp"%string with
      | Some (inl (inl i)), Some (inl (inr e)) =>
          if bool_decide (k = key) && String.eqb i iss && (now <? e * GoTime.Second)
          then Some (JObj (prod_map id flat_json <$> l)) else None
      | _, _ => None
      end
  | None => None
  end.
#[local] Instance demo_JWT : JWT := {| jwt_SignedString := demo_sign; jwt_ParseWithClaims := demo_parse |}.
Lemma demo_fields_spec fs l : demo_fields fs = Some l →
  prod_map id flat_json <$> l = fs ∧ l.*1 = fs.*1 ∧
  ∀ n j v, (n, j) ∈ fs → json_flat j = Some v → (n, v) ∈ l.
Proof.
  intros H%mapM_Some_1. induction H as [|[n j] [n' v] fs l Hx _ (IH1 & IH2 & IH3)].
  { split_and!; [done..|]. by intros ??? ?%elem_of_nil. }
  simpl in Hx. destruct (json_flat j) as [v'|] eqn:Hj; [|done]. injection Hx as <- <-. rewrite !fmap_cons. simpl.
  split_and!; [|by f_equal|].
  - unfold prod_map. simpl. rewrite (flat_json_flat _ _ Hj). by f_equal.
  - intros m i w [[= -> ->]|Hin]%elem_of_cons Hw; [|right; eauto]. simplify_eq. by left.
Qed.
#[local] Instance demo_JWTLaws : JWTLaws.
Proof.
  split.
  - intros key fs token iss e now Hs Hnd Hiss Hexp. simpl in *. unfold demo_sign in Hs.
    destruct (demo_fields fs) as [l|] eqn:Hl; [|done]. destruct (bool_decide _); [|done]. injection Hs as <-.
    apply demo_fields_spec in Hl as (Hback & Hkeys & Hin). unfold demo_parse. rewrite value_of_text_of_value.
    rewrite <- Hkeys in Hnd.
    rewrite (elem_of_list_to_map_1 l "iss"%string (inl (inl iss))) by (done || by eapply Hin).
    rewrite (elem_of_list_to_map_1 l "exp"%string (inl (inr e))) by (done || by eapply Hin).
    rewrite bool_decide_true, String.eqb_refl by done. simpl. by rewrite Hback.
  - intros key claims token Hs. simpl in Hs. unfold demo_sign in Hs. destruct claims as [| | | | |fs]; try done.
    destruct (demo_fields fs); [|done]. destruct (bool_decide_reflect (text_of_value (key, l) ≠ "" ∧
      GoStrings.TrimSpace (text_of_value (key, l)) = text_of_value (key, l))); [|done]. by injection Hs as <-.
Qed.

#[local] Instance demo_redis : RevocationStore (gmap string Z) := {|
  redis_Set now k ttl r := (Ok tt, <[k := now + ttl]> r);
  redis_Exists now ks r :=
    Ok (Z.of_nat (length (filter (λ k, default false ((λ e, now <? e) <$> r !! k) = true) ks))) |}.
#[local] Instance demo_redis_laws : RevocationLaws (gmap string Z).
Proof.
  refine {| redis_expiry r k := r !! k |}.
  - intros now k ttl r res r' [= <- <-]. split; [intros j Hj; by apply lookup_insert_ne|left; apply lookup_insert_eq].
  - by intros now ks r n [= <-].
Defined.

Definition demo_IDKey (pw salt : list Z) (t m th n : Z) : list Z :=
  (λ i, nth i pw 0 mod 256) <$> seq 0 (Z.to_nat n).
Lemma demo_bytes {A} (f : A → Z) l : is_bytes ((λ a, f a mod 256) <$> l).
Proof. apply Forall_fmap, Forall_true. intros a. simpl. apply Z.mod_pos_bound. lia. Qed.
Lemma demo_argon : argon_sound demo_IDKey.
Proof.
  intros pw salt t m th n. split; [apply demo_bytes|]. unfold demo_IDKey. by rewrite length_fmap, length_seq.
Qed.
Definition ademo_rand (i n : nat) : option (list Z) := Some ((λ j, Z.of_nat (i + j) mod 256) <$> seq 0 n).
Lemma ademo_rand_sound : rand_sound ademo_rand.
Proof. intros i n b [= <-]. apply demo_bytes. Qed.

Abbreviation AS := (Sess AuthDB (AOutside (gmap string Z))).
Definition ademo_key : list Z := bytes_of "signing key".
Definition ademo_access : Z := 15 * GoTime.Minute.
Definition ademo_refresh : Z := 720 * GoTime.Hour.
Definition ademo_serve : AuthRequest → M AuthDB (AOutside (gmap string Z)) AuthResponse :=
  serve_auth demo_IDKey ademo_rand ademo_key ademo_access ademo_refresh true true.
Abbreviation ademo_step := (auth_step (R := gmap string Z) demo_IDKey ademo_rand ademo_key ademo_access ademo_refresh true true).

Definition ademo_db : AuthDB :=
  mkAuthDB {[("acme", "id1")%string := mkMember "acme" "id1" OrgOwner "active"]} ∅ ∅ ∅ ∅ ∅ [].
Definition ademo_session (db : AuthDB) (next : nat) (now : Z) (out : AOutside (gmap string Z)) : AS :=
  mkSess db "" false [] demo_uuid next now out.
(** The next request, on the state the one before left. *)
Definition ademo_next (now : Z) (s : AS) : AS := ademo_session (store s) (uuid_next s) now (outside s).
Lemma ademo_next_store now s : store (ademo_next now s) = store s.
Proof. done. Qed.
#[local] Strategy 100 [ademo_serve].
#[local] Opaque ademo_next.
Definition ademo_meta : RequestMeta := mkMeta "curl" "10.0.0.1".
Definition ademo_noone : User := new_user "" "" "".
Definition ademo_0 : AS := ademo_session ademo_db 0 (1000 * GoTime.Second) (mkAOutside ademo_noone ∅ []).
Definition ademo_signup : AuthRequest :=
  Public (PostSignup ademo_meta (Some (mkSignup "Ann@Example.com" "correct horse" "Ann"))).
Definition ademo_1 : AS := ademo_next (1010 * GoTime.Second) (ademo_serve ademo_signup ademo_0).2.
(** A result that was computed to be a success. *)
Definition ok_or {A} (d : A) (r : result goerr A) : A := match r with Ok a => a | Err _ => d end.
Lemma computed_ok {A B} (d : A) (x : result goerr A * B) : is_ok x.1 = true → x = (Ok (ok_or d x.1), x.2).
Proof. by destruct x as [[a|e] b]. Qed.
Definition ademo_tokens (r : result goerr AuthResponse) : TokenPair :=
  match r with Ok (mkAuthResponse _ (ABPair p)) => p | _ => mkPair "" "" 0 None end.
Definition ademo_pair : TokenPair := ademo_tokens (ademo_serve ademo_signup ademo_0).1.
Definition ademo_login (password : string) : LoginRequest := mkLogin "ann@example.com" password "".

Lemma ademo_wf_0 : auth_wf (store ademo_0, []).
Proof.
  split; [|constructor]. split; try split; simpl; intros; try (by simplify_map_eq); try by constructor.
  split; constructor.
Qed.
Lemma ademo_serve_wf r s l : uuid_gen s = demo_uuid → auth_wf (store s, l) → auth_wf (store (ademo_serve r s).2, l).
Proof.
  intros Hu W. apply (auth_steps_kept (R := gmap string Z) demo_IDKey ademo_rand ademo_key ademo_access ademo_refresh
    true true (store s, l)); [|done]. apply rtc_once, auth_request. by apply demo_uuids_of.
Qed.
Lemma ademo_wf_1 : auth_wf (store ademo_1, []).
Proof.
  unfold ademo_1. rewrite ademo_next_store. apply ademo_serve_wf; [reflexivity|apply ademo_wf_0].
Qed.

(** Fresh identifiers, computed. *)
Lemma ademo_fresh (s : AS) : uuid_gen s = demo_uuid →
  forallb (λ row, drawn (uuid_next s) (ob_id row) && drawn (uuid_next s) (EventID (ob_event row)))
    (at_outbox (store s)) = true → afresh_uuids s.
Proof.
  intros Hu Hall. rewrite forallb_forall in Hall. split.
  - by apply demo_uuids_of.
  - rewrite Hu. apply demo_uuid_inj.
  - intros n Hn row Hrow%list_elem_of_In. apply Hall, andb_true_iff in Hrow as [H1 H2]. rewrite Hu.
    split; by eapply drawn_spec.
Qed.

(** A request for what needs authentication, with ann's access token. *)
Definition ademo_bearer : string := "Bearer " +:+ tp_access ademo_pair.
Definition ademo_wrong : LoginRequest * RequestMeta := (ademo_login "wrong password", ademo_meta).
Definition ademo_user (s : AS) : User := default ademo_noone (at_users (store s) !! "id1"%string).

Definition ademo_post : AccountRequest := PostServiceAccount "acme" (Some (mkCreateSA "ci" "")).
Lemma ademo_uuids_1 : proper_uuids ademo_1.
Proof. apply demo_uuids_of. vm_compute. reflexivity. Qed.
Lemma account_requests_guarded_witness :
  is_ok (ademo_serve (WithAuth ademo_bearer ademo_post) ademo_1).1 = true ∧
  apart "acme" (store ademo_1) (store (ademo_serve (WithAuth ademo_bearer ademo_post) ademo_1).2).
Proof.
  split; [vm_compute; reflexivity|].
  destruct (ademo_serve (WithAuth ademo_bearer ademo_post) ademo_1) as [res s'] eqn:E. cbn [snd].
  unfold ademo_serve in E.
  exact (proj1 (account_requests_guarded demo_IDKey ademo_rand ademo_key ademo_access ademo_refresh true true
    ademo_bearer ademo_post ademo_1 res s' ademo_uuids_1 (proj1 ademo_wf_1) E)).
Defined.

Definition ademo_Login (req : LoginRequest) : AS → result goerr TokenPair * AS :=
  Service_Login demo_IDKey ademo_rand ademo_key ademo_access ademo_refresh req ademo_meta.
#[local] Strategy 100 [ademo_Login].

(** After a wrong password, the right one. *)
Definition ademo_w1 : AS := ademo_next (1020 * GoTime.Second)
  (ademo_serve (Public (PostLogin ademo_meta (Some (ademo_login "wrong password")))) ademo_1).2.
Definition ademo_w2 : AS := (ademo_Login (ademo_login "correct horse") ademo_w1).2.
#[local] Strategy 100 [ademo_w1 ademo_w2].
Lemma ademo_wf_w1 : auth_wf (store ademo_w1, []).
Proof.
  unfold ademo_w1. rewrite ademo_next_store. apply ademo_serve_wf; [vm_compute; reflexivity|apply ademo_wf_1].
Qed.
Lemma ademo_healthy_w1 : healthy ademo_w1.
Proof. split; vm_compute; reflexivity. Qed.
Lemma ademo_fresh_w1 : afresh_uuids ademo_w1.
Proof. apply ademo_fresh; vm_compute; reflexivity. Qed.
Lemma ademo_credentials password : password ≠ "" → has_credentials (ademo_login password).
Proof. intros Hp. split; [vm_compute; discriminate|exact Hp]. Qed.
Lemma ademo_for password : login_for (ademo_login password) (ademo_user ademo_w1) (store ademo_w1).
Proof. split; vm_compute; reflexivity. Qed.
Lemma ademo_ready : login_ready ademo_rand ademo_key ademo_access (ademo_user ademo_w1) ademo_w1.
Proof.
  unfold login_ready.
  set (b := default [] (ademo_rand (uuid_next ademo_w1) 32)).
  assert (Hno : bool_decide (map_Forall (λ k t, k ≠ uuid_gen ademo_w1 (S (uuid_next ademo_w1)) ∧
    rt_hash t ≠ hashToken (Base64.text (Base64.encode b))) (at_sessions (store ademo_w1))) = true)
    by (vm_compute; reflexivity).
  exists b. eexists. split; [vm_compute; reflexivity|]. split; [|vm_compute; reflexivity].
  intros k t. exact (proj1 (bool_decide_eq_true _) Hno k t).
Qed.
Lemma Login_correct_witness :
  (ademo_Login (ademo_login "wrong password") ademo_w1).1 = Err errInvalidCredentials ∧
  failure_recorded (ademo_user ademo_w1) (clock ademo_w1) (store ademo_w1)
    (store (ademo_Login (ademo_login "wrong password") ademo_w1).2) ∧
  u_failed (ademo_user ademo_w1) = 1 ∧
  ∃ p d1, (ademo_Login (ademo_login "correct horse") ademo_w1).1 = Ok p ∧
    counters_reset (ademo_user ademo_w1) (clock ademo_w1) (store ademo_w1) d1 ∧
    session_opened ademo_rand ademo_key ademo_access ademo_refresh (ademo_user ademo_w1) ademo_meta (clock ademo_w1) d1 p
      (store ademo_w2).
Proof.
  assert (Hc : ∀ password r s', password ≠ "" → ademo_Login (ademo_login password) ademo_w1 = (r, s') →
    login_done demo_IDKey ademo_rand ademo_key ademo_access ademo_refresh (ademo_login password) ademo_meta
      (ademo_user ademo_w1) ademo_w1 r (store s')).
  { intros password r s' Hp E. unfold ademo_Login in E.
    exact (proj2 (proj2 (Login_correct demo_IDKey ademo_rand ademo_key ademo_access ademo_refresh _ _ ademo_w1 r s'
      (proj1 ademo_wf_w1) E) ademo_healthy_w1 ademo_fresh_w1 (ademo_credentials password Hp))
      (ademo_user ademo_w1) (ademo_for password)). }
  assert (H1 : login_verdict demo_IDKey (ademo_login "wrong password") (ademo_user ademo_w1) (clock ademo_w1)
    = Count errInvalidCredentials) by (vm_compute; reflexivity).
  assert (H2 : login_verdict demo_IDKey (ademo_login "correct horse") (ademo_user ademo_w1) (clock ademo_w1)
    = Admit) by (vm_compute; reflexivity).
  unfold ademo_w2. destruct (ademo_Login (ademo_login "wrong password") ademo_w1) as [r1 s1] eqn:E1.
  destruct (ademo_Login (ademo_login "correct horse") ademo_w1) as [r2 s2] eqn:E2.
  apply Hc in E1; [|discriminate]. apply Hc in E2; [|discriminate]. unfold login_done in E1, E2.
  rewrite H1 in E1. rewrite H2 in E2. destruct E1 as [-> E1]. cbn [fst snd].
  split; [reflexivity|]. split; [exact E1|]. split; [vm_compute; reflexivity|]. exact (E2 ademo_ready).
Defined.

Lemma ademo_user_1 : at_users (store ademo_1) !! u_id (ademo_user ademo_1) = Some (ademo_user ademo_1).
Proof. vm_compute. reflexivity. Qed.
Lemma ademo_healthy : healthy ademo_1.
Proof. split; vm_compute; reflexivity. Qed.
Lemma ademo_fresh_1 : afresh_uuids ademo_1.
Proof. apply ademo_fresh; vm_compute; reflexivity. Qed.
Lemma ademo_all_wrong :
  Forall (λ r, wrong_password demo_IDKey (ademo_user ademo_1) r.1) (repeat ademo_wrong 5).
Proof.
  assert (H : wrong_password demo_IDKey (ademo_user ademo_1) ademo_wrong.1).
  { unfold wrong_password, password_is. split; [vm_compute; discriminate|]. split; [vm_compute; reflexivity|].
    split; [vm_compute; discriminate|vm_compute; reflexivity]. }
  by repeat constructor.
Qed.
Lemma failures_lock_account_witness :
  healthy ademo_1 ∧
  ∃ s', logins demo_IDKey ademo_rand ademo_key ademo_access ademo_refresh (repeat ademo_wrong 5) ademo_1
        = ((λ _, Err errInvalidCredentials) <$> repeat ademo_wrong 5, s') ∧
    (ademo_Login (ademo_login "correct horse") (ademo_session (store s') 0 (1100 * GoTime.Second) (outside s'))).1
    = Err errAccountLocked.
Proof.
  split; [exact ademo_healthy|].
  destruct (failures_lock_account demo_IDKey ademo_rand ademo_key ademo_access ademo_refresh (repeat ademo_wrong 5)
    (ademo_user ademo_1) ademo_1 ademo_healthy ademo_fresh_1 (proj1 ademo_wf_1) ademo_user_1) as (s' & Hrun & Hlock);
    [vm_compute; reflexivity|discriminate|vm_compute; reflexivity|exact ademo_all_wrong|].
  exists s'. split; [exact Hrun|].
  pose proof (proj1 (Hlock (ademo_session (store s') 0 (1100 * GoTime.Second) (outside s')) eq_refl eq_refl)
    (ademo_login "correct horse") ademo_meta) as HL.
  unfold ademo_Login. specialize (HL ltac:(vm_compute; discriminate) ltac:(vm_compute; discriminate)
    ltac:(vm_compute; reflexivity) ltac:(vm_compute; reflexivity)).
  apply (f_equal fst) in HL. exact HL.
Defined.

(** Two refreshes with one token. *)
Definition ademo_refresh_token : string := tp_refresh ademo_pair.
Definition ademo_Refresh : AS → result goerr TokenPair * AS :=
  Service_Refresh ademo_rand ademo_key ademo_access ademo_refresh true ademo_refresh_token ademo_meta.
Definition ademo_2 : AS := (ademo_Refresh ademo_1).2.
Definition ademo_pair_2 : TokenPair := ok_or (mkPair "" "" 0 None) (ademo_Refresh ademo_1).1.
#[local] Strategy 100 [ademo_1 ademo_2 ademo_pair_2 ademo_refresh_token].
Lemma ademo_refreshed : ademo_Refresh ademo_1 = (Ok ademo_pair_2, ademo_2).
Proof. unfold ademo_pair_2, ademo_2. apply computed_ok. vm_compute. reflexivity. Qed.
Lemma refresh_single_use_witness :
  is_ok (ademo_Refresh ademo_1).1 = true ∧ spent_session ademo_refresh_token (store ademo_2) ∧
  ∃ e s3, ademo_Refresh ademo_2 = (Err e, s3) ∧ store s3 = store ademo_2.
Proof.
  split; [vm_compute; reflexivity|]. pose proof ademo_refreshed as Hr. unfold ademo_Refresh in Hr |- *.
  exact (proj2 (refresh_single_use demo_IDKey ademo_rand ademo_key ademo_access ademo_refresh true true
    ademo_refresh_token ademo_meta ademo_1 ademo_2 [] (store ademo_2, []) ademo_2 ademo_meta ademo_wf_1
    (or_introl (ex_intro _ ademo_pair_2 Hr)) (rtc_refl _ _) eq_refl)).
Defined.

(** Two refreshes that both check the session before either rotates it. *)
Definition ademo_checked : RefreshToken * User :=
  ok_or (mkSession "" 0 "" "" None None 0 None None, ademo_noone)
    (refresh_check (R := gmap string Z) ademo_refresh_token ademo_1).1.
Definition ademo_rotate : AS → result goerr TokenPair * AS :=
  refresh_rotate ademo_rand ademo_key ademo_access ademo_refresh true ademo_checked.1 ademo_checked.2 ademo_meta.
Definition ademo_3 : AS := (ademo_rotate ademo_1).2.
Definition ademo_4 : AS := (ademo_rotate ademo_3).2.
(** The live sessions of ann. *)
Definition live_sessions (user : string) (now : Z) (db : AuthDB) : list RefreshToken :=
  rows_where (λ t, String.eqb (rt_user t) user && Active t now) (at_sessions db).
#[local] Strategy 100 [ademo_checked ademo_3 ademo_4].
Lemma ademo_check : (refresh_check (R := gmap string Z) ademo_refresh_token ademo_1).1 = Ok ademo_checked.
Proof.
  unfold ademo_checked. set (d := (_, _)).
  assert (H : is_ok (refresh_check (R := gmap string Z) ademo_refresh_token ademo_1).1 = true) by (vm_compute; reflexivity).
  destruct (refresh_check ademo_refresh_token ademo_1).1; [reflexivity|discriminate H].
Qed.
Lemma ademo_step_signup l : ademo_step (store ademo_0, l) (store ademo_1, l).
Proof.
  unfold ademo_1. rewrite ademo_next_store. unfold ademo_serve. apply auth_request. by apply demo_uuids_of.
Qed.
Lemma ademo_step_check l : ademo_step (store ademo_1, l) (store ademo_1, ademo_checked :: l).
Proof.
  pose proof ademo_check as H. destruct ademo_checked as [t u]. eapply refresh_checks. exact H.
Qed.
Lemma ademo_step_rotate (s : AS) l : ademo_step (store s, ademo_checked :: l) (store (ademo_rotate s).2, l).
Proof.
  unfold ademo_rotate. destruct ademo_checked as [t u]. simpl.
  apply (refresh_rotates _ _ _ _ _ _ _ s t u ademo_meta [] l).
Qed.
Lemma ademo_race_steps : rtc ademo_step (store ademo_0, []) (store ademo_4, []).
Proof.
  eapply rtc_l; [apply ademo_step_signup|]. do 2 (eapply rtc_l; [apply ademo_step_check|]).
  eapply rtc_l; [apply ademo_step_rotate|]. change (store (ademo_rotate ademo_1).2) with (store ademo_3).
  eapply rtc_l; [apply ademo_step_rotate|]. apply rtc_refl.
Qed.

Lemma auth_states_sound_witness :
  rtc ademo_step (store ademo_0, []) (store ademo_4, []) ∧ auth_wf (store ademo_0, []) ∧ awf (store ademo_4).
Proof.
  split; [exact ademo_race_steps|]. split; [exact ademo_wf_0|].
  exact (proj1 (proj1 (auth_states_sound demo_IDKey ademo_rand ademo_key ademo_access ademo_refresh true true
    (store ademo_0, []) (store ademo_4, []) ademo_race_steps ademo_wf_0))).
Defined.

(** Refreshes are not serialized: when two requests with one refresh token
    both check its session before either rotates it, both succeed, and the one
    token has become two live sessions. *)
Theorem refreshes_race :
  rtc ademo_step (store ademo_0, []) (store ademo_4, []) ∧
  (refresh_check (R := gmap string Z) ademo_refresh_token ademo_1).1 = Ok ademo_checked ∧
  is_ok (ademo_rotate ademo_1).1 = true ∧ is_ok (ademo_rotate ademo_3).1 = true ∧
  length (live_sessions "id1" (clock ademo_1) (store ademo_1)) = 1%nat ∧
  length (live_sessions "id1" (clock ademo_4) (store ademo_4)) = 2%nat ∧
  spent_session ademo_refresh_token (store ademo_4).
Proof.
  split; [exact ademo_race_steps|]. split; [exact ademo_check|].
  do 4 (split; [vm_compute; reflexivity|]).
  assert (H : existsb (λ t, String.eqb (rt_hash t) (hashToken ademo_refresh_token) && negb (bool_decide (rt_revoked t = None)))
    (rows_where (λ _, true) (at_sessions (store ademo_4))) = true) by (vm_compute; reflexivity).
  apply existsb_exists in H as (t & Ht%list_elem_of_In & [Hh%String.eqb_eq Hr]%andb_true_iff).
  apply elem_of_rows_where in Ht as [_ [k Hk]]. exists k, t. split; [exact Hk|]. split; [exact Hh|].
  apply negb_true_iff, bool_decide_eq_false, not_eq_None_Some in Hr. exact Hr.
Qed.

(** ** Tokens *)
Definition ademo_in : TokenPair :=
  ok_or (mkPair "" "" 0 None) (ademo_Login (ademo_login "correct horse") ademo_1).1.
Definition ademo_5 : AS := (ademo_Login (ademo_login "correct horse") ademo_1).2.
#[local] Strategy 100 [ademo_in ademo_5].
Lemma ademo_logged_in : ademo_Login (ademo_login "correct horse") ademo_1 = (Ok ademo_in, ademo_5).
Proof. unfold ademo_in, ademo_5. apply computed_ok. vm_compute. reflexivity. Qed.
Lemma login_token_identifies_witness :
  ademo_Login (ademo_login "correct horse") ademo_1 = (Ok ademo_in, ademo_5) ∧
  ∃ u, at_users (store ademo_1) !! u_id u = Some u ∧
    RequireAuth ademo_key ("Bearer " +:+ tp_access ademo_in) ret ademo_5 = (Ok (u_id u), ademo_5).
Proof.
  split; [exact ademo_logged_in|]. pose proof ademo_logged_in as Hin. unfold ademo_Login in Hin.
  destruct (login_token_identifies demo_IDKey ademo_rand ademo_key ademo_access ademo_refresh
    (ademo_login "correct horse") ademo_meta ademo_1 ademo_in ademo_5 (proj1 ademo_wf_1) Hin)
    as (u & sid & (_ & Hu) & _ & _ & _ & _ & Hauth & _).
  exists u. split; [exact Hu|]. rewrite Hauth.
  assert (Hc : (clock ademo_5 <? valid_until ademo_access (clock ademo_1)) = true) by (vm_compute; reflexivity).
  rewrite Hc. reflexivity.
Defined.

(** The access token of the signup, after the refresh. *)
Definition ademo_ctx (token : string) : Ctx :=
  mkCtx "GET" [("Authorization"%string, "Bearer " +:+ token)] [("orgId"%string, "acme"%string)] None "" [] None None.
Definition ademo_t : RefreshToken := ademo_checked.1.
Definition ademo_u : User := ademo_checked.2.
#[local] Strategy 100 [ademo_t ademo_u ademo_pair].
Lemma ademo_signup_token :
  access_token ademo_key ademo_access ademo_u (rt_id ademo_t) (clock ademo_0) (tp_access ademo_pair).
Proof. exists "id6"%string. vm_compute. reflexivity. Qed.
Lemma ended_sessions_rejected_witness :
  is_ok (Authentication ademo_key (clock ademo_1) (Some (redis (outside ademo_1))) (ademo_ctx (tp_access ademo_pair))) = true ∧
  (Authentication ademo_key (clock ademo_2) (Some (redis (outside ademo_2))) (ademo_ctx (tp_access ademo_pair))
   = Err ErrInvalidToken ∨
   Authentication ademo_key (clock ademo_2) (Some (redis (outside ademo_2))) (ademo_ctx (tp_access ademo_pair))
   = Err ErrTokenRevoked).
Proof.
  split; [vm_compute; reflexivity|]. pose proof ademo_refreshed as Hr. unfold ademo_Refresh in Hr.
  apply (ended_sessions_rejected demo_IDKey ademo_rand ademo_key ademo_access ademo_refresh true
    ademo_refresh_token ademo_1 ademo_2 ademo_t (rt_id ademo_t) ademo_u (clock ademo_0) (tp_access ademo_pair)).
  - exact (proj1 ademo_wf_1).
  - reflexivity.
  - left. exists ademo_meta, ademo_pair_2. exact Hr.
  - vm_compute. reflexivity.
  - vm_compute. reflexivity.
  - vm_compute. discriminate.
  - vm_compute. reflexivity.
  - exact ademo_signup_token.
  - vm_compute. discriminate.
  - vm_compute. discriminate.
  - reflexivity.
  - reflexivity.
  - vm_compute. discriminate.
  - reflexivity.
Defined.

(** A service account and its token. *)
Definition ademo_6 : AS := (ademo_serve (WithAuth ademo_bearer ademo_post) ademo_1).2.
Definition ademo_account : string :=
  match map_to_list (at_accounts (store ademo_6)) with (id, _) :: _ => id | [] => "" end.
Definition ademo_api : CreateAPITokenRequest := mkCreateApi "deploy" (Some ["deploy"%string]) 30.
Definition ademo_CreateAPI : AS → result goerr APITokenResult * AS :=
  Service_CreateAPIToken ademo_key "acme" "id1" ademo_account ademo_api.
Definition ademo_7 : AS := (ademo_CreateAPI ademo_6).2.
Definition ademo_api_token : APITokenResult :=
  ok_or (mkApiResult "" "" "" "" [] None 0) (ademo_CreateAPI ademo_6).1.
#[local] Strategy 100 [ademo_6 ademo_7 ademo_api_token].
Lemma ademo_api_created : ademo_CreateAPI ademo_6 = (Ok ademo_api_token, ademo_7).
Proof. unfold ademo_api_token, ademo_7. apply computed_ok. vm_compute. reflexivity. Qed.
Lemma service_account_passes_as_user_witness :
  ademo_CreateAPI ademo_6 = (Ok ademo_api_token, ademo_7) ∧
  ∃ c' id, Authentication (R := gmap string Z) ademo_key (clock ademo_7) None (ademo_ctx (ar_token ademo_api_token)) = Ok c' ∧
    cx_identity c' = Some id ∧ id_type id = TokenTypeUser ∧ id_scopes id = [].
Proof.
  split; [exact ademo_api_created|]. pose proof ademo_api_created as H. unfold ademo_CreateAPI in H.
  destruct (service_account_passes_as_user ademo_key "acme" "id1" ademo_account ademo_api ademo_6 ademo_api_token
    ademo_7 (clock ademo_7) (ademo_ctx (ar_token ademo_api_token)) H) as (c' & id & Ha & Hc & Ht & _ & _ & Hs & _).
  - vm_compute. discriminate.
  - reflexivity.
  - vm_compute. reflexivity.
  - exists c', id. split; [exact Ha|]. split; [exact Hc|]. split; [exact Ht|exact Hs].
Defined.

(** A password reset. *)
Definition ademo_ask : AuthRequest := Public (PostResetRequest (Some "ANN@example.com"%string)).
Definition ademo_8 : AS := ademo_next (1020 * GoTime.Second) (ademo_serve ademo_ask ademo_1).2.
Definition ademo_reset_token : string :=
  match rev (mailbox (outside ademo_8)) with d :: _ => td_token d | [] => "" end.
Definition ademo_Reset : AS → result goerr unit * AS :=
  Service_ConfirmPasswordReset demo_IDKey ademo_rand ademo_reset_token "battery staple".
Definition ademo_9 : AS := (ademo_Reset ademo_8).2.
#[local] Strategy 100 [ademo_8 ademo_reset_token ademo_9].
Lemma ademo_wf_8 : auth_wf (store ademo_8, []).
Proof.
  unfold ademo_8. rewrite ademo_next_store. apply ademo_serve_wf; [vm_compute; reflexivity|apply ademo_wf_1].
Qed.
Lemma ademo_reset_done : ademo_Reset ademo_8 = (Ok tt, ademo_9).
Proof.
  unfold ademo_9. rewrite (computed_ok tt (ademo_Reset ademo_8)) at 1; [|vm_compute; reflexivity].
  by destruct (ok_or tt _).
Qed.
Lemma password_reset_correct_witness :
  ademo_Reset ademo_8 = (Ok tt, ademo_9) ∧
  ∃ t u, reset_done demo_IDKey ademo_reset_token "battery staple" t u (clock ademo_8) (store ademo_8) (store ademo_9).
Proof.
  split; [exact ademo_reset_done|]. pose proof ademo_reset_done as H. unfold ademo_Reset in H.
  destruct (password_reset_correct demo_IDKey ademo_rand ademo_key ademo_access ademo_refresh true true
    ademo_reset_token "battery staple" ademo_8 (Ok tt) ademo_9 [] ademo_wf_8 demo_argon ademo_rand_sound H)
    as [_ (t & u & Hd & _)].
  exists t, u. exact Hd.
Defined.

(** The second factor is set up and enabled. *)
Definition ademo_setup : AuthRequest := WithAuth ademo_bearer PostMFASetup.
Definition ademo_10 : AS := ademo_next (1030 * GoTime.Second) (ademo_serve ademo_setup ademo_1).2.
Definition ademo_code : string :=
  default "" (u_secret (ademo_user ademo_10) ≫= λ secret, totpCodeAt secret (1000 * GoTime.Second)).
Definition ademo_Enable : AS → result goerr unit * AS := Service_EnableMFA "id1" ademo_code.
Definition ademo_11 : AS := (ademo_Enable ademo_10).2.
#[local] Strategy 100 [ademo_10 ademo_11].
Lemma ademo_wf_10 : auth_wf (store ademo_10, []).
Proof.
  unfold ademo_10. rewrite ademo_next_store. apply ademo_serve_wf; [vm_compute; reflexivity|apply ademo_wf_1].
Qed.
Lemma ademo_enabled : ademo_Enable ademo_10 = (Ok tt, ademo_11).
Proof.
  unfold ademo_11. rewrite (computed_ok tt (ademo_Enable ademo_10)) at 1; [|vm_compute; reflexivity].
  by destruct (ok_or tt _).
Qed.
Lemma second_factor_proven_witness :
  ademo_Enable ademo_10 = (Ok tt, ademo_11) ∧
  ∃ u secret, at_users (store ademo_10) !! "id1"%string = Some u ∧ u_secret u = Some secret.
Proof.
  split; [exact ademo_enabled|]. pose proof ademo_enabled as H. unfold ademo_Enable in H.
  assert (Ht : totp_time (clock ademo_10)) by (vm_compute; split; [discriminate|reflexivity]).
  destruct (second_factor_proven "id1" ademo_code true ademo_10 (Ok tt) ademo_11 (proj1 ademo_wf_10) Ht H)
    as (u & secret & Hu & Hs & _).
  exists u, secret. split; [exact Hu|exact Hs].
Defined.
