(* ===== verification/SecretStore.v ===== *)
(** * The secrets service's tables and encryption

    services/secrets/internal: domain.go, errors.go, events.go (payloads),
    crypto.go (the encryptor, over [Aes]) and repository.go, with the tables of
    migrations/secrets and the rows of other services the queries join.  As in
    [Store], tenant tables have FORCE ROW LEVEL SECURITY, uniqueness and
    foreign keys look at all rows, values fit their column types, and text is
    ordered by its bytes.  Identifiers the database generates come from the
    same supply as those of the program. *)

From S2P Require Import Prelude Json Aes AppErrors Tx Events Domain Pagination Authz.
From S2P Require Export Encodings Repository Runs Outbox.
Open Scope Z_scope.
Open Scope tx_scope.

(** ** domain.go *)
Record Secret := mkSec {
  sec_id : string; sec_created : Z; sec_updated : Z; sec_version : Z; sec_org : string;
  sec_project : string; sec_name : string; sec_desc : option string; sec_value : list Z;
  sec_hash : string; sec_created_by : option string; sec_updated_by : option string;
  sec_deleted : option Z }.

Record SecretAccessLog := mkLog {
  al_id : string; al_org : string; al_secret : string; al_action : string;
  al_by : option string; al_at : Z; al_meta : RawMessage }.

Definition ActionCreated : string := "created".
Definition ActionUpdated : string := "updated".
Definition ActionDeleted : string := "deleted".
Definition ActionAccessed : string := "accessed".

Record CreateSecretRequest := mkCreateSec {
  cs_name : string; cs_value : string; cs_desc : option string }.
Record UpdateSecretRequest := mkUpdateSec { us_value : option string; us_desc : option string }.

Record SecretView := mkSecView {
  sv_id : string; sv_project : string; sv_name : string; sv_desc : string; sv_version : Z;
  sv_created : Z; sv_updated : Z }.
Definition ToView (s : Secret) : SecretView :=
  mkSecView (sec_id s) (sec_project s) (sec_name s) (default "" (sec_desc s)) (sec_version s)
    (sec_created s) (sec_updated s).
Record SecretListView := mkSecList {
  sl_items : list SecretView; sl_total : Z; sl_more : bool; sl_next : string }.

(** What agents are given: the plaintext. *)
Record AgentSecret := mkAgentSecret {
  as_project : string; as_name : string; as_value : string; as_version : Z }.

(** ** errors.go *)
Definition ErrInvalidOrgID : goerr :=
  Validation "organization ID is required for security validation".

(** ** events.go: the payloads *)
Inductive secret_payload :=
| secretCreatedPayload (secretID projectID name : string) (version : Z)
| secretUpdatedPayload (secretID projectID name : string) (version : Z)
| secretDeletedPayload (secretID projectID name deletedBy : string).

(** ** crypto.go *)
Definition keySize : nat := 32.
Definition nonceSize : nat := 12.
Definition tagSize : nat := 16.

Definition invalidKey : string := "secrets: invalid master key (must be 32 bytes for AES-256)".

(** The key of an [Encryptor]. *)
Record Encryptor := mkEncryptor { enc_key : list Z }.

Definition NewEncryptorFromBytes (key : list Z) : result goerr Encryptor :=
  if negb (length key =? keySize)%nat
  then Err (Wrapped invalidKey (Plain ("got " +:+ GoStrings.Itoa (Z.of_nat (length key)) +:+
              " bytes, want " +:+ GoStrings.Itoa (Z.of_nat keySize))))
  else Ok (mkEncryptor key).

Definition NewEncryptor (masterKeyBase64 : string) : result goerr Encryptor :=
  match StdBase64.decode (Base64.bytes masterKeyBase64) with
  | None => Err (Wrapped invalidKey (Plain "illegal base64 data"))
  | Some key => NewEncryptorFromBytes key
  end.

(** [nonce] is what the random source gave, if it did. *)
Definition Encrypt (e : Encryptor) (nonce : option (list Z)) (plaintext : list Z)
    : result goerr (list Z) :=
  match nonce with
  | None => Err (Plain "secrets: encryption failed: failed to generate nonce")
  | Some nonce => Ok (nonce ++ Seal (enc_key e) nonce plaintext)
  end.

Definition ErrInvalidCiphertext : goerr := Plain "secrets: invalid ciphertext format".
Definition Decrypt (e : Encryptor) (ciphertext : list Z) : result goerr (list Z) :=
  if (length ciphertext <? nonceSize + tagSize)%nat then Err ErrInvalidCiphertext
  else
    match Open (enc_key e) (take nonceSize ciphertext) (drop nonceSize ciphertext) with
    | None => Err (Plain "secrets: decryption failed: cipher: message authentication failed")
    | Some plaintext => Ok plaintext
    end.

Definition EncryptString (e : Encryptor) (nonce : option (list Z)) (plaintext : string)
    : result goerr (list Z) :=
  Encrypt e nonce (Base64.bytes plaintext).
Definition DecryptString (e : Encryptor) (ciphertext : list Z) : result goerr string :=
  result_map Base64.text (Decrypt e ciphertext).

Definition HashValue (plaintext : string) : string :=
  text_of (mjoin (hex_byte <$> Sha256.Sum256 (bytes_of plaintext))).

Definition GenerateMasterKey (key : option (list Z)) : result goerr string :=
  match key with
  | None => Err (Plain "failed to generate master key")
  | Some key => Ok (Base64.text (StdBase64.encode key))
  end.

(** ** Tables *)
Record ProjectMember := mkPMember { pm_org : string; pm_project : string; pm_user : string; pm_role : string }.

Record SDB := mkSDB {
  sd_orgs : gset string;
  sd_projects : gset string;
  sd_members : gmap (string * string) ProjectMember;
  sd_clusters : gmap string ClusterRow;
  sd_apps : gmap string Application;
  sd_deps : gmap string Deployment;
  sd_secrets : gmap string Secret;
  sd_logs : gmap string SecretAccessLog;
  sd_outbox : list (OutboxRow secret_payload) }.

Definition set_secrets (m : gmap string Secret) (db : SDB) : SDB :=
  mkSDB (sd_orgs db) (sd_projects db) (sd_members db) (sd_clusters db) (sd_apps db) (sd_deps db) m
    (sd_logs db) (sd_outbox db).
Definition set_logs (m : gmap string SecretAccessLog) (db : SDB) : SDB :=
  mkSDB (sd_orgs db) (sd_projects db) (sd_members db) (sd_clusters db) (sd_apps db) (sd_deps db)
    (sd_secrets db) m (sd_outbox db).
Definition set_soutbox (l : list (OutboxRow secret_payload)) (db : SDB) : SDB :=
  mkSDB (sd_orgs db) (sd_projects db) (sd_members db) (sd_clusters db) (sd_apps db) (sd_deps db)
    (sd_secrets db) (sd_logs db) l.
#[export] Instance SDB_outbox : OutboxTable SDB secret_payload :=
  {| outbox_rows := sd_outbox; set_outbox_rows := set_soutbox |}.

Abbreviation SM := (M SDB unit).

(** ** repository.go: secrets *)
Definition undeleted (s : Secret) : bool := match sec_deleted s with None => true | _ => false end.

(** A partial unique index: one undeleted secret per project and name. *)
Definition insert_secret (id : string) (s : Secret) (o : string) (now : Z) (db : SDB)
    : string + Secret * SDB :=
  if negb (visible o (sec_org s)) then inl rls_violation
  else if bool_decide (is_Some (sd_secrets db !! id)) ||
       existsb (λ b, undeleted b && String.eqb (sec_project b) (sec_project s) &&
                     String.eqb (sec_name b) (sec_name s))
         (rows_where (λ _, true) (sd_secrets db))
  then inl sqlStateUniqueViolation
  else if negb (bool_decide (sec_org s ∈ sd_orgs db)) ||
          negb (bool_decide (sec_project s ∈ sd_projects db))
  then inl sqlStateForeignKeyViolation
  else
    let row updated_by := mkSec id now now 1 (sec_org s) (sec_project s) (sec_name s) (sec_desc s)
      (sec_value s) (sec_hash s) (sec_created_by s) updated_by None in
    inr (row (sec_updated_by s), set_secrets (<[id := row (sec_created_by s)]> (sd_secrets db)) db).

Definition secretRepo_Create (s : Secret) : SM Secret :=
  let* id := uuid_NewString in
  on_err (stmt (insert_secret id s)) MapError.

Definition secretRepo_GetByID (id : string) : SM Secret :=
  on_err (QueryRow (λ o db,
    match row_at sec_org o id (sd_secrets db) with
    | Some s => if undeleted s then [s] else []
    | None => []
    end)) MapError.

Definition secretRepo_GetByName (projectID name : string) : SM Secret :=
  on_err (QueryRow (λ o db,
    rows_where (λ s, visible o (sec_org s) && String.eqb (sec_project s) projectID &&
                     String.eqb (sec_name s) name && undeleted s) (sd_secrets db))) MapError.

Definition secret_cursor (s : Secret) : Cursor := mkCursor (sec_created s) (sec_id s).

(** The list query: [None] is no cursor. *)
Definition select_secrets (rows : list Secret) (cur : option Cursor) (limit : nat) : list Secret :=
  let rows := match cur with
              | None => rows
              | Some c => filter (λ x, key_ltb (secret_cursor x) c = true) rows
              end in
  take limit (order_desc secret_cursor rows).

Definition secret_limit (limit : Z) : Z := if (limit <=? 0) || (100 <? limit) then 25 else limit.

Definition secretRepo_List `{CursorJSON} (projectID : string) (page : PageRequest)
    : SM (Page Secret) :=
  let run cur :=
    let limit := Z.to_nat (secret_limit (Limit page)) in
    let* secrets := on_err (stmt (λ o _ db, inr (select_secrets
        (rows_where (λ s, visible o (sec_org s) && String.eqb (sec_project s) projectID && undeleted s)
           (sd_secrets db)) cur (S limit), db))) MapError in
    if (limit <? length secrets)%nat then
      let items := take limit secrets in
      ret (mkPage items (match last items with
                         | Some s => EncodeCursor (secret_cursor s)
                         | None => ""
                         end))
    else ret (mkPage secrets "") in
  if String.eqb (PCursor page) "" then run None
  else match DecodeCursor (PCursor page) with
       | Err e => fail (Wrapped "invalid cursor" e)
       | Ok c => run (Some c)
       end.

Definition ErrConcurrentModification : goerr := Plain "database: concurrent modification detected".
Definition database_ErrNotFound : goerr := Plain "database: resource not found".

(** The columns [Update] sets. *)
Definition sec_edit (s : Secret) (now : Z) (r : Secret) : Secret :=
  mkSec (sec_id r) (sec_created r) now (sec_version r + 1) (sec_org r) (sec_project r) (sec_name r)
    (sec_desc s) (sec_value s) (sec_hash s) (sec_created_by r) (sec_updated_by s) (sec_deleted r).

(** UPDATE ... RETURNING version, updated_at. *)
Definition update_secret (s : Secret) (o : string) (now : Z) (db : SDB)
    : string + option (Z * Z) * SDB :=
  match row_at sec_org o (sec_id s) (sd_secrets db) with
  | Some r =>
      if (sec_version r =? sec_version s) && undeleted r then
        let r' := sec_edit s now r in
        inr (Some (sec_version r', sec_updated r'), set_secrets (<[sec_id s := r']> (sd_secrets db)) db)
      else inr (None, db)
  | None => inr (None, db)
  end.

Definition secretRepo_Update (s : Secret) : SM Secret :=
  let* row := on_err (stmt (update_secret s)) MapError in
  match row with
  | None => fail ErrConcurrentModification
  | Some (version, updated) =>
      ret (mkSec (sec_id s) (sec_created s) updated version (sec_org s) (sec_project s) (sec_name s)
             (sec_desc s) (sec_value s) (sec_hash s) (sec_created_by s) (sec_updated_by s)
             (sec_deleted s))
  end.

Definition sec_removed (now : Z) (r : Secret) : Secret :=
  mkSec (sec_id r) (sec_created r) now (sec_version r) (sec_org r) (sec_project r) (sec_name r)
    (sec_desc r) (sec_value r) (sec_hash r) (sec_created_by r) (sec_updated_by r) (Some now).

Definition remove_secret (id : string) (o : string) (now : Z) (db : SDB) : string + nat * SDB :=
  match row_at sec_org o id (sd_secrets db) with
  | Some r =>
      if undeleted r then inr (1%nat, set_secrets (<[id := sec_removed now r]> (sd_secrets db)) db)
      else inr (0%nat, db)
  | None => inr (0%nat, db)
  end.

Definition secretRepo_Delete (id : string) : SM unit :=
  let* n := Exec (remove_secret id) in
  require_rows n database_ErrNotFound.

(** ORDER BY project_id, name. *)
Definition project_name_le (a b : Secret) : Prop :=
  String.compare (sec_project a) (sec_project b) = Lt ∨
  sec_project a = sec_project b ∧ String.compare (sec_name a) (sec_name b) ≠ Gt.
#[export] Instance project_name_le_dec a b : Decision (project_name_le a b).
Proof. unfold project_name_le. apply _. Defined.

(** An active deployment of an application of the project, on the cluster. *)
Definition deployed_on (orgID clusterID project : string) (o : string) (db : SDB) : bool :=
  existsb (λ d,
      visible o (d_org d) && String.eqb (d_org d) orgID && String.eqb (d_cluster d) clusterID &&
      negb (String.eqb (d_status d) "deleted") && negb (String.eqb (d_status d) "deleting") &&
      existsb (λ a, visible o (a_org a) && String.eqb (a_org a) orgID &&
                    String.eqb (a_id a) (d_app d) && String.eqb (a_project a) project)
        (rows_where (λ _, true) (sd_apps db)))
    (rows_where (λ _, true) (sd_deps db)).

Definition secretRepo_GetSecretsForCluster (orgID clusterID : string) : SM (list Secret) :=
  if String.eqb orgID "" then fail ErrInvalidOrgID
  else
    on_err (stmt (λ o _ db, inr (merge_sort project_name_le
      (rows_where (λ s, visible o (sec_org s) && String.eqb (sec_org s) orgID && undeleted s &&
                        deployed_on orgID clusterID (sec_project s) o db) (sd_secrets db)), db)))
      MapError.

(** ** repository.go: access logs *)
Definition insert_log (id : string) (l : SecretAccessLog) (o : string) (now : Z) (db : SDB)
    : string + SecretAccessLog * SDB :=
  if negb (visible o (al_org l)) then inl rls_violation
  else if bool_decide (is_Some (sd_logs db !! id)) then inl sqlStateUniqueViolation
  else if negb (bool_decide (al_org l ∈ sd_orgs db)) ||
          negb (bool_decide (is_Some (sd_secrets db !! al_secret l)))
  then inl sqlStateForeignKeyViolation
  else
    let row := mkLog id (al_org l) (al_secret l) (al_action l) (al_by l) now
                 (match al_meta l with None => Some (JObj []) | m => m end) in
    inr (row, set_logs (<[id := row]> (sd_logs db)) db).

Definition accessLogRepo_Create (l : SecretAccessLog) : SM SecretAccessLog :=
  let* id := uuid_NewString in stmt (insert_log id l).

(** ORDER BY performed_at DESC. *)
Definition later_log (a b : SecretAccessLog) : Prop := al_at b ≤ al_at a.
#[export] Instance later_log_dec a b : Decision (later_log a b).
Proof. unfold later_log. apply _. Defined.
Definition accessLogRepo_ListBySecret (secretID : string) (limit : Z) : SM (list SecretAccessLog) :=
  on_err (stmt (λ o _ db, inr (take (Z.to_nat (secret_limit limit)) (merge_sort later_log
    (rows_where (λ l, visible o (al_org l) && String.eqb (al_secret l) secretID) (sd_logs db))), db)))
    MapError.

(** ** cmd/server: the membership look-up *)
Definition memberLookup_GetByUser (projectID userID : string) : SM string :=
  on_err (QueryRow (λ o db,
    match sd_members db !! (projectID, userID) with
    | Some m => if visible o (pm_org m) then [pm_role m] else []
    | None => []
    end)) MapError.
