(* ===== verification/SecretService.v ===== *)
(** * The secrets service

    services/secrets/internal: service.go, agent_handlers.go, handlers.go,
    middleware.go and routes.go.  A user request is [serve_secrets], an agent's
    [serve_agent_secrets].  Bodies are decoded, and access tokens verified, by
    third-party code: parameters.  [rand] is crypto/rand: what each draw gives. *)

From S2P Require Import Prelude Json Aes AppErrors Tx Events Domain Pagination Authz Http.
From S2P Require Import SecretStore.
Open Scope Z_scope.
Open Scope tx_scope.

(** ** Validation *)

(** ^[A-Z][A-Z0-9_]{0,254}$ *)
Definition upper (a : Ascii.ascii) : bool :=
  let n := Ascii.nat_of_ascii a in ((65 <=? n) && (n <=? 90))%nat.
Definition secret_char (a : Ascii.ascii) : bool :=
  upper a || is_digit a || Ascii.eqb a (Ascii.ascii_of_nat 95).
Definition secretNamePattern (s : string) : bool :=
  match s with
  | EmptyString => false
  | String a rest => upper a && all_chars secret_char rest && (Z.of_nat (String.length rest) <=? 254)
  end.

Definition validateSecretName (name : string) : option goerr :=
  if negb (secretNamePattern name)
  then Some (Validation "secret name must start with uppercase letter and contain only uppercase letters, digits, and underscores (max 255 chars)")
  else None.
Definition validateSecretValue (value : string) : option goerr :=
  if (String.length value =? 0)%nat then Some (Validation "secret value cannot be empty")
  else if 65536 <? Z.of_nat (String.length value)
  then Some (Validation "secret value cannot exceed 64KB")
  else None.

(** ** events.go *)
Definition EventSecretCreated : string := "secret.created".
Definition EventSecretUpdated : string := "secret.updated".
Definition EventSecretDeleted : string := "secret.deleted".
Definition secretEventVersion : Z := 1.

Definition enqueue_secret (eventType orgID : string) (p : secret_payload)
    (opts : list (@Option_ secret_payload)) : SM unit :=
  let* e := events_New eventType secretEventVersion orgID p opts in
  PostgresOutbox_Enqueue e.
Definition on_secret (userID id : string) : list (@Option_ secret_payload) :=
  [WithActor (mkActor "user" userID); WithResource (mkResource "secret" id)].


(** ** Internal helpers *)
Definition authorize_secret (orgID userID projectID action : string) : SM unit :=
  let* role := on_err (WithTenant orgID (memberLookup_GetByUser projectID userID))
    (λ e, if IsNotFound e then Forbidden "not a project member" else e) in
  check (Authorize NewPolicyAuthorizer
    (mkPrincipal userID orgID [] {[projectID := role]}) (mkAccess action orgID projectID)).

(** The error is only logged. *)
Definition logAccess (orgID secretID action : string) (userID : option string) : SM unit :=
  let* _ := try (accessLogRepo_Create (mkLog "" orgID secretID action userID 0 None)) in
  ret tt.

Section Service.
Context (encryptor : Encryptor) (rand : nat → option (list Z)) `{CursorJSON}.

(** [io.ReadFull(rand.Reader, nonce)]; draws are numbered like identifiers. *)
Definition rand_Read : SM (option (list Z)) := λ s,
  (Ok (rand (uuid_next s)), set_uuid_next (S (uuid_next s)) s).

Definition encrypt_value (value : string) : SM (list Z) :=
  let* nonce := rand_Read in
  match EncryptString encryptor nonce value with
  | Err _ => fail (Internal "failed to encrypt secret")
  | Ok encrypted => ret encrypted
  end.

(** ** Operations *)
Definition Service_CreateSecret (orgID userID projectID : string) (req : CreateSecretRequest)
    : SM Secret :=
  let* _ := check (validateSecretName (cs_name req)) in
  let* _ := check (validateSecretValue (cs_value req)) in
  let* _ := authorize_secret orgID userID projectID ActionWriteSecrets in
  let* encrypted := encrypt_value (cs_value req) in
  let secret := mkSec "" 0 0 0 orgID projectID (cs_name req) (GoStrings.TrimSpace <$> cs_desc req)
    encrypted (HashValue (cs_value req)) (Some userID) None None in
  WithTenant orgID (
    let* existing := try (secretRepo_GetByName projectID (cs_name req)) in
    let* _ := match existing with
              | Ok _ => fail (Conflict ("secret with name '" +:+ cs_name req +:+ "' already exists"))
              | Err e => if IsNotFound e then ret tt else fail e
              end in
    let* secret := secretRepo_Create secret in
    logAccess (sec_org secret) (sec_id secret) ActionCreated (Some userID) ;;
    enqueue_secret EventSecretCreated orgID
      (secretCreatedPayload (sec_id secret) projectID (sec_name secret) (sec_version secret))
      (on_secret userID (sec_id secret)) ;;
    ret secret).

(** The secret at an id, in its project. *)
Definition project_secret (projectID secretID : string) : SM Secret :=
  let* secret := secretRepo_GetByID secretID in
  if negb (String.eqb (sec_project secret) projectID) then fail (NotFound "secret not found")
  else ret secret.

Definition Service_GetSecret (orgID userID projectID secretID : string) : SM Secret :=
  let* _ := authorize_secret orgID userID projectID ActionReadSecrets in
  WithTenant orgID (project_secret projectID secretID).

Definition Service_ListSecrets (orgID userID projectID : string) (page : PageRequest)
    : SM (Page Secret) :=
  let* _ := authorize_secret orgID userID projectID ActionReadSecrets in
  WithTenant orgID (secretRepo_List projectID page).

Definition Service_UpdateSecret (orgID userID projectID secretID : string)
    (req : UpdateSecretRequest) : SM Secret :=
  let* _ := authorize_secret orgID userID projectID ActionWriteSecrets in
  let* _ := check (v ← us_value req; validateSecretValue v) in
  WithTenant orgID (
    let* secret := project_secret projectID secretID in
    let desc := match us_desc req with
                | Some d => Some (GoStrings.TrimSpace d)
                | None => sec_desc secret
                end in
    let* sealed := match us_value req with
                   | None => ret (sec_value secret, sec_hash secret)
                   | Some v => let* encrypted := encrypt_value v in ret (encrypted, HashValue v)
                   end in
    let* secret := secretRepo_Update
      (mkSec (sec_id secret) (sec_created secret) (sec_updated secret) (sec_version secret)
         (sec_org secret) (sec_project secret) (sec_name secret) desc sealed.1 sealed.2
         (sec_created_by secret) (Some userID) (sec_deleted secret)) in
    logAccess (sec_org secret) (sec_id secret) ActionUpdated (Some userID) ;;
    enqueue_secret EventSecretUpdated orgID
      (secretUpdatedPayload (sec_id secret) projectID (sec_name secret) (sec_version secret))
      (on_secret userID (sec_id secret)) ;;
    ret secret).

Definition Service_DeleteSecret (orgID userID projectID secretID : string) : SM unit :=
  let* _ := authorize_secret orgID userID projectID ActionManageSecrets in
  WithTenant orgID (
    let* secret := project_secret projectID secretID in
    secretRepo_Delete secretID ;;
    logAccess (sec_org secret) (sec_id secret) ActionDeleted (Some userID) ;;
    enqueue_secret EventSecretDeleted orgID
      (secretDeletedPayload secretID projectID (sec_name secret) userID)
      (on_secret userID secretID)).

(** ** Agents *)

(** A secret that cannot be decrypted is skipped. *)
Definition decrypted (s : Secret) : option AgentSecret :=
  match DecryptString encryptor (sec_value s) with
  | Err _ => None
  | Ok value => Some (mkAgentSecret (sec_project s) (sec_name s) value (sec_version s))
  end.
Definition Service_GetSecretsForCluster (orgID clusterID : string) : SM (list AgentSecret) :=
  if String.eqb orgID "" then fail ErrInvalidOrgID
  else
    let* secrets := WithTenant orgID (secretRepo_GetSecretsForCluster orgID clusterID) in
    ret (omap decrypted secrets).

(** [clusterValidatorImpl.ValidateCluster], on the pool. *)
Definition secrets_ValidateCluster (bypassrls : bool) (clusterID agentID : string) : SM string :=
  let* row := on_err (autocommit (QueryRow (λ o db,
      match sd_clusters db !! clusterID with
      | Some c => if pool_sees bypassrls o (cl_org c) then [c] else []
      | None => []
      end))) (λ _, Unauthorized "cluster not found") in
  if negb (String.eqb (cl_status row) "connected") then fail (Unauthorized "cluster not connected")
  else if match cl_agent row with Some a => String.eqb a agentID | None => false end
  then ret (cl_org row)
  else fail (Unauthorized "invalid agent credentials").

(** [AgentAuthMiddleware] and [GetSecrets]: the headers and the path. *)
Definition Agent_GetSecrets (bypassrls : bool) (hdr_cluster hdr_agent path_cluster : string)
    : SM (list AgentSecret) :=
  if String.eqb hdr_cluster "" then fail (Unauthorized "missing X-Cluster-ID header")
  else if String.eqb hdr_agent "" then fail (Unauthorized "missing X-Agent-ID header")
  else
    let* orgID := secrets_ValidateCluster bypassrls hdr_cluster hdr_agent in
    if negb (String.eqb path_cluster hdr_cluster) then fail (Forbidden "cluster ID mismatch")
    else Service_GetSecretsForCluster orgID path_cluster.

(** The route as the server has it: [RegisterRoutes], called before
    [RegisterAgentRoutes], puts [RequireAuth] on everything below /v1, so that a
    user's access token is required of an agent, too. *)
Definition serve_agent_secrets (verify : string → option string) (bypassrls : bool)
    (authorization hdr_cluster hdr_agent path_cluster : string) : SM (list AgentSecret) :=
  RequireAuth verify authorization
    (λ _, Agent_GetSecrets bypassrls hdr_cluster hdr_agent path_cluster).

(** ** handlers.go and routes.go *)
Inductive SecretRequest :=
| PostSecret (org project : string) (b : option CreateSecretRequest)
| ListSecretsReq (org project : string) (page : PageRequest)
| GetSecretReq (org project secret : string)
| PatchSecret (org project secret : string) (b : option UpdateSecretRequest)
| DeleteSecretReq (org project secret : string).

Inductive SBody := SBNone | SBSecret (v : SecretView) | SBSecrets (l : SecretListView).
Record SResponse := mkSResponse { sr_status_code : Z; sr_body : SBody }.

Definition srequire (org project : string) : SM unit :=
  if String.eqb org "" then fail (Validation "organization ID is required")
  else if String.eqb project "" then fail (Validation "project ID is required")
  else ret tt.

Definition secret_list_view (page : Page Secret) : SecretListView :=
  let views := ToView <$> Items page in
  mkSecList views (Z.of_nat (length views)) (negb (String.eqb (NextCursor page) "")) (NextCursor page).

Definition serve_secrets (user : string) (r : SecretRequest) : SM SResponse :=
  match r with
  | PostSecret org project b =>
      let* _ := srequire org project in
      let* req := parseBody b in
      let* s := Service_CreateSecret org user project req in
      ret (mkSResponse 201 (SBSecret (ToView s)))
  | ListSecretsReq org project page =>
      let* _ := srequire org project in
      let* p := Service_ListSecrets org user project page in
      ret (mkSResponse 200 (SBSecrets (secret_list_view p)))
  | GetSecretReq org project secret =>
      let* _ := srequire org project in
      let* s := Service_GetSecret org user project secret in
      ret (mkSResponse 200 (SBSecret (ToView s)))
  | PatchSecret org project secret b =>
      let* _ := srequire org project in
      let* req := parseBody b in
      let* s := Service_UpdateSecret org user project secret req in
      ret (mkSResponse 200 (SBSecret (ToView s)))
  | DeleteSecretReq org project secret =>
      let* _ := srequire org project in
      let* _ := Service_DeleteSecret org user project secret in
      ret (mkSResponse 204 SBNone)
  end.
End Service.

Definition secret_request_org (r : SecretRequest) : string :=
  match r with
  | PostSecret o _ _ | ListSecretsReq o _ _ | GetSecretReq o _ _ | PatchSecret o _ _ _
  | DeleteSecretReq o _ _ => o
  end.
Definition secret_request_project (r : SecretRequest) : string :=
  match r with
  | PostSecret _ p _ | ListSecretsReq _ p _ | GetSecretReq _ p _ | PatchSecret _ p _ _
  | DeleteSecretReq _ p _ => p
  end.
