(* ===== verification/SecretPrivacy.v ===== *)
(** * Nothing about a secret's value leaks to users

    [erase] blanks the ciphertext and the hash of a row.  Every request of a
    user is a computation that two databases equal after erasure, two plaintexts
    and even two master keys cannot influence: the response, the identifiers
    drawn, the events and the access log are the same ([serve_secrets_sim]). *)

From S2P Require Import Prelude Json Aes AppErrors Tx Events Domain Pagination Authz Http.
From S2P Require Import Relational SecretStore SecretService.
Open Scope Z_scope.
Open Scope tx_scope.
#[local] Opaque Sha256.Sum256 Seal.

Definition erase (x : Secret) : Secret :=
  mkSec (sec_id x) (sec_created x) (sec_updated x) (sec_version x) (sec_org x) (sec_project x)
    (sec_name x) (sec_desc x) [] "" (sec_created_by x) (sec_updated_by x) (sec_deleted x).
Definition erase_db (db : SDB) : SDB := set_secrets (erase <$> sd_secrets db) db.

(** Databases, secrets and lists of them that only differ in what is erased. *)
Definition same_db (d1 d2 : SDB) : Prop := erase_db d1 = erase_db d2.
Definition same_secret (x y : Secret) : Prop := erase x = erase y.
Definition same_secrets (l1 l2 : list Secret) : Prop := erase <$> l1 = erase <$> l2.

Abbreviation ssim := (sim (W := unit) same_db).

Lemma same_db_secrets d1 d2 : same_db d1 d2 → erase <$> sd_secrets d1 = erase <$> sd_secrets d2.
Proof. unfold same_db, erase_db, set_secrets. by intros [= ?]. Qed.

(** ** Statements *)
Lemma read_sim {A B} (g : A → B) (q h : string → SDB → A) :
  (∀ o d, g (q o d) = g (q o (erase_db d))) →
  ssim (λ a b, g a = g b) (stmt (λ o _ db, inr (q o db, db))) (stmt (λ o _ db, inr (q o db, db))).
Proof.
  intros Hq. apply sim_query. intros o d1 d2 Hd. by rewrite (Hq o d1), (Hq o d2), Hd.
Qed.
Lemma QueryRow_secret_sim (q : string → SDB → list Secret) :
  (∀ o d, erase <$> q o d = q o (erase_db d)) → ssim same_secret (QueryRow q) (QueryRow q).
Proof.
  intros Hq. apply sim_QueryRow. intros o d1 d2 Hd.
  assert (He : erase <$> q o d1 = erase <$> q o d2) by (by rewrite !Hq, Hd).
  by apply Forall2_blank.
Qed.

Lemma GetByID_sim id : ssim same_secret (secretRepo_GetByID id) (secretRepo_GetByID id).
Proof.
  apply sim_on_err, QueryRow_secret_sim. intros o d. simpl. rewrite row_at_fmap by done.
  destruct (row_at _ _ _ _) as [x|]; simpl; [|done]. change (undeleted (erase x)) with (undeleted x).
  by destruct (undeleted x).
Qed.
Lemma GetByName_sim project name :
  ssim same_secret (secretRepo_GetByName project name) (secretRepo_GetByName project name).
Proof.
  apply sim_on_err, QueryRow_secret_sim. intros o d. simpl. by rewrite rows_where_fmap.
Qed.

Lemma erase_insert id x o now d :
  blank_row erase erase_db (insert_secret id x o now d) = insert_secret id (erase x) o now (erase_db d).
Proof.
  unfold insert_secret. simpl. rewrite is_Some_fmap, rows_where_fmap, existsb_fmap by done.
  destruct (visible o (sec_org x)); simpl; [|done].
  destruct (bool_decide _ || _); simpl; [done|]. destruct (_ || _); simpl; [done|].
  unfold erase_db at 1, set_secrets. simpl. rewrite fmap_insert. done.
Qed.
Lemma Create_sim x y : same_secret x y → ssim same_secret (secretRepo_Create x) (secretRepo_Create y).
Proof.
  intros Hxy. eapply sim_bind; [apply sim_uuid|]. intros id ? <-. apply sim_on_err.
  apply (sim_blank erase_db _ _ _ _ (insert_secret id (erase x)));
    intros o now d; [|rewrite Hxy]; apply erase_insert.
Qed.

Lemma erase_update x o now d :
  blank_row id erase_db (update_secret x o now d) = update_secret (erase x) o now (erase_db d).
Proof.
  unfold update_secret. simpl. rewrite row_at_fmap by done.
  destruct (row_at _ _ _ _) as [r|]; simpl; [|done].
  change (undeleted (erase r)) with (undeleted r).
  destruct (_ && _); simpl; [|done]. unfold erase_db at 1, set_secrets. simpl. by rewrite fmap_insert.
Qed.
Lemma Update_sim x y : same_secret x y → ssim same_secret (secretRepo_Update x) (secretRepo_Update y).
Proof.
  intros Hxy. eapply sim_bind.
  - apply sim_on_err. apply (sim_blank erase_db id id _ _ (update_secret (erase x)));
      intros o now d; [|rewrite Hxy]; apply erase_update.
  - unfold id. intros [[v u]|] ? <-; [|apply sim_fail]. apply sim_ret. unfold same_secret, erase in *.
    injection Hxy as ??????????. simpl. congruence.
Qed.

Lemma erase_remove sid o now d :
  blank_row id erase_db (remove_secret sid o now d) = remove_secret sid o now (erase_db d).
Proof.
  unfold remove_secret. simpl. rewrite row_at_fmap by done.
  destruct (row_at _ _ _ _) as [r|]; simpl; [|done].
  change (undeleted (erase r)) with (undeleted r).
  destruct (undeleted r); simpl; [|done]. unfold erase_db at 1, set_secrets. simpl. by rewrite fmap_insert.
Qed.
Lemma Delete_sim sid : ssim eq (secretRepo_Delete sid) (secretRepo_Delete sid).
Proof.
  eapply (sim_bind _ eq); [|intros n ? <-; apply sim_require_rows].
  apply sim_on_err. apply (sim_blank erase_db id id _ _ (remove_secret sid)); intros; apply erase_remove.
Qed.

Lemma erase_log lid l o now d :
  blank_row id erase_db (insert_log lid l o now d) = insert_log lid l o now (erase_db d).
Proof.
  unfold insert_log. simpl. rewrite is_Some_fmap.
  repeat (destruct (negb _) || destruct (bool_decide _)); try done.
Qed.
Lemma logAccess_sim o sid action by_ : ssim eq (logAccess o sid action by_) (logAccess o sid action by_).
Proof.
  eapply sim_bind; [apply sim_try|intros; by apply sim_ret].
  eapply sim_bind; [apply sim_uuid|]. intros lid ? <-.
  apply (sim_blank erase_db id id _ _ (insert_log lid (mkLog "" o sid action by_ 0 None)));
    intros; apply erase_log.
Qed.

Lemma enqueue_sim ty o p opts : ssim eq (enqueue_secret ty o p opts) (enqueue_secret ty o p opts).
Proof.
  apply sim_emit. intros d1 d2 Hd. unfold same_db, erase_db, set_secrets in *. simpl.
  injection Hd as ?????????. split; [done|]. intros l. simpl. congruence.
Qed.

Lemma memberLookup_sim project user :
  ssim eq (memberLookup_GetByUser project user) (memberLookup_GetByUser project user).
Proof.
  apply sim_on_err, sim_QueryRow. intros o d1 d2 Hd. apply (Forall2_blank id).
  injection Hd as ?????????. by replace (sd_members d1) with (sd_members d2) by congruence.
Qed.
Lemma authorize_sim o user project action :
  ssim eq (authorize_secret o user project action) (authorize_secret o user project action).
Proof.
  eapply sim_bind; [apply sim_on_err, sim_WithTenant, memberLookup_sim|]. intros role ? <-.
  apply sim_check.
Qed.

(** ** Listing *)
Lemma erase_select rows cur limit :
  erase <$> select_secrets rows cur limit = select_secrets (erase <$> rows) cur limit.
Proof.
  unfold select_secrets, order_desc. rewrite fmap_take. f_equal.
  destruct cur as [c|]; [rewrite filter_fmap by done|]; by rewrite merge_sort_fmap.
Qed.
Definition same_page (p1 p2 : Page Secret) : Prop :=
  same_secrets (Items p1) (Items p2) ∧ NextCursor p1 = NextCursor p2.

Lemma same_secrets_take n l1 l2 : same_secrets l1 l2 → same_secrets (take n l1) (take n l2).
Proof. unfold same_secrets. intros H. by rewrite !fmap_take, H. Qed.
Lemma same_secrets_cursor l1 l2 : same_secrets l1 l2 → secret_cursor <$> last l1 = secret_cursor <$> last l2.
Proof.
  unfold same_secrets. intros H%(f_equal last). rewrite !fmap_last in H.
  destruct (last l1) as [x|], (last l2) as [y|]; try done. simpl in *. injection H as ???????????.
  unfold secret_cursor. congruence.
Qed.

Lemma List_sim `{CursorJSON} project page :
  ssim same_page (secretRepo_List project page) (secretRepo_List project page).
Proof.
  unfold secretRepo_List. set (limit := Z.to_nat _).
  assert (Hrun : ∀ cur, ssim same_page
    (let* secrets := on_err (stmt (λ o _ db, inr (select_secrets
        (rows_where (λ s, visible o (sec_org s) && String.eqb (sec_project s) project && undeleted s)
           (sd_secrets db)) cur (S limit), db))) MapError in
     if (limit <? length secrets)%nat then
       ret (mkPage (take limit secrets) (match last (take limit secrets) with
             | Some s => EncodeCursor (secret_cursor s) | None => "" end))
     else ret (mkPage secrets ""))
    (let* secrets := on_err (stmt (λ o _ db, inr (select_secrets
        (rows_where (λ s, visible o (sec_org s) && String.eqb (sec_project s) project && undeleted s)
           (sd_secrets db)) cur (S limit), db))) MapError in
     if (limit <? length secrets)%nat then
       ret (mkPage (take limit secrets) (match last (take limit secrets) with
             | Some s => EncodeCursor (secret_cursor s) | None => "" end))
     else ret (mkPage secrets ""))).
  { intros cur. eapply (sim_bind _ same_secrets).
    - apply sim_on_err. apply sim_query. intros o d1 d2 Hd%same_db_secrets. unfold same_secrets.
      rewrite !erase_select, <- !rows_where_fmap by done. by rewrite Hd.
    - intros l1 l2 Hl. pose proof (f_equal length Hl) as Hlen. rewrite !length_fmap in Hlen.
      rewrite Hlen. destruct (limit <? length l2)%nat; apply sim_ret; (split; simpl; [|]); try done.
      + by apply same_secrets_take.
      + pose proof (same_secrets_cursor _ _ (same_secrets_take limit _ _ Hl)) as Hc.
        destruct (last (take limit l1)), (last (take limit l2)); try done. injection Hc as Hc1 Hc2.
        unfold secret_cursor. by rewrite Hc1, Hc2. }
  destruct (String.eqb _ ""); [apply Hrun|]. destruct (DecodeCursor _); [apply Hrun|apply sim_fail].
Qed.

(** ** The service *)

(** Plaintexts that pass or fail the same check. *)
Definition same_validity (v w : string) : Prop := validateSecretValue v = validateSecretValue w.

(** Requests that only differ in a plaintext. *)
Inductive same_request : SecretRequest → SecretRequest → Prop :=
| sr_post o p name v w desc : same_validity v w →
    same_request (PostSecret o p (Some (mkCreateSec name v desc)))
      (PostSecret o p (Some (mkCreateSec name w desc)))
| sr_patch o p sid v w desc : same_validity v w →
    same_request (PatchSecret o p sid (Some (mkUpdateSec (Some v) desc)))
      (PatchSecret o p sid (Some (mkUpdateSec (Some w) desc)))
| sr_same r : same_request r r.

Section Service.
Context (e1 e2 : Encryptor) (rand : nat → option (list Z)) `{CursorJSON}.

(** A failure only depends on the random source. *)
Lemma encrypt_sim v w : ssim (λ _ _, True) (encrypt_value e1 rand v) (encrypt_value e2 rand w).
Proof using.
  unfold encrypt_value. eapply (sim_bind _ eq).
  - intros s1 s2 (a & b & o & ab & fs & g & n & c & u & -> & -> & HL)%low_inv.
    split; [by constructor|by apply low_intro].
  - intros nonce ? <-. unfold EncryptString, Encrypt. destruct nonce; [by apply sim_ret|apply sim_fail].
Qed.

Lemma project_secret_sim project sid : ssim same_secret (project_secret project sid) (project_secret project sid).
Proof using.
  eapply sim_bind; [apply GetByID_sim|]. intros x y Hxy.
  replace (sec_project y) with (sec_project x) by (by unfold same_secret, erase in Hxy; congruence).
  case_match; [apply sim_fail|by apply sim_ret].
Qed.

(** The end of a change: the log, the event and the answer. *)
Lemma audit_sim o user action ty (p : Secret → secret_payload) x y :
  same_secret x y → p x = p y →
  ssim same_secret
    (logAccess (sec_org x) (sec_id x) action (Some user) ;;
     enqueue_secret ty o (p x) (on_secret user (sec_id x)) ;; ret x)
    (logAccess (sec_org y) (sec_id y) action (Some user) ;;
     enqueue_secret ty o (p y) (on_secret user (sec_id y)) ;; ret y).
Proof using.
  intros Hxy Hp. pose proof Hxy as Heq. unfold same_secret, erase in Heq. rewrite Hp.
  replace (sec_org y) with (sec_org x) by congruence. replace (sec_id y) with (sec_id x) by congruence.
  eapply sim_bind; [apply logAccess_sim|intros _ _ _]. eapply sim_bind; [apply enqueue_sim|intros _ _ _].
  by apply sim_ret.
Qed.

Lemma CreateSecret_sim o user project name v w desc : same_validity v w →
  ssim same_secret (Service_CreateSecret e1 rand o user project (mkCreateSec name v desc))
    (Service_CreateSecret e2 rand o user project (mkCreateSec name w desc)).
Proof using.
  intros Hv. unfold Service_CreateSecret. simpl. rewrite Hv.
  do 2 (eapply sim_bind; [apply sim_check|intros _ _ _]).
  eapply sim_bind; [apply authorize_sim|intros _ _ _].
  eapply sim_bind; [apply encrypt_sim|intros c1 c2 _]. apply sim_WithTenant.
  eapply sim_bind; [apply sim_try, GetByName_sim|intros r1 r2 Hr]. eapply (sim_bind _ eq).
  { destruct Hr; [apply sim_fail|]. case_match; [by apply sim_ret|apply sim_fail]. }
  intros _ _ _. eapply sim_bind; [by apply Create_sim|]. intros x y Hxy.
  apply (audit_sim o user ActionCreated EventSecretCreated
    (λ x, secretCreatedPayload (sec_id x) project (sec_name x) (sec_version x))); [done|].
  unfold same_secret, erase in Hxy. congruence.
Qed.

Lemma UpdateSecret_sim o user project sid (v w : option string) desc :
  (validateSecretValue <$> v) = (validateSecretValue <$> w) →
  ssim same_secret (Service_UpdateSecret e1 rand o user project sid (mkUpdateSec v desc))
    (Service_UpdateSecret e2 rand o user project sid (mkUpdateSec w desc)).
Proof using.
  intros Hv. unfold Service_UpdateSecret. simpl.
  eapply sim_bind; [apply authorize_sim|intros _ _ _].
  replace (w ≫= validateSecretValue) with (v ≫= validateSecretValue)
    by (destruct v, w; simpl in *; congruence).
  eapply sim_bind; [apply sim_check|intros _ _ _]. apply sim_WithTenant.
  eapply sim_bind; [apply project_secret_sim|intros x y Hxy].
  eapply (sim_bind _ (λ _ _, True)).
  { destruct v, w; try done; [|by apply sim_ret].
    eapply sim_bind; [apply encrypt_sim|intros; by apply sim_ret]. }
  intros c1 c2 _. eapply sim_bind.
  { apply Update_sim. unfold same_secret, erase in *. simpl. injection Hxy as ???????????.
    destruct desc; congruence. }
  intros x' y' Hxy'.
  apply (audit_sim o user ActionUpdated EventSecretUpdated
    (λ x, secretUpdatedPayload (sec_id x) project (sec_name x) (sec_version x))); [done|].
  unfold same_secret, erase in Hxy'. congruence.
Qed.

Lemma DeleteSecret_sim o user project sid :
  ssim eq (Service_DeleteSecret o user project sid) (Service_DeleteSecret o user project sid).
Proof using.
  eapply sim_bind; [apply authorize_sim|intros _ _ _]. apply sim_WithTenant.
  eapply sim_bind; [apply project_secret_sim|intros x y Hxy]. unfold same_secret, erase in Hxy.
  eapply sim_bind; [apply Delete_sim|intros _ _ _].
  replace (sec_org y) with (sec_org x) by congruence. replace (sec_id y) with (sec_id x) by congruence.
  replace (sec_name y) with (sec_name x) by congruence.
  eapply sim_bind; [apply logAccess_sim|intros _ _ _]. apply enqueue_sim.
Qed.

Lemma ToView_same x y : same_secret x y → ToView x = ToView y.
Proof using. intros Hxy. change (ToView (erase x) = ToView (erase y)). by rewrite Hxy. Qed.
Lemma list_view_same p1 p2 : same_page p1 p2 → secret_list_view p1 = secret_list_view p2.
Proof using.
  intros [Hi Hc]. unfold secret_list_view. rewrite Hc.
  assert (Hv : ToView <$> Items p1 = ToView <$> Items p2).
  { apply (f_equal (fmap ToView)) in Hi. by rewrite <- !list_fmap_compose in Hi. }
  by rewrite Hv.
Qed.

Lemma sim_idle {A} (m : SM A) : (∀ s, (m s).2 = s) → (∀ s1 s2, (m s1).1 = (m s2).1) → ssim eq m m.
Proof using.
  intros Hs Hr s1 s2 Hl. rewrite !Hs, (Hr s1 s2). split; [|done].
  destruct ((m s2).1); by constructor.
Qed.
Lemma srequire_sim o project : ssim eq (srequire o project) (srequire o project).
Proof using. apply sim_idle; intros; unfold srequire; by repeat case_match. Qed.
Lemma parseBody_sim {A} (b : option A) : ssim eq (parseBody b) (parseBody b).
Proof using. apply sim_idle; intros; by destruct b. Qed.

Lemma respond_sim {A} (R : A → A → Prop) (m1 m2 : SM A) (f : A → SResponse) :
  ssim R m1 m2 → (∀ x y, R x y → f x = f y) →
  ssim eq (let* x := m1 in ret (f x)) (let* x := m2 in ret (f x)).
Proof using. intros Hm Hf. eapply sim_bind; [exact Hm|]. intros. apply sim_ret. auto. Qed.

Lemma serve_secrets_sim user r1 r2 : same_request r1 r2 →
  ssim eq (serve_secrets e1 rand user r1) (serve_secrets e2 rand user r2).
Proof using.
  assert (Hview : ∀ z x y, same_secret x y → mkSResponse z (SBSecret (ToView x)) = mkSResponse z (SBSecret (ToView y)))
    by (intros z x y Hxy; by rewrite (ToView_same x y)).
  intros [o p name v w desc Hv|o p sid v w desc Hv|[o p b|o p pg|o p sid|o p sid b|o p sid]]; simpl;
    (eapply sim_bind; [apply srequire_sim|intros _ _ _]).
  - eapply respond_sim; [by apply CreateSecret_sim|apply Hview].
  - eapply respond_sim; [apply UpdateSecret_sim; simpl; by rewrite Hv|apply Hview].
  - eapply sim_bind; [apply parseBody_sim|intros [name v desc] ? <-].
    eapply respond_sim; [by apply CreateSecret_sim|apply Hview].
  - eapply respond_sim; [eapply sim_bind; [apply authorize_sim|intros _ _ _; apply sim_WithTenant, List_sim]|].
    intros x y Hxy. by rewrite (list_view_same x y).
  - eapply respond_sim; [|apply Hview].
    eapply sim_bind; [apply authorize_sim|intros _ _ _; apply sim_WithTenant, project_secret_sim].
  - eapply sim_bind; [apply parseBody_sim|intros [v desc] ? <-].
    eapply respond_sim; [by apply UpdateSecret_sim|apply Hview].
  - eapply (sim_bind _ eq); [apply DeleteSecret_sim|intros; by apply sim_ret].
Qed.
End Service.
