(* ===== verification/SecretSpec.v ===== *)
(** * The abstract state machine of the secrets

    What the secrets service may do to its tables, as a step relation [schange]
    on the database, the invariant [swf] of its states and the history [skept]
    every step respects.  [sealed] says that a stored value is the encryption of
    a plaintext under the master key, and which. *)

From S2P Require Import Prelude Json Aes AppErrors Tx Events Domain Pagination Authz.
From S2P Require Import SecretStore SecretService.
Open Scope Z_scope.
#[local] Opaque Sha256.Sum256 Seal Open.

(** ** Encryption *)
Definition valid_value (v : string) : Prop := (0 < String.length v)%nat ∧ Z.of_nat (String.length v) ≤ 65536.

(** [c] is [v] encrypted under [key] with some nonce. *)
Definition encrypts (key : list Z) (v : string) (c : list Z) : Prop :=
  ∃ nonce, length nonce = nonceSize ∧ c = nonce ++ Seal key nonce (Base64.bytes v).

Definition sealed (key : list Z) (v : string) (s : Secret) : Prop :=
  valid_value v ∧ encrypts key v (sec_value s) ∧ sec_hash s = HashValue v.

Section Encryption.
Context (e : Encryptor) (Hkey : length (enc_key e) = keySize).

Lemma length_bytes v : length (Base64.bytes v) = String.length v.
Proof. induction v as [|a v IH]; simpl; [done|by rewrite IH]. Qed.

Lemma DecryptString_encrypts v c : encrypts (enc_key e) v c → DecryptString e c = Ok v.
Proof using Hkey.
  intros (nonce & Hn & ->). unfold DecryptString, Decrypt.
  rewrite length_app, Seal_length, Hn by done. change nonceSize with 12%nat in *.
  change tagSize with 16%nat. destruct (Nat.ltb_spec (12 + (length (Base64.bytes v) + 16)) (12 + 16)); [lia|].
  rewrite take_app_length', drop_app_length', Open_Seal by done. simpl. by rewrite Base64.text_bytes.
Qed.

(** Only what was encrypted under the key can be decrypted. *)
Lemma Decrypt_inv c p : Decrypt e c = Ok p → ∃ nonce, length nonce = nonceSize ∧
  c = nonce ++ Seal (enc_key e) nonce p.
Proof using Hkey.
  unfold Decrypt. destruct (Nat.ltb_spec (length c) (nonceSize + tagSize)); [done|].
  assert (Hn : length (take nonceSize c) = nonceSize) by (rewrite length_take; lia).
  destruct (Open _ _ _) as [q|] eqn:Ho; [|done]. intros [= <-].
  apply Open_inv in Ho; [|done..]. exists (take nonceSize c). split; [done|].
  by rewrite <- Ho, take_drop.
Qed.
End Encryption.

(** ** Single-row updates *)
Definition put_sec (k : string) (s : Secret) (db : SDB) : SDB :=
  set_secrets (<[k := s]> (sd_secrets db)) db.
Definition put_log (k : string) (l : SecretAccessLog) (db : SDB) : SDB :=
  set_logs (<[k := l]> (sd_logs db)) db.

Definition name_unused (project name : string) (db : SDB) : Prop :=
  ∀ k s, sd_secrets db !! k = Some s → undeleted s = true →
    ¬ (sec_project s = project ∧ sec_name s = name).

Section Machine.
Context (key : list Z).

(** ** Steps, in the tenant [o] at time [now] *)
Inductive schange (o : string) (now : Z) (db : SDB) : SDB → Prop :=
| sc_event row :
    OrgID (ob_event row) = o → Validate (ob_event row) = None → new_in row db →
    schange o now db (append_row row db)
| sc_log l :
    al_org l = o → sd_logs db !! al_id l = None → is_Some (sd_secrets db !! al_secret l) →
    schange o now db (put_log (al_id l) l db)
| sc_new s v :
    sec_org s = o → sd_secrets db !! sec_id s = None → name_unused (sec_project s) (sec_name s) db →
    secretNamePattern (sec_name s) = true → sealed key v s → sec_version s = 1 →
    sec_deleted s = None → schange o now db (put_sec (sec_id s) s db)
(** New contents, or the old ones with a new description. *)
| sc_edit k s e v :
    sd_secrets db !! k = Some s → sec_org s = o → undeleted s = true → sealed key v e →
    schange o now db (put_sec k (sec_edit e now s) db)
| sc_delete k s :
    sd_secrets db !! k = Some s → sec_org s = o → undeleted s = true →
    schange o now db (put_sec k (sec_removed now s) db).

(** ** The invariant *)
Record swf (db : SDB) : Prop := {
  sw_key k s : sd_secrets db !! k = Some s → sec_id s = k;
  sw_name k s : sd_secrets db !! k = Some s → secretNamePattern (sec_name s) = true;
  sw_unique k1 s1 k2 s2 : sd_secrets db !! k1 = Some s1 → sd_secrets db !! k2 = Some s2 →
    undeleted s1 = true → undeleted s2 = true →
    sec_project s1 = sec_project s2 → sec_name s1 = sec_name s2 → k1 = k2;
  sw_version k s : sd_secrets db !! k = Some s → 1 ≤ sec_version s;
  (** Every stored value decrypts, to what its hash is the hash of. *)
  sw_sealed k s : sd_secrets db !! k = Some s → ∃ v, sealed key v s;
  sw_logs k l : sd_logs db !! k = Some l → is_Some (sd_secrets db !! al_secret l);
  sw_outbox : NoDup (ob_id <$> sd_outbox db) ∧ NoDup (EventID ∘ ob_event <$> sd_outbox db) ∧
    Forall (λ row, Validate (ob_event row) = None) (sd_outbox db) }.

(** ** The history *)
Record sec_kept (s s' : Secret) : Prop := {
  sk_id : sec_id s' = sec_id s;
  sk_org : sec_org s' = sec_org s;
  sk_project : sec_project s' = sec_project s;
  sk_name : sec_name s' = sec_name s;
  sk_creator : sec_created_by s' = sec_created_by s ∧ sec_created s' = sec_created s;
  sk_version : sec_version s ≤ sec_version s';
  (** The contents only change with the version. *)
  sk_contents : sec_version s' = sec_version s → sec_value s' = sec_value s ∧ sec_hash s' = sec_hash s;
  sk_deleted : undeleted s = false → s' = s }.

Record skept (db db' : SDB) : Prop := {
  sp_secrets k s : sd_secrets db !! k = Some s → ∃ s', sd_secrets db' !! k = Some s' ∧ sec_kept s s';
  sp_logs k l : sd_logs db !! k = Some l → sd_logs db' !! k = Some l;
  sp_outbox : sd_outbox db `prefix_of` sd_outbox db';
  sp_rest : sd_orgs db' = sd_orgs db ∧ sd_projects db' = sd_projects db ∧
    sd_members db' = sd_members db ∧ sd_clusters db' = sd_clusters db ∧ sd_apps db' = sd_apps db ∧
    sd_deps db' = sd_deps db }.

#[export] Instance sec_kept_preorder : PreOrder sec_kept.
Proof.
  split; [by intros s; split|].
  intros s1 s2 s3 [A1 A2 A3 A4 [A5 A5'] A6 A7 A8] [B1 B2 B3 B4 [B5 B5'] B6 B7 B8].
  split; try congruence; try lia.
  - split; congruence.
  - intros Hv. destruct A7 as [<- <-]; [lia|]. apply B7. lia.
  - intros Hd. rewrite (A8 Hd) in *. auto.
Qed.
#[export] Instance skept_preorder : PreOrder skept.
Proof.
  split.
  - intros db. split; [|done..]. intros k s Hk. by exists s.
  - intros d1 d2 d3 [A1 A2 A3 (?&?&?&?&?&?)] [B1 B2 B3 (?&?&?&?&?&?)]. split.
    + intros k s (s' & (s'' & ? & ?)%B1 & ?)%A1. exists s''. split; [done|by etrans].
    + eauto.
    + by etrans.
    + split_and!; congruence.
Qed.

(** Rows of other tenants are untouched. *)
Record skept_apart (o : string) (db db' : SDB) : Prop := {
  sa_secrets k s : sec_org s ≠ o → sd_secrets db !! k = Some s ↔ sd_secrets db' !! k = Some s;
  sa_logs k l : al_org l ≠ o → sd_logs db !! k = Some l ↔ sd_logs db' !! k = Some l;
  sa_events : ∃ l, sd_outbox db' = sd_outbox db ++ l ∧ Forall (λ r, OrgID (ob_event r) = o) l }.
#[export] Instance skept_apart_preorder o : PreOrder (skept_apart o).
Proof.
  split.
  - intros db. split; [done..|]. exists []. by rewrite app_nil_r.
  - intros d1 d2 d3 [A1 A2 (l1 & A3 & A4)] [B1 B2 (l2 & B3 & B4)]. split.
    + intros k s Hs. by rewrite A1, B1.
    + intros k l Hl. by rewrite A2, B2.
    + exists (l1 ++ l2). by rewrite B3, A3, app_assoc, Forall_app.
Qed.

(** ** Preservation *)

(** A row replaced by one of the same identity. *)
Lemma swf_put db k s s' v :
  swf db → sd_secrets db !! k = Some s → sec_id s' = sec_id s → sec_project s' = sec_project s →
  sec_name s' = sec_name s → (undeleted s' = true → undeleted s = true) →
  sec_version s ≤ sec_version s' → sealed key v s' → swf (put_sec k s' db).
Proof.
  intros [W1 W2 W3 W4 W5 W6 W7] Hk Hid Hp Hn Hu Hv Hs.
  assert (Hl : ∀ j x, <[k := s']> (sd_secrets db) !! j = Some x → ∃ y,
    sd_secrets db !! j = Some y ∧ sec_id x = sec_id y ∧ sec_project x = sec_project y ∧
    sec_name x = sec_name y ∧ (undeleted x = true → undeleted y = true) ∧
    sec_version y ≤ sec_version x ∧ (∃ v, sealed key v x)).
  { intros j x [[<- <-]|[? Hj]]%lookup_insert_Some; [by eauto 10|].
    exists x. split_and!; try done; by eapply W5. }
  split; simpl.
  - intros j x (y & Hy & -> & _)%Hl. eauto.
  - intros j x (y & Hy & _ & _ & -> & _)%Hl. eauto.
  - intros k1 s1 k2 s2 (y1 & H1 & _ & -> & -> & U1 & _)%Hl (y2 & H2 & _ & -> & -> & U2 & _)%Hl ??.
    eauto.
  - intros j x (y & Hy & _ & _ & _ & _ & Hle & _)%Hl. specialize (W4 j y Hy). lia.
  - intros j x (_ & _ & _ & _ & _ & _ & _ & Hx)%Hl. done.
  - intros j l (x & Hx)%W6. destruct (decide (al_secret l = k)) as [->|].
    + exists s'. by rewrite lookup_insert_eq.
    + exists x. by rewrite lookup_insert_ne.
  - done.
Qed.

Lemma kept_put db k s s' :
  sd_secrets db !! k = Some s → sec_kept s s' → skept db (put_sec k s' db).
Proof.
  intros Hk Hs. split; simpl; try done. intros j x Hj. destruct (decide (j = k)) as [->|].
  - exists s'. rewrite lookup_insert_eq. by simplify_eq.
  - exists x. by rewrite lookup_insert_ne.
Qed.

(** A change of one row of the tenant is no change for the others. *)
Lemma insert_row_apart {A} (f : A → string) o (m : gmap string A) k a' :
  (∀ a, m !! k = Some a → f a = o) → f a' = o →
  ∀ j x, f x ≠ o → m !! j = Some x ↔ <[k := a']> m !! j = Some x.
Proof.
  intros Hold Hnew j x Hx. destruct (decide (j = k)) as [->|]; [|by rewrite lookup_insert_ne].
  rewrite lookup_insert_eq. split; [intros ?%Hold; done|intros [= ->]; done].
Qed.
Lemma apart_put o db k s' :
  (∀ s, sd_secrets db !! k = Some s → sec_org s = o) → sec_org s' = o →
  skept_apart o db (put_sec k s' db).
Proof.
  intros Hold Hnew. split; simpl; [by apply insert_row_apart|done|]. exists []. by rewrite app_nil_r.
Qed.

Lemma sec_edit_kept e now s : undeleted s = true → sec_kept s (sec_edit e now s).
Proof. intros Hu. split; simpl; try done; [lia|lia|congruence]. Qed.
Lemma sec_removed_kept now s : undeleted s = true → sec_kept s (sec_removed now s).
Proof. intros Hu. split; simpl; try done. congruence. Qed.

Lemma schange_sound o now db db' :
  schange o now db db' → swf db → swf db' ∧ skept db db' ∧ skept_apart o db db'.
Proof.
  intros [row Ho Hv Hn|l Ho Hfr Hsec|s v Ho Hfr Hun Hpat Hs Hver Hdel|k s e v Hk Ho Hu Hs|k s Hk Ho Hu] W.
  - split; [|split].
    + destruct W as [W1 W2 W3 W4 W5 W6 (N1 & N2 & N3)]. split; try done. simpl.
      rewrite !fmap_app, Forall_app. split_and!; [..|done|by constructor].
      * apply NoDup_app. split; [done|]. split; [|apply NoDup_singleton].
        intros x (y & -> & Hy)%list_elem_of_fmap Hx%list_elem_of_singleton. by destruct (Hn y Hy).
      * apply NoDup_app. split; [done|]. split; [|apply NoDup_singleton].
        intros x (y & -> & Hy)%list_elem_of_fmap Hx%list_elem_of_singleton. by destruct (Hn y Hy).
    + split; simpl; try done; [intros k s Hk; by exists s|by apply prefix_app_r].
    + split; [done..|]. exists [row]. by split; [|constructor].
  - split; [|split].
    + destruct W as [W1 W2 W3 W4 W5 W6 W7]. split; try done. simpl.
      intros k x [[<- <-]|[? Hk]]%lookup_insert_Some; [done|by eapply W6].
    + split; simpl; try done; [intros k s Hk; by exists s|].
      intros k x Hk. rewrite lookup_insert_ne; [done|]. congruence.
    + split; simpl; [done| |exists []; by rewrite app_nil_r].
      apply insert_row_apart; [|done]. intros x Hx. congruence.
  - split; [|split].
    + destruct W as [W1 W2 W3 W4 W5 W6 W7]. split; simpl; try done.
      * intros k x [[<- <-]|[? Hk]]%lookup_insert_Some; eauto.
      * intros k x [[<- <-]|[? Hk]]%lookup_insert_Some; eauto.
      * intros k1 s1 k2 s2 [[<- <-]|[? H1]]%lookup_insert_Some [[<- <-]|[? H2]]%lookup_insert_Some;
          [done|..|by eauto]; intros U1 U2 Hp Hn; exfalso; [eapply (Hun k2 s2)|eapply (Hun k1 s1)]; eauto.
      * intros k x [[<- <-]|[? Hk]]%lookup_insert_Some; [lia|eauto].
      * intros k x [[<- <-]|[? Hk]]%lookup_insert_Some; eauto.
      * intros k l (x & Hx)%W6. destruct (decide (al_secret l = sec_id s)) as [->|].
        -- exists s. by rewrite lookup_insert_eq.
        -- exists x. by rewrite lookup_insert_ne.
    + split; simpl; try done. intros k x Hk. exists x. rewrite lookup_insert_ne; [done|congruence].
    + apply apart_put; [|done]. intros x Hx. congruence.
  - split; [|split].
    + eapply swf_put; [done|exact Hk|done..|simpl; lia|]. by destruct Hs as (?&?&?).
    + by eapply kept_put, sec_edit_kept.
    + apply apart_put; [|done]. intros x Hx. congruence.
  - split; [|split].
    + destruct (sw_sealed _ W _ _ Hk) as (v & Hs).
      by eapply swf_put; [done|exact Hk|done..| |exact Hs].
    + by eapply kept_put, sec_removed_kept.
    + apply apart_put; [|done]. intros x Hx. congruence.
Qed.

Lemma schanges_sound o now db db' :
  rtc (schange o now) db db' → swf db → swf db' ∧ skept db db' ∧ skept_apart o db db'.
Proof.
  induction 1 as [db|db d2 db' Hs _ IH]; intros W; [done|].
  destruct (schange_sound _ _ _ _ Hs W) as (W2 & K & A). destruct (IH W2) as (W3 & K2 & A2).
  split_and!; [done|by etrans|by etrans].
Qed.
End Machine.
