(* ===== verification/SecretFacts.v ===== *)
(** * What the secrets service does

    Inversion lemmas for the statements of [SecretStore], and for each method
    that changes state its exact effect ([ensures]). *)

From S2P Require Import Prelude Json Aes AppErrors Tx Events Domain Pagination Authz Http Calls.
From S2P Require Import SecretStore SecretService SecretSpec.
Open Scope Z_scope.
Open Scope tx_scope.
#[local] Opaque Sha256.Sum256 Seal Open.

Implicit Types s : Sess SDB unit.

(** ** Reads *)
Lemma sec_GetByID_Ok id s x s' :
  secretRepo_GetByID id s = (Ok x, s') →
  sd_secrets (store s) !! id = Some x ∧ org s ≠ "" ∧ sec_org x = org s ∧ undeleted x = true ∧
  store s' = store s ∧ same_env s s'.
Proof.
  intros (Hst & He & Hx)%QueryRow_inv. destruct (Hx x eq_refl) as (l & Hq).
  destruct (row_at _ _ _ _) as [y|] eqn:Hr; [|done]. apply row_at_Some in Hr as (? & ? & ?).
  destruct (undeleted y) eqn:Hu; [|done]. injection Hq as -> _. done.
Qed.

Lemma project_secret_Ok project id s x s' :
  project_secret project id s = (Ok x, s') →
  sd_secrets (store s) !! id = Some x ∧ org s ≠ "" ∧ sec_org x = org s ∧ undeleted x = true ∧
  sec_project x = project ∧ store s' = store s ∧ same_env s s'.
Proof.
  unfold project_secret. intros H. inv_bind. apply sec_GetByID_Ok in Hm as (?&?&?&?&?&?).
  destruct (String.eqb_spec (sec_project x0) project); [|done]. by injection H as <- <-.
Qed.

(** ** Writes *)
Definition stamp_sec (id : string) (now : Z) (by_ : option string) (s : Secret) : Secret :=
  mkSec id now now 1 (sec_org s) (sec_project s) (sec_name s) (sec_desc s) (sec_value s) (sec_hash s)
    (sec_created_by s) by_ None.

Lemma sec_Create_Ok x s y s' :
  secretRepo_Create x s = (Ok y, s') →
  ∃ id, y = stamp_sec id (clock s) (sec_updated_by x) x ∧ sd_secrets (store s) !! id = None ∧
    name_unused (sec_project x) (sec_name x) (store s) ∧ sec_org x = org s ∧
    store s' = put_sec id (stamp_sec id (clock s) (sec_created_by x) x) (store s) ∧ same_env s s'.
Proof.
  unfold secretRepo_Create. intros H. inv_bind. apply uuid_Ok in Hm as (Hs0 & He0 & _).
  apply on_err_Ok, stmt_Ok_inv in H as (Hi & _ & _ & _ & He). destruct He0 as (Ho0 & Hg0 & Hc0).
  unfold insert_secret in Hi. destruct (visible _ _) eqn:Hv; [|done]. simpl in Hi.
  apply visible_spec in Hv as [_ Hv].
  destruct (bool_decide _) eqn:Hd; [done|]. apply bool_decide_eq_false in Hd. simpl in Hi.
  destruct (existsb _ _) eqn:Hex; [done|]. destruct (_ || _) eqn:Hfk in Hi; [done|].
  injection Hi as <- Hst. rewrite Hs0, Hc0 in *. exists x0. split_and!; try done.
  - by apply eq_None_not_Some.
  - intros k z Hk Hu [Hp Hn]. apply not_true_iff_false in Hex. apply Hex, existsb_exists.
    exists z. split; [|by rewrite Hu, Hp, Hn, !String.eqb_refl].
    apply list_elem_of_In, elem_of_rows_where. split; [done|by exists k].
  - congruence.
  - destruct He as (?&?&?). split_and!; congruence.
Qed.

Lemma sec_Update_Ok x s y s' :
  secretRepo_Update x s = (Ok y, s') →
  ∃ r, sd_secrets (store s) !! sec_id x = Some r ∧ sec_org r = org s ∧ undeleted r = true ∧
    sec_version r = sec_version x ∧
    store s' = put_sec (sec_id x) (sec_edit x (clock s) r) (store s) ∧ same_env s s' ∧
    y = mkSec (sec_id x) (sec_created x) (clock s) (sec_version r + 1) (sec_org x) (sec_project x)
          (sec_name x) (sec_desc x) (sec_value x) (sec_hash x) (sec_created_by x) (sec_updated_by x)
          (sec_deleted x).
Proof.
  unfold secretRepo_Update. intros H. inv_bind.
  apply on_err_Ok, stmt_Ok_inv in Hm as (Hi & _ & _ & _ & He). unfold update_secret in Hi.
  destruct (row_at _ _ _ _) as [r|] eqn:Hr; [|injection Hi as <- _; done].
  apply row_at_Some in Hr as (Hk & _ & Ho).
  destruct (Z.eqb_spec (sec_version r) (sec_version x)), (undeleted r) eqn:Hu; simpl in Hi;
    injection Hi as <- Hst; try done.
  injection H as <- <-. exists r. done.
Qed.

Lemma sec_Delete_Ok id s u s' :
  secretRepo_Delete id s = (Ok u, s') →
  ∃ r, sd_secrets (store s) !! id = Some r ∧ sec_org r = org s ∧ undeleted r = true ∧
    store s' = put_sec id (sec_removed (clock s) r) (store s) ∧ same_env s s'.
Proof.
  intros (n & Hn & Hi & He)%Exec_hit_Ok. unfold remove_secret in Hi.
  destruct (row_at _ _ _ _) as [r|] eqn:Hr; [|by injection Hi as <- _].
  apply row_at_Some in Hr as (Hk & _ & Ho).
  destruct (undeleted r) eqn:Hu; injection Hi as Hn' Hst; [|done]. by exists r.
Qed.

(** A log entry is written, or the transaction is broken. *)
Lemma logAccess_Ok o id action by_ s u s' :
  logAccess o id action by_ s = (Ok u, s') →
  same_env s s' ∧ (aborted s' = true ∨ ∃ lid, let l := mkLog lid o id action by_ (clock s) (Some (JObj [])) in
    o = org s ∧ sd_logs (store s) !! lid = None ∧ is_Some (sd_secrets (store s) !! id) ∧
    store s' = put_log lid l (store s)).
Proof.
  unfold logAccess. intros H. inv_bind. injection H as _ <-. apply try_inv in Hm.
  unfold accessLogRepo_Create in Hm. destruct x as [l|e].
  - inv_bind. apply uuid_Ok in Hm0 as (Hs0 & (Ho0 & Hg0 & Hc0) & _).
    apply stmt_Ok_inv in Hm as (Hi & _ & _ & _ & (?&?&?)).
    split; [split_and!; congruence|]. right. unfold insert_log in Hi. simpl in Hi.
    destruct (visible _ _) eqn:Hv; [|done]. simpl in Hi. apply visible_spec in Hv as [_ Hv].
    destruct (bool_decide _) eqn:Hd; [done|]. apply bool_decide_eq_false in Hd.
    destruct (_ || _) eqn:Hfk in Hi; [done|]. injection Hi as _ Hst.
    apply orb_false_iff in Hfk as [_ Hfk%negb_false_iff%bool_decide_eq_true].
    rewrite Hs0, Hc0, Ho0 in *. exists x. split_and!; try done. by apply eq_None_not_Some.
  - apply bind_Err_inv in Hm as [Hm|(lid & s1 & Hm & Hi)]; [done|].
    apply uuid_Ok in Hm as (_ & (?&?&?) & _). apply stmt_Err_frame in Hi as (_ & Ha & (?&?&?)).
    split; [split_and!; congruence|by left].
Qed.

Abbreviation secret_event := (emitted_event secretEventVersion).

Lemma on_secret_neutral user id : neutral (on_secret user id).
Proof. by intros e. Qed.

Lemma secret_event_step key ty o p user id now db db' :
  secret_event ty o p (on_secret user id) now db db' → rtc (schange key o now) db db'.
Proof.
  intros (row_id & eid & Hv & Hnew & ->). apply rtc_once, sc_event; [|done|done].
  by apply emitted_org.
Qed.
Lemma secret_event_tables ty o p opts now db db' :
  secret_event ty o p opts now db db' → sd_secrets db' = sd_secrets db ∧ sd_logs db' = sd_logs db.
Proof. by intros (row_id & eid & _ & _ & ->). Qed.

(** The log and the event every change ends with. *)
Definition audited (o user sid id action ty : string) (p : secret_payload) (now : Z) (db db' : SDB) : Prop :=
  ∃ lid, let l := mkLog lid o sid action (Some user) now (Some (JObj [])) in
    sd_logs db !! lid = None ∧ is_Some (sd_secrets db !! sid) ∧
    secret_event ty o p (on_secret user id) now (put_log lid l db) db'.

Lemma audit_Ok o user sid id action ty p s u s1 v s' :
  logAccess o sid action (Some user) s = (Ok u, s1) →
  enqueue_secret ty o p (on_secret user id) s1 = (Ok v, s') →
  o = org s ∧ audited o user sid id action ty p (clock s) (store s) (store s').
Proof.
  intros [He [Ha|(lid & Ho & Hfr & Hsec & Hst)]]%logAccess_Ok H.
  - by apply emit_aborted in H.
  - apply emit_Ok in H as [Hem _]. split; [done|].
    exists lid. destruct He as (_ & _ & Hc). rewrite Hst, Hc in Hem. done.
Qed.

(** ** Authorization *)

(** A member of the project, which is the tenant's, whose role grants [action]. *)
Definition may_secret (o project user action : string) (db : SDB) : Prop :=
  project ≠ "" ∧ ∃ m, sd_members db !! (project, user) = Some m ∧ pm_org m = o ∧
    grants (pol_project NewPolicyAuthorizer) (pm_role m) action = true.

Lemma readonly_member project user : readonly (memberLookup_GetByUser project user).
Proof.
  intros s. destruct (memberLookup_GetByUser project user s) as [r s'] eqn:H.
  by apply QueryRow_inv in H as (? & _).
Qed.
Lemma stable_member project user : stable (memberLookup_GetByUser project user).
Proof.
  intros s. destruct (memberLookup_GetByUser project user s) as [r s'] eqn:H.
  by apply QueryRow_inv in H as (_ & ? & _).
Qed.

Lemma authorize_secret_probe o user project action :
  probe (may_secret o project user action) (authorize_secret o user project action).
Proof.
  intros s r s' H. unfold authorize_secret, bind, on_err in H.
  destruct (WithTenant _ _ s) as [r0 s0] eqn:Hw.
  pose proof (WithTenant_stable o _ (stable_member project user) s) as He. rewrite Hw in He. simpl in He.
  pose proof (readonly_WithTenant o _ (readonly_member project user) s) as Hs. rewrite Hw in Hs.
  simpl in Hs. destruct r0 as [role|e]; simpl in H; [|by injection H as <- <-].
  unfold check in H. destruct (Authorize _ _ _) as [e|] eqn:Ha; injection H as <- <-;
    (split; [done|]); (split; [done|]); [done|]. intros _.
  apply Authorize_spec in Ha as (_ & _ & [(x & Hx & _)|(Hp & x & Hx & Hg)]); [by apply elem_of_nil in Hx|].
  simpl in *. split; [done|]. rewrite lookup_singleton_eq in Hx. injection Hx as <-.
  apply WithTenant_Ok_inv in Hw as (_ & _ & _ & s1 & s2 & Hs1 & Ho1 & _ & Hq & _).
  apply QueryRow_inv in Hq as (_ & _ & Hq). destruct (Hq role eq_refl) as (l & Hl).
  rewrite Hs1, Ho1 in Hl.
  destruct (sd_members (store s) !! (project, user)) as [m|]; [|discriminate Hl].
  destruct (visible o (pm_org m)) eqn:Hv; [|discriminate Hl]. apply visible_spec in Hv as [_ Hv].
  injection Hl as <- _. exists m. split_and!; [done..|]. unfold grants. by apply bool_decide_eq_true.
Qed.

Lemma validateSecretValue_spec v : validateSecretValue v = None ↔ valid_value v.
Proof.
  unfold validateSecretValue, valid_value. destruct (Nat.eqb_spec (String.length v) 0);
    [split; [done|lia]|]. destruct (Z.ltb_spec 65536 (Z.of_nat (String.length v))); split; try done; lia.
Qed.
Lemma validateSecretName_spec n : validateSecretName n = None ↔ secretNamePattern n = true.
Proof. unfold validateSecretName. by destruct (secretNamePattern n). Qed.

(** [crypto/rand] fills the nonce. *)
Definition fills (rand : nat → option (list Z)) : Prop :=
  ∀ n b, rand n = Some b → length b = nonceSize.

Section Methods.
Context (e : Encryptor) (rand : nat → option (list Z)) `{CursorJSON}.
Hypothesis Hrand : fills rand.

Lemma encrypt_value_looks v : looks (λ _ _ c, encrypts (enc_key e) v c) (encrypt_value e rand v).
Proof using Hrand.
  intros s r s'. unfold encrypt_value, rand_Read, bind, EncryptString, Encrypt.
  destruct (rand (uuid_next s)) as [nonce|] eqn:Hn; intros [= <- <-]; (split; [done|]); (split; [done|]).
  - intros a [= <-]. exists nonce. split; [by eapply Hrand|done].
  - done.
Qed.
Lemma stable_encrypt_value v : stable (encrypt_value e rand v).
Proof using.
  intros s. unfold encrypt_value, rand_Read, bind, EncryptString, Encrypt.
  by destruct (rand (uuid_next s)).
Qed.
Lemma stable_project_secret project id : stable (project_secret project id).
Proof using. unfold project_secret, secretRepo_GetByID, QueryRow. solve_stable. Qed.
Lemma stable_logAccess o id action by_ : stable (logAccess o id action by_).
Proof using. unfold logAccess, accessLogRepo_Create. solve_stable. Qed.
#[local] Hint Resolve stable_encrypt_value stable_project_secret stable_logAccess : stable.

(** The row of a new secret, and what is returned of it. *)
Definition requested_secret (o user project : string) (req : CreateSecretRequest) (c : list Z) : Secret :=
  mkSec "" 0 0 0 o project (cs_name req) (GoStrings.TrimSpace <$> cs_desc req) c
    (HashValue (cs_value req)) (Some user) None None.

Definition created_secret (o user project : string) (req : CreateSecretRequest) (now : Z) (db : SDB)
    (x : Secret) (db' : SDB) : Prop :=
  ∃ id c, encrypts (enc_key e) (cs_value req) c ∧
    let row := stamp_sec id now (Some user) (requested_secret o user project req c) in
    x = stamp_sec id now None (requested_secret o user project req c) ∧
    sd_secrets db !! id = None ∧ name_unused project (cs_name req) db ∧
    audited o user id id ActionCreated EventSecretCreated
      (secretCreatedPayload id project (cs_name req) 1) now (put_sec id row db) db'.

Lemma CreateSecret_ensures o user project req :
  ensures o
    (λ db, secretNamePattern (cs_name req) = true ∧ valid_value (cs_value req) ∧
           may_secret o project user ActionWriteSecrets db)
    (created_secret o user project req) (Service_CreateSecret e rand o user project req).
Proof using Hrand.
  unfold Service_CreateSecret. eapply ensures_weaken.
  - apply ensures_probe; [apply probe_check|]. apply ensures_probe; [apply probe_check|].
    apply ensures_probe; [apply authorize_secret_probe|]. eapply ensures_post.
    + eapply ensures_bind; [apply encrypt_value_looks|]. intros c. cbv zeta. eapply runs_ensures.
      { apply runs_WithTenant. unfold secretRepo_GetByName, secretRepo_Create, QueryRow, enqueue_secret.
        solve_stable. }
      intros s x s' Ho Hos Hab H0.
      instantiate (1 := λ c now db x db', encrypts (enc_key e) (cs_value req) c → created_secret o user project req now db x db').
      intros Hc. repeat inv_bind. injection H0 as <- <-. apply try_inv in Hm.
      apply QueryRow_inv in Hm as (Hs0 & (Ho0 & _ & Hc0) & _).
      assert (s1 = s0) as ->.
      { destruct x0 as [z|er]; [done|]. destruct (IsNotFound er); [by injection Hm0 as _ <-|done]. }
      apply sec_Create_Ok in Hm1 as (id & -> & Hfr & Hun & Hso & Hst & (_ & _ & Hc1)).
      destruct (audit_Ok _ _ _ _ _ _ _ _ _ _ _ _ Hm2 Hm3) as [_ Ha].
      exists id, c. rewrite Hs0, Hc0 in *. simpl in *. rewrite Hst, Hc1 in Ha. split_and!; done.
    + intros now db x db' (c & Hc & Hq). by apply Hq.
  - intros db (?%validateSecretName_spec & ?%validateSecretValue_spec & ? & _). done.
Qed.

Definition updated_desc (req : UpdateSecretRequest) (s : Secret) : option string :=
  match us_desc req with Some d => Some (GoStrings.TrimSpace d) | None => sec_desc s end.

Definition updated_secret (o user project id : string) (req : UpdateSecretRequest) (now : Z) (db : SDB)
    (x : Secret) (db' : SDB) : Prop :=
  ∃ old c h, sd_secrets db !! id = Some old ∧ sec_org old = o ∧ sec_project old = project ∧
    undeleted old = true ∧
    match us_value req with
    | Some v => encrypts (enc_key e) v c ∧ h = HashValue v
    | None => c = sec_value old ∧ h = sec_hash old
    end ∧
    let new := mkSec (sec_id old) (sec_created old) (sec_updated old) (sec_version old) (sec_org old)
                 (sec_project old) (sec_name old) (updated_desc req old) c h (sec_created_by old)
                 (Some user) (sec_deleted old) in
    x = sec_edit new now old ∧
    audited o user id id ActionUpdated EventSecretUpdated
      (secretUpdatedPayload id project (sec_name old) (sec_version old + 1)) now
      (put_sec id (sec_edit new now old) db) db'.

Definition deleted_secret (o user project id : string) (now : Z) (db : SDB) (db' : SDB) : Prop :=
  ∃ old, sd_secrets db !! id = Some old ∧ sec_org old = o ∧ sec_project old = project ∧
    undeleted old = true ∧
    audited o user (sec_id old) id ActionDeleted EventSecretDeleted (secretDeletedPayload id project (sec_name old) user)
      now (put_sec id (sec_removed now old) db) db'.

(** The primary key. *)
Definition keyed (id : string) (db : SDB) : Prop :=
  ∀ x, sd_secrets db !! id = Some x → sec_id x = id.

Lemma UpdateSecret_ensures o user project id req :
  ensures o
    (λ db, may_secret o project user ActionWriteSecrets db ∧ ∀ v, us_value req = Some v → valid_value v)
    (λ now db x db', keyed id db → updated_secret o user project id req now db x db')
    (Service_UpdateSecret e rand o user project id req).
Proof using Hrand.
  unfold Service_UpdateSecret. eapply ensures_weaken.
  - apply ensures_probe; [apply authorize_secret_probe|]. apply ensures_probe; [apply probe_check|].
    eapply runs_ensures; [apply runs_WithTenant; unfold secretRepo_Update, enqueue_secret; solve_stable|].
    intros s x s' Ho Hos Hab H0 Hkey. repeat inv_bind. injection H0 as <- <-.
    apply project_secret_Ok in Hm as (Hk & _ & Hso & Hu & Hp & Hs0 & (Ho0 & _ & Hc0)).
    pose proof (Hkey _ Hk) as Hid.
    assert (Hse : store s1 = store s0 ∧ same_env s0 s1 ∧
      match us_value req with
      | Some v => encrypts (enc_key e) v x1.1 ∧ x1.2 = HashValue v
      | None => x1 = (sec_value x0, sec_hash x0)
      end).
    { destruct (us_value req) as [v|]; [|by injection Hm0 as <- <-]. inv_bind. injection Hm0 as <- <-.
      by apply encrypt_value_looks in Hm as (? & ? & Henc); auto. }
    destruct Hse as (Hs1 & (Ho1 & _ & Hc1) & Hval).
    apply sec_Update_Ok in Hm1 as (r & Hr & _ & _ & Hv & Hst & (_ & _ & Hc2) & ->). simpl in *.
    assert (Hxo : sec_org x0 = o) by congruence. rewrite Hxo in Hm2.
    destruct (audit_Ok _ _ _ _ _ _ _ _ _ _ _ _ Hm2 Hm3) as [_ Ha].
    assert (Heq : store s1 = store s) by congruence. assert (Hclk : clock s2 = clock s) by congruence.
    rewrite Heq, Hid in *. assert (r = x0) as -> by congruence.
    exists x0, x1.1, x1.2. rewrite Hst, Hclk in Ha. replace (clock s1) with (clock s) in * by congruence.
    split_and!; try done; try congruence.
    + destruct (us_value req); [done|]. by rewrite Hval.
    + split; [unfold sec_edit; simpl; f_equal; congruence|exact Ha].
  - intros db (? & Hc & _). split; [done|]. intros v Hv. rewrite Hv in Hc. by apply validateSecretValue_spec.
Qed.

Lemma DeleteSecret_ensures o user project id :
  ensures o (may_secret o project user ActionManageSecrets)
    (λ now db _ db', deleted_secret o user project id now db db')
    (Service_DeleteSecret o user project id).
Proof using.
  eapply runs_ensures.
  - eapply runs_weaken; [apply runs_probe; [apply authorize_secret_probe|];
      apply runs_WithTenant; unfold secretRepo_Delete, enqueue_secret; solve_stable|]. by intros db [? _].
  - intros s u s' Ho Hos Hab H0. inv_bind.
    apply project_secret_Ok in Hm as (Hk & _ & Hso & Hu & Hp & Hs0 & (Ho0 & _ & Hc0)). repeat inv_bind.
    apply sec_Delete_Ok in Hm as (r & Hr & _ & _ & Hst & (Ho1 & _ & Hc1)). rewrite Hs0 in *.
    assert (r = x) as -> by congruence. assert (Hxo : sec_org x = o) by congruence. rewrite Hxo in Hm0.
    destruct (audit_Ok _ _ _ _ _ _ _ _ _ _ _ _ Hm0 H0) as [_ Ha].
    exists x. split_and!; [done|done|done|done|]. rewrite Hst, Hc1, Hc0 in Ha. exact Ha.
Qed.
End Methods.
