(* ===== verification/SecretSteps.v ===== *)
(** * Every call of the secrets service is a run of its machine

    Whoever calls and whichever statements fail, the service performs steps of
    [SecretSpec] in the tenant the request names; and the machine implements a
    key-value store: [contents] maps a project and a name to the plaintext and
    its version. *)

From S2P Require Import Prelude Json Aes AppErrors Tx Events Domain Pagination Authz Http Calls.
From S2P Require Import SecretStore SecretService SecretSpec SecretFacts.
Open Scope Z_scope.
Open Scope tx_scope.
#[local] Opaque Sha256.Sum256 Seal Open.

Implicit Types s : Sess SDB unit.

(** ** Successes as steps *)
Section Steps.
Context (e : Encryptor) (rand : nat → option (list Z)) `{CursorJSON}.
Hypothesis Hrand : fills rand.
Let key : list Z := enc_key e.

Lemma audited_steps o user sid id action ty p now db db' :
  audited o user sid id action ty p now db db' → rtc (schange key o now) db db'.
Proof using.
  intros (lid & Hfr & Hsec & Hem). eapply rtc_l; [|by eapply secret_event_step].
  by apply (sc_log key o now db (mkLog lid o sid action (Some user) now (Some (JObj [])))).
Qed.
Lemma audited_secrets o user sid id action ty p now db db' :
  audited o user sid id action ty p now db db' → sd_secrets db' = sd_secrets db.
Proof using. intros (lid & _ & _ & Hem). by apply secret_event_tables in Hem as [-> _]. Qed.

Abbreviation sperforms := (performs (W := unit) (swf key) (schange key)).

Lemma CreateSecret_performs o user project req :
  sperforms (eq o) (Service_CreateSecret e rand o user project req).
Proof using Hrand.
  eapply ensures_performs; [by apply CreateSecret_ensures|].
  intros now db x db' _ (Hpat & Hval & _) (id & c & Henc & _ & Hfr & Hun & Ha).
  eapply rtc_l; [|by eapply audited_steps].
  by eapply (sc_new key o now db (stamp_sec id now (Some user) (requested_secret o user project req c))
    (cs_value req)).
Qed.
Lemma UpdateSecret_performs o user project id req :
  sperforms (eq o) (Service_UpdateSecret e rand o user project id req).
Proof using Hrand.
  eapply ensures_performs; [by apply UpdateSecret_ensures|].
  intros now db x db' W (_ & Hval) Hq.
  destruct (Hq (sw_key _ _ W id)) as (old & c & h & Hk & Ho & _ & Hu & Hc & _ & Ha).
  eapply rtc_l; [|by eapply audited_steps].
  destruct (us_value req) as [v|]; [|destruct (sw_sealed _ _ W _ _ Hk) as (v & Hv & Henc & Hh)];
    apply (sc_edit key o now db id old _ v Hk Ho Hu).
  - destruct Hc as [Hc ->]. split; [by apply Hval|done].
  - destruct Hc as [-> ->]. done.
Qed.
Lemma DeleteSecret_performs o user project id :
  sperforms (eq o) (Service_DeleteSecret o user project id).
Proof using.
  eapply ensures_performs; [apply DeleteSecret_ensures|].
  intros now db x db' _ _ (old & Hk & Ho & _ & Hu & Ha).
  eapply rtc_l; [by eapply sc_delete|]. by eapply audited_steps.
Qed.

Lemma readonly_authorize o user project action : readonly (authorize_secret o user project action).
Proof using.
  intros s. destruct (authorize_secret o user project action s) as [r s'] eqn:E.
  by apply authorize_secret_probe in E as (? & _).
Qed.
Lemma readonly_QueryRow {A} (q : string → SDB → list A) f : readonly (W := unit) (on_err (QueryRow q) f).
Proof using. intros s. destruct (on_err _ _ s) as [r s'] eqn:E. by apply QueryRow_inv in E as (? & _). Qed.
Lemma readonly_GetSecret o user project id : readonly (Service_GetSecret o user project id).
Proof using.
  unfold Service_GetSecret. apply readonly_bind; [apply readonly_authorize|]. intros _.
  apply readonly_WithTenant. unfold project_secret.
  apply readonly_bind; [apply readonly_QueryRow|]. intros x. case_match; [apply readonly_fail|apply readonly_ret].
Qed.
Lemma readonly_ListSecrets o user project page : readonly (Service_ListSecrets o user project page).
Proof using.
  unfold Service_ListSecrets. apply readonly_bind; [apply readonly_authorize|]. intros _.
  apply readonly_WithTenant. unfold secretRepo_List. solve_readonly.
Qed.

Lemma idle_srequire o project : idle (srequire o project).
Proof using.
  intros s r s'. unfold srequire. destruct (String.eqb o ""), (String.eqb project ""); by intros [= <- <-].
Qed.
#[local] Hint Resolve idle_srequire : idle.

Lemma serve_secrets_performs user r : sperforms (eq (secret_request_org r)) (serve_secrets e rand user r).
Proof using Hrand.
  destruct r; simpl; take_apart.
  - apply CreateSecret_performs.
  - apply readonly_performs, readonly_ListSecrets.
  - apply readonly_performs, readonly_GetSecret.
  - apply UpdateSecret_performs.
  - apply DeleteSecret_performs.
Qed.

Lemma readonly_read {A} (q : string → SDB → A) : readonly (W := unit) (stmt (λ o _ db, inr (q o db, db))).
Proof using.
  intros s. destruct (stmt _ s) as [[a|x] s1] eqn:E.
  - apply stmt_Ok_inv in E as (? & _). by simplify_eq.
  - by apply stmt_Err_frame in E as (? & _).
Qed.
Lemma readonly_Agent_GetSecrets b hc ha path : readonly (Agent_GetSecrets e b hc ha path).
Proof using.
  unfold Agent_GetSecrets, secrets_ValidateCluster, Service_GetSecretsForCluster,
    secretRepo_GetSecretsForCluster, QueryRow.
  repeat first [ progress intros | case_match | apply readonly_fail | apply readonly_ret
               | apply readonly_bind | apply readonly_WithTenant | apply readonly_query
               | apply readonly_on_err | apply readonly_autocommit | apply readonly_read ].
Qed.
End Steps.

(** ** Reachable states *)

(** A user with an access token, or an agent: its headers and the path. *)
Inductive SecretCall :=
| SecretUser (user : string) (r : SecretRequest)
| SecretAgent (hdr_cluster hdr_agent path_cluster : string).
Definition secret_call (e : Encryptor) (rand : nat → option (list Z)) `{CursorJSON} (b : bool)
    (c : SecretCall) : SM unit :=
  match c with
  | SecretUser user r => let* _ := serve_secrets e rand user r in ret tt
  | SecretAgent hc ha path => let* _ := Agent_GetSecrets e b hc ha path in ret tt
  end.

(** One call, in any session: whatever the clock, the identifiers drawn and the
    failures the server injects. *)
Inductive secret_step (e : Encryptor) (rand : nat → option (list Z)) `{CursorJSON} (b : bool)
    : SDB → SDB → Prop :=
| secret_stepped s c : proper_uuids s →
    secret_step e rand b (store s) (store (secret_call e rand b c s).2).

Lemma secret_step_kept e rand `{CursorJSON} b db db' : fills rand →
  secret_step e rand b db db' → swf (enc_key e) db → swf (enc_key e) db' ∧ skept db db'.
Proof.
  intros Hr [s c Hu] W. destruct (secret_call e rand b c s) as [r s'] eqn:E. simpl.
  assert (Hp : performs (W := unit) (swf (enc_key e)) (schange (enc_key e)) (λ _, True) (secret_call e rand b c)).
  { destruct c; simpl; (apply performs_post; [|intros; apply readonly_ret]).
    - by eapply performs_any, serve_secrets_performs.
    - apply readonly_performs, readonly_Agent_GetSecrets. }
  destruct (Hp s r s' Hu W E) as [->|(o & _ & Hs)]; [done|].
  by destruct (schanges_sound _ _ _ _ _ Hs W) as (? & ? & _).
Qed.

(** ** The contents as a key-value store *)
Section Contents.
Context (e : Encryptor) (Hkey : length (enc_key e) = keySize).

(** The entry of a row: project and name to plaintext and version. *)
Definition entry (x : Secret) : option ((string * string) * (string * Z)) :=
  if undeleted x then
    match DecryptString e (sec_value x) with
    | Ok v => Some ((sec_project x, sec_name x), (v, sec_version x))
    | Err _ => None
    end
  else None.
Definition contents (db : SDB) : gmap (string * string) (string * Z) :=
  list_to_map (omap entry (map_to_list (sd_secrets db)).*2).

Lemma entry_sealed x v : undeleted x = true → sealed (enc_key e) v x →
  entry x = Some ((sec_project x, sec_name x), (v, sec_version x)).
Proof using Hkey. intros Hu (_ & Henc & _). unfold entry. by rewrite Hu, (DecryptString_encrypts e Hkey v). Qed.

Lemma entry_keys x pn y : entry x = Some (pn, y) →
  undeleted x = true ∧ pn = (sec_project x, sec_name x) ∧ y.2 = sec_version x.
Proof using.
  unfold entry. destruct (undeleted x); [|done]. destruct (DecryptString _ _); [|done]. by intros [= <- <-].
Qed.

(** Rows with the same key are the same row. *)
Lemma omap_keys_NoDup {K A B X} `{Countable K, Countable B} (f : A → option (B * X)) (m : gmap K A) :
  (∀ k1 a1 k2 a2 b x1 x2, m !! k1 = Some a1 → m !! k2 = Some a2 →
     f a1 = Some (b, x1) → f a2 = Some (b, x2) → k1 = k2) →
  NoDup (omap f (map_to_list m).*2).*1.
Proof using.
  intros Hinj. pose proof (NoDup_fst_map_to_list m) as Hnd.
  assert (Hl : ∀ k a, (k, a) ∈ map_to_list m → m !! k = Some a) by (intros k a; apply elem_of_map_to_list).
  revert Hnd Hl. generalize (map_to_list m) as l. induction l as [|[k a] l IH]; intros Hnd Hl; [constructor|].
  rewrite fmap_cons, NoDup_cons in Hnd. destruct Hnd as [Hk Hnd]. simpl.
  assert (IH' : NoDup (omap f l.*2).*1) by (apply IH; [done|]; intros; apply Hl; by right).
  destruct (f a) as [[b x]|] eqn:Hf; [|done]. rewrite fmap_cons, NoDup_cons. split; [|done].
  intros (bx & Hb & Hin)%list_elem_of_fmap. destruct bx as [b' x']. simpl in Hb. subst b'.
  apply list_elem_of_omap in Hin as (a' & (ka & Ha' & Hin')%list_elem_of_fmap & Hf').
  destruct ka as [k' a'']. simpl in *. subst a'. apply Hk.
  assert (k = k') as -> by (eapply (Hinj k a k' a''); [apply Hl; by left|apply Hl; by right|done..]).
  apply list_elem_of_fmap. by exists (k', a'').
Qed.

Lemma lookup_contents db pn y : swf (enc_key e) db →
  contents db !! pn = Some y ↔ ∃ k x, sd_secrets db !! k = Some x ∧ entry x = Some (pn, y).
Proof using.
  intros W. unfold contents. rewrite <- elem_of_list_to_map.
  - rewrite list_elem_of_omap. setoid_rewrite list_elem_of_fmap. split.
    + intros (x & ([k x'] & -> & Hk%elem_of_map_to_list) & He). by exists k, x'.
    + intros (k & x & Hk & He). exists x. split; [|done]. exists (k, x). split; [done|].
      by apply elem_of_map_to_list.
  - apply omap_keys_NoDup. intros k1 a1 k2 a2 b x1 x2 H1 H2 (U1 & -> & _)%entry_keys (U2 & Hb & _)%entry_keys.
    injection Hb as Hp Hn. by eapply (sw_unique _ _ W k1 a1 k2 a2).
Qed.

(** One row changes: its old entry goes, its new one comes. *)
Lemma contents_put db db' k x' :
  swf (enc_key e) db → swf (enc_key e) db' → sd_secrets db' = <[k := x']> (sd_secrets db) →
  contents db' =
  let rest := match sd_secrets db !! k ≫= entry with
              | Some (pn, _) => delete pn (contents db)
              | None => contents db
              end in
  match entry x' with Some (pn, y) => <[pn := y]> rest | None => rest end.
Proof using.
  intros W W' Hdb'. apply map_eq. intros pn. apply option_eq. intros y.
  rewrite lookup_contents by done. rewrite Hdb'.
  assert (Hrest : ∀ z, match sd_secrets db !! k ≫= entry with
              | Some (qn, _) => delete qn (contents db)
              | None => contents db
              end !! pn = Some z ↔ ∃ j x, j ≠ k ∧ sd_secrets db !! j = Some x ∧ entry x = Some (pn, z)).
  { intros z. destruct (sd_secrets db !! k ≫= entry) as [[qn y0]|] eqn:Hk.
    - apply bind_Some in Hk as (x0 & Hk & H0). rewrite lookup_delete_Some, lookup_contents by done. split.
      + intros (Hne & j & x & Hj & Hx). exists j, x. split_and!; try done. intros ->. congruence.
      + intros (j & x & Hne & Hj & Hx). split; [|by exists j, x]. intros ->. apply Hne.
        apply entry_keys in Hx as (U1 & E1 & _), H0 as (U2 & E2 & _). rewrite E2 in E1.
        injection E1 as Hp Hn. by eapply (sw_unique _ _ W j x k x0).
    - rewrite lookup_contents by done. split.
      + intros (j & x & Hj & Hx). exists j, x. split_and!; try done. intros ->. rewrite Hj in Hk. simpl in Hk.
        congruence.
      + intros (j & x & _ & Hj & Hx). by exists j, x. }
  cbv zeta. destruct (entry x') as [[qn z]|] eqn:Hx'.
  - rewrite lookup_insert_Some, Hrest. split.
    + intros (j & x & Hj & Hx). apply lookup_insert_Some in Hj as [[<- <-]|[Hne Hj]].
      * left. split; congruence.
      * right. split; [|exists j, x; auto]. intros ->. apply Hne.
        apply entry_keys in Hx as (U1 & -> & _), Hx' as (U2 & Hb & _). injection Hb as Hp Hn.
        apply (sw_unique _ _ W' k x' j x); try done; rewrite Hdb'; [by rewrite lookup_insert_eq|].
        by rewrite lookup_insert_ne.
    + intros [[<- <-]|(Hne & j & x & Hjk & Hj & Hx)].
      * exists k, x'. by rewrite lookup_insert_eq.
      * exists j, x. by rewrite lookup_insert_ne.
  - rewrite Hrest. split.
    + intros (j & x & Hj & Hx). apply lookup_insert_Some in Hj as [[<- <-]|[Hne Hj]]; [congruence|].
      exists j, x. auto.
    + intros (j & x & Hne & Hj & Hx). exists j, x. by rewrite lookup_insert_ne.
Qed.
End Contents.
