(* ===== verification/SecretCorrectness.v ===== *)
(** * Correctness of the secrets service

    What no sequence of calls can undo, who may do what, the service as a
    key-value store of plaintexts, what agents are given, that encryption can be
    undone and not forged, and that values do not reach the users; with a
    concrete scenario the witnesses evaluate. *)

From S2P Require Import Prelude Json Aes AppErrors Tx Events Domain Pagination Authz Http Calls.
From S2P Require Import Total Relational SecretStore SecretService SecretPrivacy SecretSpec SecretFacts.
From S2P Require Import SecretSteps.
Open Scope Z_scope.
Open Scope tx_scope.

(** The text form of a master key, as [GenerateMasterKey] writes it, can be
    read back. *)
Lemma NewEncryptor_GenerateMasterKey key t : is_bytes key → length key = keySize →
  GenerateMasterKey (Some key) = Ok t → NewEncryptor t = Ok (mkEncryptor key).
Proof.
  intros Hb Hl [= <-]. unfold NewEncryptor. rewrite Base64.bytes_text.
  - rewrite std_decode_encode by done. unfold NewEncryptorFromBytes. by rewrite Hl.
  - destruct (Base64.fields_join key Hb) as [Hf _]. unfold StdBase64.encode. apply Forall_app. split.
    + rewrite Base64.encode_fields, <- list_fmap_compose. apply Forall_fmap.
      eapply Forall_impl; [exact Hf|]. intros v Hv. by apply std_char_ok in Hv as (_ & ? & _).
    + destruct (padding_cases (length key)) as (k & -> & _). by apply Forall_repeat.
Qed.
#[local] Opaque Sha256.Sum256 Seal Open.

Implicit Types s : Sess SDB unit.

(** ** A concrete service

    [dev] develops the project [shop] of [acme], [view] looks at it; the
    application [app] of the project runs on the cluster [east], whose agent is
    [agent-1]. *)
Definition sdemo_app : Application :=
  mkApp "app" 0 0 1 "acme" "shop" "Shop" "shop" None "" None.
Definition sdemo_dep : Deployment :=
  mkDep "dep" 0 0 1 "acme" "app" "east" "reg/shop:1" 1 None None None None None None "running" 1 1 None.
Definition sdemo_db : SDB :=
  mkSDB {["acme"%string]} {["shop"%string]}
    {[("shop", "dev")%string := mkPMember "acme" "shop" "dev" ProjectDeveloper;
      ("shop", "view")%string := mkPMember "acme" "shop" "view" ProjectViewer]}
    {["east"%string := mkCluster "acme" (Some "agent-1"%string) "connected"]}
    {["app"%string := sdemo_app]} {["dep"%string := sdemo_dep]} ∅ ∅ [].
Definition sdemo_key : list Z := repeat 42 32.
Definition sdemo_enc : Encryptor := mkEncryptor sdemo_key.
Definition sdemo_rand (n : nat) : option (list Z) := Some (be_bytes 12 (Z.of_nat n)).
Definition sdemo_create : CreateSecretRequest := mkCreateSec "API_KEY" "hunter2" None.
Definition sdemo_update : UpdateSecretRequest := mkUpdateSec (Some "correct horse"%string) None.

Definition sdemo_0 : Sess SDB unit := mkSess sdemo_db "" false [] demo_uuid 0 1000 tt.
Definition sdemo_call_1 : SecretCall := SecretUser "dev" (PostSecret "acme" "shop" (Some sdemo_create)).
Definition sdemo_call_2 : SecretCall := SecretUser "dev" (PatchSecret "acme" "shop" "id1" (Some sdemo_update)).
Definition sdemo_1 := (secret_call sdemo_enc sdemo_rand true sdemo_call_1 sdemo_0).2.
Definition sdemo_2 := (secret_call sdemo_enc sdemo_rand true sdemo_call_2 sdemo_1).2.

Lemma sdemo_fills : fills sdemo_rand.
Proof. intros n b [= <-]. apply length_be_bytes. Qed.
Lemma sdemo_wf_0 : swf sdemo_key (store sdemo_0).
Proof. split; simpl; intros; simplify_map_eq. by split_and!; constructor. Qed.
Lemma sdemo_step c s : uuid_gen s = demo_uuid →
  secret_step sdemo_enc sdemo_rand true (store s) (store (secret_call sdemo_enc sdemo_rand true c s).2).
Proof. intros Hu. by apply secret_stepped, demo_uuids_of. Qed.
Lemma sdemo_wf c s : uuid_gen s = demo_uuid → swf sdemo_key (store s) →
  swf sdemo_key (store (secret_call sdemo_enc sdemo_rand true c s).2).
Proof. intros Hu W. by eapply (secret_step_kept sdemo_enc); [apply sdemo_fills|apply sdemo_step|]. Qed.
Lemma sdemo_wf_1 : swf sdemo_key (store sdemo_1).
Proof. apply sdemo_wf; [done|apply sdemo_wf_0]. Qed.
Lemma sdemo_wf_2 : swf sdemo_key (store sdemo_2).
Proof. apply sdemo_wf; [by vm_compute|apply sdemo_wf_1]. Qed.

(** The identifier of the secret is the second one drawn; its value has been
    changed once. *)
Example sdemo_updated : (λ x, (sec_name x, sec_version x)) <$> (sd_secrets (store sdemo_2) !! "id1"%string) = Some ("API_KEY"%string, 2).
Proof. vm_compute. reflexivity. Qed.

(** ** What no call can undo *)

(** C25. From a well-formed database, whatever users and agents call, in whatever
    order and whichever statements fail, the data stay well formed (names are
    valid and unique among the undeleted secrets of a project, every stored
    value is the encryption under the master key of a non-empty text of at most
    64KB whose hash is the stored one, log entries belong to a secret, events
    are valid and have distinct identifiers) and the history is kept: no secret
    disappears, its project, name and creation are fixed, its version never goes
    down and its contents only change with it, a deleted secret stays as it is,
    and the access log and the events only grow. *)
Theorem secrets_sound e rand `{CursorJSON} bypassrls db db' (Hr : fills rand)
    (Hs : rtc (secret_step e rand bypassrls) db db') (W : swf (enc_key e) db) :
  swf (enc_key e) db' ∧ skept db db'.
Proof.
  induction Hs as [db|db d2 db' Hs _ IH]; [done|].
  destruct (secret_step_kept _ _ _ _ _ Hr Hs W) as [W2 K]. destruct (IH W2) as [W3 K2].
  split; [done|by etrans].
Qed.

Lemma secrets_sound_witness :
  rtc (secret_step sdemo_enc sdemo_rand true) (store sdemo_0) (store sdemo_2) ∧
  fills sdemo_rand ∧ swf sdemo_key (store sdemo_0) ∧ skept (store sdemo_0) (store sdemo_2).
Proof.
  assert (Hs : rtc (secret_step sdemo_enc sdemo_rand true) (store sdemo_0) (store sdemo_2)).
  { eapply rtc_l; [apply (sdemo_step sdemo_call_1); reflexivity|].
    eapply rtc_once, (sdemo_step sdemo_call_2). vm_compute. reflexivity. }
  split; [exact Hs|]. split; [exact sdemo_fills|]. split; [exact sdemo_wf_0|].
  exact (proj2 (secrets_sound sdemo_enc sdemo_rand true _ _ sdemo_fills Hs sdemo_wf_0)).
Defined.

(** ** Who may do what *)

(** The roles a request is for. *)
Definition secret_roles (r : SecretRequest) : list string :=
  match r with
  | PostSecret _ _ _ | PatchSecret _ _ _ _ => [ProjectAdmin; ProjectDeveloper]
  | ListSecretsReq _ _ _ | GetSecretReq _ _ _ => [ProjectAdmin; ProjectDeveloper; ProjectViewer]
  | DeleteSecretReq _ _ _ => [ProjectAdmin]
  end.
Definition secret_action (r : SecretRequest) : string :=
  match r with
  | PostSecret _ _ _ | PatchSecret _ _ _ _ => ActionWriteSecrets
  | ListSecretsReq _ _ _ | GetSecretReq _ _ _ => ActionReadSecrets
  | DeleteSecretReq _ _ _ => ActionManageSecrets
  end.
Lemma secret_roles_grant r role :
  grants (pol_project NewPolicyAuthorizer) role (secret_action r) = true → role ∈ secret_roles r.
Proof.
  unfold grants, NewPolicyAuthorizer. simpl. rewrite bool_decide_eq_true.
  destruct (decide (role = ProjectAdmin)) as [->|H1]; [intros _; by destruct r; left|].
  destruct (decide (role = ProjectDeveloper)) as [->|H2];
    [destruct r; vm_compute; try discriminate; intros _; right; left|].
  destruct (decide (role = ProjectViewer)) as [->|H3];
    [destruct r; vm_compute; try discriminate; intros _; right; right; left|].
  rewrite !lookup_insert_ne, lookup_empty by congruence. simpl. set_solver.
Qed.

(** The user is a member of the project, which belongs to the organization of
    the request, in one of the request's roles. *)
Definition secret_request_allowed (user : string) (r : SecretRequest) (db : SDB) : Prop :=
  ∃ m, sd_members db !! (secret_request_project r, user) = Some m ∧ pm_org m = secret_request_org r ∧
    pm_role m ∈ secret_roles r.
Lemma may_secret_allowed user r db :
  may_secret (secret_request_org r) (secret_request_project r) user (secret_action r) db →
  secret_request_allowed user r db.
Proof. intros (_ & m & ? & ? & ?%secret_roles_grant). by exists m. Qed.

Section Guarded.
Context (e : Encryptor) (rand : nat → option (list Z)) `{CursorJSON} (Hr : fills rand).

Lemma permits_authorized {A} o user project action (k : unit → SM A) :
  permits (may_secret o project user action) (let* u := authorize_secret o user project action in k u).
Proof using. apply permits_first. intros s a s' (_ & _ & Ha)%authorize_secret_probe. by apply Ha. Qed.

Lemma serve_secrets_permits user r : permits (secret_request_allowed user r) (serve_secrets e rand user r).
Proof using Hr.
  apply (permits_weaken (may_secret (secret_request_org r) (secret_request_project r) user (secret_action r)));
    [|by intros db ?%may_secret_allowed].
  destruct r; simpl; repeat (apply permits_pre; [by auto using idle_srequire with idle|intros]);
    apply permits_first; try apply permits_authorized.
  eapply permits_weaken; [by eapply ensures_permits, CreateSecret_ensures|]. by intros db (_ & _ & ?).
Qed.
Lemma serve_secrets_clean user r : clean (serve_secrets e rand user r).
Proof using Hr.
  destruct r; simpl; repeat (apply clean_pre; [by auto using idle_srequire with idle|intros]); apply clean_post.
  - by eapply ensures_clean, CreateSecret_ensures.
  - apply readonly_clean, readonly_ListSecrets.
  - apply readonly_clean, readonly_GetSecret.
  - by eapply ensures_clean, UpdateSecret_ensures.
  - eapply ensures_clean, DeleteSecret_ensures.
Qed.
End Guarded.

(** C26. A request on secrets only succeeds for a member of the named project in
    the named organization whose role allows it: any for reading, administrator
    or developer for creating and changing, administrator for deleting.  One
    that fails changes nothing, and none touches a secret or a log entry of
    another tenant or adds an event of one. *)
Theorem secret_requests_guarded e rand `{CursorJSON} user r s res s' (Hr : fills rand)
    (Hu : proper_uuids s) (W : swf (enc_key e) (store s)) (Hrun : serve_secrets e rand user r s = (res, s')) :
  skept_apart (secret_request_org r) (store s) (store s') ∧
  match res with
  | Ok _ => secret_request_allowed user r (store s)
  | Err _ => store s' = store s
  end.
Proof.
  split.
  - destruct (serve_secrets_performs e rand Hr user r s res s' Hu W Hrun) as [->|(o & <- & Hs)]; [done|].
    by eapply schanges_sound.
  - destruct res; [by eapply serve_secrets_permits|by eapply serve_secrets_clean].
Qed.

Lemma secret_requests_guarded_witness :
  is_ok (serve_secrets sdemo_enc sdemo_rand "dev" (PatchSecret "acme" "shop" "id1" (Some sdemo_update)) sdemo_1).1
    = true ∧
  secret_request_allowed "dev" (PatchSecret "acme" "shop" "id1" (Some sdemo_update)) (store sdemo_1).
Proof.
  assert (Hok : is_ok (serve_secrets sdemo_enc sdemo_rand "dev"
    (PatchSecret "acme" "shop" "id1" (Some sdemo_update)) sdemo_1).1 = true) by (vm_compute; reflexivity).
  split; [exact Hok|].
  destruct (serve_secrets sdemo_enc sdemo_rand "dev" (PatchSecret "acme" "shop" "id1" (Some sdemo_update))
    sdemo_1) as [r s'] eqn:E. destruct r as [a|x]; [|discriminate Hok].
  exact (proj2 (secret_requests_guarded sdemo_enc sdemo_rand "dev"
    (PatchSecret "acme" "shop" "id1" (Some sdemo_update)) sdemo_1 (Ok a) s' sdemo_fills
    ltac:(apply demo_uuids_of; vm_compute; reflexivity) sdemo_wf_1 E)).
Defined.

(** ** The service as a key-value store *)

(** The plaintexts and versions by project and name. *)
Abbreviation KV := (gmap (string * string) (string * Z)).

(** What a successful request does to the store, and answers; [names] has the
    name each identifier is of. *)
Definition names_of (db : SDB) : gmap string string := sec_name <$> sd_secrets db.
Definition kv_spec (names : gmap string string) (r : SecretRequest) (resp : SResponse) (m m' : KV) : Prop :=
  match r, sr_body resp with
  | PostSecret _ p (Some req), SBSecret v =>
      m !! (p, cs_name req) = None ∧ m' = <[(p, cs_name req) := (cs_value req, 1)]> m ∧
      sv_project v = p ∧ sv_name v = cs_name req ∧ sv_version v = 1
  | PatchSecret _ p id (Some req), SBSecret v =>
      names !! id = Some (sv_name v) ∧
      ∃ old n, m !! (p, sv_name v) = Some (old, n) ∧ sv_id v = id ∧ sv_version v = n + 1 ∧
        m' = <[(p, sv_name v) := (default old (us_value req), n + 1)]> m
  | DeleteSecretReq _ p id, SBNone =>
      ∃ name x, names !! id = Some name ∧ m !! (p, name) = Some x ∧ m' = delete (p, name) m
  | GetSecretReq _ p id, SBSecret v =>
      m' = m ∧ sv_id v = id ∧ names !! id = Some (sv_name v) ∧ ∃ x, m !! (p, sv_name v) = Some (x, sv_version v)
  | ListSecretsReq _ p _, SBSecrets l =>
      m' = m ∧ Forall (λ v, ∃ x, m !! (p, sv_name v) = Some (x, sv_version v)) (sl_items l)
  | _, _ => False
  end.

Section Refinement.
Context (e : Encryptor) (Hkey : length (enc_key e) = keySize).
Context (rand : nat → option (list Z)) `{CursorJSON} (Hr : fills rand).

Lemma contents_live db k x : swf (enc_key e) db → sd_secrets db !! k = Some x → undeleted x = true →
  ∃ v, sealed (enc_key e) v x ∧ entry e x = Some ((sec_project x, sec_name x), (v, sec_version x)) ∧
    contents e db !! (sec_project x, sec_name x) = Some (v, sec_version x).
Proof using Hkey.
  intros W Hk Hu. destruct (sw_sealed _ _ W _ _ Hk) as (v & Hv). exists v.
  assert (He : entry e x = Some ((sec_project x, sec_name x), (v, sec_version x))) by (by apply entry_sealed).
  split_and!; [done..|]. apply (lookup_contents e); [done|]. by exists k, x.
Qed.
Lemma contents_view db k x : swf (enc_key e) db → sd_secrets db !! k = Some x → undeleted x = true →
  ∃ v, contents e db !! (sec_project x, sv_name (ToView x)) = Some (v, sv_version (ToView x)).
Proof using Hkey. intros W Hk Hu. destruct (contents_live db k x W Hk Hu) as (v & _ & _ & ?). by exists v. Qed.

Lemma contents_ext db db' : sd_secrets db' = sd_secrets db → contents e db' = contents e db.
Proof using. unfold contents. by intros ->. Qed.

Lemma created_refines o user project req now db x db' :
  swf (enc_key e) db → swf (enc_key e) db' → created_secret e o user project req now db x db' →
  kv_spec (names_of db) (PostSecret o project (Some req)) (mkSResponse 201 (SBSecret (ToView x))) (contents e db)
    (contents e db').
Proof using Hkey.
  intros W W' (id & c & Henc & -> & Hfr & Hun & Ha%audited_secrets). simpl in *.
  assert (Hnone : contents e db !! (project, cs_name req) = None).
  { apply eq_None_not_Some. intros [y (k & z & Hk & (Hu & Hb & _)%entry_keys)%(lookup_contents e)]; [|done].
    injection Hb as Hp Hn. by apply (Hun k z Hk Hu). }
  split; [done|]. split; [|done].
  rewrite (contents_put e db db' id _ W W' Ha), Hfr. simpl.
  destruct (contents_live db' id _ W' ltac:(rewrite Ha; apply lookup_insert_eq) eq_refl) as (v & Hv & Hent & _).
  rewrite Hent. simpl. enough (v = cs_value req) as -> by done.
  assert (Hd : DecryptString e c = Ok v) by (apply (DecryptString_encrypts e Hkey), Hv).
  rewrite (DecryptString_encrypts e Hkey (cs_value req)) in Hd by done. by injection Hd.
Qed.

(** The entry of an undeleted row gives way to that of its successor. *)
Lemma contents_replace db db' k x x' : swf (enc_key e) db → swf (enc_key e) db' →
  sd_secrets db !! k = Some x → undeleted x = true → sd_secrets db' = <[k := x']> (sd_secrets db) →
  contents e db' = match entry e x' with
                   | Some (pn, y) => <[pn := y]> (delete (sec_project x, sec_name x) (contents e db))
                   | None => delete (sec_project x, sec_name x) (contents e db)
                   end.
Proof using Hkey.
  intros W W' Hk Hu Hdb. rewrite (contents_put e db db' k x' W W' Hdb), Hk. simpl.
  destruct (contents_live db k x W Hk Hu) as (v & _ & -> & _). done.
Qed.

Lemma updated_refines o user project id req now db x db' :
  swf (enc_key e) db → swf (enc_key e) db' → updated_secret e o user project id req now db x db' →
  kv_spec (names_of db) (PatchSecret o project id (Some req)) (mkSResponse 200 (SBSecret (ToView x))) (contents e db)
    (contents e db').
Proof using Hkey.
  intros W W' (old & c & h & Hk & _ & Hp & Hu & Hval & -> & Ha%audited_secrets). simpl in *.
  destruct (contents_live db id old W Hk Hu) as (v & Hv & Hent & Hc). rewrite Hp in Hc.
  split; [unfold names_of; by rewrite lookup_fmap, Hk|].
  exists v, (sec_version old). split; [done|]. split; [by apply (sw_key _ _ W)|]. split; [done|].
  match type of Ha with _ = <[_ := ?y]> _ => set (new := y) in * end.
  assert (Hnew : sd_secrets db' !! id = Some new) by (rewrite Ha; apply lookup_insert_eq).
  destruct (contents_live db' id new W' Hnew Hu) as (w & Hw & Hent' & _).
  rewrite (contents_replace db db' id old new W W' Hk Hu Ha), Hent'. simpl. rewrite Hp, insert_delete_eq.
  enough (w = default v (us_value req)) as -> by done.
  assert (Hd : DecryptString e c = Ok w) by (apply (DecryptString_encrypts e Hkey), Hw).
  destruct (us_value req) as [u|].
  - rewrite (DecryptString_encrypts e Hkey u) in Hd by apply Hval. by injection Hd.
  - destruct Hval as [-> _], Hv as (_ & Henc & _).
    rewrite (DecryptString_encrypts e Hkey v) in Hd by done. by injection Hd.
Qed.

Lemma deleted_refines o user project id now db db' :
  swf (enc_key e) db → swf (enc_key e) db' → deleted_secret o user project id now db db' →
  kv_spec (names_of db) (DeleteSecretReq o project id) (mkSResponse 204 SBNone) (contents e db) (contents e db').
Proof using Hkey.
  intros W W' (old & Hk & _ & Hp & Hu & Ha%audited_secrets). simpl in *.
  destruct (contents_live db id old W Hk Hu) as (v & _ & _ & Hc). rewrite Hp in Hc.
  exists (sec_name old), (v, sec_version old). split; [unfold names_of; by rewrite lookup_fmap, Hk|]. split; [done|].
  by rewrite (contents_replace db db' id old _ W W' Hk Hu Ha), Hp.
Qed.

Lemma GetSecret_Ok o user project id s x s' : Service_GetSecret o user project id s = (Ok x, s') →
  sd_secrets (store s) !! id = Some x ∧ undeleted x = true ∧ sec_project x = project.
Proof using.
  unfold Service_GetSecret. intros Hg. inv_bind. apply authorize_secret_probe in Hm as (Hs & _ & _).
  apply WithTenant_Ok_inv in Hg as (_ & _ & _ & s1 & s2 & Hs1 & _ & _ & Hq & _).
  apply project_secret_Ok in Hq as (Hk & _ & _ & Hu & Hp & _). by rewrite Hs1, Hs in Hk.
Qed.
Lemma ListSecrets_Ok o user project page s p s' : Service_ListSecrets o user project page s = (Ok p, s') →
  Forall (λ x, ∃ k, sd_secrets (store s) !! k = Some x ∧ undeleted x = true ∧ sec_project x = project)
    (Items p).
Proof using.
  unfold Service_ListSecrets. intros Hg. inv_bind. apply authorize_secret_probe in Hm as (Hs & _ & _).
  apply WithTenant_Ok_inv in Hg as (_ & _ & _ & s1 & s2 & Hs1 & _ & _ & Hq & _).
  assert (Hrun : ∃ cur n l (sq : Sess SDB unit), on_err (stmt (λ o _ db, inr (select_secrets
        (rows_where (λ y, visible o (sec_org y) && String.eqb (sec_project y) project && undeleted y)
           (sd_secrets db)) cur n, db))) MapError s1 = (Ok l, sq) ∧ Items p ⊆ l).
  { unfold secretRepo_List in Hq.
    destruct (String.eqb _ ""); [|destruct (DecodeCursor _); [|done]]; inv_bind; do 4 eexists;
      (split; [exact Hm|]); case_match; injection Hq as <- _; simpl; try done; apply subseteq_take. }
  destruct Hrun as (cur & n & l & sq & (Hl & _)%on_err_Ok%stmt_Ok_inv & Hsub).
  apply Forall_forall. intros y Hy%Hsub. injection Hl as Hl _. rewrite <- Hl in Hy.
  unfold select_secrets in Hy. apply subseteq_take in Hy. unfold order_desc in Hy.
  rewrite merge_sort_Permutation in Hy.
  assert (Hy' : y ∈ rows_where (λ z, visible (org s1) (sec_org z) && String.eqb (sec_project z) project &&
    undeleted z) (sd_secrets (store s1))) by (destruct cur; [by apply list_elem_of_filter in Hy as [_ ?]|done]).
  apply elem_of_rows_where in Hy' as (Hp & k & Hk). apply andb_true_iff in Hp as [[_ Hp]%andb_true_iff Hu].
  apply String.eqb_eq in Hp. exists k. by rewrite <- Hs, <- Hs1.
Qed.
End Refinement.

(** C27. The service implements a key-value store of plaintexts: with [contents]
    decrypting the undeleted rows, creating a secret adds its value, at version
    1, under a name the project does not have; an update replaces the value, or
    keeps it when none is given, and adds one to the version; deleting removes
    the entry of the secret's name; reading and listing answer entries that are there and change
    nothing, and so does a request that fails. *)
Theorem secrets_refine e rand `{CursorJSON} user r s res s' (Hkey : length (enc_key e) = keySize)
    (Hr : fills rand) (Hu : proper_uuids s) (W : swf (enc_key e) (store s))
    (Hrun : serve_secrets e rand user r s = (res, s')) :
  match res with
  | Ok resp => kv_spec (names_of (store s)) r resp (contents e (store s)) (contents e (store s'))
  | Err _ => contents e (store s') = contents e (store s)
  end.
Proof.
  destruct res as [resp|x]; [|by rewrite (serve_secrets_clean e rand Hr user r s x s' Hrun)].
  assert (W' : swf (enc_key e) (store s')).
  { destruct (serve_secrets_performs e rand Hr user r s _ s' Hu W Hrun) as [->|(o & _ & Hs)]; [done|].
    by eapply schanges_sound. }
  destruct r as [o p b|o p page|o p sid|o p sid b|o p sid]; simpl in Hrun; inv_bind;
    apply idle_srequire in Hm as [Hs0 _].
  - destruct b as [req|]; [|done]. inv_bind. injection Hm as <- <-. inv_bind. injection Hrun as <- <-.
    apply CreateSecret_ensures in Hm as (_ & _ & _ & Hc); [|done]. rewrite Hs0 in Hc.
    by eapply created_refines.
  - inv_bind. injection Hrun as <- <-. pose proof (readonly_ListSecrets o user p page s0) as Hro.
    rewrite Hm in Hro. apply ListSecrets_Ok in Hm. simpl in *. rewrite Hro, Hs0 in *. split; [done|].
    apply Forall_fmap. eapply Forall_impl; [exact Hm|]. intros y (k & Hk & Hy & <-). by eapply contents_view.
  - inv_bind. injection Hrun as <- <-. pose proof (readonly_GetSecret o user p sid s0) as Hro.
    rewrite Hm in Hro. apply GetSecret_Ok in Hm as (Hk & Hy & <-). simpl in *. rewrite Hro, Hs0 in *.
    split; [done|]. split; [by apply (sw_key _ _ W)|].
    split; [unfold names_of; by rewrite lookup_fmap, Hk|]. by eapply contents_view.
  - destruct b as [req|]; [|done]. inv_bind. injection Hm as <- <-. inv_bind. injection Hrun as <- <-.
    apply UpdateSecret_ensures in Hm as (_ & _ & _ & Hc); [|done]. rewrite Hs0 in Hc.
    eapply updated_refines; [done..|]. apply Hc. intros y. apply (sw_key _ _ W).
  - inv_bind. injection Hrun as <- <-. apply DeleteSecret_ensures in Hm as (_ & _ & _ & Hc).
    rewrite Hs0 in Hc. by eapply deleted_refines.
Qed.

Lemma secrets_refine_witness :
  contents sdemo_enc (store sdemo_1) !! ("shop", "API_KEY")%string = Some ("hunter2"%string, 1) ∧
  match (serve_secrets sdemo_enc sdemo_rand "dev" (PatchSecret "acme" "shop" "id1" (Some sdemo_update)) sdemo_1).1 with
  | Ok resp => kv_spec (names_of (store sdemo_1)) (PatchSecret "acme" "shop" "id1" (Some sdemo_update)) resp
      (contents sdemo_enc (store sdemo_1))
      (contents sdemo_enc (store (serve_secrets sdemo_enc sdemo_rand "dev"
         (PatchSecret "acme" "shop" "id1" (Some sdemo_update)) sdemo_1).2))
  | Err _ => False
  end.
Proof.
  split; [vm_compute; reflexivity|].
  assert (Hok : is_ok (serve_secrets sdemo_enc sdemo_rand "dev"
    (PatchSecret "acme" "shop" "id1" (Some sdemo_update)) sdemo_1).1 = true) by (vm_compute; reflexivity).
  destruct (serve_secrets sdemo_enc sdemo_rand "dev" (PatchSecret "acme" "shop" "id1" (Some sdemo_update))
    sdemo_1) as [r s'] eqn:E. destruct r as [a|x]; [|discriminate Hok].
  exact (secrets_refine sdemo_enc sdemo_rand "dev" (PatchSecret "acme" "shop" "id1" (Some sdemo_update))
    sdemo_1 (Ok a) s' eq_refl sdemo_fills ltac:(apply demo_uuids_of; vm_compute; reflexivity) sdemo_wf_1 E).
Defined.

(** ** What agents are given *)

(** The project has an application with an active deployment on the cluster. *)
Definition runs_on (o cluster project : string) (db : SDB) : Prop :=
  ∃ kd d ka a, sd_deps db !! kd = Some d ∧ d_org d = o ∧ d_cluster d = cluster ∧
    d_status d ≠ "deleted" ∧ d_status d ≠ "deleting" ∧
    sd_apps db !! ka = Some a ∧ a_org a = o ∧ a_id a = d_app d ∧ a_project a = project.

Lemma existsb_rows {K} `{Countable K} {A} (p : A → bool) (m : gmap K A) :
  existsb p (rows_where (λ _, true) m) = true ↔ ∃ k a, m !! k = Some a ∧ p a = true.
Proof.
  rewrite existsb_exists. setoid_rewrite <- list_elem_of_In. setoid_rewrite elem_of_rows_where. naive_solver.
Qed.
Lemma neqb_spec (a b : string) : negb (String.eqb a b) = true ↔ a ≠ b.
Proof. rewrite negb_true_iff. apply String.eqb_neq. Qed.

Lemma deployed_on_spec o cluster project db : o ≠ "" →
  deployed_on o cluster project o db = true ↔ runs_on o cluster project db.
Proof.
  intros Ho. unfold deployed_on, runs_on. rewrite existsb_rows.
  repeat setoid_rewrite andb_true_iff. setoid_rewrite existsb_rows.
  repeat setoid_rewrite andb_true_iff. repeat setoid_rewrite visible_spec.
  repeat setoid_rewrite String.eqb_eq. repeat setoid_rewrite neqb_spec. split.
  - intros (kd & d & Hd & ((([[_ ?] _] & ?) & ?) & ?) & ka & a & Ha & ([[_ ?] _] & ?) & ?).
    exists kd, d, ka, a. by split_and!.
  - intros (kd & d & ka & a & ? & ? & ? & ? & ? & ? & ? & ? & ?).
    exists kd, d. split; [done|]. split; [by split_and!|]. exists ka, a. by split_and!.
Qed.

(** The agent [ha] is the one registered on the connected cluster [c]. *)
Definition agent_of (hc ha : string) (c : ClusterRow) (db : SDB) : Prop :=
  hc ≠ "" ∧ ha ≠ "" ∧ sd_clusters db !! hc = Some c ∧ cl_status c = "connected" ∧ cl_agent c = Some ha.

(** The plaintext of a row for the agent. *)
Definition handed_out (key : list Z) (o cluster : string) (db : SDB) (a : AgentSecret) : Prop :=
  ∃ k x v, sd_secrets db !! k = Some x ∧ undeleted x = true ∧ sec_org x = o ∧
    runs_on o cluster (sec_project x) db ∧ sealed key v x ∧
    a = mkAgentSecret (sec_project x) (sec_name x) v (sec_version x).

Section Agents.
Context (e : Encryptor) (Hkey : length (enc_key e) = keySize).

Lemma ValidateCluster_Ok b hc ha s o s' : secrets_ValidateCluster b hc ha s = (Ok o, s') →
  store s' = store s ∧ org s' = org s ∧ ∃ c, sd_clusters (store s) !! hc = Some c ∧
    cl_status c = "connected" ∧ cl_agent c = Some ha ∧ o = cl_org c.
Proof using.
  unfold secrets_ValidateCluster. intros Hv. inv_bind. apply on_err_Ok in Hm.
  unfold autocommit in Hm. destruct (QueryRow _ _) as [r1 s1] eqn:Hq. injection Hm as -> <-.
  assert (Hq' : on_err (QueryRow (λ o db, match sd_clusters db !! hc with
      | Some c => if pool_sees b o (cl_org c) then [c] else []
      | None => [] end)) (λ x, x) (set_org "" (set_aborted false s)) = (Ok x, s1))
    by (unfold on_err; by rewrite Hq).
  apply QueryRow_inv in Hq' as (Hs & _ & Hx). destruct (Hx x eq_refl) as (l & Hl). simpl in *.
  destruct (sd_clusters (store s) !! hc) as [c|]; [|discriminate Hl].
  destruct (pool_sees _ _ _); [|discriminate Hl]. injection Hl as -> _.
  destruct (String.eqb_spec (cl_status x) "connected"); [|done]. simpl in Hv.
  destruct (cl_agent x) as [a|] eqn:Ha; [|done]. destruct (String.eqb_spec a ha) as [->|]; [|done].
  injection Hv as <- <-. simpl. split_and!; [done..|]. by exists x.
Qed.

Lemma ValidateCluster_succeeds hc ha c s : healthy s → agent_of hc ha c (store s) →
  secrets_ValidateCluster true hc ha s = (Ok (cl_org c), s).
Proof using.
  intros [Hq Ha] (_ & _ & Hc & Hst & Hag).
  unfold secrets_ValidateCluster, bind, on_err, autocommit, QueryRow, bind, stmt, pop_fault. simpl.
  rewrite Hq. simpl. rewrite Hc. simpl. rewrite Hst. simpl. rewrite Hag, String.eqb_refl.
  unfold ret. f_equal. destruct s; simpl in *. by subst.
Qed.

(** Under the policies the pool sees no cluster. *)
Lemma Agent_GetSecrets_rls hc ha path s : is_ok (Agent_GetSecrets e false hc ha path s).1 = false.
Proof using.
  destruct (Agent_GetSecrets e false hc ha path s) as [[l|x] s'] eqn:Hrun; [exfalso|done].
  unfold Agent_GetSecrets in Hrun. destruct (String.eqb hc ""); [done|].
  destruct (String.eqb ha ""); [done|]. inv_bind. clear Hrun. unfold secrets_ValidateCluster in Hm.
  inv_bind. clear Hm. apply on_err_Ok in Hm0. unfold autocommit in Hm0.
  destruct (QueryRow _ _) as [r1 s2] eqn:Hq. injection Hm0 as -> <-.
  assert (Hq' : on_err (QueryRow (λ o db, match sd_clusters db !! hc with
      | Some c => if pool_sees false o (cl_org c) then [c] else []
      | None => [] end)) (λ x, x) (set_org "" (set_aborted false s)) = (Ok x0, s2))
    by (unfold on_err; by rewrite Hq).
  apply QueryRow_inv in Hq' as (_ & _ & Hx). destruct (Hx x0 eq_refl) as (l0 & Hl). simpl in Hl.
  by destruct (sd_clusters (store s) !! hc).
Qed.

Lemma decrypted_sealed x v : sealed (enc_key e) v x →
  decrypted e x = Some (mkAgentSecret (sec_project x) (sec_name x) v (sec_version x)).
Proof using Hkey. intros (_ & Henc & _). unfold decrypted. by rewrite (DecryptString_encrypts e Hkey v). Qed.

Lemma cluster_rows_spec o cluster db a : o ≠ "" → swf (enc_key e) db →
  a ∈ omap (decrypted e) (merge_sort project_name_le
    (rows_where (λ y, visible o (sec_org y) && String.eqb (sec_org y) o && undeleted y &&
                      deployed_on o cluster (sec_project y) o db) (sd_secrets db))) ↔
  handed_out (enc_key e) o cluster db a.
Proof using Hkey.
  intros Ho W. rewrite list_elem_of_omap. setoid_rewrite merge_sort_Permutation.
  setoid_rewrite elem_of_rows_where. repeat setoid_rewrite andb_true_iff.
  repeat setoid_rewrite String.eqb_eq. setoid_rewrite deployed_on_spec; [|done]. split.
  - intros (x & (([[[_ ?] _] ?] & ?) & k & Hk) & Hd). destruct (sw_sealed _ _ W _ _ Hk) as (v & Hv).
    rewrite (decrypted_sealed x v Hv) in Hd. injection Hd as <-. exists k, x, v. by split_and!.
  - intros (k & x & v & Hk & Hu & Hxo & Hr & Hv & ->). exists x. split; [|by apply decrypted_sealed].
    split; [|by exists k]. split_and!; try done. by apply neqb_spec.
Qed.

Lemma fmap_omap_filter {A B C} (g : B → C) (f : A → option B) (p : A → bool) (l : list A) :
  g <$> omap f (filter (λ x, p x = true) l) =
  (omap (λ x, if p x then (λ b, (g b, b)) <$> f x else None) l).*1.
Proof using.
  induction l as [|x l IH]; [done|]. rewrite filter_cons. simpl.
  destruct (decide (p x = true)) as [->|Hp%not_true_is_false]; [|by rewrite Hp].
  simpl. destruct (f x); simpl; [by f_equal|done].
Qed.

(** An agent gets each secret of a project once. *)
Lemma cluster_rows_NoDup (p : Secret → bool) db : swf (enc_key e) db →
  (∀ x, p x = true → undeleted x = true) →
  NoDup ((λ a, (as_project a, as_name a)) <$>
    omap (decrypted e) (merge_sort project_name_le (rows_where p (sd_secrets db)))).
Proof using.
  intros W Hp. rewrite merge_sort_Permutation. unfold rows_where. rewrite fmap_omap_filter.
  apply omap_keys_NoDup. intros k1 x1 k2 x2 pn y1 y2 H1 H2 E1 E2.
  assert (Hx : ∀ x y, (if p x then (λ a, ((as_project a, as_name a), a)) <$> decrypted e x else None) = Some (pn, y) →
    undeleted x = true ∧ pn = (sec_project x, sec_name x)).
  { intros x y Hx. destruct (p x) eqn:Hpx; [|done]. unfold decrypted in Hx.
    destruct (DecryptString e (sec_value x)); [|done]. injection Hx as <- _. auto. }
  destruct (Hx _ _ E1) as [U1 Hpn], (Hx _ _ E2) as [U2 Hpn2]. rewrite Hpn2 in Hpn.
  injection Hpn as Hp1 Hn1. by eapply (sw_unique _ _ W k1 x1 k2 x2).
Qed.
End Agents.

Section AgentCalls.
Context (e : Encryptor) (Hkey : length (enc_key e) = keySize).

Lemma agent_secrets_content b hc ha path s l s' (W : swf (enc_key e) (store s)) :
  Agent_GetSecrets e b hc ha path s = (Ok l, s') →
  store s' = store s ∧ path = hc ∧ ∃ c, agent_of hc ha c (store s) ∧
    (∀ a, a ∈ l ↔ handed_out (enc_key e) (cl_org c) hc (store s) a) ∧
    NoDup ((λ a, (as_project a, as_name a)) <$> l).
Proof using Hkey.
  intros Hrun. unfold Agent_GetSecrets in Hrun.
  destruct (String.eqb_spec hc ""); [done|]. destruct (String.eqb_spec ha ""); [done|]. inv_bind.
  apply ValidateCluster_Ok in Hm as (Hs & _ & c & Hc & Hst & Hag & ->).
  destruct (String.eqb_spec path hc) as [->|]; [|done]. simpl in Hrun.
  unfold Service_GetSecretsForCluster, secretRepo_GetSecretsForCluster in Hrun.
  destruct (String.eqb_spec (cl_org c) ""); [done|]. inv_bind. injection Hrun as <- <-.
  apply WithTenant_Ok_inv in Hm as (_ & _ & _ & s2 & s3 & Hs2 & Ho2 & _ & Hq & _ & Hst').
  apply on_err_Ok, stmt_Ok_inv in Hq as (Hq & _). injection Hq as Hl Hs3.
  rewrite Ho2, Hs2, Hs in *. split; [congruence|]. split; [done|]. exists c. split; [done|].
  rewrite <- Hl. split; [intros a; by apply cluster_rows_spec|].
  apply cluster_rows_NoDup; [done|]. intros y. rewrite !andb_true_iff. tauto.
Qed.

Lemma agent_secrets_succeed hc ha c s : healthy s → agent_of hc ha c (store s) → cl_org c ≠ "" →
  ∃ l s', Agent_GetSecrets e true hc ha hc s = (Ok l, s').
Proof using.
  intros Hh Hag Ho. unfold Agent_GetSecrets.
  destruct (String.eqb_spec hc ""); [by destruct Hag|]. destruct (String.eqb_spec ha ""); [by destruct Hag as (_&?&_)|].
  unfold bind at 1. rewrite (ValidateCluster_succeeds hc ha c s Hh Hag), String.eqb_refl. simpl.
  unfold Service_GetSecretsForCluster, secretRepo_GetSecretsForCluster.
  destruct (String.eqb_spec (cl_org c) ""); [done|].
  enough (total (let* secrets := WithTenant (cl_org c) (on_err (stmt (λ o _ db, inr (merge_sort project_name_le
    (rows_where (λ y, visible o (sec_org y) && String.eqb (sec_org y) (cl_org c) && undeleted y &&
                      deployed_on (cl_org c) hc (sec_project y) o db) (sd_secrets db)), db)))
    MapError) in ret (omap (decrypted e) secrets)) s (λ _ _, True)) as (a & s' & -> & _) by (by eexists _, _).
  apply total_bind. apply total_WithTenant; [done..|]. apply total_query; [by destruct Hh|].
  apply total_ret; [|done]. by destruct Hh.
Qed.
End AgentCalls.

(** C28. What an agent is given: the request only succeeds with a user's valid
    access token, which [RequireAuth] asks for, and for the agent registered on
    the connected cluster it names, whose identifier is also the one of the
    path, and leaves the database alone; the answer has exactly the plaintexts,
    with their versions, of the undeleted secrets of its tenant in the projects
    that have an application with an active deployment on the cluster, each
    once.  Conversely, with such a token, without failures of the database and
    with a database role that bypasses row-level security, the registered agent
    gets its answer; with a role subject to the policies no agent ever does. *)
Theorem agent_secrets_exact e verify bypassrls auth hc ha path s
    (Hkey : length (enc_key e) = keySize) (W : swf (enc_key e) (store s)) :
  (∀ l s', serve_agent_secrets e verify bypassrls auth hc ha path s = (Ok l, s') →
     (bearerToken auth ≠ "" ∧ is_Some (verify (bearerToken auth))) ∧
     store s' = store s ∧ path = hc ∧ ∃ c, agent_of hc ha c (store s) ∧
       (∀ a, a ∈ l ↔ handed_out (enc_key e) (cl_org c) hc (store s) a) ∧
       NoDup ((λ a, (as_project a, as_name a)) <$> l)) ∧
  (∀ c, bearerToken auth ≠ "" → is_Some (verify (bearerToken auth)) → bypassrls = true →
     healthy s → agent_of hc ha c (store s) → cl_org c ≠ "" →
     ∃ l s', serve_agent_secrets e verify bypassrls auth hc ha hc s = (Ok l, s')) ∧
  (bypassrls = false → is_ok (serve_agent_secrets e verify bypassrls auth hc ha path s).1 = false).
Proof.
  unfold serve_agent_secrets, RequireAuth. split_and!.
  - intros l s' H. destruct (String.eqb_spec (bearerToken auth) ""); [done|].
    destruct (verify _) as [user|]; [|done]. split; [by split|]. by eapply agent_secrets_content.
  - intros c Ht [user ->] -> Hh Hag Ho. apply String.eqb_neq in Ht. rewrite Ht.
    by eapply agent_secrets_succeed.
  - intros ->. destruct (String.eqb _ _); [done|]. destruct (verify _); [|done].
    apply Agent_GetSecrets_rls.
Qed.

(** The tokens of the scenarios. *)
Definition sdemo_verify (token : string) : option string :=
  if String.eqb token "t-dev" then Some "dev"%string else None.

Definition sdemo_serve (auth : string) :=
  serve_agent_secrets sdemo_enc sdemo_verify true auth "east" "agent-1" "east" sdemo_2.

Lemma agent_secrets_exact_witness :
  (sdemo_serve "Bearer t-dev"%string).1 = Ok [mkAgentSecret "shop" "API_KEY" "correct horse" 2] ∧
  (sdemo_serve ""%string).1 = Err errInvalidToken ∧
  handed_out sdemo_key "acme" "east" (store sdemo_2) (mkAgentSecret "shop" "API_KEY" "correct horse" 2).
Proof.
  assert (Hrun : (sdemo_serve "Bearer t-dev"%string).1 =
    Ok [mkAgentSecret "shop" "API_KEY" "correct horse" 2]) by (vm_compute; reflexivity).
  split; [exact Hrun|]. split; [vm_compute; reflexivity|]. unfold sdemo_serve in *.
  destruct (serve_agent_secrets _ _ _ "Bearer t-dev" _ _ _ sdemo_2) as [r s'] eqn:E.
  simpl in Hrun. subst r.
  destruct (proj1 (agent_secrets_exact sdemo_enc sdemo_verify true "Bearer t-dev" "east" "agent-1" "east"
    sdemo_2 eq_refl sdemo_wf_2) _ s' E) as (_ & _ & _ & c & (_ & _ & Hc & _) & Hl & _).
  assert (Ho : cl_org c = "acme") by (vm_compute in Hc; injection Hc as <-; reflexivity).
  rewrite Ho in Hl. apply Hl. left.
Defined.

(** ** Values do not reach the users *)

(** A sequence of requests and their answers. *)
Fixpoint serve_all (e : Encryptor) (rand : nat → option (list Z)) `{CursorJSON}
    (l : list (string * SecretRequest)) : Sess SDB unit → list (result goerr SResponse) * Sess SDB unit := λ s,
  match l with
  | [] => ([], s)
  | (user, r) :: l =>
      let '(a, s1) := serve_secrets e rand user r s in
      let '(rest, s2) := serve_all e rand l s1 in (a :: rest, s2)
  end.

(** C29. The users' side tells nothing about the values: two sequences of requests
    by the same users that differ only in the values written (both valid or both
    not), served with two master keys from two databases that differ only in the
    stored ciphertexts and hashes, get the same answers and leave databases that
    again differ only there; in particular the events and the access log are
    the same. *)
Theorem secret_values_confidential e1 e2 rand `{CursorJSON} l1 l2 db1 db2 s
    (Hl : Forall2 (λ x y, x.1 = y.1 ∧ same_request x.2 y.2) l1 l2) (Hdb : same_db db1 db2) :
  let '(out1, t1) := serve_all e1 rand l1 (set_store db1 s) in
  let '(out2, t2) := serve_all e2 rand l2 (set_store db2 s) in
  out1 = out2 ∧ same_db (store t1) (store t2) ∧
  sd_outbox (store t1) = sd_outbox (store t2) ∧ sd_logs (store t1) = sd_logs (store t2).
Proof.
  enough (Hgen : ∀ s1 s2, low same_db s1 s2 → (serve_all e1 rand l1 s1).1 = (serve_all e2 rand l2 s2).1 ∧
    low same_db (serve_all e1 rand l1 s1).2 (serve_all e2 rand l2 s2).2).
  { destruct (Hgen (set_store db1 s) (set_store db2 s)) as [Ho Hs]; [by split|].
    destruct (serve_all e1 _ _ _) as [o1 t1], (serve_all e2 _ _ _) as [o2 t2]. simpl in *.
    destruct Hs as [Hs _]. split_and!; [done|done|..]; unfold same_db, erase_db, set_secrets in Hs; congruence. }
  induction Hl as [|[u1 r1] [u2 r2] l1 l2 [Hu Hr] _ IH]; intros s1 s2 Hs; [done|]. simpl in *. subst u2.
  destruct (serve_secrets_sim e1 e2 rand u1 r1 r2 Hr s1 s2 Hs) as [Hres Ht].
  destruct (serve_secrets e1 _ _ _ _) as [a1 t1], (serve_secrets e2 _ _ _ _) as [a2 t2]. simpl in *.
  destruct (IH t1 t2 Ht) as [IH1 IH2].
  destruct (serve_all e1 _ _ _) as [o1 v1], (serve_all e2 _ _ _) as [o2 v2]. simpl in *.
  split; [|done]. rewrite IH1. by destruct Hres as [x ? <-|].
Qed.

Lemma secret_values_confidential_witness :
  Forall2 (λ x y, x.1 = y.1 ∧ same_request x.2 y.2)
    [("dev"%string, PostSecret "acme" "shop" (Some sdemo_create)); ("view"%string, GetSecretReq "acme" "shop" "id1")]
    [("dev"%string, PostSecret "acme" "shop" (Some (mkCreateSec "API_KEY" "swordfish!" None)));
     ("view"%string, GetSecretReq "acme" "shop" "id1")] ∧
  (serve_all sdemo_enc sdemo_rand
    [("dev"%string, PostSecret "acme" "shop" (Some sdemo_create)); ("view"%string, GetSecretReq "acme" "shop" "id1")]
    (set_store sdemo_db sdemo_0)).1 =
  (serve_all (mkEncryptor (repeat 7 32)) sdemo_rand
    [("dev"%string, PostSecret "acme" "shop" (Some (mkCreateSec "API_KEY" "swordfish!" None)));
     ("view"%string, GetSecretReq "acme" "shop" "id1")]
    (set_store sdemo_db sdemo_0)).1.
Proof.
  assert (Hl : Forall2 (λ x y, x.1 = y.1 ∧ same_request x.2 y.2)
    [("dev"%string, PostSecret "acme" "shop" (Some sdemo_create)); ("view"%string, GetSecretReq "acme" "shop" "id1")]
    [("dev"%string, PostSecret "acme" "shop" (Some (mkCreateSec "API_KEY" "swordfish!" None)));
     ("view"%string, GetSecretReq "acme" "shop" "id1")]).
  { constructor; [split; [reflexivity|apply sr_post; reflexivity]|].
    constructor; [split; [reflexivity|apply sr_same]|constructor]. }
  split; [exact Hl|].
  pose proof (secret_values_confidential sdemo_enc (mkEncryptor (repeat 7 32)) sdemo_rand _ _ sdemo_db sdemo_db
    sdemo_0 Hl eq_refl) as Hc.
  destruct (serve_all sdemo_enc sdemo_rand _ _) as [o1 t1].
  destruct (serve_all (mkEncryptor (repeat 7 32)) sdemo_rand _ _) as [o2 t2]. exact (proj1 Hc).
Defined.

(** ** Encryption *)

(** C30. Encryption can be undone, and its result is checked: a generated master
    key is read back from its text and makes an encryptor; with it a value
    encrypted with any nonce of the right size decrypts to itself and is 28 bytes
    longer; whatever decrypts, to [p], is an encryption of [p]; and of a nonce, a
    body and a tag only the one tag that GCM computes over that nonce and that
    body is accepted: with any other tag, or cut short, the value is refused.
    (That nobody without the key can find that tag for a changed body is the
    security assumption of AES-GCM, and not stated.) *)
Theorem encryption_authentic key t e (Hb : is_bytes key) (Hl : length key = keySize)
    (Ht : GenerateMasterKey (Some key) = Ok t) (He : NewEncryptor t = Ok e) :
  enc_key e = key ∧
  (∀ nonce p c, length nonce = nonceSize → Encrypt e (Some nonce) p = Ok c →
     Decrypt e c = Ok p ∧ length c = (length p + 28)%nat) ∧
  (∀ c p, Decrypt e c = Ok p → ∃ nonce, length nonce = nonceSize ∧ Encrypt e (Some nonce) p = Ok c) ∧
  (∀ nonce body t, length nonce = nonceSize → length t = tagSize →
     Decrypt e (nonce ++ body ++ t) =
       if decide (t = Aes.tag key nonce body) then Ok (keystream key nonce body)
       else Err (Plain "secrets: decryption failed: cipher: message authentication failed")) ∧
  (∀ c, (length c < nonceSize + tagSize)%nat → Decrypt e c = Err ErrInvalidCiphertext) ∧
  (∀ v nonce c, length nonce = nonceSize → EncryptString e (Some nonce) v = Ok c → DecryptString e c = Ok v).
Proof.
  rewrite (NewEncryptor_GenerateMasterKey key t Hb Hl Ht) in He. injection He as <-.
  assert (Hd : ∀ nonce p c, length nonce = nonceSize → Encrypt (mkEncryptor key) (Some nonce) p = Ok c →
     Decrypt (mkEncryptor key) c = Ok p ∧ length c = (length p + 28)%nat).
  { intros nonce p c Hn [= <-]. simpl. assert (Hlen : length (nonce ++ Seal key nonce p) = (length p + 28)%nat)
      by (rewrite length_app, Seal_length, Hn by done; unfold nonceSize; lia).
    split; [|done]. unfold Decrypt. rewrite Hlen. simpl (enc_key _).
    destruct (Nat.ltb_spec (length p + 28) (nonceSize + tagSize)) as [Hlt|_]; [unfold nonceSize, tagSize in Hlt; lia|].
    by rewrite take_app_length', drop_app_length', Open_Seal. }
  split; [done|]. split; [exact Hd|]. split_and!.
  - intros c p (nonce & Hn & ->)%Decrypt_inv; [|done]. by exists nonce.
  - intros nonce body tg Hn Ht'. unfold Decrypt. rewrite !length_app, Hn, Ht'.
    destruct (Nat.ltb_spec (nonceSize + (length body + tagSize)) (nonceSize + tagSize)); [lia|].
    rewrite take_app_length', drop_app_length' by done. rewrite Open_tag by done. cbn [enc_key].
    by destruct (decide _).
  - intros c Hc. unfold Decrypt. by rewrite (proj2 (Nat.ltb_lt _ _) Hc).
  - intros v nonce c Hn Hc. unfold DecryptString. destruct (Hd nonce _ c Hn Hc) as [-> _]. simpl.
    by rewrite Base64.text_bytes.
Qed.

Lemma encryption_authentic_witness :
  is_bytes sdemo_key ∧
  Decrypt (mkEncryptor sdemo_key) (be_bytes 12 5 ++ Seal sdemo_key (be_bytes 12 5) [104; 105]) = Ok [104; 105].
Proof.
  assert (Hb : is_bytes sdemo_key) by (unfold is_bytes, sdemo_key; repeat constructor; discriminate).
  split; [exact Hb|].
  destruct (encryption_authentic sdemo_key _ (mkEncryptor sdemo_key) Hb eq_refl eq_refl
    ltac:(apply NewEncryptor_GenerateMasterKey; [exact Hb|reflexivity..])) as (_ & Hd & _).
  apply (Hd (be_bytes 12 5) [104; 105]); reflexivity.
Defined.
