(* ===== verification/AgentState.v ===== *)
(** * The persisted state of the agent

    agents/platform-agent/internal/agent/state.go: [State], [LoadState] and
    [SaveState], the latter as the system calls it makes on the file system of
    [Files], with an error or the death of the process at any of them.  The
    text [json.MarshalIndent] gives a state and [json.Unmarshal] are a codec,
    [StateJSON]. *)

From S2P Require Import Prelude Total Effects.
Import FileSystem.
Open Scope se_scope.

(** ** State *)
Record State := mkState {
  st_agent : string; st_cluster : string; st_org : string; st_registered : bool }.
Definition zero_state : State := mkState "" "" "" false.

Class StateJSON := {
  marshal_State : State → string;
  unmarshal_State : string → result string State;
  unmarshal_marshal st : unmarshal_State (marshal_State st) = Ok st }.

Section AgentState.
Context `{StateJSON}.

(** [LoadState], on what [os.ReadFile] returned. *)
Definition LoadState (data : result read_error string) : result string State :=
  match data with
  | Err NotExist => Ok zero_state
  | Err (ReadFailed e) => Err ("read state file: " +:+ e)
  | Ok data =>
      match unmarshal_State data with
      | Err e => Err ("unmarshal state: " +:+ e)
      | Ok st => Ok st
      end
  end.

(** [_ = tmp.Close()] before the error is returned. *)
Definition closing (i : nat) (what : string) (m : FM unit) : FM unit := λ w,
  match m w with
  | (Err (FErr e), w') =>
      match Close i w' with
      | (Err Died, w'') => (Err Died, w'')
      | (_, w'') => (Err (FErr (what +:+ ": " +:+ e)), w'')
      end
  | x => x
  end.

(** [if d, derr := os.Open(dir); derr == nil]: the handle, the sync and the
    close may all fail. *)
Definition sync_directory : FM unit :=
  let* d := (λ w, match syscall id (λ _ fs, fs) w with
                  | (Err Died, w') => (Err Died, w')
                  | (r, w') => (Ok (is_ok r), w')
                  end) in
  if d : bool then tolerate SyncDir ;; tolerate (Close 0) else ret tt.

(** [tmpName] is the name [os.CreateTemp] picks. *)
Definition SaveState (path tmpName : string) (state : State) : FM unit :=
  wrap "create state directory" MkdirAll ;;
  let* tmp := wrap "create temp state file" (CreateTemp tmpName) in
  defer (Remove tmpName) (
    closing tmp "chmod temp state file" (Chmod tmp) ;;
    closing tmp "write temp state file" (Write tmp (marshal_State state)) ;;
    closing tmp "fsync temp state file" (Sync tmp) ;;
    wrap "close temp state file" (Close tmp) ;;
    wrap "rename state file" (Rename tmpName path) ;;
    sync_directory).

(** What [LoadState] reads of a file system. *)
Definition load (path : string) (fs : FS) : result string State :=
  LoadState (match file fs path with Some data => Ok data | None => Err NotExist end).
End AgentState.

(** ** The state file is replaced atomically *)
Section Atomic.
Context `{StateJSON} (path tmpName : string) (fs0 : FS) (data : string).
Hypothesis Hne : tmpName ≠ path.

(** The state file, if there is one, is on stable storage. *)
Definition settled : Prop :=
  fs_durable fs0 !! path = fs_dir fs0 !! path ∧
  ∀ i, fs_dir fs0 !! path = Some i →
    (i < fs_next fs0)%nat ∧ ∃ n, fs_inodes fs0 !! i = Some n ∧ i_synced n = true.
Hypothesis Hs : settled.

Let tmp : nat := fs_next fs0.
Let entry : option nat := fs_dir fs0 !! path.

(** The old file is where it was. *)
Definition kept_old (fs : FS) : Prop :=
  ∀ i, entry = Some i → fs_inodes fs !! i = fs_inodes fs0 !! i.
Definition before (fs : FS) : Prop :=
  fs_dir fs !! path = entry ∧ fs_durable fs !! path = entry ∧ kept_old fs.
(** The temporary file exists, with contents [n]. *)
Definition staged (n : inode → Prop) (fs : FS) : Prop :=
  before fs ∧ fs_dir fs !! tmpName = Some tmp ∧ ∃ x, fs_inodes fs !! tmp = Some x ∧ n x.
Definition after (fs : FS) : Prop :=
  fs_dir fs !! path = Some tmp ∧ (fs_durable fs !! path = entry ∨ fs_durable fs !! path = Some tmp) ∧
  kept_old fs ∧ fs_inodes fs !! tmp = Some (mkInode data true).
Definition either (fs : FS) : Prop := before fs ∨ after fs.

Lemma entry_old i : entry = Some i → i ≠ tmp.
Proof using Hs. intros Hi ->. destruct Hs as [_ Hr]. apply Hr in Hi as [Hlt _]. unfold tmp in Hlt. lia. Qed.

Lemma before_set_tmp n fs : before fs → before (set_inode tmp n fs).
Proof using Hs.
  intros (H1 & H2 & H3). split_and!; try done. intros i Hi. simpl.
  rewrite lookup_insert_ne; [by apply H3|]. by apply not_eq_sym, entry_old.
Qed.
Lemma staged_set p (q : inode → Prop) n fs : q n → staged p fs → staged q (set_inode tmp n fs).
Proof using Hs.
  intros Hn (Hb & Hd & _). split; [by apply before_set_tmp|]. split; [done|]. exists n. simpl.
  by rewrite lookup_insert_eq.
Qed.
Lemma before_remove fs : before fs → before (set_dir (delete tmpName (fs_dir fs)) fs).
Proof using Hne. intros (H1 & H2 & H3). split_and!; try done. simpl. by rewrite lookup_delete_ne. Qed.
Lemma after_remove fs : after fs → after (set_dir (delete tmpName (fs_dir fs)) fs).
Proof using Hne. intros (H1 & H2 & H3 & H4). split_and!; try done. simpl. by rewrite lookup_delete_ne. Qed.

(** Calls that change nothing the state file depends on. *)
Lemma triple_noop (P : FS → Prop) (D : FS → Prop) :
  (∀ fs, P fs → D fs) → triple P (syscall id (λ _ fs, fs)) (λ _, P) P D.
Proof using. intros HD. apply triple_syscall; auto. Qed.

Lemma triple_closing P what (m : FM unit) Q (F D : FS → Prop) :
  triple P m Q F D → (∀ fs, F fs → D fs) → triple P (closing tmp what m) Q F D.
Proof using.
  intros Hm HD w HP. specialize (Hm w HP). unfold closing.
  destruct (m w) as [[a|[e|]] w']; [done| |done].
  pose proof (triple_noop F D HD w' Hm) as Hc. unfold Close.
  by destruct (syscall id _ w') as [[u|[e'|]] w''].
Qed.

Lemma triple_sync_directory :
  triple after sync_directory (λ _, after) (λ _, False) after.
Proof using.
  unfold sync_directory. eapply (triple_bind _ _ _ (λ _, after)).
  - intros w Hw. pose proof (triple_noop after after (λ _, id) w Hw) as Ho.
    by destruct (syscall id _ w) as [[u|[e|]] w'].
  - intros [|]; [|by apply triple_ret]. eapply (triple_bind _ _ _ (λ _, after)).
    + apply triple_tolerate, triple_syscall; [|done..]. intros fs (H1 & H2 & H3 & H4).
      split_and!; try done. by right.
    + intros _. by apply triple_tolerate, triple_noop.
Qed.

Lemma staged_created :
  staged (λ _, True) (mkFS (<[tmp := mkInode "" false]> (fs_inodes fs0)) (<[tmpName := tmp]> (fs_dir fs0))
                        (fs_durable fs0) (S tmp)).
Proof using Hs Hne.
  destruct Hs as [Hdur _]. split; [split_and!|split].
  - simpl. by rewrite lookup_insert_ne.
  - done.
  - intros i Hi. simpl. rewrite lookup_insert_ne; [done|]. by apply not_eq_sym, entry_old.
  - simpl. by rewrite lookup_insert_eq.
  - eexists. simpl. by rewrite lookup_insert_eq.
Qed.

Lemma SaveState_triple st : marshal_State st = data →
  triple (λ fs, fs = fs0) (SaveState path tmpName st) (λ _, after) before either.
Proof using Hs Hne.
  intros Hd.
  assert (H0 : before fs0) by (destruct Hs as [Hdur _]; split_and!; done).
  unfold SaveState. eapply (triple_bind _ _ _ (λ _ fs, fs = fs0)).
  { eapply triple_wrap, triple_weaken; [apply (triple_noop (λ fs, fs = fs0) (λ fs, fs = fs0)); done|..];
      [done|done|by intros fs ->|intros fs ->; by left]. }
  intros _. eapply (triple_bind _ _ _ (λ i fs, i = tmp ∧ staged (λ _, True) fs)).
  { apply triple_wrap. intros w Hw. unfold CreateTemp, syscall. rewrite Hw. fold tmp.
    pose proof staged_created as Hst.
    destruct (w_outcomes w) as [|[]]; simpl; rewrite ?Hw; [done..|by left]. }
  intros i. eapply triple_weaken with (P := λ fs, i = tmp ∧ staged (λ _, True) fs);
    [|done|intros a fs Ha; exact Ha|intros fs Ha; exact Ha|intros fs Ha; exact Ha].
  intros w [-> Hw]. revert w Hw. rewrite Hd.
  apply (triple_defer (staged (λ _, True)) _ _ (λ _, after) before either).
  - eapply (triple_bind _ _ _ (λ _, staged (λ _, True))).
    { apply triple_closing with (F := before); [|by left]. unfold Chmod.
      eapply triple_weaken; [apply (triple_noop (staged (λ _, True)) either)|..]; try done.
      - intros fs [Hb _]. by left.
      - by intros fs [Hb _]. }
    intros _. eapply (triple_bind _ _ _ (λ _, staged (λ n, n = mkInode data false))).
    { apply triple_closing with (F := before); [|by left]. unfold Write. apply triple_syscall.
      - intros fs. by apply staged_set.
      - intros n fs [Hb _]. by apply before_set_tmp.
      - intros fs [Hb _]. by left. }
    intros _. eapply (triple_bind _ _ _ (λ _, staged (λ n, n = mkInode data true))).
    { apply triple_closing with (F := before); [|by left]. unfold Sync. apply triple_syscall.
      - intros fs Hf. pose proof Hf as (_ & _ & x & Hx & ->). rewrite Hx. by eapply staged_set.
      - by intros n fs [Hb _].
      - intros fs [Hb _]. by left. }
    intros _. eapply (triple_bind _ _ _ (λ _, staged (λ n, n = mkInode data true))).
    { apply triple_wrap. unfold Close. eapply triple_weaken;
        [apply (triple_noop (staged (λ n, n = mkInode data true)) either)|..]; try done.
      - intros fs [Hb _]. by left.
      - by intros fs [Hb _]. }
    intros _. eapply (triple_bind _ _ _ (λ _, after)).
    { apply triple_wrap. unfold Rename. apply triple_syscall.
      - intros fs ((H1 & H2 & H3) & H4 & x & Hx & ->). rewrite H4. split_and!; simpl.
        + by rewrite lookup_insert_eq.
        + by left.
        + done.
        + done.
      - by intros n fs [Hb _].
      - intros fs [Hb _]. by left. }
    intros _. eapply triple_weaken; [apply triple_sync_directory|done|done|done|by right].
  - intros _. apply triple_syscall; [apply after_remove|done|by right].
  - apply triple_syscall; [apply before_remove|done|by left].
Qed.
End Atomic.

(** ** Properties *)
(** A codec for the scenarios. *)
Definition demo_unmarshal (s : string) : result string State :=
  match value_of_text (A := string * string * string * bool) s with
  | Some (a, c, o, r) => Ok (mkState a c o r)
  | None => Err "invalid character"%string
  end.
Definition demo_marshal (st : State) : string :=
  text_of_value (st_agent st, st_cluster st, st_org st, st_registered st).
Lemma demo_unmarshal_marshal st : demo_unmarshal (demo_marshal st) = Ok st.
Proof. unfold demo_unmarshal, demo_marshal. rewrite value_of_text_of_value. by destruct st. Qed.
#[export] Instance demo_StateJSON : StateJSON :=
  {| unmarshal_marshal := demo_unmarshal_marshal |}.

Section Properties.
Context `{StateJSON}.

Lemma crash_file path fs fs' i n :
  crash fs fs' → fs_dir fs' !! path = Some i → fs_inodes fs !! i = Some n → i_synced n = true →
  file fs' path = Some (i_data n).
Proof.
  intros C Hd Hi Hsy. destruct (crash_inodes _ _ C i n Hi) as (n' & Hi' & _ & Hdata).
  unfold file. rewrite Hd. simpl. rewrite Hi'. simpl. by rewrite Hdata.
Qed.

Lemma before_file path fs0 fs : before path fs0 fs → file fs path = file fs0 path.
Proof.
  intros (H1 & _ & H3). unfold file. rewrite H1.
  destruct (fs_dir fs0 !! path) as [i|] eqn:Hi; [|done]. simpl. by rewrite H3.
Qed.
Lemma after_file path fs0 data fs : after path fs0 data fs → file fs path = Some data.
Proof. intros (H1 & _ & _ & H4). unfold file. rewrite H1. simpl. by rewrite H4. Qed.

(** After a crash, an entry that is the old one gives the old contents. *)
Lemma crash_old path fs0 fs fs' :
  settled path fs0 → kept_old path fs0 fs → crash fs fs' → fs_dir fs' !! path = fs_dir fs0 !! path →
  file fs' path = file fs0 path.
Proof.
  intros [_ Hs] Hk C He. destruct (fs_dir fs0 !! path) as [i|] eqn:Hi.
  - destruct (Hs i eq_refl) as (_ & n & Hn & Hsy). rewrite (crash_file path fs fs' i n); try done.
    + unfold file. rewrite Hi. simpl. by rewrite Hn.
    + by rewrite Hk.
  - unfold file. by rewrite He, Hi.
Qed.
Lemma before_crash path fs0 fs fs' :
  settled path fs0 → before path fs0 fs → crash fs fs' → file fs' path = file fs0 path.
Proof.
  intros Hs (H1 & H2 & H3) C. eapply crash_old; [done..|].
  destruct (crash_names _ _ C path); congruence.
Qed.
Lemma after_crash path fs0 data fs fs' :
  settled path fs0 → after path fs0 data fs → crash fs fs' →
  file fs' path = file fs0 path ∨ file fs' path = Some data.
Proof.
  intros Hs (H1 & H2 & H3 & H4) C.
  assert (fs_dir fs' !! path = fs_dir fs0 !! path ∨ fs_dir fs' !! path = Some (fs_next fs0)) as [He|He].
  { destruct (crash_names _ _ C path) as [->| ->]; [|by right]. by destruct H2 as [->| ->]; auto. }
  - left. by eapply crash_old.
  - right. by rewrite (crash_file path fs fs' _ _ C He H4).
Qed.

(** Without failures the rename is durable. *)
Lemma SaveState_quiet path tmpName st fs : tmpName ≠ path → ∃ fs',
  SaveState path tmpName st (mkFSW fs []) = (Ok tt, mkFSW fs' []) ∧
  (fs_dir fs' !! path = Some (fs_next fs) ∧ fs_durable fs' !! path = Some (fs_next fs)) ∧
  fs_inodes fs' !! fs_next fs = Some (mkInode (marshal_State st) true).
Proof.
  intros Hne. unfold SaveState, wrap, closing, sync_directory, tolerate, defer, bind, ret, MkdirAll, CreateTemp,
    Chmod, Write, Sync, Close, Rename, Remove, SyncDir, syscall.
  cbn -[lookup insert delete marshal_State]. rewrite !lookup_insert_eq.
  cbn -[lookup insert delete marshal_State]. rewrite !lookup_insert_eq.
  eexists. split; [reflexivity|]. cbn -[lookup insert delete marshal_State].
  rewrite lookup_delete_ne by done. by rewrite !lookup_insert_eq.
Qed.

(** C24. The state file is replaced atomically: whichever system call of
    [SaveState] fails and wherever the process dies, what the agent loads
    afterwards, also after a crash of the machine, is the old state or the new
    one, never a part of one; a save that succeeded is what is loaded, one that
    failed has changed nothing, and when no call failed the new state survives a
    crash. *)
Theorem SaveState_atomic path tmpName st fs outcomes r w'
    (Hne : tmpName ≠ path) (Hs : settled path fs)
    (Hrun : SaveState path tmpName st (mkFSW fs outcomes) = (r, w')) :
  (∀ fs', fs' = w_fs w' ∨ crash (w_fs w') fs' →
     load path fs' = load path fs ∨ load path fs' = Ok st) ∧
  match r with
  | Ok _ => load path (w_fs w') = Ok st
  | Err (FErr _) => ∀ fs', fs' = w_fs w' ∨ crash (w_fs w') fs' → load path fs' = load path fs
  | Err Died => True
  end ∧
  (outcomes = [] → ∀ fs', crash (w_fs w') fs' → load path fs' = Ok st).
Proof.
  assert (Hload : ∀ fs', file fs' path = Some (marshal_State st) → load path fs' = Ok st).
  { intros fs' Hf. unfold load, LoadState. by rewrite Hf, unmarshal_marshal. }
  assert (Hsame : ∀ fs', file fs' path = file fs path → load path fs' = load path fs).
  { intros fs' Hf. unfold load. by rewrite Hf. }
  pose proof (SaveState_triple path tmpName fs _ Hne Hs st eq_refl (mkFSW fs outcomes) eq_refl) as Ht.
  rewrite Hrun in Ht.
  assert (HB : ∀ fs', before path fs (w_fs w') → fs' = w_fs w' ∨ crash (w_fs w') fs' →
    load path fs' = load path fs).
  { intros fs' Hb [->|C]; apply Hsame; [by apply before_file|by eapply before_crash]. }
  assert (HA : ∀ fs', after path fs (marshal_State st) (w_fs w') → fs' = w_fs w' ∨ crash (w_fs w') fs' →
    load path fs' = load path fs ∨ load path fs' = Ok st).
  { intros fs' Ha [->|C]; [right; by eapply Hload, after_file|].
    destruct (after_crash _ _ _ _ _ Hs Ha C); auto. }
  split; [|split].
  - intros fs' Hc. destruct r as [u|[e|]]; [by apply HA|left; by apply HB|].
    destruct Ht; [left; by apply HB|by apply HA].
  - destruct r as [u|[e|]]; [by eapply Hload, after_file|intros fs'; by apply HB|done].
  - intros -> fs' C. apply Hload. pose proof (SaveState_quiet path tmpName st fs Hne) as (fs1 & Hq & Hd & Hi).
    rewrite Hq in Hrun. injection Hrun as <- <-. simpl in *.
    assert (fs_dir fs' !! path = Some (fs_next fs)) as He.
    { destruct Hd as [Hd1 Hd2]. destruct (crash_names _ _ C path); congruence. }
    by rewrite (crash_file path fs1 fs' _ _ C He Hi).
Qed.
End Properties.

(** A file system with a state file; the process dies while the temporary file
    is written. *)
Definition demo_old : State := mkState "agent-1" "id0" "acme" true.
Definition demo_fs : FS :=
  let dir := {["agent-state.json"%string := 0%nat]} in
  mkFS {[0%nat := mkInode (marshal_State demo_old) true]} dir dir 1.

Lemma demo_fs_settled : settled "agent-state.json" demo_fs.
Proof.
  split; [done|]. intros i Hi. simpl in Hi. rewrite lookup_singleton_eq in Hi. injection Hi as <-.
  split; [simpl; lia|]. eexists. simpl. by rewrite lookup_singleton_eq.
Qed.

Definition demo_outcomes : list outcome :=
  [Done; Done; Done; Fails "no space left on device" 3; Done; Dies].
Definition demo_saving : result (fs_error) unit * FSW :=
  SaveState "agent-state.json" ".state-1.tmp" zero_state (mkFSW demo_fs demo_outcomes).

Lemma SaveState_atomic_witness :
  load "agent-state.json" (w_fs demo_saving.2) = load "agent-state.json" demo_fs ∨
  load "agent-state.json" (w_fs demo_saving.2) = Ok zero_state.
Proof.
  destruct demo_saving as [r w'] eqn:E.
  destruct (SaveState_atomic "agent-state.json" ".state-1.tmp" zero_state demo_fs demo_outcomes r w'
    ltac:(discriminate) demo_fs_settled E) as [H _].
  apply H. left. reflexivity.
Defined.
