(* ===== verification/AgentRun.v ===== *)
(** * The agent's registration and heartbeats

    agents/platform-agent/internal/agent/agent.go: the stable identity, the
    registration loop with its recovery and backoff, the workers created with
    the credentials, and heartbeats with their recovery.  The control plane is
    reached through [ControlPlane]'s client; inventory, the state file, the
    clock, the context and UUIDs are the interface [AgentEnv].  Logs and
    durations are left out, counters are kept; leader election and the shutdown
    that waits for it are not modelled; the reconciler and the secrets
    syncer run concurrently and are modelled in [Reconciler] and [Syncer].
    A loop runs a given number of rounds. *)

From S2P Require Import Prelude Json Effects ControlPlane AgentState.
Open Scope Z_scope.
Open Scope se_scope.

(** ** Configuration and environment *)
Record AgentConfig := mkAgentConfig {
  cfg_token : string; cfg_agent : string; cfg_pod_uid : string;
  RegistrationRetryInterval : Z; RegistrationMaxRetryInterval : Z;
  ReconcilerEnabled : bool; SecretsSyncerEnabled : bool }.

Record Info := mkInfo {
  in_version : string; in_nodes : Z; in_provider : string; in_region : string;
  in_healthy : bool }.

Class AgentEnv (W : Type) := {
  Collect : SE string W Info;
  CheckHealth : W → bool * W;
  state_file : W → result read_error string;
  save_state : State → SE string W unit;
  (** [ctx.Done()]. *)
  cancelled : W → bool;
  (** [sleepCtx]: whether the duration elapsed. *)
  sleepCtx : Z → W → bool * W;
  (** [uuid.NewString()[:8]]. *)
  short_uuid : W → string * W;
  (** [reconciler.Flush]. *)
  flush : SE string W unit }.

(** Workers are made from credentials; [None]: no factory. *)
Record WorkerFactory := mkFactory {
  ReconcilerFactory : option (AgentCredentials → option string);
  SecretsSyncerFactory : option (AgentCredentials → option string) }.

Inductive Counter :=
| StateLoad | StateLoadFailure | StateSave | StateSaveFailure
| RegistrationAttempts | RegistrationSuccess | RegistrationFailure | RegistrationRecovered
| RecoverRequests | HeartbeatSuccess | HeartbeatFailure.

(** The running agent: [a_reconciler] and [a_syncer] are the credentials of its
    workers. *)
Record Agent (W : Type) := mkAgent {
  a_state : State; a_ready : bool;
  a_reconciler : option AgentCredentials; a_syncer : option AgentCredentials;
  a_counters : list Counter; a_world : W }.
Arguments mkAgent {W}.
Arguments a_state {W}.
Arguments a_ready {W}.
Arguments a_reconciler {W}.
Arguments a_syncer {W}.
Arguments a_counters {W}.
Arguments a_world {W}.

(** Why [Run] returns; [Rounds]: the rounds of a loop are used up. *)
Inductive run_error :=
| Cancelled
| FatalConfig (msg : string)
| WorkersFailed (msg : string)
| Rounds.

(** [nextBackoff]: the doubling wraps around at 64 bits. *)
Definition int64 (z : Z) : Z := (z + 2 ^ 63) mod 2 ^ 64 - 2 ^ 63.
Definition nextBackoff (cur max : Z) : Z :=
  let next := int64 (cur * 2) in
  let next := if next <=? 0 then cur else next in
  if (0 <? max) && (max <? next) then max else next.

Section Agent.
Context {W : Type} `{T : Transport W} `{E : AgentEnv W} `{J : StateJSON}.
Context (cfg : AgentConfig) (client : Client) (factory : option WorkerFactory).
Local Abbreviation AM := (SE client_error (Agent W)).
Local Abbreviation RM := (SE run_error (Agent W)).

(** A call to the outside. *)
Definition out {F A} (m : SE F W A) : SE F (Agent W) A := λ a,
  let '(r, w) := m (a_world a) in
  (r, mkAgent (a_state a) (a_ready a) (a_reconciler a) (a_syncer a) (a_counters a) w).
(** A function of the outside that cannot fail. *)
Definition on_world {F A} (f : W → A * W) : SE F (Agent W) A := λ a,
  let '(x, w) := f (a_world a) in
  (Ok x, mkAgent (a_state a) (a_ready a) (a_reconciler a) (a_syncer a) (a_counters a) w).
(** The outcome of [m], for code that inspects the error. *)
Definition inspect {F G A} (m : SE F (Agent W) A) : SE G (Agent W) (result F A) := λ a,
  let '(r, a') := m a in (Ok r, a').
Definition count {F} (c : Counter) : SE F (Agent W) unit :=
  modify (λ a, mkAgent (a_state a) (a_ready a) (a_reconciler a) (a_syncer a) (a_counters a ++ [c])
                 (a_world a)).
Definition set_state {F} (st : State) : SE F (Agent W) unit :=
  modify (λ a, mkAgent st (a_ready a) (a_reconciler a) (a_syncer a) (a_counters a) (a_world a)).

Definition resolveAgentID : RM unit :=
  let* st := read a_state in
  let with_id id := set_state (mkState id (st_cluster st) (st_org st) (st_registered st)) in
  if negb (String.eqb (st_agent st) "") then ret tt
  else if negb (String.eqb (cfg_agent cfg) "") then with_id (cfg_agent cfg)
  else if negb (String.eqb (cfg_pod_uid cfg) "") then with_id ("agent-" +:+ cfg_pod_uid cfg)
  else let* id := on_world short_uuid in with_id ("agent-" +:+ id).

Definition register_request (agentID : string) (info : Info) : RegisterRequest :=
  mkRegisterReq (cfg_token cfg) agentID (in_version info) (in_nodes info) (in_provider info)
    (in_region info).

Definition tryRegister : AM RegisterResponse :=
  let* collected := inspect (out Collect) in
  let* info := match collected with
               | Ok info => ret info
               | Err e => fail (ErrText ("collect inventory: " +:+ e))
               end in
  let* agentID := read (λ a, st_agent (a_state a)) in
  out (Client_Register client (register_request agentID info)).

Definition recoverRegistration : AM RegisterResponse :=
  count RecoverRequests ;;
  let* agentID := read (λ a, st_agent (a_state a)) in
  out (Client_Recover client (cfg_token cfg) agentID).

(** [saveState]; its error is only logged. *)
Definition saveState {F} : SE F (Agent W) unit :=
  count StateSave ;;
  let* st := read a_state in
  let* saved := inspect (out (save_state st)) in
  match saved with
  | Err _ => count StateSaveFailure
  | Ok _ => ret tt
  end.

Definition adopted (resp : RegisterResponse) (st : State) : State :=
  mkState (if negb (String.eqb (rp_agent resp) "") then rp_agent resp else st_agent st)
    (rp_id resp) (rp_org resp) true.

Definition adoptRegistration {F} (resp : RegisterResponse) : SE F (Agent W) unit :=
  modify (λ a, mkAgent (adopted resp (a_state a)) (a_ready a) (a_reconciler a) (a_syncer a)
                 (a_counters a) (a_world a)) ;;
  saveState.

Definition fatal_text : string :=
  "installation token is invalid or expired and no existing cluster could be recovered; a new registration token is required".

(** The loop of [ensureRegistered]; a failed attempt waits, then goes on. *)
Definition back_off (backoff : Z) (again : RM unit) : RM unit :=
  count RegistrationFailure ;;
  let* elapsed := on_world (sleepCtx backoff) in
  if elapsed : bool then again else fail Cancelled.

Fixpoint register_loop (rounds : nat) (backoff : Z) : RM unit :=
  match rounds with
  | O => fail Rounds
  | S rounds =>
      let* stop := read (λ a, cancelled (a_world a)) in
      if stop : bool then fail Cancelled
      else
        count RegistrationAttempts ;;
        let* tried := inspect tryRegister in
        let failed := back_off backoff
          (register_loop rounds (nextBackoff backoff (RegistrationMaxRetryInterval cfg))) in
        match tried with
        | Ok resp => adoptRegistration resp ;; count RegistrationSuccess
        | Err (ErrAPI e) =>
            if IsConflict e then
              let* rec := inspect recoverRegistration in
              match rec with
              | Ok resp => adoptRegistration resp ;; count RegistrationRecovered
              | Err _ => failed
              end
            else if IsUnauthorized e then
              let* rec := inspect recoverRegistration in
              match rec with
              | Ok resp => adoptRegistration resp ;; count RegistrationRecovered
              | Err _ => count RegistrationFailure ;; fail (FatalConfig fatal_text)
              end
            else failed
        | Err (ErrText _) => failed
        end
  end.

Definition first_backoff : Z :=
  if RegistrationRetryInterval cfg <=? 0 then 10 * 10 ^ 9 else RegistrationRetryInterval cfg.

Definition ensureRegistered (rounds : nat) : RM unit :=
  let* st := read a_state in
  if st_registered st && negb (String.eqb (st_cluster st) "") then ret tt
  else register_loop rounds first_backoff.

(** ** Heartbeats *)
Definition recoverAfterHeartbeatLoss : AM unit :=
  let* rec := inspect recoverRegistration in
  match rec with
  | Ok resp => adoptRegistration resp ;; count RegistrationRecovered
  | Err _ =>
      let* resp := tryRegister in
      adoptRegistration resp ;; count RegistrationRecovered
  end.

(** The inventory of a heartbeat: what could be collected, or the health only. *)
Definition heartbeat_info : RM Info :=
  let* collected := inspect (out Collect) in
  match collected with
  | Ok info => ret info
  | Err _ =>
      let* healthy := on_world CheckHealth in
      ret (mkInfo "" 0 "" "" healthy)
  end.

Definition creds_of (st : State) : AgentCredentials := mkCreds (st_cluster st) (st_agent st).

Definition sendHeartbeat : RM unit :=
  let* info := heartbeat_info in
  let* st := read a_state in
  let* sent := inspect (out (Client_HeartbeatWithCreds client (creds_of st)
    (mkHeartbeat (st_agent st) (in_version info) (in_nodes info) (in_healthy info)))) in
  match sent with
  | Ok _ => count HeartbeatSuccess
  | Err e =>
      count HeartbeatFailure ;;
      match e with
      | ErrAPI api =>
          if IsUnauthorized api || APIError_IsNotFound api
          then let* _ := inspect recoverAfterHeartbeatLoss in ret tt
          else ret tt
      | ErrText _ => ret tt
      end
  end.

(** The heartbeat of the start, then one per tick. *)
Fixpoint heartbeat_ticks (ticks : nat) : RM unit :=
  match ticks with
  | O => fail Rounds
  | S ticks =>
      let* stop := read (λ a, cancelled (a_world a)) in
      if stop : bool then fail Cancelled else sendHeartbeat ;; heartbeat_ticks ticks
  end.
Definition heartbeatLoop (ticks : nat) : RM unit := sendHeartbeat ;; heartbeat_ticks ticks.

(** ** Run *)
Definition initializeWorkers : RM unit :=
  match factory with
  | None => ret tt
  | Some f =>
      let* st := read a_state in
      let creds := creds_of st in
      match ReconcilerFactory f, ReconcilerEnabled cfg with
      | Some make, true =>
          match make creds with
          | Some e => fail (WorkersFailed ("create reconciler: " +:+ e))
          | None => modify (λ a, mkAgent (a_state a) (a_ready a) (Some creds) (a_syncer a)
                                   (a_counters a) (a_world a))
          end
      | _, _ => ret tt
      end ;;
      match SecretsSyncerFactory f, SecretsSyncerEnabled cfg with
      | Some make, true =>
          match make creds with
          | Some e => fail (WorkersFailed ("create secrets syncer: " +:+ e))
          | None => modify (λ a, mkAgent (a_state a) (a_ready a) (a_reconciler a) (Some creds)
                                   (a_counters a) (a_world a))
          end
      | _, _ => ret tt
      end
  end.

Definition load_state : RM unit :=
  count StateLoad ;;
  let* data := read (λ a, state_file (a_world a)) in
  match LoadState data with
  | Ok st => set_state st
  | Err _ => count StateLoadFailure ;; set_state zero_state
  end.

(** Up to where the agent is ready. *)
Definition agent_start (rounds : nat) : RM unit :=
  load_state ;;
  resolveAgentID ;;
  ensureRegistered rounds.

(** [shutdown], without the wait for the elector; its error is only logged. *)
Definition shutdown : RM unit :=
  let* rec := read a_reconciler in
  match rec with
  | Some _ => let* _ := inspect (out flush) in ret tt
  | None => ret tt
  end.

Definition agent_Run (rounds ticks : nat) : RM unit :=
  agent_start rounds ;;
  modify (λ a, mkAgent (a_state a) true (a_reconciler a) (a_syncer a) (a_counters a) (a_world a)) ;;
  let* workers := inspect initializeWorkers in
  match workers with
  | Err (WorkersFailed e) => fail (WorkersFailed ("failed to initialize workers: " +:+ e))
  | Err e => fail e
  | Ok _ =>
      let* stopped := inspect (heartbeatLoop ticks) in
      shutdown ;;
      match stopped with Ok _ => ret tt | Err e => fail e end
  end.
End Agent.
