(* ===== verification/RegistrationFacts.v ===== *)
(** * The agent registers

    [ensureRegistered] of [AgentRun]: how it ends and what it leaves alone, and
    the schedule of its backoff. *)

From S2P Require Import Prelude Effects ControlPlane AgentState AgentRun.
Open Scope Z_scope.
Open Scope se_scope.

(** ** Backoff *)
Lemma nextBackoff_doubles cur max : 0 < cur < 2 ^ 63 →
  nextBackoff cur max =
  let next := if cur <? 2 ^ 62 then 2 * cur else cur in
  if 0 <? max then Z.min max next else next.
Proof.
  intros Hc. unfold nextBackoff, int64.
  destruct (Z.ltb_spec cur (2 ^ 62)) as [Hs|Hs]; cbn zeta.
  - rewrite Z.mod_small by lia. replace (cur * 2 + 2 ^ 63 - 2 ^ 63) with (2 * cur) by lia.
    destruct (Z.leb_spec (2 * cur) 0); [lia|].
    destruct (Z.ltb_spec 0 max), (Z.ltb_spec max (2 * cur)); simpl; lia.
  - rewrite <- (Z.mod_unique (cur * 2 + 2 ^ 63) (2 ^ 64) 1 (cur * 2 - 2 ^ 63)) by lia.
    destruct (Z.leb_spec (cur * 2 - 2 ^ 63 - 2 ^ 63) 0); [|lia].
    destruct (Z.ltb_spec 0 max), (Z.ltb_spec max cur); simpl; lia.
Qed.

(** The wait before round [k + 1]. *)
Definition nth_backoff (first max : Z) (k : nat) : Z := Nat.iter k (λ cur, nextBackoff cur max) first.

(** The waits between registration attempts double up to the configured
    maximum; whatever the configuration, they stay positive durations in the
    range of int64, and without a maximum they never shrink. *)
Theorem backoff_schedule first max k
    (Hf : 0 < first < 2 ^ 63) (Hm : max < 2 ^ 63) :
  0 < nth_backoff first max k < 2 ^ 63 ∧
  (0 < max → first ≤ max → max ≤ 2 ^ 62 →
     nth_backoff first max k = Z.min max (first * 2 ^ Z.of_nat k)) ∧
  (max ≤ 0 → nth_backoff first max k ≤ nth_backoff first max (S k)).
Proof.
  assert (Hr : 0 < nth_backoff first max k < 2 ^ 63).
  { induction k as [|k IH]; [done|]. simpl. fold (nth_backoff first max k).
    rewrite nextBackoff_doubles by done. cbn zeta.
    destruct (Z.ltb_spec (nth_backoff first max k) (2 ^ 62)), (Z.ltb_spec 0 max); lia. }
  split; [done|]. split.
  - intros Hp Hle Hb. clear Hr. induction k as [|k IH].
    { simpl. lia. }
    simpl. fold (nth_backoff first max k). rewrite IH. clear IH. set (x := first * 2 ^ Z.of_nat k).
    assert (0 < x) by (unfold x; nia).
    replace (first * 2 ^ Z.of_nat (S k)) with (2 * x)
      by (unfold x; rewrite Nat2Z.inj_succ, Z.pow_succ_r by lia; lia).
    rewrite nextBackoff_doubles by lia. cbn zeta.
    destruct (Z.ltb_spec (Z.min max x) (2 ^ 62)), (Z.ltb_spec 0 max); lia.
  - intros Hp. simpl. fold (nth_backoff first max k). rewrite nextBackoff_doubles by done. cbn zeta.
    destruct (Z.ltb_spec (nth_backoff first max k) (2 ^ 62)), (Z.ltb_spec 0 max); lia.
Qed.

Lemma backoff_schedule_witness :
  (let second := 10 ^ 9 in nth_backoff (10 * second) (60 * second) 2 = 40 * second) ∧
  nth_backoff (10 * 10 ^ 9) (60 * 10 ^ 9) 3 = Z.min (60 * 10 ^ 9) (10 * 10 ^ 9 * 2 ^ 3).
Proof.
  split; [vm_compute; reflexivity|].
  destruct (backoff_schedule (10 * 10 ^ 9) (60 * 10 ^ 9) 3 ltac:(lia) ltac:(lia)) as (_ & H & _).
  apply H; lia.
Defined.

(** ** What registering leaves alone *)
Section Facts.
Context {W : Type} `{T : Transport W} `{E : AgentEnv W} `{J : StateJSON}.
Context (cfg : AgentConfig) (client : Client).
Implicit Types a : Agent W.

(** The identity of the agent, its workers and its readiness. *)
Definition same_workers a a' : Prop :=
  a_ready a' = a_ready a ∧ a_reconciler a' = a_reconciler a ∧ a_syncer a' = a_syncer a.
Definition same_agent a a' : Prop := a_state a' = a_state a ∧ same_workers a a'.

#[export] Instance same_workers_preorder : PreOrder same_workers.
Proof. split; [by intros a|]. intros a b c (?&?&?) (?&?&?). split_and!; congruence. Qed.
#[export] Instance same_agent_preorder : PreOrder same_agent.
Proof. split; [by intros a|]. intros a b c [? ?] [? ?]. split; [congruence|by etrans]. Qed.
#[export] Instance same_agent_workers : subrelation same_agent same_workers.
Proof. by intros a b [_ H]. Qed.

Lemma out_same {F A} (m : SE F W A) : preserves same_agent (out m).
Proof. intros a. unfold out. by destruct (m (a_world a)). Qed.
Lemma count_same {F} c : preserves same_agent (count (W := W) (F := F) c).
Proof. by intros a. Qed.
Lemma on_world_same {F A} (f : W → A * W) : preserves same_agent (on_world (F := F) f).
Proof. intros a. unfold on_world. by destruct (f (a_world a)). Qed.
Lemma inspect_same {F G A} (m : SE F (Agent W) A) :
  preserves same_agent m → preserves same_agent (inspect (G := G) m).
Proof. intros Hm a. specialize (Hm a). unfold inspect. by destruct (m a). Qed.
#[local] Hint Resolve out_same count_same on_world_same inspect_same : preserves.

Lemma tryRegister_same : preserves same_agent (tryRegister cfg client).
Proof. unfold tryRegister. solve_preserves. Qed.
Lemma recoverRegistration_same : preserves same_agent (recoverRegistration cfg client).
Proof. unfold recoverRegistration. solve_preserves. Qed.
Lemma saveState_same {F} : preserves same_agent (saveState (W := W) (F := F)).
Proof. unfold saveState. solve_preserves. Qed.
#[local] Hint Resolve tryRegister_same recoverRegistration_same saveState_same : preserves.

Lemma saveState_ok {F} a : ∃ a', saveState (W := W) (F := F) a = (Ok tt, a').
Proof.
  unfold saveState, count, modify, read, bind, inspect.
  destruct (out (save_state _) _) as [[[]|e] a']; eauto.
Qed.
Lemma adoptRegistration_ok {F} resp a : ∃ a',
  adoptRegistration (W := W) (F := F) resp a = (Ok tt, a') ∧
  a_state a' = adopted resp (a_state a) ∧ same_workers a a'.
Proof.
  set (b := mkAgent (adopted resp (a_state a)) (a_ready a) (a_reconciler a) (a_syncer a)
              (a_counters a) (a_world a)).
  change (adoptRegistration resp a) with (saveState (F := F) b).
  pose proof (saveState_same (F := F) b) as Hs. destruct (saveState_ok (F := F) b) as [a' Ha].
  rewrite Ha in Hs. rewrite Ha. destruct Hs as [Hst Hw]. cbn in Hst, Hw. exists a'. split_and!; [done|exact Hst|apply Hw..].
Qed.

(** A response the control plane gave to an attempt or a recovery. *)
Definition granted resp a1 : Prop := ∃ a2,
  tryRegister cfg client a1 = (Ok resp, a2) ∨ recoverRegistration cfg client a1 = (Ok resp, a2).
(** An attempt refused with 401, and the recovery that failed after it. *)
Definition refused a1 : Prop := ∃ e a2 e' a3,
  tryRegister cfg client a1 = (Err (ErrAPI e), a2) ∧ IsUnauthorized e = true ∧
  recoverRegistration cfg client a2 = (Err e', a3).

(** How registering ends: from [a] with result [r] in [a']. *)
Definition outcome a (r : result run_error unit) a' : Prop :=
  same_workers a a' ∧
  match r with
  | Ok _ => ∃ resp a1, same_agent a a1 ∧ granted resp a1 ∧ a_state a' = adopted resp (a_state a)
  | Err (FatalConfig m) => m = fatal_text ∧ a_state a' = a_state a ∧ ∃ a1, same_agent a a1 ∧ refused a1
  | Err (WorkersFailed _) => False
  | Err Cancelled | Err Rounds => a_state a' = a_state a
  end.

Lemma outcome_trans a a1 r a' : same_agent a a1 → outcome a1 r a' → outcome a r a'.
Proof.
  intros Hs [Hw' Hr]. pose proof Hs as [Hst Hw]. split; [by etrans|].
  destruct r as [u|[|m|m|]]; [|congruence| |done|congruence].
  - destruct Hr as (resp & x & Hx & Hg & Hr). exists resp, x. split_and!; [by etrans|done|].
    by rewrite Hr, Hst.
  - destruct Hr as (-> & Hs' & x & Hx & Hf). split_and!; [done|congruence|].
    exists x. split; [by etrans|done].
Qed.

Lemma adopt_outcome resp c a0 a :
  same_agent a0 a → granted resp a0 →
  let m : SE run_error (Agent W) unit := adoptRegistration resp ;; count c in
  outcome a0 (m a).1 (m a).2.
Proof.
  intros [Hs0 Hw0] Hg. cbn zeta. unfold bind.
  destruct (adoptRegistration_ok (F := run_error) resp a) as (a1 & -> & Hst & Hw).
  cbn. split; [by etrans|]. exists resp, a0. split_and!; try done. cbn. congruence.
Qed.

(** A step that cannot fail comes first. *)
Lemma outcome_after {A} (m : SE run_error (Agent W) A) k a x :
  preserves same_agent m → (m a).1 = Ok x →
  outcome (m a).2 (k x (m a).2).1 (k x (m a).2).2 → outcome a (bind m k a).1 (bind m k a).2.
Proof.
  intros Hm Hx Hk. specialize (Hm a). unfold bind. destruct (m a) as [r a1]. simpl in *. subst r.
  by eapply outcome_trans.
Qed.

Lemma bind_inspect {F G A B} (m : SE F (Agent W) A) (k : _ → SE G (Agent W) B) a r a1 :
  m a = (r, a1) → bind (inspect m) k a = k r a1.
Proof. intros Hm. unfold bind, inspect. by rewrite Hm. Qed.
Lemma outcome_tried {A} (m : SE client_error (Agent W) A) (k : _ → SE run_error (Agent W) unit) a :
  preserves same_agent m →
  (∀ r a1, same_agent a a1 → m a = (r, a1) → outcome a (k r a1).1 (k r a1).2) →
  outcome a (bind (inspect m) k a).1 (bind (inspect m) k a).2.
Proof.
  intros Hm Hk. specialize (Hm a). destruct (m a) as [r a1] eqn:E1. erewrite bind_inspect by done.
  by apply Hk.
Qed.

Lemma back_off_outcome backoff again a0 a :
  same_agent a0 a → (∀ a, outcome a (again a).1 (again a).2) →
  outcome a0 (back_off backoff again a).1 (back_off backoff again a).2.
Proof.
  intros Hs Hk. eapply outcome_trans; [exact Hs|]. clear a0 Hs. unfold back_off. eapply outcome_after; [apply count_same|done|].
  set (a1 := (count _ a).2). destruct (sleepCtx backoff (a_world a1)) as [elapsed w] eqn:Hsl.
  eapply (outcome_after _ _ _ elapsed); [apply on_world_same|unfold on_world; by rewrite Hsl|].
  by destruct elapsed.
Qed.

Lemma register_loop_outcome rounds : ∀ backoff a,
  outcome a (register_loop cfg client rounds backoff a).1 (register_loop cfg client rounds backoff a).2.
Proof.
  induction rounds as [|rounds IH]; intros backoff a; [done|]. cbn [register_loop].
  eapply outcome_after; [apply preserves_read; exact _|done|].
  destruct (cancelled _); [done|]. eapply outcome_after; [apply count_same|done|].
  set (a1 := (count _ _).2).
  eapply outcome_tried; [apply tryRegister_same|]. intros tried a2 H2 Htry.
  destruct tried as [resp|[t|e]]; [eapply adopt_outcome; [done|exists a2; by left]| |].
  { by apply back_off_outcome. }
  destruct (IsConflict e).
  - eapply outcome_trans; [exact H2|]. eapply outcome_tried; [apply recoverRegistration_same|].
    intros [resp|e'] a3 H3 Hrec; [eapply adopt_outcome; [done|exists a3; by right]|].
    by apply back_off_outcome.
  - destruct (IsUnauthorized e) eqn:Hun; [|by apply back_off_outcome].
    pose proof (recoverRegistration_same a2) as H3.
    destruct (recoverRegistration cfg client a2) as [[resp|e'] a3] eqn:Hrec;
      rewrite (bind_inspect _ _ _ _ _ Hrec).
    { eapply outcome_trans; [exact H2|]. eapply adopt_outcome; [exact H3|]. exists a3. by right. }
    assert (H4 : same_agent a1 a3) by (by etrans).
    split; [apply H4|]. split; [done|]. split; [apply H4|].
    exists a1. split; [done|]. by exists e, a2, e', a3.
Qed.

(** Registering ends in one of four ways, and never touches the workers or
    the readiness: the agent is registered, and then its identity is what it was
    or the one the control plane granted it in answer to an attempt or a
    recovery; it was cancelled, or (for a bounded number of rounds) is still
    trying, with its identity unchanged; or it gives up for good, which happens
    only after the control plane refused an attempt with 401 and the recovery
    that followed failed.  A failure to reach the control plane, any other status
    and a conflict never end the agent. *)
Theorem registration_outcome rounds a :
  let r := (ensureRegistered cfg client rounds a).1 in
  let a' := (ensureRegistered cfg client rounds a).2 in
  same_workers a a' ∧
  match r with
  | Ok _ => st_registered (a_state a') = true ∧
      (a' = a ∨ ∃ resp a1, same_agent a a1 ∧ granted resp a1 ∧ a_state a' = adopted resp (a_state a))
  | Err (FatalConfig m) => m = fatal_text ∧ a_state a' = a_state a ∧ ∃ a1, same_agent a a1 ∧ refused a1
  | Err (WorkersFailed _) => False
  | Err Cancelled | Err Rounds => a_state a' = a_state a
  end.
Proof.
  cbn zeta.
  assert (ensureRegistered cfg client rounds a =
    if st_registered (a_state a) && negb (String.eqb (st_cluster (a_state a)) "") then (Ok tt, a)
    else register_loop cfg client rounds (first_backoff cfg) a) as ->.
  { unfold ensureRegistered, bind, read. by case_match. }
  destruct (st_registered (a_state a) && _) eqn:Hreg.
  { apply andb_true_iff in Hreg as [Hreg _]. split; [done|]. split; [done|]. by left. }
  destruct (register_loop_outcome rounds (first_backoff cfg) a) as [Hw Hr]. split; [done|].
  destruct (register_loop _ _ _ _ a) as [[u|[|m|m|]] a']; cbn in *; try done.
  destruct Hr as (resp & a1 & Hs & Hg & ->). split; [done|]. right. by exists resp, a1.
Qed.
End Facts.
