(* ===== verification/AgentServer.v ===== *)
(** * An agent and the cluster service

    The two sides together: the agent of [AgentRun] talks through its client
    to the handlers of [ClusterApi].  A request is routed by its path under the
    base URL, headers are matched without regard to case, bodies are decoded
    into the structs of the service, and an error becomes the status its
    handler renders.  The text of a cluster view in a response is a codec,
    [ViewJSON]; what other paths answer is a parameter.  The agent's host (its
    inventory, state file, clock and UUIDs) is any [AgentEnv]. *)

From S2P Require Import Prelude Total Json GoTime AppErrors Tx Events Pagination Authz ClusterStore.
From S2P Require Import Total ClusterService ClusterApi ClusterSpec ClusterFacts ClusterSteps.
From S2P Require Import ClusterCorrectness ClusterCompleteness.
From S2P Require Import Http Effects ControlPlane AgentState AgentRun RegistrationFacts.
Open Scope Z_scope.
#[local] Opaque Sha256.Sum256.

(** ** The wire *)
(** What the agent decodes from a cluster view; the fields have the same names. *)
Definition response_of (v : ClusterView) (registered : Z) : RegisterResponse :=
  mkRegisterResp (kv_id v) (kv_org v) (kv_name v) (kv_slug v) (kv_status v) (kv_k8s v) (kv_nodes v)
    (kv_provider v) (kv_region v) (kv_agent v) registered.

Class ViewJSON := {
  marshal_view : ClusterView → string;
  unmarshal_view : string → result string RegisterResponse;
  unmarshal_marshal_view v : ∃ t,
    unmarshal_view (marshal_view v) = Ok (response_of v t) ∧
    (∀ r, kv_registered v = Some r → t = r) }.

(** [BodyParser] into [AgentRegisterRequest]. *)
Definition parse_register (body : option json) : option AgentRegisterRequest :=
  match body with
  | Some (JObj f) =>
      match json_field f "token", json_field f "agentId", json_field f "kubernetesVersion",
            json_num_field f "nodeCount", json_field f "cloudProvider", json_field f "region" with
      | Some t, Some a, Some k, Some n, Some p, Some r => Some (mkRegister t a k n p r)
      | _, _, _, _, _, _ => None
      end
  | _ => None
  end.

Definition route (base : string) (req : http_request) : option ClusterAgentRequest :=
  let path := GoStrings.TrimPrefix (hr_url req) base in
  if String.eqb (hr_method req) "POST" && String.eqb path "/v1/agent/register"
  then Some (PostRegister (parse_register (hr_body req)))
  else if String.eqb (hr_method req) "GET" && String.eqb path "/v1/agent/recover"
  then Some (GetRecover (header (hr_headers req) "X-Registration-Token")
               (header (hr_headers req) "Authorization") (header (hr_headers req) "X-Agent-ID"))
  else None.

(** ** The world: the service's session and the agent's host *)
Record World (H : Type) := mkWorld { server : Sess CDB COutside; host : H }.
Arguments mkWorld {H}.
Arguments server {H}.
Arguments host {H}.

Section Server.
Context {H : Type} `{E : AgentEnv H} `{V : ViewJSON} `{J : StateJSON}.
Context (base : string) (elsewhere : http_request → http_response)
  (error_text : goerr → string) (not_desired : string → result string DesiredStateResponse).

Definition body_text (b : CBody) : string :=
  match b with CBCluster v => marshal_view v | _ => "" end.
Definition exchange (req : http_request) (w : World H) : result string http_response * World H :=
  match route base req with
  | None => (Ok (elsewhere req), w)
  | Some r =>
      let '(res, s) := cserve_agent true r (server w) in
      (Ok (match res with
           | Ok resp => mkResp (cr_status resp) (body_text (cr_body resp)) None
           | Err e => mkResp (client_status e) (error_text e) None
           end), mkWorld s (host w))
  end.

#[export] Instance server_transport : Transport (World H) :=
  {| NewRequest_error := λ _, None;
     Do := exchange;
     unmarshal_ErrorResponse := λ _, None;
     unmarshal_DesiredState := not_desired;
     unmarshal_RegisterResponse := unmarshal_view |}.

Definition on_host {A} (f : H → A * H) (w : World H) : A * World H :=
  let '(x, h) := f (host w) in (x, mkWorld (server w) h).
#[export] Instance world_env : AgentEnv (World H) :=
  {| Collect := on_host Collect;
     CheckHealth := on_host CheckHealth;
     state_file := λ w, state_file (host w);
     save_state := λ st, on_host (save_state st);
     cancelled := λ w, cancelled (host w);
     sleepCtx := λ d, on_host (sleepCtx d);
     short_uuid := on_host short_uuid;
     flush := on_host flush |}.

(** ** Recovery of an agent that lost its state *)
Implicit Types w : World H.
Context (cfg : AgentConfig).
Let client := mkClient base.

(** The host the agent starts on: no state file, an inventory, no shutdown. *)
Record fresh_host (h : H) : Prop := {
  fh_file : state_file h = Err NotExist;
  fh_collect (x : H) : ∃ info h', Collect x = (Ok info, h');
  fh_live (x : H) : cancelled x = false }.

Lemma parse_json_register r :
  parse_register (Some (json_RegisterRequest r)) =
  Some (mkRegister (rr_token r) (rr_agent r) (rr_version r) (rr_nodes r) (rr_provider r) (rr_region r)).
Proof.
  unfold json_RegisterRequest, omit_str.
  destruct (String.eqb_spec (rr_provider r) "") as [->|], (String.eqb_spec (rr_region r) "") as [->|];
    reflexivity.
Qed.

Definition sent (r : RegisterRequest) : AgentRegisterRequest :=
  mkRegister (rr_token r) (rr_agent r) (rr_version r) (rr_nodes r) (rr_provider r) (rr_region r).

(** The client's call is the service's. *)
Lemma Client_Register_served r w c s' :
  Service_RegisterAgent true (sent r) (server w) = (Ok c, s') →
  ∃ t, Client_Register client r w = (Ok (response_of (toClusterView c) t), mkWorld s' (host w)).
Proof.
  intros Hs. destruct (unmarshal_marshal_view (toClusterView c)) as (t & Ht & _). exists t.
  unfold Client_Register, new_request, do_request, read_body, bind, ret. cbn -[parse_register].
  unfold exchange, route. cbn -[GoStrings.TrimPrefix parse_register String.append].
  rewrite trim_prefix_app. cbn -[parse_register]. rewrite parse_json_register. fold (sent r).
  unfold CHandler_RegisterAgent, parseBody, Tx.bind, Tx.ret. rewrite Hs. cbn. unfold decode.
  by rewrite Ht.
Qed.

(** An agent without state gets an identity, and nothing else happens. *)
Lemma load_and_resolve w :
  fresh_host (host w) → ∃ id h counters,
    (load_state ;; resolveAgentID cfg)%se (mkAgent zero_state false None None [] w)
    = (Ok tt, mkAgent (mkState id "" "" false) false None None counters (mkWorld (server w) h)) ∧
    id ≠ "".
Proof.
  intros Hf. destruct w as [s h]. unfold load_state, resolveAgentID, count, set_state, bind, read, modify.
  pose proof (fh_file _ Hf) as Hfile. cbn in Hfile. cbn. rewrite Hfile. cbn.
  destruct (String.eqb_spec (cfg_agent cfg) "") as [|Ha]; [|by eauto 10]. cbn.
  destruct (String.eqb_spec (cfg_pod_uid cfg) "") as [|Hp]; [|by eauto 10]. cbn.
  unfold on_world, on_host. cbn. destruct (short_uuid h) as [u h']. cbn. by eauto 10.
Qed.

Lemma adopt_served resp (a : Agent (World H)) : ∃ h a',
  (adoptRegistration resp ;; count RegistrationSuccess : SE run_error _ unit)%se a = (Ok tt, a') ∧
  a_state a' = adopted resp (a_state a) ∧ a_world a' = mkWorld (server (a_world a)) h.
Proof.
  unfold adoptRegistration, saveState, count, bind, modify, read, inspect, out. cbn. unfold on_host.
  destruct (save_state _ (host (a_world a))) as [[u|e] h']; cbn; by eauto 10.
Qed.

Lemma out_eq {F A} (m : SE F (World H) A) (a : Agent (World H)) r w : m (a_world a) = (r, w) →
  out m a = (r, mkAgent (a_state a) (a_ready a) (a_reconciler a) (a_syncer a) (a_counters a) w).
Proof. unfold out. by intros ->. Qed.
Lemma tryRegister_served st l s h h1 info c s' :
  Collect h = (Ok info, h1) →
  Service_RegisterAgent true (sent (register_request cfg (st_agent st) info)) s = (Ok c, s') →
  ∃ t, tryRegister cfg client (mkAgent st false None None l (mkWorld s h))
       = (Ok (response_of (toClusterView c) t), mkAgent st false None None l (mkWorld s' h1)).
Proof.
  intros Hinfo Hs.
  destruct (Client_Register_served (register_request cfg (st_agent st) info) (mkWorld s h1) c s' Hs)
    as (t & Ht). exists t.
  unfold tryRegister. erewrite bind_Ok; [|unfold inspect, out; cbn; unfold on_host; cbn; by rewrite Hinfo].
  erewrite bind_Ok by done. erewrite bind_Ok by done. exact (out_eq _ _ _ _ Ht).
Qed.

Lemma register_served rounds backoff id h h1 info counters s c s' :
  cancelled h = false → Collect h = (Ok info, h1) →
  Service_RegisterAgent true (sent (register_request cfg id info)) s = (Ok c, s') →
  ∃ a', register_loop cfg client (S rounds) backoff
          (mkAgent (mkState id "" "" false) false None None counters (mkWorld s h)) = (Ok tt, a') ∧
        a_state a' = mkState (if String.eqb (default "" (k_agent c)) "" then id else default "" (k_agent c))
                       (k_id c) (k_org c) true ∧
        server (a_world a') = s'.
Proof.
  intros Hl Hinfo Hs. cbn [register_loop]. erewrite bind_Ok by done. cbn. rewrite Hl.
  erewrite bind_Ok by done. cbn.
  destruct (tryRegister_served (mkState id "" "" false) (counters ++ [RegistrationAttempts])
    s h h1 info c s' Hinfo Hs) as (t & Ht). rewrite (bind_inspect _ _ _ _ _ Ht).
  destruct (adopt_served (response_of (toClusterView c) t) (mkAgent (mkState id "" "" false) false None None
      (counters ++ [RegistrationAttempts]) (mkWorld s' h1))) as (h2 & a' & Ha & Hst & Hw).
  exists a'. split; [exact Ha|]. split; [|by rewrite Hw].
  rewrite Hst. unfold adopted. cbn. by destruct (String.eqb _ _).
Qed.

(** C23. An agent that lost its local state finds its way back with the
    installation token it was first registered with, although that token is
    used and whatever identity the agent derives now: started on a host without
    a state file, whose inventory can be collected, against a service without
    faults whose database role bypasses the row-level security, and with its
    cluster not deleted, it takes one request to be registered as the agent, the
    cluster and the organization the control plane has recorded, and the service
    has written nothing but one event. *)
Theorem lost_agent_recovers n w kt t c a
    (Hf : fresh_host (host w)) (Hh : healthy (server w)) (Hu : cfresh_uuids (server w))
    (W : cwf (store (server w)))
    (Ht : ct_tokens (store (server w)) !! kt = Some t) (Hst : tk_status t = TokenStatusUsed)
    (Hhash : tk_hash t = hashToken (cfg_token cfg)) (Htok : cfg_token cfg ≠ "")
    (Hc : ct_clusters (store (server w)) !! tk_cluster t = Some c) (Hl : live c = true)
    (Ha : k_agent c = Some a) (Ho : k_org c ≠ "") :
  ∃ a', agent_start cfg client (S n) (mkAgent zero_state false None None [] w) = (Ok tt, a') ∧
    a_state a' = mkState a (tk_cluster t) (k_org c) true ∧
    ∃ row, store (server (a_world a')) = append_row row (store (server w)).
Proof.
  destruct (load_and_resolve w Hf) as (id & h & counters & Hstart & Hid).
  destruct (fh_collect _ Hf h) as (info & h1 & Hinfo).
  destruct (total_RegisterAgent_used (sent (register_request cfg id info)) (server w) kt t c a
    (λ c' s', c' = c ∧ enqueued (server w) s')) as (c' & s' & Hreg & _ & _ & -> & _ & _ & _ & row & Hrow);
    try done.
  destruct (register_served n (first_backoff cfg) id h h1 info counters (server w) c s')
    as (a' & Hrun & Hstate & Hserver); [apply Hf|exact Hinfo|exact Hreg|].
  exists a'. split; [|split; [|exists row; by rewrite Hserver]].
  - unfold agent_start. rewrite (bind_assoc load_state), (bind_Ok _ _ _ _ _ Hstart). exact Hrun.
  - rewrite Hstate, Ha. simpl. assert (a ≠ "") as ->%String.eqb_neq by by eapply cw_agent.
    f_equal. by eapply cw_clu_key.
Qed.
End Server.

(** ** The scenario

    The agent of [ClusterCorrectness] comes back without its state file, on a
    host where it makes up an identity. *)
Definition demo_view_fields (v : ClusterView) :=
  (kv_id v, kv_org v, kv_name v, kv_slug v, kv_status v, kv_k8s v, kv_nodes v, kv_provider v,
   kv_region v, kv_agent v, kv_registered v).
Definition demo_unmarshal_view (s : string) : result string RegisterResponse :=
  match value_of_text (A := string * string * string * string * string * string * option Z * string *
                            string * string * option Z) s with
  | Some (i, o, n, sl, st, k, no, p, r, a, reg) =>
      Ok (mkRegisterResp i o n sl st k no p r a (default 0 reg))
  | None => Err "invalid character"%string
  end.
Lemma demo_view_codec v : ∃ t,
  demo_unmarshal_view (text_of_value (demo_view_fields v)) = Ok (response_of v t) ∧
  (∀ r, kv_registered v = Some r → t = r).
Proof.
  unfold demo_unmarshal_view. rewrite value_of_text_of_value. eexists. split; [reflexivity|].
  by intros r ->.
Qed.
#[local] Instance demo_ViewJSON : ViewJSON := {| unmarshal_marshal_view := demo_view_codec |}.

#[local] Instance demo_host : AgentEnv unit :=
  {| Collect := λ h, (Ok (mkInfo "v1.30" 3 "aws" "" true), h);
     CheckHealth := λ h, (true, h);
     state_file := λ _, Err NotExist;
     save_state := λ _ h, (Err "read-only file system"%string, h);
     cancelled := λ _, false;
     sleepCtx := λ _ h, (true, h);
     short_uuid := λ h, ("0f3a9c11"%string, h);
     flush := λ h, (Ok tt, h) |}.

Definition demo_agent_cfg : AgentConfig := mkAgentConfig cdemo_token "" "" 0 0 true true.

Lemma lost_agent_recovers_witness : ∃ a',
  agent_start (W := World unit) (T := server_transport "https://cp" (λ _, mkResp 404 "" None)
      (λ _, EmptyString) (λ _, Err EmptyString))
    demo_agent_cfg (mkClient "https://cp") 1
    (mkAgent zero_state false None None [] (mkWorld cdemo_3 tt)) = (Ok tt, a') ∧
  a_state a' = mkState "agent-1" "id0" "acme" true.
Proof.
  destruct (lookup_computed (ct_tokens (store cdemo_3) !! "id4"%string) (λ t,
      String.eqb (tk_status t) TokenStatusUsed && String.eqb (tk_hash t) (hashToken cdemo_token) &&
      String.eqb (tk_cluster t) "id0")) as (t & Ht & Hb); [vm_compute; reflexivity|].
  apply andb_true_iff in Hb as [[Hst Hh]%andb_true_iff Hcl]. apply String.eqb_eq in Hst, Hh, Hcl.
  destruct (lookup_computed (ct_clusters (store cdemo_3) !! "id0"%string) (λ c,
      live c && bool_decide (k_agent c = Some "agent-1"%string) && String.eqb (k_org c) "acme"))
    as (c & Hc & Hb); [vm_compute; reflexivity|].
  apply andb_true_iff in Hb as [[Hl Ha]%andb_true_iff Ho]. apply String.eqb_eq in Ho.
  apply bool_decide_eq_true in Ha. rewrite <- Hcl in Hc.
  assert (Hh3 : healthy cdemo_3) by (split; vm_compute; reflexivity).
  assert (Hf : cfresh_uuids cdemo_3) by (apply cdemo_fresh; vm_compute; reflexivity).
  assert (Hhost : fresh_host tt) by (split; [reflexivity|by intros []; eexists _, _|reflexivity]).
  assert (Hn : k_org c ≠ "") by (rewrite Ho; discriminate).
  destruct (lost_agent_recovers "https://cp" (λ _, mkResp 404 "" None) (λ _, EmptyString)
    (λ _, Err EmptyString) demo_agent_cfg 0 (mkWorld cdemo_3 tt) "id4" t c "agent-1"
    Hhost Hh3 Hf cdemo_wf_3 Ht Hst Hh ltac:(discriminate) Hc Hl Ha Hn) as (a' & Hrun & Hs & _).
  exists a'. split; [exact Hrun|]. rewrite Hs, Hcl, Ho. reflexivity.
Defined.
