(* ===== verification/Syncer.v ===== *)
(** * The secret synchronisation of the agent

    agents/platform-agent/internal: controlplane/secrets.go (the request for the
    cluster's secrets), secrets/k8s_manager.go (Kubernetes secrets the agent
    owns) and secrets/syncer.go (the cycle that makes one Kubernetes secret per
    project).  The typed client of Kubernetes secrets, the JSON of the response,
    the state file and the clock are parameters; the order in which Go ranges
    over the projects is the world's.  Logs are left out. *)

From S2P Require Import Prelude Effects ControlPlane K8s Manager.
Open Scope Z_scope.
Open Scope se_scope.

(** ** controlplane/secrets.go *)
Record CPSecret := mkCPSecret {
  cps_project : string; cps_name : string; cps_value : string; cps_version : Z }.

(** [json.Unmarshal] into a [SecretsResponse]: its list. *)
Class SecretsJSON := { unmarshal_SecretsResponse : string → result string (list CPSecret) }.

Definition Client_GetSecrets {W} `{Transport W} `{SecretsJSON} (c : Client) (creds : AgentCredentials)
    : SE client_error W (list CPSecret) :=
  let* httpReq := new_request "GET"
    (baseURL c +:+ "/v1/agent/clusters/" +:+ cr_cluster creds +:+ "/secrets") (agent_headers creds) None in
  let* resp := do_request httpReq in
  let* respBody := read_body resp in
  if negb (hp_status resp =? 200) then fail (api_error resp)
  else decode (unmarshal_SecretsResponse respBody).

(** ** secrets/k8s_manager.go *)
Record KSecret := mkKSecret { ks_meta : ObjectMeta; ks_type : string; ks_data : labels }.

(** The typed client: namespace and name first; [List] takes a selector. *)
Class SecretsAPI (K : Type) := {
  SecretGet : string → string → SE kube_error K KSecret;
  SecretCreate : string → KSecret → SE kube_error K KSecret;
  SecretUpdate : string → KSecret → SE kube_error K KSecret;
  SecretDelete : string → string → SE kube_error K unit;
  SecretList : string → string → SE kube_error K (list KSecret) }.

Record SecretSpec := mkSecretSpec {
  ss_name : string; ss_namespace : string; ss_project : string; ss_data : labels; ss_version : Z;
  ss_labels : labels; ss_annotations : labels }.
Record SecretApplyResult := mkSApplied { sar_created : bool; sar_updated : bool }.

Definition ManagedByLabel : string := "bdsplatform-agent".
Definition managed_by : string := "app.kubernetes.io/managed-by".
Definition managed (o : KSecret) : bool := String.eqb (index (m_labels (ks_meta o)) managed_by) ManagedByLabel.

Record K8sSecretManager := mkSecretManager { ksm_namespace : string }.

Section K8sManager.
Context {K : Type} `{SecretsAPI K} (m : K8sSecretManager).
Local Abbreviation KM := (SE string K).

(** [version] is the resource version of the object to replace. *)
Definition secret_object (spec : SecretSpec) (ns version : string) : KSecret :=
  mkKSecret (mkMeta (ss_name spec) ns (ss_labels spec) (ss_annotations spec) 0 version) "Opaque"
    (ss_data spec).

Definition ApplySecret (spec : SecretSpec) : KM SecretApplyResult :=
  let ns := if String.eqb (ss_namespace spec) "" then ksm_namespace m else ss_namespace spec in
  let* got := inspect (SecretGet ns (ss_name spec)) in
  match got with
  | Err e =>
      if ke_not_found e then
        let* _ := wrap "create secret" (SecretCreate ns (secret_object spec ns "")) in
        ret (mkSApplied true false)
      else fail ("get secret: " +:+ ke_text e)
  | Ok existing =>
      if negb (managed existing)
      then fail ("refusing to update secret not managed by " +:+ ManagedByLabel)
      else
        let* _ := wrap "update secret"
          (SecretUpdate ns (secret_object spec ns (m_server (ks_meta existing)))) in
        ret (mkSApplied false true)
  end.

Definition K8s_DeleteSecret (name : string) : KM unit :=
  let* got := inspect (SecretGet (ksm_namespace m) name) in
  match got with
  | Err e => if ke_not_found e then ret tt else fail ("get secret: " +:+ ke_text e)
  | Ok existing =>
      if negb (managed existing)
      then fail ("refusing to delete secret not managed by " +:+ ManagedByLabel)
      else
        let* deleted := inspect (SecretDelete (ksm_namespace m) name) in
        match deleted with
        | Err e => if ke_not_found e then ret tt else fail ("delete secret: " +:+ ke_text e)
        | Ok _ => ret tt
        end
  end.

Definition ListManagedSecrets : KM (list string) :=
  let* list := wrap "list secrets" (SecretList (ksm_namespace m) (managed_by +:+ "=" +:+ ManagedByLabel)) in
  ret (m_name ∘ ks_meta <$> list).
End K8sManager.

(** ** secrets/syncer.go *)
Class SecretsClient (W : Type) := {
  sc_GetSecrets : AgentCredentials → SE client_error W (list CPSecret) }.
Class SecretManager (W : Type) := {
  sm_ApplySecret : SecretSpec → SE string W SecretApplyResult;
  sm_DeleteSecret : string → SE string W unit;
  sm_ListManagedSecrets : SE string W (list string) }.

(** [None] is a nil map. *)
Record SyncerState := mkSyncer { AppliedVersions : option (gmap string Z); LastSync : Z }.

(** The state file, the clock, and the order of a range over a map. *)
Class SyncerEnv (W : Type) := {
  sy_ReadFile : SE read_error W string;
  sy_WriteFile : string → SE string W unit;
  sy_Marshal : SyncerState → result string string;
  sy_Unmarshal : string → SyncerState → option string * SyncerState;
  sy_Now : W → Z * W;
  sy_RFC3339 : Z → string;
  sy_range : gmap string (gmap string CPSecret) → W → list (string * gmap string CPSecret) * W }.

(** [IsLeader] is [None] without leader election. *)
Record SyncerConfig (W : Type) := mkSyncerConfig {
  sy_namespace : string; sy_creds : AgentCredentials; sy_leader : option (W → bool) }.
Arguments mkSyncerConfig {W}.
Arguments sy_namespace {W}.
Arguments sy_creds {W}.
Arguments sy_leader {W}.

(** The running syncer: its state, the cycles it skipped, and the world. *)
Record SyncW (W : Type) := mkSyncW { y_state : SyncerState; y_skipped : nat; y_world : W }.
Arguments mkSyncW {W}.
Arguments y_state {W}.
Arguments y_skipped {W}.
Arguments y_world {W}.

(** Writing to a nil map panics. *)
Inductive nil_map := AssignNil.

Definition new_SyncerState : SyncerState := mkSyncer (Some ∅) 0.
Definition secretName (projectID : string) : string := "bds-secret-" +:+ projectID.

(** The secrets by project and name; a later one replaces an earlier one. *)
Definition group_secrets (l : list CPSecret) : gmap string (gmap string CPSecret) :=
  fold_left (λ m sec,
    <[cps_project sec := <[cps_name sec := sec]> (default ∅ (m !! cps_project sec))]> m) l ∅.

(** The two results of the loop over a project's secrets: neither depends on
    the order of the range. *)
Definition secret_data (secrets : gmap string CPSecret) : labels :=
  map_fold (λ _ sec data, <[cps_name sec := cps_value sec]> data) ∅ secrets.
Definition max_version (secrets : gmap string CPSecret) : Z :=
  map_fold (λ _ sec v, if v <? cps_version sec then cps_version sec else v) 0 secrets.

Section Syncer.
Context {W : Type} `{SC : SecretsClient W} `{SM : SecretManager W} `{SE_ : SyncerEnv W}.
Context (cfg : SyncerConfig W).
Local Abbreviation Y := (SE nil_map (SyncW W)).

Definition world_call {E A} (m : SE E W A) : Y (result E A) := λ y,
  let '(x, w) := m (y_world y) in (Ok x, mkSyncW (y_state y) (y_skipped y) w).
Definition world_op {A} (f : W → A * W) : Y A := λ y,
  let '(x, w) := f (y_world y) in (Ok x, mkSyncW (y_state y) (y_skipped y) w).
Definition set_syncer (st : SyncerState) : Y unit := λ y,
  (Ok tt, mkSyncW st (y_skipped y) (y_world y)).

(** Reading, writing and deleting in the map of applied versions. *)
Definition applied_version (st : SyncerState) (name : string) : Z :=
  default 0 (AppliedVersions st ≫= λ m, m !! name).
Definition set_applied_version (name : string) (v : Z) : Y unit :=
  let* st := read y_state in
  match AppliedVersions st with
  | None => fail AssignNil
  | Some m => set_syncer (mkSyncer (Some (<[name := v]> m)) (LastSync st))
  end.
Definition forget_version (name : string) : Y unit :=
  let* st := read y_state in
  set_syncer (mkSyncer (delete name <$> AppliedVersions st) (LastSync st)).

Definition secret_spec (projectID : string) (secrets : gmap string CPSecret) (now : Z) : SecretSpec :=
  mkSecretSpec (secretName projectID) (sy_namespace cfg) projectID (secret_data secrets)
    (max_version secrets)
    (<["bdsplatform.io/project-id" := projectID]> {[managed_by := "bdsplatform-agent"]})%string
    (<["bdsplatform.io/secret-keys"%string := GoStrings.Itoa (Z.of_nat (size (secret_data secrets)))]>
      (<["bdsplatform.io/synced-at"%string := sy_RFC3339 now]>
        {["bdsplatform.io/version"%string := GoStrings.Itoa (max_version secrets)]})).

(** The error is the caller's to log. *)
Definition syncProjectSecrets (projectID : string) (secrets : gmap string CPSecret)
    : Y (result string unit) :=
  let secret := secretName projectID in
  let maxVersion := max_version secrets in
  let* st := read y_state in
  if maxVersion <=? applied_version st secret then ret (Ok tt)
  else
    let* now := world_op sy_Now in
    let* applied := world_call (sm_ApplySecret (secret_spec projectID secrets now)) in
    match applied with
    | Err e => ret (Err ("apply secret " +:+ secret +:+ ": " +:+ e))
    | Ok _ => set_applied_version secret maxVersion ;; ret (Ok tt)
    end.

(** [applied] is marked before anything else is done for a project. *)
Fixpoint sync_projects (applied : gset string) (l : list (string * gmap string CPSecret))
    : Y (gset string) :=
  match l with
  | [] => ret applied
  | (projectID, secrets) :: l =>
      let* _ := syncProjectSecrets projectID secrets in
      sync_projects ({[secretName projectID]} ∪ applied) l
  end.

Definition cleanup_orphan (appliedNames : gset string) (name : string) : Y unit :=
  if bool_decide (name ∈ appliedNames) then ret tt
  else
    let* _ := world_call (sm_DeleteSecret name) in
    forget_version name.
Definition cleanupOrphanedSecrets (appliedNames : gset string) : Y (result string unit) :=
  let* listed := world_call sm_ListManagedSecrets in
  match listed with
  | Err e => ret (Err ("list managed secrets: " +:+ e))
  | Ok names => for_each (cleanup_orphan appliedNames) names ;; ret (Ok tt)
  end.

Definition Syncer_saveState : Y (result string unit) :=
  let* st := read y_state in
  match sy_Marshal st with
  | Err e => ret (Err e)
  | Ok data => world_call (sy_WriteFile data)
  end.
Definition Syncer_loadState : Y (result string unit) :=
  let* data := world_call sy_ReadFile in
  match data with
  | Err NotExist => ret (Ok tt)
  | Err (ReadFailed e) => ret (Err e)
  | Ok data =>
      let* st := read y_state in
      match sy_Unmarshal data st with
      | (Some e, st') => set_syncer st' ;; ret (Err e)
      | (None, st') =>
          set_syncer (mkSyncer (Some (default ∅ (AppliedVersions st'))) (LastSync st')) ;; ret (Ok tt)
      end
  end.

Definition syncer_leads : Y bool :=
  read (λ y, match sy_leader cfg with Some f => f (y_world y) | None => true end).
Definition skip_cycle : Y unit :=
  modify (λ y, mkSyncW (y_state y) (S (y_skipped y)) (y_world y)).

Definition Syncer_sync : Y unit :=
  let* leader := syncer_leads in
  if negb leader then skip_cycle
  else
    let* secrets := world_call (sc_GetSecrets (sy_creds cfg)) in
    match secrets with
    | Err _ => ret tt
    | Ok secrets =>
        let* projects := world_op (sy_range (group_secrets secrets)) in
        let* applied := sync_projects ∅ projects in
        let* _ := cleanupOrphanedSecrets applied in
        let* now := world_op sy_Now in
        let* st := read y_state in
        set_syncer (mkSyncer (AppliedVersions st) now) ;;
        let* _ := Syncer_saveState in
        ret tt
    end.

(** [Run]: the persisted state, one cycle, then one per tick until cancelled. *)
Definition Syncer_Run (ticks : nat) : Y unit :=
  let* _ := Syncer_loadState in
  Syncer_sync ;;
  for_each (λ _, Syncer_sync) (seq 0 ticks).
End Syncer.

(** The manager and the client are what the syncer is given. *)
Definition k8s_SecretManager {K} `{SecretsAPI K} (m : K8sSecretManager) : SecretManager K := {|
  sm_ApplySecret := ApplySecret m;
  sm_DeleteSecret := K8s_DeleteSecret m;
  sm_ListManagedSecrets := ListManagedSecrets m |}.
Definition client_SecretsClient {W} `{Transport W} `{SecretsJSON} (c : Client) : SecretsClient W := {|
  sc_GetSecrets := Client_GetSecrets c |}.
