(* ===== verification/SyncerFacts.v ===== *)
(** * Facts about the secret synchronisation

    What the API of Kubernetes secrets promises ([SecretsLaws]), what it does
    while it is up ([SecretsUp]), what else the syncer's world promises
    ([SyncerLaws]), and what each operation does to the secrets. *)

From S2P Require Import Prelude Effects ControlPlane K8s Manager ManagerFacts Syncer.
Open Scope Z_scope.
Open Scope se_scope.

(** The server keeps what a request sets. *)
Definition kept_secret (ns : string) (asked kept : KSecret) : Prop :=
  keeps_meta ns (ks_meta asked) (ks_meta kept) ∧ ks_data kept = ks_data asked ∧
  ks_type kept = ks_type asked.

(** [ksecrets] are the secrets by namespace and name; as in [KubernetesLaws], a
    write that fails may or may not have happened. *)
Class SecretsLaws (K : Type) `{SecretsAPI K} := {
  ksecrets : K → gmap (string * string) KSecret;
  slaw_names s ns n o : ksecrets s !! (ns, n) = Some o → m_name (ks_meta o) = n;
  slaw_Get ns n s r s' : SecretGet ns n s = (r, s') →
    ksecrets s' = ksecrets s ∧
    match r with
    | Ok o => ksecrets s !! (ns, n) = Some o
    | Err e => ke_not_found e = true → ksecrets s !! (ns, n) = None
    end;
  slaw_List ns key v s r s' : SecretList ns (key +:+ "=" +:+ v) s = (r, s') →
    ksecrets s' = ksecrets s ∧
    (∀ l, ns ≠ "" → no_equals key = true → r = Ok l → ∀ o, o ∈ l ↔
       ∃ n, ksecrets s !! (ns, n) = Some o ∧ m_labels (ks_meta o) !! key = Some v);
  slaw_Create ns o s r s' : SecretCreate ns o s = (r, s') →
    is_ok r = false ∧ ksecrets s' = ksecrets s ∨
    ksecrets s !! (ns, m_name (ks_meta o)) = None ∧
    ∃ o', kept_secret ns o o' ∧ ksecrets s' = <[(ns, m_name (ks_meta o)) := o']> (ksecrets s);
  slaw_Update ns o s r s' : SecretUpdate ns o s = (r, s') →
    is_ok r = false ∧ ksecrets s' = ksecrets s ∨
    is_Some (ksecrets s !! (ns, m_name (ks_meta o))) ∧
    ∃ o', kept_secret ns o o' ∧ ksecrets s' = <[(ns, m_name (ks_meta o)) := o']> (ksecrets s);
  slaw_Delete ns n s r s' : SecretDelete ns n s = (r, s') →
    is_ok r = false ∧ ksecrets s' = ksecrets s ∧
      (∀ e, r = Err e → ke_not_found e = true → ksecrets s !! (ns, n) = None) ∨
    ksecrets s' = delete (ns, n) (ksecrets s) }.

(** The rest of the world leaves the cluster's secrets alone; a range visits
    every entry once. *)
Class SyncerLaws (W : Type) `{SecretsLaws W, !SecretsClient W, !SyncerEnv W} := {
  ylaw_fetch creds w : ksecrets (sc_GetSecrets creds w).2 = ksecrets w;
  ylaw_read w : ksecrets (sy_ReadFile w).2 = ksecrets w;
  ylaw_write data w : ksecrets (sy_WriteFile data w).2 = ksecrets w;
  ylaw_now w : ksecrets (sy_Now w).2 = ksecrets w;
  ylaw_range m w : ksecrets (sy_range m w).2 = ksecrets w ∧ (sy_range m w).1 ≡ₚ map_to_list m }.

(** While the API is up, requests that make sense succeed; the syncer's other
    operations do not take it down. *)
Class SecretsUp (W : Type) `{SyncerLaws W} := {
  up : W → Prop;
  up_Get ns n s r s' : up s → SecretGet ns n s = (r, s') → up s' ∧
    (∀ o, ksecrets s !! (ns, n) = Some o → is_ok r = true) ∧
    (ksecrets s !! (ns, n) = None → ∃ e, r = Err e ∧ ke_not_found e = true);
  up_Create ns o s r s' : up s → SecretCreate ns o s = (r, s') → up s' ∧
    (ksecrets s !! (ns, m_name (ks_meta o)) = None → is_ok r = true);
  up_Update ns o s r s' : up s → SecretUpdate ns o s = (r, s') → up s' ∧
    (∀ o0, ksecrets s !! (ns, m_name (ks_meta o)) = Some o0 →
       m_server (ks_meta o) = m_server (ks_meta o0) → is_ok r = true);
  up_Delete ns n s r s' : up s → SecretDelete ns n s = (r, s') → up s' ∧
    (is_Some (ksecrets s !! (ns, n)) → is_ok r = true);
  up_List ns sel s r s' : up s → SecretList ns sel s = (r, s') → up s' ∧ is_ok r = true;
  up_fetch creds w : up w → up (sc_GetSecrets creds w).2;
  up_write data w : up w → up (sy_WriteFile data w).2;
  up_now w : up w → up (sy_Now w).2;
  up_range m w : up w → up (sy_range m w).2 }.

(** ** The manager *)
Section ManagerFacts.
Context {K : Type} `{HL : SecretsLaws K} (m : K8sSecretManager).
Implicit Types s : K.

(** What a specification asks for. *)
Definition holds_spec (spec : SecretSpec) (o : KSecret) : Prop :=
  ks_data o = ss_data spec ∧ m_labels (ks_meta o) = ss_labels spec ∧
  m_annotations (ks_meta o) = ss_annotations spec ∧ ks_type o = "Opaque".
Lemma kept_holds spec ns version ns' o : kept_secret ns' (secret_object spec ns version) o → holds_spec spec o.
Proof. intros ((_ & _ & ? & ?) & ? & ?). by split_and!. Qed.

Definition target (spec : SecretSpec) : string * string :=
  (if String.eqb (ss_namespace spec) "" then ksm_namespace m else ss_namespace spec, ss_name spec).
(** No secret, or one of the agent's. *)
Definition may_replace (o : option KSecret) : Prop := ∀ x, o = Some x → managed x = true.

Lemma inspect_Ok {A} (c : SE kube_error K A) s r s' : c s = (r, s') → inspect c s = (Ok r, s').
Proof. unfold inspect. by intros ->. Qed.

Lemma ApplySecret_effect spec s r s' : ApplySecret m spec s = (r, s') →
  is_ok r = false ∧ ksecrets s' = ksecrets s ∨
  may_replace (ksecrets s !! target spec) ∧
  ∃ o, holds_spec spec o ∧ ksecrets s' = <[target spec := o]> (ksecrets s).
Proof.
  unfold ApplySecret, target. set (ns := if String.eqb _ _ then _ else _). unfold bind at 1.
  destruct (SecretGet ns (ss_name spec) s) as [got s1] eqn:Hg. rewrite (inspect_Ok _ _ _ _ Hg).
  apply slaw_Get in Hg as [Hs1 Hg]. destruct got as [existing|e].
  - destruct (managed existing) eqn:Hm; simpl; [|intros [= <- <-]; by left].
    unfold bind, wrap. destruct (SecretUpdate _ _ s1) as [u s2] eqn:Hu.
    apply slaw_Update in Hu as [[He Hs2]|(_ & o & Ho & Hs2)].
    + destruct u; [done|]. intros [= <- <-]. left. by rewrite Hs2, Hs1.
    + intros Hr. right. split; [intros x Hx; congruence|]. exists o. split; [by eapply kept_holds|].
      destruct u; injection Hr as <- <-; by rewrite Hs2, Hs1.
  - destruct (ke_not_found e) eqn:Hn; [|intros [= <- <-]; by left].
    unfold bind, wrap. destruct (SecretCreate _ _ s1) as [u s2] eqn:Hu.
    apply slaw_Create in Hu as [[He Hs2]|(_ & o & Ho & Hs2)].
    + destruct u; [done|]. intros [= <- <-]. left. by rewrite Hs2, Hs1.
    + intros Hr. right. split; [intros x Hx; rewrite Hg in Hx; done|]. exists o. split; [by eapply kept_holds|].
      destruct u; injection Hr as <- <-; by rewrite Hs2, Hs1.
Qed.

Lemma DeleteSecret_effect n s r s' : K8s_DeleteSecret m n s = (r, s') →
  ksecrets s' = ksecrets s ∧ (is_ok r = true → ksecrets s !! (ksm_namespace m, n) = None) ∨
  (∃ o, ksecrets s !! (ksm_namespace m, n) = Some o ∧ managed o = true) ∧
  ksecrets s' = delete (ksm_namespace m, n) (ksecrets s).
Proof.
  unfold K8s_DeleteSecret, bind. destruct (SecretGet (ksm_namespace m) n s) as [got s1] eqn:Hg.
  rewrite (inspect_Ok _ _ _ _ Hg). apply slaw_Get in Hg as [Hs1 Hg]. destruct got as [existing|e].
  - destruct (managed existing) eqn:Hm; simpl; [|intros [= <- <-]; left; by split].
    destruct (SecretDelete (ksm_namespace m) n s1) as [u s2] eqn:Hu. rewrite (inspect_Ok _ _ _ _ Hu).
    apply slaw_Delete in Hu as [(He & Hs2 & Hn)|Hs2].
    + destruct u as [|e]; [done|]. destruct (ke_not_found e) eqn:Hnf; intros [= <- <-].
      * rewrite Hs1 in Hn. by rewrite (Hn e eq_refl Hnf) in Hg.
      * left. split; [congruence|done].
    + intros Hr. right. split; [by exists existing|].
      destruct u as [|e]; [|destruct (ke_not_found e)]; injection Hr as <- <-; by rewrite Hs2, Hs1.
  - destruct (ke_not_found e) eqn:Hn; intros [= <- <-]; left; (split; [done|]); [by intros _; apply Hg|done].
Qed.

Lemma ListManaged_effect s r s' : ListManagedSecrets m s = (r, s') →
  ksecrets s' = ksecrets s ∧
  (∀ l, ksm_namespace m ≠ "" → r = Ok l → ∀ n, n ∈ l ↔
     ∃ o, ksecrets s !! (ksm_namespace m, n) = Some o ∧ managed o = true).
Proof.
  unfold ListManagedSecrets, bind, wrap. destruct (SecretList (ksm_namespace m) (managed_by +:+ "=" +:+ ManagedByLabel) s) as [got s1] eqn:Hg.
  apply slaw_List in Hg as [Hs1 Hl]. destruct got as [objs|e]; intros [= <- <-]; (split; [done|]); [|done].
  intros l Hns [= <-] n. rewrite list_elem_of_fmap. setoid_rewrite (Hl objs Hns eq_refl eq_refl). split.
  - intros (o & -> & n0 & Hk & Hlab). exists o. simpl. rewrite (slaw_names _ _ _ _ Hk). split; [done|].
    unfold managed, index. by rewrite Hlab.
  - intros (o & Hk & Hm). exists o. split; [by symmetry; eapply slaw_names|]. exists n. split; [done|].
    unfold managed, index in Hm. apply String.eqb_eq in Hm.
    destruct (m_labels (ks_meta o) !! managed_by); simpl in Hm; [by subst|done].
Qed.
End ManagerFacts.

(** While the API is up, the manager does what it is asked to. *)
Section Up.
Context {W : Type} `{HU : SecretsUp W} (m : K8sSecretManager).
Implicit Types w : W.

Lemma ApplySecret_up spec w r w' : up w → ApplySecret m spec w = (r, w') → up w' ∧
  (may_replace (ksecrets w !! target m spec) → is_ok r = true) ∧
  (is_ok r = false → ksecrets w' = ksecrets w).
Proof.
  intros Hup. unfold ApplySecret, target. set (ns := if String.eqb _ _ then _ else _). unfold bind at 1.
  destruct (SecretGet ns (ss_name spec) w) as [got w1] eqn:Hg. rewrite (inspect_Ok _ _ _ _ Hg).
  pose proof (slaw_Get _ _ _ _ _ Hg) as [Hs1 Hg1]. pose proof (up_Get _ _ _ _ _ Hup Hg) as (Hup1 & Hpres & Habs).
  destruct got as [existing|e].
  - destruct (managed existing) eqn:Hm; simpl.
    + unfold bind, wrap. destruct (SecretUpdate _ _ w1) as [u w2] eqn:Hu.
      pose proof (up_Update _ _ _ _ _ Hup1 Hu) as (Hup2 & Hok). rewrite Hs1 in Hok.
      specialize (Hok existing Hg1 eq_refl). destruct u; [|done]. by intros [= <- <-].
    + intros [= <- <-]. split_and!; try done. intros Hr. specialize (Hr _ Hg1). congruence.
  - destruct (ksecrets w !! (ns, ss_name spec)) as [x|] eqn:Hx.
    { by specialize (Hpres x eq_refl). }
    destruct (Habs eq_refl) as (e' & [= <-] & ->). unfold bind, wrap.
    destruct (SecretCreate _ _ w1) as [u w2] eqn:Hu.
    pose proof (up_Create _ _ _ _ _ Hup1 Hu) as (Hup2 & Hok). rewrite Hs1 in Hok. specialize (Hok Hx).
    destruct u; [|done]. by intros [= <- <-].
Qed.

Lemma DeleteSecret_stays n w r w' : up w → K8s_DeleteSecret m n w = (r, w') → up w'.
Proof.
  intros Hup. unfold K8s_DeleteSecret, bind. destruct (SecretGet (ksm_namespace m) n w) as [got w1] eqn:Hg.
  rewrite (inspect_Ok _ _ _ _ Hg). pose proof (up_Get _ _ _ _ _ Hup Hg) as (Hup1 & _).
  destruct got as [existing|e]; [|destruct (ke_not_found e); by intros [= <- <-]].
  destruct (managed existing); simpl; [|by intros [= <- <-]].
  destruct (SecretDelete (ksm_namespace m) n w1) as [u w2] eqn:Hu. rewrite (inspect_Ok _ _ _ _ Hu).
  pose proof (up_Delete _ _ _ _ _ Hup1 Hu) as (Hup2 & _).
  destruct u as [|e]; [|destruct (ke_not_found e)]; by intros [= <- <-].
Qed.

(** What is left of a secret that is collected. *)
Definition collected (o : option KSecret) : option KSecret :=
  match o with Some x => if managed x then None else Some x | None => None end.
Lemma collected_twice o : collected (collected o) = collected o.
Proof. destruct o as [x|]; simpl; [|done]. destruct (managed x) eqn:Hm; simpl; [done|by rewrite Hm]. Qed.

Lemma DeleteSecret_up n w r w' : up w → K8s_DeleteSecret m n w = (r, w') →
  ksecrets w' !! (ksm_namespace m, n) = collected (ksecrets w !! (ksm_namespace m, n)) ∧
  ∀ k, k ≠ (ksm_namespace m, n) → ksecrets w' !! k = ksecrets w !! k.
Proof.
  intros Hup Hrun. pose proof Hrun as Heff.
  apply DeleteSecret_effect in Heff as [[Hs Hr]|[(o & Ho & Hm) Hs]].
  - rewrite Hs. split; [|done]. destruct (ksecrets w !! (ksm_namespace m, n)) as [o|] eqn:Ho; [|done]. simpl.
    destruct (managed o) eqn:Hm; [|done]. enough (Hr0 : is_ok r = true) by (specialize (Hr Hr0); done).
    revert Hrun. unfold K8s_DeleteSecret, bind. destruct (SecretGet (ksm_namespace m) n w) as [got w1] eqn:Hg.
    rewrite (inspect_Ok _ _ _ _ Hg). pose proof (up_Get _ _ _ _ _ Hup Hg) as (Hup1 & Hpres & _).
    apply slaw_Get in Hg as [Hs1 Hg]. specialize (Hpres o Ho). destruct got as [existing|e]; [|done].
    assert (existing = o) as -> by congruence. rewrite Hm. simpl.
    destruct (SecretDelete (ksm_namespace m) n w1) as [u w2] eqn:Hu. rewrite (inspect_Ok _ _ _ _ Hu).
    pose proof (up_Delete _ _ _ _ _ Hup1 Hu) as (_ & Hok). rewrite Hs1, Ho in Hok.
    destruct u; [by intros [= <- <-]|]. by specialize (Hok (ex_intro _ o eq_refl)).
  - rewrite Hs, Ho. simpl. rewrite Hm, lookup_delete_eq. split; [done|]. intros k Hk. by rewrite lookup_delete_ne.
Qed.

Lemma ListManaged_up w r w' : up w → ListManagedSecrets m w = (r, w') → up w' ∧ is_ok r = true.
Proof.
  intros Hup. unfold ListManagedSecrets, bind, wrap.
  destruct (SecretList (ksm_namespace m) (managed_by +:+ "=" +:+ ManagedByLabel) w) as [got w1] eqn:Hg.
  apply up_List in Hg as [Hup1 Hok]; [|done]. destruct got; [|done]. by intros [= <- <-].
Qed.
End Up.

(** ** The data of a project *)
Lemma secretName_inj p q : secretName p = secretName q → p = q.
Proof. unfold secretName. intros H. by injection H. Qed.

(** The map is keyed by the names of its secrets. *)
Definition keyed_secrets (m : gmap string CPSecret) : Prop := ∀ n sec, m !! n = Some sec → cps_name sec = n.

Lemma secret_data_keyed m : keyed_secrets m → secret_data m = cps_value <$> m.
Proof.
  unfold secret_data. revert m.
  apply (map_fold_weak_ind (λ r m, keyed_secrets m → r = cps_value <$> m)); [by rewrite fmap_empty|].
  intros n sec m r Hn IH Hk. rewrite fmap_insert, (Hk n sec) by apply lookup_insert_eq. f_equal. apply IH.
  intros n' sec' Hn'. apply Hk. rewrite lookup_insert_ne; [done|congruence].
Qed.
Lemma max_version_ge m n sec : m !! n = Some sec → cps_version sec ≤ max_version m.
Proof.
  unfold max_version. revert m.
  apply (map_fold_weak_ind (λ r m, m !! n = Some sec → cps_version sec ≤ r)); [done|].
  intros n' sec' m r Hn' IH [[-> ->]|[Hne Hm]]%lookup_insert_Some.
  - destruct (Z.ltb_spec r (cps_version sec)); lia.
  - specialize (IH Hm). destruct (Z.ltb_spec r (cps_version sec')); lia.
Qed.

(** *** Grouping *)
Lemma group_secrets_snoc l sec : group_secrets (l ++ [sec]) =
  <[cps_project sec := <[cps_name sec := sec]> (default ∅ (group_secrets l !! cps_project sec))]> (group_secrets l).
Proof. unfold group_secrets. by rewrite fold_left_app. Qed.

(** The last secret with the project and the name. *)
Lemma group_secrets_lookup l p n sec :
  (group_secrets l !! p ≫= λ m, m !! n) = Some sec → sec ∈ l ∧ cps_project sec = p ∧ cps_name sec = n.
Proof.
  induction l as [|x l IH] using rev_ind; [by intros Hl; discriminate Hl|].
  rewrite group_secrets_snoc, elem_of_app, list_elem_of_singleton.
  destruct (decide (cps_project x = p)) as [<-|Hp].
  - rewrite lookup_insert_eq. simpl. destruct (decide (cps_name x = n)) as [<-|Hn].
    + rewrite lookup_insert_eq. intros [= <-]. auto.
    + rewrite lookup_insert_ne by done. intros Hl. destruct IH as (? & ? & ?); [|auto].
      destruct (group_secrets l !! cps_project x); [done|by discriminate Hl].
  - rewrite lookup_insert_ne by done. intros Hl. destruct IH as (? & ? & ?); auto.
Qed.
Lemma group_secrets_complete l sec :
  NoDup ((λ x, (cps_project x, cps_name x)) <$> l) → sec ∈ l →
  (group_secrets l !! cps_project sec ≫= λ m, m !! cps_name sec) = Some sec.
Proof.
  induction l as [|x l IH] using rev_ind; [by intros _ ?%not_elem_of_nil|].
  rewrite fmap_app, NoDup_app. intros (Hnd & Hx & _) Hin. rewrite group_secrets_snoc.
  rewrite elem_of_app, list_elem_of_singleton in Hin. destruct Hin as [Hin| ->].
  - specialize (IH Hnd Hin).
    assert (Hne : (cps_project sec, cps_name sec) ≠ (cps_project x, cps_name x)).
    { intros Heq. apply (Hx (cps_project sec, cps_name sec)); [|rewrite Heq; apply list_elem_of_singleton; done].
      apply list_elem_of_fmap. by exists sec. }
    destruct (decide (cps_project x = cps_project sec)) as [Hp|Hp].
    + rewrite Hp, lookup_insert_eq. simpl. rewrite lookup_insert_ne by congruence.
      by destruct (group_secrets l !! cps_project sec).
    + by rewrite lookup_insert_ne.
  - by rewrite lookup_insert_eq; simpl; rewrite lookup_insert_eq.
Qed.
Lemma group_secrets_keyed l p m : group_secrets l !! p = Some m → keyed_secrets m.
Proof.
  intros Hp n sec Hn. by destruct (group_secrets_lookup l p n sec) as (_ & _ & ?); [rewrite Hp|].
Qed.
(** No project without a secret. *)
Lemma group_secrets_inhabited l p m : group_secrets l !! p = Some m → ∃ sec, m !! cps_name sec = Some sec.
Proof.
  revert m. induction l as [|x l IH] using rev_ind; intros m; [by intros Hl; discriminate Hl|].
  rewrite group_secrets_snoc. intros [[_ <-]|[_ Hm]]%lookup_insert_Some; [|by apply IH].
  exists x. apply lookup_insert_eq.
Qed.
