(* ===== verification/SyncerServer.v ===== *)
(** * An agent's cluster and the secrets service

    The two sides of the secret synchronisation together.  [SecretsServed] is
    what the service promises the agent's client; [SyncWorld] is a world that
    keeps it: the session of the secrets service behind an HTTP exchange, an
    in-memory API of Kubernetes secrets with resource versions, a state file and
    a clock.  A request is routed by its path under the base URL; the texts of a
    response and of the state file are codecs. *)

From S2P Require Import Prelude Total Json Aes AppErrors Tx Events Domain Pagination Authz Http.
From S2P Require Import SecretStore SecretService SecretSpec.
From S2P Require Import Effects ControlPlane K8s Manager ManagerFacts Reconciler AgentDemo Syncer SyncerFacts.
Open Scope Z_scope.
#[local] Opaque Sha256.Sum256 Seal Open.

(** What the agent decodes: the same four fields. *)
Definition to_cp (a : AgentSecret) : CPSecret :=
  mkCPSecret (as_project a) (as_name a) (as_value a) (as_version a).

Definition no_slash (s : string) : Prop :=
  all_chars (λ a, negb (Ascii.eqb a (Ascii.ascii_of_nat 47))) s = true.

(** The client is answered by the service; [auth] is the Authorization header
    its requests have when they arrive. *)
Class SecretsServed (W : Type) `{!SecretsClient W} (e : Encryptor)
    (verify : string → option string) (bypassrls : bool) (auth : string) := {
  server_of : W → Sess SDB unit;
  served creds w l : no_slash (cr_cluster creds) →
    (serve_agent_secrets e verify bypassrls auth (cr_cluster creds) (cr_agent creds)
       (cr_cluster creds) (server_of w)).1 = Ok l →
    ∃ w', sc_GetSecrets creds w = (Ok (to_cp <$> l), w');
  unauthorized creds w : no_slash (cr_cluster creds) →
    (serve_agent_secrets e verify bypassrls auth (cr_cluster creds) (cr_agent creds)
       (cr_cluster creds) (server_of w)).1 = Err errInvalidToken →
    is_ok (sc_GetSecrets creds w).1 = false }.

(** ** The wire *)

(** The first segment of a path and what follows it. *)
Fixpoint segment (s : string) : string * string :=
  match s with
  | EmptyString => ("", "")%string
  | String a s' =>
      if Ascii.eqb a (Ascii.ascii_of_nat 47) then (EmptyString, s)
      else let '(x, rest) := segment s' in (String a x, rest)
  end.
(** GET /v1/agent/clusters/:clusterId/secrets *)
Definition secrets_route (base : string) (req : http_request) : option string :=
  let path := GoStrings.TrimPrefix (hr_url req) base in
  if String.eqb (hr_method req) "GET" && GoStrings.has_prefix "/v1/agent/clusters/" path then
    let '(id, rest) := segment (GoStrings.TrimPrefix path "/v1/agent/clusters/") in
    if String.eqb rest "/secrets" then Some id else None
  else None.

Lemma segment_app s rest : no_slash s → segment (s +:+ String (Ascii.ascii_of_nat 47) rest) =
  (s, String (Ascii.ascii_of_nat 47) rest).
Proof.
  unfold no_slash. induction s as [|a s IH]; intros Hs.
  - reflexivity.
  - cbn [all_chars] in Hs. apply andb_true_iff in Hs as [Ha Hs]. apply negb_true_iff in Ha.
    set (tail := String (Ascii.ascii_of_nat 47) rest) in *.
    change (segment (String a s +:+ tail)) with
      (if Ascii.eqb a (Ascii.ascii_of_nat 47) then (EmptyString, String a (s +:+ tail))
       else let '(x, rest) := segment (s +:+ tail) in (String a x, rest)).
    by rewrite Ha, (IH Hs).
Qed.

Lemma secrets_route_ok base id headers : no_slash id →
  secrets_route base (mkHttp "GET" (base +:+ "/v1/agent/clusters/" +:+ id +:+ "/secrets") headers None) = Some id.
Proof.
  intros Hid. unfold secrets_route, hr_url, hr_method. rewrite trim_prefix_app.
  change ("/v1/agent/clusters/" +:+ id +:+ "/secrets")%string with ("/v1/agent/clusters/" +:+ (id +:+ "/secrets"))%string.
  rewrite has_prefix_app, trim_prefix_app.
  change (id +:+ "/secrets") with (id +:+ String (Ascii.ascii_of_nat 47) "secrets"). by rewrite (segment_app _ _ Hid).
Qed.

(** ** The world *)
Record SyncWorld := mkSyncWorld {
  sw_server : Sess SDB unit;
  sw_objects : gmap (string * string) KSecret;
  sw_file : option string;
  sw_clock : Z;
  sw_leading : bool }.

(** *** The API of Kubernetes secrets, in memory *)
Definition set_objects (m : gmap (string * string) KSecret) (w : SyncWorld) : SyncWorld :=
  mkSyncWorld (sw_server w) m (sw_file w) (sw_clock w) (sw_leading w).
(** Objects are known by their own name. *)
Definition known_secrets (w : SyncWorld) : gmap (string * string) KSecret :=
  filter (λ kv, m_name (ks_meta kv.2) = kv.1.2) (sw_objects w).
(** The server places the object and gives it a new resource version. *)
Definition admitted_secret (ns version : string) (o : KSecret) : KSecret :=
  let meta := ks_meta o in
  mkKSecret (mkMeta (m_name meta) ns (m_labels meta) (m_annotations meta) (m_generation meta + 1)
               (version +:+ "+")) (ks_type o) (ks_data o).
Definition put_secret (ns version : string) (o : KSecret) (w : SyncWorld)
    : result kube_error KSecret * SyncWorld :=
  let o' := admitted_secret ns version o in
  (Ok o', set_objects (<[(ns, m_name (ks_meta o)) := o']> (sw_objects w)) w).

#[export] Instance sync_world_api : SecretsAPI SyncWorld := {
  SecretGet ns n w := match known_secrets w !! (ns, n) with Some o => (Ok o, w) | None => (Err not_found, w) end;
  SecretCreate ns o w :=
    match known_secrets w !! (ns, m_name (ks_meta o)) with
    | Some _ => (Err (mkKubeErr "already exists" false), w)
    | None => put_secret ns "" o w
    end;
  SecretUpdate ns o w :=
    match known_secrets w !! (ns, m_name (ks_meta o)) with
    | Some o0 => if String.eqb (m_server (ks_meta o)) (m_server (ks_meta o0))
                 then put_secret ns (m_server (ks_meta o0)) o w
                 else (Err (mkKubeErr "conflict" false), w)
    | None => (Err not_found, w)
    end;
  SecretDelete ns n w :=
    match known_secrets w !! (ns, n) with
    | Some _ => (Ok tt, set_objects (delete (ns, n) (sw_objects w)) w)
    | None => (Err not_found, w)
    end;
  SecretList ns sel w :=
    (Ok (snd <$> map_to_list (filter (λ kv, kv.1.1 = ns ∧ selects sel (m_labels (ks_meta kv.2)) = true)
           (known_secrets w))), w) }.

Lemma known_put ns version o w :
  known_secrets (put_secret ns version o w).2 =
  <[(ns, m_name (ks_meta o)) := admitted_secret ns version o]> (known_secrets w).
Proof. unfold known_secrets. simpl. by rewrite map_filter_insert_True. Qed.

#[export] Instance sync_world_laws : SecretsLaws SyncWorld.
Proof.
  refine {| ksecrets := known_secrets |}.
  - intros w ns n o Ho. by apply map_lookup_filter_Some in Ho as [_ ?].
  - intros ns n w r w'. simpl. destruct (known_secrets w !! (ns, n)) eqn:E; by intros [= <- <-].
  - intros ns key v w r w'. simpl. intros [= <- <-]. split; [done|].
    intros l _ Hk [= <-] o. rewrite list_elem_of_fmap. setoid_rewrite elem_of_map_to_list'. split.
    + intros ([[ns' n] o'] & -> & Ho). apply map_lookup_filter_Some in Ho as [Ho [Hns Hs]].
      simpl in *. subst ns'. exists n. split; [done|]. unfold selects in Hs.
      rewrite split_equals_app in Hs by done. by apply bool_decide_eq_true in Hs.
    + intros (n & Ho & Hl). exists ((ns, n), o). split; [done|]. apply map_lookup_filter_Some.
      split; [done|]. split; [done|]. simpl. unfold selects. rewrite split_equals_app by done.
      by apply bool_decide_eq_true.
  - intros ns o w r w'. cbn [SecretCreate sync_world_api]. destruct (known_secrets w !! _) eqn:E;
      [by intros [= <- <-]; left|].
    intros Hp. right. split; [done|]. exists (admitted_secret ns "" o). split; [by split|].
    rewrite <- known_put. by rewrite Hp.
  - intros ns o w r w'. cbn [SecretUpdate sync_world_api]. destruct (known_secrets w !! _) as [o0|] eqn:E;
      [|by intros [= <- <-]; left].
    destruct (String.eqb _ _); [|by intros [= <- <-]; left].
    intros Hp. right. split; [by eexists|]. eexists. split; [|by rewrite <- known_put, Hp]. by split.
  - intros ns n w r w'. simpl. destruct (known_secrets w !! _) eqn:E; intros [= <- <-].
    + right. apply map_filter_delete.
    + left. split_and!; [done|done|]. by intros e [= <-].
Defined.

(** *** The state file, the clock and the range *)
Definition syncer_text (st : SyncerState) : string := text_of_value (AppliedVersions st, LastSync st).
#[export] Instance sync_world_env : SyncerEnv SyncWorld := {
  sy_ReadFile w := match sw_file w with Some s => (Ok s, w) | None => (Err NotExist, w) end;
  sy_WriteFile s w := (Ok tt, mkSyncWorld (sw_server w) (sw_objects w) (Some s) (sw_clock w) (sw_leading w));
  sy_Marshal st := Ok (syncer_text st);
  sy_Unmarshal s st :=
    match value_of_text (A := option (gmap string Z) * Z) s with
    | Some (vs, t) => (None, mkSyncer vs t)
    | None => (Some "invalid character"%string, st)
    end;
  sy_Now w := (sw_clock w, mkSyncWorld (sw_server w) (sw_objects w) (sw_file w) (sw_clock w + 1) (sw_leading w));
  sy_RFC3339 := GoStrings.Itoa;
  sy_range m w := (map_to_list m, w) }.

Section World.
Context (e : Encryptor) (verify : string → option string) (bypassrls : bool) (base : string).
(** What stands between the agent and the service may set the Authorization
    header; the agent does not send one. *)
Context (proxy : option string).
Context (marshal_secrets : list AgentSecret → string) (error_text : goerr → string).
Context `{J : SecretsJSON}.
Hypothesis unmarshal_marshal : ∀ l, unmarshal_SecretsResponse (marshal_secrets l) = Ok (to_cp <$> l).

Definition secrets_exchange (req : http_request) (w : SyncWorld) : result string http_response * SyncWorld :=
  match secrets_route base req with
  | None => (Ok (mkResp 404 "" None), w)
  | Some id =>
      let auth := default (header (hr_headers req) "Authorization") proxy in
      let '(res, s) := serve_agent_secrets e verify bypassrls auth
        (header (hr_headers req) "X-Cluster-ID") (header (hr_headers req) "X-Agent-ID") id
        (sw_server w) in
      (Ok (match res with
           | Ok l => mkResp 200 (marshal_secrets l) None
           | Err x => mkResp (client_status x) (error_text x) None
           end), mkSyncWorld s (sw_objects w) (sw_file w) (sw_clock w) (sw_leading w))
  end.
#[local] Instance secrets_transport : Transport SyncWorld :=
  {| NewRequest_error := λ _, None;
     Do := secrets_exchange;
     unmarshal_ErrorResponse := λ _, None;
     unmarshal_DesiredState := λ _, Err "not a desired state"%string;
     unmarshal_RegisterResponse := λ _, Err "not a registration"%string |}.
Definition syncer_client : SecretsClient SyncWorld := client_SecretsClient (mkClient base).
#[local] Existing Instance syncer_client.

(** The status and the text of the response an answer gives. *)
Definition secrets_response (res : result goerr (list AgentSecret)) : http_response :=
  match res with
  | Ok l => mkResp 200 (marshal_secrets l) None
  | Err x => mkResp (client_status x) (error_text x) None
  end.
Lemma Client_GetSecrets_run creds w : no_slash (cr_cluster creds) →
  ∃ w', sc_GetSecrets creds w =
    (let res := (serve_agent_secrets e verify bypassrls (default ""%string proxy) (cr_cluster creds)
       (cr_agent creds) (cr_cluster creds) (sw_server w)).1 in
     let resp := secrets_response res in
     if negb (hp_status resp =? 200) then Err (api_error resp)
     else (decode (unmarshal_SecretsResponse (hp_body resp)) w).1, w').
Proof using.
  intros Hid.
  unfold sc_GetSecrets, syncer_client, client_SecretsClient, Client_GetSecrets, new_request, do_request,
    read_body, bind, ret, hr_headers, Do, secrets_transport, NewRequest_error, secrets_exchange, baseURL.
  rewrite (secrets_route_ok base (cr_cluster creds) _ Hid).
  cbn [hr_headers]. change (header (agent_headers creds) "X-Cluster-ID") with (cr_cluster creds).
  change (header (agent_headers creds) "X-Agent-ID") with (cr_agent creds).
  change (header (agent_headers creds) "Authorization") with ""%string.
  destruct (serve_agent_secrets _ _ _ _ _ _ _ (sw_server w)) as [[l|x] s'];
    cbn [fst secrets_response hp_read_error hp_status hp_body Z.eqb Pos.eqb negb].
  - unfold decode. destruct (unmarshal_SecretsResponse _); by eexists.
  - destruct (negb _); [by eexists|]. unfold decode.
    destruct (unmarshal_SecretsResponse _); by eexists.
Qed.

Lemma Client_GetSecrets_served creds w l : no_slash (cr_cluster creds) →
  (serve_agent_secrets e verify bypassrls (default ""%string proxy) (cr_cluster creds) (cr_agent creds)
     (cr_cluster creds) (sw_server w)).1 = Ok l →
  ∃ w', sc_GetSecrets creds w = (Ok (to_cp <$> l), w').
Proof using unmarshal_marshal.
  intros Hid Hl. destruct (Client_GetSecrets_run creds w Hid) as (w' & ->). exists w'. rewrite Hl.
  simpl. unfold decode. by rewrite unmarshal_marshal.
Qed.
Lemma Client_GetSecrets_unauthorized creds w : no_slash (cr_cluster creds) →
  (serve_agent_secrets e verify bypassrls (default ""%string proxy) (cr_cluster creds) (cr_agent creds)
     (cr_cluster creds) (sw_server w)).1 = Err errInvalidToken →
  is_ok (sc_GetSecrets creds w).1 = false.
Proof using.
  intros Hid Hl. destruct (Client_GetSecrets_run creds w Hid) as (w' & ->). by rewrite Hl.
Qed.

(** *** It keeps the promises *)
Definition same_objects (w w' : SyncWorld) : Prop := sw_objects w' = sw_objects w.
#[local] Instance same_objects_preorder : PreOrder same_objects.
Proof using. split; [done|]. intros w1 w2 w3. unfold same_objects. congruence. Qed.
Lemma exchange_objects req : preserves same_objects (do_request req).
Proof using.
  intros w. unfold do_request, Do, secrets_transport, same_objects, secrets_exchange.
  destruct (secrets_route base req); [|done]. simpl. by destruct (serve_agent_secrets _ _ _ _ _ _ _ _).
Qed.
Lemma fetch_objects creds w : same_objects w (sc_GetSecrets creds w).2.
Proof using.
  revert w. change (preserves same_objects (Client_GetSecrets (mkClient base) creds)).
  pose proof exchange_objects. unfold Client_GetSecrets, new_request, read_body, decode. solve_preserves.
Qed.
#[local] Instance syncer_laws : SyncerLaws SyncWorld.
Proof using.
  split; try done.
  - intros creds w. unfold ksecrets, sync_world_laws, known_secrets. by rewrite fetch_objects.
  - intros w. simpl. by destruct (sw_file w).
Qed.
#[local] Instance syncer_up : SecretsUp SyncWorld.
Proof using.
  refine {| up := λ _, True |}; try done.
  - intros ns n w r w' _. unfold ksecrets, sync_world_laws. simpl.
    destruct (known_secrets w !! (ns, n)) eqn:E; intros [= <- <-]; split_and!; try done. intros _. by eexists.
  - intros ns o w r w' _. unfold ksecrets, sync_world_laws. cbn [SecretCreate sync_world_api].
    intros Hr. split; [done|]. intros Hn. rewrite Hn in Hr. by injection Hr as <- _.
  - intros ns o w r w' _. unfold ksecrets, sync_world_laws. cbn [SecretUpdate sync_world_api].
    intros Hr. split; [done|]. intros o0 Ho Hv. rewrite Ho, Hv, String.eqb_refl in Hr. by injection Hr as <- _.
  - intros ns n w r w' _. unfold ksecrets, sync_world_laws. simpl. intros Hr. split; [done|].
    intros [o Ho]. rewrite Ho in Hr. by injection Hr as <- _.
  - intros ns sel w r w' _. simpl. by intros [= <- <-].
Defined.
#[local] Instance syncer_served :
    SecretsServed SyncWorld e verify bypassrls (default ""%string proxy) :=
  {| server_of := sw_server; served := Client_GetSecrets_served;
     unauthorized := Client_GetSecrets_unauthorized |}.
End World.
