(* ===== verification/SyncerCorrectness.v ===== *)
(** * Correctness of the secret synchronisation

    Against any API of Kubernetes secrets, any control plane and any order of
    Go's ranges: what a cycle can never touch, and what it leaves when the API
    is up. *)

From S2P Require Import Prelude Total Json Aes AppErrors Tx Events Domain Pagination Authz Http.
From S2P Require Import SecretStore SecretService SecretSpec SecretCorrectness.
From S2P Require Import Effects ControlPlane K8s Manager ManagerFacts Syncer SyncerFacts SyncerServer.
Open Scope Z_scope.
Open Scope se_scope.
#[local] Opaque Sha256.Sum256 Seal Open.

Section Syncer.
Context {W : Type} `{HS : SyncerLaws W} (m : K8sSecretManager) (cfg : SyncerConfig W).
(** As main.go builds them: one namespace for the manager and the syncer. *)
Context (Hns : sy_namespace cfg = ksm_namespace m).
Let ns : string := ksm_namespace m.
Implicit Types (w : W) (y : SyncW W).
#[local] Instance the_manager : SecretManager W := k8s_SecretManager m.

Lemma target_ns spec : ss_namespace spec = sy_namespace cfg → target m spec = (ns, ss_name spec).
Proof using Hns. unfold target. intros ->. rewrite Hns. by destruct (String.eqb _ _). Qed.

(** ** What is spared *)

(** Secrets of others, and anything outside the namespace, stay; no secret
    appears but under a name of the agent's. *)
Definition spared w w' : Prop := ∀ ns' n,
  (∀ o, ksecrets w !! (ns', n) = Some o → managed o = false ∨ ns' ≠ ns → ksecrets w' !! (ns', n) = Some o) ∧
  (ksecrets w !! (ns', n) = None → ns' ≠ ns ∨ (∀ p, n ≠ secretName p) → ksecrets w' !! (ns', n) = None).
Definition spared_run y y' : Prop := spared (y_world y) (y_world y').

#[local] Instance spared_preorder : PreOrder spared.
Proof.
  split; [done|]. intros w1 w2 w3 H1 H2 ns' n. destruct (H1 ns' n) as [A1 B1], (H2 ns' n) as [A2 B2].
  split; [intros o Ho Hf; apply A2; [by apply A1|done]|auto].
Qed.
#[local] Instance spared_run_preorder : PreOrder spared_run.
Proof. split; [by intros y|]. intros y1 y2 y3. unfold spared_run. by etrans. Qed.

Lemma spared_same w w' : ksecrets w' = ksecrets w → spared w w'.
Proof. intros Hw. unfold spared. by rewrite Hw. Qed.
Lemma spared_insert w w' n o : ksecrets w' = <[(ns, n) := o]> (ksecrets w) →
  may_replace (ksecrets w !! (ns, n)) → (∃ p, n = secretName p) → spared w w'.
Proof.
  intros Hw Hr [p Hp] ns' n'. rewrite Hw. destruct (decide ((ns, n) = (ns', n'))) as [[= <- <-]|Hne].
  - split; [|by intros _ [?|Hn]; [done|destruct (Hn p)]].
    intros o' Ho' [Hm|?]; [|done]. specialize (Hr _ Ho'). congruence.
  - by rewrite lookup_insert_ne.
Qed.
Lemma spared_delete w w' n : ksecrets w' = delete (ns, n) (ksecrets w) →
  may_replace (ksecrets w !! (ns, n)) → spared w w'.
Proof.
  intros Hw Hr ns' n'. rewrite Hw. destruct (decide ((ns, n) = (ns', n'))) as [[= <- <-]|Hne].
  - split; [|intros; apply lookup_delete_eq].
    intros o' Ho' [Hm|?]; [|done]. specialize (Hr _ Ho'). congruence.
  - by rewrite lookup_delete_ne.
Qed.

Lemma preserves_world_call {E A} (c : SE E W A) : (∀ w, spared w (c w).2) → preserves spared_run (world_call c).
Proof. intros Hc y. unfold world_call, spared_run. specialize (Hc (y_world y)). by destruct (c (y_world y)). Qed.
Lemma preserves_world_op {A} (f : W → A * W) : (∀ w, spared w (f w).2) → preserves spared_run (world_op f).
Proof. intros Hc y. unfold world_op, spared_run. specialize (Hc (y_world y)). by destruct (f (y_world y)). Qed.
Lemma preserves_set_syncer st : preserves spared_run (set_syncer st).
Proof. by intros y. Qed.
Lemma preserves_skip : preserves spared_run skip_cycle.
Proof. by intros y. Qed.

Lemma spared_apply p secrets now w : spared w (sm_ApplySecret (secret_spec cfg p secrets now) w).2.
Proof using Hns.
  destruct (sm_ApplySecret (secret_spec cfg p secrets now) w) as [r w'] eqn:Ha.
  apply ApplySecret_effect in Ha as [[_ Hw]|[Hr (o & _ & Hw)]]; [by apply spared_same|].
  rewrite (target_ns (secret_spec cfg p secrets now) eq_refl) in *.
  by eapply spared_insert; [exact Hw|exact Hr|exists p].
Qed.
Lemma spared_delete_secret n w : spared w (sm_DeleteSecret n w).2.
Proof.
  destruct (sm_DeleteSecret n w) as [r w'] eqn:Ha.
  apply DeleteSecret_effect in Ha as [[Hw _]|[(o & Ho & Hm) Hw]]; [by apply spared_same|].
  eapply spared_delete; [exact Hw|]. unfold ns. rewrite Ho. by intros x [= <-].
Qed.
Lemma spared_list w : spared w (sm_ListManagedSecrets w).2.
Proof.
  destruct (sm_ListManagedSecrets w) as [r w'] eqn:Ha. by apply ListManaged_effect in Ha as [Hw _]; apply spared_same.
Qed.
Lemma spared_fetch creds w : spared w (sc_GetSecrets creds w).2.
Proof. apply spared_same, ylaw_fetch. Qed.
Lemma spared_read w : spared w (sy_ReadFile w).2.
Proof. apply spared_same, ylaw_read. Qed.
Lemma spared_write data w : spared w (sy_WriteFile data w).2.
Proof. apply spared_same, ylaw_write. Qed.
Lemma spared_now w : spared w (sy_Now w).2.
Proof. apply spared_same, ylaw_now. Qed.
Lemma spared_range g w : spared w (sy_range g w).2.
Proof. apply spared_same, ylaw_range. Qed.
#[local] Hint Resolve preserves_set_syncer preserves_skip preserves_world_call preserves_world_op
  spared_apply spared_delete_secret spared_list spared_fetch spared_read spared_write spared_now
  spared_range : preserves.

Lemma sync_spares : preserves spared_run (Syncer_sync cfg).
Proof using HS Hns.
  unfold Syncer_sync, syncer_leads, cleanupOrphanedSecrets, cleanup_orphan, Syncer_saveState, forget_version.
  assert (Hprojects : ∀ l applied, preserves spared_run (sync_projects cfg applied l)).
  { induction l as [|[p secrets] l IH]; intros applied; simpl; unfold syncProjectSecrets, set_applied_version;
      solve_preserves. }
  solve_preserves.
Qed.
Lemma Run_spares ticks : preserves spared_run (Syncer_Run cfg ticks).
Proof using HS Hns.
  pose proof sync_spares. unfold Syncer_Run, Syncer_loadState. solve_preserves.
Qed.

(** ** The outcome of a cycle while the API is up *)
Context `{HU : !SecretsUp W}.

(** The API is up, and the state file has not left a nil map behind. *)
Definition running y : Prop := up (y_world y) ∧ is_Some (AppliedVersions (y_state y)).
Definition kept_at (n : string) y y' : Prop :=
  ksecrets (y_world y') !! (ns, n) = ksecrets (y_world y) !! (ns, n) ∧
  applied_version (y_state y') n = applied_version (y_state y) n.

(** What a cycle does for a project: nothing if the version applied last is not
    smaller than all of its secrets' or a secret of someone else has the name;
    otherwise the Kubernetes secret holds the project's secrets. *)
Record delivered (p : string) (secrets : gmap string CPSecret) y y' : Prop := {
  dl_stale : max_version secrets ≤ applied_version (y_state y) (secretName p) → kept_at (secretName p) y y';
  dl_fresh : applied_version (y_state y) (secretName p) < max_version secrets →
    may_replace (ksecrets (y_world y) !! (ns, secretName p)) →
    applied_version (y_state y') (secretName p) = max_version secrets ∧
    ∃ o now, ksecrets (y_world y') !! (ns, secretName p) = Some o ∧
      holds_spec (secret_spec cfg p secrets now) o;
  dl_refused : ¬ may_replace (ksecrets (y_world y) !! (ns, secretName p)) → kept_at (secretName p) y y' }.

(** Only the names in [N] change, in the namespace. *)
Record confined (N : string → Prop) y y' : Prop := {
  cf_running : running y';
  cf_apart ns' n : ns' ≠ ns → ksecrets (y_world y') !! (ns', n) = ksecrets (y_world y) !! (ns', n);
  cf_kept n : ¬ N n → kept_at n y y' }.

Lemma kept_at_trans n y1 y2 y3 : kept_at n y1 y2 → kept_at n y2 y3 → kept_at n y1 y3.
Proof. intros [? ?] [? ?]. split; congruence. Qed.
Lemma confined_refl N y : running y → confined N y y.
Proof. by split. Qed.
Lemma confined_trans N1 N2 N y1 y2 y3 : confined N1 y1 y2 → confined N2 y2 y3 →
  (∀ n, N1 n ∨ N2 n → N n) → confined N y1 y3.
Proof.
  intros [R1 A1 K1] [R2 A2 K2] HN. split; [done|intros; rewrite A2, A1; done|].
  intros n Hn. eapply kept_at_trans; [apply K1|apply K2]; naive_solver.
Qed.
Lemma delivered_then p secrets y1 y2 y3 :
  delivered p secrets y1 y2 → kept_at (secretName p) y2 y3 → delivered p secrets y1 y3.
Proof.
  intros [D1 D2 D3] K. split.
  - intros Hv. eapply kept_at_trans; eauto.
  - intros Hv Hr. destruct (D2 Hv Hr) as (Ha & o & now & Ho & Hh), K as [K1 K2].
    split; [congruence|]. exists o, now. split; congruence.
  - intros Hr. eapply kept_at_trans; eauto.
Qed.
Lemma delivered_after p secrets y1 y2 y3 :
  kept_at (secretName p) y1 y2 → delivered p secrets y2 y3 → delivered p secrets y1 y3.
Proof.
  intros K [D1 D2 D3]. pose proof K as [K1 K2]. rewrite K1, K2 in *. split.
  - intros Hv. eapply kept_at_trans; eauto.
  - auto.
  - intros Hr. eapply kept_at_trans; eauto.
Qed.

(** Steps of the cycle that leave the secrets and the state alone. *)
Definition quiet_step {A} (r : A * W) w : Prop := ksecrets r.2 = ksecrets w ∧ (up w → up r.2).
Lemma quiet_confined N y (w' : W) : running y → ksecrets w' = ksecrets (y_world y) → (up (y_world y) → up w') →
  confined N y (mkSyncW (y_state y) (y_skipped y) w').
Proof.
  intros [Hup Hs] Hw Hu. split; [by split; auto|by intros; simpl; rewrite Hw|].
  intros n _. by split; simpl; [rewrite Hw|].
Qed.

Lemma syncProject_delivers p secrets y : running y →
  ∃ r y', syncProjectSecrets cfg p secrets y = (Ok r, y') ∧ delivered p secrets y y' ∧
    confined (eq (secretName p)) y y'.
Proof using Hns HU.
  intros Hrun. unfold syncProjectSecrets. unfold bind at 1, read.
  destruct (Z.leb_spec (max_version secrets) (applied_version (y_state y) (secretName p))) as [Hle|Hlt].
  { exists (Ok tt), y. split; [done|]. split; [|by apply confined_refl]. split; [done|lia|done]. }
  unfold bind at 1, world_op. pose proof (ylaw_now (y_world y)) as Hn. pose proof (up_now (y_world y)) as Hnu.
  destruct (sy_Now (y_world y)) as [now w1]. simpl in Hn, Hnu. unfold bind, world_call. simpl.
  destruct (ApplySecret m (secret_spec cfg p secrets now) w1) as [r w2] eqn:Ha.
  destruct Hrun as [Hup [vs Hvs]].
  pose proof (ApplySecret_up m _ _ _ _ (Hnu Hup) Ha) as (Hup2 & Hok & Hfail).
  apply ApplySecret_effect in Ha. rewrite (target_ns (secret_spec cfg p secrets now) eq_refl), Hn in *.
  simpl in *. destruct r as [x|e].
  - destruct Ha as [[? _]|(Hr & o & Ho & Hw2)]; [done|].
    unfold set_applied_version, bind, read, set_syncer. simpl. rewrite Hvs.
    eexists _, _. split; [reflexivity|]. split.
    + split; [lia| |done]. intros _ _. split; [unfold applied_version; simpl; by rewrite lookup_insert_eq|].
      exists o, now. simpl. by rewrite Hw2, lookup_insert_eq.
    + split; [split; [done|simpl; eauto]|..].
      * intros ns' n Hne. simpl. rewrite Hw2, lookup_insert_ne; [done|congruence].
      * intros n Hne. split; simpl; [rewrite Hw2, lookup_insert_ne; [done|congruence]|].
        unfold applied_version. simpl. rewrite lookup_insert_ne by done. by rewrite Hvs.
  - specialize (Hfail eq_refl). eexists _, _. split; [reflexivity|]. split.
    + split; [lia| |].
      * intros _ Hr. specialize (Hok Hr). done.
      * intros _. split; simpl; [congruence|done].
    + apply quiet_confined; [by split; eauto|congruence|done].
Qed.

Lemma sync_projects_deliver l : ∀ applied y, NoDup l.*1 → running y →
  ∃ y', sync_projects cfg applied l y = (Ok (list_to_set (secretName <$> l.*1) ∪ applied), y') ∧
    confined (λ n, n ∈ secretName <$> l.*1) y y' ∧
    ∀ p secrets, (p, secrets) ∈ l → delivered p secrets y y'.
Proof using Hns HU.
  induction l as [|[p secrets] l IH]; intros applied y Hnd Hrun; simpl.
  { exists y. split_and!; [unfold ret; do 2 f_equal; set_solver|by apply confined_refl|].
    by intros ?? ?%not_elem_of_nil. }
  apply NoDup_cons in Hnd as [Hp Hnd].
  destruct (syncProject_delivers p secrets y Hrun) as (r & y1 & Hr & Hd & Hc).
  unfold bind. rewrite Hr.
  destruct (IH ({[secretName p]} ∪ applied) y1 Hnd) as (y2 & Hl & Hc2 & Hd2); [apply Hc|].
  exists y2. split_and!.
  - rewrite Hl. do 2 f_equal. set_solver.
  - eapply confined_trans; [exact Hc|exact Hc2|]. simpl. intros n [<-|Hn]; [left|by right].
  - intros q m0 [[= -> ->]|Hq]%elem_of_cons.
    + eapply delivered_then; [exact Hd|]. apply Hc2.
      intros (q & Heq & Hq)%list_elem_of_fmap. by apply secretName_inj in Heq as ->.
    + eapply delivered_after; [|by apply Hd2]. apply Hc. intros Heq%secretName_inj. subst q.
      apply Hp, list_elem_of_fmap. by exists (p, m0).
Qed.

(** A secret the cycle does not want: gone if it was the agent's. *)
Definition collected_at (n : string) y y' : Prop :=
  ksecrets (y_world y') !! (ns, n) = collected (ksecrets (y_world y) !! (ns, n)).

Lemma cleanup_orphan_collects A n y : running y →
  ∃ y', cleanup_orphan A n y = (Ok tt, y') ∧ confined (λ k, k = n ∧ n ∉ A) y y' ∧
    (n ∉ A → collected_at n y y').
Proof using Hns HU.
  intros Hrun. unfold cleanup_orphan. case_bool_decide as Hn.
  { exists y. split; [done|]. split; [by apply confined_refl|done]. }
  destruct Hrun as [Hup [vs Hvs]]. unfold bind, world_call. simpl.
  destruct (K8s_DeleteSecret m n (y_world y)) as [r w1] eqn:Hd.
  pose proof (DeleteSecret_stays m _ _ _ _ Hup Hd) as Hup1.
  apply DeleteSecret_up in Hd as [Hcol Hrest]; [|done].
  unfold forget_version, bind, read, set_syncer. simpl. rewrite Hvs. eexists. split; [reflexivity|].
  split; [|done]. split; [split; [done|simpl; eauto]|..].
  - intros ns' k Hne. apply Hrest. intros [= Heq _]. by apply Hne.
  - intros k Hk. assert (k ≠ n) by naive_solver. split; [apply Hrest; congruence|].
    unfold applied_version. simpl. by rewrite Hvs; simpl; rewrite lookup_delete_ne.
Qed.

Lemma cleanup_orphans_collect A names : ∀ y, running y →
  ∃ y', for_each (cleanup_orphan A) names y = (Ok tt, y') ∧ confined (λ k, k ∈ names ∧ k ∉ A) y y' ∧
    ∀ k, k ∈ names → k ∉ A → collected_at k y y'.
Proof using Hns HU.
  induction names as [|n names IH]; intros y Hrun; simpl.
  { exists y. split_and!; [done|by apply confined_refl|by intros ? ?%not_elem_of_nil]. }
  destruct (cleanup_orphan_collects A n y Hrun) as (y1 & Hr & Hc & Hcol). unfold bind. rewrite Hr.
  destruct (IH y1) as (y2 & Hl & Hc2 & Hcol2); [apply Hc|]. exists y2. split_and!; [done|..].
  - eapply confined_trans; [exact Hc|exact Hc2|]. simpl. intros k [[-> ?]|[? ?]]; split; try done; [left|by right].
  - intros k Hk HA. unfold collected_at. destruct (decide (k ∈ names)) as [Hin|Hout].
    + rewrite (Hcol2 k Hin HA). destruct (decide (k = n)) as [->|Hne].
      * by rewrite (Hcol HA), collected_twice.
      * destruct (cf_kept _ _ _ Hc k) as [-> _]; [naive_solver|done].
    + apply elem_of_cons in Hk as [->|]; [|done]. rewrite <- (Hcol HA).
      destruct (cf_kept _ _ _ Hc2 n) as [-> _]; [naive_solver|done].
Qed.

Lemma cleanup_collects A y : ns ≠ "" → running y →
  ∃ y', cleanupOrphanedSecrets A y = (Ok (Ok tt), y') ∧ confined (λ k, k ∉ A) y y' ∧
    ∀ k, k ∉ A → collected_at k y y'.
Proof using Hns HU.
  intros Hne [Hup Hs]. unfold cleanupOrphanedSecrets, bind, world_call. simpl.
  destruct (ListManagedSecrets m (y_world y)) as [r w1] eqn:Hl.
  pose proof (ListManaged_up m _ _ _ Hup Hl) as [Hup1 Hok].
  apply ListManaged_effect in Hl as [Hw Hl]. destruct r as [names|e]; [|done].
  specialize (Hl names Hne eq_refl).
  destruct (cleanup_orphans_collect A names (mkSyncW (y_state y) (y_skipped y) w1)) as (y' & Hr & Hc & Hcol);
    [by split|].
  exists y'. rewrite Hr. split; [done|].
  assert (Hc' : confined (λ k, k ∈ names ∧ k ∉ A) y y').
  { eapply (confined_trans (λ _, False)); [apply quiet_confined; [by split|exact Hw|done]|exact Hc|naive_solver]. }
  split.
  - destruct Hc' as [? ? Hk]. split; [done|done|]. intros n Hn. apply Hk. naive_solver.
  - intros k HA. destruct (decide (k ∈ names)) as [Hin|Hout].
    + unfold collected_at. rewrite (Hcol k Hin HA). simpl. by rewrite Hw.
    + unfold collected_at. destruct Hc' as [_ _ Hk]. destruct (Hk k) as [-> _]; [naive_solver|].
      destruct (ksecrets (y_world y) !! (ns, k)) as [o|] eqn:Ho; [|done]. simpl.
      destruct (managed o) eqn:Hm; [|done]. destruct Hout. apply Hl. eauto.
Qed.

(** The names the fetched secrets ask for. *)
Definition asked_for (l : list CPSecret) (n : string) : Prop :=
  ∃ p, is_Some (group_secrets l !! p) ∧ n = secretName p.

Lemma sync_delivers l w1 y : ns ≠ "" → running y →
  match sy_leader cfg with Some f => f (y_world y) | None => true end = true →
  sc_GetSecrets (sy_creds cfg) (y_world y) = (Ok l, w1) →
  ∃ y', Syncer_sync cfg y = (Ok tt, y') ∧ running y' ∧
    (∀ ns' n, ns' ≠ ns → ksecrets (y_world y') !! (ns', n) = ksecrets (y_world y) !! (ns', n)) ∧
    (∀ p secrets, group_secrets l !! p = Some secrets → delivered p secrets y y') ∧
    (∀ n, ¬ asked_for l n → collected_at n y y').
Proof using Hns HU.
  intros Hne Hrun Hlead Hfetch. unfold Syncer_sync. unfold bind at 1, syncer_leads, read. rewrite Hlead. simpl.
  unfold bind at 1, world_call. rewrite Hfetch. unfold bind at 1, world_op.
  pose proof (ylaw_fetch (sy_creds cfg) (y_world y)) as Hw1. rewrite Hfetch in Hw1. simpl in Hw1.
  pose proof (up_fetch (sy_creds cfg) (y_world y)) as Hu1. rewrite Hfetch in Hu1. simpl in *.
  pose proof (ylaw_range (group_secrets l) w1) as [Hw2 Hperm].
  pose proof (up_range (group_secrets l) w1) as Hu2.
  destruct (sy_range (group_secrets l) w1) as [projects w2]. simpl in *.
  set (y2 := mkSyncW (y_state y) (y_skipped y) w2).
  assert (Hc2 : confined (λ _, False) y y2) by (apply quiet_confined; [done|congruence|auto]).
  destruct (sync_projects_deliver projects ∅ y2) as (y3 & Hp & Hc3 & Hd).
  { rewrite Hperm. apply NoDup_fst_map_to_list. } { apply Hc2. }
  unfold bind at 1. rewrite Hp.
  destruct (cleanup_collects (list_to_set (secretName <$> projects.*1) ∪ ∅) y3 Hne) as (y4 & Hcl & Hc4 & Hcol);
    [apply Hc3|].
  unfold bind at 1. rewrite Hcl. unfold bind at 1, world_op.
  pose proof (ylaw_now (y_world y4)) as Hw5. pose proof (up_now (y_world y4)) as Hu5.
  destruct (sy_Now (y_world y4)) as [now w5]. simpl in *. unfold bind, read, set_syncer. simpl.
  assert (Hsave : ∃ r w6, Syncer_saveState (mkSyncW (mkSyncer (AppliedVersions (y_state y4)) now) (y_skipped y4) w5)
      = (Ok r, mkSyncW (mkSyncer (AppliedVersions (y_state y4)) now) (y_skipped y4) w6) ∧
      ksecrets w6 = ksecrets w5 ∧ (up w5 → up w6)).
  { unfold Syncer_saveState, bind, read, world_call. simpl. destruct (sy_Marshal _) as [data|e]; [|by eexists _, _].
    pose proof (ylaw_write data w5) as Hw6. pose proof (up_write data w5) as Hu6.
    simpl. destruct (sy_WriteFile data w5) as [r w6]. simpl in *. eexists _, _. split; [reflexivity|done]. }
  destruct Hsave as (r & w6 & -> & Hw6 & Hu6).
  set (y6 := mkSyncW _ _ w6). exists y6.
  assert (Hc6 : confined (λ _, False) y4 y6).
  { destruct Hc4 as [[Hup4 Hs4] _ _]. split; [split; [auto|done]|intros; simpl; congruence|].
    intros n _. split; [simpl; congruence|done]. }
  assert (Hkey : ∀ n, n ∈ secretName <$> projects.*1 ↔ asked_for l n).
  { intros n. unfold asked_for. rewrite Hperm. split.
    - intros (p & -> & ([q s] & -> & Hin%elem_of_map_to_list)%list_elem_of_fmap)%list_elem_of_fmap. by exists q.
    - intros (p & [s Hs] & ->). apply list_elem_of_fmap. exists p. split; [done|].
      apply list_elem_of_fmap. exists (p, s). split; [done|by apply elem_of_map_to_list]. }
  assert (HA : ∀ n, n ∈ (list_to_set (secretName <$> projects.*1) ∪ ∅ : gset string) ↔ asked_for l n)
    by (intros n; rewrite <- Hkey; set_solver).
  split; [done|]. split; [apply Hc6|]. split; [|split].
  - intros ns' n Hn. by rewrite (cf_apart _ _ _ Hc6), (cf_apart _ _ _ Hc4), (cf_apart _ _ _ Hc3), (cf_apart _ _ _ Hc2).
  - intros p secrets Hps. eapply delivered_after; [apply Hc2; tauto|].
    assert (Hin : asked_for l (secretName p)) by (by exists p).
    eapply delivered_then; [apply Hd; rewrite Hperm; by apply elem_of_map_to_list|].
    eapply kept_at_trans; [apply Hc4|apply Hc6; tauto]. rewrite HA. tauto.
  - intros n Hn. unfold collected_at. destruct (cf_kept _ _ _ Hc6 n) as [-> _]; [tauto|].
    rewrite Hcol; [|by rewrite HA]. f_equal. destruct (cf_kept _ _ _ Hc3 n) as [-> _]; [by rewrite Hkey|].
    destruct (cf_kept _ _ _ Hc2 n) as [-> _]; [tauto|done].
Qed.
End Syncer.

(** ** The properties *)

(** C31. However many cycles the syncer runs, whatever the control plane answers
    and whichever calls fail: a Kubernetes secret that does not carry the agent's
    label, or is in another namespace, stays as it is, and none appears but
    under the name of a project in the agent's namespace. *)
Theorem sync_spares_foreign {W} `{HS : SyncerLaws W} m cfg ticks (y : SyncW W)
    (Hns : sy_namespace cfg = ksm_namespace m) :
  spared m (y_world y) (y_world (Syncer_Run (SM := k8s_SecretManager m) cfg ticks y).2).
Proof. exact (Run_spares m cfg Hns ticks y). Qed.

(** A cycle, exactly.  A follower, and a leader that cannot fetch the secrets,
    leave every Kubernetes secret as it is.  Otherwise, while the Kubernetes API
    is up, the cycle ends, and: for each project that has secrets, nothing
    happens if the version applied last is at least the largest version among
    them, or if the name is taken by someone else's secret; else the Kubernetes
    secret of the project holds exactly its secrets, with the agent's labels, and
    the largest version is recorded; every other secret of the agent in the
    namespace is gone, and the rest is untouched. *)
Theorem sync_outcome {W} `{HU : SecretsUp W} m cfg (y : SyncW W)
    (Hns : sy_namespace cfg = ksm_namespace m) (Hne : ksm_namespace m ≠ "") (Hrun : running y) :
  let leads := match sy_leader cfg with Some f => f (y_world y) | None => true end in
  let fetched := sc_GetSecrets (sy_creds cfg) (y_world y) in
  let '(r, y') := Syncer_sync (SM := k8s_SecretManager m) cfg y in
  r = Ok tt ∧
  (leads = false ∨ is_ok fetched.1 = false → ksecrets (y_world y') = ksecrets (y_world y)) ∧
  (∀ l, leads = true → fetched.1 = Ok l →
     running y' ∧
     (∀ p secrets, group_secrets l !! p = Some secrets → delivered m cfg p secrets y y') ∧
     (∀ n, ¬ asked_for l n → collected_at m n y y') ∧
     (∀ ns n, ns ≠ ksm_namespace m → ksecrets (y_world y') !! (ns, n) = ksecrets (y_world y) !! (ns, n))).
Proof.
  intros leads fetched. destruct (Syncer_sync cfg y) as [r y'] eqn:Hsync.
  destruct leads eqn:Hl, fetched as [[l|e] w1] eqn:Hf.
  - destruct (sync_delivers m cfg Hns l w1 y Hne Hrun Hl Hf) as (y2 & Hs & Hr & Ha & Hd & Hc).
    unfold the_manager in Hs. rewrite Hsync in Hs. injection Hs as -> <-.
    split; [done|]. split; [by intros [?|?]|]. by intros l' _ [= <-].
  - unfold Syncer_sync in Hsync. unfold bind at 1, syncer_leads, read in Hsync. fold leads in Hsync.
    rewrite Hl in Hsync. simpl in Hsync. unfold bind, world_call in Hsync. fold fetched in Hsync.
    rewrite Hf in Hsync. injection Hsync as <- <-. split; [done|]. split; [|done]. intros _. simpl.
    pose proof (ylaw_fetch (sy_creds cfg) (y_world y)) as Hw. fold fetched in Hw. by rewrite Hf in Hw.
  - unfold Syncer_sync in Hsync. unfold bind at 1, syncer_leads, read in Hsync. fold leads in Hsync.
    rewrite Hl in Hsync. injection Hsync as <- <-. by split.
  - unfold Syncer_sync in Hsync. unfold bind at 1, syncer_leads, read in Hsync. fold leads in Hsync.
    rewrite Hl in Hsync. injection Hsync as <- <-. by split.
Qed.

(** ** From the secrets service to the cluster *)
Section Delivery.
Context {W : Type} `{HU : SecretsUp W} (e : Encryptor) (Hkey : length (enc_key e) = keySize).
Context (m : K8sSecretManager) (cfg : SyncerConfig W).

(** The fetched secrets, by project and name. *)
Lemma grouped_secrets (l : list AgentSecret) p secrets n sec :
  NoDup ((λ a, (as_project a, as_name a)) <$> l) → group_secrets (to_cp <$> l) !! p = Some secrets →
  secrets !! n = Some sec ↔ ∃ a, a ∈ l ∧ sec = to_cp a ∧ as_project a = p ∧ as_name a = n.
Proof using.
  intros Hnd Hp. split.
  - intros Hn. destruct (group_secrets_lookup (to_cp <$> l) p n sec) as (Hin & <- & <-); [by rewrite Hp|].
    apply list_elem_of_fmap in Hin as (a & -> & Ha). by exists a.
  - intros (a & Ha & -> & <- & <-).
    pose proof (group_secrets_complete (to_cp <$> l) (to_cp a)) as Hc.
    rewrite <- list_fmap_compose in Hc. specialize (Hc Hnd (list_elem_of_fmap_2 to_cp l a Ha)).
    simpl in Hc. by rewrite Hp in Hc.
Qed.
Lemma grouped_project (l : list AgentSecret) a : NoDup ((λ a, (as_project a, as_name a)) <$> l) → a ∈ l →
  is_Some (group_secrets (to_cp <$> l) !! as_project a).
Proof using.
  intros Hnd Ha. pose proof (group_secrets_complete (to_cp <$> l) (to_cp a)) as Hc.
  rewrite <- list_fmap_compose in Hc. specialize (Hc Hnd (list_elem_of_fmap_2 to_cp l a Ha)). simpl in Hc.
  by destruct (group_secrets (to_cp <$> l) !! as_project a).
Qed.

Lemma spec_managed p secrets now o : holds_spec (secret_spec cfg p secrets now) o → managed o = true.
Proof using.
  intros (_ & Hl & _). unfold managed, index. rewrite Hl. simpl.
  by rewrite lookup_insert_ne, lookup_singleton_eq.
Qed.
End Delivery.

(** C32. The whole way: a cycle of the secret synchronisation of an agent against
    the secrets service.  The agent sends no Authorization header, and the
    service asks every request below /v1 for a user's access token: as the
    requests leave the agent, a cycle ends without a single change to the
    Kubernetes secrets.  If something on the way adds a valid token, then for an
    agent registered on a connected cluster that leads and has not applied any
    secret yet, with both sides up and a database role that bypasses row-level
    security, and with no name of a project's secret taken by someone else's:
    after one cycle the Kubernetes secret of each project holds exactly the
    plaintexts of the undeleted secrets of the agent's organization in the
    projects that run on its cluster, and a project without any has none. *)
Theorem fresh_sync_delivers {W} `{HU : SecretsUp W} e verify bypassrls auth
    `{HD : !SecretsServed W e verify bypassrls auth} m cfg (y : SyncW W)
    (Hkey : length (enc_key e) = keySize)
    (Hns : sy_namespace cfg = ksm_namespace m) (Hne : ksm_namespace m ≠ "") (Hrun : running y)
    (Hid : no_slash (cr_cluster (sy_creds cfg))) :
  (bearerToken auth = "" →
     let '(r, y') := Syncer_sync (SM := k8s_SecretManager m) cfg y in
     r = Ok tt ∧ ksecrets (y_world y') = ksecrets (y_world y)) ∧
  (∀ c, bearerToken auth ≠ "" → is_Some (verify (bearerToken auth)) → bypassrls = true →
     match sy_leader cfg with Some f => f (y_world y) | None => true end = true →
     (∀ p, applied_version (y_state y) (secretName p) = 0) →
     (∀ p, may_replace (ksecrets (y_world y) !! (ksm_namespace m, secretName p))) →
     swf (enc_key e) (store (server_of (y_world y))) → healthy (server_of (y_world y)) →
     agent_of (cr_cluster (sy_creds cfg)) (cr_agent (sy_creds cfg)) c (store (server_of (y_world y))) →
     cl_org c ≠ "" →
     ∃ y', Syncer_sync (SM := k8s_SecretManager m) cfg y = (Ok tt, y') ∧ running y' ∧
       ∀ p n v,
         (∃ o, ksecrets (y_world y') !! (ksm_namespace m, secretName p) = Some o ∧ managed o = true ∧
            ks_data o !! n = Some v) ↔
         ∃ ver, handed_out (enc_key e) (cl_org c) (cr_cluster (sy_creds cfg)) (store (server_of (y_world y)))
           (mkAgentSecret p n v ver)).
Proof.
  split.
  { intros Hauth. pose proof (sync_outcome m cfg y Hns Hne Hrun) as Hs. simpl in Hs.
    destruct (Syncer_sync cfg y) as [r y']. destruct Hs as (-> & Hs & _). split; [done|].
    apply Hs. right. apply unauthorized; [done|]. unfold serve_agent_secrets, RequireAuth.
    by rewrite Hauth. }
  intros c Ht [user Hu] -> Hlead Hfresh Hfree Wf Hh Hag Ho. apply String.eqb_neq in Ht.
  destruct (agent_secrets_succeed e _ _ c _ Hh Hag Ho) as (l & s' & Hl).
  destruct (agent_secrets_content e Hkey _ _ _ _ _ _ _ Wf Hl) as (_ & _ & c' & Hag' & Hin & Hnd).
  assert (c' = c) as -> by (destruct Hag as (_ & _ & ? & _), Hag' as (_ & _ & ? & _); congruence).
  destruct (served (sy_creds cfg) (y_world y) l Hid) as (w1 & Hf).
  { unfold serve_agent_secrets, RequireAuth. by rewrite Ht, Hu, Hl. }
  destruct (sync_delivers m cfg Hns _ w1 y Hne Hrun Hlead Hf) as (y' & Hs & Hr & _ & Hd & Hc).
  exists y'. split; [exact Hs|]. split; [done|]. intros p n v.
  destruct (group_secrets (to_cp <$> l) !! p) as [secrets|] eqn:Hp.
  - specialize (Hd p secrets Hp). destruct (group_secrets_inhabited _ _ _ Hp) as (sec & Hsec).
    pose proof (max_version_ge _ _ _ Hsec) as Hmax. apply (grouped_secrets l p secrets _ _ Hnd Hp) in Hsec as
      (a & Ha & -> & _ & _). apply Hin in Ha as (k & x & u & Hk & _ & _ & _ & _ & ->). simpl in Hmax.
    pose proof (sw_version _ _ Wf _ _ Hk) as Hv.
    destruct (dl_fresh _ _ _ _ _ _ Hd) as (_ & o & now & Hobj & Hspec); [rewrite Hfresh; lia|apply Hfree|].
    pose proof (spec_managed cfg p secrets now o Hspec) as Hm. destruct Hspec as (Hdata & _).
    assert (Hn : ks_data o !! n = Some v ↔ ∃ ver, mkAgentSecret p n v ver ∈ l).
    { rewrite Hdata. simpl. rewrite secret_data_keyed by (by eapply group_secrets_keyed).
      rewrite lookup_fmap_Some. setoid_rewrite (grouped_secrets l p secrets n _ Hnd Hp). split.
      - intros (sec & <- & [q n' v' ver] & Hin' & -> & <- & <-). by exists ver.
      - intros (ver & Hin'). exists (to_cp (mkAgentSecret p n v ver)). split; [done|].
        by exists (mkAgentSecret p n v ver). }
    split.
    + intros (o' & Ho' & _ & Hv'). assert (o' = o) as -> by congruence.
      apply Hn in Hv' as [ver Hver]. exists ver. by apply Hin.
    + intros [ver Hver]. exists o. split_and!; [done|done|]. apply Hn. exists ver. by apply Hin.
  - specialize (Hc (secretName p)).
    assert (Hno : ¬ asked_for (to_cp <$> l) (secretName p)).
    { intros (q & [s Hs'] & Heq%secretName_inj). congruence. }
    specialize (Hc Hno). unfold collected_at in Hc. split.
    + intros (o & Hobj & _). rewrite Hobj in Hc. specialize (Hfree p).
      destruct (ksecrets (y_world y) !! (ksm_namespace m, secretName p)) as [o0|]; [|done]. simpl in Hc.
      by rewrite (Hfree o0 eq_refl) in Hc.
    + intros [ver Hver%Hin]. apply (grouped_project l _ Hnd) in Hver as [s Hs']. simpl in Hs'. congruence.
Qed.

(** ** The scenario

    The agent of [SecretCorrectness]'s cluster, next to a secret of somebody else
    and one of its own that is no longer wanted. *)
Definition sync_marshal (l : list AgentSecret) : string :=
  text_of_value ((λ a, (as_project a, as_name a, as_value a, as_version a)) <$> l).
#[local] Instance sync_json : SecretsJSON := {|
  unmarshal_SecretsResponse s :=
    match value_of_text (A := list (string * string * string * Z)) s with
    | Some l => Ok ((λ '(p, n, v, ver), mkCPSecret p n v ver) <$> l)
    | None => Err "invalid character"%string
    end |}.
Lemma sync_codec l : unmarshal_SecretsResponse (sync_marshal l) = Ok (to_cp <$> l).
Proof.
  unfold unmarshal_SecretsResponse, sync_json, sync_marshal. rewrite value_of_text_of_value.
  by rewrite <- list_fmap_compose.
Qed.
(** A proxy that adds a user's token. *)
Definition sync_proxy : option string := Some "Bearer t-dev"%string.
#[local] Instance sync_client : SecretsClient SyncWorld :=
  syncer_client sdemo_enc sdemo_verify true "https://secrets" sync_proxy sync_marshal (λ _, EmptyString).
#[local] Instance sync_laws : SyncerLaws SyncWorld :=
  syncer_laws sdemo_enc sdemo_verify true "https://secrets" sync_proxy sync_marshal (λ _, EmptyString).
#[local] Instance sync_up : SecretsUp SyncWorld :=
  syncer_up sdemo_enc sdemo_verify true "https://secrets" sync_proxy sync_marshal (λ _, EmptyString).
#[local] Instance sync_served :
    SecretsServed SyncWorld sdemo_enc sdemo_verify true (default ""%string sync_proxy) :=
  syncer_served sdemo_enc sdemo_verify true "https://secrets" sync_proxy sync_marshal (λ _, EmptyString) sync_codec.

Definition sync_manager : K8sSecretManager := mkSecretManager "default".
Definition sync_config : SyncerConfig SyncWorld :=
  mkSyncerConfig "default" (mkCreds "east" "agent-1") (Some sw_leading).
Definition ksecret_of (n : string) (l data : labels) : KSecret :=
  mkKSecret (mkMeta n "default" l ∅ 1 "v1") "Opaque" data.
Definition sync_theirs : KSecret := ksecret_of "theirs" ∅ {["a"%string := "b"%string]}.
Definition sync_objects : gmap (string * string) KSecret :=
  <[("default", "theirs")%string := sync_theirs]>
    {[("default", "bds-secret-old")%string :=
        ksecret_of "bds-secret-old" {[managed_by := ManagedByLabel]} ∅]}.
Definition sync_world : SyncWorld := mkSyncWorld sdemo_2 sync_objects None 5000 true.
Definition sync_start : SyncW SyncWorld := mkSyncW new_SyncerState 0 sync_world.

(** After a cycle: the project's secret is there, the orphan is gone, the other
    one stays. *)
Example sync_cycle :
  let y := (Syncer_sync (SM := k8s_SecretManager sync_manager) sync_config sync_start).2 in
  (λ o, map_to_list (ks_data o)) <$> (ksecrets (y_world y) !! ("default", "bds-secret-shop")%string)
    = Some [("API_KEY", "correct horse")]%string ∧
  ksecrets (y_world y) !! ("default", "bds-secret-old")%string = None ∧
  is_Some (ksecrets (y_world y) !! ("default", "theirs")%string).
Proof. vm_compute. split_and!; [reflexivity..|by eexists]. Qed.

Lemma sync_running : running sync_start.
Proof. split; [exact I|by eexists]. Qed.
Lemma sync_free p : may_replace (ksecrets sync_world !! ("default"%string, secretName p)).
Proof.
  intros x [Hx _]%map_lookup_filter_Some. unfold sync_world, sw_objects, sync_objects in Hx.
  apply lookup_insert_Some in Hx as [[Hp _]|[_ Hx]]; [by injection Hp|].
  apply lookup_singleton_Some in Hx as [_ <-]. reflexivity.
Qed.

Lemma sync_spares_foreign_witness :
  sy_namespace sync_config = ksm_namespace sync_manager ∧
  ksecrets (y_world (Syncer_Run (SM := k8s_SecretManager sync_manager) sync_config 2 sync_start).2)
    !! ("default", "theirs")%string = Some sync_theirs.
Proof.
  split; [reflexivity|].
  assert (Ht : ksecrets (y_world sync_start) !! ("default", "theirs")%string = Some sync_theirs)
    by (vm_compute; reflexivity).
  exact (proj1 (sync_spares_foreign sync_manager sync_config 2 sync_start eq_refl "default"%string "theirs"%string)
    sync_theirs Ht (or_introl eq_refl)).
Defined.

Lemma sync_outcome_witness :
  running sync_start ∧
  (Syncer_sync (SM := k8s_SecretManager sync_manager) sync_config sync_start).1 = Ok tt ∧
  collected_at sync_manager "bds-secret-old" sync_start
    (Syncer_sync (SM := k8s_SecretManager sync_manager) sync_config sync_start).2.
Proof.
  split; [exact sync_running|].
  pose proof (sync_outcome sync_manager sync_config sync_start eq_refl ltac:(discriminate) sync_running) as Ho.
  destruct (Syncer_sync sync_config sync_start) as [r y'] eqn:E. destruct Ho as (-> & _ & Ho).
  split; [reflexivity|].
  assert (Hl : (sc_GetSecrets (sy_creds sync_config) (y_world sync_start)).1
    = Ok [mkCPSecret "shop" "API_KEY" "correct horse" 2]) by (vm_compute; reflexivity).
  destruct (Ho _ eq_refl Hl) as (_ & _ & Hc & _). apply Hc.
  intros (p & [s Hs] & Hp). apply (secretName_inj "old"%string) in Hp. subst p.
  vm_compute in Hs. discriminate Hs.
Defined.

(** The same world without the proxy. *)
Definition bare_client : SecretsClient SyncWorld :=
  syncer_client sdemo_enc sdemo_verify true "https://secrets" None sync_marshal (λ _, EmptyString).
Definition bare_laws : @SyncerLaws SyncWorld _ _ bare_client _ :=
  syncer_laws sdemo_enc sdemo_verify true "https://secrets" None sync_marshal (λ _, EmptyString).
Definition bare_up : @SecretsUp SyncWorld _ _ bare_client _ bare_laws :=
  syncer_up sdemo_enc sdemo_verify true "https://secrets" None sync_marshal (λ _, EmptyString).
Definition bare_served : @SecretsServed SyncWorld bare_client sdemo_enc sdemo_verify true "" :=
  syncer_served sdemo_enc sdemo_verify true "https://secrets" None sync_marshal (λ _, EmptyString) sync_codec.
Definition bare_cycle :=
  @Syncer_sync SyncWorld bare_client (k8s_SecretManager sync_manager) _ sync_config sync_start.

Lemma fresh_sync_delivers_witness : (∃ o,
  ksecrets (y_world (Syncer_sync (SM := k8s_SecretManager sync_manager) sync_config sync_start).2)
    !! ("default", "bds-secret-shop")%string = Some o ∧ managed o = true ∧
  ks_data o !! "API_KEY"%string = Some "correct horse"%string) ∧
  ksecrets (y_world bare_cycle.2) = ksecrets (y_world sync_start).
Proof.
  split.
  2:{ pose proof (proj1 (@fresh_sync_delivers SyncWorld _ _ bare_client _ bare_laws bare_up sdemo_enc
        sdemo_verify true "" bare_served sync_manager sync_config sync_start eq_refl eq_refl
        ltac:(discriminate) sync_running eq_refl) eq_refl) as Hb.
      unfold bare_cycle. destruct (@Syncer_sync SyncWorld bare_client _ _ sync_config sync_start) as [r y'].
      exact (proj2 Hb). }
  assert (Hc : agent_of "east" "agent-1" (mkCluster "acme" (Some "agent-1"%string) "connected")
                 (store sdemo_2)) by (vm_compute; repeat split; discriminate).
  assert (Hh : healthy sdemo_2) by (split; vm_compute; reflexivity).
  destruct (proj2 (fresh_sync_delivers sdemo_enc sdemo_verify true "Bearer t-dev" sync_manager sync_config
    sync_start eq_refl eq_refl ltac:(discriminate) sync_running eq_refl)
    (mkCluster "acme" (Some "agent-1"%string) "connected") ltac:(vm_compute; discriminate)
    (ex_intro _ "dev"%string eq_refl) eq_refl eq_refl (λ p, eq_refl) sync_free sdemo_wf_2 Hh Hc
    ltac:(discriminate)) as (y' & Hs & _ & Hd).
  rewrite Hs. apply (Hd "shop"%string "API_KEY"%string "correct horse"%string). exists 2.
  assert (Hrun : (Agent_GetSecrets sdemo_enc true "east" "agent-1" "east" sdemo_2).1 =
    Ok [mkAgentSecret "shop" "API_KEY" "correct horse" 2]) by (vm_compute; reflexivity).
  destruct (Agent_GetSecrets sdemo_enc true "east" "agent-1" "east" sdemo_2) as [r s'] eqn:E.
  simpl in Hrun. subst r.
  destruct (agent_secrets_content sdemo_enc eq_refl _ _ _ _ _ _ _ sdemo_wf_2 E) as (_ & _ & c & Hag & Hin & _).
  assert (Ho : cl_org c = "acme").
  { destruct Hag as (_ & _ & Hc1 & _), Hc as (_ & _ & Hc2 & _). rewrite Hc2 in Hc1. by injection Hc1 as <-. }
  rewrite Ho in Hin. apply Hin. left.
Defined.
